(* ===== verification/_CoqProject ===== *)
-Q . S2P
Prelude.v
CommonMath.v
Params.v
RlpEncode.v
RlpRaw.v
RlpStream.v
RlpTyped.v
VmData.v
VmAnalysis.v
VmState.v
VmGas.v
VmInstr.v
VmJumpTable.v
VmInterp.v
VmWorld.v
VmSafe.v
VmExec.v
VmCost.v
VmTable.v
VmMachine.v
TrieEncoding.v
TrieTree.v
TrieNode.v
TrieOps.v
TrieStore.v
TrieRefine.v
TrieMap.v
TrieDatabase.v
TrieGC.v
TrieHasher.v
TrieProof.v
State.v
StateLaws.v
Sample.v
StateFinal.v
Transition.v
Types.v
Transactions.v
Blocks.v
Consensus.v
HeaderBatch.v
Processor.v
Validator.v
Heap.v
TxList.v
TxOrder.v
Lru.v
ChainDB.v
HeaderChain.v
Genesis.v
BlockChain.v
BlockChainLaws.v
BlockHead.v
BlockImport.v
BlockOpen.v
Clique.v
CliqueVotes.v
CliqueTurns.v
CliqueSnapshots.v
VmArith.v
VmFees.v
VmTheorems.v
StateTheorems.v
