(* ===== verification/Prelude.v ===== *)
(** * A verification of the go-ethereumAI node

    go-ethereumAI is an Ethereum node written in Go.  This library models its encodings, its
    tries and their database, its state, its virtual machine, the rules of consensus, and the chain from
    single transactions to the import of blocks as Rocq functions, and proves what
    these parts promise to each other.

    ** The parts and the files that model them

    - _Encodings_ ([src/rlp]).  [RlpEncode] models the encoder: the buffer with its list
      headers, written in one pass and spliced in another ([encbuf]), the readers made from it,
      and the encoders of each Go type.  [RlpRaw] models the functions on encoded bytes ([Split],
      [CountValues], ...), [RlpStream] the decoding stream with its stack of open lists, [RlpTyped]
      the decoders of each type.  Go types and values are the data types [rtype] and [dval].
    - _Arithmetic_ ([src/common], [src/common/math]).  [CommonMath]: words, hashes, addresses,
      exponentiation, byte access.
    - _Parameters_ ([src/params]).  [Params]: protocol constants, gas tables, fork rules.
    - _Virtual machine_ ([src/core/vm]).  [VmData] (stack, memory, opcodes), [VmAnalysis] (jump
      destinations), [VmState] (the interface of the machine to the state, as the class [StateDB],
      and the monad of instructions), [VmGas] (gas functions), [VmInstr] (instructions),
      [VmJumpTable] (the four instruction sets), [VmInterp] (the interpreter loop and the calls and
      creations that re-enter it).
    - _State_ ([src/core/state]).  [State]: accounts, the journal, snapshots; [StateFinal]: finalisation
      and roots.  Its tries are a class ([Trie], with the laws [TrieLaws]), its code store
      a record ([Database]).
    - _Tries_ ([src/trie]).  [TrieEncoding] (keys), [TrieNode] (nodes and their encoding),
      [TrieOps] (get, insert, delete), [TrieHasher] (hashing, commit, opening),
      [TrieDatabase] (the node cache with reference counts, written out in batches), [TrieProof]
      (Merkle proofs).
    - _Transactions and blocks_ ([src/core/types], [src/core]).  [Types] (headers, receipts, filters),
      [Transactions] (data, signers, senders), [Blocks] (encoding, roots of lists, assembly), [Transition]
      (a message applied to the state), [Processor] (the transactions of a block, with the consensus
      engine as a record [Engine] and its laws [EngineLaws]), [Validator] (bodies and states).
    - _Lists of transactions_ ([src/core/tx_list.go], [src/core/types/transaction.go]).  [Heap] is the heap of
      Go's standard library, [TxList] the list the pool keeps of an account, [TxOrder] the order in which a
      block takes transactions and the heap of prices.
    - _Consensus_ ([src/consensus]).  [Consensus] (proof of work: difficulty, headers, uncles, rewards),
      [HeaderBatch] (headers verified by concurrent workers, as a step relation), [Clique] (proof of
      authority) with [CliqueVotes], [CliqueTurns] and [CliqueSnapshots].
    - _Chain_ ([src/core/rawdb], [src/core]).  [ChainDB] (keys and records of the database), [Lru] (the
      caches in front of it), [HeaderChain], [Genesis], and [BlockChain] (blocks, reorganisation,
      import, rewinding) with [BlockChainLaws], [BlockHead], [BlockImport] and [BlockOpen] for its
      theorems.  The state of a block is a record of operations there ([StateOps]).

    A block is imported by [BlockChain], which asks [Consensus] or [Clique] for its header,
    [Validator] for its body, [Processor] for its effect on a [State], and [ChainDB] to
    keep it; [Processor] runs [Transition] for every transaction, and that runs [VmInterp].

    ** Conventions

    A machine integer is a [Z] whose wrap-around is written out ([u8], [u64], [i64]); a Go [int] has
    64 bits.  Big integers are [Z].  Byte slices are [list Z]; what depends on their sharing is
    said where it does.  A Go function that may fail returns an [outcome]: a result, an error, a panic,
    or [NoFuel] when the recursion of the model was cut short.  State is passed explicitly.
    Names follow the source; an operation whose name is taken has the type as a prefix
    ([db_insert] is [Database.insert]).

    Code that is not in the repository is an argument: the hash function, elliptic curves
    (precompiled contracts are an argument with the gas they take and what they return), the disk.
    The theorems state what they need of it as hypotheses.  A hash function is assumed to return
    32 bytes and to have no collisions, in the tries only among the strings at hand, so that
    a real hash function may satisfy it.

    ** What is shown

    - Encodings: the encoder computes the defining function of the encoding ([EncodeToBytes_spec],
      [EncodeToReader_spec]); the decoder accepts exactly the canonical encodings of a type and returns the
      encoded value ([DecodeBytes_spec]); both invert each other.
    - Virtual machine: every call and creation returns, without panic and with enough fuel,
      and leaves no more gas than it was given; a failed call restores the state; a static call does not
      change it; every step of the interpreter uses gas.  [VmWorld], [VmSafe], [VmExec], [VmCost],
      [VmTable], [VmMachine] hold the invariants and the Hoare logic behind it, [VmTheorems] the theorems.
      Arithmetic instructions compute their mathematical functions ([VmArith]); fees are those of the
      protocol ([VmFees]).
    - State: reverting to a snapshot restores every observation; each mutator has its effect and no
      other; the state satisfies the interface the machine assumes ([StateLaws], [StateTheorems]).
    - Tries: [TrieTree] gives the meaning of a trie as a tree of digits, with one canonical tree per
      content; [TrieStore] relates loaded, hashed and stored nodes to it; [TrieRefine] and
      [TrieMap] show that get, insert and delete are those of a finite map, whichever part of the trie is loaded.
      [TrieHasher] shows that the root hash depends on the content only and that a committed trie
      can be opened again.  [TrieGC] shows that collection and commits lose no node in use; [TrieProof] that
      proofs made of nodes under their own hashes prove what is in the trie and nothing else, and that a
      trie that is not empty can prove all of it.
    - Transactions: a signed transaction gives back its signer; applying a message settles gas and fees on
      every outcome, refusals included, and makes no money; finalising writes what changed, accounts and their
      storage.
    - Blocks: processing returns with receipts that add up and no money but the engine's; what the header of
      an accepted block says is true; its hash identifies it; a block is read back from its encoding.
    - Lists of transactions: the map sorted by nonce refines a sorted list; the list of an account stays
      well formed, and its caps spare work without changing the outcome; a block takes the dearest of the
      next transactions of all accounts; the pool discards the cheapest.
    - Consensus: accepted headers satisfy the rules; a concurrent batch answers in order and ends; the tally
      of an election is that of its votes; the snapshot found for a block is that of the headers from genesis
      up to it.
    - Chain: stored blocks are found; writing a header or a block does to the database what receiving it does to
      a tree of headers or blocks, of which the head is the heaviest; however the chain was built, the
      canonical numbers are one chain from the genesis block; where the states of the known blocks are
      there, importing blocks that are good for the states of their parents completes.

    [Sample] holds a concrete world (an ideal hash, a state, a contract), in which the hypotheses of the
    theorems are satisfied.

    ** Fuel

    The interpreter has fuel for its steps and for the depth of calls.  Every step costs gas or ends the
    run, and calls nest at most 1024 deep, so that fuel above the gas given is enough;
    the theorems say that with that much fuel [NoFuel] is not the result.  Recursion over nodes of a trie is
    bounded by the length of the key, or by the height (rank) of the nodes.  Walks along the chain (to a common
    ancestor, down to a block with its state) are bounded by the numbers of the blocks, which the theorems
    require of the fuel ([world]); imports inside an import have a depth of their own.  The loops of a
    heap are bounded by its length.

    ** What is not modelled

    Locks and event feeds, and concurrency but for the batches of headers; logging, metrics, the command line,
    consoles and remote interfaces; the peer-to-peer network, the synchronisation protocols with the
    receipt chains of fast sync, and light clients; the miner and the search for a proof of work; wallets and
    keys; the transaction pool around its lists, whose work is mostly timers, locks and events.  Text forms
    (JSON, hexadecimal) are not modelled, nor the stored chain configuration that depends on them.
    Cryptography and the disk are parameters. *)

From stdpp Require Import base numbers list gmap.
Open Scope Z_scope.

(** * Go integers

    Machine integers are [Z] with the wrap-around of their width written out.
    [u8], [u64] are the conversions [byte(x)] and [uint64(x)], [i64] is [int64(x)]
    (and [int(x)] on a 64-bit platform). *)

Definition u8 (z : Z) : Z := z mod 256.
Definition u64 (z : Z) : Z := z mod 2 ^ 64.
Definition i64 (z : Z) : Z := (z + 2 ^ 63) mod 2 ^ 64 - 2 ^ 63.
Definition MaxUint64 : Z := 2 ^ 64 - 1.

Definition is_u64 (z : Z) : Prop := 0 <= z < 2 ^ 64.
Definition is_byte (z : Z) : Prop := 0 <= z < 256.

(** A Go byte slice: its contents only (capacity is never observed). *)
Abbreviation bytes := (list Z).
Definition bytes_ok (b : bytes) : Prop := Forall is_byte b.

(** * Outcomes of Go code

    A call returns a value, returns an error, panics, or exhausts the fuel of its
    model.  The last two are kept apart from errors so that the absence of panics
    and termination are statements of their own. *)

Inductive outcome (E A : Type) : Type :=
| Ok (a : A)
| Err (e : E)
| Panic
| NoFuel.
Arguments Ok {E A} a.
Arguments Err {E A} e.
Arguments Panic {E A}.
Arguments NoFuel {E A}.

Definition outcome_bind {E A B} (m : outcome E A) (k : A -> outcome E B) : outcome E B :=
  match m with
  | Ok a => k a
  | Err e => Err e
  | Panic => Panic
  | NoFuel => NoFuel
  end.

Declare Scope go_scope.
Delimit Scope go_scope with go.
Notation "'let!' x ':=' m 'in' k" := (outcome_bind m (fun x => k))
  (at level 10, x pattern, m at level 100, k at level 200) : go_scope.
Open Scope go_scope.

(** An indexing or slicing operation that is out of range panics. *)
Definition must {E A} (o : option A) : outcome E A :=
  match o with Some a => Ok a | None => Panic end.

Lemma outcome_bind_ok {E A B} (m : outcome E A) (k : A -> outcome E B) b :
  outcome_bind m k = Ok b <-> exists a, m = Ok a /\ k a = Ok b.
Proof.
  split.
  - destruct m; simpl; intros H; try discriminate. eauto.
  - intros (a & -> & H). exact H.
Qed.

(** * Slices *)

Section slices.
Context {A : Type}.

Definition zlen (l : list A) : Z := Z.of_nat (length l).

(** [l[i]] *)
Definition zget (l : list A) (i : Z) : option A :=
  if (0 <=? i) then l !! Z.to_nat i else None.

(** [l[lo:hi]] *)
Definition zslice (l : list A) (lo hi : Z) : option (list A) :=
  if (0 <=? lo) && (lo <=? hi) && (hi <=? zlen l)
  then Some (take (Z.to_nat (hi - lo)) (drop (Z.to_nat lo) l))
  else None.

(** [l[i] = x] *)
Definition zset (l : list A) (i : Z) (x : A) : option (list A) :=
  if (0 <=? i) && (i <? zlen l) then Some (<[Z.to_nat i := x]> l) else None.

(** [copy(dst, src)] as the new contents of [dst]. *)
Definition gocopy (dst src : list A) : list A :=
  take (length dst) src ++ drop (length src) dst.
End slices.
#[global] Arguments zlen : simpl never.

(** * Automation *)

Create HintDb go.

(** Case analysis on every boolean comparison of the goal, closing the impossible
    branches. *)
Ltac zcase :=
  repeat match goal with
  | |- context [?a <? ?b] => destruct (Z.ltb_spec a b)
  | |- context [?a <=? ?b] => destruct (Z.leb_spec a b)
  | |- context [?a =? ?b] => destruct (Z.eqb_spec a b)
  end; simpl; try lia; try done.

Ltac zcase_in H :=
  repeat match type of H with
  | context [?a <? ?b] => destruct (Z.ltb_spec a b)
  | context [?a <=? ?b] => destruct (Z.leb_spec a b)
  | context [?a =? ?b] => destruct (Z.eqb_spec a b)
  end; simpl in H; try lia; try done.

(** Close the goal by [H], up to linear arithmetic in its arguments. *)
Ltac zexact H :=
  let E := fresh in
  match type of H with ?T =>
    match goal with |- ?G =>
      assert (T = G) as E by (f_equal; lia); rewrite <- E; exact H
    end
  end.

(** Evaluate [Z.to_nat] on literals. *)
Ltac ztonat :=
  repeat match goal with
  | |- context [Z.to_nat 0] => change (Z.to_nat 0) with 0%nat
  | |- context [Z.to_nat (Zpos ?p)] =>
      let k := eval compute in (Z.to_nat (Zpos p)) in change (Z.to_nat (Zpos p)) with k
  end.

(** Decide one comparison by [lia]. *)
Ltac zb :=
  repeat match goal with
  | |- context [?a <? ?b] =>
      first [ rewrite (proj2 (Z.ltb_lt a b)) by lia
            | rewrite (proj2 (Z.ltb_ge a b)) by lia ]
  | |- context [?a <=? ?b] =>
      first [ rewrite (proj2 (Z.leb_le a b)) by lia
            | rewrite (proj2 (Z.leb_gt a b)) by lia ]
  | |- context [?a =? ?b] =>
      first [ rewrite (proj2 (Z.eqb_eq a b)) by lia
            | rewrite (proj2 (Z.eqb_neq a b)) by lia ]
  end; simpl.

(** * Facts about machine integers *)

Lemma u64_range z : is_u64 (u64 z).
Proof. unfold is_u64, u64. apply Z.mod_pos_bound. lia. Qed.

Lemma u64_small z : is_u64 z -> u64 z = z.
Proof. unfold is_u64, u64. intros. by apply Z.mod_small. Qed.

Lemma u8_range z : is_byte (u8 z).
Proof. unfold is_byte, u8. apply Z.mod_pos_bound. lia. Qed.

Lemma u8_small z : is_byte z -> u8 z = z.
Proof. unfold is_byte, u8. intros. by apply Z.mod_small. Qed.

Lemma i64_small z : - 2 ^ 63 <= z < 2 ^ 63 -> i64 z = z.
Proof. intros. unfold i64. rewrite Z.mod_small; lia. Qed.

#[export] Hint Resolve u64_range u8_range : go.

(** * Facts about slices *)

Section slice_lemmas.
Context {A : Type}.
Implicit Types l : list A.

Lemma zlen_nonneg l : 0 <= zlen l.
Proof. unfold zlen. lia. Qed.

Lemma zlen_app l1 l2 : zlen (l1 ++ l2) = zlen l1 + zlen l2.
Proof. unfold zlen. rewrite length_app. lia. Qed.

Lemma zlen_cons x l : zlen (x :: l) = 1 + zlen l.
Proof. unfold zlen. simpl. lia. Qed.

Lemma zlen_nil : zlen (@nil A) = 0.
Proof. done. Qed.

Lemma zlen_replicate n (x : A) : zlen (replicate n x) = Z.of_nat n.
Proof. unfold zlen. by rewrite length_replicate. Qed.

Lemma zslice_some l lo hi :
  0 <= lo <= hi -> hi <= zlen l ->
  zslice l lo hi = Some (take (Z.to_nat (hi - lo)) (drop (Z.to_nat lo) l)).
Proof. intros. unfold zslice. by zb. Qed.

Lemma zslice_inv l lo hi r :
  zslice l lo hi = Some r ->
  0 <= lo <= hi /\ hi <= zlen l /\ r = take (Z.to_nat (hi - lo)) (drop (Z.to_nat lo) l).
Proof.
  unfold zslice.
  destruct (Z.leb_spec 0 lo), (Z.leb_spec lo hi), (Z.leb_spec hi (zlen l)); simpl;
    intros H'; simplify_eq; auto.
Qed.

Lemma zslice_len l lo hi r : zslice l lo hi = Some r -> zlen r = hi - lo.
Proof.
  intros (? & ? & ->)%zslice_inv. unfold zlen in *.
  rewrite length_take, length_drop. lia.
Qed.

Lemma zslice_app_l l1 l2 :
  zslice (l1 ++ l2) 0 (zlen l1) = Some l1.
Proof.
  rewrite zslice_some by (rewrite ?zlen_app; pose proof (zlen_nonneg l1); pose proof (zlen_nonneg l2); lia).
  rewrite Z.sub_0_r. change (Z.to_nat 0) with 0%nat. rewrite drop_0.
  unfold zlen. rewrite Nat2Z.id. by rewrite take_app_length.
Qed.

Lemma zslice_app_r l1 l2 :
  zslice (l1 ++ l2) (zlen l1) (zlen (l1 ++ l2)) = Some l2.
Proof.
  rewrite zlen_app.
  pose proof (zlen_nonneg l1); pose proof (zlen_nonneg l2).
  rewrite zslice_some by (rewrite ?zlen_app; lia).
  unfold zlen in *. rewrite Nat2Z.id, drop_app_length.
  rewrite take_ge by lia. done.
Qed.

Lemma zslice_mid l1 l2 l3 lo hi :
  lo = zlen l1 -> hi = zlen l1 + zlen l2 ->
  zslice (l1 ++ l2 ++ l3) lo hi = Some l2.
Proof.
  intros -> ->.
  pose proof (zlen_nonneg l1); pose proof (zlen_nonneg l2); pose proof (zlen_nonneg l3).
  rewrite zslice_some by (rewrite ?zlen_app; lia).
  unfold zlen in *. rewrite Nat2Z.id, drop_app_length.
  replace (Z.to_nat _) with (length l2) by lia. by rewrite take_app_length.
Qed.

Lemma zget_some l i : 0 <= i < zlen l -> exists x, zget l i = Some x.
Proof.
  intros Hi. unfold zget. zb. apply lookup_lt_is_Some. unfold zlen in *. lia.
Qed.

Lemma zget_inv l i x : zget l i = Some x -> 0 <= i < zlen l.
Proof.
  unfold zget. destruct (Z.leb_spec 0 i); [|done].
  intros Hl%lookup_lt_Some. unfold zlen. lia.
Qed.

Lemma zget_head x l : zget (x :: l) 0 = Some x.
Proof. done. Qed.

Lemma length_gocopy (dst src : list A) : length (gocopy dst src) = length dst.
Proof. unfold gocopy. rewrite length_app, length_take, length_drop. lia. Qed.

Lemma gocopy_all (dst src : list A) : length dst = length src -> gocopy dst src = src.
Proof.
  intros H. unfold gocopy. rewrite take_ge by lia. rewrite drop_ge by lia.
  by rewrite app_nil_r.
Qed.
End slice_lemmas.

(** * Big-endian integers

    [be_val] is [new(big.Int).SetBytes(b)], [be_fixed n z] the low [n] bytes of [z],
    [bitlen] is [z.BitLen()] and [big_bytes] is [z.Bytes()], the shortest big-endian
    form of the absolute value. *)

Fixpoint be_acc (acc : Z) (b : bytes) : Z :=
  match b with
  | [] => acc
  | x :: b => be_acc (acc * 256 + x) b
  end.

Definition be_val (b : bytes) : Z := be_acc 0 b.

Fixpoint be_fixed (n : nat) (z : Z) : bytes :=
  match n with
  | O => []
  | S n => be_fixed n (z / 256) ++ [z mod 256]
  end.

Definition bitlen (z : Z) : Z := if z =? 0 then 0 else Z.log2 (Z.abs z) + 1.

Definition byte_len (z : Z) : nat := Z.to_nat ((bitlen z + 7) / 8).

Definition big_bytes (z : Z) : bytes := be_fixed (byte_len z) (Z.abs z).

Lemma be_acc_val acc b : be_acc acc b = acc * 256 ^ zlen b + be_val b.
Proof.
  unfold be_val. revert acc. induction b as [|x b IH]; intros acc; cbn [be_acc].
  - unfold zlen. simpl. lia.
  - rewrite (IH (acc * 256 + x)), (IH (0 * 256 + x)), zlen_cons.
    rewrite Z.pow_add_r by (unfold zlen; lia). lia.
Qed.

Lemma be_val_nil : be_val [] = 0.
Proof. done. Qed.

Lemma be_val_cons x b : be_val (x :: b) = x * 256 ^ zlen b + be_val b.
Proof. unfold be_val at 1. cbn [be_acc]. rewrite be_acc_val. lia. Qed.

Lemma be_val_app a b : be_val (a ++ b) = be_val a * 256 ^ zlen b + be_val b.
Proof.
  induction a as [|x a IH]; simpl.
  - rewrite be_val_nil. lia.
  - rewrite !be_val_cons, IH, zlen_app, Z.pow_add_r by apply zlen_nonneg. lia.
Qed.

Lemma be_val_bound b : bytes_ok b -> 0 <= be_val b < 256 ^ zlen b.
Proof.
  induction 1 as [|x b Hx Hb IH].
  - rewrite be_val_nil. unfold zlen. simpl. lia.
  - rewrite be_val_cons, zlen_cons, Z.pow_add_r by (try apply zlen_nonneg; lia).
    unfold is_byte in Hx. assert (0 < 256 ^ zlen b) by (apply Z.pow_pos_nonneg; [lia|apply zlen_nonneg]).
    nia.
Qed.

Lemma length_be_fixed n z : length (be_fixed n z) = n.
Proof. revert z; induction n; intros z; simpl; [done|]. rewrite length_app, IHn. simpl. lia. Qed.

Lemma zlen_be_fixed n z : zlen (be_fixed n z) = Z.of_nat n.
Proof. unfold zlen. by rewrite length_be_fixed. Qed.

Lemma be_fixed_ok n z : bytes_ok (be_fixed n z).
Proof.
  revert z; induction n; intros z; simpl; [constructor|].
  apply Forall_app; split; [apply IHn|]. repeat constructor; apply u8_range.
Qed.

Lemma be_val_fixed n z : be_val (be_fixed n z) = z mod 256 ^ Z.of_nat n.
Proof.
  revert z; induction n as [|n IH]; intros z; cbn [be_fixed].
  - rewrite be_val_nil. simpl. by rewrite Z.mod_1_r.
  - rewrite be_val_app, IH, be_val_cons, be_val_nil. unfold zlen; simpl length.
    change (256 ^ Z.of_nat 1) with 256. change (256 ^ Z.of_nat 0) with 1.
    replace (Z.of_nat (S n)) with (1 + Z.of_nat n) by lia.
    rewrite Z.pow_add_r, Z.pow_1_r by lia.
    rewrite Z.rem_mul_r; lia.
Qed.

Lemma be_fixed_val b : bytes_ok b -> be_fixed (length b) (be_val b) = b.
Proof.
  intros Hb. induction b as [|x b IH] using rev_ind; [done|].
  apply Forall_app in Hb as [Hb Hx]. inversion Hx as [|? ? Hx' _]; subst.
  rewrite length_app. simpl. rewrite Nat.add_1_r. cbn [be_fixed].
  rewrite be_val_app, be_val_cons, be_val_nil. unfold zlen; simpl length.
  change (256 ^ Z.of_nat 1) with 256. change (256 ^ Z.of_nat 0) with 1.
  unfold is_byte in Hx'.
  replace ((be_val b * 256 + (x * 1 + 0)) / 256) with (be_val b).
  - replace ((be_val b * 256 + (x * 1 + 0)) mod 256) with x; [by rewrite IH|].
    rewrite Z.add_comm, Z.mod_add by lia. rewrite Z.mod_small; lia.
  - rewrite Z.add_comm, Z.div_add by lia. rewrite (Z.div_small (x*1+0)); lia.
Qed.

Lemma be_val_inj a b :
  bytes_ok a -> bytes_ok b -> length a = length b -> be_val a = be_val b -> a = b.
Proof.
  intros Ha Hb Hl Hv. rewrite <- (be_fixed_val a Ha), <- (be_fixed_val b Hb). by rewrite Hl, Hv.
Qed.

(** The number of bytes of [z] is the least [n] with [z < 256 ^ n]. *)
Lemma byte_len_upper z : 0 <= z -> z < 256 ^ Z.of_nat (byte_len z).
Proof.
  intros Hz. unfold byte_len, bitlen. destruct (Z.eqb_spec z 0) as [->|Hnz]; [done|].
  rewrite Z.abs_eq by lia.
  assert (0 <= Z.log2 z) by apply Z.log2_nonneg.
  rewrite Z2Nat.id by (apply Z.div_pos; lia).
  change 256 with (2 ^ 8). rewrite <- Z.pow_mul_r; [|lia|apply Z.div_pos; lia].
  eapply Z.lt_le_trans; [apply Z.log2_spec; lia|].
  apply Z.pow_le_mono_r; [lia|].
  pose proof (Z.div_mod (Z.log2 z + 1 + 7) 8 ltac:(lia)).
  pose proof (Z.mod_pos_bound (Z.log2 z + 1 + 7) 8 ltac:(lia)). lia.
Qed.

Lemma byte_len_lower z n : 0 < z -> 256 ^ n <= z -> n < Z.of_nat (byte_len z).
Proof.
  intros Hz Hn. destruct (Z.lt_ge_cases n 0); [lia|].
  unfold byte_len, bitlen. destruct (Z.eqb_spec z 0) as [->|Hnz]; [lia|].
  rewrite Z.abs_eq by lia.
  assert (8 * n <= Z.log2 z).
  { apply Z.log2_le_pow2; [lia|]. rewrite Z.pow_mul_r by lia. exact Hn. }
  pose proof (Z.div_mod (Z.log2 z + 1 + 7) 8 ltac:(lia)).
  pose proof (Z.mod_pos_bound (Z.log2 z + 1 + 7) 8 ltac:(lia)).
  rewrite Z2Nat.id by (apply Z.div_pos; lia). lia.
Qed.

Lemma byte_len_unique z n : 256 ^ (n - 1) <= z < 256 ^ n -> 0 < n -> byte_len z = Z.to_nat n.
Proof.
  intros [Hlo Hhi] Hn.
  assert (0 < 256 ^ (n - 1)) by (apply Z.pow_pos_nonneg; lia).
  pose proof (byte_len_lower z (n - 1) ltac:(lia) Hlo).
  destruct (Z.lt_ge_cases n (Z.of_nat (byte_len z))) as [Hlt|]; [|lia].
  exfalso. unfold byte_len, bitlen in Hlt. destruct (Z.eqb_spec z 0); [lia|].
  rewrite Z.abs_eq in Hlt by lia.
  assert (Z.log2 z < 8 * n).
  { apply Z.log2_lt_pow2; [lia|]. rewrite Z.pow_mul_r by lia. exact Hhi. }
  pose proof (Z.div_mod (Z.log2 z + 1 + 7) 8 ltac:(lia)).
  pose proof (Z.mod_pos_bound (Z.log2 z + 1 + 7) 8 ltac:(lia)).
  pose proof (Z.log2_nonneg z).
  rewrite Z2Nat.id in Hlt by (apply Z.div_pos; lia). lia.
Qed.

Lemma byte_len_spec z :
  0 < z -> 0 < Z.of_nat (byte_len z) /\
           256 ^ (Z.of_nat (byte_len z) - 1) <= z < 256 ^ Z.of_nat (byte_len z).
Proof.
  intros Hz. pose proof (byte_len_upper z ltac:(lia)) as Hup.
  assert (0 < Z.of_nat (byte_len z)) as Hpos.
  { apply byte_len_lower; [lia|]. simpl. lia. }
  split; [done|]. split; [|done].
  revert Hpos. unfold byte_len, bitlen. destruct (Z.eqb_spec z 0); [lia|]. intros Hpos.
  rewrite Z.abs_eq in * by lia.
  pose proof (Z.log2_nonneg z).
  rewrite Z2Nat.id in * by (apply Z.div_pos; lia).
  pose proof (Z.div_mod (Z.log2 z + 1 + 7) 8 ltac:(lia)).
  pose proof (Z.mod_pos_bound (Z.log2 z + 1 + 7) 8 ltac:(lia)).
  change 256 with (2 ^ 8). rewrite <- Z.pow_mul_r by lia.
  etrans; [|apply Z.log2_spec; lia].
  apply Z.pow_le_mono_r; lia.
Qed.

Lemma byte_len_step z : 256 <= z -> byte_len z = S (byte_len (z / 256)).
Proof.
  intros Hz. assert (0 < z / 256) as Hd by (apply Z.div_str_pos; lia).
  destruct (byte_len_spec _ Hd) as (Hp & Hlo & Hhi).
  rewrite (byte_len_unique z (1 + Z.of_nat (byte_len (z / 256)))); [lia| |lia].
  pose proof (Z.div_mod z 256 ltac:(lia)). pose proof (Z.mod_pos_bound z 256 ltac:(lia)).
  replace (1 + Z.of_nat (byte_len (z / 256)) - 1) with (1 + (Z.of_nat (byte_len (z / 256)) - 1)) by lia.
  rewrite !(Z.pow_add_r 256 1), Z.pow_1_r by lia. lia.
Qed.

Lemma byte_len_small z : 0 < z < 256 -> byte_len z = 1%nat.
Proof. intros. rewrite (byte_len_unique z 1); simpl; lia. Qed.

Lemma zlen_big_bytes z : zlen (big_bytes z) = Z.of_nat (byte_len z).
Proof. apply zlen_be_fixed. Qed.

Lemma byte_len_u64 z : 0 <= z < 2 ^ 64 -> Z.of_nat (byte_len z) <= 8.
Proof.
  intros Hz. destruct (Z.eq_dec z 0) as [->|]; [done|].
  destruct (byte_len_spec z ltac:(lia)) as (Hp & Hlo & Hhi).
  destruct (Z.le_gt_cases (Z.of_nat (byte_len z)) 8); [done|].
  assert (256 ^ 8 <= 256 ^ (Z.of_nat (byte_len z) - 1)) by (apply Z.pow_le_mono_r; lia).
  lia.
Qed.

Lemma big_bytes_ok z : bytes_ok (big_bytes z).
Proof. apply be_fixed_ok. Qed.

Lemma big_bytes_0 : big_bytes 0 = [].
Proof. done. Qed.

Lemma be_val_big_bytes z : 0 <= z -> be_val (big_bytes z) = z.
Proof.
  intros Hz. unfold big_bytes. rewrite be_val_fixed, Z.abs_eq by done.
  apply Z.mod_small. split; [done|]. by apply byte_len_upper.
Qed.

(** A byte string without a leading zero is the shortest form of its value. *)
Lemma big_bytes_be_val x b :
  bytes_ok (x :: b) -> x <> 0 -> big_bytes (be_val (x :: b)) = x :: b.
Proof.
  intros Hb Hx. pose proof (be_val_bound _ Hb) as [Hlo Hhi].
  inversion Hb as [|? ? Hx' Hb']; subst. unfold is_byte in Hx'.
  pose proof (be_val_bound _ Hb') as [Hlo' Hhi'].
  assert (256 ^ zlen b <= be_val (x :: b)) as Hge.
  { rewrite be_val_cons. assert (0 < 256 ^ zlen b) by (apply Z.pow_pos_nonneg; [lia|apply zlen_nonneg]). nia. }
  unfold big_bytes.
  rewrite (byte_len_unique _ (zlen (x :: b))).
  - unfold zlen. rewrite Nat2Z.id, Z.abs_eq by done. by apply be_fixed_val.
  - rewrite zlen_cons. split; [|rewrite zlen_cons in Hhi; lia].
    replace (1 + zlen b - 1) with (zlen b) by lia. done.
  - rewrite zlen_cons. pose proof (zlen_nonneg b). lia.
Qed.
