(* ===== verification/CommonMath.v ===== *)
(** Integer and byte helpers: [src/common/math/big.go], [src/common/math/integer.go],
    [src/common/bytes.go] and the fixed-size byte arrays of [src/common/types.go].

    A [*big.Int] is a [Z]; the in-place arithmetic of the source is written as functions
    that return the new value of the receiver.  Hashes and addresses are byte lists. *)

From stdpp Require Import base numbers list.
From S2P Require Import Prelude.
Local Open Scope Z_scope.

(** * common/math *)

Definition tt255 : Z := 2 ^ 255.
Definition tt256 : Z := 2 ^ 256.
Definition tt256m1 : Z := tt256 - 1.

Definition BigMax (x y : Z) : Z := if x <? y then y else x.
Definition BigMin (x y : Z) : Z := if x >? y then y else x.

(** [x.Bits()]: the words of the absolute value, least significant first. *)
Definition wordBits : Z := 64.
Definition wordBytes : nat := 8.
Definition big_words (z : Z) : list Z :=
  (fun i : nat => Z.abs z / 2 ^ (wordBits * Z.of_nat i) mod 2 ^ wordBits)
    <$> seq 0 (Z.to_nat ((bitlen z + wordBits - 1) / wordBits)).

Fixpoint FirstBitSet_loop (fuel : nat) (v i : Z) : Z :=
  match fuel with
  | O => bitlen v
  | S fuel => if i <? bitlen v then if Z.testbit v i then i else FirstBitSet_loop fuel v (i + 1)
              else bitlen v
  end.
Definition FirstBitSet (v : Z) : Z := FirstBitSet_loop (Z.to_nat (bitlen v)) v 0.

(** [ReadBits]: the bytes of a word go to [buf], from index [i - 1] downwards. *)
Fixpoint ReadBits_word (j : nat) (d : Z) (i : nat) (buf : bytes) : nat * bytes :=
  match j, i with
  | S j, S i => ReadBits_word j (Z.shiftr d 8) i (<[i := u8 d]> buf)
  | _, _ => (i, buf)
  end.
Fixpoint ReadBits_words (ws : list Z) (i : nat) (buf : bytes) : bytes :=
  match ws with
  | [] => buf
  | d :: ws => let '(i, buf) := ReadBits_word wordBytes d i buf in ReadBits_words ws i buf
  end.
Definition ReadBits (bigint : Z) (buf : bytes) : bytes :=
  ReadBits_words (big_words bigint) (length buf) buf.

Definition PaddedBigBytes (bigint : Z) (n : nat) : bytes :=
  if Z.of_nat n <=? bitlen bigint / 8 then big_bytes bigint
  else ReadBits bigint (replicate n 0).

Definition bigEndianByteAt (bigint n : Z) : Z :=
  let words := big_words bigint in
  let i := n / Z.of_nat wordBytes in
  if i >=? zlen words then 0
  else
    let word := default 0 (zget words i) in
    let shift := 8 * (n mod Z.of_nat wordBytes) in
    u8 (Z.shiftr word shift).

Definition Byte (bigint padlength n : Z) : Z :=
  if n >=? padlength then 0 else bigEndianByteAt bigint (padlength - 1 - n).

Definition U256 (x : Z) : Z := Z.land x tt256m1.
Definition S256 (x : Z) : Z := if x <? tt255 then x else x - tt256.

(** [Exp]: the loop squares [base] in place, so the new value of [base] is part of the
    result. *)
Fixpoint Exp_word (i : nat) (word result base : Z) : Z * Z :=
  match i with
  | O => (result, base)
  | S i =>
      let result := if Z.land word 1 =? 1 then U256 (result * base) else result in
      Exp_word i (Z.shiftr word 1) result (U256 (base * base))
  end.
Fixpoint Exp_words (ws : list Z) (result base : Z) : Z * Z :=
  match ws with
  | [] => (result, base)
  | w :: ws => let '(result, base) := Exp_word (Z.to_nat wordBits) w result base in Exp_words ws result base
  end.
Definition Exp (base exponent : Z) : Z * Z := Exp_words (big_words exponent) 1 base.

Definition SafeSub (x y : Z) : Z * bool := (u64 (x - y), x <? y).
Definition SafeAdd (x y : Z) : Z * bool := (u64 (x + y), y >? MaxUint64 - x).
Definition SafeMul (x y : Z) : Z * bool :=
  if (x =? 0) || (y =? 0) then (0, false) else (u64 (x * y), y >? MaxUint64 / x).

(** * common/bytes.go, common/types.go *)

Definition RightPadBytes (slice : bytes) (l : Z) : bytes :=
  if l <=? zlen slice then slice else gocopy (replicate (Z.to_nat l) 0) slice.

Definition LeftPadBytes (slice : bytes) (l : Z) : bytes :=
  if l <=? zlen slice then slice
  else replicate (Z.to_nat (l - zlen slice)) 0 ++ gocopy (replicate (Z.to_nat (zlen slice)) 0) slice.

Definition HashLength : nat := 32.
Definition AddressLength : nat := 20.

(** [SetBytes] on a zero array of [n] bytes: crop on the left, then copy to the right end. *)
Definition SetBytes (n : nat) (b : bytes) : bytes :=
  let b := if (n <? length b)%nat then drop (length b - n) b else b in
  replicate (n - length b) 0 ++ b.

Definition BytesToHash (b : bytes) : bytes := SetBytes HashLength b.
Definition BigToHash (b : Z) : bytes := BytesToHash (big_bytes b).
Definition Hash_Big (h : bytes) : Z := be_val h.
Definition EmptyHash (h : bytes) : bool := bool_decide (h = replicate HashLength 0).
Definition BytesToAddress (b : bytes) : bytes := SetBytes AddressLength b.
Definition BigToAddress (b : Z) : bytes := BytesToAddress (big_bytes b).
Definition Address_Big (a : bytes) : Z := be_val a.

Definition is_hash (h : bytes) : Prop := length h = HashLength /\ bytes_ok h.
Definition is_address (a : bytes) : Prop := length a = AddressLength /\ bytes_ok a.

(** A word of the machine: an integer of 256 bits. *)
Definition is_word (z : Z) : Prop := 0 <= z < 2 ^ 256.

(** * Lemmas *)

Lemma U256_mod x : U256 x = x mod 2 ^ 256.
Proof. unfold U256, tt256m1, tt256. rewrite Z.sub_1_r, <- Z.ones_equiv. apply Z.land_ones. lia. Qed.

Lemma U256_word x : is_word (U256 x).
Proof. rewrite U256_mod. apply Z.mod_pos_bound. lia. Qed.

Lemma U256_small x : is_word x -> U256 x = x.
Proof. intros Hx. rewrite U256_mod. by apply Z.mod_small. Qed.

Lemma SafeAdd_spec x y :
  is_u64 x -> is_u64 y ->
  SafeAdd x y = (u64 (x + y), bool_decide (2 ^ 64 <= x + y)).
Proof.
  unfold is_u64, SafeAdd, MaxUint64. intros. f_equal. rewrite Z.gtb_ltb.
  destruct (Z.ltb_spec (2 ^ 64 - 1 - x) y); symmetry; [apply bool_decide_eq_true|apply bool_decide_eq_false]; lia.
Qed.

Lemma SafeMul_spec x y :
  is_u64 x -> is_u64 y ->
  SafeMul x y = (u64 (x * y), bool_decide (2 ^ 64 <= x * y)).
Proof.
  unfold is_u64, SafeMul, MaxUint64. intros Hx Hy.
  destruct (Z.eqb_spec x 0) as [->|]; [done|]. destruct (Z.eqb_spec y 0) as [->|].
  { simpl. rewrite Z.mul_0_r. done. }
  simpl. f_equal. rewrite Z.gtb_ltb.
  assert ((2 ^ 64 - 1) / x < y <-> 2 ^ 64 <= x * y) as Hiff.
  { pose proof (Z.mul_div_le (2 ^ 64 - 1) x ltac:(lia)).
    pose proof (Z.mul_succ_div_gt (2 ^ 64 - 1) x ltac:(lia)). split; intros; nia. }
  destruct (Z.ltb_spec ((2 ^ 64 - 1) / x) y); symmetry;
    [apply bool_decide_eq_true; tauto|apply bool_decide_eq_false; lia].
Qed.

(** ** Words of an integer *)

Fixpoint words_val (ws : list Z) : Z :=
  match ws with [] => 0 | w :: ws => w + 2 ^ wordBits * words_val ws end.

Lemma words_val_seq z m n :
  0 <= z ->
  words_val ((fun i : nat => z / 2 ^ (wordBits * Z.of_nat i) mod 2 ^ wordBits) <$> seq m n)
  = z / 2 ^ (wordBits * Z.of_nat m) mod 2 ^ (wordBits * Z.of_nat n).
Proof.
  intros Hz. unfold wordBits. revert m. induction n as [|n IH]; intros m; cbn [seq fmap list_fmap words_val].
  - change (2 ^ (64 * Z.of_nat 0)) with 1. by rewrite Z.mod_1_r.
  - rewrite IH. replace (64 * Z.of_nat (S m)) with (64 * Z.of_nat m + 64) by lia.
    replace (64 * Z.of_nat (S n)) with (64 + 64 * Z.of_nat n) by lia.
    rewrite !Z.pow_add_r, <- Z.div_div by lia. rewrite Z.rem_mul_r by lia. done.
Qed.

Lemma bitlen_bound z : 0 <= z -> z < 2 ^ bitlen z.
Proof.
  intros Hz. unfold bitlen. destruct (Z.eqb_spec z 0) as [->|]; [done|].
  rewrite Z.abs_eq by lia. pose proof (Z.log2_spec z ltac:(lia)). rewrite Z.add_1_r. lia.
Qed.

Lemma bitlen_nonneg z : 0 <= bitlen z.
Proof. unfold bitlen. case_match; [lia|]. pose proof (Z.log2_nonneg (Z.abs z)). lia. Qed.

Lemma bitlen_le z n : 0 <= z -> 0 <= n -> bitlen z <= n <-> z < 2 ^ n.
Proof.
  intros Hz Hn. split.
  - intros Hb. pose proof (bitlen_bound z Hz). assert (2 ^ bitlen z <= 2 ^ n) by (apply Z.pow_le_mono_r; lia). lia.
  - intros Hlt. unfold bitlen. destruct (Z.eqb_spec z 0); [lia|]. rewrite Z.abs_eq by lia.
    assert (Z.log2 z < n) by (apply Z.log2_lt_pow2; lia). lia.
Qed.

Lemma words_val_big z : 0 <= z -> words_val (big_words z) = z.
Proof.
  intros Hz. unfold big_words. rewrite Z.abs_eq, words_val_seq by done.
  change (2 ^ (wordBits * Z.of_nat 0)) with 1. rewrite Z.div_1_r. apply Z.mod_small. split; [done|].
  pose proof (bitlen_nonneg z). apply (Z.lt_le_trans _ (2 ^ bitlen z)); [by apply bitlen_bound|].
  apply Z.pow_le_mono_r; [lia|]. unfold wordBits. Z.to_euclidean_division_equations; lia.
Qed.

Lemma big_words_range z : Forall (fun w => 0 <= w < 2 ^ wordBits) (big_words z).
Proof. apply Forall_fmap, Forall_true. intros i. apply Z.mod_pos_bound. done. Qed.

(** ** Congruence modulo [2 ^ 256] *)

Definition eqm256 (a b : Z) : Prop := (2 ^ 256 | a - b).
Infix "==" := eqm256 (at level 70, no associativity) : go_scope.

Lemma eqm256_mod a b : a == b <-> a mod 2 ^ 256 = b mod 2 ^ 256.
Proof.
  unfold eqm256. split.
  - intros [k Hk]. replace a with (b + k * 2 ^ 256) by lia. by rewrite Z.mod_add.
  - intros Hm. exists (a / 2 ^ 256 - b / 2 ^ 256).
    pose proof (Z.div_mod a (2 ^ 256) ltac:(lia)). pose proof (Z.div_mod b (2 ^ 256) ltac:(lia)). lia.
Qed.

#[export] Instance eqm256_equivalence : Equivalence eqm256.
Proof. split; intros ?; intros; rewrite !eqm256_mod in *; congruence. Qed.

#[export] Instance eqm256_add : Proper (eqm256 ==> eqm256 ==> eqm256) Z.add.
Proof. intros a a' [k Hk] b b' [l Hl]. exists (k + l). lia. Qed.

#[export] Instance eqm256_opp : Proper (eqm256 ==> eqm256) Z.opp.
Proof. intros a a' [k Hk]. exists (- k). lia. Qed.

#[export] Instance eqm256_sub : Proper (eqm256 ==> eqm256 ==> eqm256) Z.sub.
Proof. intros a a' [k Hk] b b' [l Hl]. exists (k - l). lia. Qed.

#[export] Instance eqm256_mul : Proper (eqm256 ==> eqm256 ==> eqm256) Z.mul.
Proof.
  intros a a' [k Hk] b b' [l Hl]. exists (k * b + a' * l).
  replace a with (a' + k * 2 ^ 256) by lia. replace b with (b' + l * 2 ^ 256) by lia. ring.
Qed.

#[export] Instance eqm256_pow : Proper (eqm256 ==> eq ==> eqm256) Z.pow.
Proof.
  intros a a' Ha n _ <-. destruct (Z.neg_nonneg_cases n) as [Hn|Hn]; [by rewrite !Z.pow_neg_r|].
  pattern n. apply natlike_ind; [done| |done]. intros m Hm IH. rewrite !Z.pow_succ_r by done. by rewrite IH, Ha.
Qed.

Lemma U256_eqm x : U256 x == x.
Proof. apply eqm256_mod. rewrite U256_mod. by apply Z.mod_mod. Qed.

(** The representative of a congruence class. *)
Lemma U256_unique x y : is_word y -> x == y -> U256 x = y.
Proof. intros Hy Hxy. rewrite U256_mod, (proj1 (eqm256_mod x y) Hxy). by apply Z.mod_small. Qed.

(** ** Exponentiation *)

Lemma land_1 w : (Z.land w 1 =? 1) = Z.odd w.
Proof. change 1 with (Z.ones 1) at 1. rewrite Z.land_ones by lia. rewrite Zmod_odd. by destruct (Z.odd w). Qed.

Lemma Exp_word_spec i word result base result' base' :
  0 <= word < 2 ^ Z.of_nat i ->
  Exp_word i word result base = (result', base') ->
  result' == result * base ^ word /\ base' == base ^ (2 ^ Z.of_nat i).
Proof.
  revert word result base. induction i as [|i IH]; intros word result base Hw.
  { simpl. intros [= <- <-]. assert (word = 0) as -> by (simpl in Hw; lia). simpl.
    by rewrite Z.mul_1_r, Z.pow_1_r. }
  cbn [Exp_word]. rewrite land_1. intros He. rewrite Nat2Z.inj_succ, Z.pow_succ_r in * by lia.
  rewrite Z.shiftr_div_pow2, Z.pow_1_r in He by lia.
  apply IH in He as [Hr Hb]; [|Z.to_euclidean_division_equations; lia].
  assert (0 <= word / 2) by (Z.to_euclidean_division_equations; lia). split.
  - rewrite Hr, (U256_eqm (base * base)), <- Z.pow_2_r, <- Z.pow_mul_r by lia. pose proof (Z.div_mod word 2 ltac:(lia)) as Hd.
    rewrite Zmod_odd in Hd.
    transitivity (result * base ^ (2 * (word / 2) + if Z.odd word then 1 else 0)); [|by rewrite <- Hd].
    destruct (Z.odd word).
    + by rewrite U256_eqm, Z.pow_add_r, Z.pow_1_r, (Z.mul_comm (base ^ _) base), Z.mul_assoc by lia.
    + by rewrite Z.add_0_r.
  - by rewrite Hb, U256_eqm, <- Z.pow_2_r, <- Z.pow_mul_r by lia.
Qed.

Lemma Exp_words_spec ws result base :
  Forall (fun w => 0 <= w < 2 ^ wordBits) ws ->
  fst (Exp_words ws result base) == result * base ^ words_val ws.
Proof.
  intros Hws. revert result base. induction Hws as [|w ws Hw Hws IH]; intros result base; cbn [Exp_words words_val].
  { simpl. by rewrite Z.mul_1_r. }
  assert (exists n, Z.to_nat wordBits = n /\ Z.of_nat n = wordBits) as (n & -> & Hn) by (by eexists).
  destruct (Exp_word n w result base) as [r b] eqn:He.
  apply Exp_word_spec in He as [Hr Hb]; [|by rewrite Hn].
  assert (0 <= words_val ws).
  { clear -Hws. induction Hws as [|w ws Hw _ IH]; cbn [words_val]; [lia|]. unfold wordBits in *. lia. }
  rewrite Hn in Hb. assert (0 <= 2 ^ wordBits * words_val ws) by (unfold wordBits; lia).
  rewrite IH, Hr, Hb, <- Z.pow_mul_r, Z.pow_add_r, Z.mul_assoc by (done || lia). done.
Qed.

Lemma Exp_word_word i word result base :
  is_word result -> is_word (fst (Exp_word i word result base)).
Proof.
  revert word result base. induction i as [|i IH]; intros word result base Hr; simpl; [done|].
  apply IH. case_match; [apply U256_word|done].
Qed.

Lemma Exp_words_word ws result base : is_word result -> is_word (fst (Exp_words ws result base)).
Proof.
  revert result base. induction ws as [|w ws IH]; intros result base Hr; cbn [Exp_words]; [done|].
  generalize (Z.to_nat wordBits). intros n. pose proof (Exp_word_word n w result base Hr) as Hw.
  destruct (Exp_word n w result base) as [r b]. by apply IH.
Qed.

Lemma Exp_mod base exponent : 0 <= exponent -> fst (Exp base exponent) = base ^ exponent mod 2 ^ 256.
Proof.
  intros He. pose proof (Exp_words_spec (big_words exponent) 1 base (big_words_range exponent)) as Hs.
  rewrite words_val_big, Z.mul_1_l in Hs by done. rewrite <- (proj1 (eqm256_mod _ _) Hs).
  symmetry. apply Z.mod_small. apply Exp_words_word. unfold is_word. lia.
Qed.

(** ** Byte representations *)

Lemma be_fixed_cons k z : be_fixed (S k) z = (z / 256 ^ Z.of_nat k) mod 256 :: be_fixed k z.
Proof.
  revert z. induction k as [|k IH]; intros z.
  { cbn [be_fixed app]. change (256 ^ Z.of_nat 0) with 1. by rewrite Z.div_1_r. }
  cbn [be_fixed] in *. rewrite IH. cbn [app]. f_equal.
  rewrite Z.div_div by lia. do 2 f_equal. rewrite Nat2Z.inj_succ, Z.pow_succ_r by lia. done.
Qed.

Lemma be_fixed_zeros n k z :
  0 <= z < 256 ^ Z.of_nat k -> (k <= n)%nat -> be_fixed n z = replicate (n - k) 0 ++ be_fixed k z.
Proof.
  intros Hz Hk. replace n with ((n - k) + k)%nat at 1 by lia. generalize (n - k)%nat as m. intros m.
  induction m as [|m IH]; [done|]. cbn [Nat.add replicate app]. rewrite be_fixed_cons, IH. f_equal.
  rewrite Z.div_small; [done|]. split; [lia|]. apply (Z.lt_le_trans _ (256 ^ Z.of_nat k)); [lia|].
  apply Z.pow_le_mono_r; lia.
Qed.

(** The bytes written so far are the low bytes of the number. *)
Lemma ReadBits_word_spec j d i k z :
  0 <= z -> d mod 256 ^ Z.of_nat j = (z / 256 ^ Z.of_nat k) mod 256 ^ Z.of_nat j -> 0 <= d ->
  exists m, (m <= j)%nat /\ (m <= i)%nat /\ (i = m \/ m = j) /\
    ReadBits_word j d i (replicate i 0 ++ be_fixed k z)
    = ((i - m)%nat, replicate (i - m) 0 ++ be_fixed (k + m) z).
Proof.
  intros Hz. revert d i k. induction j as [|j IH]; intros d i k Hd Hd0; simpl ReadBits_word.
  { exists 0%nat. rewrite Nat.sub_0_r, Nat.add_0_r. repeat split; try lia. }
  destruct i as [|i].
  { exists 0%nat. rewrite Nat.add_0_r. repeat split; lia. }
  assert (<[i:=u8 d]> (replicate (S i) 0 ++ be_fixed k z) = replicate i 0 ++ be_fixed (S k) z) as ->.
  { rewrite replicate_S_end, <- app_assoc. rewrite insert_app_r_alt by (by rewrite length_replicate).
    rewrite length_replicate, Nat.sub_diag. cbn [app insert list_insert]. rewrite be_fixed_cons. do 2 f_equal.
    unfold u8. apply (f_equal (fun x => x mod 256)) in Hd.
    rewrite Nat2Z.inj_succ, Z.pow_succ_r in Hd by lia.
    rewrite <- !Znumtheory.Zmod_div_mod in Hd; try lia; try (apply Z.mul_pos_pos; [lia|apply Z.pow_pos_nonneg; lia]);
      try (by apply Z.divide_factor_l). }
  destruct (IH (Z.shiftr d 8) i (S k)) as (m & Hm & Hmi & Hor & ->).
  - rewrite Z.shiftr_div_pow2 by lia. change (2 ^ 8) with 256.
    apply (f_equal (fun x => x / 256)) in Hd. rewrite Nat2Z.inj_succ, Z.pow_succ_r in Hd by lia.
    rewrite !Z.rem_mul_r in Hd by (try lia; apply Z.pow_pos_nonneg; lia).
    rewrite !(Z.add_comm (_ mod 256)), !(Z.mul_comm 256), !Z.div_add_l in Hd by lia.
    rewrite !(Z.div_small (_ mod 256)), !Z.add_0_r in Hd by (apply Z.mod_pos_bound; lia).
    rewrite Hd, Z.div_div by lia. do 2 f_equal. rewrite Nat2Z.inj_succ, Z.pow_succ_r by lia. lia.
  - by apply Z.shiftr_nonneg.
  - exists (S m). repeat split; try lia. by replace (k + S m)%nat with (S k + m)%nat by lia.
Qed.

Lemma pow_256_8 n : 256 ^ Z.of_nat (8 * n) = 2 ^ (wordBits * Z.of_nat n).
Proof. rewrite Nat2Z.inj_mul. unfold wordBits. rewrite !Z.pow_mul_r by lia. done. Qed.

Lemma ReadBits_words_spec z n m i :
  0 <= z ->
  exists k, (k <= i)%nat /\ (k = i \/ 8 * n <= k)%nat /\
  ReadBits_words ((fun i : nat => z / 2 ^ (wordBits * Z.of_nat i) mod 2 ^ wordBits) <$> seq m n) i
    (replicate i 0 ++ be_fixed (8 * m) z)
  = replicate (i - k) 0 ++ be_fixed (8 * m + k) z.
Proof.
  intros Hz. revert m i. induction n as [|n IH]; intros m i; cbn [seq fmap list_fmap ReadBits_words].
  { exists 0%nat. rewrite Nat.sub_0_r, Nat.add_0_r. repeat split; lia. }
  destruct (ReadBits_word_spec wordBytes (z / 2 ^ (wordBits * Z.of_nat m) mod 2 ^ wordBits) i (8 * m) z)
    as (k & Hk8 & Hki & Hor & ->); [done| |by apply Z.mod_pos_bound|].
  { rewrite pow_256_8. unfold wordBytes. change (256 ^ Z.of_nat 8) with (2 ^ wordBits). by apply Z.mod_mod. }
  unfold wordBytes in *. destruct (decide (k = 8)%nat) as [->|].
  - replace (8 * m + 8)%nat with (8 * S m)%nat by lia.
    destruct (IH (S m) (i - 8)%nat) as (k' & Hk' & Hor' & ->). exists (8 + k')%nat.
    split; [lia|]. split; [lia|]. f_equal; f_equal; lia.
  - assert (i = k) as -> by lia. exists k. split; [lia|]. split; [lia|]. rewrite Nat.sub_diag.
    clear. generalize (S m). induction n as [|n IH]; intros m'; [done|]. cbn. apply IH.
Qed.

Lemma ReadBits_be z n : 0 <= z -> ReadBits z (replicate n 0) = be_fixed n z.
Proof.
  intros Hz. unfold ReadBits, big_words. rewrite length_replicate, Z.abs_eq by done.
  destruct (ReadBits_words_spec z (Z.to_nat ((bitlen z + wordBits - 1) / wordBits)) 0 n Hz) as (k & Hk & Hor & Heq).
  change (8 * 0)%nat with 0%nat in Heq. cbn [be_fixed] in Heq. rewrite app_nil_r in Heq. rewrite Heq.
  destruct Hor as [->|Hor]; [by rewrite Nat.sub_diag|]. symmetry. apply be_fixed_zeros; [|done]. split; [done|].
  pose proof (bitlen_nonneg z). apply (Z.lt_le_trans _ (2 ^ bitlen z)); [by apply bitlen_bound|].
  change 256 with (2 ^ 8). rewrite <- Z.pow_mul_r by lia. apply Z.pow_le_mono_r; [lia|].
  unfold wordBits in *. Z.to_euclidean_division_equations; lia.
Qed.

Lemma PaddedBigBytes_be z n : 0 <= z < 256 ^ Z.of_nat n -> PaddedBigBytes z n = be_fixed n z.
Proof.
  intros Hz. unfold PaddedBigBytes. destruct (Z.leb_spec (Z.of_nat n) (bitlen z / 8)) as [Hle|]; [|apply ReadBits_be; lia].
  unfold big_bytes. rewrite Z.abs_eq by lia. f_equal. unfold byte_len.
  assert (bitlen z <= 8 * Z.of_nat n).
  { apply bitlen_le; [lia|lia|]. rewrite Z.pow_mul_r by lia. change (2 ^ 8) with 256. lia. }
  pose proof (bitlen_nonneg z). Z.to_euclidean_division_equations; lia.
Qed.

Lemma big_words_lookup z i :
  0 <= z -> 0 <= i ->
  default 0 (zget (big_words z) i) = (z / 2 ^ (wordBits * i)) mod 2 ^ wordBits.
Proof.
  intros Hz Hi. unfold big_words, zget. rewrite Z.abs_eq, (proj2 (Z.leb_le _ _)) by done.
  rewrite list_lookup_fmap. destruct (decide (i < (bitlen z + wordBits - 1) / wordBits)).
  - rewrite lookup_seq_lt by lia. simpl. by rewrite Z2Nat.id.
  - rewrite lookup_seq_ge by lia. simpl. rewrite Z.div_small; [done|]. split; [done|].
    apply (Z.lt_le_trans _ (2 ^ bitlen z)); [by apply bitlen_bound|]. apply Z.pow_le_mono_r; [lia|].
    unfold wordBits in *. Z.to_euclidean_division_equations; lia.
Qed.

Lemma bigEndianByteAt_spec z n : 0 <= z -> 0 <= n -> bigEndianByteAt z n = (z / 256 ^ n) mod 256.
Proof.
  intros Hz Hn. unfold bigEndianByteAt. set (i := n / Z.of_nat wordBytes).
  assert (0 <= i) as Hi by (apply Z.div_pos; done).
  assert (0 <= n mod 8 < 8) as Hm by (apply Z.mod_pos_bound; lia).
  assert (u8 (Z.shiftr (default 0 (zget (big_words z) i)) (8 * (n mod Z.of_nat wordBytes))) = (z / 256 ^ n) mod 256) as Hw.
  { rewrite big_words_lookup by done. change (Z.of_nat wordBytes) with 8 in *.
    rewrite Z.shiftr_div_pow2 by lia. unfold u8, wordBits.
    apply Z.bits_inj'. intros j Hj. change 256 with (2 ^ 8) at 1 3. 
    destruct (Z.lt_ge_cases j 8); [|by rewrite !Z.mod_pow2_bits_high by lia].
    rewrite !Z.mod_pow2_bits_low by lia. change (256 ^ n) with ((2 ^ 8) ^ n). rewrite <- Z.pow_mul_r by lia.
    rewrite <- !Z.shiftr_div_pow2 by lia. rewrite !Z.shiftr_spec, Z.mod_pow2_bits_low, Z.shiftr_spec by lia.
    f_equal. pose proof (Z.div_mod n 8 ltac:(lia)). subst i. lia. }
  rewrite Z.geb_leb. destruct (Z.leb_spec (zlen (big_words z)) i); [|done].
  rewrite <- Hw. unfold zget. rewrite (proj2 (Z.leb_le _ _)) by done. rewrite lookup_ge_None_2 by (unfold zlen in *; lia).
  cbn [default]. by rewrite Z.shiftr_0_l.
Qed.

(** [Byte] is the byte at the given place of the padded representation. *)
Lemma Byte_spec z padlength n :
  0 <= z -> 0 <= n -> Byte z padlength n = if n <? padlength then (z / 256 ^ (padlength - 1 - n)) mod 256 else 0.
Proof.
  intros Hz Hn. unfold Byte. rewrite Z.geb_leb, Z.leb_antisym.
  destruct (Z.ltb_spec n padlength); [|done]. simpl. apply bigEndianByteAt_spec; lia.
Qed.

Lemma SetBytes_be n b : bytes_ok b -> SetBytes n b = be_fixed n (be_val b).
Proof.
  intros Hb. unfold SetBytes. destruct (Nat.ltb_spec n (length b)) as [Hlt|Hge].
  - rewrite length_drop. replace (n - (length b - (length b - n)))%nat with 0%nat by lia. cbn [replicate app].
    assert (bytes_ok (drop (length b - n) b)) by (by apply Forall_drop).
    apply be_val_inj; [done|apply be_fixed_ok|rewrite length_drop, length_be_fixed; lia|].
    pose proof (be_val_app (take (length b - n) b) (drop (length b - n) b)) as Hv. rewrite take_drop in Hv.
    rewrite be_val_fixed, Hv.
    assert (zlen (drop (length b - n) b) = Z.of_nat n) as Hl by (unfold zlen; rewrite length_drop; lia).
    rewrite Hl, Z.add_comm, Z.mod_add by (apply Z.pow_nonzero; lia). symmetry. apply Z.mod_small.
    rewrite <- Hl. by apply be_val_bound.
  - rewrite <- (be_fixed_val b Hb) at 2. symmetry. apply be_fixed_zeros; [|done].
    by apply be_val_bound.
Qed.

Lemma BigToHash_be z : 0 <= z -> BigToHash z = be_fixed HashLength z.
Proof. intros Hz. unfold BigToHash, BytesToHash. by rewrite SetBytes_be, be_val_big_bytes by (done || apply big_bytes_ok). Qed.

Lemma BigToAddress_be z : 0 <= z -> BigToAddress z = be_fixed AddressLength z.
Proof. intros Hz. unfold BigToAddress, BytesToAddress. by rewrite SetBytes_be, be_val_big_bytes by (done || apply big_bytes_ok). Qed.

Lemma length_SetBytes n b : length (SetBytes n b) = n.
Proof.
  unfold SetBytes. rewrite length_app, length_replicate. destruct (Nat.ltb_spec n (length b)); [rewrite length_drop|]; lia.
Qed.

Lemma length_RightPadBytes b l : 0 <= l -> zlen b <= l -> zlen (RightPadBytes b l) = l.
Proof.
  intros Hl Hb. unfold RightPadBytes. destruct (Z.leb_spec l (zlen b)); [lia|].
  unfold zlen. rewrite length_gocopy, length_replicate. lia.
Qed.

(** Converting between words, hashes and addresses. *)
Lemma BigToHash_Hash_Big h : is_hash h -> BigToHash (Hash_Big h) = h.
Proof.
  intros [Hl Hok]. unfold Hash_Big. rewrite BigToHash_be by (by apply be_val_bound). rewrite <- Hl. by apply be_fixed_val.
Qed.

Lemma Hash_Big_BigToHash z : is_word z -> Hash_Big (BigToHash z) = z.
Proof.
  intros Hz. unfold Hash_Big, is_word in *. rewrite BigToHash_be, be_val_fixed by lia. by apply Z.mod_small.
Qed.

Lemma EmptyHash_zero z : is_word z -> EmptyHash (BigToHash z) = (z =? 0).
Proof.
  intros Hz. unfold EmptyHash. rewrite BigToHash_be by (unfold is_word in *; lia). destruct (Z.eqb_spec z 0) as [->|Hne].
  - by apply bool_decide_eq_true.
  - apply bool_decide_eq_false. intros He. apply (f_equal be_val) in He. rewrite be_val_fixed in He.
    rewrite Z.mod_small in He by done. by vm_compute in He.
Qed.

Lemma BytesToHash_id h : length h = HashLength -> BytesToHash h = h.
Proof.
  intros Hl. unfold BytesToHash, SetBytes. rewrite Hl. change (HashLength <? HashLength)%nat with false. cbn iota.
  rewrite Hl, Nat.sub_diag. done.
Qed.
