(* ===== verification/Params.v ===== *)
(** Protocol parameters and the rules of a chain: [src/params/protocol_params.go],
    [src/params/gas_table.go] and [src/params/config.go].

    A fork is active from its block on; the rules in force at a block select the gas
    prices and, in the machine, the instruction set.  [CheckCompatible] decides whether a
    stored chain may continue under a new configuration. *)

From stdpp Require Import base numbers list.
From S2P Require Import Prelude.
Local Open Scope Z_scope.

(** * protocol_params.go *)

Definition GasLimitBoundDivisor : Z := 1024.
Definition MinGasLimit : Z := 5000.
Definition GenesisGasLimit : Z := 4712388.
Definition MaximumExtraDataSize : Z := 32.
Definition ExpByteGas : Z := 10.
Definition SloadGas : Z := 50.
Definition CallValueTransferGas : Z := 9000.
Definition CallNewAccountGas : Z := 25000.
Definition TxGas : Z := 21000.
Definition TxGasContractCreation : Z := 53000.
Definition TxDataZeroGas : Z := 4.
Definition QuadCoeffDiv : Z := 512.
Definition SstoreSetGas : Z := 20000.
Definition LogDataGas : Z := 8.
Definition CallStipend : Z := 2300.
Definition Sha3Gas : Z := 30.
Definition Sha3WordGas : Z := 6.
Definition SstoreResetGas : Z := 5000.
Definition SstoreClearGas : Z := 5000.
Definition SstoreRefundGas : Z := 15000.
Definition JumpdestGas : Z := 1.
Definition EpochDuration : Z := 30000.
Definition CallGas : Z := 40.
Definition CreateDataGas : Z := 200.
Definition CallCreateDepth : Z := 1024.
Definition ExpGas : Z := 10.
Definition LogGas : Z := 375.
Definition CopyGas : Z := 3.
Definition StackLimit : Z := 1024.
Definition TierStepGas : Z := 0.
Definition LogTopicGas : Z := 375.
Definition CreateGas : Z := 32000.
Definition SuicideRefundGas : Z := 24000.
Definition MemoryGas : Z := 3.
Definition TxDataNonZeroGas : Z := 68.
Definition MaxCodeSize : Z := 24576.
Definition EcrecoverGas : Z := 3000.
Definition Sha256BaseGas : Z := 60.
Definition Sha256PerWordGas : Z := 12.
Definition Ripemd160BaseGas : Z := 600.
Definition Ripemd160PerWordGas : Z := 120.
Definition IdentityBaseGas : Z := 15.
Definition IdentityPerWordGas : Z := 3.
Definition ModExpQuadCoeffDiv : Z := 20.
Definition Bn256AddGas : Z := 500.
Definition Bn256ScalarMulGas : Z := 40000.
Definition Bn256PairingBaseGas : Z := 100000.
Definition Bn256PairingPerPointGas : Z := 80000.
Definition DifficultyBoundDivisor : Z := 2048.
Definition GenesisDifficulty : Z := 131072.
Definition MinimumDifficulty : Z := 131072.
Definition DurationLimit : Z := 13.

(** All of them, as the source lists them. *)
Definition protocolParams : list Z :=
  [GasLimitBoundDivisor; MinGasLimit; GenesisGasLimit; MaximumExtraDataSize; ExpByteGas; SloadGas;
   CallValueTransferGas; CallNewAccountGas; TxGas; TxGasContractCreation; TxDataZeroGas; QuadCoeffDiv;
   SstoreSetGas; LogDataGas; CallStipend; Sha3Gas; Sha3WordGas; SstoreResetGas; SstoreClearGas; SstoreRefundGas;
   JumpdestGas; EpochDuration; CallGas; CreateDataGas; CallCreateDepth; ExpGas; LogGas; CopyGas; StackLimit;
   TierStepGas; LogTopicGas; CreateGas; SuicideRefundGas; MemoryGas; TxDataNonZeroGas; MaxCodeSize;
   EcrecoverGas; Sha256BaseGas; Sha256PerWordGas; Ripemd160BaseGas; Ripemd160PerWordGas; IdentityBaseGas;
   IdentityPerWordGas; ModExpQuadCoeffDiv; Bn256AddGas; Bn256ScalarMulGas; Bn256PairingBaseGas;
   Bn256PairingPerPointGas].
Definition difficultyParams : list Z :=
  [DifficultyBoundDivisor; GenesisDifficulty; MinimumDifficulty; DurationLimit].

(** * gas_table.go *)

Record GasTable := MkGasTable {
  gt_ExtcodeSize : Z; gt_ExtcodeCopy : Z; gt_Balance : Z; gt_SLoad : Z; gt_Calls : Z;
  gt_Suicide : Z; gt_ExpByte : Z; gt_CreateBySuicide : Z }.

Definition GasTableHomestead : GasTable := MkGasTable 20 20 20 50 40 0 10 0.
Definition GasTableEIP150 : GasTable := MkGasTable 700 700 400 200 700 5000 10 25000.
Definition GasTableEIP158 : GasTable := MkGasTable 700 700 400 200 700 5000 50 25000.

(** * config.go

    Block numbers that may be [nil] are options. *)

Record ChainConfig := MkChainConfig {
  ChainId : option Z; HomesteadBlock : option Z; DAOForkBlock : option Z; DAOForkSupport : bool;
  EIP150Block : option Z; EIP155Block : option Z; EIP158Block : option Z;
  ByzantiumBlock : option Z; ConstantinopleBlock : option Z; EIP150Hash : bytes }.

Definition isForked (s head : option Z) : bool :=
  match s, head with
  | Some s, Some head => s <=? head
  | _, _ => false
  end.

Definition IsHomestead (c : ChainConfig) (num : option Z) : bool := isForked (HomesteadBlock c) num.
Definition IsDAOFork (c : ChainConfig) (num : option Z) : bool := isForked (DAOForkBlock c) num.
Definition IsEIP150 (c : ChainConfig) (num : option Z) : bool := isForked (EIP150Block c) num.
Definition IsEIP155 (c : ChainConfig) (num : option Z) : bool := isForked (EIP155Block c) num.
Definition IsEIP158 (c : ChainConfig) (num : option Z) : bool := isForked (EIP158Block c) num.
Definition IsByzantium (c : ChainConfig) (num : option Z) : bool := isForked (ByzantiumBlock c) num.
Definition IsConstantinople (c : ChainConfig) (num : option Z) : bool := isForked (ConstantinopleBlock c) num.

(** [ChainConfig.GasTable] *)
Definition gasTable (c : ChainConfig) (num : option Z) : GasTable :=
  match num with
  | None => GasTableHomestead
  | Some _ =>
      if IsEIP158 c num then GasTableEIP158
      else if IsEIP150 c num then GasTableEIP150
      else GasTableHomestead
  end.

Record Rules := MkRules {
  r_ChainId : Z; r_IsHomestead : bool; r_IsEIP150 : bool; r_IsEIP155 : bool; r_IsEIP158 : bool;
  r_IsByzantium : bool }.

Definition chain_Rules (c : ChainConfig) (num : option Z) : Rules :=
  MkRules (default 0 (ChainId c)) (IsHomestead c num) (IsEIP150 c num) (IsEIP155 c num)
    (IsEIP158 c num) (IsByzantium c num).

(** ** Compatibility of configurations *)

Definition configNumEqual (x y : option Z) : bool :=
  match x, y with
  | None, None => true
  | Some x, Some y => x =? y
  | _, _ => false
  end.

Definition isForkIncompatible (s1 s2 head : option Z) : bool :=
  (isForked s1 head || isForked s2 head) && negb (configNumEqual s1 s2).

Inductive what_fork :=
| WHomestead | WDAO | WDAOSupport | WEIP150 | WEIP155 | WEIP158 | WEIP158ChainId | WByzantium | WConstantinople.

Record ConfigCompatError := MkCompatError {
  What : what_fork; StoredConfig : option Z; NewConfig : option Z; RewindTo : Z }.

Definition newCompatError (what : what_fork) (storedblock newblock : option Z) : ConfigCompatError :=
  let rew :=
    match storedblock, newblock with
    | None, _ => newblock
    | Some _, None => storedblock
    | Some s, Some n => if s <? n then storedblock else newblock
    end in
  MkCompatError what storedblock newblock
    (match rew with Some r => if r >? 0 then u64 (u64 r - 1) else 0 | None => 0 end).

Definition checkCompatible (c newcfg : ChainConfig) (head : option Z) : option ConfigCompatError :=
  if isForkIncompatible (HomesteadBlock c) (HomesteadBlock newcfg) head
  then Some (newCompatError WHomestead (HomesteadBlock c) (HomesteadBlock newcfg))
  else if isForkIncompatible (DAOForkBlock c) (DAOForkBlock newcfg) head
  then Some (newCompatError WDAO (DAOForkBlock c) (DAOForkBlock newcfg))
  else if IsDAOFork c head && negb (Bool.eqb (DAOForkSupport c) (DAOForkSupport newcfg))
  then Some (newCompatError WDAOSupport (DAOForkBlock c) (DAOForkBlock newcfg))
  else if isForkIncompatible (EIP150Block c) (EIP150Block newcfg) head
  then Some (newCompatError WEIP150 (EIP150Block c) (EIP150Block newcfg))
  else if isForkIncompatible (EIP155Block c) (EIP155Block newcfg) head
  then Some (newCompatError WEIP155 (EIP155Block c) (EIP155Block newcfg))
  else if isForkIncompatible (EIP158Block c) (EIP158Block newcfg) head
  then Some (newCompatError WEIP158 (EIP158Block c) (EIP158Block newcfg))
  else if IsEIP158 c head && negb (configNumEqual (ChainId c) (ChainId newcfg))
  then Some (newCompatError WEIP158ChainId (EIP158Block c) (EIP158Block newcfg))
  else if isForkIncompatible (ByzantiumBlock c) (ByzantiumBlock newcfg) head
  then Some (newCompatError WByzantium (ByzantiumBlock c) (ByzantiumBlock newcfg))
  else if isForkIncompatible (ConstantinopleBlock c) (ConstantinopleBlock newcfg) head
  then Some (newCompatError WConstantinople (ConstantinopleBlock c) (ConstantinopleBlock newcfg))
  else None.

Fixpoint CheckCompatible_loop (fuel : nat) (c newcfg : ChainConfig) (bhead : Z)
    (lasterr : option ConfigCompatError) : outcome unit (option ConfigCompatError) :=
  match fuel with
  | O => NoFuel
  | S fuel =>
      match checkCompatible c newcfg (Some bhead) with
      | None => Ok lasterr
      | Some err =>
          if match lasterr with Some l => RewindTo err =? RewindTo l | None => false end
          then Ok lasterr
          else CheckCompatible_loop fuel c newcfg (RewindTo err) (Some err)
      end
  end.

Definition CheckCompatible (fuel : nat) (c newcfg : ChainConfig) (height : Z) :
    outcome unit (option ConfigCompatError) :=
  CheckCompatible_loop fuel c newcfg height None.

(** * Lemmas *)

(** The block to rewind to lies before the conflicting fork. *)
Lemma newCompatError_rewind what s1 s2 h :
  0 <= h < 2 ^ 64 -> isForked s1 (Some h) || isForked s2 (Some h) = true ->
  0 <= RewindTo (newCompatError what s1 s2) /\
  (RewindTo (newCompatError what s1 s2) < h \/ RewindTo (newCompatError what s1 s2) = 0).
Proof.
  intros Hh Hf. unfold newCompatError. simpl.
  assert (match s1, s2 with None, _ => s2 | Some _, None => s1 | Some s, Some n => if s <? n then s1 else s2 end
    = None \/ exists r, match s1, s2 with None, _ => s2 | Some _, None => s1 | Some s, Some n => if s <? n then s1 else s2 end
    = Some r /\ r <= h) as [->|(r & -> & Hr)]; [|lia|].
  - destruct s1 as [s1|], s2 as [s2|]; simpl in Hf; rewrite ?orb_false_r, ?orb_true_iff, ?Z.leb_le in Hf; eauto.
    right. destruct (Z.ltb_spec s1 s2); eexists; (split; [done|lia]).
  - rewrite Z.gtb_ltb. destruct (Z.ltb_spec 0 r); [|lia].
    rewrite (u64_small r) by (unfold is_u64; lia). rewrite u64_small by (unfold is_u64; lia). lia.
Qed.

Lemma checkCompatible_rewind c newcfg h err :
  0 <= h < 2 ^ 64 -> checkCompatible c newcfg (Some h) = Some err ->
  0 <= RewindTo err /\ (RewindTo err < h \/ RewindTo err = 0).
Proof.
  intros Hh. unfold checkCompatible. repeat case_match; try done; intros [= <-];
    apply newCompatError_rewind; try done;
    repeat match goal with
    | H : isForkIncompatible _ _ _ = true |- _ => apply andb_true_iff in H as [H _]; done
    | H : _ && _ = true |- _ => apply andb_true_iff in H as [H _]; apply orb_true_iff; by left
    end.
Qed.

Lemma CheckCompatible_loop_spec fuel c newcfg bhead last :
  0 <= bhead < 2 ^ 64 -> (Z.to_nat bhead + 1 < fuel)%nat -> RewindTo last = bhead ->
  exists err, CheckCompatible_loop fuel c newcfg bhead (Some last) = Ok (Some err) /\
    0 <= RewindTo err <= bhead /\
    (checkCompatible c newcfg (Some (RewindTo err)) = None \/ RewindTo err = 0).
Proof.
  revert bhead last. induction fuel as [|fuel IH]; intros bhead last Hb Hf Hl; [lia|]. cbn [CheckCompatible_loop].
  destruct (checkCompatible c newcfg (Some bhead)) as [err|] eqn:Hc.
  2: { exists last. rewrite Hl. split; [done|]. split; [lia|by left]. }
  destruct (checkCompatible_rewind _ _ _ _ Hb Hc) as [H0 Hor].
  destruct (Z.eqb_spec (RewindTo err) (RewindTo last)).
  { exists last. split; [done|]. split; [lia|]. right. lia. }
  destruct (IH (RewindTo err) err) as (err' & -> & ? & ?); [lia|lia|done|].
  exists err'. split; [done|]. split; [lia|done].
Qed.

(** * Properties *)

(** [CheckCompatible] ends, reports no error exactly when no fork conflicts at the
    given height, and otherwise names an earlier block (or genesis) to rewind to, at which
    the two configurations no longer conflict. *)
Theorem CheckCompatible_spec c newcfg height :
  0 <= height < 2 ^ 64 ->
  exists r, CheckCompatible (Z.to_nat height + 3) c newcfg height = Ok r /\
    (r = None <-> checkCompatible c newcfg (Some height) = None) /\
    (forall err, r = Some err ->
       0 <= RewindTo err /\ (RewindTo err < height \/ RewindTo err = 0) /\
       (checkCompatible c newcfg (Some (RewindTo err)) = None \/ RewindTo err = 0)).
Proof.
  intros Hh. unfold CheckCompatible. rewrite (Nat.add_comm _ 3). cbn [Nat.add CheckCompatible_loop].
  destruct (checkCompatible c newcfg (Some height)) as [err|] eqn:Hc.
  2: { exists None. split; [done|]. split; [done|]. done. }
  destruct (checkCompatible_rewind _ _ _ _ Hh Hc) as [H0 Hor].
  destruct (CheckCompatible_loop_spec (S (S (Z.to_nat height))) c newcfg (RewindTo err) err)
    as (err' & Hl & ? & ?); [lia|lia|done|].
  cbn [CheckCompatible_loop] in Hl. rewrite Hl. exists (Some err'). split; [done|]. split; [done|].
  intros e [= <-]. split; [lia|]. split; [lia|done].
Qed.

Lemma CheckCompatible_spec_witness :
  let c := MkChainConfig (Some 1) (Some 30) None false (Some 50) None None None None [] in
  let newcfg := MkChainConfig (Some 1) (Some 25) None false (Some 60) None None None None [] in
  exists r, CheckCompatible (Z.to_nat 55 + 3) c newcfg 55 = Ok r /\
    (r = None <-> checkCompatible c newcfg (Some 55) = None) /\
    (forall err, r = Some err ->
       0 <= RewindTo err /\ (RewindTo err < 55 \/ RewindTo err = 0) /\
       (checkCompatible c newcfg (Some (RewindTo err)) = None \/ RewindTo err = 0)).
Proof. intros c newcfg. apply (CheckCompatible_spec c newcfg 55). lia. Defined.
