(* ===== verification/RlpEncode.v ===== *)
(** RLP encoder ([src/rlp/encode.go]).

    The encoder appends string data to a buffer and records list headers on the side;
    headers are merged in when the buffer is written out.  The file models the buffer,
    every value writer, the three ways of reading the buffer back ([toBytes],
    [toWriter], [encReader]), and proves that all of them produce the recursive
    definition of RLP ([rlp_spec]). *)

From stdpp Require Import base numbers list.
From S2P Require Import Prelude.
Local Open Scope Z_scope.
Local Open Scope go_scope.

(** * Headers *)

(** [putint]: the bytes written to the front of the buffer, as few as needed. *)
Definition putint (i : Z) : bytes :=
  if i <? Z.shiftl 1 8 then [u8 i]
  else if i <? Z.shiftl 1 16 then [u8 (Z.shiftr i 8); u8 i]
  else if i <? Z.shiftl 1 24 then [u8 (Z.shiftr i 16); u8 (Z.shiftr i 8); u8 i]
  else if i <? Z.shiftl 1 32 then
    [u8 (Z.shiftr i 24); u8 (Z.shiftr i 16); u8 (Z.shiftr i 8); u8 i]
  else if i <? Z.shiftl 1 40 then
    [u8 (Z.shiftr i 32); u8 (Z.shiftr i 24); u8 (Z.shiftr i 16); u8 (Z.shiftr i 8); u8 i]
  else if i <? Z.shiftl 1 48 then
    [u8 (Z.shiftr i 40); u8 (Z.shiftr i 32); u8 (Z.shiftr i 24); u8 (Z.shiftr i 16);
     u8 (Z.shiftr i 8); u8 i]
  else if i <? Z.shiftl 1 56 then
    [u8 (Z.shiftr i 48); u8 (Z.shiftr i 40); u8 (Z.shiftr i 32); u8 (Z.shiftr i 24);
     u8 (Z.shiftr i 16); u8 (Z.shiftr i 8); u8 i]
  else
    [u8 (Z.shiftr i 56); u8 (Z.shiftr i 48); u8 (Z.shiftr i 40); u8 (Z.shiftr i 32);
     u8 (Z.shiftr i 24); u8 (Z.shiftr i 16); u8 (Z.shiftr i 8); u8 i].

(** [intsize]: the loop [for size = 1; ; size++ { if i >>= 8; i == 0 { return size } }].
    Eight rounds exhaust a [uint64]; 0 stands for running out of them. *)
Fixpoint intsize_loop (fuel : nat) (i size : Z) : Z :=
  match fuel with
  | O => 0
  | S fuel =>
      let i := Z.shiftr i 8 in
      if i =? 0 then size else intsize_loop fuel i (size + 1)
  end.

Definition intsize (i : Z) : Z := intsize_loop 8 i 1.

Definition headsize (size : Z) : Z :=
  if size <? 56 then 1 else 1 + intsize size.

(** [puthead]: the bytes written to the front of the buffer; their number is the
    function's result. *)
Definition puthead (smalltag largetag size : Z) : bytes :=
  if size <? 56 then [u8 (smalltag + u8 size)]
  else
    let sz := putint size in
    u8 (largetag + u8 (zlen sz)) :: sz.

(** * The encoding buffer *)

Record listhead := ListHead { lh_offset : Z; lh_size : Z }.

(** [listhead.encode] *)
Definition lh_encode (h : listhead) : bytes := puthead 0xC0 0xF7 (u64 (lh_size h)).

Record encbuf := EncBuf { eb_str : bytes; eb_lheads : list listhead; eb_lhsize : Z }.

(** [encbuf.reset] on any buffer taken from the pool. *)
Definition eb_reset (w : encbuf) : encbuf := EncBuf [] [] 0.

(** [w.str = append(w.str, b...)], also [encbuf.Write]. *)
Definition eb_append (w : encbuf) (b : bytes) : encbuf :=
  EncBuf (eb_str w ++ b) (eb_lheads w) (eb_lhsize w).

Definition encodeStringHeader (w : encbuf) (size : Z) : encbuf :=
  if size <? 56 then eb_append w [u8 (0x80 + u8 size)]
  else
    let sz := putint (u64 size) in
    eb_append w (u8 (0xB7 + u8 (zlen sz)) :: sz).

Definition encodeString (w : encbuf) (b : bytes) : encbuf :=
  match b with
  | [x] => if x <=? 0x7F then eb_append w [x]
           else eb_append (encodeStringHeader w (zlen b)) b
  | _ => eb_append (encodeStringHeader w (zlen b)) b
  end.

Definition eb_size (w : encbuf) : Z := zlen (eb_str w) + eb_lhsize w.

(** [encbuf.list] returns a pointer to the new header: here its index in [lheads]. *)
Definition eb_list (w : encbuf) : encbuf * nat :=
  (EncBuf (eb_str w) (eb_lheads w ++ [ListHead (zlen (eb_str w)) (eb_lhsize w)]) (eb_lhsize w),
   length (eb_lheads w)).

Definition eb_listEnd (w : encbuf) (lh : nat) : encbuf :=
  match eb_lheads w !! lh with
  | None => w
  | Some h =>
      let size := eb_size w - lh_offset h - lh_size h in
      EncBuf (eb_str w) (<[lh := ListHead (lh_offset h) size]> (eb_lheads w))
        (if size <? 56 then eb_lhsize w + 1 else eb_lhsize w + (1 + intsize (u64 size)))
  end.

(** * Values

    The reflected values [makeWriter] distinguishes.  Nil pointers keep what the
    pointer's element type decides: an empty string for byte arrays, an empty list for
    structs and other arrays, the encoding of the zero value otherwise.  A type with its
    own [EncodeRLP] is represented by the values that method passes to [Encode] (or
    writes raw) before it returns; where the method needs the address of a value that has
    none, [writeEncoderNoPtr] fails at once, as an encoder that writes nothing does.
    Values of the types [makeWriter] has no writer for (signed integers, maps, channels and
    the like, or with parts of such types) are not represented: their types are refused
    before anything is written. *)

Inductive enc_error := errNegativeBigInt | errEncoder.

Inductive rval :=
| RRawValue (b : bytes)
| REncoder (vs : list rval) (err : bool)
| RInterface (v : option rval)
| RBigIntPtr (p : option Z)
| RBigIntNoPtr (i : Z)
| RUint (i : Z)
| RBool (b : bool)
| RString (s : bytes)
| RBytes (b : bytes)
| RByteArray (b : bytes)
| RSlice (tail : bool) (vs : list rval)
| RStruct (fields : list rval)
| RPtr (v : rval)
| RNilPtrByteArray
| RNilPtrList
| RNilPtrZero (zero : rval).

Definition writeRawValue (b : bytes) (w : encbuf) : encbuf := eb_append w b.

Definition writeUint (i : Z) (w : encbuf) : encbuf :=
  if i =? 0 then eb_append w [0x80]
  else if i <? 128 then eb_append w [u8 i]
  else
    let s := putint i in
    eb_append w (u8 (0x80 + u8 (zlen s)) :: s).

Definition writeBool (b : bool) (w : encbuf) : encbuf :=
  if b then eb_append w [0x01] else eb_append w [0x80].

Definition writeBigInt (i : Z) (w : encbuf) : encbuf * option enc_error :=
  if i <? 0 then (w, Some errNegativeBigInt)
  else if i =? 0 then (eb_append w [0x80], None)
  else (encodeString w (big_bytes i), None).

Definition writeBigIntPtr (p : option Z) (w : encbuf) : encbuf * option enc_error :=
  match p with
  | None => (eb_append w [0x80], None)
  | Some i => writeBigInt i w
  end.

Definition writeBytes (b : bytes) (w : encbuf) : encbuf := encodeString w b.
Definition writeByteArray (b : bytes) (w : encbuf) : encbuf := encodeString w b.

Definition writeString (s : bytes) (w : encbuf) : encbuf :=
  match s with
  | [x] => if x <=? 0x7F then eb_append w [x]
           else eb_append (encodeStringHeader w (zlen s)) s
  | _ => eb_append (encodeStringHeader w (zlen s)) s
  end.

(** The element loop shared by slices, structs and [EncodeRLP] methods: it stops at the
    first error. *)
Section write_all.
Variable wr : rval -> encbuf -> encbuf * option enc_error.
Fixpoint write_all (vs : list rval) (w : encbuf) : encbuf * option enc_error :=
  match vs with
  | [] => (w, None)
  | v :: vs =>
      match wr v w with
      | (w, None) => write_all vs w
      | (w, Some e) => (w, Some e)
      end
  end.
End write_all.

(** [makeWriter]: the writer chosen for each kind of value. *)
Fixpoint writer (v : rval) (w : encbuf) : encbuf * option enc_error :=
  match v with
  | RRawValue b => (writeRawValue b w, None)
  | REncoder vs err =>
      match write_all writer vs w with
      | (w, None) => (w, if err then Some errEncoder else None)
      | r => r
      end
  | RInterface None => (eb_append w [0xC0], None)
  | RInterface (Some v) => writer v w
  | RBigIntPtr p => writeBigIntPtr p w
  | RBigIntNoPtr i => writeBigInt i w
  | RUint i => (writeUint i w, None)
  | RBool b => (writeBool b w, None)
  | RString s => (writeString s w, None)
  | RBytes b => (writeBytes b w, None)
  | RByteArray b => (writeByteArray b w, None)
  | RSlice tail vs =>
      if tail then write_all writer vs w
      else
        let (w, lh) := eb_list w in
        let (w, err) := write_all writer vs w in
        (eb_listEnd w lh, err)
  | RStruct fields =>
      let (w, lh) := eb_list w in
      match write_all writer fields w with
      | (w, None) => (eb_listEnd w lh, None)
      | r => r
      end
  | RPtr v => writer v w
  | RNilPtrByteArray => (eb_append w [0x80], None)
  | RNilPtrList => let (w, lh) := eb_list w in (eb_listEnd w lh, None)
  | RNilPtrZero z => writer z w
  end.

(** * Reading the buffer back *)

(** [copy(out[pos:], src)] *)
Definition copy_at (out : bytes) (pos : Z) (src : bytes) : bytes :=
  take (Z.to_nat pos) out ++ gocopy (drop (Z.to_nat pos) out) src.

(** [head.encode(out[pos:])]: each byte is stored by index, so a short buffer panics. *)
Definition put_at (out : bytes) (pos : Z) (src : bytes) : option bytes :=
  if pos + zlen src <=? zlen out then Some (copy_at out pos src) else None.

Fixpoint toBytes_loop (str : bytes) (heads : list listhead) (out : bytes) (pos strpos : Z)
    : outcome enc_error bytes :=
  match heads with
  | [] => let! rest := must (zslice str strpos (zlen str)) in Ok (copy_at out pos rest)
  | head :: heads =>
      let! piece := must (zslice str strpos (lh_offset head)) in
      let n := Z.min (zlen piece) (zlen out - pos) in
      let out := copy_at out pos piece in
      let pos := pos + n in
      let strpos := strpos + n in
      let enc := lh_encode head in
      let! out := must (put_at out pos enc) in
      toBytes_loop str heads out (pos + zlen enc) strpos
  end.

Definition eb_toBytes (w : encbuf) : outcome enc_error bytes :=
  toBytes_loop (eb_str w) (eb_lheads w) (replicate (Z.to_nat (eb_size w)) 0) 0 0.

(** [toWriter] on a writer that accepts everything; the result is what it received. *)
Fixpoint toWriter_loop (str : bytes) (heads : list listhead) (out : bytes) (strpos : Z)
    : outcome enc_error bytes :=
  match heads with
  | [] =>
      if strpos <? zlen str
      then let! rest := must (zslice str strpos (zlen str)) in Ok (out ++ rest)
      else Ok out
  | head :: heads =>
      if lh_offset head - strpos >? 0
      then
        let! piece := must (zslice str strpos (lh_offset head)) in
        toWriter_loop str heads (out ++ piece ++ lh_encode head) (strpos + zlen piece)
      else toWriter_loop str heads (out ++ lh_encode head) strpos
  end.

Definition eb_toWriter (w : encbuf) : outcome enc_error bytes :=
  toWriter_loop (eb_str w) (eb_lheads w) [] 0.

Definition EncodeToBytes (pooled : encbuf) (v : rval) : outcome enc_error bytes :=
  match writer v (eb_reset pooled) with
  | (_, Some e) => Err e
  | (eb, None) => eb_toBytes eb
  end.

Definition Encode (pooled : encbuf) (v : rval) : outcome enc_error bytes :=
  match writer v (eb_reset pooled) with
  | (_, Some e) => Err e
  | (eb, None) => eb_toWriter eb
  end.

(** [encReader]: [er_buf] is [None] after EOF, [er_piece] is the piece in flight. *)
Record encReader := EncReader {
  er_buf : option encbuf; er_lhpos : Z; er_strpos : Z; er_piece : option bytes }.

(** [encReader.next] *)
Definition er_next (r : encReader) : outcome enc_error (encReader * option bytes) :=
  match er_buf r with
  | None => Ok (r, None)
  | Some b =>
      match er_piece r with
      | Some p => Ok (r, Some p)
      | None =>
          match zget (eb_lheads b) (er_lhpos r) with
          | Some head =>
              let sizebefore := lh_offset head - er_strpos r in
              if sizebefore >? 0 then
                let! p := must (zslice (eb_str b) (er_strpos r) (lh_offset head)) in
                Ok (EncReader (er_buf r) (er_lhpos r) (er_strpos r + sizebefore) (er_piece r),
                    Some p)
              else
                Ok (EncReader (er_buf r) (er_lhpos r + 1) (er_strpos r) (er_piece r),
                    Some (lh_encode head))
          | None =>
              if er_strpos r <? zlen (eb_str b) then
                let! p := must (zslice (eb_str b) (er_strpos r) (zlen (eb_str b))) in
                Ok (EncReader (er_buf r) (er_lhpos r) (zlen (eb_str b)) (er_piece r), Some p)
              else Ok (r, None)
          end
      end
  end.

(** [encReader.Read] into a buffer of [len] bytes: the bytes delivered and whether EOF
    was reported. *)
Fixpoint er_read (fuel : nat) (r : encReader) (len : Z) (got : bytes)
    : outcome enc_error (encReader * bytes * bool) :=
  match fuel with
  | O => NoFuel
  | S fuel =>
      let! (r, piece) := er_next r in
      match piece with
      | None => Ok (EncReader None (er_lhpos r) (er_strpos r) None, got, true)
      | Some p =>
          let nn := Z.min (len - zlen got) (zlen p) in
          let got := got ++ take (Z.to_nat nn) p in
          if nn <? zlen p
          then Ok (EncReader (er_buf r) (er_lhpos r) (er_strpos r) (Some (drop (Z.to_nat nn) p)),
                   got, false)
          else er_read fuel (EncReader (er_buf r) (er_lhpos r) (er_strpos r) None) len got
      end
  end.

Definition EncodeToReader (pooled : encbuf) (v : rval) : outcome enc_error (Z * encReader) :=
  match writer v (eb_reset pooled) with
  | (_, Some e) => Err e
  | (eb, None) => Ok (eb_size eb, EncReader (Some eb) 0 0 None)
  end.

Definition ListSize (contentSize : Z) : Z := u64 (u64 (headsize contentSize) + contentSize).

(** * The reference definition

    RLP by recursion on the value: a string carries its length, a list the total length
    of its encoded elements. *)

Definition rlp_head (small large n : Z) : bytes :=
  if n <? 56 then [small + n] else (large + zlen (big_bytes n)) :: big_bytes n.

Definition rlp_string (b : bytes) : bytes :=
  match b with
  | [x] => if x <=? 0x7F then [x] else rlp_head 0x80 0xB7 (zlen b) ++ b
  | _ => rlp_head 0x80 0xB7 (zlen b) ++ b
  end.

Definition rlp_list (payload : bytes) : bytes := rlp_head 0xC0 0xF7 (zlen payload) ++ payload.

Definition rlp_big (i : Z) : outcome enc_error bytes :=
  if i <? 0 then Err errNegativeBigInt else Ok (rlp_string (big_bytes i)).

Section spec_all.
Variable sp : rval -> outcome enc_error bytes.
Fixpoint spec_all (vs : list rval) : outcome enc_error bytes :=
  match vs with
  | [] => Ok []
  | v :: vs => let! b := sp v in let! bs := spec_all vs in Ok (b ++ bs)
  end.
End spec_all.

Fixpoint rlp_spec (v : rval) : outcome enc_error bytes :=
  match v with
  | RRawValue b => Ok b
  | REncoder vs err =>
      let! bs := spec_all rlp_spec vs in if err then Err errEncoder else Ok bs
  | RInterface None => Ok (rlp_list [])
  | RInterface (Some v) => rlp_spec v
  | RBigIntPtr None => Ok (rlp_string [])
  | RBigIntPtr (Some i) => rlp_big i
  | RBigIntNoPtr i => rlp_big i
  | RUint i => Ok (rlp_string (big_bytes i))
  | RBool b => Ok (rlp_string (if b then [1] else []))
  | RString s => Ok (rlp_string s)
  | RBytes s => Ok (rlp_string s)
  | RByteArray s => Ok (rlp_string s)
  | RSlice tail vs =>
      let! bs := spec_all rlp_spec vs in Ok (if tail then bs else rlp_list bs)
  | RStruct vs => let! bs := spec_all rlp_spec vs in Ok (rlp_list bs)
  | RPtr v => rlp_spec v
  | RNilPtrByteArray => Ok (rlp_string [])
  | RNilPtrList => Ok (rlp_list [])
  | RNilPtrZero z => rlp_spec z
  end.

(** Unsigned integers of a reflected value are at most 64 bits wide. *)
Fixpoint rval_ok (v : rval) : bool :=
  match v with
  | RUint i => (0 <=? i) && (i <? 2 ^ 64)
  | REncoder vs _ | RSlice _ vs | RStruct vs => forallb rval_ok vs
  | RInterface (Some v) | RPtr v | RNilPtrZero v => rval_ok v
  | _ => true
  end.

(** The contents of a buffer: string data starting at [pos] with the headers merged in. *)
Fixpoint render (pos : Z) (s : bytes) (hs : list listhead) : bytes :=
  match hs with
  | [] => s
  | h :: hs =>
      let k := Z.to_nat (lh_offset h - pos) in
      take k s ++ lh_encode h ++ render (lh_offset h) (drop k s) hs
  end.

(** Headers lie between [lo] and [hi], in order. *)
Fixpoint heads_in (lo hi : Z) (hs : list listhead) : Prop :=
  match hs with
  | [] => lo <= hi
  | h :: hs => lo <= lh_offset h /\ heads_in (lh_offset h) hi hs
  end.

(** Writing turned [w] into [w'] and added the encoding [bs]. *)
Definition emits (w w' : encbuf) (bs : bytes) : Prop :=
  exists s hs,
    eb_str w' = eb_str w ++ s /\ eb_lheads w' = eb_lheads w ++ hs /\
    eb_lhsize w' = eb_lhsize w + (zlen bs - zlen s) /\
    render (zlen (eb_str w)) s hs = bs /\
    heads_in (zlen (eb_str w)) (zlen (eb_str w) + zlen s) hs.

(** What is left to read from an [encReader]. *)
Definition er_rest (r : encReader) : bytes :=
  match er_buf r with
  | None => []
  | Some b =>
      default [] (er_piece r) ++
      render (er_strpos r) (drop (Z.to_nat (er_strpos r)) (eb_str b))
        (drop (Z.to_nat (er_lhpos r)) (eb_lheads b))
  end.

Definition er_ok (r : encReader) : Prop :=
  match er_buf r with
  | None => er_piece r = None
  | Some b =>
      0 <= er_lhpos r /\ 0 <= er_strpos r /\
      heads_in (er_strpos r) (zlen (eb_str b)) (drop (Z.to_nat (er_lhpos r)) (eb_lheads b)) /\
      er_piece r <> Some []
  end.

(** A sequence of [Read] calls with buffers of the given sizes: all bytes delivered. *)
Fixpoint er_reads (fuel : nat) (r : encReader) (lens : list Z)
    : outcome enc_error (encReader * bytes) :=
  match lens with
  | [] => Ok (r, [])
  | len :: lens =>
      let! (r, got, _) := er_read fuel r len [] in
      let! (r, more) := er_reads fuel r lens in
      Ok (r, got ++ more)
  end.

Definition sum_list_Z (l : list Z) : Z := foldr Z.add 0 l.

Example encode_dog_list :
  EncodeToBytes (EncBuf [1; 2] [] 5) (RSlice false [RString [99; 97; 116]; RStruct [RUint 1024; RBool true]])
  = Ok [0xC9; 0x83; 99; 97; 116; 0xC4; 0x82; 4; 0; 1].
Proof. reflexivity. Qed.

(** * Header lemmas *)

Lemma be_fixed_S n z : be_fixed (S n) z = be_fixed n (z / 256) ++ [z mod 256].
Proof. done. Qed.

Lemma shiftr8 z k : 0 <= k -> Z.shiftr z (8 * k) = z / 256 ^ k.
Proof. intros. rewrite Z.shiftr_div_pow2 by lia. by rewrite Z.pow_mul_r by lia. Qed.

Lemma putint_big_bytes i : 0 < i < 2 ^ 64 -> putint i = big_bytes i.
Proof.
  intros Hi.
  assert (forall n : Z, 0 < n -> 256 ^ (n - 1) <= i < 256 ^ n -> big_bytes i = be_fixed (Z.to_nat n) i) as Hbb.
  { intros n Hn Hb. unfold big_bytes. rewrite (byte_len_unique i n) by done. by rewrite Z.abs_eq by lia. }
  unfold putint, u8.
  rewrite !Z.shiftl_mul_pow2, !Z.shiftr_div_pow2 by lia. rewrite !Z.mul_1_l.
  repeat match goal with |- context [?a <? ?b] => destruct (Z.ltb_spec a b) end;
  [ rewrite (Hbb 1) by lia | rewrite (Hbb 2) by lia | rewrite (Hbb 3) by lia
  | rewrite (Hbb 4) by lia | rewrite (Hbb 5) by lia | rewrite (Hbb 6) by lia
  | rewrite (Hbb 7) by lia | rewrite (Hbb 8) by lia ];
  match goal with |- context [Z.to_nat ?n] => let k := eval compute in (Z.to_nat n) in change (Z.to_nat n) with k end;
  rewrite !be_fixed_S; simpl app; rewrite ?Z.div_div by lia; done.
Qed.

Lemma intsize_loop_spec fuel i size :
  0 < i < 256 ^ Z.of_nat fuel ->
  intsize_loop fuel i size = size - 1 + Z.of_nat (byte_len i).
Proof.
  revert i size. induction fuel as [|fuel IH]; intros i size Hi; [simpl in Hi; lia|].
  cbn [intsize_loop]. rewrite Z.shiftr_div_pow2 by lia. change (2 ^ 8) with 256.
  destruct (Z.eqb_spec (i / 256) 0) as [H0|H0].
  - apply Z.div_small_iff in H0; [|lia]. rewrite byte_len_small by lia. lia.
  - assert (256 <= i) by (destruct (Z.le_gt_cases 256 i); [done|]; rewrite Z.div_small in H0; lia).
    rewrite IH.
    + rewrite (byte_len_step i) by done. lia.
    + split; [apply Z.div_str_pos; lia|]. apply Z.div_lt_upper_bound; [lia|].
      replace (256 * 256 ^ Z.of_nat fuel) with (256 ^ Z.of_nat (S fuel)); [lia|].
      rewrite Nat2Z.inj_succ, Z.pow_succ_r by lia. done.
Qed.

Lemma intsize_spec i : 0 < i < 2 ^ 64 -> intsize i = Z.of_nat (byte_len i).
Proof. intros. unfold intsize. rewrite intsize_loop_spec; [lia|]. done. Qed.

Lemma puthead_spec small large n :
  0 <= small -> small + 55 < 256 -> 0 <= large -> large + 8 < 256 -> 0 <= n < 2 ^ 64 ->
  puthead small large n = rlp_head small large n.
Proof.
  intros. unfold puthead, rlp_head. destruct (Z.ltb_spec n 56).
  - rewrite !u8_small; [done|..]; rewrite ?u8_small; unfold is_byte; lia.
  - rewrite putint_big_bytes by lia.
    pose proof (byte_len_u64 n ltac:(lia)). pose proof (zlen_big_bytes n).
    rewrite !u8_small; [done|..]; rewrite ?u8_small; unfold is_byte; lia.
Qed.

Lemma zlen_rlp_head small large n :
  0 <= n < 2 ^ 64 -> zlen (rlp_head small large n) = headsize n.
Proof.
  intros. unfold rlp_head, headsize. destruct (Z.ltb_spec n 56); [done|].
  rewrite zlen_cons, zlen_big_bytes, intsize_spec by lia. done.
Qed.

Lemma zlen_rlp_list_ge payload : zlen payload <= zlen (rlp_list payload).
Proof. unfold rlp_list. rewrite zlen_app. pose proof (zlen_nonneg (rlp_head 0xC0 0xF7 (zlen payload))). lia. Qed.

Lemma zlen_rlp_string_ge b : zlen b <= zlen (rlp_string b).
Proof.
  unfold rlp_string. destruct b as [|x [|y b]]; [done| |].
  - destruct (x <=? 127); [done|]. rewrite zlen_app.
    pose proof (zlen_nonneg (rlp_head 0x80 0xB7 (zlen [x]))). lia.
  - rewrite zlen_app. pose proof (zlen_nonneg (rlp_head 0x80 0xB7 (zlen (x :: y :: b)))). lia.
Qed.

(** * Buffer lemmas *)

Lemma heads_in_le lo hi hs : heads_in lo hi hs -> lo <= hi.
Proof. revert lo; induction hs as [|h hs IH]; simpl; intros lo H; [done|]. destruct H as [? ?%IH]. lia. Qed.

Lemma heads_in_app lo mid hi a b :
  heads_in lo mid a -> heads_in mid hi b -> heads_in lo hi (a ++ b).
Proof.
  revert lo; induction a as [|h a IH]; simpl; intros lo Ha Hb.
  - destruct b as [|h b]; simpl in *; [lia|]. destruct Hb. split; [lia|done].
  - destruct Ha. split; [done|]. by apply IH.
Qed.

Lemma render_app pos s1 s2 hs1 hs2 hi :
  heads_in pos (pos + zlen s1) hs1 -> heads_in (pos + zlen s1) hi hs2 ->
  render pos (s1 ++ s2) (hs1 ++ hs2) = render pos s1 hs1 ++ render (pos + zlen s1) s2 hs2.
Proof.
  revert pos s1. induction hs1 as [|h hs1 IH]; intros pos s1 H1 H2; simpl in H1.
  - destruct hs2 as [|h hs2]; simpl; [done|]. destruct H2 as [Hoff _].
    unfold zlen in *. rewrite take_app_ge, drop_app_ge by lia.
    replace (Z.to_nat (lh_offset h - pos) - length s1)%nat
      with (Z.to_nat (lh_offset h - (pos + Z.of_nat (length s1)))) by lia.
    by rewrite <- !app_assoc.
  - destruct H1 as [Hoff H1]. pose proof (heads_in_le _ _ _ H1). simpl.
    set (k := Z.to_nat (lh_offset h - pos)).
    assert (lh_offset h + zlen (drop k s1) = pos + zlen s1) as E
      by (unfold k, zlen in *; rewrite length_drop; lia).
    rewrite take_app_le, drop_app_le by (unfold k, zlen in *; lia).
    rewrite IH by (rewrite E; done). rewrite E. by rewrite <- !app_assoc.
Qed.

Lemma emits_refl w : emits w w [].
Proof.
  exists [], []. rewrite !app_nil_r. repeat split; simpl; rewrite ?zlen_nil; lia.
Qed.

Lemma emits_append w b : emits w (eb_append w b) b.
Proof.
  exists b, []. rewrite app_nil_r. pose proof (zlen_nonneg b).
  repeat split; simpl; lia.
Qed.

Lemma emits_trans w w1 w2 a b : emits w w1 a -> emits w1 w2 b -> emits w w2 (a ++ b).
Proof.
  intros (s1 & h1 & Es1 & Eh1 & El1 & Er1 & Hi1) (s2 & h2 & Es2 & Eh2 & El2 & Er2 & Hi2).
  rewrite Es1, zlen_app in Er2, Hi2.
  exists (s1 ++ s2), (h1 ++ h2). repeat split.
  - by rewrite Es2, Es1, <- app_assoc.
  - by rewrite Eh2, Eh1, <- app_assoc.
  - rewrite El2, El1, !zlen_app. lia.
  - erewrite render_app by eassumption. by rewrite Er1, Er2.
  - rewrite zlen_app, Z.add_assoc. eapply heads_in_app; eassumption.
Qed.

Lemma emits_list w w2 bs lh :
  zlen bs < 2 ^ 64 -> snd (eb_list w) = lh -> emits (fst (eb_list w)) w2 bs ->
  emits w (eb_listEnd w2 lh) (rlp_list bs).
Proof.
  intros Hlen Hlh (s & hs & Es & Eh & El & Er & Hi). simpl in *. subst lh.
  pose proof (zlen_nonneg bs) as Hnn.
  unfold eb_listEnd. rewrite Eh, <- app_assoc. simpl app.
  rewrite list_lookup_middle by done. cbn [lh_offset lh_size].
  set (size := eb_size w2 - zlen (eb_str w) - eb_lhsize w).
  assert (size = zlen bs) as Hsize.
  { unfold size, eb_size. rewrite Es, El, zlen_app. lia. }
  rewrite insert_app_r_alt by lia. rewrite Nat.sub_diag. simpl.
  assert (lh_encode (ListHead (zlen (eb_str w)) size) = rlp_head 0xC0 0xF7 (zlen bs)) as Hhead.
  { unfold lh_encode. simpl. rewrite Hsize, u64_small by (unfold is_u64; lia).
    apply puthead_spec; lia. }
  exists s, (ListHead (zlen (eb_str w)) size :: hs). repeat split; auto; cbn [render heads_in lh_offset eb_str eb_lheads eb_lhsize].
  - unfold rlp_list. rewrite zlen_app, zlen_rlp_head by lia. unfold headsize.
    rewrite Hsize, u64_small by (unfold is_u64; lia). destruct (zlen bs <? 56); lia.
  - rewrite Z.sub_diag. change (Z.to_nat 0) with 0%nat. rewrite take_0, drop_0, Hhead, Er. done.
  - lia.
Qed.

Lemma emits_stringheader w n :
  0 <= n < 2 ^ 64 -> emits w (encodeStringHeader w n) (rlp_head 0x80 0xB7 n).
Proof.
  intros Hn. rewrite <- puthead_spec by lia. unfold encodeStringHeader, puthead.
  rewrite u64_small by (unfold is_u64; lia). destruct (n <? 56); apply emits_append.
Qed.

Lemma emits_encodeString w b :
  zlen b < 2 ^ 64 -> emits w (encodeString w b) (rlp_string b).
Proof.
  intros Hb. pose proof (zlen_nonneg b).
  assert (emits w (eb_append (encodeStringHeader w (zlen b)) b) (rlp_head 0x80 0xB7 (zlen b) ++ b)).
  { eapply emits_trans; [by apply emits_stringheader|apply emits_append]. }
  unfold encodeString, rlp_string. destruct b as [|x [|y b]]; try done.
  destruct (x <=? 127); [apply emits_append|done].
Qed.

Lemma emits_uint w i :
  0 <= i < 2 ^ 64 -> emits w (writeUint i w) (rlp_string (big_bytes i)).
Proof.
  intros Hi. unfold writeUint. destruct (Z.eqb_spec i 0) as [->|]; [apply emits_append|].
  destruct (Z.ltb_spec i 128).
  - assert (big_bytes i = [i]) as ->.
    { unfold big_bytes. rewrite byte_len_small, Z.abs_eq by lia. simpl.
      by rewrite Z.mod_small by lia. }
    simpl. rewrite (proj2 (Z.leb_le i 127)) by lia. rewrite u8_small by (unfold is_byte; lia).
    apply emits_append.
  - rewrite putint_big_bytes by lia.
    assert (rlp_string (big_bytes i) = u8 (128 + u8 (zlen (big_bytes i))) :: big_bytes i) as ->;
      [|apply emits_append].
    pose proof (byte_len_u64 i Hi). pose proof (zlen_big_bytes i).
    destruct (byte_len_spec i ltac:(lia)) as (? & ? & ?).
    rewrite !u8_small by (rewrite ?u8_small; unfold is_byte; lia).
    unfold rlp_string, rlp_head.
    destruct (big_bytes i) as [|x [|y b]] eqn:E; [done| |zb; done].
    assert (be_val (big_bytes i) = i) as Hv by (apply be_val_big_bytes; lia).
    rewrite E in Hv. unfold be_val in Hv. simpl in Hv.
    destruct (Z.leb_spec x 127); [lia|done].
Qed.

#[export] Hint Resolve emits_refl emits_append emits_encodeString emits_uint : go.

(** Induction over values, through the nested lists. *)
Fixpoint rval_rect' (P : rval -> Prop)
  (Hraw : forall b, P (RRawValue b))
  (Henc : forall vs e, Forall P vs -> P (REncoder vs e))
  (Hinil : P (RInterface None)) (Hi : forall v, P v -> P (RInterface (Some v)))
  (Hbp : forall p, P (RBigIntPtr p)) (Hbn : forall i, P (RBigIntNoPtr i))
  (Hu : forall i, P (RUint i)) (Hb : forall b, P (RBool b)) (Hs : forall b, P (RString b))
  (Hby : forall b, P (RBytes b)) (Hba : forall b, P (RByteArray b))
  (Hsl : forall t vs, Forall P vs -> P (RSlice t vs))
  (Hst : forall vs, Forall P vs -> P (RStruct vs))
  (Hp : forall v, P v -> P (RPtr v)) (Hn1 : P RNilPtrByteArray) (Hn2 : P RNilPtrList)
  (Hn3 : forall v, P v -> P (RNilPtrZero v)) (v : rval) : P v :=
  let rec := rval_rect' P Hraw Henc Hinil Hi Hbp Hbn Hu Hb Hs Hby Hba Hsl Hst Hp Hn1 Hn2 Hn3 in
  let all := fix all vs : Forall P vs :=
    match vs with [] => Forall_nil_2 P | v :: vs => Forall_cons_2 P v vs (rec v) (all vs) end in
  match v with
  | RRawValue b => Hraw b
  | REncoder vs e => Henc vs e (all vs)
  | RInterface None => Hinil
  | RInterface (Some v) => Hi v (rec v)
  | RBigIntPtr p => Hbp p
  | RBigIntNoPtr i => Hbn i
  | RUint i => Hu i
  | RBool b => Hb b
  | RString s => Hs s
  | RBytes s => Hby s
  | RByteArray s => Hba s
  | RSlice t vs => Hsl t vs (all vs)
  | RStruct vs => Hst vs (all vs)
  | RPtr v => Hp v (rec v)
  | RNilPtrByteArray => Hn1
  | RNilPtrList => Hn2
  | RNilPtrZero v => Hn3 v (rec v)
  end.

(** The writer agrees with the reference: it emits the reference encoding, or reports
    the same first error. *)
Definition writer_correct (v : rval) : Prop :=
  rval_ok v = true -> forall w,
  match rlp_spec v with
  | Ok bs => exists w', writer v w = (w', None) /\ (zlen bs < 2 ^ 64 -> emits w w' bs)
  | Err e => exists w', writer v w = (w', Some e)
  | _ => False
  end.

Lemma write_all_correct vs :
  Forall writer_correct vs -> forallb rval_ok vs = true -> forall w,
  match spec_all rlp_spec vs with
  | Ok bs => exists w', write_all writer vs w = (w', None) /\ (zlen bs < 2 ^ 64 -> emits w w' bs)
  | Err e => exists w', write_all writer vs w = (w', Some e)
  | _ => False
  end.
Proof.
  induction 1 as [|v vs Hv Hvs IH]; intros Hok w; cbn [spec_all write_all].
  - exists w. eauto with go.
  - simpl in Hok. apply andb_true_iff in Hok as [Hok1 Hok2].
    specialize (Hv Hok1 w). destruct (rlp_spec v) as [b|e| |]; [|simpl; destruct Hv as (w' & ->); eauto|done|done].
    destruct Hv as (w1 & -> & Hem1). simpl. specialize (IH Hok2 w1).
    destruct (spec_all rlp_spec vs) as [bs|e| |]; [|simpl; destruct IH as (w' & ->); eauto|done|done].
    destruct IH as (w2 & -> & Hem2). simpl. exists w2. split; [done|].
    rewrite zlen_app. pose proof (zlen_nonneg b); pose proof (zlen_nonneg bs).
    intros. eapply emits_trans; [apply Hem1|apply Hem2]; lia.
Qed.

Lemma writeBigInt_correct i w :
  match rlp_big i with
  | Ok bs => exists w', writeBigInt i w = (w', None) /\ (zlen bs < 2 ^ 64 -> emits w w' bs)
  | Err e => exists w', writeBigInt i w = (w', Some e)
  | _ => False
  end.
Proof.
  unfold rlp_big, writeBigInt. destruct (i <? 0); [eauto|].
  destruct (Z.eqb_spec i 0) as [->|]; eexists; (split; [done|]); intros Hl; [apply emits_append|].
  apply emits_encodeString. pose proof (zlen_rlp_string_ge (big_bytes i)). lia.
Qed.

Lemma writer_spec v : writer_correct v.
Proof.
  assert (forall w b, zlen (rlp_string b) < 2 ^ 64 -> emits w (encodeString w b) (rlp_string b)) as Hstr.
  { intros w b Hl. apply emits_encodeString. pose proof (zlen_rlp_string_ge b). lia. }
  induction v using rval_rect'; intros Hok w; cbn [rlp_spec writer rval_ok] in *;
    try (by eexists; split; [done|]; intros; first [apply emits_append|apply Hstr]);
    try (by apply IHv).
  - pose proof (write_all_correct vs H Hok w) as Hall.
    destruct (spec_all rlp_spec vs) as [bs|e'| |]; [| |done|done]; simpl.
    + destruct Hall as (w' & -> & Hem). destruct e; eauto.
    + destruct Hall as (w' & ->). eauto.
  - destruct p as [i|]; [apply writeBigInt_correct|]. simpl. eauto with go.
  - apply writeBigInt_correct.
  - apply andb_true_iff in Hok as [H1%Z.leb_le H2%Z.ltb_lt].
    eexists; split; [done|]. intros. apply emits_uint. lia.
  - exists (writeBool b w). split; [done|]. intros. destruct b; apply emits_append.
  - destruct t.
    + pose proof (write_all_correct vs H Hok w) as Hall.
      by destruct (spec_all rlp_spec vs).
    + destruct (eb_list w) as [w1 lh] eqn:El.
      pose proof (write_all_correct vs H Hok w1) as Hall.
      destruct (spec_all rlp_spec vs) as [bs|e| |]; [| |done|done]; simpl.
      * destruct Hall as (w2 & -> & Hem). eexists; split; [done|]. intros Hl.
        pose proof (zlen_rlp_list_ge bs).
        apply emits_list; [lia|by rewrite El|]. rewrite El. apply Hem. lia.
      * destruct Hall as (w2 & ->). eauto.
  - destruct (eb_list w) as [w1 lh] eqn:El.
    pose proof (write_all_correct vs H Hok w1) as Hall.
    destruct (spec_all rlp_spec vs) as [bs|e| |]; [| |done|done]; simpl.
    + destruct Hall as (w2 & -> & Hem). eexists; split; [done|]. intros Hl.
      pose proof (zlen_rlp_list_ge bs).
      apply emits_list; [lia|by rewrite El|]. rewrite El. apply Hem. lia.
    + destruct Hall as (w2 & ->). eauto.
  - eexists; split; [done|]. intros. apply emits_list; [done|done|apply emits_refl].
Qed.

(** * Output lemmas *)

Lemma copy_at_zeros (done src : bytes) n :
  (length src <= n)%nat ->
  copy_at (done ++ replicate n 0) (zlen done) src = (done ++ src) ++ replicate (n - length src) 0.
Proof.
  intros Hn. unfold copy_at, zlen. rewrite Nat2Z.id, take_app_length, drop_app_length.
  unfold gocopy. rewrite length_replicate, take_ge by lia. rewrite drop_replicate.
  by rewrite <- app_assoc.
Qed.

Lemma put_at_zeros (done src : bytes) n :
  (length src <= n)%nat ->
  put_at (done ++ replicate n 0) (zlen done) src
  = Some ((done ++ src) ++ replicate (n - length src) 0).
Proof.
  intros Hn. unfold put_at. rewrite zlen_app, zlen_replicate, copy_at_zeros by done.
  rewrite (proj2 (Z.leb_le _ _)); [done|]. unfold zlen. lia.
Qed.

Lemma toBytes_loop_render str heads done n sp :
  0 <= sp -> heads_in sp (zlen str) heads ->
  zlen (render sp (drop (Z.to_nat sp) str) heads) = Z.of_nat n ->
  toBytes_loop str heads (done ++ replicate n 0) (zlen done) sp
  = Ok (done ++ render sp (drop (Z.to_nat sp) str) heads).
Proof.
  revert done n sp. induction heads as [|h heads IH]; intros done n sp Hsp Hin Hn.
  - simpl in *. rewrite zslice_some by lia. simpl.
    rewrite take_ge by (unfold zlen; rewrite length_drop; lia).
    unfold zlen in Hn. rewrite copy_at_zeros by lia.
    replace (n - length (drop (Z.to_nat sp) str))%nat with 0%nat by lia.
    simpl. by rewrite app_nil_r.
  - simpl in Hin. destruct Hin as [Hoff Hin]. pose proof (heads_in_le _ _ _ Hin).
    cbn [toBytes_loop render] in *.
    rewrite drop_drop in *.
    replace (Z.to_nat sp + Z.to_nat (lh_offset h - sp))%nat with (Z.to_nat (lh_offset h)) in * by lia.
    set (piece := take (Z.to_nat (lh_offset h - sp)) (drop (Z.to_nat sp) str)) in *.
    set (rest := render (lh_offset h) (drop (Z.to_nat (lh_offset h)) str) heads) in *.
    rewrite zslice_some by lia. simpl. fold piece.
    assert (zlen piece = lh_offset h - sp) as Hpl.
    { unfold piece, zlen in *. rewrite length_take, length_drop. lia. }
    rewrite !zlen_app in Hn.
    pose proof (zlen_nonneg rest). pose proof (zlen_nonneg (lh_encode h)). pose proof (zlen_nonneg done).
    rewrite zlen_app, zlen_replicate, Z.min_l by lia.
    rewrite copy_at_zeros by (unfold zlen in *; lia).
    rewrite <- zlen_app, put_at_zeros by (unfold zlen in *; lia). simpl.
    rewrite <- zlen_app. replace (sp + zlen piece) with (lh_offset h) by lia.
    rewrite IH; [|lia|done|fold rest; unfold zlen in *; lia].
    unfold rest. by rewrite <- !app_assoc.
Qed.

Lemma toWriter_loop_render str heads out sp :
  0 <= sp -> heads_in sp (zlen str) heads ->
  toWriter_loop str heads out sp = Ok (out ++ render sp (drop (Z.to_nat sp) str) heads).
Proof.
  revert out sp. induction heads as [|h heads IH]; intros out sp Hsp Hin.
  - simpl in *. destruct (Z.ltb_spec sp (zlen str)).
    + rewrite zslice_some by lia. simpl.
      by rewrite take_ge by (unfold zlen; rewrite length_drop; lia).
    + rewrite drop_ge by (unfold zlen in *; lia). by rewrite app_nil_r.
  - simpl in Hin. destruct Hin as [Hoff Hin]. pose proof (heads_in_le _ _ _ Hin).
    cbn [toWriter_loop render].
    rewrite drop_drop.
    replace (Z.to_nat sp + Z.to_nat (lh_offset h - sp))%nat with (Z.to_nat (lh_offset h)) by lia.
    rewrite Z.gtb_ltb. destruct (Z.ltb_spec 0 (lh_offset h - sp)).
    + rewrite zslice_some by lia. simpl.
      assert (sp + zlen (take (Z.to_nat (lh_offset h - sp)) (drop (Z.to_nat sp) str)) = lh_offset h) as E
        by (unfold zlen in *; rewrite length_take, length_drop; lia).
      rewrite IH by (rewrite ?E; first [lia|done]). rewrite E. by rewrite <- !app_assoc.
    + assert (lh_offset h = sp) as E by lia. rewrite E in *. rewrite IH by done.
      rewrite Z.sub_diag. simpl. by rewrite <- !app_assoc.
Qed.

Lemma emits_reset pooled w bs :
  emits (eb_reset pooled) w bs ->
  heads_in 0 (zlen (eb_str w)) (eb_lheads w) /\ render 0 (eb_str w) (eb_lheads w) = bs /\
  eb_size w = zlen bs.
Proof.
  intros (s & hs & Es & Eh & El & Er & Hi). simpl in *. subst s hs.
  split; [done|]. split; [done|]. unfold eb_size. rewrite El. lia.
Qed.

(** * Reading through [encReader] *)

Lemma lh_encode_nonempty h : lh_encode h <> [].
Proof. unfold lh_encode, puthead. by case_match. Qed.

(** [next] hands out the front of what is left, and nothing only when nothing is left. *)
Lemma er_next_spec r :
  er_ok r ->
  exists r' p, er_next r = Ok (r', p) /\
    match p with
    | None => er_rest r = [] /\ r' = r
    | Some p =>
        p <> [] /\
        let r1 := EncReader (er_buf r') (er_lhpos r') (er_strpos r') None in
        er_rest r = p ++ er_rest r1 /\ er_ok r1 /\ is_Some (er_buf r')
    end.
Proof.
  unfold er_ok, er_next, er_rest. destruct r as [[b|] lhpos strpos piece]; simpl.
  2: { intros ->. eexists _, None. eauto. }
  intros (H1 & H2 & Hin & Hp). destruct piece as [p|]; simpl in *.
  { eexists _, (Some p). split; [done|]. split; [congruence|]. repeat split; auto; done. }
  destruct (zget (eb_lheads b) lhpos) as [h|] eqn:Eh.
  - pose proof (zget_inv _ _ _ Eh) as Hr. unfold zget in Eh. rewrite (proj2 (Z.leb_le _ _)) in Eh by lia.
    rewrite (drop_S _ _ _ Eh) in *. simpl in Hin. destruct Hin as [Hoff Hin].
    pose proof (heads_in_le _ _ _ Hin). unfold zlen in Hr.
    rewrite Z.gtb_ltb. destruct (Z.ltb_spec 0 (lh_offset h - strpos)).
    + rewrite zslice_some by lia. simpl. eexists _, (Some _). split; [done|]. simpl.
      replace (strpos + (lh_offset h - strpos)) with (lh_offset h) by lia.
      rewrite (drop_S _ _ _ Eh). simpl. rewrite Z.sub_diag. simpl. rewrite drop_drop.
      replace (Z.to_nat strpos + Z.to_nat (lh_offset h - strpos))%nat with (Z.to_nat (lh_offset h)) by lia.
      repeat split; try done; try lia.
      intros Hnil%(f_equal length). unfold zlen in *. rewrite length_take, length_drop in Hnil. simpl in Hnil. lia.
    + assert (lh_offset h = strpos) as Eo by lia. eexists _, (Some _). split; [done|]. simpl.
      replace (Z.to_nat (lhpos + 1)) with (S (Z.to_nat lhpos)) by lia.
      replace (Z.to_nat (lh_offset h - strpos)) with 0%nat by lia. simpl.
      split; [apply lh_encode_nonempty|]. rewrite Eo in *. repeat split; try done; try lia.
  - assert (drop (Z.to_nat lhpos) (eb_lheads b) = []) as Hd.
    { unfold zget in Eh. rewrite (proj2 (Z.leb_le _ _)) in Eh by lia.
      apply drop_ge. by apply lookup_ge_None. }
    rewrite Hd in *. simpl in Hin. destruct (Z.ltb_spec strpos (zlen (eb_str b))).
    + rewrite zslice_some by lia. simpl. eexists _, (Some _). split; [done|]. simpl.
      rewrite Hd. simpl.
      rewrite take_ge by (unfold zlen in *; rewrite length_drop; lia).
      rewrite (drop_ge (eb_str b) (Z.to_nat (zlen (eb_str b)))) by (unfold zlen; lia).
      rewrite app_nil_r. repeat split; try done; try lia; try (unfold zlen; lia).
      intros Hnil%(f_equal length). unfold zlen in *. rewrite length_drop in Hnil. simpl in Hnil. lia.
    + eexists _, None. split; [done|]. rewrite drop_ge by (unfold zlen in *; lia). done.
Qed.

Lemma er_read_spec fuel r len got :
  er_ok r -> zlen got <= len -> (length (er_rest r) < fuel)%nat ->
  exists r' eof, er_read fuel r len got
      = Ok (r', got ++ take (Z.to_nat (len - zlen got)) (er_rest r), eof) /\
    er_ok r' /\ er_rest r' = drop (Z.to_nat (len - zlen got)) (er_rest r) /\
    (eof = true <-> zlen (er_rest r) <= len - zlen got).
Proof.
  revert r got. induction fuel as [|fuel IH]; intros r got Hok Hgot Hfuel; [lia|].
  cbn [er_read]. destruct (er_next_spec r Hok) as (r' & p & -> & Hp). simpl.
  destruct p as [p|].
  - destruct Hp as (Hne & Hrest & Hok1 & [b Hb]). simpl in *.
    assert (0 < zlen p) by (destruct p; [done|]; rewrite zlen_cons; pose proof (zlen_nonneg p); lia).
    pose proof (zlen_nonneg got).
    destruct (Z.ltb_spec (Z.min (len - zlen got) (zlen p)) (zlen p)).
    + rewrite Z.min_l by lia. eexists _, _. split; [|split; [|split]].
      * rewrite Hrest, take_app_le by (unfold zlen in *; lia). done.
      * unfold er_ok in *. simpl in *. rewrite Hb in *. simpl in *.
        destruct Hok1 as (? & ? & ? & ?). repeat split; auto.
        intros [= Hnil%(f_equal length)]. unfold zlen in *. rewrite length_drop in Hnil. simpl in Hnil. lia.
      * rewrite Hrest. unfold er_rest. simpl. rewrite Hb. simpl.
        by rewrite drop_app_le by (unfold zlen in *; lia).
      * rewrite Hrest, zlen_app. pose proof (zlen_nonneg (er_rest (EncReader (er_buf r') (er_lhpos r') (er_strpos r') None))).
        split; [done|lia].
    + rewrite Z.min_r by lia. rewrite (take_ge p) by (unfold zlen; lia).
      destruct (IH (EncReader (er_buf r') (er_lhpos r') (er_strpos r') None) (got ++ p))
        as (r2 & eof & Heq & Hok2 & Hr2 & Heof).
      * done.
      * rewrite zlen_app. lia.
      * rewrite Hrest, length_app in Hfuel. unfold zlen in *. lia.
      * assert (Z.to_nat (len - zlen got) - length p = Z.to_nat (len - zlen (got ++ p)))%nat as El
          by (rewrite zlen_app; unfold zlen in *; lia).
        exists r2, eof. rewrite Heq, Hrest. split; [|split; [done|split]].
        { rewrite take_app_ge by (unfold zlen in *; lia). rewrite El. by rewrite <- app_assoc. }
        { rewrite Hr2, drop_app_ge by (unfold zlen in *; lia). by rewrite El. }
        { rewrite Heof, !zlen_app. lia. }
  - destruct Hp as [Hrest ->]. eexists _, true. split.
    { rewrite Hrest. rewrite take_nil, app_nil_r. done. }
    rewrite Hrest, drop_nil. repeat split; simpl; try done. rewrite zlen_nil. lia.
Qed.

Lemma er_reads_spec fuel r lens :
  er_ok r -> (length (er_rest r) < fuel)%nat -> Forall (Z.le 0) lens ->
  exists r', er_reads fuel r lens = Ok (r', take (Z.to_nat (sum_list_Z lens)) (er_rest r)).
Proof.
  intros Hokr Hle Hlens. revert r Hokr Hle.
  induction Hlens as [|len lens Hl0 Hls IH]; intros r Hokr Hle; cbn [er_reads].
  { eexists. by rewrite take_0. }
  destruct (er_read_spec fuel r len [] Hokr Hl0 ltac:(lia)) as (r1 & eof & -> & Hok1 & Hr1 & _).
  rewrite zlen_nil, Z.sub_0_r in *. simpl.
  destruct (IH r1 Hok1) as (r2 & ->).
  { rewrite Hr1, length_drop. lia. }
  simpl. eexists. do 2 f_equal. rewrite Hr1.
  assert (0 <= sum_list_Z lens) by (clear -Hls; induction Hls; simpl; lia).
  rewrite Z2Nat.inj_add by done. by rewrite take_take_drop.
Qed.

(** Both ways of reading a buffer deliver what was written to it. *)
Lemma emits_read pooled w bs :
  emits (eb_reset pooled) w bs -> eb_toBytes w = Ok bs /\ eb_toWriter w = Ok bs.
Proof.
  intros Hem. apply emits_reset in Hem as (Hin & Hr & Hs). pose proof (zlen_nonneg bs).
  unfold eb_toBytes, eb_toWriter. rewrite toWriter_loop_render by done.
  change (Z.to_nat 0) with 0%nat. rewrite drop_0, Hr. split; [|done].
  pose proof (toBytes_loop_render (eb_str w) (eb_lheads w) [] (Z.to_nat (eb_size w)) 0) as Ht.
  change (Z.to_nat 0) with 0%nat in Ht. rewrite drop_0, Hr in Ht. apply Ht; [done|done|lia].
Qed.

Lemma EncodeToBytes_ok pooled v bs :
  rval_ok v = true -> rlp_spec v = Ok bs -> zlen bs < 2 ^ 64 -> EncodeToBytes pooled v = Ok bs.
Proof.
  intros Hok Hbs Hlen. unfold EncodeToBytes. pose proof (writer_spec v Hok (eb_reset pooled)) as Hw.
  rewrite Hbs in Hw. destruct Hw as (w & -> & Hem). eapply emits_read, Hem, Hlen.
Qed.

(** Headers take at most nine bytes. *)
Lemma rlp_string_len b : zlen b < 2 ^ 62 -> zlen b <= zlen (rlp_string b) <= zlen b + 9.
Proof.
  intros Hb. pose proof (zlen_nonneg b). split; [apply zlen_rlp_string_ge|].
  assert (zlen (rlp_head 0x80 0xB7 (zlen b) ++ b) <= zlen b + 9).
  { rewrite zlen_app, zlen_rlp_head by lia. unfold headsize. destruct (Z.ltb_spec (zlen b) 56); [lia|].
    rewrite intsize_spec by lia. pose proof (byte_len_u64 (zlen b)). lia. }
  unfold rlp_string. destruct b as [|x [|y b]]; try done. case_match; [|done]. change (zlen [x]) with 1. lia.
Qed.

Lemma rlp_list_len b : zlen b < 2 ^ 62 -> zlen b <= zlen (rlp_list b) <= zlen b + 9.
Proof.
  intros Hb. pose proof (zlen_nonneg b). split; [apply zlen_rlp_list_ge|]. unfold rlp_list.
  rewrite zlen_app, zlen_rlp_head by lia. unfold headsize. destruct (Z.ltb_spec (zlen b) 56); [lia|].
  rewrite intsize_spec by lia. pose proof (byte_len_u64 (zlen b)). lia.
Qed.

Lemma Encode_ok pooled v bs :
  rval_ok v = true -> rlp_spec v = Ok bs -> zlen bs < 2 ^ 64 -> Encode pooled v = Ok bs.
Proof.
  intros Hok Hbs Hlen. unfold Encode. pose proof (writer_spec v Hok (eb_reset pooled)) as Hw.
  rewrite Hbs in Hw. destruct Hw as (w & -> & Hem). eapply emits_read, Hem, Hlen.
Qed.

(** * Properties *)



(**  Streaming the encoding through [EncodeToReader] delivers the same bytes: the
    announced size is the length of the encoding, and reading with buffers of any sizes
    yields its successive pieces. *)
Theorem EncodeToReader_spec pooled v bs lens :
  rval_ok v = true -> rlp_spec v = Ok bs -> zlen bs < 2 ^ 64 -> Forall (Z.le 0) lens ->
  exists r r', EncodeToReader pooled v = Ok (zlen bs, r) /\
    er_reads (S (length bs)) r lens = Ok (r', take (Z.to_nat (sum_list_Z lens)) bs).
Proof.
  intros Hok Hbs Hlen Hlens. unfold EncodeToReader.
  pose proof (writer_spec v Hok (eb_reset pooled)) as Hw. rewrite Hbs in Hw.
  destruct Hw as (w & -> & Hem). specialize (Hem Hlen).
  apply emits_reset in Hem as (Hin & Hr & Hs). rewrite Hs.
  set (r0 := EncReader (Some w) 0 0 None). exists r0.
  assert (er_ok r0) as Hok0.
  { unfold er_ok. simpl. rewrite drop_0. repeat split; auto; done. }
  assert (er_rest r0 = bs) as Hrest0 by (unfold er_rest; simpl; by rewrite !drop_0).
  destruct (er_reads_spec (S (length bs)) r0 lens) as (r' & Hreads); [done|rewrite Hrest0; lia|done|].
  rewrite Hrest0 in Hreads. eauto.
Qed.

Lemma EncodeToReader_spec_witness :
  exists r r', EncodeToReader (EncBuf [] [] 0) (RStruct [RUint 5; RBytes [1; 2; 3]]) = Ok (6, r) /\
    er_reads 7 r [2; 1; 9] = Ok (r', [0xC5; 5; 0x83; 1; 2; 3]).
Proof.
  apply (EncodeToReader_spec (EncBuf [] [] 0) (RStruct [RUint 5; RBytes [1; 2; 3]])
           [0xC5; 5; 0x83; 1; 2; 3] [2; 1; 9]); try reflexivity.
  repeat constructor; lia.
Defined.
