(* ===== verification/RlpRaw.v ===== *)
(** RLP without reflection ([src/rlp/raw.go]): kinds, errors, and the functions that
    split an encoded value off the front of a byte slice.

    [Split] and [CountValues] are shown to accept exactly the canonical encodings and
    never to index or slice out of range. *)

From stdpp Require Import base numbers list.
From S2P Require Import Prelude.
From S2P Require Import RlpEncode.
Local Open Scope Z_scope.
Local Open Scope go_scope.

(** * Errors and kinds *)

Inductive decode_msg :=
| non_canonical_integer | non_canonical_size | expected_input_list | expected_input_string
| input_string_too_long | input_string_too_short | input_list_too_many | input_list_too_few
| struct_too_few.

Inductive rlp_error :=
| EOL | ErrExpectedString | ErrExpectedList | ErrCanonInt | ErrCanonSize
| ErrElemTooLarge | ErrValueTooLarge | ErrMoreThanOneValue
| errNotInList | errNotAtEOL | errUintOverflow | errInvalidBool
| io_EOF | io_ErrUnexpectedEOF
| decodeError (msg : decode_msg).

Inductive Kind := KByte | KString | KList.

#[export] Instance Kind_eq_dec : EqDecision Kind.
Proof. solve_decision. Defined.
#[export] Instance decode_msg_eq_dec : EqDecision decode_msg.
Proof. solve_decision. Defined.
#[export] Instance rlp_error_eq_dec : EqDecision rlp_error.
Proof. solve_decision. Defined.

(** * [raw.go] *)

Definition idx (b : bytes) (i : Z) : outcome rlp_error Z := must (zget b i).

Definition readSize (b : bytes) (slen : Z) : outcome rlp_error Z :=
  if slen >? zlen b then Err io_ErrUnexpectedEOF
  else
    let! s :=
      match slen with
      | 1 => idx b 0
      | 2 =>
          let! b0 := idx b 0 in let! b1 := idx b 1 in
          Ok (Z.lor (Z.shiftl b0 8) b1)
      | 3 =>
          let! b0 := idx b 0 in let! b1 := idx b 1 in let! b2 := idx b 2 in
          Ok (Z.lor (Z.lor (Z.shiftl b0 16) (Z.shiftl b1 8)) b2)
      | 4 =>
          let! b0 := idx b 0 in let! b1 := idx b 1 in let! b2 := idx b 2 in
          let! b3 := idx b 3 in
          Ok (Z.lor (Z.lor (Z.lor (Z.shiftl b0 24) (Z.shiftl b1 16)) (Z.shiftl b2 8)) b3)
      | 5 =>
          let! b0 := idx b 0 in let! b1 := idx b 1 in let! b2 := idx b 2 in
          let! b3 := idx b 3 in let! b4 := idx b 4 in
          Ok (Z.lor (Z.lor (Z.lor (Z.lor (Z.shiftl b0 32) (Z.shiftl b1 24)) (Z.shiftl b2 16))
                           (Z.shiftl b3 8)) b4)
      | 6 =>
          let! b0 := idx b 0 in let! b1 := idx b 1 in let! b2 := idx b 2 in
          let! b3 := idx b 3 in let! b4 := idx b 4 in let! b5 := idx b 5 in
          Ok (Z.lor (Z.lor (Z.lor (Z.lor (Z.lor (Z.shiftl b0 40) (Z.shiftl b1 32)) (Z.shiftl b2 24))
                           (Z.shiftl b3 16)) (Z.shiftl b4 8)) b5)
      | 7 =>
          let! b0 := idx b 0 in let! b1 := idx b 1 in let! b2 := idx b 2 in
          let! b3 := idx b 3 in let! b4 := idx b 4 in let! b5 := idx b 5 in
          let! b6 := idx b 6 in
          Ok (Z.lor (Z.lor (Z.lor (Z.lor (Z.lor (Z.lor (Z.shiftl b0 48) (Z.shiftl b1 40)) (Z.shiftl b2 32))
                           (Z.shiftl b3 24)) (Z.shiftl b4 16)) (Z.shiftl b5 8)) b6)
      | 8 =>
          let! b0 := idx b 0 in let! b1 := idx b 1 in let! b2 := idx b 2 in
          let! b3 := idx b 3 in let! b4 := idx b 4 in let! b5 := idx b 5 in
          let! b6 := idx b 6 in let! b7 := idx b 7 in
          Ok (Z.lor (Z.lor (Z.lor (Z.lor (Z.lor (Z.lor (Z.lor (Z.shiftl b0 56) (Z.shiftl b1 48)) (Z.shiftl b2 40))
                           (Z.shiftl b3 32)) (Z.shiftl b4 24)) (Z.shiftl b5 16)) (Z.shiftl b6 8)) b7)
      | _ => Ok 0
      end in
    if s <? 56 then Err ErrCanonSize
    else
      let! b0 := idx b 0 in
      if b0 =? 0 then Err ErrCanonSize else Ok s.

(** [readKind(buf)]: kind, tag size and content size of the first value. *)
Definition readKind (buf : bytes) : outcome rlp_error (Kind * Z * Z) :=
  if zlen buf =? 0 then Err io_ErrUnexpectedEOF
  else
    let! b := idx buf 0 in
    let! (k, tagsize, contentsize) :=
      (if b <? 0x80 then Ok (KByte, 0, 1)
       else if b <? 0xB8 then
         let contentsize := u8 (b - 0x80) in
         if (contentsize =? 1) && (zlen buf >? 1)
         then let! b1 := idx buf 1 in
              if b1 <? 128 then Err ErrCanonSize else Ok (KString, 1, contentsize)
         else Ok (KString, 1, contentsize)
       else if b <? 0xC0 then
         let! rest := must (zslice buf 1 (zlen buf)) in
         let! cs := readSize rest (u8 (b - 0xB7)) in
         Ok (KString, u8 (b - 0xB7) + 1, cs)
       else if b <? 0xF8 then Ok (KList, 1, u8 (b - 0xC0))
       else
         let! rest := must (zslice buf 1 (zlen buf)) in
         let! cs := readSize rest (u8 (b - 0xF7)) in
         Ok (KList, u8 (b - 0xF7) + 1, cs)) in
    if contentsize >? u64 (u64 (zlen buf) - tagsize) then Err ErrValueTooLarge
    else Ok (k, tagsize, contentsize).

Definition Split (b : bytes) : outcome rlp_error (Kind * bytes * bytes) :=
  let! (k, ts, cs) := readKind b in
  let! content := must (zslice b ts (u64 (ts + cs))) in
  let! rest := must (zslice b (u64 (ts + cs)) (zlen b)) in
  Ok (k, content, rest).

Definition SplitString (b : bytes) : outcome rlp_error (bytes * bytes) :=
  let! (k, content, rest) := Split b in
  match k with KList => Err ErrExpectedString | _ => Ok (content, rest) end.

Definition SplitList (b : bytes) : outcome rlp_error (bytes * bytes) :=
  let! (k, content, rest) := Split b in
  match k with KList => Ok (content, rest) | _ => Err ErrExpectedList end.

Fixpoint CountValues_loop (fuel : nat) (b : bytes) (i : Z) : outcome rlp_error Z :=
  match fuel with
  | O => NoFuel
  | S fuel =>
      if zlen b >? 0 then
        let! (_, tagsize, size) := readKind b in
        let! b := must (zslice b (u64 (tagsize + size)) (zlen b)) in
        CountValues_loop fuel b (i + 1)
      else Ok i
  end.

Definition CountValues (b : bytes) : outcome rlp_error Z :=
  CountValues_loop (S (length b)) b 0.

(** * The reference view of an encoded value *)

(** The header of a value of kind [k] with content [c]. *)
Definition value_bytes (k : Kind) (c : bytes) : bytes :=
  match k with
  | KByte => c
  | KString => rlp_head 0x80 0xB7 (zlen c) ++ c
  | KList => rlp_head 0xC0 0xF7 (zlen c) ++ c
  end.

(** [c] is a content the canonical encoding gives kind [k]. *)
Definition canonical (k : Kind) (c : bytes) : Prop :=
  match k with
  | KByte => exists x, c = [x] /\ x < 128
  | KString => zlen c < 2 ^ 64 /\ ~ exists x, c = [x] /\ x < 128
  | KList => zlen c < 2 ^ 64
  end.

(** * Lemmas on headers *)

Lemma lor_shiftl x y k : 0 <= k -> 0 <= y < 2 ^ k -> Z.lor (Z.shiftl x k) y = x * 2 ^ k + y.
Proof.
  intros Hk Hy. rewrite Z.shiftl_mul_pow2 by done.
  assert (Z.land (x * 2 ^ k) y = 0) as H0.
  { apply Z.bits_inj'. intros n Hn. rewrite Z.land_spec, Z.bits_0.
    destruct (Z.lt_ge_cases n k); [by rewrite Z.mul_pow2_bits_low by lia|].
    destruct (Z.eq_dec y 0) as [->|]; [by rewrite Z.bits_0, andb_false_r|].
    rewrite (Z.bits_above_log2 y n), andb_false_r; [done|lia|].
    assert (Z.log2 y < k) by (apply Z.log2_lt_pow2; lia). lia. }
  by rewrite <- Z.lxor_lor, <- Z.add_nocarry_lxor by done.
Qed.

Lemma idx_ok b i x : b !! Z.to_nat i = Some x -> 0 <= i -> idx b i = Ok x.
Proof. intros H Hi. unfold idx, zget. by rewrite (proj2 (Z.leb_le _ _)), H by done. Qed.

Lemma lor_chain a x k' k :
  k' = k + 8 -> 0 <= k -> 0 <= x < 256 ->
  Z.lor (Z.shiftl a k') (Z.shiftl x k) = Z.shiftl (a * 256 + x) k.
Proof.
  intros -> Hk Hx. rewrite Z.add_comm, <- Z.shiftl_shiftl, <- Z.shiftl_lor by lia.
  rewrite lor_shiftl by lia. done.
Qed.

Lemma bytes_ok_cons x b : bytes_ok (x :: b) <-> 0 <= x < 256 /\ bytes_ok b.
Proof. unfold bytes_ok. rewrite Forall_cons. done. Qed.

Lemma bytes_ok_app a b : bytes_ok (a ++ b) <-> bytes_ok a /\ bytes_ok b.
Proof. apply Forall_app. Qed.

Ltac readSize_case b n :=
  match n with
  | O => idtac
  | S ?n =>
      let x := fresh "x" in
      destruct b as [|x b]; [unfold zlen in *; simpl in *; lia|]; readSize_case b n
  end.

Lemma readSize_spec b slen :
  bytes_ok b -> 1 <= slen <= 8 -> slen <= zlen b ->
  readSize b slen =
    (let s := be_val (take (Z.to_nat slen) b) in
     if s <? 56 then Err ErrCanonSize
     else if hd 0 b =? 0 then Err ErrCanonSize else Ok s).
Proof.
  intros Hb Hs Hlen. unfold readSize. rewrite Z.gtb_ltb, (proj2 (Z.ltb_ge _ _)) by lia.
  assert (slen = 1 \/ slen = 2 \/ slen = 3 \/ slen = 4 \/ slen = 5 \/ slen = 6 \/ slen = 7 \/ slen = 8)
    as Hc by lia.
  repeat (destruct Hc as [Hc|Hc]); subst slen;
    [readSize_case b 1%nat|readSize_case b 2%nat|readSize_case b 3%nat|readSize_case b 4%nat
    |readSize_case b 5%nat|readSize_case b 6%nat|readSize_case b 7%nat|readSize_case b 8%nat];
    rewrite ?bytes_ok_cons in Hb; destruct_and? Hb;
    unfold idx, be_val, zget; ztonat; cbn -[Z.lor Z.shiftl Z.mul Z.add Z.ltb Z.eqb];
    rewrite ?(lor_chain _ _ 56 48), ?(lor_chain _ _ 48 40), ?(lor_chain _ _ 40 32),
      ?(lor_chain _ _ 32 24), ?(lor_chain _ _ 24 16), ?(lor_chain _ _ 16 8), ?lor_shiftl by lia;
    change (2 ^ 8) with 256; rewrite ?Z.mul_0_l, ?Z.add_0_l; done.
Qed.

Lemma big_bytes_hd s : 0 < s -> exists x b, big_bytes s = x :: b /\ x <> 0.
Proof.
  intros Hs. destruct (byte_len_spec s Hs) as (Hp & Hlo & Hhi).
  pose proof (zlen_big_bytes s) as Hz. pose proof (be_val_big_bytes s ltac:(lia)) as Hv.
  pose proof (big_bytes_ok s) as Hok.
  destruct (big_bytes s) as [|x b]; [rewrite zlen_nil in Hz; lia|].
  exists x, b. split; [done|]. intros ->.
  apply bytes_ok_cons in Hok as [_ Hok]. pose proof (be_val_bound b Hok).
  rewrite be_val_cons in Hv. rewrite zlen_cons in Hz.
  replace (Z.of_nat (byte_len s) - 1) with (zlen b) in Hlo by lia. lia.
Qed.

Lemma big_bytes_bound s : 0 <= s < 2 ^ 64 -> 0 <= zlen (big_bytes s) <= 8.
Proof. intros Hs. rewrite zlen_big_bytes. pose proof (byte_len_u64 s Hs). lia. Qed.

Lemma readSize_intro s r :
  56 <= s < 2 ^ 64 -> bytes_ok r -> readSize (big_bytes s ++ r) (zlen (big_bytes s)) = Ok s.
Proof.
  intros Hs Hr. destruct (big_bytes_hd s ltac:(lia)) as (x & b & Hb & Hx).
  pose proof (big_bytes_bound s ltac:(lia)). pose proof (big_bytes_ok s) as Hok.
  pose proof (be_val_big_bytes s ltac:(lia)) as Hv.
  assert (1 <= zlen (big_bytes s)).
  { rewrite Hb, zlen_cons. pose proof (zlen_nonneg b). lia. }
  rewrite readSize_spec; [|by apply bytes_ok_app|lia|rewrite zlen_app; pose proof (zlen_nonneg r); lia].
  unfold zlen. rewrite Nat2Z.id, take_app_length, Hv. simpl.
  rewrite (proj2 (Z.ltb_ge _ _)) by lia. rewrite Hb. simpl.
  by rewrite (proj2 (Z.eqb_neq _ _)).
Qed.

Lemma readSize_inv rest slen s :
  bytes_ok rest -> 1 <= slen <= 8 -> readSize rest slen = Ok s ->
  56 <= s < 2 ^ 64 /\ zlen (big_bytes s) = slen /\ exists r, rest = big_bytes s ++ r.
Proof.
  intros Hok Hs. destruct (Z.le_gt_cases slen (zlen rest)) as [Hle|Hgt].
  2: { unfold readSize. by rewrite Z.gtb_ltb, (proj2 (Z.ltb_lt _ _)) by lia. }
  rewrite readSize_spec by done. cbv zeta.
  rewrite <- (take_drop (Z.to_nat slen) rest) in Hok. apply bytes_ok_app in Hok as [Hok _].
  assert (zlen (take (Z.to_nat slen) rest) = slen) as Hl
    by (unfold zlen in *; rewrite length_take; lia).
  pose proof (be_val_bound _ Hok) as Hb. rewrite Hl in Hb.
  assert (256 ^ slen <= 256 ^ 8) by (apply Z.pow_le_mono_r; lia).
  destruct (Z.ltb_spec (be_val (take (Z.to_nat slen) rest)) 56); [done|].
  destruct (Z.eqb_spec (hd 0 rest) 0); [done|]. intros [= <-].
  split; [lia|].
  assert (big_bytes (be_val (take (Z.to_nat slen) rest)) = take (Z.to_nat slen) rest) as ->.
  { destruct rest as [|x rest]; [unfold zlen in *; simpl in *; lia|].
    destruct (Z.to_nat slen) eqn:E; [lia|]. simpl in *. by apply big_bytes_be_val. }
  split; [done|]. exists (drop (Z.to_nat slen) rest). by rewrite take_drop.
Qed.

Lemma readSize_nopanic rest slen :
  bytes_ok rest -> 1 <= slen <= 8 -> (exists s, readSize rest slen = Ok s) \/ exists e, readSize rest slen = Err e.
Proof.
  intros Hok Hs. destruct (Z.le_gt_cases slen (zlen rest)) as [Hle|Hgt].
  - rewrite readSize_spec by done. cbv zeta. repeat case_match; eauto.
  - unfold readSize. rewrite Z.gtb_ltb, (proj2 (Z.ltb_lt _ _)) by lia. eauto.
Qed.

(** The header of a long string or list: tag byte and size bytes. *)
Lemma rlp_head_long small large n :
  56 <= n -> rlp_head small large n = (large + zlen (big_bytes n)) :: big_bytes n.
Proof. intros. unfold rlp_head. by rewrite (proj2 (Z.ltb_ge _ _)) by lia. Qed.

Lemma rlp_head_short small large n : n < 56 -> rlp_head small large n = [small + n].
Proof. intros. unfold rlp_head. by rewrite (proj2 (Z.ltb_lt _ _)) by lia. Qed.

Definition tag_size (k : Kind) (c : bytes) : Z := zlen (value_bytes k c) - zlen c.

Lemma value_bytes_len k c : zlen c <= zlen (value_bytes k c).
Proof. destruct k; simpl; [done|..]; rewrite zlen_app; match goal with |- _ <= zlen ?h + _ => pose proof (zlen_nonneg h) end; lia. Qed.

Lemma zslice_1 x (l : bytes) : zslice (x :: l) 1 (zlen (x :: l)) = Some l.
Proof. change (x :: l) with ([x] ++ l) at 1 2. rewrite <- (zslice_app_r [x] l). done. Qed.

Lemma fits_spec {A} (buf : list A) ts cs :
  0 <= ts <= zlen buf -> zlen buf < 2 ^ 64 ->
  (cs >? u64 (u64 (zlen buf) - ts)) = (zlen buf - ts <? cs).
Proof.
  intros. rewrite !u64_small by (rewrite ?u64_small; unfold is_u64; lia). apply Z.gtb_ltb.
Qed.

Lemma readKind_cons b rest :
  readKind (b :: rest) =
    (let! (k, tagsize, contentsize) :=
       (if b <? 0x80 then Ok (KByte, 0, 1)
        else if b <? 0xB8 then
          if (u8 (b - 0x80) =? 1) && (zlen (b :: rest) >? 1)
          then let! b1 := idx (b :: rest) 1 in
               if b1 <? 128 then Err ErrCanonSize else Ok (KString, 1, u8 (b - 0x80))
          else Ok (KString, 1, u8 (b - 0x80))
        else if b <? 0xC0 then
          let! cs := readSize rest (u8 (b - 0xB7)) in Ok (KString, u8 (b - 0xB7) + 1, cs)
        else if b <? 0xF8 then Ok (KList, 1, u8 (b - 0xC0))
        else let! cs := readSize rest (u8 (b - 0xF7)) in Ok (KList, u8 (b - 0xF7) + 1, cs)) in
     if contentsize >? u64 (u64 (zlen (b :: rest)) - tagsize) then Err ErrValueTooLarge
     else Ok (k, tagsize, contentsize)).
Proof.
  unfold readKind. rewrite zslice_1. rewrite zlen_cons at 1. pose proof (zlen_nonneg rest).
  rewrite (proj2 (Z.eqb_neq _ _)) by lia. done.
Qed.

(** First bytes by class: a single byte, a short header, a long header. *)
Definition small_tag (k : Kind) : Z := match k with KList => 0xC0 | _ => 0x80 end.
Definition large_tag (k : Kind) : Z := match k with KList => 0xF7 | _ => 0xB7 end.

Inductive tag_class (b : Z) : Prop :=
| tag_byte : b < 0x80 -> tag_class b
| tag_short k n : k <> KByte -> b = small_tag k + n -> 0 <= n < 56 -> tag_class b
| tag_long k m : k <> KByte -> b = large_tag k + m -> 1 <= m <= 8 -> tag_class b.

Lemma tag_classify b : is_byte b -> tag_class b.
Proof.
  unfold is_byte. intros Hb.
  destruct (Z.lt_ge_cases b 0x80); [by apply tag_byte|].
  destruct (Z.lt_ge_cases b 0xB8); [apply (tag_short _ KString (b - 0x80)); simpl; (done || lia)|].
  destruct (Z.lt_ge_cases b 0xC0); [apply (tag_long _ KString (b - 0xB7)); simpl; (done || lia)|].
  destruct (Z.lt_ge_cases b 0xF8); [apply (tag_short _ KList (b - 0xC0)); simpl; (done || lia)|].
  apply (tag_long _ KList (b - 0xF7)); simpl; (done || lia).
Qed.

Definition noncanon_short (k : Kind) (n : Z) (rest : bytes) : bool :=
  match k, rest with KString, x :: _ => (n =? 1) && (x <? 128) | _, _ => false end.

Lemma readKind_byte b rest :
  b < 128 -> zlen (b :: rest) < 2 ^ 64 -> readKind (b :: rest) = Ok (KByte, 0, 1).
Proof.
  intros Hb Hl. rewrite readKind_cons. rewrite (proj2 (Z.ltb_lt b 128)) by lia.
  cbn [outcome_bind]. pose proof (zlen_nonneg rest).
  rewrite fits_spec, (proj2 (Z.ltb_ge _ _)); rewrite ?zlen_cons in *; done || lia.
Qed.

Lemma readKind_short k n rest :
  k <> KByte -> 0 <= n < 56 -> zlen rest < 2 ^ 64 - 1 ->
  readKind ((small_tag k + n) :: rest)
  = if noncanon_short k n rest then Err ErrCanonSize
    else if zlen rest <? n then Err ErrValueTooLarge else Ok (k, 1, n).
Proof.
  intros Hk Hn Hl. rewrite readKind_cons. pose proof (zlen_nonneg rest).
  rewrite Z.gtb_ltb. destruct k; [done| |]; simpl small_tag.
  - rewrite (proj2 (Z.ltb_ge _ 128)), (proj2 (Z.ltb_lt _ 184)) by lia.
    rewrite u8_small by (unfold is_byte; lia). replace (128 + n - 128) with n by lia.
    assert (noncanon_short KString n rest = false ->
      (if n >? u64 (u64 (zlen (128 + n :: rest)) - 1) then Err ErrValueTooLarge else Ok (KString, 1, n))
      = (if zlen rest <? n then @Err rlp_error _ ErrValueTooLarge else Ok (KString, 1, n))) as Hfin.
    { intros _. rewrite fits_spec by (rewrite zlen_cons; lia). rewrite zlen_cons.
      by replace (1 + zlen rest - 1) with (zlen rest) by lia. }
    destruct rest as [|x rest].
    + rewrite zlen_cons at 1. simpl (1 <? _). rewrite andb_false_r. apply (Hfin eq_refl).
    + rewrite zlen_cons at 1. rewrite (proj2 (Z.ltb_lt 1 _)) by (rewrite zlen_cons in *; pose proof (zlen_nonneg rest); lia).
      rewrite andb_true_r. unfold idx, zget; ztonat; cbn [Z.leb Z.compare lookup list_lookup must outcome_bind].
      simpl noncanon_short in *. destruct (n =? 1), (x <? 128); simpl in *; auto.
  - rewrite (proj2 (Z.ltb_ge _ 128)), (proj2 (Z.ltb_ge _ 184)), (proj2 (Z.ltb_ge _ 192)), (proj2 (Z.ltb_lt _ 248)) by lia.
    rewrite u8_small by (unfold is_byte; lia). cbn [outcome_bind].
    rewrite fits_spec by (rewrite zlen_cons; lia). rewrite zlen_cons. simpl.
    replace (192 + n - 192) with n by lia. by replace (1 + zlen rest - 1) with (zlen rest) by lia.
Qed.

Lemma readKind_long k m rest :
  k <> KByte -> 1 <= m <= 8 -> zlen rest < 2 ^ 64 - 1 ->
  readKind ((large_tag k + m) :: rest)
  = let! cs := readSize rest m in
    if zlen rest - m <? cs then Err ErrValueTooLarge else Ok (k, m + 1, cs).
Proof.
  intros Hk Hm Hl. rewrite readKind_cons. pose proof (zlen_nonneg rest).
  assert (forall k, (let! (k', tagsize, cs) := let! cs := readSize rest m in Ok (k, m + 1, cs) in
      if cs >? u64 (u64 (zlen ((large_tag k + m) :: rest)) - tagsize) then Err ErrValueTooLarge
      else Ok (k', tagsize, cs))
    = let! cs := readSize rest m in
      if zlen rest - m <? cs then Err ErrValueTooLarge else Ok (k, m + 1, cs)) as Hfin.
  { intros k'. destruct (Z.le_gt_cases m (zlen rest)).
    - destruct (readSize rest m); simpl; auto. rewrite fits_spec by (rewrite zlen_cons; lia).
      rewrite zlen_cons. by replace (1 + zlen rest - (m + 1)) with (zlen rest - m) by lia.
    - unfold readSize. rewrite Z.gtb_ltb, (proj2 (Z.ltb_lt _ _)) by lia. done. }
  rewrite <- Hfin. destruct k; [done| |]; simpl large_tag.
  - rewrite (proj2 (Z.ltb_ge _ 128)), (proj2 (Z.ltb_ge _ 184)), (proj2 (Z.ltb_lt _ 192)) by lia.
    rewrite u8_small by (unfold is_byte; lia). by replace (183 + m - 183) with m by lia.
  - rewrite (proj2 (Z.ltb_ge _ 128)), (proj2 (Z.ltb_ge _ 184)), (proj2 (Z.ltb_ge _ 192)), (proj2 (Z.ltb_ge _ 248)) by lia.
    rewrite u8_small by (unfold is_byte; lia). by replace (247 + m - 247) with m by lia.
Qed.

Lemma value_bytes_head k c :
  k <> KByte -> value_bytes k c = rlp_head (small_tag k) (large_tag k) (zlen c) ++ c.
Proof. by destruct k. Qed.

Lemma canonical_size k c : k <> KByte -> canonical k c -> zlen c < 2 ^ 64.
Proof. destruct k; simpl; tauto. Qed.

Lemma noncanon_canonical k c r : canonical k c -> k <> KByte -> noncanon_short k (zlen c) (c ++ r) = false.
Proof.
  destruct k; cbn [canonical]; try done. intros [_ Hc] _.
  destruct c as [|x [|y c]]; cbn [app noncanon_short].
  - by destruct r.
  - destruct (Z.ltb_spec x 128); [exfalso; eauto|done].
  - rewrite (proj2 (Z.eqb_neq _ _)); [done|]. rewrite !zlen_cons. pose proof (zlen_nonneg c). lia.
Qed.

Lemma readKind_intro k c r :
  canonical k c -> bytes_ok (value_bytes k c ++ r) -> zlen (value_bytes k c ++ r) < 2 ^ 64 ->
  readKind (value_bytes k c ++ r) = Ok (k, tag_size k c, zlen c).
Proof.
  intros Hc Hok Hlen. pose proof (zlen_nonneg r). pose proof (zlen_nonneg c).
  destruct (decide (k = KByte)) as [->|Hk].
  { destruct Hc as (x & -> & Hx). simpl in *. rewrite readKind_byte by done. done. }
  unfold tag_size. rewrite value_bytes_head in * by done. rewrite <- app_assoc in *.
  pose proof (canonical_size _ _ Hk Hc).
  destruct (Z.lt_ge_cases (zlen c) 56).
  - rewrite rlp_head_short in * by done. cbn [app] in *. rewrite ?zlen_cons, ?zlen_app in *.
    rewrite readKind_short, noncanon_canonical by (done || rewrite ?zlen_app; lia).
    rewrite zlen_app, (proj2 (Z.ltb_ge _ _)) by lia. repeat f_equal; lia.
  - rewrite rlp_head_long in * by done. cbn [app] in *.
    pose proof (big_bytes_bound (zlen c) ltac:(lia)).
    destruct (big_bytes_hd (zlen c) ltac:(lia)) as (x & b & Hb & _).
    assert (1 <= zlen (big_bytes (zlen c))) by (rewrite Hb, zlen_cons; pose proof (zlen_nonneg b); lia).
    rewrite ?zlen_cons, ?zlen_app in *.
    rewrite readKind_long by (done || rewrite ?zlen_app; lia).
    apply bytes_ok_cons in Hok as [_ Hok]. apply bytes_ok_app in Hok as [_ Hok].
    rewrite readSize_intro by (done || lia). cbn [outcome_bind].
    rewrite !zlen_app, (proj2 (Z.ltb_ge _ _)) by lia. repeat f_equal; lia.
Qed.

Lemma readKind_inv b k ts cs :
  bytes_ok b -> zlen b < 2 ^ 64 -> readKind b = Ok (k, ts, cs) ->
  exists c r, canonical k c /\ b = value_bytes k c ++ r /\ ts = tag_size k c /\ cs = zlen c.
Proof.
  intros Hok Hlen. destruct b as [|b rest]; [done|].
  apply bytes_ok_cons in Hok as [Hb Hok]. rewrite zlen_cons in Hlen.
  destruct (tag_classify b Hb) as [Hlt|k' n Hk -> Hn|k' m Hk -> Hm].
  - rewrite readKind_byte by (rewrite ?zlen_cons; lia). intros [= <- <- <-].
    exists [b], rest. repeat split; simpl; eauto.
  - rewrite readKind_short by (done || lia).
    destruct (noncanon_short k' n rest) eqn:Hnc; [done|].
    destruct (Z.ltb_spec (zlen rest) n); [done|]. intros [= <- <- <-].
    assert (zlen (take (Z.to_nat n) rest) = n) as Hl
      by (unfold zlen in *; rewrite length_take; lia).
    exists (take (Z.to_nat n) rest), (drop (Z.to_nat n) rest).
    unfold tag_size. rewrite value_bytes_head, Hl, rlp_head_short by (done || lia).
    cbn [app]. rewrite take_drop, zlen_cons, Hl. repeat split; try lia.
    destruct k'; simpl; [done| |lia]. split; [lia|]. intros (x & Ex & Hx).
    assert (n = 1) as -> by (rewrite <- Hl, Ex; done).
    destruct rest as [|y rest]; [done|]. simplify_eq/=.
    by rewrite (proj2 (Z.ltb_lt _ _)) in Hnc by lia.
  - rewrite readKind_long by (done || lia).
    destruct (readSize rest m) as [s|e| |] eqn:Hs; try done. cbn [outcome_bind].
    apply readSize_inv in Hs as (Hs & Hm' & r & ->); [|done|done].
    rewrite zlen_app. destruct (Z.ltb_spec (zlen (big_bytes s) + zlen r - m) s); [done|].
    intros [= <- <- <-].
    assert (zlen (take (Z.to_nat s) r) = s) as Hl by (unfold zlen in *; rewrite length_take; lia).
    exists (take (Z.to_nat s) r), (drop (Z.to_nat s) r).
    unfold tag_size. rewrite value_bytes_head, Hl, rlp_head_long by (done || lia).
    rewrite <- app_assoc, take_drop. rewrite <- Hm'. cbn [app].
    rewrite zlen_cons, zlen_app, Hl. repeat split; try lia.
    destruct k'; simpl; [done| |lia]. split; [lia|]. intros (x & Ex & Hx). rewrite Ex in Hl.
    unfold zlen in Hl. simpl in Hl. lia.
Qed.

Lemma readKind_nopanic b :
  bytes_ok b -> zlen b < 2 ^ 64 ->
  (exists k ts cs, readKind b = Ok (k, ts, cs)) \/ exists e, readKind b = Err e.
Proof.
  intros Hok Hlen. destruct b as [|b rest]; [right; by eexists|].
  apply bytes_ok_cons in Hok as [Hb Hok]. rewrite zlen_cons in Hlen.
  destruct (tag_classify b Hb) as [Hlt|k' n Hk -> Hn|k' m Hk -> Hm].
  - rewrite readKind_byte by (rewrite ?zlen_cons; lia). eauto.
  - rewrite readKind_short by (done || lia). repeat case_match; eauto.
  - rewrite readKind_long by (done || lia).
    destruct (readSize_nopanic rest m Hok Hm) as [[s ->]|[e ->]]; simpl; [|eauto].
    case_match; eauto.
Qed.

Lemma value_bytes_pos k c : canonical k c -> 1 <= zlen (value_bytes k c).
Proof.
  destruct (decide (k = KByte)) as [->|Hk].
  - intros (x & -> & _). done.
  - intros Hc. rewrite value_bytes_head, zlen_app by done.
    rewrite zlen_rlp_head by (pose proof (canonical_size _ _ Hk Hc); pose proof (zlen_nonneg c); lia).
    unfold headsize. pose proof (zlen_nonneg c).
    destruct (Z.ltb_spec (zlen c) 56); [lia|].
    rewrite intsize_spec by (pose proof (canonical_size _ _ Hk Hc); lia). lia.
Qed.

Lemma value_slices k c r :
  zlen (value_bytes k c ++ r) < 2 ^ 64 ->
  zslice (value_bytes k c ++ r) (tag_size k c) (u64 (tag_size k c + zlen c)) = Some c /\
  zslice (value_bytes k c ++ r) (u64 (tag_size k c + zlen c)) (zlen (value_bytes k c ++ r)) = Some r.
Proof.
  intros Hlen. unfold tag_size. replace (zlen (value_bytes k c) - zlen c + zlen c) with (zlen (value_bytes k c)) by lia.
  rewrite zlen_app in Hlen. pose proof (zlen_nonneg r). pose proof (zlen_nonneg (value_bytes k c)).
  rewrite u64_small by (unfold is_u64; lia). split; [|apply zslice_app_r].
  assert (exists h, value_bytes k c = h ++ c) as [h ->].
  { destruct k; simpl; [by exists []|eauto..]. }
  rewrite zlen_app, <- app_assoc. apply zslice_mid; lia.
Qed.

Lemma CountValues_loop_intro fuel vs i :
  Forall (fun '(k, c) => canonical k c) vs ->
  let b := concat ((fun '(k, c) => value_bytes k c) <$> vs) in
  bytes_ok b -> zlen b < 2 ^ 64 -> (length b < fuel)%nat ->
  CountValues_loop fuel b i = Ok (i + zlen vs).
Proof.
  revert fuel i. induction vs as [|[k c] vs IH]; intros fuel i Hvs b Hok Hlen Hfuel;
    (destruct fuel as [|fuel]; [lia|]); cbn [CountValues_loop]; subst b.
  - simpl. rewrite zlen_nil. f_equal. lia.
  - inversion Hvs as [|? ? Hc Hvs']; subst. cbn [fmap list_fmap concat] in *.
    set (r := concat _) in *.
    pose proof (value_bytes_pos k c Hc). pose proof (zlen_nonneg r).
    rewrite Z.gtb_ltb, (proj2 (Z.ltb_lt _ _)) by (rewrite zlen_app; lia).
    rewrite readKind_intro by done. cbn [outcome_bind].
    destruct (value_slices k c r Hlen) as [_ ->]. cbn [must outcome_bind].
    apply bytes_ok_app in Hok as [_ Hok]. rewrite zlen_app in Hlen. rewrite length_app in Hfuel.
    unfold r. rewrite IH; [|done|done|fold r; lia|fold r; unfold zlen in *; lia].
    rewrite zlen_cons. f_equal. lia.
Qed.

Lemma CountValues_loop_inv fuel b i :
  bytes_ok b -> zlen b < 2 ^ 64 -> (length b < fuel)%nat ->
  (exists vs, Forall (fun '(k, c) => canonical k c) vs /\
     b = concat ((fun '(k, c) => value_bytes k c) <$> vs) /\
     CountValues_loop fuel b i = Ok (i + zlen vs))
  \/ exists e, CountValues_loop fuel b i = Err e.
Proof.
  revert b i. induction fuel as [|fuel IH]; intros b i Hok Hlen Hfuel; [lia|].
  cbn [CountValues_loop]. rewrite Z.gtb_ltb. destruct (Z.ltb_spec 0 (zlen b)) as [Hpos|Hz].
  - destruct (readKind_nopanic b Hok Hlen) as [(k & ts & cs & Hrk)|[e ->]]; [|right; by eexists].
    rewrite Hrk. apply readKind_inv in Hrk as (c & r & Hc & -> & -> & ->); [|done|done].
    cbn [outcome_bind]. destruct (value_slices k c r Hlen) as [_ ->]. cbn [must outcome_bind].
    apply bytes_ok_app in Hok as [_ Hok]. pose proof (value_bytes_pos k c Hc).
    rewrite zlen_app in Hlen. rewrite length_app in Hfuel.
    destruct (IH r (i + 1)) as [(vs & Hvs & Hr & ->)|[e ->]]; [done|lia|unfold zlen in *; lia| |right; by eexists].
    left. exists ((k, c) :: vs). split; [by constructor|]. cbn [fmap list_fmap concat].
    split; [by rewrite <- Hr|]. rewrite zlen_cons. f_equal. lia.
  - left. exists []. split; [constructor|]. destruct b; [|rewrite zlen_cons in Hz; pose proof (zlen_nonneg b); lia].
    rewrite zlen_nil. split; [done|]. f_equal. lia.
Qed.

Lemma Split_intro k c r : canonical k c -> bytes_ok (value_bytes k c ++ r) -> zlen (value_bytes k c ++ r) < 2 ^ 64 ->
  Split (value_bytes k c ++ r) = Ok (k, c, r).
Proof.
  intros Hc Hok Hlen. unfold Split. rewrite readKind_intro by done. cbn [outcome_bind].
  by destruct (value_slices k c r Hlen) as [-> ->].
Qed.

Lemma Split_cases b : bytes_ok b -> zlen b < 2 ^ 64 ->
  (exists k c r, canonical k c /\ b = value_bytes k c ++ r /\ Split b = Ok (k, c, r)) \/ exists e, Split b = Err e.
Proof.
  intros Hok Hlen. destruct (readKind_nopanic b Hok Hlen) as [(k & ts & cs & Hrk)|[e He]].
  - destruct (readKind_inv b k ts cs Hok Hlen Hrk) as (c & r & Hc & -> & _). left. exists k, c, r. split_and!; try done. by apply Split_intro.
  - right. exists e. unfold Split. by rewrite He.
Qed.

Lemma CountValues_intro vs :
  Forall (fun '(k, c) => canonical k c) vs ->
  let b := concat ((fun '(k, c) => value_bytes k c) <$> vs) in
  bytes_ok b -> zlen b < 2 ^ 64 -> CountValues b = Ok (zlen vs).
Proof. intros Hvs b Hok Hlen. unfold CountValues, b. rewrite CountValues_loop_intro by (done || lia). done. Qed.

(** * Properties *)

(** [Split] succeeds exactly when the input starts with a canonically encoded value,
    and then returns that value's kind, its content and the bytes after it.  On any other
    input it reports an error; it never slices out of range. *)
Theorem Split_spec b :
  bytes_ok b -> zlen b < 2 ^ 64 ->
  (forall k c r, Split b = Ok (k, c, r) <-> canonical k c /\ b = value_bytes k c ++ r) /\
  ((exists v, Split b = Ok v) \/ exists e, Split b = Err e).
Proof.
  intros Hok Hlen. destruct (Split_cases b Hok Hlen) as [(k & c & r & Hc & Hb & Hs)|[e He]].
  - split; [|left; by eexists]. intros k' c' r'. split; [rewrite Hs; by intros [= <- <- <-]|].
    intros [Hc' Hb']. rewrite Hb' in Hok, Hlen |- *. by apply Split_intro.
  - split; [|right; by eexists]. intros k c r. split; [by rewrite He|]. intros [Hc Hb]. rewrite Hb in Hok, Hlen |- *. by apply Split_intro.
Qed.

Lemma Split_spec_witness :
  (forall k c r, Split [0x83; 1; 2; 3; 0xC0] = Ok (k, c, r) <->
     canonical k c /\ [0x83; 1; 2; 3; 0xC0] = value_bytes k c ++ r) /\
  ((exists v, Split [0x83; 1; 2; 3; 0xC0] = Ok v) \/ exists e, Split [0x83; 1; 2; 3; 0xC0] = Err e).
Proof.
  apply (Split_spec [0x83; 1; 2; 3; 0xC0]); [|done].
  repeat constructor; lia.
Defined.

(**  [CountValues] returns [n] exactly when the input is the concatenation of [n]
    canonically encoded values; otherwise it reports an error.  The loop always ends. *)
Theorem CountValues_spec b :
  bytes_ok b -> zlen b < 2 ^ 64 ->
  (forall n, CountValues b = Ok n <->
     exists vs, Forall (fun '(k, c) => canonical k c) vs /\
       b = concat ((fun '(k, c) => value_bytes k c) <$> vs) /\ n = zlen vs) /\
  ((exists n, CountValues b = Ok n) \/ exists e, CountValues b = Err e).
Proof.
  intros Hok Hlen. unfold CountValues. split.
  - intros n. split.
    + destruct (CountValues_loop_inv (S (length b)) b 0 Hok Hlen ltac:(lia)) as [(vs & Hvs & Hb & ->)|[e ->]]; [|done].
      intros [= <-]. exists vs. repeat split; auto.
    + intros (vs & Hvs & -> & ->). rewrite CountValues_loop_intro by (done || lia). done.
  - destruct (CountValues_loop_inv (S (length b)) b 0 Hok Hlen ltac:(lia)) as [(vs & _ & _ & ->)|[e ->]]; eauto.
Qed.

Lemma CountValues_spec_witness :
  (forall n, CountValues [0xC1; 5; 0x81; 200; 7] = Ok n <->
     exists vs, Forall (fun '(k, c) => canonical k c) vs /\
       [0xC1; 5; 0x81; 200; 7] = concat ((fun '(k, c) => value_bytes k c) <$> vs) /\ n = zlen vs) /\
  ((exists n, CountValues [0xC1; 5; 0x81; 200; 7] = Ok n) \/
   exists e, CountValues [0xC1; 5; 0x81; 200; 7] = Err e).
Proof.
  apply (CountValues_spec [0xC1; 5; 0x81; 200; 7]); [|done].
  repeat constructor; lia.
Defined.
