(* ===== verification/RlpStream.v ===== *)
(** The streaming RLP decoder ([src/rlp/decode.go]) over a [bytes.Reader].

    [Stream] is a state machine: the unread input, the number of bytes it may still
    consume, the cached kind of the value ahead and the stack of enclosing lists.  On top
    of its operations stand the value decoders, selected by the target type. *)

From stdpp Require Import base numbers list.
From S2P Require Import Prelude.
From S2P Require Import RlpEncode.
From S2P Require Import RlpRaw.
Local Open Scope Z_scope.
Local Open Scope go_scope.

(** * The stream *)

Record listpos := ListPos { lp_pos : Z; lp_size : Z }.

(** [s_kind = None] is the armed state [kind = -1]; the innermost list is at the head of
    [s_stack]. *)
Record Stream := MkStream {
  s_r : bytes;
  s_remaining : Z;
  s_limited : bool;
  s_kind : option Kind;
  s_size : Z;
  s_byteval : Z;
  s_kinderr : option rlp_error;
  s_stack : list listpos }.

Definition set_r (s : Stream) r := MkStream r (s_remaining s) (s_limited s) (s_kind s) (s_size s) (s_byteval s) (s_kinderr s) (s_stack s).
Definition set_remaining (s : Stream) n := MkStream (s_r s) n (s_limited s) (s_kind s) (s_size s) (s_byteval s) (s_kinderr s) (s_stack s).
Definition set_kind (s : Stream) k := MkStream (s_r s) (s_remaining s) (s_limited s) k (s_size s) (s_byteval s) (s_kinderr s) (s_stack s).
Definition set_size (s : Stream) n := MkStream (s_r s) (s_remaining s) (s_limited s) (s_kind s) n (s_byteval s) (s_kinderr s) (s_stack s).
Definition set_byteval (s : Stream) b := MkStream (s_r s) (s_remaining s) (s_limited s) (s_kind s) (s_size s) b (s_kinderr s) (s_stack s).
Definition set_kinderr (s : Stream) e := MkStream (s_r s) (s_remaining s) (s_limited s) (s_kind s) (s_size s) (s_byteval s) e (s_stack s).
Definition set_stack (s : Stream) st := MkStream (s_r s) (s_remaining s) (s_limited s) (s_kind s) (s_size s) (s_byteval s) (s_kinderr s) st.

(** Operations change the stream also when they fail. *)
Definition SM (A : Type) : Type := Stream -> Stream * outcome rlp_error A.

Definition sret {A} (a : A) : SM A := fun s => (s, Ok a).
Definition sfail {A} (e : rlp_error) : SM A := fun s => (s, Err e).
Definition sbind {A B} (m : SM A) (k : A -> SM B) : SM B := fun s =>
  match m s with
  | (s, Ok a) => k a s
  | (s, Err e) => (s, Err e)
  | (s, Panic) => (s, Panic)
  | (s, NoFuel) => (s, NoFuel)
  end.

Declare Scope stream_scope.
Notation "'do' x <- m ; k" := (sbind m (fun x => k))
  (at level 10, x pattern, m at level 100, k at level 200) : stream_scope.
Local Open Scope stream_scope.

(** [Reset] on a [bytes.Reader] holding [r]; both branches for [inputLimit] set a limit. *)
Definition NewStream (r : bytes) (inputLimit : Z) : Stream :=
  if inputLimit >? 0
  then MkStream r inputLimit true None 0 0 None []
  else MkStream r (u64 (zlen r)) true None 0 0 None [].

Definition NewListStream (r : bytes) (len : Z) : Stream :=
  set_size (set_kind (NewStream r len) (Some KList)) len.

Definition willRead (n : Z) : SM unit := fun s =>
  let s := set_kind s None in
  let limit (s : Stream) : Stream * outcome rlp_error unit :=
    if s_limited s then
      if n >? s_remaining s then (s, Err ErrValueTooLarge)
      else (set_remaining s (u64 (s_remaining s - n)), Ok tt)
    else (s, Ok tt) in
  match s_stack s with
  | [] => limit s
  | tos :: st =>
      if n >? u64 (lp_size tos - lp_pos tos) then (s, Err ErrElemTooLarge)
      else limit (set_stack s (ListPos (u64 (lp_pos tos + n)) (lp_size tos) :: st))
  end.

(** [readFull] of [n] bytes: [bytes.Reader.Read] hands out what it has, then EOF. *)
Definition readFull (n : Z) : SM bytes :=
  do _ <- willRead n;
  fun s =>
    if n <=? zlen (s_r s)
    then (set_r s (drop (Z.to_nat n) (s_r s)), Ok (take (Z.to_nat n) (s_r s)))
    else (set_r s [], Err io_ErrUnexpectedEOF).

Definition readByte : SM Z :=
  do _ <- willRead 1;
  fun s =>
    match s_r s with
    | [] => (s, Err io_ErrUnexpectedEOF)
    | b :: r => (set_r s r, Ok b)
    end.

Definition readUint (size : Z) : SM Z :=
  if size =? 0 then fun s => (set_kind s None, Ok 0)
  else if size =? 1 then readByte
  else if size >? 8 then fun s => (s, Panic)
  else
    do buf <- readFull size;
    match buf with
    | 0 :: _ => sfail ErrCanonSize
    | _ => sret (be_val buf)
    end.

(** A long header: the size must not fit the short form.  The kind and size are returned
    along with the error, as the method does. *)
Definition readLong (k : Kind) (n : Z) : Stream -> Stream * outcome rlp_error (Kind * Z * option rlp_error) :=
  fun s =>
    match readUint n s with
    | (s, Ok size) => (s, Ok (k, size, if size <? 56 then Some ErrCanonSize else None))
    | (s, Err e) => (s, Ok (k, 0, Some e))
    | (s, Panic) => (s, Panic)
    | (s, NoFuel) => (s, NoFuel)
    end.

(** [Stream.readKind] *)
Definition s_readKind : Stream -> Stream * outcome rlp_error (Kind * Z * option rlp_error) :=
  fun s =>
    match readByte s with
    | (s, Err err) =>
        let err :=
          match s_stack s, err with
          | [], io_ErrUnexpectedEOF => io_EOF
          | [], ErrValueTooLarge => io_EOF
          | _, _ => err
          end in
        (s, Ok (KByte, 0, Some err))
    | (s, Panic) => (s, Panic)
    | (s, NoFuel) => (s, NoFuel)
    | (s, Ok b) =>
        let s := set_byteval s 0 in
        if b <? 0x80 then (set_byteval s b, Ok (KByte, 0, None))
        else if b <? 0xB8 then (s, Ok (KString, u8 (b - 0x80), None))
        else if b <? 0xC0 then readLong KString (u8 (b - 0xB7)) s
        else if b <? 0xF8 then (s, Ok (KList, u8 (b - 0xC0), None))
        else readLong KList (u8 (b - 0xF7)) s
    end.

(** The check of a value's size against the enclosing list or, at top level, against the
    remaining input. *)
Definition sizeCheck (s : Stream) (size : Z) : option rlp_error :=
  match s_stack s with
  | [] => if s_limited s && (size >? s_remaining s) then Some ErrValueTooLarge else None
  | t :: _ => if size >? u64 (lp_size t - lp_pos t) then Some ErrElemTooLarge else None
  end.

(** [return s.kind, s.size, s.kinderr] *)
Definition cachedKind : SM (Kind * Z) := fun s =>
  match s_kinderr s, s_kind s with
  | Some e, _ => (s, Err e)
  | None, Some k => (s, Ok (k, s_size s))
  | None, None => (s, Panic)
  end.

(** [Stream.Kind] *)
Definition s_Kind : SM (Kind * Z) := fun s =>
  match s_kind s with
  | Some _ => cachedKind s
  | None =>
      let s := set_kinderr s None in
      let tos := head (s_stack s) in
      if match tos with Some t => lp_pos t =? lp_size t | None => false end
      then (s, Err EOL)
      else
        match s_readKind s with
        | (s, Ok (k, size, err)) =>
            let s := set_size (set_kind s (Some k)) size in
            cachedKind (set_kinderr s (match err with
                                       | Some e => Some e
                                       | None => sizeCheck s size
                                       end))
        | (s, Err e) => (s, Err e)
        | (s, Panic) => (s, Panic)
        | (s, NoFuel) => (s, NoFuel)
        end
  end.

Definition rearm : SM unit := fun s => (set_kind s None, Ok tt).

(** [Stream.Bytes] *)
Definition s_Bytes : SM bytes :=
  do (kind, size) <- s_Kind;
  match kind with
  | KByte => do _ <- rearm; fun s => (s, Ok [s_byteval s])
  | KString =>
      do b <- readFull size;
      if (size =? 1) && (hd 0 b <? 128) then sfail ErrCanonSize else sret b
  | KList => sfail ErrExpectedString
  end.

(** [Stream.Raw] *)
Definition s_Raw : SM bytes :=
  do (kind, size) <- s_Kind;
  match kind with
  | KByte => do _ <- rearm; fun s => (s, Ok [s_byteval s])
  | KString => do content <- readFull size; sret (puthead 0x80 0xB7 size ++ content)
  | KList => do content <- readFull size; sret (puthead 0xC0 0xF7 size ++ content)
  end.

(** [Stream.uint] *)
Definition s_uint (maxbits : Z) : SM Z :=
  do (kind, size) <- s_Kind;
  match kind with
  | KByte => fun s =>
      if s_byteval s =? 0 then (s, Err ErrCanonInt)
      else (set_kind s None, Ok (s_byteval s))
  | KString =>
      if size >? maxbits / 8 then sfail errUintOverflow
      else fun s =>
        match readUint (u8 size) s with
        | (s, Err ErrCanonSize) => (s, Err ErrCanonInt)
        | (s, Ok v) => if (size >? 0) && (v <? 128) then (s, Err ErrCanonSize) else (s, Ok v)
        | r => r
        end
  | KList => sfail ErrExpectedString
  end.

Definition s_Uint : SM Z := s_uint 64.

(** [Stream.Bool] *)
Definition s_Bool : SM bool :=
  do num <- s_uint 8;
  if num =? 0 then sret false else if num =? 1 then sret true else sfail errInvalidBool.

(** [Stream.List] *)
Definition s_List : SM Z :=
  do (kind, size) <- s_Kind;
  match kind with
  | KList => fun s =>
      (set_size (set_kind (set_stack s (ListPos 0 size :: s_stack s)) None) 0, Ok size)
  | _ => sfail ErrExpectedList
  end.

(** [Stream.ListEnd] *)
Definition s_ListEnd : SM unit := fun s =>
  match s_stack s with
  | [] => (s, Err errNotInList)
  | tos :: st =>
      if negb (lp_pos tos =? lp_size tos) then (s, Err errNotAtEOL)
      else
        let st := match st with
                  | [] => []
                  | t :: st => ListPos (u64 (lp_pos t + lp_size tos)) (lp_size t) :: st
                  end in
        (set_size (set_kind (set_stack s st) None) 0, Ok tt)
  end.

(** * Value decoders *)

Definition wrapStreamError (e : rlp_error) : rlp_error :=
  match e with
  | ErrCanonInt => decodeError non_canonical_integer
  | ErrCanonSize => decodeError non_canonical_size
  | ErrExpectedList => decodeError expected_input_list
  | ErrExpectedString => decodeError expected_input_string
  | errUintOverflow => decodeError input_string_too_long
  | errNotAtEOL => decodeError input_list_too_many
  | e => e
  end.

Definition swrap {A} (m : SM A) : SM A := fun s =>
  match m s with (s, Err e) => (s, Err (wrapStreamError e)) | r => r end.

(** What decoding into [interface{}] stores: a byte slice or a slice of such values. *)
Inductive item := IStr (b : bytes) | IList (l : list item).

(** Decoded values, by the kind of their target. *)
Inductive dval :=
| DBytes (b : bytes)            (* RawValue, string, byte slice, byte array *)
| DUint (i : Z)                 (* unsigned integers and big.Int *)
| DBool (b : bool)
| DList (l : list dval)         (* slice, array *)
| DStruct (l : list dval)
| DPtr (v : option dval)
| DInterface (i : item).

Inductive rtype :=
| TRawValue | TBigInt | TUint (bits : Z) | TBool | TString | TByteSlice | TByteArray (n : Z)
| TSlice (tail : bool) (e : rtype) | TArray (n : nat) (e : rtype)
| TStruct (fields : list rtype) | TPtr (nilOK : bool) (e : rtype) | TInterface.

Definition smap {A B} (f : A -> B) (m : SM A) : SM B := do x <- m; sret (f x).

Definition decodeRawValue : SM dval := smap DBytes s_Raw.
Definition decodeUint (bits : Z) : SM dval := smap DUint (swrap (s_uint bits)).
Definition decodeBool : SM dval := smap DBool (swrap s_Bool).
Definition decodeString : SM dval := smap DBytes (swrap s_Bytes).
Definition decodeByteSlice : SM dval := smap DBytes (swrap s_Bytes).

Definition decodeBigInt : SM dval :=
  do b <- swrap s_Bytes;
  match b with
  | 0 :: _ => sfail (wrapStreamError ErrCanonInt)
  | _ => sret (DUint (be_val b))
  end.

Definition decodeByteArray (vlen : Z) : SM dval :=
  do (kind, size) <- s_Kind;
  match kind with
  | KByte =>
      if vlen =? 0 then sfail (decodeError input_string_too_long)
      else if vlen >? 1 then sfail (decodeError input_string_too_short)
      else fun s =>
        (* bv, _ := s.Uint(): the error is dropped and the value is then 0 *)
        match s_Uint s with
        | (s, Ok bv) => (s, Ok (DBytes [u8 bv]))
        | (s, Err _) => (s, Ok (DBytes [0]))
        | (s, Panic) => (s, Panic)
        | (s, NoFuel) => (s, NoFuel)
        end
  | KString =>
      if u64 vlen <? size then sfail (decodeError input_string_too_long)
      else if u64 vlen >? size then sfail (decodeError input_string_too_short)
      else
        do slice <- readFull vlen;
        if (size =? 1) && (hd 0 slice <? 128) then sfail (wrapStreamError ErrCanonSize)
        else sret (DBytes slice)
  | KList => sfail (wrapStreamError ErrExpectedString)
  end.

(** [decodeSliceElems]: elements until the end of the list. *)
Fixpoint decodeSliceElems {A} (fuel : nat) (elemdec : SM A) : SM (list A) :=
  match fuel with
  | O => fun s => (s, NoFuel)
  | S fuel => fun s =>
      match elemdec s with
      | (s, Err EOL) => (s, Ok [])
      | (s, Err e) => (s, Err e)
      | (s, Panic) => (s, Panic)
      | (s, NoFuel) => (s, NoFuel)
      | (s, Ok v) => smap (cons v) (decodeSliceElems fuel elemdec) s
      end
  end.

Definition decodeListSlice {A} (fuel : nat) (elemdec : SM A) : SM (list A) :=
  do size <- swrap s_List;
  if size =? 0 then do _ <- s_ListEnd; sret []
  else
    do l <- decodeSliceElems fuel elemdec;
    do _ <- s_ListEnd;
    sret l.

Fixpoint decodeArrayElems {A} (n : nat) (elemdec : SM A) : SM (list A) :=
  match n with
  | O => sret []
  | S n => fun s =>
      match elemdec s with
      | (s, Err EOL) => (s, Err (decodeError input_list_too_few))
      | (s, Err e) => (s, Err e)
      | (s, Panic) => (s, Panic)
      | (s, NoFuel) => (s, NoFuel)
      | (s, Ok v) => smap (cons v) (decodeArrayElems n elemdec) s
      end
  end.

Definition decodeListArray {A} (n : nat) (elemdec : SM A) : SM (list A) :=
  do _ <- swrap s_List;
  do l <- decodeArrayElems n elemdec;
  do _ <- swrap s_ListEnd;
  sret l.

(** [decodeInterface] *)
Fixpoint decodeInterface (fuel : nat) : SM item :=
  match fuel with
  | O => fun s => (s, NoFuel)
  | S fuel =>
      do (kind, _) <- s_Kind;
      match kind with
      | KList => smap IList (decodeListSlice fuel (decodeInterface fuel))
      | _ => smap IStr s_Bytes
      end
  end.

(** The field loop of [makeStructDecoder]. *)
Section decode_fields.
Variable dec : rtype -> SM dval.
Fixpoint decodeFields (fields : list rtype) : SM (list dval) :=
  match fields with
  | [] => sret []
  | f :: fields => fun s =>
      match dec f s with
      | (s, Err EOL) => (s, Err (decodeError struct_too_few))
      | (s, Err e) => (s, Err e)
      | (s, Panic) => (s, Panic)
      | (s, NoFuel) => (s, NoFuel)
      | (s, Ok v) => smap (cons v) (decodeFields fields) s
      end
  end.
End decode_fields.

Definition makeStructDecoder (dec : rtype -> SM dval) (fields : list rtype) : SM dval :=
  do _ <- swrap s_List;
  do l <- decodeFields dec fields;
  do _ <- swrap s_ListEnd;
  sret (DStruct l).

Definition makeOptionalPtrDecoder (dec : SM dval) : SM dval := fun s =>
  match s_Kind s with
  | (s, Ok (kind, size)) =>
      if (size =? 0) && negb (bool_decide (kind = KByte))
      then (set_kind s None, Ok (DPtr None))
      else smap (fun v => DPtr (Some v)) dec s
  | (s, Err e) => (set_kind s None, Err e)
  | (s, Panic) => (s, Panic)
  | (s, NoFuel) => (s, NoFuel)
  end.

(** [makeDecoder]: the decoder chosen for a type; [fuel] bounds the element loops. *)
Fixpoint makeDecoder (fuel : nat) (t : rtype) : SM dval :=
  match t with
  | TRawValue => decodeRawValue
  | TBigInt => decodeBigInt
  | TUint bits => decodeUint bits
  | TBool => decodeBool
  | TString => decodeString
  | TByteSlice => decodeByteSlice
  | TByteArray n => decodeByteArray n
  | TSlice tail e =>
      if tail then smap DList (decodeSliceElems fuel (makeDecoder fuel e))
      else smap DList (decodeListSlice fuel (makeDecoder fuel e))
  | TArray n e => smap DList (decodeListArray n (makeDecoder fuel e))
  | TStruct fields => makeStructDecoder (makeDecoder fuel) fields
  | TPtr false e => smap (fun v => DPtr (Some v)) (makeDecoder fuel e)
  | TPtr true e => makeOptionalPtrDecoder (makeDecoder fuel e)
  | TInterface => smap DInterface (decodeInterface fuel)
  end.

(** [DecodeBytes] with a decoder for the target. *)
Definition DecodeBytes {A} (dec : SM A) (b : bytes) : outcome rlp_error A :=
  match dec (NewStream b (u64 (zlen b))) with
  | (s, Ok v) => if zlen (s_r s) >? 0 then Err ErrMoreThanOneValue else Ok v
  | (_, Err e) => Err e
  | (_, Panic) => Panic
  | (_, NoFuel) => NoFuel
  end.

Definition DecodeBytes_interface (b : bytes) : outcome rlp_error item :=
  DecodeBytes (decodeInterface (S (length b))) b.

Example decode_ex1 :
  DecodeBytes_interface [0xC9; 0x83; 99; 97; 116; 0xC4; 0x82; 4; 0; 1]
  = Ok (IList [IStr [99; 97; 116]; IList [IStr [4; 0]; IStr [1]]]).
Proof. reflexivity. Qed.

Example decode_ex2 :
  DecodeBytes (makeDecoder 9 (TStruct [TUint 64; TPtr true (TByteArray 2); TSlice true TString])) [0xC6; 5; 0x80; 0x82; 1; 2; 0x80]
  = Ok (DStruct [DUint 5; DPtr None; DList [DBytes [1; 2]; DBytes []]]).
Proof. reflexivity. Qed.

(** * Invariant of the list stack

    [n] is the number of unread bytes; [k] is what the enclosing list's position still
    has to advance by when the inner list ends. *)
Fixpoint stack_ok (n k : Z) (st : list listpos) : Prop :=
  match st with
  | [] => True
  | t :: st =>
      let p := lp_pos t + k in
      0 <= lp_pos t /\ p <= lp_size t < 2 ^ 64 /\ lp_size t - p <= n /\
      stack_ok (n - (lp_size t - p)) (lp_size t) st
  end.

(** Bytes the next value may occupy. *)
Definition avail (n : Z) (st : list listpos) : Z :=
  match st with [] => n | t :: _ => lp_size t - lp_pos t end.

Definition advance (st : list listpos) (m : Z) : list listpos :=
  match st with [] => [] | t :: st => ListPos (lp_pos t + m) (lp_size t) :: st end.

Record core (s : Stream) (r : bytes) (st : list listpos) : Prop := {
  core_r : s_r s = r;
  core_limited : s_limited s = true;
  core_remaining : s_remaining s = zlen r;
  core_stack : s_stack s = st;
  core_len : zlen r < 2 ^ 64;
  core_ok : stack_ok (zlen r) 0 st }.

(** Positioned before a value. *)
Definition ready (s : Stream) (r : bytes) (st : list listpos) : Prop :=
  core s r st /\ s_kind s = None.

(** The header of the next value has been read. *)
Definition peeked (s : Stream) (k : Kind) (size bv : Z) (r : bytes) (st : list listpos) : Prop :=
  core s r st /\ s_kind s = Some k /\ s_size s = size /\ s_kinderr s = None /\
  (k = KByte -> s_byteval s = bv) /\ 0 <= size <= avail (zlen r) st.

Definition head_of (k : Kind) (size bv : Z) : bytes :=
  match k with KByte => [bv] | _ => rlp_head (small_tag k) (large_tag k) size end.

Definition head_ok (k : Kind) (size bv : Z) : Prop :=
  0 <= size < 2 ^ 64 /\ (k = KByte -> 0 <= bv < 128 /\ size = 0).

(** [dec] reads exactly [bs] as [v]. *)
Definition decodes {A} (dec : SM A) (bs : bytes) (v : A) : Prop :=
  forall s r st, ready s (bs ++ r) st -> zlen bs <= avail (zlen (bs ++ r)) st ->
  exists s', dec s = (s', Ok v) /\ ready s' r (advance st (zlen bs)).

(** The stream stands at the end of the innermost list. *)
Definition at_end (st : list listpos) : Prop :=
  match st with [] => False | t :: _ => lp_pos t = lp_size t end.

(** At the end of the innermost list [dec] reports it and stays there. *)
Definition stops {A} (dec : SM A) : Prop :=
  forall s r st, ready s r st -> at_end st -> exists s', dec s = (s', Err EOL) /\ ready s' r st.

(** On inputs shorter than [n], [dec] returns; what it accepts is described by [P], and it
    reports the end of a list exactly there. *)
Definition sound {A} (n : Z) (dec : SM A) (P : bytes -> A -> Prop) : Prop :=
  forall s r0 st, ready s r0 st -> bytes_ok r0 -> avail (zlen r0) st < n ->
  (exists s' v bs r, dec s = (s', Ok v) /\ r0 = bs ++ r /\ P bs v /\
     zlen bs <= avail (zlen r0) st /\ ready s' r (advance st (zlen bs))) \/
  (exists s', dec s = (s', Err EOL) /\ at_end st /\ ready s' r0 st) \/
  (exists s' e, dec s = (s', Err e) /\ e <> EOL).

(** An operation that neither panics nor reports the end of a list. *)
Definition quiet {A} (m : SM A) : Prop :=
  forall s, match m s with (_, Ok _) => True | (_, Err e) => e <> EOL | _ => False end.

(** A value with content [c], not necessarily the shortest form. *)
Definition loose (k : Kind) (c : bytes) : Prop :=
  match k with KByte => exists x, c = [x] /\ 0 <= x < 128 | _ => zlen c < 2 ^ 64 end.

(** [Raw] returns the value with its header, as it stood in the input. *)
Definition raw_value (bs : bytes) : Prop := exists k c, loose k c /\ bs = value_bytes k c.

(** The size [Kind] reports. *)
Definition csize (k : Kind) (c : bytes) : Z := match k with KByte => 0 | _ => zlen c end.

(** [Kind] has been called on a value with content [c], before which the stack was [st]. *)
Definition at_value (s : Stream) (k : Kind) (c r : bytes) (st : list listpos) : Prop :=
  s_kind s = Some k /\ s_size s = csize k c /\ s_kinderr s = None /\
  match k with
  | KByte => core s r (advance st 1) /\ c = [s_byteval s]
  | _ => core s (c ++ r) (advance st (zlen (value_bytes k c) - zlen c)) /\
         zlen (value_bytes k c) <= avail (zlen (value_bytes k c ++ r)) st
  end.

(** The encoding of an untyped value. *)
Fixpoint item_bytes (i : item) : bytes :=
  match i with
  | IStr b => rlp_string b
  | IList l => rlp_list (concat (map item_bytes l))
  end.

(** Values of a list, one after the other. *)
Definition seq_of {A} (P : bytes -> A -> Prop) (bs : bytes) (vs : list A) : Prop :=
  exists bss, Forall2 P bss vs /\ bs = concat bss.

(** The common shape of the list decoders: enter, read, leave. *)
Definition in_list {A} (lend : SM unit) (body : Z -> SM A) : SM A :=
  do size <- swrap s_List; do l <- body size; do _ <- lend; sret l.

(** [dec] looks at the kind first, so calling [Kind] before it changes nothing. *)
Definition kind_first {A} (dec : SM A) : Prop :=
  forall s s1 v, s_Kind s = (s1, Ok v) -> dec s1 = dec s.

(** * Stack lemmas *)

Lemma stack_ok_shift n k m st :
  0 <= m -> (match st with [] => m <= n | t :: _ => m <= lp_size t - lp_pos t - k end) ->
  stack_ok n k st -> stack_ok (n - m) (k + m) st.
Proof.
  destruct st as [|t st]; simpl; [done|]. intros Hm Ha (H1 & H2 & H3 & H4).
  repeat split; try lia. zexact H4.
Qed.

Lemma stack_ok_avail {A} (r : list A) st : stack_ok (zlen r) 0 st -> 0 <= avail (zlen r) st <= zlen r.
Proof. pose proof (zlen_nonneg r). destruct st as [|t st]; simpl; [lia|]. intros (H1 & H2 & H3 & H4). lia. Qed.

Lemma stack_ok_advance n m st :
  0 <= m <= avail n st -> stack_ok n 0 st -> stack_ok (n - m) 0 (advance st m).
Proof.
  destruct st as [|t st]; simpl; [done|]. intros Hm (H1 & H2 & H3 & H4).
  repeat split; try lia. zexact H4.
Qed.

Lemma avail_advance n m st : avail (n - m) (advance st m) = avail n st - m.
Proof. destruct st; simpl; lia. Qed.

Lemma advance_advance st a b : advance (advance st a) b = advance st (a + b).
Proof. destruct st; simpl; [done|]. by rewrite Z.add_assoc. Qed.

Lemma advance_0 st : advance st 0 = st.
Proof. destruct st as [|[p z] st]; simpl; [done|]. by rewrite Z.add_0_r. Qed.

(** * Reading *)

Lemma willRead_ok s r st n :
  core s r st -> 0 <= n <= avail (zlen r) st ->
  exists s', willRead n s = (s', Ok tt) /\
    s' = MkStream r (zlen r - n) true None (s_size s) (s_byteval s) (s_kinderr s) (advance st n).
Proof.
  intros [Hr Hl Hrem Hst Hlen Hok] Hn. pose proof (zlen_nonneg r).
  pose proof (stack_ok_avail _ _ Hok) as Ha.
  destruct s; simpl in *; subst. unfold willRead. cbn.
  destruct st as [|t st]; simpl in *.
  - rewrite Z.gtb_ltb, (proj2 (Z.ltb_ge _ _)), u64_small by (unfold is_u64; lia). by eexists.
  - destruct Hok as (H1 & H2 & H3 & H4).
    rewrite !u64_small by (unfold is_u64; lia).
    rewrite !Z.gtb_ltb, !(proj2 (Z.ltb_ge _ _)) by lia. by eexists.
Qed.

Lemma willRead_err s r st n :
  core s r st -> avail (zlen r) st < n -> exists s' e, willRead n s = (s', Err e).
Proof.
  intros [Hr Hl Hrem Hst Hlen Hok] Hn. destruct s; simpl in *; subst. unfold willRead. cbn.
  destruct st as [|t st]; simpl in *.
  - rewrite Z.gtb_ltb, (proj2 (Z.ltb_lt _ _)) by lia. eauto.
  - destruct Hok as (H1 & H2 & H3 & H4).
    rewrite (u64_small (_ - lp_pos t)) by (unfold is_u64; lia).
    rewrite Z.gtb_ltb, (proj2 (Z.ltb_lt _ _)) by lia. eauto.
Qed.

Lemma zlen_drop {A} (l : list A) n : 0 <= n <= zlen l -> zlen (drop (Z.to_nat n) l) = zlen l - n.
Proof. intros. unfold zlen in *. rewrite length_drop. lia. Qed.

Lemma zlen_take {A} (l : list A) n : 0 <= n <= zlen l -> zlen (take (Z.to_nat n) l) = n.
Proof. intros. unfold zlen in *. rewrite length_take. lia. Qed.

Lemma readFull_ok s r st n :
  core s r st -> 0 <= n <= avail (zlen r) st ->
  exists s', readFull n s = (s', Ok (take (Z.to_nat n) r)) /\
    ready s' (drop (Z.to_nat n) r) (advance st n).
Proof.
  intros Hc Hn. pose proof (zlen_nonneg r).
  pose proof (stack_ok_avail _ _ (core_ok _ _ _ Hc)) as Ha.
  destruct (willRead_ok _ _ _ _ Hc Hn) as (s' & Hw & ->).
  unfold readFull, sbind. rewrite Hw. simpl. rewrite (proj2 (Z.leb_le _ _)) by lia.
  eexists. split; [done|]. split; [|done]. destruct Hc.
  constructor; simpl; rewrite ?zlen_drop by lia; try done; try lia.
  by apply stack_ok_advance.
Qed.

Lemma readFull_inv s r st n s' b :
  core s r st -> 0 <= n -> readFull n s = (s', Ok b) ->
  n <= avail (zlen r) st /\ b = take (Z.to_nat n) r /\ ready s' (drop (Z.to_nat n) r) (advance st n).
Proof.
  intros Hc Hn Hrf. destruct (Z.le_gt_cases n (avail (zlen r) st)).
  - destruct (readFull_ok s r st n Hc ltac:(lia)) as (s1 & Hrf' & ?).
    rewrite Hrf' in Hrf. by simplify_eq.
  - destruct (willRead_err _ _ _ n Hc ltac:(lia)) as (s1 & e & Hw).
    unfold readFull, sbind in Hrf. by rewrite Hw in Hrf.
Qed.

Lemma readByte_ok s b r st :
  core s (b :: r) st -> 1 <= avail (zlen (b :: r)) st ->
  exists s', readByte s = (s', Ok b) /\ ready s' r (advance st 1) /\ s_kinderr s' = s_kinderr s.
Proof.
  intros Hc Hn. pose proof (zlen_nonneg r).
  destruct (willRead_ok _ _ _ 1 Hc ltac:(lia)) as (s' & Hw & ->).
  unfold readByte, sbind. rewrite Hw. simpl. eexists. split; [done|]. split; [|done].
  split; [|done]. destruct Hc. rewrite zlen_cons in *.
  constructor; simpl; try done; try lia.
  pose proof (stack_ok_advance (1 + zlen r) 1 st ltac:(lia) core_ok0) as Hs. zexact Hs.
Qed.

Lemma readByte_inv s r0 st s' b :
  core s r0 st -> readByte s = (s', Ok b) -> exists r, r0 = b :: r /\ 1 <= avail (zlen r0) st.
Proof.
  intros Hc Hrb. destruct (Z.le_gt_cases 1 (avail (zlen r0) st)) as [Hle|].
  - destruct (willRead_ok _ _ _ 1 Hc ltac:(lia)) as (s1 & Hw & ->).
    unfold readByte, sbind in Hrb. rewrite Hw in Hrb. simpl in Hrb.
    destruct r0; simplify_eq. eauto.
  - destruct (willRead_err _ _ _ 1 Hc ltac:(lia)) as (s1 & e & Hw).
    unfold readByte, sbind in Hrb. by rewrite Hw in Hrb.
Qed.

(** Reading an integer of [n] bytes without leading zero. *)
Lemma readUint_ok s v r st :
  core s (big_bytes v ++ r) st -> 0 < v < 2 ^ 64 ->
  zlen (big_bytes v) <= avail (zlen (big_bytes v ++ r)) st ->
  exists s', readUint (zlen (big_bytes v)) s = (s', Ok v) /\ ready s' r (advance st (zlen (big_bytes v))).
Proof.
  intros Hc Hv Ha. pose proof (big_bytes_bound v ltac:(lia)).
  destruct (big_bytes_hd v ltac:(lia)) as (x & b & Hb & Hx).
  pose proof (be_val_big_bytes v ltac:(lia)) as Hval.
  assert (1 <= zlen (big_bytes v)) by (rewrite Hb, zlen_cons; pose proof (zlen_nonneg b); lia).
  unfold readUint. rewrite (proj2 (Z.eqb_neq _ 0)) by lia.
  destruct (Z.eqb_spec (zlen (big_bytes v)) 1) as [E1|].
  - rewrite Hb in *. destruct b; [|rewrite !zlen_cons in E1; pose proof (zlen_nonneg b); lia].
    rewrite E1 in *. destruct (readByte_ok _ _ _ _ Hc Ha) as (s' & -> & Hr & _).
    exists s'. split; [|done]. rewrite <- Hval. unfold be_val. simpl. done.
  - rewrite Z.gtb_ltb, (proj2 (Z.ltb_ge _ _)) by lia.
    destruct (readFull_ok _ _ _ (zlen (big_bytes v)) Hc ltac:(lia)) as (s' & Hrf & Hr).
    unfold zlen in Hrf, Hr. rewrite Nat2Z.id in *. rewrite take_app_length, drop_app_length in *.
    exists s'. unfold sbind, zlen. rewrite Hrf. split; [|done]. rewrite Hval.
    rewrite Hb. destruct x; [done|done|done].
Qed.

Lemma readUint_inv s r0 st n s' v :
  core s r0 st -> bytes_ok r0 -> 1 <= n <= 8 -> readUint n s = (s', Ok v) ->
  0 <= v < 2 ^ 64 /\ (128 <= v \/ 56 <= v \/ 1 < n -> 0 < v /\ zlen (big_bytes v) = n /\ exists r, r0 = big_bytes v ++ r /\
    n <= avail (zlen r0) st /\ ready s' r (advance st n)).
Proof.
  intros Hc Hok Hn. unfold readUint. rewrite (proj2 (Z.eqb_neq _ 0)) by lia.
  destruct (Z.eqb_spec n 1) as [->|].
  - intros Hrb. destruct (readByte_inv _ _ _ _ _ Hc Hrb) as (r & -> & Ha).
    destruct (readByte_ok _ _ _ _ Hc Ha) as (s1 & Hrb' & Hr & _). rewrite Hrb' in Hrb. simplify_eq.
    apply bytes_ok_cons in Hok as [Hv _]. split; [lia|]. intros Hvv.
    assert (big_bytes v = [v]) as ->.
    { rewrite <- (big_bytes_be_val v []); [unfold be_val; simpl; done|apply bytes_ok_cons; split; [done|constructor]|lia]. }
    split; [lia|]. split; [done|]. eauto.
  - rewrite Z.gtb_ltb, (proj2 (Z.ltb_ge _ _)) by lia. unfold sbind.
    destruct (readFull n s) as [s1 [buf|e| |]] eqn:Hrf; try done.
    apply (readFull_inv s r0 st n _ _ Hc ltac:(lia)) in Hrf as (Ha & -> & Hr).
    pose proof (zlen_nonneg r0). pose proof (stack_ok_avail _ _ (core_ok _ _ _ Hc)) as Ha'.
    assert (zlen (take (Z.to_nat n) r0) = n) as Hl by (apply zlen_take; lia).
    assert (bytes_ok (take (Z.to_nat n) r0)) as Hok' by (by apply Forall_take).
    pose proof (be_val_bound _ Hok') as Hb. rewrite Hl in Hb.
    assert (256 ^ n <= 256 ^ 8) by (apply Z.pow_le_mono_r; lia).
    assert (r0 = take (Z.to_nat n) r0 ++ drop (Z.to_nat n) r0) as Hr0 by (by rewrite take_drop).
    destruct (take (Z.to_nat n) r0) as [|x b] eqn:Ht; [rewrite zlen_nil in Hl; lia|].
    assert (x = 0 \/ x <> 0) as [->|Hx] by lia; [done|].
    intros Hret. assert (s1 = s' /\ be_val (x :: b) = v) as [<- <-] by (unfold sret in Hret; destruct x; [done|..]; by simplify_eq).
    split; [lia|]. intros _. rewrite big_bytes_be_val by done.
    split; [|split; [done|eauto]].
    rewrite be_val_cons. apply bytes_ok_cons in Hok' as [Hx' Hb'].
    pose proof (be_val_bound _ Hb'). assert (0 < 256 ^ zlen b) by (apply Z.pow_pos_nonneg; [lia|apply zlen_nonneg]).
    nia.
Qed.

(** * Headers *)

Lemma core_eq s s' r st :
  core s r st -> s_r s' = s_r s -> s_limited s' = s_limited s -> s_remaining s' = s_remaining s ->
  s_stack s' = s_stack s -> core s' r st.
Proof. intros [] **. constructor; congruence. Qed.

Ltac tags := repeat match goal with
  | |- context [?a <? ?b] =>
      first [ rewrite (proj2 (Z.ltb_lt a b)) by lia | rewrite (proj2 (Z.ltb_ge a b)) by lia ]
  end.

Lemma s_readKind_intro s k size bv r st :
  core s (head_of k size bv ++ r) st -> head_ok k size bv ->
  zlen (head_of k size bv) <= avail (zlen (head_of k size bv ++ r)) st ->
  exists s', s_readKind s = (s', Ok (k, size, None)) /\
    ready s' r (advance st (zlen (head_of k size bv))) /\ (k = KByte -> s_byteval s' = bv).
Proof.
  intros Hc [Hsz Hbv] Ha. destruct (decide (k = KByte)) as [->|Hk].
  { destruct (Hbv eq_refl) as [? ->]. simpl in *.
    destruct (readByte_ok _ _ _ _ Hc Ha) as (s1 & Hrb & [Hr1 Hk1] & _).
    unfold s_readKind. rewrite Hrb. tags. eexists. split; [done|]. split; [|done].
    split; [by eapply core_eq|done]. }
  assert (head_of k size bv = rlp_head (small_tag k) (large_tag k) size) as Hh by (by destruct k).
  rewrite Hh in *. destruct (Z.lt_ge_cases size 56).
  - rewrite rlp_head_short in * by done. simpl app in *.
    destruct (readByte_ok _ _ _ _ Hc Ha) as (s1 & Hrb & [Hr1 Hk1] & _).
    unfold s_readKind. rewrite Hrb. destruct k; [done| |]; simpl small_tag; tags;
      rewrite u8_small by (unfold is_byte; lia); eexists; (split; [do 4 f_equal; lia|]);
      (split; [|done]); (split; [by eapply core_eq|done]).
  - rewrite rlp_head_long in * by done. simpl app in *. rewrite zlen_cons in Ha.
    pose proof (big_bytes_bound size Hsz).
    destruct (big_bytes_hd size ltac:(lia)) as (x & b & Hb & _).
    assert (1 <= zlen (big_bytes size)) by (rewrite Hb, zlen_cons; pose proof (zlen_nonneg b); lia).
    destruct (readByte_ok _ _ _ _ Hc ltac:(lia)) as (s1 & Hrb & [Hr1 Hk1] & _).
    destruct (readUint_ok (set_byteval s1 0) size r (advance st 1)) as (s2 & Hru & Hr2);
      [by eapply core_eq|lia| |].
    { rewrite zlen_cons in Ha. pose proof (avail_advance (1 + zlen (big_bytes size ++ r)) 1 st) as Hav.
      replace (1 + zlen (big_bytes size ++ r) - 1) with (zlen (big_bytes size ++ r)) in Hav by lia. lia. }
    rewrite zlen_cons, <- advance_advance. exists s2. split; [|by destruct k].
    unfold s_readKind. rewrite Hrb. destruct k; [done| |]; simpl large_tag; tags;
      rewrite u8_small by (unfold is_byte; lia);
      match goal with |- readLong _ (?a + ?m - ?a) _ = _ => replace (a + m - a) with m by lia end;
      unfold readLong; rewrite Hru; tags; done.
Qed.

Lemma s_readKind_inv s r0 st s' k size :
  core s r0 st -> bytes_ok r0 -> s_readKind s = (s', Ok (k, size, None)) ->
  exists bv r, r0 = head_of k size bv ++ r /\ head_ok k size bv /\
    zlen (head_of k size bv) <= avail (zlen r0) st.
Proof.
  intros Hc Hok. unfold s_readKind. destruct (readByte s) as [s1 [b|e| |]] eqn:Hrb; try done.
  destruct (readByte_inv _ _ _ _ _ Hc Hrb) as (rest & -> & Ha).
  destruct (readByte_ok _ _ _ _ Hc Ha) as (s1' & Hrb' & [Hr1 Hk1] & _).
  rewrite Hrb' in Hrb. assert (s1' = s1) as -> by congruence. clear Hrb'.
  apply bytes_ok_cons in Hok as [Hb Hok].
  assert (forall kk m, kk <> KByte -> b = large_tag kk + m -> 1 <= m <= 8 ->
    readLong kk m (set_byteval s1 0) = (s', Ok (k, size, None)) ->
    exists bv r, b :: rest = head_of k size bv ++ r /\ head_ok k size bv /\
      zlen (head_of k size bv) <= avail (zlen (b :: rest)) st) as Hlong.
  { intros kk m Hkk Hbm Hm. unfold readLong.
    destruct (readUint m (set_byteval s1 0)) as [s2 [v|e'| |]] eqn:Hru; try done.
    destruct (Z.ltb_spec v 56); [done|]. intros [= <- <- <-].
    apply (readUint_inv _ rest (advance st 1)) in Hru as [Hv Hru]; [|by eapply core_eq|done|lia].
    destruct Hru as (_ & Hlen & r & -> & Ha2 & _); [lia|].
    exists 0, r. assert (head_of kk v 0 = b :: big_bytes v) as ->.
    { rewrite Hbm, <- Hlen. destruct kk; [done|..]; simpl; by rewrite rlp_head_long by lia. }
    split; [done|]. split; [split; [lia|done]|].
    rewrite !zlen_cons in *. pose proof (avail_advance (1 + zlen (big_bytes v ++ r)) 1 st) as Hav.
    replace (1 + zlen (big_bytes v ++ r) - 1) with (zlen (big_bytes v ++ r)) in Hav by lia. lia. }
  assert (forall kk n, kk <> KByte -> b = small_tag kk + n -> 0 <= n < 56 -> kk = k -> n = size ->
    exists bv r, b :: rest = head_of k size bv ++ r /\ head_ok k size bv /\
      zlen (head_of k size bv) <= avail (zlen (b :: rest)) st) as Hshort.
  { intros kk n Hkk Hbn Hn <- <-. exists 0, rest.
    assert (head_of kk n 0 = [b]) as ->.
    { rewrite Hbn. destruct kk; [done|..]; simpl; by rewrite rlp_head_short by lia. }
    split; [done|]. split; [split; [lia|done]|]. done. }
  destruct (tag_classify b Hb) as [Hlt|k' n Hk' Hbn Hn|k' m Hk' Hbm Hm].
  - tags. intros [= <- <- <-]. exists b, rest. repeat split; simpl; try done; lia.
  - pose proof (Hshort k' n Hk' Hbn Hn) as Hs. destruct k'; [done| |]; simpl in Hbn; subst b; tags;
      rewrite u8_small by (unfold is_byte; lia); intros [= <- <- <-]; apply Hs; try done; lia.
  - pose proof (Hlong k' m Hk' Hbm Hm) as Hl. destruct k'; [done| |]; simpl in Hbm; subst b; tags;
      rewrite u8_small by (unfold is_byte; lia); intros Hrl; apply Hl;
      match goal with H : readLong _ (?a + ?mm - ?a) _ = _ |- _ => replace (a + mm - a) with mm in H by lia end; done.
Qed.

Lemma s_Kind_peeked s k size bv r st : peeked s k size bv r st -> s_Kind s = (s, Ok (k, size)).
Proof. intros (Hc & Hk & Hs & He & _). unfold s_Kind, cachedKind. by rewrite Hk, He, Hs. Qed.

Lemma s_Kind_stops : stops s_Kind.
Proof.
  intros s r [|t st] [Hc Hk] Hp; [done|]. unfold s_Kind. rewrite Hk. simpl. rewrite (core_stack _ _ _ Hc). simpl.
  rewrite (proj2 (Z.eqb_eq _ _)) by done. eexists. split; [done|]. split; [by eapply core_eq|done].
Qed.

Lemma head_of_pos k size bv : head_ok k size bv -> 1 <= zlen (head_of k size bv).
Proof.
  intros [Hs _]. destruct k; simpl; [done|..]; unfold rlp_head; case_match; rewrite ?zlen_cons;
    pose proof (zlen_nonneg (big_bytes size)); rewrite ?zlen_nil; lia.
Qed.

(** At a value whose header fits, [Kind] goes on to [readKind] and its size check. *)
Lemma s_Kind_ready s r st :
  ready s r st -> 1 <= avail (zlen r) st ->
  s_Kind s =
    match s_readKind (set_kinderr s None) with
    | (s1, Ok (k, size, err)) =>
        let err := match err with Some e => Some e | None => sizeCheck s1 size end in
        let s2 := set_kinderr (set_size (set_kind s1 (Some k)) size) err in
        (s2, match err with Some e => Err e | None => Ok (k, size) end)
    | (s1, Err e) => (s1, Err e)
    | (s1, Panic) => (s1, Panic)
    | (s1, NoFuel) => (s1, NoFuel)
    end.
Proof.
  intros [Hc Hk] Ha. unfold s_Kind. rewrite Hk.
  assert (match head (s_stack (set_kinderr s None)) with
          | Some t => lp_pos t =? lp_size t | None => false end = false) as ->.
  { simpl. rewrite (core_stack _ _ _ Hc). destruct st; simpl in *; [done|]. apply Z.eqb_neq. lia. }
  destruct (s_readKind (set_kinderr s None)) as [s1 [[[k size] err]|e| |]]; try done.
  unfold cachedKind. destruct err; [done|].
  change (sizeCheck (set_size (set_kind s1 (Some k)) size) size) with (sizeCheck s1 size).
  simpl. by destruct (sizeCheck s1 size).
Qed.

Lemma sizeCheck_spec s r st size :
  core s r st -> 0 <= size -> sizeCheck s size = None <-> size <= avail (zlen r) st.
Proof.
  intros [Hr Hl Hrem Hst Hlen Hok] Hs. unfold sizeCheck. rewrite Hst. destruct st as [|t st]; simpl.
  - rewrite Hl, Hrem, Z.gtb_ltb. simpl. destruct (Z.ltb_spec (zlen r) size); split; done || lia.
  - simpl in Hok. destruct Hok as (H1 & H2 & _). rewrite u64_small by (unfold is_u64; lia).
    rewrite Z.gtb_ltb. destruct (Z.ltb_spec (lp_size t - lp_pos t) size); split; done || lia.
Qed.

Lemma avail_app (h r : bytes) st : avail (zlen r) (advance st (zlen h)) = avail (zlen (h ++ r)) st - zlen h.
Proof. rewrite <- avail_advance, zlen_app. f_equal. lia. Qed.

Lemma s_Kind_intro s k size bv r st :
  ready s (head_of k size bv ++ r) st -> head_ok k size bv ->
  zlen (head_of k size bv) + size <= avail (zlen (head_of k size bv ++ r)) st ->
  exists s', s_Kind s = (s', Ok (k, size)) /\
    peeked s' k size bv r (advance st (zlen (head_of k size bv))).
Proof.
  intros Hrd Hh Ha. pose proof (head_of_pos _ _ _ Hh). pose proof Hh as [Hsz _].
  rewrite (s_Kind_ready _ _ _ Hrd ltac:(lia)).
  destruct (s_readKind_intro (set_kinderr s None) k size bv r st) as (s1 & -> & [Hc1 Hk1] & Hbv);
    [destruct Hrd; by eapply core_eq|done|lia|].
  assert (sizeCheck s1 size = None) as ->.
  { eapply sizeCheck_spec; [done|lia|]. rewrite avail_app. lia. }
  eexists. split; [done|]. split; [by eapply core_eq|]. repeat split; try done; [lia|].
  rewrite avail_app. lia.
Qed.

(** A successful [Kind] had at least one byte available. *)
Lemma s_Kind_avail s r st s' v : ready s r st -> s_Kind s = (s', Ok v) -> 1 <= avail (zlen r) st.
Proof.
  intros Hrd HK. pose proof (stack_ok_avail _ _ (core_ok _ _ _ (proj1 Hrd))) as Hav.
  destruct (Z.le_gt_cases 1 (avail (zlen r) st)); [done|]. exfalso.
  destruct st as [|t st]; simpl in *.
  - destruct (willRead_err (set_kinderr s None) r [] 1) as (s1 & e & Hw);
      [destruct Hrd; by eapply core_eq|simpl; lia|].
    destruct Hrd as [Hc Hk]. unfold s_Kind in HK. rewrite Hk in HK. simpl in HK.
    rewrite (core_stack _ _ _ Hc) in HK. simpl in HK.
    unfold s_readKind, readByte, sbind in HK. rewrite Hw in HK. simpl in HK.
    unfold cachedKind in HK. by simpl in HK.
  - destruct (s_Kind_stops s r (t :: st) Hrd ltac:(simpl; lia)) as (s1 & HK' & _). congruence.
Qed.

Lemma s_Kind_inv s r0 st s' k size :
  ready s r0 st -> bytes_ok r0 -> s_Kind s = (s', Ok (k, size)) ->
  exists bv r, r0 = head_of k size bv ++ r /\ head_ok k size bv /\
    zlen (head_of k size bv) + size <= avail (zlen r0) st /\
    peeked s' k size bv r (advance st (zlen (head_of k size bv))).
Proof.
  intros Hrd Hok HK. pose proof (s_Kind_avail _ _ _ _ _ Hrd HK) as Ha1. pose proof HK as HK0.
  rewrite (s_Kind_ready _ _ _ Hrd Ha1) in HK.
  destruct (s_readKind (set_kinderr s None)) as [s1 [[[k1 size1] err]|e| |]] eqn:Hrk; try done.
  destruct err as [|]; [done|]. destruct (sizeCheck s1 size1) eqn:Hsc; [done|].
  assert (k1 = k /\ size1 = size) as [-> ->] by (by simplify_eq/=).
  assert (core (set_kinderr s None) r0 st) as Hc0 by (destruct Hrd; by eapply core_eq).
  destruct (s_readKind_inv _ r0 st _ _ _ Hc0 Hok Hrk) as (bv & r & -> & Hh & Hl).
  exists bv, r. split; [done|]. split; [done|].
  destruct (s_readKind_intro _ _ _ _ _ _ Hc0 Hh Hl) as (s1' & Hrk' & [Hc1 _] & _).
  assert (s1' = s1) as -> by congruence.
  apply (sizeCheck_spec _ _ _ _ Hc1) in Hsc; [|destruct Hh; lia]. rewrite avail_app in Hsc.
  assert (zlen (head_of k size bv) + size <= avail (zlen (head_of k size bv ++ r)) st) as Hle by lia.
  split; [done|]. destruct (s_Kind_intro s k size bv r st Hrd Hh Hle) as (s2 & HK2 & Hp).
  rewrite HK2 in HK0. by simplify_eq.
Qed.

(** * Values *)

Lemma value_head k c bv : k <> KByte -> value_bytes k c = head_of k (zlen c) bv ++ c.
Proof. by destruct k. Qed.

Lemma s_Kind_value s k c r st :
  ready s (value_bytes k c ++ r) st -> loose k c ->
  zlen (value_bytes k c) <= avail (zlen (value_bytes k c ++ r)) st ->
  exists s', s_Kind s = (s', Ok (k, csize k c)) /\ at_value s' k c r st.
Proof.
  intros Hrd Hl Ha. pose proof (zlen_nonneg c). destruct (decide (k = KByte)) as [->|Hk].
  { destruct Hl as (x & -> & Hx). simpl in *.
    destruct (s_Kind_intro s KByte 0 x r st Hrd) as (s' & HK & Hp); [split; [lia|done]|simpl; lia|].
    exists s'. split; [done|]. destruct Hp as (Hc & ? & ? & ? & Hb & _).
    repeat split; try done; try apply Hc. by rewrite Hb. }
  assert (zlen c < 2 ^ 64) as Hc64 by (by destruct k).
  rewrite (value_head _ _ 0 Hk), <- app_assoc in *.
  destruct (s_Kind_intro s k (zlen c) 0 (c ++ r) st Hrd) as (s' & HK & Hp);
    [split; [lia|done]|rewrite zlen_app in Ha; lia|].
  destruct Hp as (Hc & Hk' & Hs & He & _). exists s'.
  assert (csize k c = zlen c) as Hcs by (by destruct k). rewrite Hcs. split; [done|].
  split; [done|]. rewrite Hcs. split; [done|]. split; [done|].
  rewrite (value_head _ _ 0 Hk), zlen_app, <- app_assoc in *.
  replace (zlen (head_of k (zlen c) 0) + zlen c - zlen c) with (zlen (head_of k (zlen c) 0)) by lia.
  by destruct k.
Qed.

Lemma s_Kind_value_inv s r0 st s' k size :
  ready s r0 st -> bytes_ok r0 -> s_Kind s = (s', Ok (k, size)) ->
  exists c r, r0 = value_bytes k c ++ r /\ loose k c /\ size = csize k c /\
    zlen (value_bytes k c) <= avail (zlen r0) st /\ at_value s' k c r st.
Proof.
  intros Hrd Hok HK.
  destruct (s_Kind_inv _ _ _ _ _ _ Hrd Hok HK) as (bv & r & -> & [Hsz Hbv] & Ha & _).
  pose proof (stack_ok_avail _ _ (core_ok _ _ _ (proj1 Hrd))) as Hav.
  assert (exists c r', head_of k size bv ++ r = value_bytes k c ++ r' /\ loose k c /\ size = csize k c /\
    zlen (value_bytes k c) = zlen (head_of k size bv) + size) as (c & r' & Heq & Hl & -> & Hlen).
  { destruct (decide (k = KByte)) as [->|Hk].
    - destruct (Hbv eq_refl) as [? ->]. exists [bv], r. simpl. repeat split; eauto.
    - rewrite zlen_app in Hav, Ha.
      assert (zlen (take (Z.to_nat size) r) = size) as Hlt by (apply zlen_take; lia).
      exists (take (Z.to_nat size) r), (drop (Z.to_nat size) r).
      rewrite (value_head _ _ bv Hk), Hlt, zlen_app, Hlt, <- app_assoc, take_drop.
      split; [done|]. split; [destruct k; simpl; try done; lia|]. split; [by destruct k|done]. }
  rewrite Heq in *. exists c, r'. split; [done|]. split; [done|]. split; [done|].
  assert (zlen (value_bytes k c) <= avail (zlen (value_bytes k c ++ r')) st) as Hle by lia.
  split; [done|]. destruct (s_Kind_value s k c r' st Hrd Hl Hle) as (s2 & HK2 & ?).
  rewrite HK2 in HK. by simplify_eq.
Qed.

(** * Totality of the readers *)

Lemma willRead_quiet n : quiet (willRead n).
Proof. intros s. unfold willRead. repeat (case_match; simplify_eq/=); done. Qed.

Lemma quiet_bind {A B} (m : SM A) (k : A -> SM B) : quiet m -> (forall a, quiet (k a)) -> quiet (sbind m k).
Proof.
  intros Hm Hk s. unfold sbind. specialize (Hm s). destruct (m s) as [s' [a|e| |]]; try done. apply Hk.
Qed.

Lemma readFull_quiet n : quiet (readFull n).
Proof. apply quiet_bind; [apply willRead_quiet|]. intros _ s. by destruct (n <=? zlen (s_r s)). Qed.

Lemma readByte_quiet : quiet readByte.
Proof. apply quiet_bind; [apply willRead_quiet|]. intros _ s. by destruct (s_r s). Qed.

Lemma readUint_quiet n : n <= 8 -> quiet (readUint n).
Proof.
  intros Hn. unfold readUint. destruct (n =? 0); [intros s; exact I|].
  destruct (n =? 1); [apply readByte_quiet|].
  rewrite Z.gtb_ltb, (proj2 (Z.ltb_ge _ _)) by lia. apply quiet_bind; [apply readFull_quiet|].
  intros b s. destruct b as [|[]]; done.
Qed.

Lemma readLong_total k n s :
  n <= 8 -> exists s' size err, readLong k n s = (s', Ok (k, size, err)) /\ err <> Some EOL.
Proof.
  intros Hn. unfold readLong. pose proof (readUint_quiet n Hn s) as Hq.
  destruct (readUint n s) as [s' [v|e| |]]; try done; [case_match|]; eexists _, _, _; (split; [done|congruence]).
Qed.

Lemma s_readKind_total s r st :
  core s r st -> bytes_ok r ->
  exists s' k size err, s_readKind s = (s', Ok (k, size, err)) /\ err <> Some EOL.
Proof.
  intros Hc Hok. unfold s_readKind. pose proof (readByte_quiet s) as Hq.
  destruct (readByte s) as [s' [b|e| |]] eqn:Hrb; try done.
  - destruct (readByte_inv _ _ _ _ _ Hc Hrb) as (r' & -> & _). apply bytes_ok_cons in Hok as [Hb _].
    destruct (Z.ltb_spec b 0x80); [eexists _, _, _, _; done|].
    destruct (Z.ltb_spec b 0xB8); [eexists _, _, _, _; done|].
    destruct (Z.ltb_spec b 0xC0).
    { edestruct (readLong_total KString (u8 (b - 0xB7))) as (? & ? & ? & -> & ?);
        [rewrite u8_small by (unfold is_byte; lia); lia|]. eauto 6. }
    destruct (Z.ltb_spec b 0xF8); [eexists _, _, _, _; done|].
    edestruct (readLong_total KList (u8 (b - 0xF7))) as (? & ? & ? & -> & ?);
        [rewrite u8_small by (unfold is_byte; lia); lia|]. eauto 6.
  - eexists _, _, _, _. split; [done|]. destruct (s_stack s'), e; congruence.
Qed.

Lemma sizeCheck_not_eol s size : sizeCheck s size <> Some EOL.
Proof. unfold sizeCheck. by repeat case_match. Qed.

Lemma s_Kind_total s r st :
  ready s r st -> bytes_ok r ->
  (exists s' v, s_Kind s = (s', Ok v)) \/
  (exists s', s_Kind s = (s', Err EOL) /\ at_end st /\ ready s' r st) \/
  (exists s' e, s_Kind s = (s', Err e) /\ e <> EOL).
Proof.
  intros Hrd Hok. pose proof Hrd as [Hc Hk]. unfold s_Kind. rewrite Hk. simpl.
  rewrite (core_stack _ _ _ Hc).
  assert (forall st', (match head st' with Some t => lp_pos t =? lp_size t | None => false end = true <-> at_end st')) as He.
  { intros [|t ?]; simpl; [done|]. apply Z.eqb_eq. }
  destruct (match head st with Some t => lp_pos t =? lp_size t | None => false end) eqn:E.
  - right. left. eexists. split; [done|]. split; [by apply He|]. split; [by eapply core_eq|done].
  - destruct (s_readKind_total (set_kinderr s None) r st) as (s1 & k & size & err & -> & Herr);
      [by eapply core_eq|done|].
    unfold cachedKind. destruct err as [e|]; simpl.
    + right. right. eexists _, e. split; [done|]. congruence.
    + set (s2 := set_size _ _). pose proof (sizeCheck_not_eol s2 size) as Hne.
      destruct (sizeCheck s2 size) as [e|]; [right; right; eexists _, e|left; eauto].
      split; [done|]. congruence.
Qed.

(** A decoder that starts with [Kind], by the kind of the value ahead. *)
Lemma sound_kind {A} n (k : Kind * Z -> SM A) P :
  (forall s kd c r st, at_value s kd c r st -> loose kd c -> bytes_ok (c ++ r) ->
     zlen (value_bytes kd c) <= avail (zlen (value_bytes kd c ++ r)) st < n ->
     (exists s' v, k (kd, csize kd c) s = (s', Ok v) /\ P (value_bytes kd c) v /\
        ready s' r (advance st (zlen (value_bytes kd c)))) \/
     (exists s' e, k (kd, csize kd c) s = (s', Err e) /\ e <> EOL)) ->
  sound n (sbind s_Kind k) P.
Proof.
  intros Hk s r0 st Hrd Hok Hn. unfold sbind.
  destruct (s_Kind_total s r0 st Hrd Hok) as [(s1 & [kd size] & HK)|[(s1 & HK & ?)|(s1 & e & HK & ?)]]; rewrite HK.
  - destruct (s_Kind_value_inv _ _ _ _ _ _ Hrd Hok HK) as (c & r & -> & Hl & -> & Ha & Hv).
    destruct (Hk s1 kd c r st Hv Hl) as [(s' & v & ? & ? & ?)|(s' & e & ? & ?)]; [|lia|..].
    + apply bytes_ok_app in Hok as [Hok ?]. apply bytes_ok_app. split; [|done].
      destruct kd; simpl in Hok; [done|..]; by apply bytes_ok_app in Hok as [_ ?].
    + left. eexists s', v, (value_bytes kd c), r. done.
    + right. right. eauto.
  - right. left. eauto.
  - right. right. eauto.
Qed.

Lemma decodes_kind {A} (k : Kind * Z -> SM A) kd c v :
  loose kd c ->
  (forall s r st, at_value s kd c r st ->
     zlen (value_bytes kd c) <= avail (zlen (value_bytes kd c ++ r)) st ->
     exists s', k (kd, csize kd c) s = (s', Ok v) /\ ready s' r (advance st (zlen (value_bytes kd c)))) ->
  decodes (sbind s_Kind k) (value_bytes kd c) v.
Proof.
  intros Hl Hk s r st Hrd Ha. unfold sbind.
  destruct (s_Kind_value s kd c r st Hrd Hl Ha) as (s1 & -> & Hv). by apply Hk.
Qed.

Lemma stops_bind {A B} (m : SM A) (k : A -> SM B) : stops m -> stops (sbind m k).
Proof.
  intros Hm s r st Hrd He. unfold sbind. destruct (Hm s r st Hrd He) as (s' & -> & ?). eauto.
Qed.

(** * Strings and integers *)

Lemma at_value_read s k c r st :
  at_value s k c r st -> k <> KByte ->
  exists s', readFull (zlen c) s = (s', Ok c) /\ ready s' r (advance st (zlen (value_bytes k c))).
Proof.
  intros (_ & _ & _ & Hv) Hk. pose proof (zlen_nonneg c). pose proof (zlen_nonneg r).
  assert (core s (c ++ r) (advance st (zlen (value_bytes k c) - zlen c)) /\
    zlen (value_bytes k c) <= avail (zlen (value_bytes k c ++ r)) st) as [Hc Ha] by (by destruct k).
  assert (zlen c <= avail (zlen (c ++ r)) (advance st (zlen (value_bytes k c) - zlen c))) as Ha'.
  { assert (zlen (c ++ r) = zlen (value_bytes k c ++ r) - (zlen (value_bytes k c) - zlen c)) as ->
      by (rewrite !zlen_app; lia). rewrite avail_advance. lia. }
  destruct (readFull_ok _ _ _ (zlen c) Hc ltac:(lia)) as (s' & Hrf & Hr).
  unfold zlen in Hrf, Hr. rewrite Nat2Z.id in *. rewrite take_app_length, drop_app_length in *.
  exists s'. unfold zlen at 1. rewrite Hrf. split; [done|]. rewrite advance_advance in Hr.
  unfold zlen. by replace (Z.of_nat (length (value_bytes k c)) - Z.of_nat (length c) + Z.of_nat (length c))
    with (Z.of_nat (length (value_bytes k c))) in Hr by lia.
Qed.

Lemma at_value_byte s c r st :
  at_value s KByte c r st -> ready (set_kind s None) r (advance st (zlen c)) /\ c = [s_byteval s].
Proof.
  intros (_ & _ & _ & Hc & ->). split; [|done]. split; [by eapply core_eq|done].
Qed.

Lemma rlp_string_canonical k c : canonical k c -> k <> KList -> rlp_string c = value_bytes k c.
Proof.
  destruct k; try done.
  - intros (x & -> & Hx) _. simpl. by rewrite (proj2 (Z.leb_le _ _)) by lia.
  - intros [_ Hc] _. simpl. unfold rlp_string. destruct c as [|x [|]]; try done.
    destruct (Z.leb_spec x 0x7F); [|done]. exfalso. apply Hc. exists x. split; [done|lia].
Qed.

Lemma string_canonical c :
  zlen c < 2 ^ 64 -> canonical KString c \/ canonical KByte c.
Proof.
  intros Hc. destruct c as [|x [|y c]].
  - left. split; [done|]. by intros (? & ? & _).
  - destruct (Z.lt_ge_cases x 128); [right; by exists x|left]. split; [done|].
    intros (? & [= <-] & ?). lia.
  - left. split; [done|]. by intros (? & ? & _).
Qed.

Lemma canonical_loose k c : bytes_ok c -> canonical k c -> loose k c.
Proof.
  destruct k; simpl; try tauto. intros Hok (x & -> & Hx). apply bytes_ok_cons in Hok. exists x. split; [done|lia].
Qed.

Lemma rlp_string_value c :
  bytes_ok c -> zlen c < 2 ^ 64 ->
  exists k, rlp_string c = value_bytes k c /\ k <> KList /\ canonical k c /\ loose k c.
Proof.
  intros Hok Hc. destruct (string_canonical c Hc) as [H|H]; eexists;
    (split; [by eapply rlp_string_canonical|]); (split; [done|]); eauto using canonical_loose.
Qed.

Lemma short_string_canonical c :
  zlen c < 2 ^ 64 -> ((zlen c =? 1) && (hd 0 c <? 128)) = false <-> canonical KString c.
Proof.
  intros Hc. simpl. destruct c as [|x [|y c]].
  - simpl. split; [|done]. intros _. split; [done|]. by intros (? & ? & _).
  - simpl. destruct (Z.ltb_spec x 128); split; try done.
    + intros [_ Hn]. exfalso. apply Hn. eauto.
    + intros _. split; [done|]. intros (? & [= <-] & ?). lia.
  - rewrite (proj2 (Z.eqb_neq _ _)); [|rewrite !zlen_cons; pose proof (zlen_nonneg c); lia].
    split; [|done]. intros _. split; [done|]. by intros (? & ? & _).
Qed.

Lemma s_Bytes_stops : stops s_Bytes.
Proof. apply stops_bind, s_Kind_stops. Qed.

Lemma s_Bytes_decodes c : bytes_ok c -> zlen c < 2 ^ 64 -> decodes s_Bytes (rlp_string c) c.
Proof.
  intros Hok Hc. destruct (rlp_string_value c Hok Hc) as (k & -> & Hk & Hcan & Hl).
  apply decodes_kind; [done|]. intros s r st Hv Ha. destruct k; [| |done].
  - destruct (at_value_byte _ _ _ _ Hv) as [Hr ->]. eexists. split; [done|]. done.
  - destruct (at_value_read _ _ _ _ _ Hv ltac:(done)) as (s' & Hrf & Hr). exists s'. split; [|done].
    simpl csize. unfold sbind. rewrite Hrf. by rewrite (proj2 (short_string_canonical c Hc)).
Qed.

Lemma s_Bytes_sound n : sound n s_Bytes (fun bs c => bs = rlp_string c /\ bytes_ok c).
Proof.
  apply sound_kind. intros s k c r st Hv Hl Hok Ha. apply bytes_ok_app in Hok as [Hok _]. destruct k.
  - left. destruct (at_value_byte _ _ _ _ Hv) as [Hr Hc]. destruct Hl as (x & -> & Hx). simplify_eq.
    eexists _, _. split; [done|]. split; [split; [|done]|done]. simpl. by rewrite (proj2 (Z.leb_le _ _)) by lia.
  - destruct (at_value_read _ _ _ _ _ Hv ltac:(done)) as (s' & Hrf & Hr).
    simpl csize. unfold sbind. rewrite Hrf.
    destruct ((zlen c =? 1) && (hd 0 c <? 128)) eqn:E; [right; by eexists _, _|].
    left. exists s', c. split; [done|]. split; [|done]. split; [|done].
    symmetry. apply rlp_string_canonical; [|done]. by apply short_string_canonical.
  - right. by eexists _, _.
Qed.

(** Combinators that only look at the result. *)
Lemma sound_mono {A} n m (dec : SM A) (P Q : bytes -> A -> Prop) :
  m <= n -> (forall bs v, P bs v -> Q bs v) -> sound n dec P -> sound m dec Q.
Proof.
  intros Hmn HPQ Hs s r0 st Hrd Hok Ha.
  destruct (Hs s r0 st Hrd Hok ltac:(lia)) as [(s' & v & bs & r & ? & ? & ? & ?)|?]; [left|by right].
  eexists s', v, bs, r. eauto 6.
Qed.

Lemma sound_pure {A B} n (m : SM A) (k : A -> SM B) P :
  sound n m P ->
  (forall bs a, P bs a -> (exists b, k a = sret b) \/ exists e, k a = sfail e /\ e <> EOL) ->
  sound n (sbind m k) (fun bs b => exists a, P bs a /\ k a = sret b).
Proof.
  intros Hm Hk s r0 st Hrd Hok Ha. unfold sbind.
  destruct (Hm s r0 st Hrd Hok Ha) as [(s' & a & bs & r & -> & ? & HP & ?)|[(s' & -> & ?)|(s' & e & -> & ?)]].
  - destruct (Hk bs a HP) as [[b Hb]|(e & He & ?)].
    + left. exists s', b, bs, r. rewrite Hb. split; [done|]. eauto 6.
    + right. right. exists s', e. by rewrite He.
  - right. left. eauto.
  - right. right. eauto.
Qed.

Lemma sound_smap {A B} n (m : SM A) (f : A -> B) P (Q : bytes -> B -> Prop) :
  sound n m P -> (forall bs a, P bs a -> Q bs (f a)) -> sound n (smap f m) Q.
Proof.
  intros Hm HQ s r0 st Hrd Hok Ha. unfold smap, sbind.
  destruct (Hm s r0 st Hrd Hok Ha) as [(s' & a & bs & r & -> & ? & HP & ?)|[(s' & -> & ?)|(s' & e & -> & ?)]].
  - left. eexists s', (f a), bs, r. split; [done|]. eauto 6.
  - right. left. eauto.
  - right. right. eauto.
Qed.

Lemma wrapStreamError_eol e : wrapStreamError e = EOL <-> e = EOL.
Proof. by destruct e. Qed.

Lemma sound_swrap {A} n (m : SM A) P : sound n m P -> sound n (swrap m) P.
Proof.
  intros Hm s r0 st Hrd Hok Ha. unfold swrap.
  destruct (Hm s r0 st Hrd Hok Ha) as [(s' & a & bs & r & -> & ?)|[(s' & -> & ?)|(s' & e & -> & ?)]].
  - left. eexists s', a, bs, r. eauto.
  - right. left. eauto.
  - right. right. eexists s', _. split; [done|]. by rewrite wrapStreamError_eol.
Qed.

Lemma decodes_bind {A B} (m : SM A) (k : A -> SM B) bs a b :
  decodes m bs a -> k a = sret b -> decodes (sbind m k) bs b.
Proof.
  intros Hm Hk s r st Hrd Ha. unfold sbind. destruct (Hm s r st Hrd Ha) as (s' & -> & ?).
  rewrite Hk. by exists s'.
Qed.

Lemma decodes_smap {A B} (m : SM A) (f : A -> B) bs a : decodes m bs a -> decodes (smap f m) bs (f a).
Proof. intros Hm. by eapply decodes_bind. Qed.

Lemma decodes_swrap {A} (m : SM A) bs a : decodes m bs a -> decodes (swrap m) bs a.
Proof.
  intros Hm s r st Hrd Ha. unfold swrap. destruct (Hm s r st Hrd Ha) as (s' & -> & ?). by exists s'.
Qed.

Lemma stops_swrap {A} (m : SM A) : stops m -> stops (swrap m).
Proof. intros Hm s r st Hrd He. unfold swrap. destruct (Hm s r st Hrd He) as (s' & -> & ?). by exists s'. Qed.

Lemma puthead_value k c :
  k <> KByte -> zlen c < 2 ^ 64 -> puthead (small_tag k) (large_tag k) (zlen c) ++ c = value_bytes k c.
Proof.
  intros Hk Hc. pose proof (zlen_nonneg c). rewrite value_bytes_head by done. f_equal. apply puthead_spec; destruct k; simpl; lia.
Qed.

Lemma s_Raw_stops : stops s_Raw.
Proof. apply stops_bind, s_Kind_stops. Qed.

Lemma s_Raw_decodes bs : raw_value bs -> decodes s_Raw bs bs.
Proof.
  intros (k & c & Hl & ->). apply decodes_kind; [done|]. intros s r st Hv Ha. destruct k.
  - destruct (at_value_byte _ _ _ _ Hv) as [Hr ->]. eexists. split; [done|]. done.
  - destruct (at_value_read _ _ _ _ _ Hv ltac:(done)) as (s' & Hrf & Hr). exists s'. split; [|done].
    simpl csize. unfold sbind. by rewrite Hrf, (puthead_value KString) by done.
  - destruct (at_value_read _ _ _ _ _ Hv ltac:(done)) as (s' & Hrf & Hr). exists s'. split; [|done].
    simpl csize. unfold sbind. by rewrite Hrf, (puthead_value KList) by done.
Qed.

Lemma s_Raw_sound n : sound n s_Raw (fun bs b => b = bs /\ raw_value bs).
Proof.
  apply sound_kind. intros s k c r st Hv Hl Hok Ha. left.
  assert (raw_value (value_bytes k c)) as Hraw by (by exists k, c). destruct k.
  - destruct (at_value_byte _ _ _ _ Hv) as [Hr ->]. by eexists _, _.
  - destruct (at_value_read _ _ _ _ _ Hv ltac:(done)) as (s' & Hrf & Hr). eexists s', _.
    simpl csize. unfold sbind. by rewrite Hrf, (puthead_value KString) by done.
  - destruct (at_value_read _ _ _ _ _ Hv ltac:(done)) as (s' & Hrf & Hr). eexists s', _.
    simpl csize. unfold sbind. by rewrite Hrf, (puthead_value KList) by done.
Qed.

Lemma big_bytes_single x : 0 < x < 256 -> big_bytes x = [x].
Proof.
  intros Hx. rewrite <- (big_bytes_be_val x []); [unfold be_val; simpl; done| |lia].
  apply bytes_ok_cons. split; [lia|constructor].
Qed.

(** The content of an integer at least 128 is not a single low byte. *)
Lemma big_bytes_canonical v : 128 <= v < 2 ^ 64 -> canonical KString (big_bytes v).
Proof.
  intros Hv. pose proof (big_bytes_bound v ltac:(lia)). split; [lia|]. intros (x & Hx & Hlt).
  pose proof (be_val_big_bytes v ltac:(lia)) as Hb. rewrite Hx in Hb. unfold be_val in Hb. simpl in Hb. lia.
Qed.

Lemma s_uint_stops bits : stops (s_uint bits).
Proof. apply stops_bind, s_Kind_stops. Qed.

Lemma byte_len_bits v m : 0 <= m -> 0 <= v < 2 ^ (8 * m) <-> 0 <= v /\ zlen (big_bytes v) <= m.
Proof.
  intros Hm. rewrite zlen_big_bytes, Z.pow_mul_r by lia. change (2 ^ 8) with 256.
  destruct (Z.le_gt_cases v 0) as [Hv|Hv].
  { split; [|lia]. intros. assert (v = 0) as -> by lia. change (byte_len 0) with 0%nat. lia. }
  destruct (byte_len_spec v Hv) as (Hp & Hlo & Hhi). split.
  - intros [_ Hlt]. split; [lia|]. destruct (Z.le_gt_cases (Z.of_nat (byte_len v)) m); [done|].
    assert (256 ^ m <= 256 ^ (Z.of_nat (byte_len v) - 1)) by (apply Z.pow_le_mono_r; lia). lia.
  - intros [_ Hle]. assert (256 ^ (Z.of_nat (byte_len v)) <= 256 ^ m) by (apply Z.pow_le_mono_r; lia). lia.
Qed.

Lemma s_uint_decodes bits v :
  0 <= bits <= 64 -> bits mod 8 = 0 -> 0 <= v < 2 ^ bits ->
  decodes (s_uint bits) (rlp_string (big_bytes v)) v.
Proof.
  intros Hb H8 Hv. assert (bits = 8 * (bits / 8)) as Hbits by (Z.to_euclidean_division_equations; lia).
  assert (2 ^ bits <= 2 ^ 64) by (apply Z.pow_le_mono_r; lia).
  pose proof Hv as Hm. rewrite Hbits in Hm. apply byte_len_bits in Hm as [_ Hm]; [|Z.to_euclidean_division_equations; lia].
  destruct (Z.eq_dec v 0) as [->|Hv0].
  { apply (decodes_kind _ KString []); [done|]. intros s r st Hv' Ha. change (csize KString []) with 0. cbv beta iota zeta.
    rewrite Z.gtb_ltb, (proj2 (Z.ltb_ge _ _)) by (Z.to_euclidean_division_equations; lia). simpl.
    eexists. split; [done|]. destruct Hv' as (_ & _ & _ & Hc & _). split; [|done]. by eapply core_eq. }
  destruct (Z.lt_ge_cases v 128).
  { rewrite big_bytes_single by lia. simpl rlp_string. rewrite (proj2 (Z.leb_le _ _)) by lia.
    apply (decodes_kind _ KByte [v]); [eexists; split; [done|lia]|]. intros s r st Hv' _.
    destruct (at_value_byte _ _ _ _ Hv') as [Hr [= ->]]. rewrite (proj2 (Z.eqb_neq _ _)) by lia. eauto. }
  pose proof (big_bytes_bound v ltac:(lia)). destruct (big_bytes_hd v ltac:(lia)) as (x & b & Eb & _).
  assert (1 <= zlen (big_bytes v)) by (rewrite Eb, zlen_cons; pose proof (zlen_nonneg b); lia).
  rewrite (rlp_string_canonical KString) by (done || apply big_bytes_canonical; lia).
  apply decodes_kind; [simpl; lia|]. intros s r st (_ & _ & _ & Hc & Ha) _.
  change (csize KString (big_bytes v)) with (zlen (big_bytes v)). cbv beta iota.
  rewrite Z.gtb_ltb, (proj2 (Z.ltb_ge _ _)), u8_small by (unfold is_byte; lia).
  assert (zlen (big_bytes v ++ r) = zlen (value_bytes KString (big_bytes v) ++ r) -
    (zlen (value_bytes KString (big_bytes v)) - zlen (big_bytes v))) as Hz by (rewrite !zlen_app; lia).
  destruct (readUint_ok _ _ _ _ Hc ltac:(lia)) as (s' & -> & Hr); [rewrite Hz, avail_advance; lia|].
  rewrite Z.gtb_ltb, (proj2 (Z.ltb_lt _ _)), (proj2 (Z.ltb_ge _ _)) by lia. exists s'. split; [done|].
  rewrite advance_advance, Z.sub_add in Hr. done.
Qed.

Lemma s_uint_sound n bits :
  8 <= bits <= 64 -> bits mod 8 = 0 ->
  sound n (s_uint bits) (fun bs v => bs = rlp_string (big_bytes v) /\ 0 <= v < 2 ^ bits).
Proof.
  intros Hb H8. assert (bits = 8 * (bits / 8)) as Hbits by (Z.to_euclidean_division_equations; lia).
  assert (0 <= bits / 8 <= 8) as Hb8 by (Z.to_euclidean_division_equations; lia).
  assert (2 ^ 8 <= 2 ^ bits) by (apply Z.pow_le_mono_r; lia).
  apply sound_kind. intros s k c r st Hv Hl Hok Ha. destruct k; [| |right; by eexists _, _].
  { destruct (at_value_byte _ _ _ _ Hv) as [Hr Hc]. destruct Hl as (x & -> & Hx). simplify_eq.
    cbv beta iota. destruct (Z.eqb_spec (s_byteval s) 0); [right; by eexists _, _|]. left.
    eexists _, _. split; [done|]. split; [|done]. split; [|lia].
    rewrite big_bytes_single by lia. simpl. by rewrite (proj2 (Z.leb_le _ _)) by lia. }
  change (csize KString c) with (zlen c). cbv beta iota. pose proof (zlen_nonneg c). rewrite Z.gtb_ltb.
  destruct (Z.ltb_spec (bits / 8) (zlen c)); [right; by eexists _, _|].
  rewrite u8_small by (unfold is_byte; lia). destruct Hv as (_ & _ & _ & Hc & _).
  destruct (Z.eq_dec (zlen c) 0) as [E0|].
  { destruct c; [|rewrite zlen_cons in E0; pose proof (zlen_nonneg c); lia]. left. eexists _, 0.
    split; [done|]. split; [split; [done|lia]|]. split; [by eapply core_eq|done]. }
  pose proof (readUint_quiet (zlen c) ltac:(lia) s) as Hq.
  destruct (readUint (zlen c) s) as [s' [v|e| |]] eqn:Hru; try done.
  2: { right. destruct e; try done; eexists _, _; done. }
  destruct (readUint_inv _ _ _ (zlen c) _ _ Hc Hok ltac:(lia) Hru) as [Hv Hru'].
  rewrite Z.gtb_ltb, (proj2 (Z.ltb_lt _ _)) by lia. simpl andb.
  destruct (Z.ltb_spec v 128); [right; by eexists _, _|]. left. exists s', v. split; [done|].
  destruct (Hru' ltac:(lia)) as (_ & Hlen & r' & Hcr & _ & Hr).
  apply app_inj_1 in Hcr as [-> ->]; [|unfold zlen in Hlen; lia]. split.
  - rewrite (rlp_string_canonical KString) by (done || (apply big_bytes_canonical; lia)). split; [done|].
    rewrite Hbits. apply byte_len_bits; lia.
  - by rewrite advance_advance, Z.sub_add in Hr.
Qed.

(** * Lists *)

Lemma s_List_stops : stops s_List.
Proof. apply stops_bind, s_Kind_stops. Qed.

(** [List] enters the list ahead. *)
Lemma s_List_enter s c r st :
  ready s (value_bytes KList c ++ r) st -> zlen c < 2 ^ 64 ->
  zlen (value_bytes KList c) <= avail (zlen (value_bytes KList c ++ r)) st ->
  exists s', s_List s = (s', Ok (zlen c)) /\
    ready s' (c ++ r) (ListPos 0 (zlen c) :: advance st (zlen (value_bytes KList c) - zlen c)).
Proof.
  intros Hrd Hc Ha. destruct (s_Kind_value s KList c r st Hrd Hc Ha) as (s1 & HK & Hv).
  unfold s_List, sbind. rewrite HK. eexists. split; [done|].
  destruct Hv as (_ & _ & _ & [Hr Hl Hrem Hst Hlen Hok] & _). split; [|done].
  constructor; simpl; try done; [by rewrite Hst|]. pose proof (zlen_nonneg c). pose proof (zlen_nonneg r).
  rewrite zlen_app. split; [lia|]. split; [lia|]. split; [lia|]. rewrite Z.sub_0_r, Z.add_simpl_l.
  destruct st as [|t st]; [done|]. simpl in *. rewrite !zlen_app in *.
  destruct Hok as (H1 & H2 & H3 & H4). repeat split; try lia. zexact H4.
Qed.

(** [ListEnd] leaves a list read to its end. *)
Lemma s_ListEnd_leave s r t st :
  ready s r (t :: st) -> at_end (t :: st) ->
  exists s', s_ListEnd s = (s', Ok tt) /\ ready s' r (advance st (lp_size t)).
Proof.
  intros [[Hr Hl Hrem Hst Hlen Hok] Hk] He. simpl in He. unfold s_ListEnd. rewrite Hst.
  rewrite (proj2 (Z.eqb_eq _ _)) by done. simpl. eexists. split; [done|]. split; [|done].
  simpl in Hok. destruct Hok as (H1 & H2 & H3 & H4).
  destruct st as [|t' st]; constructor; simpl in *; try done.
  - destruct H4 as (H5 & H6 & _). by rewrite u64_small by (unfold is_u64; lia).
  - destruct H4 as (H5 & H6 & H7 & H8). repeat split; try lia. zexact H8.
Qed.

(** [ListEnd] before the end fails. *)
Lemma s_ListEnd_early s r t st :
  ready s r (t :: st) -> ~ at_end (t :: st) -> s_ListEnd s = (s, Err errNotAtEOL).
Proof.
  intros [Hc Hk] He. simpl in He. unfold s_ListEnd. rewrite (core_stack _ _ _ Hc).
  by rewrite (proj2 (Z.eqb_neq _ _)).
Qed.

(** * Element loops *)

Section elements.
Context {A : Type} (dec : SM A).

Lemma slice_elems_sound n P fuel s r0 st :
  sound n dec P -> (forall bs v, P bs v -> 1 <= zlen bs) ->
  ready s r0 st -> bytes_ok r0 -> avail (zlen r0) st < n -> avail (zlen r0) st < Z.of_nat fuel ->
  (exists s' vs bs r, decodeSliceElems fuel dec s = (s', Ok vs) /\ r0 = bs ++ r /\ seq_of P bs vs /\
     zlen bs <= avail (zlen r0) st /\ ready s' r (advance st (zlen bs)) /\ at_end (advance st (zlen bs))) \/
  (exists s' e, decodeSliceElems fuel dec s = (s', Err e) /\ e <> EOL).
Proof.
  intros Hs HP. revert s r0 st. induction fuel as [|fuel IH]; intros s r0 st Hrd Hok Hn Hf.
  { pose proof (stack_ok_avail _ _ (core_ok _ _ _ (proj1 Hrd))). lia. }
  simpl. destruct (Hs s r0 st Hrd Hok Hn) as [(s1 & v & b & r & -> & -> & HPv & Ha & Hr)|[(s1 & -> & He & Hr)|(s1 & e & -> & He)]].
  - pose proof (HP _ _ HPv). apply bytes_ok_app in Hok as [_ Hok].
    assert (avail (zlen r) (advance st (zlen b)) = avail (zlen (b ++ r)) st - zlen b) as Hav by apply avail_app.
    destruct (IH s1 r (advance st (zlen b)) Hr Hok ltac:(lia) ltac:(lia))
      as [(s' & vs & bs & r' & Hd & -> & (bss & Hbss & ->) & Hle & Hr' & He)|(s' & e & Hd & He)].
    + left. unfold smap, sbind. rewrite Hd. exists s', (v :: vs), (b ++ concat bss), r'.
      rewrite advance_advance in *. rewrite zlen_app. split; [done|]. split; [by rewrite app_assoc|].
      split; [exists (b :: bss); split; [by constructor|done]|]. split; [lia|]. done.
    + right. unfold smap, sbind. rewrite Hd. by exists s', e.
  - left. exists s1, [], [], r0. rewrite zlen_nil, advance_0. split; [done|]. split; [done|].
    split; [exists []; split; [constructor|done]|].
    pose proof (stack_ok_avail _ _ (core_ok _ _ _ (proj1 Hrd))). split; [lia|]. done.
  - right. exists s1, e. by destruct e.
Qed.

Lemma slice_elems_decodes fuel bss vs s r st :
  Forall2 (decodes dec) bss vs -> stops dec -> (length vs < fuel)%nat ->
  ready s (concat bss ++ r) st -> zlen (concat bss) <= avail (zlen (concat bss ++ r)) st ->
  at_end (advance st (zlen (concat bss))) ->
  exists s', decodeSliceElems fuel dec s = (s', Ok vs) /\ ready s' r (advance st (zlen (concat bss))).
Proof.
  intros Hd Hst. revert s st fuel. induction Hd as [|b v bss vs Hb Hd IH]; intros s st fuel Hf Hrd Ha He;
    (destruct fuel as [|fuel]; [simpl in Hf; lia|]); simpl in *.
  - rewrite zlen_nil, advance_0 in *. destruct (Hst s r st Hrd He) as (s' & -> & ?). by exists s'.
  - rewrite <- app_assoc in *. rewrite zlen_app in *. rewrite <- advance_advance in *.
    pose proof (zlen_nonneg (concat bss)).
    destruct (Hb s _ st Hrd ltac:(lia)) as (s1 & -> & Hr1).
    destruct (IH s1 (advance st (zlen b)) fuel ltac:(lia) Hr1) as (s' & Hd' & Hr'); [|done|].
    { pose proof (avail_app b (concat bss ++ r) st) as Hav. rewrite !zlen_app in *. lia. }
    exists s'. unfold smap, sbind. by rewrite Hd'.
Qed.

Lemma array_elems_sound n P k s r0 st :
  sound n dec P -> ready s r0 st -> bytes_ok r0 -> avail (zlen r0) st < n ->
  (exists s' vs bs r, decodeArrayElems k dec s = (s', Ok vs) /\ r0 = bs ++ r /\ seq_of P bs vs /\
     length vs = k /\ zlen bs <= avail (zlen r0) st /\ ready s' r (advance st (zlen bs))) \/
  (exists s' e, decodeArrayElems k dec s = (s', Err e) /\ e <> EOL).
Proof.
  intros Hs. revert s r0 st. induction k as [|k IH]; intros s r0 st Hrd Hok Hn; simpl;
    pose proof (stack_ok_avail _ _ (core_ok _ _ _ (proj1 Hrd))) as Hav0.
  { left. exists s, [], [], r0. rewrite zlen_nil, advance_0. split; [done|]. split; [done|].
    split; [exists []; split; [constructor|done]|]. split; [done|]. split; [lia|done]. }
  destruct (Hs s r0 st Hrd Hok Hn) as [(s1 & v & b & r & -> & -> & HPv & Ha & Hr)|[(s1 & -> & He & Hr)|(s1 & e & -> & He)]].
  - pose proof (zlen_nonneg b). apply bytes_ok_app in Hok as [_ Hok].
    assert (avail (zlen r) (advance st (zlen b)) = avail (zlen (b ++ r)) st - zlen b) as Hav by apply avail_app.
    destruct (IH s1 r (advance st (zlen b)) Hr Hok ltac:(lia))
      as [(s' & vs & bs & r' & Hd & -> & (bss & Hbss & ->) & Hk & Hle & Hr')|(s' & e & Hd & He)];
      unfold smap, sbind; rewrite Hd; [left|right; by exists s', e].
    exists s', (v :: vs), (b ++ concat bss), r'.
    rewrite advance_advance in *. rewrite zlen_app. split; [done|]. split; [by rewrite app_assoc|].
    split; [exists (b :: bss); split; [by constructor|done]|]. simpl. split; [lia|]. split; [lia|done].
  - right. by eexists _, _.
  - right. exists s1, e. by destruct e.
Qed.

Lemma array_elems_decodes bss vs s r st :
  Forall2 (decodes dec) bss vs ->
  ready s (concat bss ++ r) st -> zlen (concat bss) <= avail (zlen (concat bss ++ r)) st ->
  exists s', decodeArrayElems (length vs) dec s = (s', Ok vs) /\ ready s' r (advance st (zlen (concat bss))).
Proof.
  intros Hd. revert s st. induction Hd as [|b v bss vs Hb Hd IH]; intros s st Hrd Ha; simpl in *.
  - rewrite zlen_nil, advance_0. by exists s.
  - rewrite <- app_assoc in *. rewrite zlen_app in *. rewrite <- advance_advance in *.
    pose proof (zlen_nonneg (concat bss)).
    destruct (Hb s _ st Hrd ltac:(lia)) as (s1 & -> & Hr1).
    destruct (IH s1 (advance st (zlen b)) Hr1) as (s' & Hd' & Hr').
    { pose proof (avail_app b (concat bss ++ r) st) as Hav. rewrite !zlen_app in *. lia. }
    exists s'. unfold smap, sbind. by rewrite Hd'.
Qed.
End elements.

(** * Decoders of lists: enter, read the elements, leave *)

Lemma list_end_cases lend s r t st :
  lend = s_ListEnd \/ lend = swrap s_ListEnd -> ready s r (t :: st) ->
  (at_end (t :: st) /\ exists s', lend s = (s', Ok tt) /\ ready s' r (advance st (lp_size t))) \/
  (~ at_end (t :: st) /\ exists e, lend s = (s, Err e) /\ e <> EOL).
Proof.
  intros Hl Hrd. destruct (Z.eq_dec (lp_pos t) (lp_size t)) as [He|Hne].
  - left. split; [done|]. destruct (s_ListEnd_leave s r t st Hrd He) as (s' & Hs & ?).
    exists s'. destruct Hl as [->| ->]; unfold swrap; by rewrite Hs.
  - right. split; [done|]. pose proof (s_ListEnd_early s r t st Hrd Hne) as Hs.
    destruct Hl as [->| ->]; unfold swrap; rewrite Hs; by eexists.
Qed.

Lemma in_list_stops {A} lend (body : Z -> SM A) : stops (in_list lend body).
Proof. apply stops_bind, stops_swrap, s_List_stops. Qed.

Lemma s_List_sound_cases s r0 st :
  ready s r0 st -> bytes_ok r0 ->
  (exists s' c r, s_List s = (s', Ok (zlen c)) /\ r0 = value_bytes KList c ++ r /\
     zlen (value_bytes KList c) <= avail (zlen r0) st /\ zlen c < 2 ^ 64 /\
     ready s' (c ++ r) (ListPos 0 (zlen c) :: advance st (zlen (value_bytes KList c) - zlen c))) \/
  (exists s', s_List s = (s', Err EOL) /\ at_end st /\ ready s' r0 st) \/
  (exists s' e, s_List s = (s', Err e) /\ e <> EOL).
Proof.
  intros Hrd Hok.
  destruct (s_Kind_total s r0 st Hrd Hok) as [(s1 & [k size] & HK)|[(s1 & HK & ?)|(s1 & e & HK & ?)]].
  - destruct (s_Kind_value_inv _ _ _ _ _ _ Hrd Hok HK) as (c & r & -> & Hl & -> & Ha & Hv).
    destruct k; try (right; right; unfold s_List, sbind; rewrite HK; by eexists _, _).
    left. destruct (s_List_enter s c r st Hrd Hl Ha) as (s' & ? & ?). exists s', c, r. eauto 6.
  - right. left. unfold s_List, sbind. rewrite HK. eauto.
  - right. right. unfold s_List, sbind. rewrite HK. eauto.
Qed.

Lemma value_list_pos c : zlen c < 2 ^ 64 -> zlen c + 1 <= zlen (value_bytes KList c).
Proof.
  intros Hc. pose proof (zlen_nonneg c). simpl. rewrite zlen_app.
  pose proof (head_of_pos KList (zlen c) 0 ltac:(split; [lia|done])) as Hh. simpl in Hh. lia.
Qed.

Lemma in_list_sound {A} n lend (body : Z -> SM A) Q :
  lend = s_ListEnd \/ lend = swrap s_ListEnd ->
  (forall s r0 size st, ready s r0 (ListPos 0 size :: st) -> bytes_ok r0 -> size < n - 1 ->
     (exists s' v bs r, body size s = (s', Ok v) /\ r0 = bs ++ r /\ Q bs v /\
        zlen bs <= size /\ ready s' r (advance (ListPos 0 size :: st) (zlen bs))) \/
     (exists s' e, body size s = (s', Err e) /\ e <> EOL)) ->
  sound n (in_list lend body) (fun bs v => exists p, Q p v /\ bs = rlp_list p).
Proof.
  intros Hlend Hb s r0 st Hrd Hok Hn. unfold in_list, sbind, swrap.
  destruct (s_List_sound_cases s r0 st Hrd Hok)
    as [(s1 & c & r & -> & -> & Ha & Hc & Hr)|[(s1 & -> & ?)|(s1 & e & -> & ?)]].
  2: { right. left. eauto. }
  2: { right. right. eexists s1, _. split; [done|]. by rewrite wrapStreamError_eol. }
  pose proof (value_list_pos c Hc). rewrite zlen_app in Hn.
  assert (bytes_ok (c ++ r)) as Hcr.
  { apply bytes_ok_app in Hok as [Hok ?]. apply bytes_ok_app in Hok as [_ ?]. by apply bytes_ok_app. }
  destruct (Hb s1 (c ++ r) (zlen c) _ Hr Hcr ltac:(rewrite zlen_app in *; lia)) as [(s2 & v & bs & r' & -> & Heq & HQ & Hle & Hr2)|(s2 & e & -> & ?)].
  2: { right. right. eauto. }
  destruct (list_end_cases lend s2 r' _ _ Hlend Hr2) as [(He & s3 & -> & Hr3)|(_ & e & -> & ?)].
  2: { right. right. eauto. }
  left. simpl in He. assert (bs = c /\ r' = r) as [-> ->].
  { apply app_inj_1 in Heq; [naive_solver|]. unfold zlen in *. lia. }
  exists s3, v, (value_bytes KList c), r. split; [done|]. split; [done|]. split; [by exists c|].
  split; [done|]. simpl in Hr3. by rewrite advance_advance, Z.sub_add in Hr3.
Qed.

Lemma in_list_decodes {A} lend (body : Z -> SM A) p v :
  lend = s_ListEnd \/ lend = swrap s_ListEnd -> zlen p < 2 ^ 64 ->
  (forall s r st, ready s (p ++ r) (ListPos 0 (zlen p) :: st) ->
     exists s', body (zlen p) s = (s', Ok v) /\ ready s' r (ListPos (zlen p) (zlen p) :: st)) ->
  decodes (in_list lend body) (rlp_list p) v.
Proof.
  intros Hlend Hp Hb s r st Hrd Ha. unfold in_list, sbind, swrap.
  destruct (s_List_enter s p r st Hrd Hp Ha) as (s1 & -> & Hr1).
  destruct (Hb s1 r _ Hr1) as (s2 & -> & Hr2).
  destruct (list_end_cases lend s2 r _ _ Hlend Hr2) as [(_ & s3 & -> & Hr3)|(Hne & _)]; [|by simpl in Hne].
  exists s3. split; [done|]. simpl in Hr3. by rewrite advance_advance, Z.sub_add in Hr3.
Qed.

Lemma decodeListSlice_eq {A} fuel (dec : SM A) s :
  decodeListSlice fuel dec s
  = in_list s_ListEnd (fun size => if size =? 0 then sret [] else decodeSliceElems fuel dec) s.
Proof.
  unfold decodeListSlice, in_list, sbind. destruct (swrap s_List s) as [s1 [size|e| |]]; try done.
  by destruct (size =? 0).
Qed.

Lemma sound_ext {A} n (d d' : SM A) P : (forall s, d s = d' s) -> sound n d' P -> sound n d P.
Proof. intros Hd Hs s r0 st Hrd Hok Ha. rewrite Hd. by apply Hs. Qed.

Lemma decodes_ext {A} (d d' : SM A) bs v : (forall s, d s = d' s) -> decodes d' bs v -> decodes d bs v.
Proof. intros Hd Hs s r st Hrd Ha. rewrite Hd. by apply Hs. Qed.

Lemma stops_ext {A} (d d' : SM A) : (forall s, d s = d' s) -> stops d' -> stops d.
Proof. intros Hd Hs s r st Hrd Ha. rewrite Hd. by apply Hs. Qed.

Lemma decodeListSlice_stops {A} fuel (dec : SM A) : stops (decodeListSlice fuel dec).
Proof. eapply stops_ext; [apply decodeListSlice_eq|apply in_list_stops]. Qed.

Lemma decodeListSlice_sound {A} n m fuel (dec : SM A) P :
  sound m dec P -> (forall bs v, P bs v -> 1 <= zlen bs) -> n - 1 <= m -> n - 1 <= Z.of_nat fuel ->
  sound n (decodeListSlice fuel dec) (fun bs vs => exists p, seq_of P p vs /\ bs = rlp_list p).
Proof.
  intros Hs HP Hm Hf. eapply sound_ext; [apply decodeListSlice_eq|]. apply in_list_sound; [by left|].
  intros s r0 size st Hrd Hok Hsz. destruct (Z.eqb_spec size 0) as [->|].
  - left. exists s, [], [], r0. rewrite zlen_nil, advance_0. split; [done|]. split; [done|].
    split; [|done]. exists []. split; [constructor|done].
  - destruct (slice_elems_sound dec m P fuel s r0 _ Hs HP Hrd Hok) as [(s' & vs & bs & r & ? & ? & ? & ? & ? & _)|?];
      simpl in *; [lia|lia| |by right].
    left. exists s', vs, bs, r. repeat (split; [done|]). split; [lia|done].
Qed.

Lemma decodeListSlice_decodes {A} fuel (dec : SM A) bss vs :
  Forall2 (decodes dec) bss vs -> stops dec -> (length vs < fuel)%nat -> zlen (concat bss) < 2 ^ 64 ->
  Forall (fun b => 1 <= zlen b) bss ->
  decodes (decodeListSlice fuel dec) (rlp_list (concat bss)) vs.
Proof.
  intros Hd Hst Hf Hl Hpos. eapply decodes_ext; [apply decodeListSlice_eq|].
  apply in_list_decodes; [by left|done|]. intros s r st Hrd.
  destruct (Z.eqb_spec (zlen (concat bss)) 0) as [E0|Hne].
  - inversion Hd as [|b v bss' vs' ? ?]; subst; [by exists s|].
    inversion Hpos; subst. simpl in E0. rewrite zlen_app in E0. pose proof (zlen_nonneg (concat bss')). lia.
  - destruct (slice_elems_decodes dec fuel bss vs s r _ Hd Hst Hf Hrd) as (s' & ? & ?); simpl; [lia|done|].
    by exists s'.
Qed.

(** * Decoders that begin by looking at the kind *)

Lemma s_Kind_kf : kind_first s_Kind.
Proof.
  intros s s1 [k size] HK. rewrite HK. assert (cachedKind s1 = (s1, Ok (k, size)) /\ s_kind s1 <> None) as [Hc Hk].
  { assert (forall s2, s_kind s2 <> None -> cachedKind s2 = (s1, Ok (k, size)) ->
      cachedKind s1 = (s1, Ok (k, size)) /\ s_kind s1 <> None) as Hcached.
    { intros s2 Hk2 Hc2. assert (s2 = s1) as ->; [|done]. unfold cachedKind in Hc2.
      destruct (s_kinderr s2), (s_kind s2); by simplify_eq. }
    unfold s_Kind in HK. destruct (s_kind s) eqn:Ek; [by eapply Hcached; [|exact HK]; congruence|].
    cbv zeta in HK. case_match; [done|].
    destruct (s_readKind _) as [s2 [[[k2 size2] err]|e| |]]; try done.
    by eapply Hcached; [|exact HK]. }
  unfold s_Kind. by destruct (s_kind s1).
Qed.

Lemma bind_kf {A B} (m : SM A) (k : A -> SM B) : kind_first m -> kind_first (sbind m k).
Proof. intros Hm s s1 v HK. unfold sbind. by rewrite (Hm _ _ _ HK). Qed.

Lemma swrap_kf {A} (m : SM A) : kind_first m -> kind_first (swrap m).
Proof. intros Hm s s1 v HK. unfold swrap. by rewrite (Hm _ _ _ HK). Qed.

Lemma smap_kf {A B} (f : A -> B) (m : SM A) : kind_first m -> kind_first (smap f m).
Proof. apply bind_kf. Qed.

Lemma s_Bytes_kf : kind_first s_Bytes.
Proof. apply bind_kf, s_Kind_kf. Qed.

Lemma in_list_kf {A} lend (body : Z -> SM A) : kind_first (in_list lend body).
Proof. apply bind_kf, swrap_kf, bind_kf, s_Kind_kf. Qed.

Lemma decodeListSlice_kf {A} fuel (dec : SM A) : kind_first (decodeListSlice fuel dec).
Proof. intros s s1 v HK. rewrite !decodeListSlice_eq. by eapply in_list_kf. Qed.

Lemma sound_dispatch {A} n (f : Kind * Z -> SM A) P :
  (forall kz, kind_first (f kz) /\ sound n (f kz) P) -> sound n (sbind s_Kind f) P.
Proof.
  intros Hf s r0 st Hrd Hok Ha. unfold sbind.
  destruct (s_Kind_total s r0 st Hrd Hok) as [(s1 & kz & HK)|[(s1 & HK & ?)|(s1 & e & HK & ?)]]; rewrite HK.
  - destruct (Hf kz) as [Hkf Hs]. rewrite (Hkf _ _ _ HK). by apply Hs.
  - right. left. eauto.
  - right. right. eauto.
Qed.

Lemma decodes_dispatch {A} (f : Kind * Z -> SM A) k c v :
  loose k c -> kind_first (f (k, csize k c)) -> decodes (f (k, csize k c)) (value_bytes k c) v ->
  decodes (sbind s_Kind f) (value_bytes k c) v.
Proof.
  intros Hl Hkf Hd s r st Hrd Ha. unfold sbind.
  destruct (s_Kind_value s k c r st Hrd Hl Ha) as (s1 & HK & _). rewrite HK, (Hkf _ _ _ HK). by apply Hd.
Qed.

(** * Untyped values *)

Section item_rect'.
Variables (P : item -> Prop).
Hypothesis Hstr : forall b, P (IStr b).
Hypothesis Hlist : forall l, Forall P l -> P (IList l).
Fixpoint item_rect' (i : item) : P i :=
  match i with
  | IStr b => Hstr b
  | IList l => Hlist l ((fix go l := match l return Forall P l with
                                     | [] => Forall_nil_2 _
                                     | i :: l => Forall_cons_2 _ _ _ (item_rect' i) (go l)
                                     end) l)
  end.
End item_rect'.

Lemma rlp_head_pos a b n : 1 <= zlen (rlp_head a b n).
Proof.
  unfold rlp_head. case_match; rewrite ?zlen_cons; pose proof (zlen_nonneg (big_bytes n)); rewrite ?zlen_nil; lia.
Qed.

Lemma rlp_list_pos p : 1 <= zlen (rlp_list p).
Proof. unfold rlp_list. rewrite zlen_app. pose proof (rlp_head_pos 0xC0 0xF7 (zlen p)). pose proof (zlen_nonneg p). lia. Qed.

Lemma rlp_string_pos b : 1 <= zlen (rlp_string b).
Proof.
  assert (1 <= zlen (rlp_head 0x80 0xB7 (zlen b) ++ b)).
  { rewrite zlen_app. pose proof (rlp_head_pos 0x80 0xB7 (zlen b)). pose proof (zlen_nonneg b). lia. }
  unfold rlp_string. destruct b as [|x [|]]; try done. by case_match.
Qed.

Lemma item_bytes_pos i : 1 <= zlen (item_bytes i).
Proof. destruct i; simpl; [apply rlp_string_pos|apply rlp_list_pos]. Qed.

Lemma rlp_list_ok p : bytes_ok (rlp_list p) -> bytes_ok p.
Proof. intros H. by apply bytes_ok_app in H as [_ ?]. Qed.

Lemma rlp_string_ok b : bytes_ok (rlp_string b) -> bytes_ok b.
Proof.
  unfold rlp_string. destruct b as [|x [|]]; try case_match; try done; intros Hb; by apply bytes_ok_app in Hb as [_ ?].
Qed.

(** A concatenation of non-empty encodings has at least as many bytes as values. *)
Lemma concat_len (bss : list bytes) :
  Forall (fun b => 1 <= zlen b) bss -> Z.of_nat (length bss) <= zlen (concat bss).
Proof.
  induction 1 as [|b bss Hb _ IH]; simpl; [done|]. rewrite zlen_app. lia.
Qed.

Lemma decodeInterface_stops fuel : stops (decodeInterface (S fuel)).
Proof. apply stops_bind, s_Kind_stops. Qed.

Lemma decodeInterface_kf fuel : kind_first (decodeInterface (S fuel)).
Proof. apply bind_kf, s_Kind_kf. Qed.

Lemma decodeInterface_sound fuel :
  sound (Z.of_nat fuel) (decodeInterface fuel) (fun bs i => bs = item_bytes i).
Proof.
  induction fuel as [|fuel IH].
  { intros s r0 st Hrd _ Ha. pose proof (stack_ok_avail _ _ (core_ok _ _ _ (proj1 Hrd))). lia. }
  simpl decodeInterface. apply sound_dispatch. intros [k z].
  assert (sound (Z.of_nat (S fuel)) (smap IStr s_Bytes) (fun bs i => bs = item_bytes i)) as Hb.
  { eapply sound_smap; [apply s_Bytes_sound|]. naive_solver. }
  destruct k; [split; [apply smap_kf, s_Bytes_kf|done]..|].
  split; [apply smap_kf, decodeListSlice_kf|].
  eapply sound_smap; [apply (decodeListSlice_sound _ _ _ _ _ IH); [|lia|lia]|].
  - intros bs i ->. apply item_bytes_pos.
  - intros bs l (p & (bss & Hbss & ->) & ->). simpl. do 2 f_equal.
    induction Hbss as [|? ? ? ? -> ? IHl]; simpl; congruence.
Qed.

Lemma items_decode (dec : SM item) n l :
  Forall (fun i => bytes_ok (item_bytes i) -> zlen (item_bytes i) < 2 ^ 64 -> zlen (item_bytes i) < n ->
            decodes dec (item_bytes i) i) l ->
  bytes_ok (concat (map item_bytes l)) -> zlen (concat (map item_bytes l)) < 2 ^ 64 ->
  zlen (concat (map item_bytes l)) < n -> Forall2 (decodes dec) (map item_bytes l) l.
Proof.
  induction 1 as [|i l Hi _ IHl]; simpl; intros Hok Hp Hn; [constructor|].
  apply bytes_ok_app in Hok as [Hok1 Hok2]. rewrite zlen_app in *.
  pose proof (zlen_nonneg (item_bytes i)). pose proof (zlen_nonneg (concat (map item_bytes l))).
  constructor; [apply Hi|apply IHl]; done || lia.
Qed.

Lemma decodeInterface_decodes fuel i :
  bytes_ok (item_bytes i) -> zlen (item_bytes i) < 2 ^ 64 -> zlen (item_bytes i) < Z.of_nat fuel ->
  decodes (decodeInterface fuel) (item_bytes i) i.
Proof.
  revert fuel. induction i as [b|l IH] using item_rect'; intros fuel Hok Hlen Hf;
    (destruct fuel as [|fuel]; [match type of Hf with zlen ?x < _ => pose proof (zlen_nonneg x) end; lia|]).
  - simpl item_bytes in *. pose proof (zlen_rlp_string_ge b).
    destruct (rlp_string_value b (rlp_string_ok _ Hok) ltac:(lia)) as (k & Hv & Hk & Hcan & Hl).
    pose proof (decodes_smap s_Bytes IStr _ _ (s_Bytes_decodes b (rlp_string_ok _ Hok) ltac:(lia))) as Hd.
    rewrite Hv in *. apply decodes_dispatch; [done|..]; destruct k; try done; apply smap_kf, s_Bytes_kf.
  - simpl item_bytes in *. set (p := concat (map item_bytes l)) in *.
    pose proof (zlen_rlp_list_ge p). pose proof (value_list_pos p ltac:(lia)) as Hpos.
    change (value_bytes KList p) with (rlp_list p) in Hpos. apply rlp_list_ok in Hok.
    apply (decodes_dispatch _ KList p); [simpl; lia|apply smap_kf, decodeListSlice_kf|].
    apply decodes_smap.
    assert (Forall (fun b => 1 <= zlen b) (map item_bytes l)) as Hall.
    { apply Forall_map, Forall_true. intros. apply item_bytes_pos. }
    pose proof (concat_len _ Hall) as Hcl. fold p in Hcl. rewrite length_map in Hcl.
    destruct fuel as [|fuel]; [lia|].
    apply decodeListSlice_decodes; [|apply decodeInterface_stops|lia|fold p; lia|done].
    apply (items_decode _ (Z.of_nat (S fuel))); [|done|fold p; lia|fold p; lia].
    eapply Forall_impl; [exact IH|]. intros i Hi. exact (Hi (S fuel)).
Qed.
