(* ===== verification/RlpTyped.v ===== *)
(** What the type-directed decoders of [src/rlp/decode.go] accept.

    [makeDecoder] picks a decoder for the target's type.  [typed t v bs] says that [bs] is
    the encoding of [v] at type [t]; the decoder for [t] accepts exactly these inputs. *)

From stdpp Require Import base numbers list.
From S2P Require Import Prelude.
From S2P Require Import RlpEncode.
From S2P Require Import RlpRaw.
From S2P Require Import RlpStream.
Local Open Scope Z_scope.
Local Open Scope go_scope.
Local Open Scope stream_scope.

Section fields_rel.
Variable R : rtype -> dval -> bytes -> Prop.
Fixpoint fields_rel (fields : list rtype) (vs : list dval) (bs : bytes) : Prop :=
  match fields, vs with
  | [], [] => bs = []
  | f :: fields, v :: vs => exists b bs', bs = b ++ bs' /\ R f v b /\ fields_rel fields vs bs'
  | _, _ => False
  end.
End fields_rel.

(** [bs] is the encoding of [v] at type [t]. *)
Fixpoint typed (t : rtype) (v : dval) (bs : bytes) {struct t} : Prop :=
  match t, v with
  | TRawValue, DBytes b => b = bs /\ raw_value bs
  | TBigInt, DUint i => 0 <= i /\ bs = rlp_string (big_bytes i)
  | TUint bits, DUint i => 0 <= i < 2 ^ bits /\ bs = rlp_string (big_bytes i)
  | TBool, DBool b => bs = rlp_string (if b then [1] else [])
  | TString, DBytes b | TByteSlice, DBytes b => bs = rlp_string b
  | TByteArray n, DBytes b => zlen b = n /\ bs = rlp_string b
  | TSlice tail e, DList l =>
      exists p, seq_of (fun b v => typed e v b) p l /\ bs = if tail then p else rlp_list p
  | TArray n e, DList l =>
      exists p, (seq_of (fun b v => typed e v b) p l /\ length l = n) /\ bs = rlp_list p
  | TStruct fields, DStruct l => exists p, fields_rel typed fields l p /\ bs = rlp_list p
  | TPtr false e, DPtr (Some v) => typed e v bs
  | TPtr true e, DPtr None => bs = [0x80] \/ bs = [0xC0]
  | TPtr true e, DPtr (Some v) => typed e v bs /\ bs <> [0x80] /\ bs <> [0xC0]
  | TInterface, DInterface i => bs = item_bytes i
  | _, _ => False
  end.

(** The fields of a struct; [tail] is allowed on the last one only. *)
Section fields_ok.
Variable ok : rtype -> bool.
Fixpoint fields_ok (fields : list rtype) : bool :=
  match fields with
  | [] => true
  | f :: fields =>
      match f, fields with
      | TSlice true e, [] => ok e
      | _, _ => ok f && fields_ok fields
      end
  end.
End fields_ok.

(** Types the decoder is generated for.  Arrays of a single byte are set apart: see
    [decodeByteArray_stuck]. *)
Fixpoint type_ok (t : rtype) : bool :=
  match t with
  | TUint bits => (bits =? 8) || (bits =? 16) || (bits =? 32) || (bits =? 64)
  | TByteArray n => (0 <=? n) && (n <? 2 ^ 63) && negb (n =? 1)
  | TSlice tail e => negb tail && type_ok e
  | TArray _ e => type_ok e
  | TStruct fields => fields_ok type_ok fields
  | TPtr _ e => type_ok e
  | _ => true
  end.

(** The reflected value the encoder sees for an untyped value. *)
Fixpoint item_rval (i : item) : rval :=
  match i with
  | IStr b => RBytes b
  | IList l => RSlice false (map (fun i => RInterface (Some (item_rval i))) l)
  end.

Fixpoint item_ok (i : item) : Prop :=
  match i with IStr b => bytes_ok b | IList l => Forall id (map item_ok l) end.

Section fields_held.
Variable R : rtype -> dval -> rval -> Prop.
Fixpoint fields_held (fields : list rtype) (vs : list dval) (rs : list rval) : Prop :=
  match fields, vs, rs with
  | [], [], [] => True
  | f :: fields, v :: vs, r :: rs => R f v r /\ fields_held fields vs rs
  | _, _, _ => False
  end.
End fields_held.

(** The reflected value [rv] of type [t] holds [v].  A pointer tagged [nil] must not point
    to a value with an empty encoding: that is read back as nil. *)
Fixpoint held (t : rtype) (v : dval) (rv : rval) {struct t} : Prop :=
  match t, v, rv with
  | TRawValue, DBytes b, RRawValue b' => b' = b /\ raw_value b /\ bytes_ok b
  | TBigInt, DUint i, RBigIntNoPtr j => j = i /\ 0 <= i
  | TUint bits, DUint i, RUint j => j = i /\ 0 <= i < 2 ^ bits /\ bits <= 64
  | TBool, DBool b, RBool b' => b' = b
  | TString, DBytes b, RString b' => b' = b /\ bytes_ok b
  | TByteSlice, DBytes b, RBytes b' => b' = b /\ bytes_ok b
  | TByteArray n, DBytes b, RByteArray b' => b' = b /\ zlen b = n /\ bytes_ok b
  | TSlice tail e, DList l, RSlice tail' rs => tail' = tail /\ Forall2 (held e) l rs
  | TArray n e, DList l, RSlice false rs => length l = n /\ Forall2 (held e) l rs
  | TStruct fields, DStruct l, RStruct rs => fields_held held fields l rs
  | TPtr false e, DPtr (Some v), RPtr rv => held e v rv
  | TPtr true e, DPtr (Some v), RPtr rv =>
      held e v rv /\ rlp_spec rv <> Ok [0x80] /\ rlp_spec rv <> Ok [0xC0]
  | TPtr true e, DPtr None, RNilPtrByteArray | TPtr true e, DPtr None, RNilPtrList => True
  | TPtr true e, DPtr None, RNilPtrZero z =>
      rval_ok z = true /\ (rlp_spec z = Ok [0x80] \/ rlp_spec z = Ok [0xC0])
  | TInterface, DInterface i, RInterface (Some rv) => rv = item_rval i /\ item_ok i
  | _, _, _ => False
  end.

(** What is shown of the decoder [dec] for encodings described by [T]. *)
Record good (fuel : nat) (dec : SM dval) (T : dval -> bytes -> Prop) : Prop := {
  good_sound : sound (Z.of_nat fuel) dec (fun bs v => T v bs);
  good_stops : stops dec;
  good_kf : kind_first dec;
  good_pos : forall v bs, T v bs -> 1 <= zlen bs;
  good_raw : forall v bs, T v bs -> bytes_ok bs -> zlen bs < 2 ^ 64 -> raw_value bs;
  good_decodes : forall v bs, T v bs -> bytes_ok bs -> zlen bs < 2 ^ 64 -> zlen bs < Z.of_nat fuel ->
    decodes dec bs v }.

(** Decoding the last field of a struct may rely on being at the end of the list after it. *)
Definition decodes_end {A} (dec : SM A) (bs : bytes) (v : A) : Prop :=
  forall s r st, ready s (bs ++ r) st -> zlen bs <= avail (zlen (bs ++ r)) st ->
  at_end (advance st (zlen bs)) ->
  exists s', dec s = (s', Ok v) /\ ready s' r (advance st (zlen bs)).

(** * Raw values *)

Lemma raw_value_string b : bytes_ok (rlp_string b) -> zlen (rlp_string b) < 2 ^ 64 -> raw_value (rlp_string b).
Proof.
  intros Hok Hl. pose proof (zlen_rlp_string_ge b). apply rlp_string_ok in Hok.
  destruct (rlp_string_value b Hok ltac:(lia)) as (k & -> & _ & _ & ?). by exists k, b.
Qed.

Lemma raw_value_list p : zlen (rlp_list p) < 2 ^ 64 -> raw_value (rlp_list p).
Proof. intros Hl. pose proof (zlen_rlp_list_ge p). exists KList, p. split; [simpl; lia|done]. Qed.

Lemma raw_value_pos bs : raw_value bs -> 1 <= zlen bs.
Proof.
  intros (k & c & Hl & ->). destruct k; simpl in *.
  - by destruct Hl as (x & -> & _).
  - rewrite zlen_app. pose proof (rlp_head_pos 0x80 0xB7 (zlen c)). pose proof (zlen_nonneg c). lia.
  - apply rlp_list_pos.
Qed.

Lemma decodes_decodes_end {A} (dec : SM A) bs v : decodes dec bs v -> decodes_end dec bs v.
Proof. intros Hd s r st Hrd Ha _. by apply Hd. Qed.

(** * The scalar types *)

Section scalars.
Context (fuel : nat).

Lemma good_TRawValue : good fuel decodeRawValue (typed TRawValue).
Proof.
  constructor.
  - eapply sound_smap; [apply s_Raw_sound|]. naive_solver.
  - apply stops_bind, s_Raw_stops.
  - apply smap_kf, bind_kf, s_Kind_kf.
  - intros [] bs; try done. intros [_ ?]. by apply raw_value_pos.
  - intros [] bs; try done. by intros [_ ?].
  - intros [] bs; try done. intros [-> ?] _ _ _. by apply decodes_smap, s_Raw_decodes.
Qed.

Lemma good_string : good fuel (smap DBytes (swrap s_Bytes)) (typed TString).
Proof.
  constructor.
  - eapply sound_smap; [apply sound_swrap, s_Bytes_sound|]. naive_solver.
  - apply stops_bind, stops_swrap, s_Bytes_stops.
  - apply smap_kf, swrap_kf, s_Bytes_kf.
  - intros [] bs; try done. intros ->. apply rlp_string_pos.
  - intros [] bs; try done. intros ->. apply raw_value_string.
  - intros [b|i|b|l|l|v|i] bs; try done. intros -> Hok Hl _. pose proof (zlen_rlp_string_ge b).
    apply decodes_smap, decodes_swrap, s_Bytes_decodes; [by apply rlp_string_ok|lia].
Qed.

Lemma good_TUint bits : type_ok (TUint bits) = true -> good fuel (decodeUint bits) (typed (TUint bits)).
Proof.
  intros Hb. assert (8 <= bits <= 64 /\ bits mod 8 = 0) as [Hb1 Hb2].
  { simpl in Hb. rewrite !orb_true_iff, !Z.eqb_eq in Hb. destruct Hb as [[[->| ->]| ->]| ->]; done. }
  constructor.
  - eapply sound_smap; [by apply sound_swrap, s_uint_sound|]. naive_solver.
  - apply stops_bind, stops_swrap, s_uint_stops.
  - apply smap_kf, swrap_kf, bind_kf, s_Kind_kf.
  - intros [] bs; try done. intros [_ ->]. apply rlp_string_pos.
  - intros [] bs; try done. intros [_ ->]. apply raw_value_string.
  - intros [] bs; try done. intros [? ->] _ _ _. apply decodes_smap, decodes_swrap, s_uint_decodes; done || lia.
Qed.

Lemma good_TBool : good fuel decodeBool (typed TBool).
Proof.
  constructor.
  - eapply sound_smap.
    + apply sound_swrap, sound_pure; [by apply s_uint_sound|].
      intros bs v _. destruct (v =? 0); [eauto|]. destruct (v =? 1); [eauto|]. right. by eexists.
    + intros bs b (v & [-> _] & Hv). simpl. apply (f_equal (fun f => f (NewStream [] 0))) in Hv.
      destruct (Z.eqb_spec v 0) as [E|]; [|destruct (Z.eqb_spec v 1) as [E|]];
        unfold sret, sfail in Hv; by simplify_eq.
  - apply stops_bind, stops_swrap, stops_bind, s_uint_stops.
  - apply smap_kf, swrap_kf, bind_kf, bind_kf, s_Kind_kf.
  - intros [] bs; try done. intros ->. apply rlp_string_pos.
  - intros [] bs; try done. intros ->. apply raw_value_string.
  - intros [] bs; try done. intros -> _ _ _. apply decodes_smap, decodes_swrap.
    destruct b; [apply (decodes_bind _ _ _ 1), eq_refl|apply (decodes_bind _ _ _ 0), eq_refl];
      [change [1] with (big_bytes 1)|change [] with (big_bytes 0)]; by apply s_uint_decodes.
Qed.

Lemma good_TBigInt : good fuel decodeBigInt (typed TBigInt).
Proof.
  constructor.
  - eapply sound_mono; [reflexivity| |apply sound_pure; [apply sound_swrap, s_Bytes_sound|]].
    + intros bs v (c & [-> Hc] & Hv). apply (f_equal (fun f => f (NewStream [] 0))) in Hv.
      destruct c as [|x c].
      { unfold sret in Hv. simplify_eq. done. }
      assert (x = 0 \/ x <> 0) as [->|Hx] by lia; [done|].
      assert (v = DUint (be_val (x :: c))) as -> by (unfold sret in Hv; destruct x; by simplify_eq).
      split; [by apply be_val_bound|]. by rewrite big_bytes_be_val.
    + intros bs c _. destruct c as [|[] c]; eauto.
  - apply stops_bind, stops_swrap, s_Bytes_stops.
  - apply bind_kf, swrap_kf, s_Bytes_kf.
  - intros [] bs; try done. intros [_ ->]. apply rlp_string_pos.
  - intros [] bs; try done. intros [_ ->]. apply raw_value_string.
  - intros [b|i|b|l|l|v|i] bs; try done. intros [Hi ->] Hok Hl _.
    pose proof (zlen_rlp_string_ge (big_bytes i)).
    eapply decodes_bind; [apply decodes_swrap, s_Bytes_decodes; [apply big_bytes_ok|lia]|].
    destruct (Z.eq_dec i 0) as [->|Hi0]; [done|].
    destruct (big_bytes_hd i ltac:(lia)) as (x & c & Hx & Hne). pose proof (be_val_big_bytes i Hi) as Hv.
    rewrite Hx in *. rewrite Hv. by destruct x.
Qed.

Lemma good_TByteArray n : type_ok (TByteArray n) = true -> good fuel (decodeByteArray n) (typed (TByteArray n)).
Proof.
  intros Hn. assert (0 <= n < 2 ^ 63 /\ n <> 1) as [Hn1 Hn2].
  { simpl in Hn. rewrite !andb_true_iff, negb_true_iff, Z.eqb_neq in Hn. lia. }
  assert (u64 n = n) as Hu by (apply u64_small; unfold is_u64; lia).
  constructor.
  - apply sound_kind. intros s k c r st Hv Hl Hok Ha. rewrite Hu. destruct k; [| |right; by eexists _, _].
    + right. destruct (Z.eqb_spec n 0); [by eexists _, _|].
      rewrite Z.gtb_ltb, (proj2 (Z.ltb_lt _ _)) by lia. by eexists _, _.
    + change (csize KString c) with (zlen c). cbv beta iota.
      destruct (Z.ltb_spec n (zlen c)); [right; by eexists _, _|]. rewrite Z.gtb_ltb.
      destruct (Z.ltb_spec (zlen c) n); [right; by eexists _, _|]. assert (n = zlen c) as -> by lia.
      destruct (at_value_read _ _ _ _ _ Hv ltac:(done)) as (s' & Hrf & Hr). unfold sbind. rewrite Hrf.
      rewrite (proj2 (Z.eqb_neq _ _)) by done. left. exists s', (DBytes c). split; [done|]. split; [|done].
      split; [done|]. symmetry. apply rlp_string_canonical; [|done]. apply short_string_canonical; [done|].
      by rewrite (proj2 (Z.eqb_neq _ _)).
  - apply stops_bind, s_Kind_stops.
  - apply bind_kf, s_Kind_kf.
  - intros [] bs; try done. intros [_ ->]. apply rlp_string_pos.
  - intros [] bs; try done. intros [_ ->]. apply raw_value_string.
  - intros [b|i|b|l|l|v|i] bs; try done. intros [Hb ->] Hok Hl _. pose proof (zlen_rlp_string_ge b).
    assert (canonical KString b) as Hc.
    { apply short_string_canonical; [lia|]. by rewrite (proj2 (Z.eqb_neq _ _)) by lia. }
    rewrite (rlp_string_canonical KString) by done. apply decodes_kind; [simpl; lia|].
    intros s r st Hv _. rewrite Hu. change (csize KString b) with (zlen b). cbv beta iota. rewrite Hb.
    rewrite Z.gtb_ltb, !Z.ltb_irrefl.
    destruct (at_value_read _ _ _ _ _ Hv ltac:(done)) as (s' & Hrf & Hr). rewrite Hb in Hrf.
    exists s'. unfold sbind. rewrite Hrf, (proj2 (Z.eqb_neq _ _)) by done. done.
Qed.

Lemma good_TInterface : (0 < fuel)%nat -> good fuel (smap DInterface (decodeInterface fuel)) (typed TInterface).
Proof.
  intros Hf. destruct fuel as [|f]; [lia|]. constructor.
  - eapply sound_smap; [apply decodeInterface_sound|]. naive_solver.
  - apply stops_bind, decodeInterface_stops.
  - apply smap_kf, decodeInterface_kf.
  - intros [] bs; try done. intros ->. apply item_bytes_pos.
  - intros [b|x|b|l|l|v|i] bs; try done. intros ->.
    destruct i; simpl; [apply raw_value_string|intros _; apply raw_value_list].
  - intros [b|x|b|l|l|v|i] bs; try done. intros -> Hok Hl Hb. by apply decodes_smap, decodeInterface_decodes.
Qed.
End scalars.

(** * Composite types *)

Lemma seq_of_mono {A} (P Q : bytes -> A -> Prop) bs vs :
  (forall b v, P b v -> Q b v) -> seq_of P bs vs -> seq_of Q bs vs.
Proof. intros HPQ (bss & H & ->). exists bss. split; [|done]. eapply Forall2_impl; eauto. Qed.

Section composite.
Context (fuel : nat).

(** The elements of a list are decoded one by one. *)
Lemma elems_decode dec T bss vs :
  good fuel dec T -> Forall2 (fun b v => T v b) bss vs ->
  bytes_ok (concat bss) -> zlen (concat bss) < 2 ^ 64 -> zlen (concat bss) < Z.of_nat fuel ->
  Forall2 (decodes dec) bss vs /\ Forall (fun b => 1 <= zlen b) bss.
Proof.
  intros Hg. induction 1 as [|b v bss vs Hb _ IH]; simpl; intros Hok Hl Hf; [done|].
  apply bytes_ok_app in Hok as [Hok1 Hok2]. rewrite zlen_app in *.
  pose proof (zlen_nonneg b). pose proof (zlen_nonneg (concat bss)).
  destruct IH as [IH1 IH2]; [done|lia|lia|]. split; constructor; try done.
  - apply (good_decodes _ _ _ Hg); done || lia.
  - by eapply good_pos.
Qed.

Lemma good_TSlice e :
  good fuel (makeDecoder fuel e) (typed e) -> good fuel (makeDecoder fuel (TSlice false e)) (typed (TSlice false e)).
Proof.
  intros Hg. constructor.
  - eapply sound_smap;
      [eapply decodeListSlice_sound; [apply (good_sound _ _ _ Hg)| |lia|lia]|].
    + intros bs v. apply (good_pos _ _ _ Hg).
    + intros bs vs (p & Hp & ->). by exists p.
  - apply stops_bind, decodeListSlice_stops.
  - apply smap_kf, decodeListSlice_kf.
  - intros [] bs; try done. intros (p & _ & ->). apply rlp_list_pos.
  - intros [] bs; try done. intros (p & _ & ->) _. apply raw_value_list.
  - intros [b|x|b|l|l|v|i] bs; try done. intros (p & (bss & Hbss & ->) & ->) Hok Hl Hf.
    pose proof (zlen_rlp_list_ge (concat bss)). apply rlp_list_ok in Hok.
    destruct (elems_decode _ _ _ _ Hg Hbss Hok ltac:(lia) ltac:(lia)) as [Hd Hpos].
    pose proof (concat_len _ Hpos). pose proof (Forall2_length _ _ _ Hbss).
    apply decodes_smap, decodeListSlice_decodes; [done|apply (good_stops _ _ _ Hg)|lia|lia|done].
Qed.

Lemma good_TArray n e :
  good fuel (makeDecoder fuel e) (typed e) -> good fuel (makeDecoder fuel (TArray n e)) (typed (TArray n e)).
Proof.
  intros Hg. constructor.
  - eapply sound_smap; [apply in_list_sound; [by right|]|].
    + intros s r0 size st Hrd Hok Hsz.
      destruct (array_elems_sound (makeDecoder fuel e) _ _ n s r0 _ (good_sound _ _ _ Hg) Hrd Hok)
        as [(s' & vs & bs & r & Hd & ? & Hs & Hlen & Hle & ?)|?]; [simpl; lia| |by right].
      left. exists s', vs, bs, r. split; [done|]. split; [done|].
      split; [exact (conj Hs Hlen)|]. simpl in Hle. split; [lia|done].
    + intros bs vs (p & Hp & ->). by exists p.
  - apply stops_bind, in_list_stops.
  - apply smap_kf, in_list_kf.
  - intros [] bs; try done. intros (p & _ & ->). apply rlp_list_pos.
  - intros [] bs; try done. intros (p & _ & ->) _. apply raw_value_list.
  - intros [b|x|b|l|l|v|i] bs; try done. intros (p & [(bss & Hbss & ->) <-] & ->) Hok Hl Hf.
    pose proof (zlen_rlp_list_ge (concat bss)). apply rlp_list_ok in Hok.
    destruct (elems_decode _ _ _ _ Hg Hbss Hok ltac:(lia) ltac:(lia)) as [Hd Hpos].
    apply decodes_smap, in_list_decodes; [by right|lia|]. intros s r st Hrd.
    destruct (array_elems_decodes _ bss l s r _ Hd Hrd) as (s' & ? & ?); [simpl; lia|]. by exists s'.
Qed.

Lemma good_TPtr e :
  good fuel (makeDecoder fuel e) (typed e) -> good fuel (makeDecoder fuel (TPtr false e)) (typed (TPtr false e)).
Proof.
  intros Hg. destruct Hg as [Hs Hst Hkf Hpos Hraw Hd]. constructor.
  - eapply sound_smap; [apply Hs|]. done.
  - by apply stops_bind.
  - by apply smap_kf.
  - intros [| | | | |[]|] bs; try done. apply Hpos.
  - intros [| | | | |[]|] bs; try done. apply Hraw.
  - intros [| | | | |[v|]|] bs; try done. intros ? ? ? ?. by apply (decodes_smap _ (fun v => DPtr (Some v))), Hd.
Qed.

(** The two encodings of a nil pointer are the empty string and the empty list. *)
Lemma value_nil k c x r r' :
  loose k c -> value_bytes k c ++ r = x :: r' -> x = 0x80 \/ x = 0xC0 -> k <> KByte /\ c = [].
Proof.
  intros Hl Hv Hx. pose proof (zlen_nonneg c). destruct (decide (k = KByte)) as [->|Hk].
  { destruct Hl as (y & -> & Hy). simpl in Hv. simplify_eq. lia. }
  split; [done|]. destruct c as [|y c]; [done|]. exfalso.
  assert (zlen (y :: c) < 2 ^ 64) as Hlen by (by destruct k).
  pose proof (zlen_nonneg c). rewrite value_bytes_head in Hv by done. rewrite zlen_cons in *.
  pose proof (big_bytes_bound (1 + zlen c) ltac:(lia)).
  destruct (Z.lt_ge_cases (1 + zlen c) 56).
  - rewrite rlp_head_short in Hv by lia. simpl in Hv. injection Hv as <- _. destruct k; [done|..]; simpl in Hx; lia.
  - rewrite rlp_head_long in Hv by lia. simpl in Hv. injection Hv as <- _.
    destruct (big_bytes_hd (1 + zlen c) ltac:(lia)) as (z & b & Hz & _).
    assert (1 <= zlen (big_bytes (1 + zlen c))) by (rewrite Hz, zlen_cons; pose proof (zlen_nonneg b); lia).
    destruct k; [done|..]; simpl in Hx; lia.
Qed.

Lemma csize_nil k c : loose k c -> ((csize k c =? 0) && negb (bool_decide (k = KByte))) = true <-> k <> KByte /\ c = [].
Proof.
  intros Hl. rewrite andb_true_iff, negb_true_iff, bool_decide_eq_false, Z.eqb_eq. split.
  - intros [H0 Hk]. split; [done|]. destruct k; [done|..]; simpl in H0;
      (destruct c; [done|rewrite zlen_cons in H0; pose proof (zlen_nonneg c); lia]).
  - intros [Hk ->]. split; [by destruct k|done].
Qed.

Lemma optional_sound e :
  good fuel (makeDecoder fuel e) (typed e) ->
  sound (Z.of_nat fuel) (makeDecoder fuel (TPtr true e)) (fun bs v => typed (TPtr true e) v bs).
Proof.
  intros Hg s r0 st Hrd Hok Ha. simpl makeDecoder. unfold makeOptionalPtrDecoder.
  destruct (s_Kind_total s r0 st Hrd Hok) as [(s1 & [k size] & HK)|[(s1 & HK & ? & Hr)|(s1 & x & HK & ?)]]; rewrite HK.
  2: { right. left. eexists. split; [done|]. split; [done|]. destruct Hr. split; [by eapply core_eq|done]. }
  2: { right. right. eauto. }
  destruct (s_Kind_value_inv _ _ _ _ _ _ Hrd Hok HK) as (c & r & -> & Hl & -> & Hle & Hv).
  destruct ((csize k c =? 0) && negb (bool_decide (k = KByte))) eqn:E.
  - apply csize_nil in E as [Hk ->]; [|done]. left. eexists _, _, (value_bytes k []), r. split; [done|].
    split; [done|]. split; [destruct k; [done|by left|by right]|]. split; [done|].
    destruct Hv as (_ & _ & _ & Hv). split; [|done].
    destruct k; [done|..]; destruct Hv as [Hc _]; rewrite Z.sub_0_r in Hc; by eapply core_eq.
  - rewrite (smap_kf _ _ (good_kf _ _ _ Hg) _ _ _ HK).
    assert (sound (Z.of_nat fuel) (smap (fun v => DPtr (Some v)) (makeDecoder fuel e))
      (fun bs v => exists w, v = DPtr (Some w) /\ typed e w bs)) as Hs.
    { eapply sound_smap; [apply (good_sound _ _ _ Hg)|]. eauto. }
    destruct (Hs s _ st Hrd Hok Ha) as [(s' & v & bs & r' & -> & Heq & (w & -> & Hw) & ?)|?]; [left|by right].
    exists s', (DPtr (Some w)), bs, r'. split; [done|]. split; [done|]. split; [|done]. split; [done|].
    assert (forall x, x = 0x80 \/ x = 0xC0 -> bs <> [x]) as Hx.
    { intros x Hx ->. apply (value_nil _ _ _ _ _ Hl) in Heq; [|done].
      apply (csize_nil k c Hl) in Heq. congruence. }
    split; apply Hx; [by left|by right].
Qed.

Lemma optional_decodes e v bs :
  good fuel (makeDecoder fuel e) (typed e) ->
  typed (TPtr true e) v bs -> bytes_ok bs -> zlen bs < 2 ^ 64 -> zlen bs < Z.of_nat fuel ->
  decodes (makeDecoder fuel (TPtr true e)) bs v.
Proof.
  intros Hg Ht Hok Hl Hf s r st Hrd Ha. simpl makeDecoder. unfold makeOptionalPtrDecoder.
  destruct v as [| | | | |[v|]|]; try done; simpl in Ht.
  - destruct Ht as (Ht & H80 & HC0). destruct (good_raw _ _ _ Hg _ _ Ht Hok Hl) as (k & c & Hlo & ->).
    destruct (s_Kind_value s k c r st Hrd Hlo Ha) as (s1 & HK & _). rewrite HK.
    destruct ((csize k c =? 0) && negb (bool_decide (k = KByte))) eqn:E.
    { apply csize_nil in E as [Hk ->]; [|done]. by destruct k. }
    rewrite (smap_kf _ _ (good_kf _ _ _ Hg) _ _ _ HK).
    pose proof (good_decodes _ _ _ Hg _ _ Ht Hok Hl Hf) as Hd.
    exact (decodes_smap _ (fun v => DPtr (Some v)) _ _ Hd s r st Hrd Ha).
  - assert (exists k, k <> KByte /\ bs = value_bytes k []) as (k & Hk & ->)
      by (destruct Ht as [->| ->]; [by exists KString|by exists KList]).
    assert (loose k []) as Hlo by (by destruct k).
    destruct (s_Kind_value s k [] r st Hrd Hlo Ha) as (s1 & -> & Hv).
    rewrite (proj2 (csize_nil k [] Hlo)) by done. eexists. split; [done|].
    destruct Hv as (_ & _ & _ & Hv). split; [|done].
    destruct k; [done|..]; destruct Hv as [Hc _]; rewrite Z.sub_0_r in Hc; by eapply core_eq.
Qed.

Lemma good_TPtr_nilOK e :
  good fuel (makeDecoder fuel e) (typed e) -> good fuel (makeDecoder fuel (TPtr true e)) (typed (TPtr true e)).
Proof.
  intros Hg. constructor.
  - by apply optional_sound.
  - intros s r st Hrd He. simpl. unfold makeOptionalPtrDecoder.
    destruct (s_Kind_stops s r st Hrd He) as (s' & -> & [? ?]). eexists. split; [done|].
    split; [by eapply core_eq|done].
  - intros s s1 v HK. simpl. unfold makeOptionalPtrDecoder. by rewrite (s_Kind_kf _ _ _ HK).
  - intros [| | | | |[]|] bs; try done; simpl; [intros [? _]; by eapply good_pos|by intros [->| ->]].
  - intros [| | | | |[]|] bs; try done; simpl; [intros [? _]; by eapply good_raw|].
    intros [->| ->] _ _; [by exists KString, []|by exists KList, []].
  - intros v bs Ht. by apply optional_decodes.
Qed.

(** * Structs *)

(** What a struct needs to know of a field's type. *)
Definition field_good (t : rtype) : Prop :=
  (type_ok t = true -> good fuel (makeDecoder fuel t) (typed t)) /\
  match t with
  | TSlice true e =>
      type_ok e = true -> good fuel (makeDecoder fuel e) (typed e)
  | _ => True
  end.

Lemma tail_sound e :
  good fuel (makeDecoder fuel e) (typed e) ->
  sound (Z.of_nat fuel) (makeDecoder fuel (TSlice true e)) (fun bs v => typed (TSlice true e) v bs).
Proof.
  intros Hg. eapply (sound_smap _ _ _ (seq_of (fun b v => typed e v b))); [|intros bs vs Hs; by exists bs].
  intros s r0 st Hrd Hok Ha.
  destruct (slice_elems_sound _ _ _ fuel s r0 st (good_sound _ _ _ Hg) (fun bs v => good_pos _ _ _ Hg v bs) Hrd Hok Ha Ha)
    as [(s' & vs & bs & r & ? & ? & ? & ? & ? & _)|?]; [left; by exists s', vs, bs, r|by right; right].
Qed.

Lemma tail_decodes_end e v bs :
  good fuel (makeDecoder fuel e) (typed e) ->
  typed (TSlice true e) v bs -> bytes_ok bs -> zlen bs < 2 ^ 64 -> zlen bs < Z.of_nat fuel ->
  decodes_end (makeDecoder fuel (TSlice true e)) bs v.
Proof.
  intros Hg Ht Hok Hl Hf s r st Hrd Ha He. destruct v as [| | |l| | |]; try done.
  destruct Ht as (p & (bss & Hbss & ->) & ->).
  destruct (elems_decode _ _ _ _ Hg Hbss Hok ltac:(lia) ltac:(lia)) as [Hd Hpos].
  pose proof (concat_len _ Hpos). pose proof (Forall2_length _ _ _ Hbss).
  destruct (slice_elems_decodes _ fuel bss l s r st Hd (good_stops _ _ _ Hg) ltac:(lia) Hrd Ha He) as (s' & Hs & ?).
  exists s'. simpl. unfold smap, sbind. by rewrite Hs.
Qed.

(** A struct's fields, by their position: every field is an ordinary one, or it is the last
    and takes the rest of the list. *)
Lemma fields_ok_cons f fields :
  fields_ok type_ok (f :: fields) = true ->
  (type_ok f = true /\ fields_ok type_ok fields = true) \/
  (exists e, f = TSlice true e /\ fields = [] /\ type_ok e = true).
Proof.
  intros H. assert (type_ok f && fields_ok type_ok fields = true \/
    exists e, f = TSlice true e /\ fields = [] /\ type_ok e = true) as [H'|?]; [|by left; apply andb_true_iff|by right].
  destruct f as [| |b| | | |n|[] e|n e|fs|nl e|]; try (by left). destruct fields; [right; eauto|by left].
Qed.

Lemma fields_sound fields s r0 st :
  Forall field_good fields -> fields_ok type_ok fields = true ->
  ready s r0 st -> bytes_ok r0 -> avail (zlen r0) st < Z.of_nat fuel ->
  (exists s' vs bs r, decodeFields (makeDecoder fuel) fields s = (s', Ok vs) /\ r0 = bs ++ r /\
     fields_rel typed fields vs bs /\ zlen bs <= avail (zlen r0) st /\ ready s' r (advance st (zlen bs))) \/
  (exists s' e, decodeFields (makeDecoder fuel) fields s = (s', Err e) /\ e <> EOL).
Proof.
  intros Hall. revert s r0 st. induction Hall as [|f fields [Hf Hft] _ IH]; intros s r0 st Hfok Hrd Hok Ha; simpl;
    pose proof (stack_ok_avail _ _ (core_ok _ _ _ (proj1 Hrd))) as Hav0.
  { left. exists s, [], [], r0. rewrite zlen_nil, advance_0. repeat (split; [done|]). split; [lia|done]. }
  assert (sound (Z.of_nat fuel) (makeDecoder fuel f) (fun bs v => typed f v bs) /\ fields_ok type_ok fields = true) as [Hs Hfok'].
  { destruct (fields_ok_cons _ _ Hfok) as [[Ht ?]|(e & -> & -> & Ht)]; [|by split; [apply tail_sound, Hft|]].
    split; [apply (good_sound _ _ _ (Hf Ht))|done]. }
  destruct (Hs s r0 st Hrd Hok Ha) as [(s1 & v & b & r & -> & -> & HPv & Hle & Hr)|[(s1 & -> & ?)|(s1 & e & -> & He)]].
  - pose proof (zlen_nonneg b). apply bytes_ok_app in Hok as [_ Hok].
    pose proof (avail_app b r st) as Hav.
    destruct (IH s1 r (advance st (zlen b)) Hfok' Hr Hok ltac:(lia))
      as [(s' & vs & bs & r' & Hd & -> & Hrel & Hle' & Hr')|(s' & e & Hd & He)];
      unfold smap, sbind; rewrite Hd; [left|right; by exists s', e].
    exists s', (v :: vs), (b ++ bs), r'. rewrite advance_advance in Hr'. rewrite zlen_app.
    split; [done|]. split; [by rewrite app_assoc|]. split; [by exists b, bs|]. split; [lia|done].
  - right. by eexists _, _.
  - right. exists s1, e. by destruct e.
Qed.

Lemma fields_decodes fields vs bs s r st :
  Forall field_good fields -> fields_ok type_ok fields = true -> fields_rel typed fields vs bs ->
  bytes_ok bs -> zlen bs < 2 ^ 64 -> zlen bs < Z.of_nat fuel ->
  ready s (bs ++ r) st -> zlen bs <= avail (zlen (bs ++ r)) st -> at_end (advance st (zlen bs)) ->
  exists s', decodeFields (makeDecoder fuel) fields s = (s', Ok vs) /\ ready s' r (advance st (zlen bs)).
Proof.
  intros Hall. revert vs bs s st. induction Hall as [|f fields [Hf Hft] _ IH];
    intros vs bs s st Hfok Hrel Hok Hl Hfu Hrd Ha He; destruct vs as [|v vs]; try done; simpl in *.
  { subst. rewrite zlen_nil, advance_0. by exists s. }
  destruct Hrel as (b & bs' & -> & Hb & Hrel). apply bytes_ok_app in Hok as [Hok1 Hok2].
  pose proof (zlen_nonneg b). pose proof (zlen_nonneg bs'). pose proof (avail_app b (bs' ++ r) st) as Hav.
  rewrite <- app_assoc in *. rewrite zlen_app in *. rewrite <- advance_advance in *.
  assert (exists s', makeDecoder fuel f s = (s', Ok v) /\ ready s' (bs' ++ r) (advance st (zlen b)) /\
    fields_ok type_ok fields = true) as (s1 & -> & Hr1 & Hfok').
  { destruct (fields_ok_cons _ _ Hfok) as [[Ht ?]|(e & -> & -> & Ht)].
    - destruct (good_decodes _ _ _ (Hf Ht) v b Hb Hok1 ltac:(lia) ltac:(lia) s _ st Hrd ltac:(lia)) as (s1 & ? & ?).
      by exists s1.
    - destruct vs; [simpl in Hrel; subst bs'|done]. rewrite zlen_nil, advance_0 in He.
      destruct (tail_decodes_end e v b (Hft Ht) Hb Hok1 ltac:(lia) ltac:(lia) s _ st Hrd ltac:(lia) He) as (s1 & ? & ?).
      by exists s1. }
  destruct (IH vs bs' s1 (advance st (zlen b)) Hfok' Hrel Hok2) as (s' & Hd & ?); try done; try lia.
  { rewrite !zlen_app in *. lia. }
  exists s'. unfold smap, sbind. by rewrite Hd.
Qed.

Lemma makeStructDecoder_eq fields s :
  makeStructDecoder (makeDecoder fuel) fields s
  = smap DStruct (in_list (swrap s_ListEnd) (fun _ => decodeFields (makeDecoder fuel) fields)) s.
Proof.
  unfold makeStructDecoder, smap, in_list, sbind. destruct (swrap s_List s) as [s1 [?|?| |]]; try done.
  destruct (decodeFields _ _ s1) as [s2 [?|?| |]]; try done. by destruct (swrap s_ListEnd s2) as [s3 [?|?| |]].
Qed.

Lemma good_TStruct fields :
  Forall field_good fields -> fields_ok type_ok fields = true ->
  good fuel (makeDecoder fuel (TStruct fields)) (typed (TStruct fields)).
Proof.
  intros Hall Hfok. constructor.
  - eapply sound_ext; [apply makeStructDecoder_eq|]. eapply sound_smap; [apply in_list_sound; [by right|]|].
    + intros s r0 size st Hrd Hok Hsz.
      destruct (fields_sound fields s r0 _ Hall Hfok Hrd Hok) as [(s' & vs & bs & r & ? & ? & Hrel & Hle & ?)|?];
        [simpl; lia| |by right].
      left. exists s', vs, bs, r. split; [done|]. split; [done|]. split; [exact Hrel|].
      simpl in Hle. split; [lia|done].
    + intros bs vs (p & Hp & ->). by exists p.
  - eapply stops_ext; [apply makeStructDecoder_eq|]. apply stops_bind, in_list_stops.
  - intros s s1 v HK. cbn [makeDecoder]. rewrite !makeStructDecoder_eq. by eapply smap_kf; [apply in_list_kf|].
  - intros [] bs; try done. intros (p & _ & ->). apply rlp_list_pos.
  - intros [] bs; try done. intros (p & _ & ->) _. apply raw_value_list.
  - intros [b|x|b|l|l|v|i] bs; try done. intros (p & Hrel & ->) Hok Hl Hf.
    pose proof (zlen_rlp_list_ge p). apply rlp_list_ok in Hok.
    eapply decodes_ext; [apply makeStructDecoder_eq|]. apply decodes_smap, in_list_decodes; [by right|lia|].
    intros s r st Hrd.
    destruct (fields_decodes fields l p s r (ListPos 0 (zlen p) :: st) Hall Hfok Hrel Hok)
      as (s' & ? & ?); simpl; try done; try lia. by exists s'.
Qed.
End composite.

(** * All types *)

Section rtype_rect'.
Variable P : rtype -> Prop.
Hypothesis Hscalar : forall t, match t with
  | TSlice _ _ | TArray _ _ | TStruct _ | TPtr _ _ => True | _ => P t end.
Hypothesis Hslice : forall tail e, P e -> P (TSlice tail e).
Hypothesis Harray : forall n e, P e -> P (TArray n e).
Hypothesis Hstruct : forall fields, Forall P fields -> P (TStruct fields).
Hypothesis Hptr : forall nilOK e, P e -> P (TPtr nilOK e).
Fixpoint rtype_rect' (t : rtype) : P t :=
  match t with
  | TSlice tail e => Hslice tail e (rtype_rect' e)
  | TArray n e => Harray n e (rtype_rect' e)
  | TStruct fields =>
      Hstruct fields ((fix go l := match l return Forall P l with
                                   | [] => Forall_nil_2 _
                                   | f :: l => Forall_cons_2 _ _ _ (rtype_rect' f) (go l)
                                   end) fields)
  | TPtr nilOK e => Hptr nilOK e (rtype_rect' e)
  | t => Hscalar t
  end.
End rtype_rect'.

Lemma makeDecoder_good fuel t :
  (0 < fuel)%nat -> field_good fuel t.
Proof.
  intros Hf. revert t. apply rtype_rect'; [intros t|intros tail e IH|intros n e IH|intros fields IH|intros nilOK e IH].
  - destruct t; try done; (split; [|done]); intros Ht.
    + apply good_TRawValue.
    + apply good_TBigInt.
    + by apply good_TUint.
    + apply good_TBool.
    + apply good_string.
    + apply good_string.
    + by apply good_TByteArray.
    + by apply good_TInterface.
  - destruct IH as [IH _]. destruct tail; split; try done; intros Ht. by apply good_TSlice, IH.
  - destruct IH as [IH _]. split; [|done]. intros Ht. by apply good_TArray, IH.
  - split; [|done]. intros Ht. by apply good_TStruct.
  - destruct IH as [IH _]. split; [|done]. intros Ht.
    destruct nilOK; [by apply good_TPtr_nilOK, IH|by apply good_TPtr, IH].
Qed.

Lemma NewStream_ready b : zlen b < 2 ^ 64 -> ready (NewStream b (u64 (zlen b))) b [].
Proof.
  intros Hb. pose proof (zlen_nonneg b). unfold NewStream. rewrite u64_small by (unfold is_u64; lia).
  case_match; (split; [|done]); by constructor.
Qed.

Lemma DecodeBytes_typed t v b :
  type_ok t = true -> bytes_ok b -> zlen b < 2 ^ 64 -> typed t v b ->
  DecodeBytes (makeDecoder (S (length b)) t) b = Ok v.
Proof.
  intros Ht Hok Hlen Hv. pose proof (NewStream_ready b Hlen) as Hrd.
  destruct (makeDecoder_good (S (length b)) t ltac:(lia)) as [Hg _]. specialize (Hg Ht).
  unfold DecodeBytes.
  destruct (good_decodes _ _ _ Hg v b Hv Hok Hlen ltac:(unfold zlen; lia) (NewStream b (u64 (zlen b))) [] [])
    as (s' & -> & [Hc _]); [by rewrite app_nil_r|simpl; rewrite app_nil_r; lia|].
  by rewrite (core_r _ _ _ Hc).
Qed.

(** * What the encoder writes is typed *)

Lemma rlp_head_ok small large n :
  0 <= small <= 200 -> 0 <= large <= 247 -> 0 <= n < 2 ^ 64 -> bytes_ok (rlp_head small large n).
Proof.
  intros Hs Hl Hn. unfold rlp_head. pose proof (big_bytes_bound n Hn). case_match; apply bytes_ok_cons.
  - split; [lia|constructor].
  - split; [lia|apply big_bytes_ok].
Qed.

Lemma rlp_list_bytes p : bytes_ok p -> zlen p < 2 ^ 64 -> bytes_ok (rlp_list p).
Proof.
  intros Hp Hl. pose proof (zlen_nonneg p). apply bytes_ok_app. split; [|done]. apply rlp_head_ok; lia.
Qed.

Lemma rlp_string_bytes b : bytes_ok b -> zlen b < 2 ^ 64 -> bytes_ok (rlp_string b).
Proof.
  intros Hb Hl. pose proof (zlen_nonneg b).
  assert (bytes_ok (rlp_head 0x80 0xB7 (zlen b) ++ b)) by (apply bytes_ok_app; split; [apply rlp_head_ok; lia|done]).
  unfold rlp_string. destruct b as [|x [|]]; try done. by case_match.
Qed.

(** [rv] encodes to [bs], which satisfies [T] unless it is too long for a slice. *)
Definition encodes (rv : rval) (bs : bytes) (T : bytes -> Prop) : Prop :=
  rlp_spec rv = Ok bs /\ rval_ok rv = true /\ (zlen bs < 2 ^ 64 -> bytes_ok bs /\ T bs).

Lemma encodes_all {A} (T : A -> bytes -> Prop) vs rs :
  Forall2 (fun v r => exists bs, encodes r bs (T v)) vs rs ->
  exists bs, spec_all rlp_spec rs = Ok bs /\ forallb rval_ok rs = true /\
    (zlen bs < 2 ^ 64 -> bytes_ok bs /\ seq_of (fun b v => T v b) bs vs).
Proof.
  induction 1 as [|v r vs rs (b & Hb & Hrok & Ht) _ (bs & Hbs & Hok & Hts)]; simpl.
  - exists []. split; [done|]. split; [done|]. intros _. split; [constructor|]. exists []. by split; [constructor|].
  - exists (b ++ bs). rewrite Hb, Hrok, Hok. simpl. rewrite Hbs. split; [done|]. split; [done|].
    rewrite zlen_app. pose proof (zlen_nonneg b). pose proof (zlen_nonneg bs). intros Hl.
    destruct (Ht ltac:(lia)) as [? ?], (Hts ltac:(lia)) as [? (bss & ? & ->)].
    split; [by apply bytes_ok_app|]. exists (b :: bss). split; [by constructor|done].
Qed.

Lemma encodes_fields (T : rtype -> dval -> bytes -> Prop) fields vs rs :
  fields_held (fun f v r => exists bs, encodes r bs (T f v)) fields vs rs ->
  exists bs, spec_all rlp_spec rs = Ok bs /\ forallb rval_ok rs = true /\
    (zlen bs < 2 ^ 64 -> bytes_ok bs /\ fields_rel T fields vs bs).
Proof.
  revert vs rs. induction fields as [|f fields IH]; intros [|v vs] [|r rs]; try done; simpl.
  - intros _. exists []. split; [done|]. split; [done|]. by split; [constructor|].
  - intros [(b & Hb & Hrok & Ht) Hrest]. destruct (IH vs rs Hrest) as (bs & Hbs & Hok & Hts).
    exists (b ++ bs). rewrite Hb, Hrok, Hok. simpl. rewrite Hbs. split; [done|]. split; [done|].
    rewrite zlen_app. pose proof (zlen_nonneg b). pose proof (zlen_nonneg bs). intros Hl.
    destruct (Ht ltac:(lia)) as [? ?], (Hts ltac:(lia)) as [? ?].
    split; [by apply bytes_ok_app|]. by exists b, bs.
Qed.

Lemma fields_held_impl (R Q : rtype -> dval -> rval -> Prop) fields vs rs :
  Forall (fun f => forall v r, R f v r -> Q f v r) fields -> fields_held R fields vs rs -> fields_held Q fields vs rs.
Proof.
  intros Hall. revert vs rs. induction Hall as [|f fields Hf _ IH]; intros [|v vs] [|r rs]; try done. simpl.
  intros [? ?]. by split; [apply Hf|apply IH].
Qed.

Lemma encodes_string rv b T :
  rlp_spec rv = Ok (rlp_string b) -> rval_ok rv = true -> bytes_ok b -> T (rlp_string b) ->
  exists bs, encodes rv bs T.
Proof.
  intros Hs Hr Hb HT. exists (rlp_string b). split; [done|]. split; [done|]. intros Hl.
  pose proof (zlen_rlp_string_ge b). split; [apply rlp_string_bytes; done || lia|done].
Qed.

Lemma encodes_list rv p (T Q : bytes -> Prop) :
  rlp_spec rv = Ok (rlp_list p) -> rval_ok rv = true -> (zlen p < 2 ^ 64 -> bytes_ok p /\ Q p) ->
  (Q p -> T (rlp_list p)) -> exists bs, encodes rv bs T.
Proof.
  intros Hs Hr Hb HT. exists (rlp_list p). split; [done|]. split; [done|]. intros Hl.
  pose proof (zlen_rlp_list_ge p). destruct (Hb ltac:(lia)). split; [apply rlp_list_bytes; done || lia|auto].
Qed.

Lemma item_encodes i : item_ok i -> exists bs, encodes (item_rval i) bs (fun bs => bs = item_bytes i).
Proof.
  induction i as [b|l IH] using item_rect'; simpl; intros Hi.
  - by eapply encodes_string.
  - destruct (encodes_all (fun i bs => bs = item_bytes i) l (map (fun i => RInterface (Some (item_rval i))) l))
      as (bs & Hbs & Hok & Ht).
    { apply Forall2_fmap_r. clear -IH Hi. induction IH as [|i l Hit _ IHl]; [constructor|].
      simpl in Hi. apply Forall_cons in Hi as [Hi1 Hi2]. constructor; [|by apply IHl]. by apply Hit. }
    eapply (encodes_list _ bs _ (fun bs => bs = concat (map item_bytes l))); simpl; [by rewrite Hbs|done| |by intros ->].
    intros Hl. destruct (Ht Hl) as [? (bss & Hbss & ->)]. split; [done|]. clear -Hbss. f_equal.
    induction Hbss as [|? ? ? ? -> ? IHl]; simpl; congruence.
Qed.

Lemma held_scalar t v rv :
  match t with TSlice _ _ | TArray _ _ | TStruct _ | TPtr _ _ => True
  | _ => held t v rv -> exists bs, encodes rv bs (typed t v) end.
Proof.
  destruct t as [| |bits| | | |n| | | | |]; try done; destruct v as [b|i|b|l|l|p|i]; try done.
  - destruct rv; try done. intros (-> & Hr & Hb). by exists b.
  - destruct rv; try done. intros (-> & Hi). apply (encodes_string _ (big_bytes i)); try done; [|apply big_bytes_ok].
    simpl. unfold rlp_big. by rewrite (proj2 (Z.ltb_ge _ _)) by lia.
  - destruct rv; try done. intros (-> & Hi & Hb). assert (2 ^ bits <= 2 ^ 64) by (apply Z.pow_le_mono_r; lia).
    apply (encodes_string _ (big_bytes i)); try done; [|apply big_bytes_ok].
    simpl. rewrite (proj2 (Z.leb_le _ _)), (proj2 (Z.ltb_lt _ _)) by lia. done.
  - destruct rv; try done. intros ->. apply (encodes_string _ (if b then [1] else [])); try done.
    destruct b; repeat constructor; unfold is_byte; lia.
  - destruct rv; try done. intros (-> & Hb). by apply (encodes_string _ b).
  - destruct rv; try done. intros (-> & Hb). by apply (encodes_string _ b).
  - destruct rv; try done. intros (-> & Hn & Hb). by apply (encodes_string _ b).
  - destruct rv as [| |[rv|]| | | | | | | | | | | | |]; try done. intros (-> & Hi).
    destruct (item_encodes i Hi) as (bs & ? & ? & ?). by exists bs.
Qed.

Lemma held_encodes t : forall v rv, held t v rv -> exists bs, encodes rv bs (typed t v).
Proof.
  revert t. apply (rtype_rect' (fun t => forall v rv, held t v rv -> exists bs, encodes rv bs (typed t v)));
    [intros t|intros tail e IH|intros n e IH|intros fields IH|intros nilOK e IH].
  - pose proof (held_scalar t) as Hs. by destruct t.
  - intros [| | |l| | |] rv; try done. destruct rv; try done. intros [-> Hl].
    destruct (encodes_all (typed e) l vs) as (bs & Hbs & Hok & Ht).
    { eapply Forall2_impl; [exact Hl|]. apply IH. }
    destruct tail.
    + exists bs. split; [simpl; by rewrite Hbs|]. split; [done|]. intros Hlen. destruct (Ht Hlen). split; [done|].
      by exists bs.
    + eapply (encodes_list _ bs _ (fun bs => seq_of (fun b v => typed e v b) bs l)); [simpl; by rewrite Hbs|done|exact Ht|]. intros ?. by exists bs.
  - intros [| | |l| | |] rv; try done. destruct rv as [| | | | | | | | | |[] vs| | | | |]; try done. intros [Hn Hl].
    destruct (encodes_all (typed e) l vs) as (bs & Hbs & Hok & Ht).
    { eapply Forall2_impl; [exact Hl|]. apply IH. }
    eapply (encodes_list _ bs _ (fun bs => seq_of (fun b v => typed e v b) bs l)); [simpl; by rewrite Hbs|done|exact Ht|]. intros ?. by exists bs.
  - intros [| | | |l| |] rv; try done. destruct rv; try done. intros Hl.
    destruct (encodes_fields typed fields l fields0) as (bs & Hbs & Hok & Ht); [by eapply fields_held_impl|].
    eapply (encodes_list _ bs _ (fields_rel typed fields l)); [simpl; by rewrite Hbs|done|exact Ht|]. intros ?. by exists bs.
  - intros [| | | | |[v|]|] rv; try (by destruct nilOK); destruct nilOK; try done; destruct rv; try done.
    + intros (Hh & H80 & HC0). destruct (IH _ _ Hh) as (bs & Hbs & ? & Ht). exists bs. split; [done|].
      split; [done|]. intros Hlen. destruct (Ht Hlen). split; [done|]. simpl. rewrite Hbs in *.
      split; [done|]. split; congruence.
    + intros Hh. exact (IH _ _ Hh).
    + intros _. apply (encodes_string _ []); try done; [constructor|by left].
    + intros _. eapply (encodes_list _ [] _ (fun _ => True)); try done; [by split; [constructor|]|by right].
    + intros [Hz [Hs|Hs]]; [apply (encodes_string _ [])|eapply (encodes_list _ [] _ (fun _ => True))];
        try done; try (by left); try (by right); try constructor; by try constructor.
Qed.

(** ** Reflected values built from others *)

(** [rv] is written as an encoding of [v] at type [t]. *)
Definition written (t : rtype) (v : dval) (rv : rval) : Prop := exists bs, encodes rv bs (typed t v).

Lemma written_big i : 0 <= i -> written (TPtr false TBigInt) (DPtr (Some (DUint i))) (RBigIntPtr (Some i)).
Proof.
  intros Hi. apply (encodes_string _ (big_bytes i)); try done; [|apply big_bytes_ok]. simpl. unfold rlp_big.
  by rewrite (proj2 (Z.ltb_ge _ _)) by lia.
Qed.

Lemma written_ptr t v rv : written t v rv -> written (TPtr false t) (DPtr (Some v)) (RPtr rv).
Proof. done. Qed.

(** An encoder that encodes one other value. *)
Lemma written_encoder t v rv : written t v rv -> written t v (REncoder [rv] false).
Proof. intros (bs & H1 & H2 & H3). exists bs. split; [|by cbn; rewrite H2]. cbn. rewrite H1. cbn. by rewrite app_nil_r. Qed.

Lemma written_slice t vs rs : Forall2 (written t) vs rs -> written (TSlice false t) (DList vs) (RSlice false rs).
Proof.
  intros (bs & Hbs & Hok & Ht)%encodes_all. eapply (encodes_list _ bs _ (fun bs => seq_of (fun b v => typed t v b) bs vs)); [simpl; by rewrite Hbs|done|exact Ht|].
  intros ?. by exists bs.
Qed.

Lemma written_struct fields vs rs : fields_held written fields vs rs -> written (TStruct fields) (DStruct vs) (RStruct rs).
Proof.
  intros (bs & Hbs & Hok & Ht)%encodes_fields. eapply (encodes_list _ bs _ (fields_rel typed fields vs)); [simpl; by rewrite Hbs|done|exact Ht|].
  intros ?. by exists bs.
Qed.

Lemma written_roundtrip pooled t v rv : type_ok t = true -> written t v rv -> (forall bs, rlp_spec rv = Ok bs -> zlen bs < 2 ^ 64) ->
  exists b, EncodeToBytes pooled rv = Ok b /\ Encode pooled rv = Ok b /\ rlp_spec rv = Ok b /\ bytes_ok b /\ DecodeBytes (makeDecoder (S (length b)) t) b = Ok v.
Proof.
  intros Ht (b & Hb & Hrok & HT) Hlen. exists b. destruct (HT (Hlen b Hb)).
  split_and!; [apply EncodeToBytes_ok; eauto|apply Encode_ok; eauto|done|done|apply DecodeBytes_typed; eauto].
Qed.

(** Different values are written differently. *)
Lemma written_inj t v1 v2 r1 r2 b : type_ok t = true -> written t v1 r1 -> written t v2 r2 -> rlp_spec r1 = Ok b -> rlp_spec r2 = Ok b -> zlen b < 2 ^ 64 -> v1 = v2.
Proof.
  intros Ht H1 H2 E1 E2 Hl. destruct (written_roundtrip (EncBuf [] [] 0) t v1 r1 Ht H1) as (b1 & _ & _ & E1' & _ & D1); [intros ? E; rewrite E in *; congruence|].
  destruct (written_roundtrip (EncBuf [] [] 0) t v2 r2 Ht H2) as (b2 & _ & _ & E2' & _ & D2); [intros ? E; rewrite E in *; congruence|]. rewrite E1 in E1'. rewrite E2 in E2'. injection E1' as <-. injection E2' as <-. rewrite D1 in D2. by injection D2.
Qed.

(** * Properties *)

(** C39.  For every type the decoder is generated for in which no array of a single byte
    occurs, [DecodeBytes] accepts exactly the canonical encodings of values of that type and
    returns the encoded value; on any other input it returns an error.  The element loops end
    within the length of the input.  (Arrays of a single byte are decoded wrongly:
    [decodeByteArray_stuck].) *)
Theorem DecodeBytes_spec t b :
  type_ok t = true -> bytes_ok b -> zlen b < 2 ^ 64 ->
  (forall v, DecodeBytes (makeDecoder (S (length b)) t) b = Ok v <-> typed t v b) /\
  ((exists v, DecodeBytes (makeDecoder (S (length b)) t) b = Ok v) \/
   exists e, DecodeBytes (makeDecoder (S (length b)) t) b = Err e).
Proof.
  intros Ht Hok Hlen. pose proof (NewStream_ready b Hlen) as Hrd.
  pose proof (fun v => DecodeBytes_typed t v b Ht Hok Hlen) as Hin.
  destruct (makeDecoder_good (S (length b)) t ltac:(lia)) as [Hg _]. specialize (Hg Ht).
  destruct (good_sound _ _ _ Hg _ _ _ Hrd Hok ltac:(simpl; unfold zlen; lia))
    as [(s' & v & bs & r & Hd & -> & Hv & _ & [Hc _])|[(s' & _ & [] & _)|(s' & e & Hd & _)]].
  - unfold DecodeBytes in *. rewrite Hd, (core_r _ _ _ Hc) in *.
    destruct r as [|x r].
    + rewrite app_nil_r in *. split; [|eauto]. intros w. split; [by intros [= <-]|apply Hin].
    + rewrite zlen_cons in *. pose proof (zlen_nonneg r). rewrite Z.gtb_ltb, (proj2 (Z.ltb_lt _ _)) in * by lia.
      split; [|eauto]. intros w. split; [done|apply Hin].
  - unfold DecodeBytes in *. rewrite Hd in *. split; [|eauto]. intros w. split; [done|apply Hin].
Qed.

Lemma DecodeBytes_spec_witness :
  let t := TStruct [TUint 64; TPtr true (TByteArray 2); TSlice true TString] in
  let b := [0xC6; 5; 0x80; 0x82; 1; 2; 0x80] in
  let v := DStruct [DUint 5; DPtr None; DList [DBytes [1; 2]; DBytes []]] in
  DecodeBytes (makeDecoder (S (length b)) t) b = Ok v /\ typed t v b.
Proof.
  intros t b v. assert (DecodeBytes (makeDecoder (S (length b)) t) b = Ok v) as Hv by reflexivity.
  split; [exact Hv|]. refine (proj1 (proj1 (DecodeBytes_spec t b _ _ _) v) Hv); [reflexivity| |reflexivity].
  repeat constructor; lia.
Defined.

(**  Decoding what was encoded gives the value back: for every type and every value a
    reflected value of that type can hold, the encoder succeeds and the decoder for the
    type returns the value from the encoder's output. *)
Theorem encode_decode_roundtrip pooled t v rv :
  type_ok t = true -> held t v rv -> (forall bs, rlp_spec rv = Ok bs -> zlen bs < 2 ^ 64) ->
  exists b, EncodeToBytes pooled rv = Ok b /\ DecodeBytes (makeDecoder (S (length b)) t) b = Ok v.
Proof.
  intros Ht Hh%held_encodes Hlen. destruct (written_roundtrip pooled t v rv Ht Hh Hlen) as (b & ? & _ & _ & _ & ?). by exists b.
Qed.

Lemma encode_decode_roundtrip_witness :
  exists b,
    EncodeToBytes (EncBuf [9] [] 0)
      (RStruct [RUint 1024; RPtr (RByteArray [7; 8]); RNilPtrList; RSlice true [RString [3]; RString []]]) = Ok b /\
    DecodeBytes (makeDecoder (S (length b))
      (TStruct [TUint 64; TPtr true (TByteArray 2); TPtr true (TStruct []); TSlice true TString])) b
    = Ok (DStruct [DUint 1024; DPtr (Some (DBytes [7; 8])); DPtr None; DList [DBytes [3]; DBytes []]]).
Proof.
  apply encode_decode_roundtrip; [reflexivity| |intros bs [= <-]; reflexivity].
  simpl. repeat split; try lia; try done; repeat constructor; lia.
Defined.

(**  Decoding a slice of one-byte arrays does not end on an element with value zero:
    [decodeByteArray] drops the error of [Uint], which leaves the stream on the same value,
    so the element loop reads it again and again, whatever the number of rounds. *)
Theorem decodeByteArray_stuck fuel :
  DecodeBytes (decodeListSlice fuel (decodeByteArray 1)) [0xC1; 0x00] = NoFuel.
Proof.
  set (s0 := MkStream [0x00] 1 true None 0 0 None [ListPos 0 1]).
  set (s1 := MkStream [] 0 true (Some KByte) 0 0 None [ListPos 1 1]).
  assert (swrap s_List (NewStream [0xC1; 0x00] (u64 (zlen [0xC1; 0x00]))) = (s0, Ok 1)) as HL by reflexivity.
  assert (decodeByteArray 1 s0 = (s1, Ok (DBytes [0]))) as H0 by reflexivity.
  assert (decodeByteArray 1 s1 = (s1, Ok (DBytes [0]))) as H1 by reflexivity.
  unfold DecodeBytes, decodeListSlice, sbind. rewrite HL. change (1 =? 0) with false. cbv iota.
  assert (forall n, exists s, decodeSliceElems n (decodeByteArray 1) s1 = (s, NoFuel)) as Hloop.
  { induction n as [|n [s IH]]; [by eexists|]. exists s. cbn [decodeSliceElems]. rewrite H1.
    unfold smap, sbind. by rewrite IH. }
  destruct fuel as [|n]; [done|]. cbn [decodeSliceElems]. rewrite H0. destruct (Hloop n) as [s Hs].
  unfold smap, sbind. by rewrite Hs.
Qed.
