(* ===== verification/VmData.v ===== *)
(** The parts of the machine's state: [src/core/vm/opcodes.go], [stack.go],
    [stack_table.go], [memory.go], [common.go] and the errors of the package.

    The operand stack is a list with its top at the head.  Slicing and indexing follow the
    length of a slice; what lies between length and capacity is out of range here. *)

From stdpp Require Import base numbers list.
From S2P Require Import Prelude.
From S2P Require Import CommonMath.
From S2P Require Import Params.
Local Open Scope Z_scope.
Local Open Scope go_scope.

(** * opcodes.go *)

Definition STOP : Z := 0x00.
Definition ADD : Z := 0x01.
Definition MUL : Z := 0x02.
Definition SUB : Z := 0x03.
Definition DIV : Z := 0x04.
Definition SDIV : Z := 0x05.
Definition MOD : Z := 0x06.
Definition SMOD : Z := 0x07.
Definition ADDMOD : Z := 0x08.
Definition MULMOD : Z := 0x09.
Definition EXP : Z := 0x0a.
Definition SIGNEXTEND : Z := 0x0b.
Definition LT : Z := 0x10.
Definition GT : Z := 0x11.
Definition SLT : Z := 0x12.
Definition SGT : Z := 0x13.
Definition EQ : Z := 0x14.
Definition ISZERO : Z := 0x15.
Definition AND : Z := 0x16.
Definition OR : Z := 0x17.
Definition XOR : Z := 0x18.
Definition NOT : Z := 0x19.
Definition BYTE : Z := 0x1a.
Definition SHL : Z := 0x1b.
Definition SHR : Z := 0x1c.
Definition SAR : Z := 0x1d.
Definition SHA3 : Z := 0x20.
Definition ADDRESS : Z := 0x30.
Definition BALANCE : Z := 0x31.
Definition ORIGIN : Z := 0x32.
Definition CALLER : Z := 0x33.
Definition CALLVALUE : Z := 0x34.
Definition CALLDATALOAD : Z := 0x35.
Definition CALLDATASIZE : Z := 0x36.
Definition CALLDATACOPY : Z := 0x37.
Definition CODESIZE : Z := 0x38.
Definition CODECOPY : Z := 0x39.
Definition GASPRICE : Z := 0x3a.
Definition EXTCODESIZE : Z := 0x3b.
Definition EXTCODECOPY : Z := 0x3c.
Definition RETURNDATASIZE : Z := 0x3d.
Definition RETURNDATACOPY : Z := 0x3e.
Definition BLOCKHASH : Z := 0x40.
Definition COINBASE : Z := 0x41.
Definition TIMESTAMP : Z := 0x42.
Definition NUMBER : Z := 0x43.
Definition DIFFICULTY : Z := 0x44.
Definition GASLIMIT : Z := 0x45.
Definition POP : Z := 0x50.
Definition MLOAD : Z := 0x51.
Definition MSTORE : Z := 0x52.
Definition MSTORE8 : Z := 0x53.
Definition SLOAD : Z := 0x54.
Definition SSTORE : Z := 0x55.
Definition JUMP : Z := 0x56.
Definition JUMPI : Z := 0x57.
Definition PC : Z := 0x58.
Definition MSIZE : Z := 0x59.
Definition GAS : Z := 0x5a.
Definition JUMPDEST : Z := 0x5b.
Definition PUSH1 : Z := 0x60.
Definition PUSH2 : Z := 0x61.
Definition PUSH3 : Z := 0x62.
Definition PUSH4 : Z := 0x63.
Definition PUSH5 : Z := 0x64.
Definition PUSH6 : Z := 0x65.
Definition PUSH7 : Z := 0x66.
Definition PUSH8 : Z := 0x67.
Definition PUSH9 : Z := 0x68.
Definition PUSH10 : Z := 0x69.
Definition PUSH11 : Z := 0x6a.
Definition PUSH12 : Z := 0x6b.
Definition PUSH13 : Z := 0x6c.
Definition PUSH14 : Z := 0x6d.
Definition PUSH15 : Z := 0x6e.
Definition PUSH16 : Z := 0x6f.
Definition PUSH17 : Z := 0x70.
Definition PUSH18 : Z := 0x71.
Definition PUSH19 : Z := 0x72.
Definition PUSH20 : Z := 0x73.
Definition PUSH21 : Z := 0x74.
Definition PUSH22 : Z := 0x75.
Definition PUSH23 : Z := 0x76.
Definition PUSH24 : Z := 0x77.
Definition PUSH25 : Z := 0x78.
Definition PUSH26 : Z := 0x79.
Definition PUSH27 : Z := 0x7a.
Definition PUSH28 : Z := 0x7b.
Definition PUSH29 : Z := 0x7c.
Definition PUSH30 : Z := 0x7d.
Definition PUSH31 : Z := 0x7e.
Definition PUSH32 : Z := 0x7f.
Definition DUP1 : Z := 0x80.
Definition DUP2 : Z := 0x81.
Definition DUP3 : Z := 0x82.
Definition DUP4 : Z := 0x83.
Definition DUP5 : Z := 0x84.
Definition DUP6 : Z := 0x85.
Definition DUP7 : Z := 0x86.
Definition DUP8 : Z := 0x87.
Definition DUP9 : Z := 0x88.
Definition DUP10 : Z := 0x89.
Definition DUP11 : Z := 0x8a.
Definition DUP12 : Z := 0x8b.
Definition DUP13 : Z := 0x8c.
Definition DUP14 : Z := 0x8d.
Definition DUP15 : Z := 0x8e.
Definition DUP16 : Z := 0x8f.
Definition SWAP1 : Z := 0x90.
Definition SWAP2 : Z := 0x91.
Definition SWAP3 : Z := 0x92.
Definition SWAP4 : Z := 0x93.
Definition SWAP5 : Z := 0x94.
Definition SWAP6 : Z := 0x95.
Definition SWAP7 : Z := 0x96.
Definition SWAP8 : Z := 0x97.
Definition SWAP9 : Z := 0x98.
Definition SWAP10 : Z := 0x99.
Definition SWAP11 : Z := 0x9a.
Definition SWAP12 : Z := 0x9b.
Definition SWAP13 : Z := 0x9c.
Definition SWAP14 : Z := 0x9d.
Definition SWAP15 : Z := 0x9e.
Definition SWAP16 : Z := 0x9f.
Definition LOG0 : Z := 0xa0.
Definition LOG1 : Z := 0xa1.
Definition LOG2 : Z := 0xa2.
Definition LOG3 : Z := 0xa3.
Definition LOG4 : Z := 0xa4.
Definition CREATE : Z := 0xf0.
Definition CALL : Z := 0xf1.
Definition CALLCODE : Z := 0xf2.
Definition RETURN : Z := 0xf3.
Definition DELEGATECALL : Z := 0xf4.
Definition STATICCALL : Z := 0xfa.
Definition REVERT : Z := 0xfd.
Definition SELFDESTRUCT : Z := 0xff.

(** The instructions by group, as the source lists them. *)
Definition arithmeticOps : list Z :=
  [STOP; ADD; MUL; SUB; DIV; SDIV; MOD; SMOD; ADDMOD; MULMOD; EXP; SIGNEXTEND].
Definition comparisonOps : list Z :=
  [LT; GT; SLT; SGT; EQ; ISZERO; AND; OR; XOR; NOT; BYTE; SHL; SHR; SAR; SHA3].
Definition closureStateOps : list Z :=
  [ADDRESS; BALANCE; ORIGIN; CALLER; CALLVALUE; CALLDATALOAD; CALLDATASIZE; CALLDATACOPY; CODESIZE; CODECOPY;
   GASPRICE; EXTCODESIZE; EXTCODECOPY; RETURNDATASIZE; RETURNDATACOPY].
Definition blockOps : list Z :=
  [BLOCKHASH; COINBASE; TIMESTAMP; NUMBER; DIFFICULTY; GASLIMIT].
Definition storageOps : list Z :=
  [POP; MLOAD; MSTORE; MSTORE8; SLOAD; SSTORE; JUMP; JUMPI; PC; MSIZE; GAS; JUMPDEST].
Definition pushDupSwapOps : list Z :=
  [PUSH1; PUSH2; PUSH3; PUSH4; PUSH5; PUSH6; PUSH7; PUSH8; PUSH9; PUSH10; PUSH11; PUSH12; PUSH13; PUSH14;
   PUSH15; PUSH16; PUSH17; PUSH18; PUSH19; PUSH20; PUSH21; PUSH22; PUSH23; PUSH24; PUSH25; PUSH26; PUSH27;
   PUSH28; PUSH29; PUSH30; PUSH31; PUSH32; DUP1; DUP2; DUP3; DUP4; DUP5; DUP6; DUP7; DUP8; DUP9; DUP10; DUP11;
   DUP12; DUP13; DUP14; DUP15; DUP16; SWAP1; SWAP2; SWAP3; SWAP4; SWAP5; SWAP6; SWAP7; SWAP8; SWAP9; SWAP10;
   SWAP11; SWAP12; SWAP13; SWAP14; SWAP15; SWAP16].
Definition logOps : list Z :=
  [LOG0; LOG1; LOG2; LOG3; LOG4].
Definition closureOps : list Z :=
  [CREATE; CALL; CALLCODE; RETURN; DELEGATECALL; STATICCALL; REVERT; SELFDESTRUCT].

(** * errors.go and the error values of the package *)

Inductive vm_error :=
| ErrOutOfGas | ErrCodeStoreOutOfGas | ErrDepth | ErrInsufficientBalance | ErrContractAddressCollision
| errGasUintOverflow | errWriteProtection | errReturnDataOutOfBounds | errExecutionReverted
| errMaxCodeSizeExceeded
| errInvalidOpCode (op : Z) | errStackUnderflow (have want : Z) | errStackLimit (len : Z)
| errInvalidJump (nop pos : Z) | errPrecompile.

#[export] Instance vm_error_eq_dec : EqDecision vm_error.
Proof. solve_decision. Defined.

(** * stack.go, stack_table.go *)

Definition Stack : Type := list Z.

Definition newstack : Stack := [].
Definition st_push (d : Z) (st : Stack) : Stack := d :: st.
Definition st_pop (st : Stack) : outcome vm_error (Z * Stack) :=
  match st with [] => Panic | d :: st => Ok (d, st) end.
Definition st_len (st : Stack) : Z := zlen st.
Definition st_peek (st : Stack) : outcome vm_error Z := must (head st).
Definition st_Back (st : Stack) (n : nat) : outcome vm_error Z := must (st !! n).
(** [swap n] exchanges the top with the element [n - 1] below it. *)
Definition st_swap (n : nat) (st : Stack) : outcome vm_error Stack :=
  let! a := must (st !! (n - 1)%nat) in
  let! b := must (st !! 0%nat) in
  Ok (<[0%nat := a]> (<[(n - 1)%nat := b]> st)).
Definition st_dup (n : nat) (st : Stack) : outcome vm_error Stack :=
  let! a := must (st !! (n - 1)%nat) in Ok (a :: st).
Definition st_require (st : Stack) (n : Z) : outcome vm_error unit :=
  if st_len st <? n then Err (errStackUnderflow (st_len st) n) else Ok tt.

Definition makeStackFunc (pop push : Z) (st : Stack) : outcome vm_error unit :=
  let! _ := st_require st pop in
  if st_len st + push - pop >? StackLimit then Err (errStackLimit (st_len st)) else Ok tt.
Definition makeDupStackFunc (n : Z) : Stack -> outcome vm_error unit := makeStackFunc n (n + 1).
Definition makeSwapStackFunc (n : Z) : Stack -> outcome vm_error unit := makeStackFunc n n.

(** * memory.go *)

Record Memory := MkMemory { m_store : bytes; m_lastGasCost : Z }.

Definition NewMemory : Memory := MkMemory [] 0.
Definition m_Len (m : Memory) : Z := zlen (m_store m).

Definition m_Set (offset size : Z) (value : bytes) (m : Memory) : outcome vm_error Memory :=
  if size >? u64 (m_Len m) then Panic
  else if size >? 0 then
    let hi := u64 (offset + size) in
    let! dst := must (zslice (m_store m) offset hi) in
    Ok (MkMemory (take (Z.to_nat offset) (m_store m) ++ gocopy dst value ++ drop (Z.to_nat hi) (m_store m))
          (m_lastGasCost m))
  else Ok m.

(** [memory.store[off] = b] *)
Definition m_SetByte (off b : Z) (m : Memory) : outcome vm_error Memory :=
  let! store := must (zset (m_store m) off b) in Ok (MkMemory store (m_lastGasCost m)).

Definition m_Resize (size : Z) (m : Memory) : Memory :=
  if u64 (m_Len m) <? size
  then MkMemory (m_store m ++ replicate (Z.to_nat (size - m_Len m)) 0) (m_lastGasCost m)
  else m.

Definition m_Get (offset size : Z) (m : Memory) : outcome vm_error bytes :=
  if size =? 0 then Ok []
  else if m_Len m >? offset then
    if size <? 0 then Panic
    else
      let! src := must (zslice (m_store m) offset (i64 (offset + size))) in
      Ok (gocopy (replicate (Z.to_nat size) 0) src)
  else Ok [].

Definition m_GetPtr (offset size : Z) (m : Memory) : outcome vm_error bytes :=
  if size =? 0 then Ok []
  else if m_Len m >? offset then must (zslice (m_store m) offset (i64 (offset + size)))
  else Ok [].

(** * common.go *)

Definition calcMemSize (off l : Z) : Z := if l =? 0 then 0 else off + l.

Definition getData (data : bytes) (start size : Z) : outcome vm_error bytes :=
  let length := u64 (zlen data) in
  let start := if start >? length then length else start in
  let e := u64 (start + size) in
  let e := if e >? length then length else e in
  let! d := must (zslice data start e) in
  Ok (RightPadBytes d (i64 size)).

Definition getDataBig (data : bytes) (start size : Z) : outcome vm_error bytes :=
  let dlen := zlen data in
  let s := BigMin start dlen in
  let e := BigMin (s + size) dlen in
  let! d := must (zslice data (u64 s) (u64 e)) in
  Ok (RightPadBytes d (i64 (u64 size))).

Definition bigUint64 (v : Z) : Z * bool := (u64 v, bitlen v >? 64).

Definition toWordSize (size : Z) : Z :=
  if size >? MaxUint64 - 31 then MaxUint64 / 32 + 1 else u64 (size + 31) / 32.

Definition allZero (b : bytes) : bool := forallb (fun x => x =? 0) b.
