(* ===== verification/VmAnalysis.v ===== *)
(** Jump destination analysis: [src/core/vm/analysis.go].

    A bit vector marks the bytes of code that are data of a PUSH instruction.  [codeBitmap]
    computes it in one pass, eight bits at a time where it can; [destinations.has] caches
    it by code hash and answers whether a jump may land on a position. *)

From stdpp Require Import base numbers list gmap.
From S2P Require Import Prelude.
From S2P Require Import CommonMath.
From S2P Require Import VmData.
Local Open Scope Z_scope.
Local Open Scope go_scope.

Definition bitvec : Type := bytes.

(** Or-ing a mask into byte [i]. *)
Definition bits_or (bits : bitvec) (i m : Z) : outcome vm_error bitvec :=
  let! b := must (zget bits i) in must (zset bits i (Z.lor b m)).

Definition bits_set (bits : bitvec) (pos : Z) : outcome vm_error bitvec :=
  bits_or bits (pos / 8) (Z.shiftr 0x80 (pos mod 8)).

Definition bits_set8 (bits : bitvec) (pos : Z) : outcome vm_error bitvec :=
  let! bits := bits_or bits (pos / 8) (Z.shiftr 0xFF (pos mod 8)) in
  bits_or bits (pos / 8 + 1) (Z.lxor 0xFF (Z.shiftr 0xFF (pos mod 8))).

Definition codeSegment (bits : bitvec) (pos : Z) : outcome vm_error bool :=
  let! b := must (zget bits (pos / 8)) in
  Ok (Z.land b (Z.shiftr 0x80 (pos mod 8)) =? 0).

(** [for ; numbits >= 8; numbits -= 8] *)
Fixpoint set8_loop (fuel : nat) (numbits pc : Z) (bits : bitvec) : outcome vm_error (Z * Z * bitvec) :=
  match fuel with
  | O => NoFuel
  | S fuel =>
      if numbits >=? 8 then
        let! bits := bits_set8 bits pc in set8_loop fuel (numbits - 8) (pc + 8) bits
      else Ok (numbits, pc, bits)
  end.

(** [for ; numbits > 0; numbits--] *)
Fixpoint set_loop (fuel : nat) (numbits pc : Z) (bits : bitvec) : outcome vm_error (Z * bitvec) :=
  match fuel with
  | O => NoFuel
  | S fuel =>
      if numbits >? 0 then
        let! bits := bits_set bits pc in set_loop fuel (numbits - 1) (pc + 1) bits
      else Ok (pc, bits)
  end.

Fixpoint codeBitmap_loop (fuel : nat) (code : bytes) (pc : Z) (bits : bitvec) : outcome vm_error bitvec :=
  match fuel with
  | O => NoFuel
  | S fuel =>
      if pc <? zlen code then
        let! op := must (zget code pc) in
        if (PUSH1 <=? op) && (op <=? PUSH32) then
          let numbits := u8 (op - PUSH1 + 1) in
          let! (numbits, pc, bits) := set8_loop 5 numbits (pc + 1) bits in
          let! (pc, bits) := set_loop 9 numbits pc bits in
          codeBitmap_loop fuel code pc bits
        else codeBitmap_loop fuel code (pc + 1) bits
      else Ok bits
  end.

Definition codeBitmap (code : bytes) : outcome vm_error bitvec :=
  codeBitmap_loop (S (length code)) code 0 (replicate (Z.to_nat (zlen code / 8 + 1 + 4)) 0).

(** The cache of analyses, by code hash. *)
Abbreviation destinations := (gmap bytes bitvec).

Definition dests_has (d : destinations) (codehash code : bytes) (dest : Z) : outcome vm_error (destinations * bool) :=
  let udest := u64 dest in
  if (bitlen dest >=? 63) || (udest >=? u64 (zlen code)) then Ok (d, false)
  else
    let! (d, m) :=
      match d !! codehash with
      | Some m => Ok (d, m)
      | None => let! m := codeBitmap code in Ok (<[codehash := m]> d, m)
      end in
    let! op := must (zget code udest) in
    if op =? JUMPDEST then let! seg := codeSegment m udest in Ok (d, seg) else Ok (d, false).

(** * Reference: instruction boundaries found by walking the code *)

(** Length of the instruction [op] with its immediate data. *)
Definition instr_len (op : Z) : Z :=
  if (PUSH1 <=? op) && (op <=? PUSH32) then op - PUSH1 + 2 else 1.

(** Walking instruction by instruction from [pc], is [pos] the start of an instruction? *)
Fixpoint walk (fuel : nat) (code : bytes) (pc pos : Z) : bool :=
  match fuel with
  | O => false
  | S fuel =>
      if pc =? pos then true
      else if pc >? pos then false
      else walk fuel code (pc + instr_len (default 0 (zget code pc))) pos
  end.

Definition is_instruction (code : bytes) (pos : Z) : bool := walk (S (Z.to_nat pos)) code 0 pos.

Definition valid_jumpdest (code : bytes) (dest : Z) : bool :=
  (dest <? zlen code) && (default 0 (zget code dest) =? JUMPDEST) && is_instruction code dest.

(** The bit for [pos]; [false] out of range. *)
Definition bit (bits : bitvec) (pos : Z) : bool :=
  negb (Z.land (default 0 (zget bits (pos / 8))) (Z.shiftr 0x80 (pos mod 8)) =? 0).

(** * Bit vectors *)

Lemma zget_zset {A} (l : list A) i x :
  0 <= i < zlen l -> exists l', zset l i x = Some l' /\ zlen l' = zlen l /\
    forall j, zget l' j = if j =? i then Some x else zget l j.
Proof.
  intros Hi. unfold zset. rewrite (proj2 (Z.leb_le _ _)), (proj2 (Z.ltb_lt _ _)) by lia. simpl.
  eexists. split; [done|]. split; [unfold zlen; by rewrite length_insert|]. intros k. unfold zget.
  destruct (Z.leb_spec 0 k); [|destruct (Z.eqb_spec k i); [lia|done]].
  destruct (Z.eqb_spec k i) as [->|].
  - apply list_lookup_insert_eq. unfold zlen in *. lia.
  - apply list_lookup_insert_ne. lia.
Qed.

Lemma shift_80 k : 0 <= k < 8 -> Z.shiftr 0x80 k = 2 ^ (7 - k).
Proof.
  intros Hk. rewrite Z.shiftr_div_pow2 by lia. change 0x80 with (2 ^ 7).
  rewrite <- Z.pow_sub_r by lia. done.
Qed.

Lemma land_pow2 b n : 0 <= n -> negb (Z.land b (2 ^ n) =? 0) = Z.testbit b n.
Proof.
  intros Hn. destruct (Z.eqb_spec (Z.land b (2 ^ n)) 0) as [E|E]; simpl.
  - apply (f_equal (fun x => Z.testbit x n)) in E. rewrite Z.land_spec, Z.pow2_bits_true, andb_true_r, Z.bits_0 in E by done. done.
  - destruct (Z.testbit b n) eqn:Hb; [done|]. exfalso. apply E. apply Z.bits_inj'. intros m Hm.
    rewrite Z.land_spec, Z.bits_0. destruct (Z.eq_dec m n) as [->|]; [by rewrite Hb|].
    by rewrite Z.pow2_bits_false, andb_false_r by done.
Qed.

Lemma bit_testbit bits pos :
  0 <= pos -> bit bits pos = Z.testbit (default 0 (zget bits (pos / 8))) (7 - pos mod 8).
Proof.
  intros Hp. pose proof (Z.mod_pos_bound pos 8 ltac:(lia)). unfold bit. rewrite shift_80 by lia. by rewrite land_pow2 by lia.
Qed.

(** This changes exactly the bits of that byte. *)
Lemma bits_or_spec bits i m :
  0 <= i < zlen bits ->
  exists bits', bits_or bits i m = Ok bits' /\ zlen bits' = zlen bits /\
    forall p, 0 <= p -> bit bits' p = bit bits p || ((p / 8 =? i) && Z.testbit m (7 - p mod 8)).
Proof.
  intros Hi. unfold bits_or. destruct (zget_some bits i Hi) as [b Hb]. rewrite Hb. simpl.
  destruct (zget_zset bits i (Z.lor b m) Hi) as (bits' & -> & Hl & Hg). exists bits'.
  split; [done|]. split; [done|]. intros p Hp. rewrite !bit_testbit, Hg by done.
  destruct (Z.eqb_spec (p / 8) i) as [->|]; simpl; [|by rewrite orb_false_r].
  rewrite Hb. simpl. by rewrite Z.lor_spec.
Qed.

Lemma bits_set_spec bits pos :
  0 <= pos -> pos / 8 < zlen bits ->
  exists bits', bits_set bits pos = Ok bits' /\ zlen bits' = zlen bits /\
    forall p, 0 <= p -> bit bits' p = bit bits p || (p =? pos).
Proof.
  intros Hp Hl. unfold bits_set.
  destruct (bits_or_spec bits (pos / 8) (Z.shiftr 0x80 (pos mod 8))) as (bits' & Hb & Hl' & Hbit);
    [Z.to_euclidean_division_equations; lia|].
  exists bits'. split; [done|]. split; [done|]. intros p Hp'. rewrite Hbit by done. f_equal.
  pose proof (Z.mod_pos_bound pos 8 ltac:(lia)). rewrite shift_80, Z.pow2_bits_eqb by lia.
  pose proof (Z.div_mod p 8 ltac:(lia)). pose proof (Z.div_mod pos 8 ltac:(lia)).
  destruct (Z.eqb_spec (p / 8) (pos / 8)), (Z.eqb_spec p pos), (Z.eqb_spec (7 - pos mod 8) (7 - p mod 8)); simpl; try done; subst; lia.
Qed.

Lemma testbit_FF_shift k j : 0 <= k < 8 -> 0 <= j < 8 -> Z.testbit (Z.shiftr 0xFF k) j = (j <? 8 - k).
Proof.
  intros Hk Hj. rewrite Z.shiftr_spec by lia. change 0xFF with (Z.ones 8). rewrite Z.testbit_ones_nonneg by lia.
  destruct (Z.ltb_spec j (8 - k)), (Z.ltb_spec (j + k) 8); done || lia.
Qed.

Lemma bits_set8_spec bits pos :
  0 <= pos -> pos / 8 + 1 < zlen bits ->
  exists bits', bits_set8 bits pos = Ok bits' /\ zlen bits' = zlen bits /\
    forall p, 0 <= p -> bit bits' p = bit bits p || ((pos <=? p) && (p <? pos + 8)).
Proof.
  intros Hp Hl. unfold bits_set8. set (k := pos mod 8). assert (0 <= k < 8) as Hk by (apply Z.mod_pos_bound; lia).
  assert (0 <= pos / 8) by (apply Z.div_pos; lia).
  destruct (bits_or_spec bits (pos / 8) (Z.shiftr 0xFF k)) as (b1 & -> & Hl1 & Hb1); [lia|]. cbn [outcome_bind].
  destruct (bits_or_spec b1 (pos / 8 + 1) (Z.lxor 0xFF (Z.shiftr 0xFF k))) as (b2 & -> & Hl2 & Hb2); [lia|].
  exists b2. split; [done|]. split; [lia|]. intros p Hp'. rewrite Hb2, Hb1, <- orb_assoc by done. f_equal.
  pose proof (Z.mod_pos_bound p 8 ltac:(lia)). pose proof (Z.div_mod p 8 ltac:(lia)).
  pose proof (Z.div_mod pos 8 ltac:(lia)).
  rewrite Z.lxor_spec, testbit_FF_shift by lia. change 0xFF with (Z.ones 8) at 1.
  rewrite Z.testbit_ones_nonneg, (proj2 (Z.ltb_lt (7 - p mod 8) 8)) by lia. subst k.
  destruct (Z.eqb_spec (p / 8) (pos / 8)), (Z.eqb_spec (p / 8) (pos / 8 + 1)), (Z.ltb_spec (7 - p mod 8) (8 - pos mod 8)),
    (Z.leb_spec pos p), (Z.ltb_spec p (pos + 8)); simpl; done || lia.
Qed.

Lemma set8_loop_spec fuel n pc bits :
  0 <= pc -> 0 <= n -> n / 8 < Z.of_nat fuel -> (pc + n) / 8 < zlen bits ->
  exists bits', set8_loop fuel n pc bits = Ok (n mod 8, pc + 8 * (n / 8), bits') /\ zlen bits' = zlen bits /\
    forall p, 0 <= p -> bit bits' p = bit bits p || ((pc <=? p) && (p <? pc + 8 * (n / 8))).
Proof.
  revert n pc bits. induction fuel as [|fuel IH]; intros n pc bits Hpc Hn Hf Hl.
  { Z.to_euclidean_division_equations; lia. }
  cbn [set8_loop]. rewrite Z.geb_leb. destruct (Z.leb_spec 8 n).
  - destruct (bits_set8_spec bits pc) as (b1 & -> & Hl1 & Hb1); [lia|Z.to_euclidean_division_equations; lia|].
    cbn [outcome_bind].
    assert ((n - 8) / 8 = n / 8 - 1 /\ (n - 8) mod 8 = n mod 8) as [Hd Hm] by (Z.to_euclidean_division_equations; lia).
    destruct (IH (n - 8) (pc + 8) b1) as (b2 & -> & Hl2 & Hb2); [lia|lia|lia|Z.to_euclidean_division_equations; lia|].
    exists b2. rewrite Hd, Hm. split; [do 3 f_equal; lia|]. split; [lia|]. intros p Hp.
    rewrite Hb2, Hb1, <- orb_assoc, Hd by done. f_equal. assert (1 <= n / 8) by (Z.to_euclidean_division_equations; lia).
    replace (pc + 8 + 8 * (n / 8 - 1)) with (pc + 8 * (n / 8)) by lia.
    destruct (Z.leb_spec pc p), (Z.ltb_spec p (pc + 8)), (Z.leb_spec (pc + 8) p), (Z.ltb_spec p (pc + 8 * (n / 8))); simpl; done || lia.
  - exists bits. assert (n / 8 = 0 /\ n mod 8 = n) as [Hd Hm] by (Z.to_euclidean_division_equations; lia).
    rewrite Hd, Hm. split; [do 3 f_equal; lia|]. split; [done|]. intros p Hp.
    destruct (Z.leb_spec pc p), (Z.ltb_spec p (pc + 8 * 0)); simpl; rewrite ?orb_false_r; done || lia.
Qed.

Lemma set_loop_spec fuel n pc bits :
  0 <= pc -> 0 <= n < Z.of_nat fuel -> (pc + n) / 8 < zlen bits ->
  exists bits', set_loop fuel n pc bits = Ok (pc + n, bits') /\ zlen bits' = zlen bits /\
    forall p, 0 <= p -> bit bits' p = bit bits p || ((pc <=? p) && (p <? pc + n)).
Proof.
  revert n pc bits. induction fuel as [|fuel IH]; intros n pc bits Hpc Hn Hl; [lia|].
  cbn [set_loop]. rewrite Z.gtb_ltb. destruct (Z.ltb_spec 0 n).
  - destruct (bits_set_spec bits pc) as (b1 & -> & Hl1 & Hb1); [lia|Z.to_euclidean_division_equations; lia|].
    cbn [outcome_bind].
    destruct (IH (n - 1) (pc + 1) b1) as (b2 & -> & Hl2 & Hb2); [lia|lia|rewrite Hl1; by replace (pc + 1 + (n - 1)) with (pc + n) by lia|].
    exists b2. split; [do 2 f_equal; lia|]. split; [lia|]. intros p Hp. rewrite Hb2, Hb1, <- orb_assoc by done. f_equal.
    destruct (Z.eqb_spec p pc), (Z.leb_spec (pc + 1) p), (Z.ltb_spec p (pc + 1 + (n - 1))), (Z.leb_spec pc p), (Z.ltb_spec p (pc + n));
      simpl; done || lia.
  - exists bits. split; [do 2 f_equal; lia|]. split; [done|]. intros p Hp.
    destruct (Z.leb_spec pc p), (Z.ltb_spec p (pc + n)); simpl; rewrite ?orb_false_r; done || lia.
Qed.

(** The data of a PUSH of [n] bytes. *)
Lemma push_bits_spec n pc bits :
  0 <= pc -> 1 <= n <= 32 -> (pc + n) / 8 < zlen bits ->
  exists bits', (let! (numbits, pc, bits) := set8_loop 5 n pc bits in set_loop 9 numbits pc bits) = Ok (pc + n, bits') /\
    zlen bits' = zlen bits /\ forall p, 0 <= p -> bit bits' p = bit bits p || ((pc <=? p) && (p <? pc + n)).
Proof.
  intros Hpc Hn Hl. pose proof (Z.div_mod n 8 ltac:(lia)). pose proof (Z.mod_pos_bound n 8 ltac:(lia)).
  destruct (set8_loop_spec 5 n pc bits) as (b1 & -> & Hl1 & Hb1); [lia|lia|Z.to_euclidean_division_equations; lia|done|].
  cbn [outcome_bind].
  destruct (set_loop_spec 9 (n mod 8) (pc + 8 * (n / 8)) b1) as (b2 & -> & Hl2 & Hb2);
    [lia|lia|rewrite Hl1; Z.to_euclidean_division_equations; lia|].
  exists b2. split; [do 2 f_equal; lia|]. split; [lia|]. intros p Hp. rewrite Hb2, Hb1, <- orb_assoc by done. f_equal.
  destruct (Z.leb_spec pc p), (Z.ltb_spec p (pc + 8 * (n / 8))), (Z.leb_spec (pc + 8 * (n / 8)) p),
    (Z.ltb_spec p (pc + 8 * (n / 8) + n mod 8)), (Z.ltb_spec p (pc + n)); simpl; done || lia.
Qed.

(** * The analysis agrees with walking the code *)

Lemma instr_len_pos op : 1 <= instr_len op.
Proof. unfold instr_len, PUSH1, PUSH32. destruct (Z.leb_spec 0x60 op); simpl; [case_match|]; lia. Qed.

(** Enough fuel is as good as more. *)
Lemma walk_fuel f1 f2 code pc pos :
  pos - pc < Z.of_nat f1 -> pos - pc < Z.of_nat f2 -> (0 < f1)%nat -> (0 < f2)%nat ->
  walk f1 code pc pos = walk f2 code pc pos.
Proof.
  revert f2 pc. induction f1 as [|f1 IH]; intros [|f2] pc H1 H2 Hp1 Hp2; try lia. cbn [walk].
  destruct (Z.eqb_spec pc pos); [done|]. rewrite Z.gtb_ltb. destruct (Z.ltb_spec pos pc); [done|].
  pose proof (instr_len_pos (default 0 (zget code pc))). apply IH; lia.
Qed.

Lemma walk_step fuel code pc pos :
  pc < pos -> pos - pc < Z.of_nat fuel ->
  walk fuel code pc pos = walk fuel code (pc + instr_len (default 0 (zget code pc))) pos.
Proof.
  intros Hp Hf. destruct fuel as [|fuel]; [lia|]. pose proof (instr_len_pos (default 0 (zget code pc))).
  transitivity (walk fuel code (pc + instr_len (default 0 (zget code pc))) pos); [|apply walk_fuel; lia].
  cbn [walk]. rewrite (proj2 (Z.eqb_neq _ _)), Z.gtb_ltb, (proj2 (Z.ltb_ge _ _)) by lia. done.
Qed.

Lemma walk_past fuel code pc pos : pos < pc -> walk fuel code pc pos = false.
Proof.
  intros Hp. destruct fuel; cbn [walk]; [done|].
  by rewrite (proj2 (Z.eqb_neq _ _)), Z.gtb_ltb, (proj2 (Z.ltb_lt _ _)) by lia.
Qed.

Lemma codeBitmap_loop_spec fuel code pc bits :
  bytes_ok code -> 0 <= pc -> zlen code - pc < Z.of_nat fuel -> (0 < fuel)%nat ->
  zlen code / 8 + 5 <= zlen bits -> (forall p, pc <= p -> bit bits p = false) ->
  exists bits', codeBitmap_loop fuel code pc bits = Ok bits' /\ zlen bits' = zlen bits /\
    forall p, 0 <= p < zlen code ->
      bit bits' p = if p <? pc then bit bits p else negb (walk (S (Z.to_nat p)) code pc p).
Proof.
  intros Hok. revert pc bits. induction fuel as [|fuel IH]; intros pc bits Hpc Hf Hf0 Hl Hclear; [lia|].
  cbn [codeBitmap_loop]. destruct (Z.ltb_spec pc (zlen code)) as [Hlt|Hge].
  2: { exists bits. split; [done|]. split; [done|]. intros p Hp. by rewrite (proj2 (Z.ltb_lt _ _)) by lia. }
  destruct (zget_some code pc ltac:(lia)) as [op Hop]. rewrite Hop. cbn [must outcome_bind].
  assert (0 <= op < 256) as Hopr.
  { unfold zget in Hop. case_match; [|done]. by eapply Forall_lookup_1 in Hop; [|exact Hok]. }
  assert (exists b1, (forall p, 0 <= p -> bit b1 p = bit bits p || ((pc + 1 <=? p) && (p <? pc + instr_len op))) /\
    zlen b1 = zlen bits /\
    (if (PUSH1 <=? op) && (op <=? PUSH32) then
       let! (numbits, pc0, bits0) := set8_loop 5 (u8 (op - PUSH1 + 1)) (pc + 1) bits in
       let! (pc1, bits1) := set_loop 9 numbits pc0 bits0 in codeBitmap_loop fuel code pc1 bits1
     else codeBitmap_loop fuel code (pc + 1) bits) = codeBitmap_loop fuel code (pc + instr_len op) b1) as (b1 & Hb1 & Hl1 & ->).
  { unfold instr_len. destruct ((PUSH1 <=? op) && (op <=? PUSH32)) eqn:Hpush.
    - unfold PUSH1, PUSH32 in *. apply andb_true_iff in Hpush as [H1%Z.leb_le H2%Z.leb_le].
      rewrite u8_small by (unfold is_byte; lia).
      destruct (push_bits_spec (op - 96 + 1) (pc + 1) bits) as (b1 & Heq & Hl1 & Hb1);
        [lia|lia|Z.to_euclidean_division_equations; lia|].
      exists b1. replace (pc + (op - 96 + 2)) with (pc + 1 + (op - 96 + 1)) by lia.
      split; [done|]. split; [done|].
      destruct (set8_loop 5 (op - 96 + 1) (pc + 1) bits) as [[[n1 p1] bb]|?| |]; try done.
      cbn [outcome_bind] in *. rewrite Heq. done.
    - exists bits. split; [|done]. intros p Hp.
      destruct (Z.leb_spec (pc + 1) p), (Z.ltb_spec p (pc + 1)); simpl; rewrite ?orb_false_r; done || lia. }
  pose proof (instr_len_pos op) as Hlen.
  destruct (IH (pc + instr_len op) b1) as (b2 & -> & Hl2 & Hb2); [lia|lia|lia|lia| |].
  { intros p Hp. rewrite Hb1, Hclear by lia. simpl. rewrite (proj2 (Z.ltb_ge p _)) by lia. apply andb_false_r. }
  exists b2. split; [done|]. split; [lia|]. intros p Hp. rewrite Hb2 by done.
  destruct (Z.ltb_spec p pc).
  { rewrite (proj2 (Z.ltb_lt _ _)), Hb1 by lia. rewrite (proj2 (Z.leb_gt (pc + 1) p)) by lia. simpl. apply orb_false_r. }
  destruct (Z.eq_dec p pc) as [->|Hne].
  { rewrite (proj2 (Z.ltb_lt _ _)), Hb1, Hclear by lia. rewrite (proj2 (Z.leb_gt (pc + 1) pc)) by lia. simpl.
    by rewrite Z.eqb_refl. }
  rewrite (walk_step _ _ pc p) by lia. rewrite Hop. change (default 0 (Some op)) with op.
  destruct (Z.ltb_spec p (pc + instr_len op)); [|done].
  rewrite walk_past, Hb1, Hclear by lia. rewrite (proj2 (Z.leb_le _ _)), (proj2 (Z.ltb_lt _ _)) by lia. done.
Qed.

Lemma bit_zeros n p : 0 <= p -> bit (replicate n 0) p = false.
Proof.
  intros Hp. unfold bit, zget. rewrite (proj2 (Z.leb_le _ _)) by (apply Z.div_pos; lia).
  destruct (replicate n 0 !! Z.to_nat (p / 8)) eqn:E; simpl; [|done].
  apply lookup_replicate in E as [-> _]. done.
Qed.

Lemma codeBitmap_bits code :
  bytes_ok code -> exists bits, codeBitmap code = Ok bits /\ zlen bits = zlen code / 8 + 5 /\
    forall p, 0 <= p < zlen code -> bit bits p = negb (is_instruction code p).
Proof.
  intros Hok. pose proof (zlen_nonneg code). assert (0 <= zlen code / 8) by (apply Z.div_pos; lia).
  assert (zlen (replicate (Z.to_nat (zlen code / 8 + 1 + 4)) 0) = zlen code / 8 + 5) as Hz by (rewrite zlen_replicate; lia).
  destruct (codeBitmap_loop_spec (S (length code)) code 0 (replicate (Z.to_nat (zlen code / 8 + 1 + 4)) 0) Hok)
    as (bits & Hb & Hl & Hbits); [lia|unfold zlen; lia|lia|lia|intros; by apply bit_zeros|].
  exists bits. split; [done|]. split; [lia|]. intros p Hp. rewrite Hbits by done.
  by rewrite (proj2 (Z.ltb_ge _ _)) by lia.
Qed.

Lemma codeSegment_bit bits pos :
  0 <= pos -> pos / 8 < zlen bits -> codeSegment bits pos = Ok (negb (bit bits pos)).
Proof.
  intros Hp Hl. unfold codeSegment, bit. destruct (zget_some bits (pos / 8)) as [b Hb];
    [Z.to_euclidean_division_equations; lia|]. rewrite Hb. simpl. by rewrite negb_involutive.
Qed.

(** * The cache *)

(** Every cached vector is the analysis of a code with that hash. *)
Definition dests_ok (hash : bytes -> bytes) (d : destinations) : Prop :=
  forall h m, d !! h = Some m -> exists code, bytes_ok code /\ hash code = h /\ codeBitmap code = Ok m.

(** No other code has the hash of [code]. *)
Definition no_collision (hash : bytes -> bytes) (code : bytes) : Prop :=
  forall c, bytes_ok c -> hash c = hash code -> c = code.

Lemma dests_ok_empty hash : dests_ok hash ∅.
Proof. intros h m. by rewrite lookup_empty. Qed.

Lemma dests_ok_insert hash d code m :
  dests_ok hash d -> bytes_ok code -> codeBitmap code = Ok m -> dests_ok hash (<[hash code := m]> d).
Proof.
  intros Hd Hok Hm h m' Hl. destruct (decide (h = hash code)) as [->|].
  - rewrite lookup_insert_eq in Hl. simplify_eq. eauto.
  - rewrite lookup_insert_ne in Hl by done. by apply Hd.
Qed.

Lemma dests_lookup hash d code :
  dests_ok hash d -> bytes_ok code -> no_collision hash code ->
  exists d' m, match d !! hash code with
               | Some m => Ok (d, m)
               | None => let! m := codeBitmap code in Ok (<[hash code := m]> d, m)
               end = Ok (d', m) /\ dests_ok hash d' /\ codeBitmap code = Ok m.
Proof.
  intros Hd Hok Hnc. destruct (d !! hash code) as [m|] eqn:Hl.
  - exists d, m. split; [done|]. split; [done|]. destruct (Hd _ _ Hl) as (c & Hc & Hh & Hm).
    by rewrite <- (Hnc c Hc Hh).
  - destruct (codeBitmap_bits code Hok) as (m & Hm & _). rewrite Hm. eexists _, m. split; [done|].
    split; [by apply dests_ok_insert|done].
Qed.

Lemma dests_has_valid hash d code dest :
  dests_ok hash d -> bytes_ok code -> zlen code <= 2 ^ 62 -> no_collision hash code -> 0 <= dest ->
  exists d', dests_has d (hash code) code dest = Ok (d', valid_jumpdest code dest) /\ dests_ok hash d'.
Proof.
  intros Hd Hok Hlen Hnc Hdest. unfold dests_has, valid_jumpdest. pose proof (zlen_nonneg code).
  rewrite (u64_small (zlen code)) by (unfold is_u64; lia).
  assert (bitlen dest < 63 <-> dest < 2 ^ 62) as Hbl.
  { rewrite <- (bitlen_le dest 62) by lia. lia. }
  rewrite !Z.geb_leb. destruct (Z.leb_spec 63 (bitlen dest)); simpl.
  { exists d. rewrite (proj2 (Z.ltb_ge dest _)) by lia. done. }
  rewrite u64_small by (unfold is_u64; lia). rewrite Z.leb_antisym. destruct (Z.ltb_spec dest (zlen code)); simpl; [|by exists d].
  destruct (dests_lookup hash d code Hd Hok Hnc) as (d' & m & -> & Hd' & Hm). cbn [outcome_bind].
  destruct (zget_some code dest ltac:(lia)) as [op Hop]. rewrite Hop. cbn [must outcome_bind].
  change (default 0 (Some op)) with op. exists d'. destruct (Z.eqb_spec op JUMPDEST); simpl; [|done].
  destruct (codeBitmap_bits code Hok) as (m' & Hm' & Hl & Hbits). assert (m' = m) as -> by congruence.
  rewrite codeSegment_bit, Hbits, negb_involutive by (lia || (Z.to_euclidean_division_equations; lia)). done.
Qed.

(** * Properties *)

(**  The analysis is total and exact: [codeBitmap] indexes its vector within bounds on
    any code (a PUSH32 at the end included) and marks precisely the bytes that walking the
    code instruction by instruction skips as PUSH data. *)
Theorem codeBitmap_spec code :
  bytes_ok code ->
  exists bits, codeBitmap code = Ok bits /\
    forall pos, 0 <= pos < zlen code -> codeSegment bits pos = Ok (is_instruction code pos).
Proof.
  intros Hok. destruct (codeBitmap_bits code Hok) as (bits & Hb & Hl & Hbits). exists bits. split; [done|].
  intros pos Hpos. rewrite codeSegment_bit, Hbits, negb_involutive by (lia || (Z.to_euclidean_division_equations; lia)). done.
Qed.

Lemma codeBitmap_spec_witness :
  exists bits, codeBitmap [0x7f; 0x5b; 0x5b] = Ok bits /\
    forall pos, 0 <= pos < 3 -> codeSegment bits pos = Ok (is_instruction [0x7f; 0x5b; 0x5b] pos).
Proof. apply (codeBitmap_spec [0x7f; 0x5b; 0x5b]). repeat constructor; lia. Defined.

(** Answering a jump from the cache is as good as walking the code: [has] accepts a
    destination exactly when it is a JUMPDEST instruction, provided no two codes share a
    hash, and keeps the cache sound. *)
Theorem dests_has_spec hash d code dest :
  dests_ok hash d -> bytes_ok code -> zlen code <= 2 ^ 62 -> no_collision hash code -> is_word dest ->
  exists d', dests_has d (hash code) code dest = Ok (d', valid_jumpdest code dest) /\ dests_ok hash d'.
Proof. intros ? ? ? ? [? _]. by apply dests_has_valid. Qed.

Lemma dests_has_spec_witness :
  exists d', dests_has ∅ [0x60; 0x5b; 0x5b] [0x60; 0x5b; 0x5b] 2 = Ok (d', true) /\ dests_ok id d'.
Proof.
  apply (dests_has_spec id ∅ [0x60; 0x5b; 0x5b] 2).
  - apply dests_ok_empty.
  - repeat constructor; lia.
  - vm_compute. congruence.
  - intros c _ H. exact H.
  - unfold is_word. lia.
Defined.
