(* ===== verification/VmState.v ===== *)
(** The state the machine works on: [src/core/vm/interface.go] (the database interface),
    [contract.go], the records of [evm.go] and [interpreter.go], and the transfer functions
    of [src/core/evm.go].

    Instructions and gas functions run in a monad over a [Frame]: the shared machine state,
    the running contract, its memory, stack and program counter.  An error keeps the state
    reached so far, as in the source; a panic ends everything. *)

From stdpp Require Import base numbers list gmap.
From S2P Require Import Prelude.
From S2P Require Import CommonMath.
From S2P Require Import Params.
From S2P Require Import RlpEncode.
From S2P Require Import VmData.
From S2P Require Import VmAnalysis.
Local Open Scope Z_scope.
Local Open Scope go_scope.

(** * interface.go: what the machine asks of the state *)

Record Log := MkLog { l_Address : bytes; l_Topics : list bytes; l_Data : bytes; l_BlockNumber : Z }.

Class StateDB (DB : Type) := {
  CreateAccount : bytes -> DB -> DB;
  SubBalance : bytes -> Z -> DB -> DB;
  AddBalance : bytes -> Z -> DB -> DB;
  GetBalance : DB -> bytes -> Z;
  GetNonce : DB -> bytes -> Z;
  SetNonce : bytes -> Z -> DB -> DB;
  GetCodeHash : DB -> bytes -> bytes;
  GetCode : DB -> bytes -> bytes;
  SetCode : bytes -> bytes -> DB -> DB;
  GetCodeSize : DB -> bytes -> Z;
  AddRefund : Z -> DB -> DB;
  GetRefund : DB -> Z;
  GetState : DB -> bytes -> bytes -> bytes;
  SetState : bytes -> bytes -> bytes -> DB -> DB;
  Suicide : bytes -> DB -> DB * bool;
  HasSuicided : DB -> bytes -> bool;
  Exist : DB -> bytes -> bool;
  Empty : DB -> bytes -> bool;
  RevertToSnapshot : Z -> DB -> option DB;
  Snapshot : DB -> DB * Z;
  AddLog : Log -> DB -> DB;
  AddPreimage : bytes -> bytes -> DB -> DB }.

(** * core/evm.go *)

Section transfer.
Context {DB : Type} `{StateDB DB}.
Definition CanTransfer (db : DB) (addr : bytes) (amount : Z) : bool := GetBalance db addr >=? amount.
Definition Transfer (sender recipient : bytes) (amount : Z) (db : DB) : DB :=
  AddBalance recipient amount (SubBalance sender amount db).
End transfer.

(** * evm.go: the fixed part

    What does not change while a transaction runs: the block and message context, the
    chain's rules, the options, and the hash and precompiled functions, which are
    parameters.  [aborted n] is what the [n]-th test of the abort flag reads: [Cancel] may
    be called by another goroutine at any time. *)

Record PrecompiledContract := MkPrecompiled {
  pc_RequiredGas : bytes -> Z;
  pc_Run : bytes -> option bytes }.

Record Env := MkEnv {
  GetHash : Z -> bytes;
  Origin : bytes; GasPrice : Z;
  Coinbase : bytes; GasLimit : Z; BlockNumber : Z; Time : Z; Difficulty : Z;
  chainConfig : ChainConfig;
  NoRecursion : bool;
  EnablePreimageRecording : bool;
  Keccak256 : bytes -> bytes;
  PrecompiledContractsHomestead : bytes -> option PrecompiledContract;
  PrecompiledContractsByzantium : bytes -> option PrecompiledContract;
  aborted : nat -> bool }.

Section env.
Context (env : Env).
Definition e_IsHomestead : bool := IsHomestead (chainConfig env) (Some (BlockNumber env)).
Definition e_IsEIP150 : bool := IsEIP150 (chainConfig env) (Some (BlockNumber env)).
Definition e_IsEIP158 : bool := IsEIP158 (chainConfig env) (Some (BlockNumber env)).
Definition e_IsByzantium : bool := IsByzantium (chainConfig env) (Some (BlockNumber env)).
Definition e_IsConstantinople : bool := IsConstantinople (chainConfig env) (Some (BlockNumber env)).
Definition e_gasTable : GasTable := gasTable (chainConfig env) (Some (BlockNumber env)).

Definition precompiles (addr : bytes) : option PrecompiledContract :=
  if e_IsByzantium then PrecompiledContractsByzantium env addr
  else PrecompiledContractsHomestead env addr.

(** [crypto.CreateAddress]: the hash of the encoded pair of sender and nonce. *)
Definition CreateAddress (b : bytes) (nonce : Z) : bytes :=
  match EncodeToBytes (EncBuf [] [] 0) (RSlice false [RInterface (Some (RByteArray b)); RInterface (Some (RUint nonce))]) with
  | Ok data => BytesToAddress (drop 12 (Keccak256 env data))
  | _ => BytesToAddress (drop 12 (Keccak256 env []))
  end.
End env.

(** * contract.go *)

Record Contract := MkContract {
  c_CallerAddress : bytes; c_self : bytes;
  c_Code : bytes; c_CodeHash : bytes; c_CodeAddr : option bytes; c_Input : bytes;
  c_Gas : Z; c_value : Z; c_DelegateCall : bool }.

Definition set_Gas (c : Contract) (gas : Z) : Contract :=
  MkContract (c_CallerAddress c) (c_self c) (c_Code c) (c_CodeHash c) (c_CodeAddr c) (c_Input c) gas (c_value c) (c_DelegateCall c).
Definition set_Input (c : Contract) (input : bytes) : Contract :=
  MkContract (c_CallerAddress c) (c_self c) (c_Code c) (c_CodeHash c) (c_CodeAddr c) input (c_Gas c) (c_value c) (c_DelegateCall c).

(** Who calls: a running contract, or an account from outside. *)
Inductive ContractRef := RefContract (c : Contract) | RefAccount (a : bytes).
Definition ref_Address (r : ContractRef) : bytes :=
  match r with RefContract c => c_self c | RefAccount a => a end.

(** [NewContract].  The analysis cache it sets up is part of the machine state below. *)
Definition NewContract (caller : ContractRef) (object : bytes) (value gas : Z) : Contract :=
  MkContract (ref_Address caller) object [] [] None [] gas value false.

(** [AsDelegate] takes caller and value from the calling contract. *)
Definition AsDelegate (caller : ContractRef) (c : Contract) : outcome Empty_set Contract :=
  match caller with
  | RefContract parent =>
      Ok (MkContract (c_CallerAddress parent) (c_self c) (c_Code c) (c_CodeHash c) (c_CodeAddr c) (c_Input c)
            (c_Gas c) (c_value parent) true)
  | RefAccount _ => Panic
  end.

Definition GetByte (c : Contract) (n : Z) : Z :=
  if n <? u64 (zlen (c_Code c)) then default 0 (zget (c_Code c) n) else 0.
Definition GetOp (c : Contract) (n : Z) : Z := GetByte c n.

Definition UseGas (gas : Z) (c : Contract) : Contract * bool :=
  if c_Gas c <? gas then (c, false) else (set_Gas c (u64 (c_Gas c - gas)), true).

Definition SetCallCode (addr : option bytes) (hash code : bytes) (c : Contract) : Contract :=
  MkContract (c_CallerAddress c) (c_self c) code hash addr (c_Input c) (c_Gas c) (c_value c) (c_DelegateCall c).

(** * evm.go, interpreter.go: the changing part

    [evm_jumpdests] is the one map all contracts below an external call share;
    [evm_ticks] counts the tests of the abort flag. *)

Record EVM (DB : Type) := MkEVM {
  evm_StateDB : DB; evm_depth : Z; evm_readOnly : bool; evm_returnData : bytes;
  evm_callGasTemp : Z; evm_jumpdests : destinations; evm_ticks : nat }.
Arguments MkEVM {DB}.
Arguments evm_StateDB {DB}.
Arguments evm_depth {DB}.
Arguments evm_readOnly {DB}.
Arguments evm_returnData {DB}.
Arguments evm_callGasTemp {DB}.
Arguments evm_jumpdests {DB}.
Arguments evm_ticks {DB}.

Section evm_updates.
Context {DB : Type}.
Implicit Types e : EVM DB.
Definition set_StateDB e (db : DB) := MkEVM db (evm_depth e) (evm_readOnly e) (evm_returnData e) (evm_callGasTemp e) (evm_jumpdests e) (evm_ticks e).
Definition set_depth e d := MkEVM (evm_StateDB e) d (evm_readOnly e) (evm_returnData e) (evm_callGasTemp e) (evm_jumpdests e) (evm_ticks e).
Definition set_readOnly e b := MkEVM (evm_StateDB e) (evm_depth e) b (evm_returnData e) (evm_callGasTemp e) (evm_jumpdests e) (evm_ticks e).
Definition set_returnData e r := MkEVM (evm_StateDB e) (evm_depth e) (evm_readOnly e) r (evm_callGasTemp e) (evm_jumpdests e) (evm_ticks e).
Definition set_callGasTemp e g := MkEVM (evm_StateDB e) (evm_depth e) (evm_readOnly e) (evm_returnData e) g (evm_jumpdests e) (evm_ticks e).
Definition set_jumpdests e d := MkEVM (evm_StateDB e) (evm_depth e) (evm_readOnly e) (evm_returnData e) (evm_callGasTemp e) d (evm_ticks e).
Definition set_ticks e n := MkEVM (evm_StateDB e) (evm_depth e) (evm_readOnly e) (evm_returnData e) (evm_callGasTemp e) (evm_jumpdests e) n.
End evm_updates.

Record Frame (DB : Type) := MkFrame {
  f_evm : EVM DB; f_contract : Contract; f_mem : Memory; f_stack : Stack; f_pc : Z }.
Arguments MkFrame {DB}.
Arguments f_evm {DB}.
Arguments f_contract {DB}.
Arguments f_mem {DB}.
Arguments f_stack {DB}.
Arguments f_pc {DB}.

(** * The monad *)

Section monad.
Context {DB : Type}.
Implicit Types f : Frame DB.

Definition VM (A : Type) : Type := Frame DB -> outcome Empty_set (Frame DB * (vm_error + A)).

Definition vret {A} (a : A) : VM A := fun f => Ok (f, inr a).
Definition vfail {A} (e : vm_error) : VM A := fun f => Ok (f, inl e).
Definition vbind {A B} (m : VM A) (k : A -> VM B) : VM B := fun f =>
  match m f with
  | Ok (f, inr a) => k a f
  | Ok (f, inl e) => Ok (f, inl e)
  | Err e => Err e
  | Panic => Panic
  | NoFuel => NoFuel
  end.

(** Reading a component. *)
Definition vget {A} (g : Frame DB -> A) : VM A := fun f => Ok (f, inr (g f)).
Definition vmod (g : Frame DB -> Frame DB) : VM unit := fun f => Ok (g f, inr tt).
Definition vlift {A} (o : outcome vm_error A) : VM A := fun f =>
  match o with
  | Ok a => Ok (f, inr a)
  | Err e => Ok (f, inl e)
  | Panic => Panic
  | NoFuel => NoFuel
  end.

Definition with_evm f (e : EVM DB) := MkFrame e (f_contract f) (f_mem f) (f_stack f) (f_pc f).
Definition with_contract f c := MkFrame (f_evm f) c (f_mem f) (f_stack f) (f_pc f).
Definition with_mem f m := MkFrame (f_evm f) (f_contract f) m (f_stack f) (f_pc f).
Definition with_stack f s := MkFrame (f_evm f) (f_contract f) (f_mem f) s (f_pc f).
Definition with_pc f pc := MkFrame (f_evm f) (f_contract f) (f_mem f) (f_stack f) pc.
Definition f_db f : DB := evm_StateDB (f_evm f).
Definition with_db f (db : DB) := with_evm f (set_StateDB (f_evm f) db).
End monad.
Arguments VM : clear implicits.

Declare Scope vm_scope.
Notation "'do' x <- m ; k" := (vbind m (fun x => k))
  (at level 10, x pattern, m at level 100, k at level 200) : vm_scope.
Notation "m ;; k" := (vbind m (fun _ => k))
  (at level 100, right associativity) : vm_scope.
Local Open Scope vm_scope.

Section stack_ops.
Context {DB : Type}.

(** [stack.pop()], [stack.push(x)], [stack.peek()], [stack.Back(n)]; [poke] is an
    assignment through the pointer that [peek] returned. *)
Definition pop : VM DB Z :=
  do st <- vget f_stack;
  do (d, st) <- vlift (st_pop st);
  vmod (fun f => with_stack f st);; vret d.
Definition push (d : Z) : VM DB unit := vmod (fun f => with_stack f (st_push d (f_stack f))).
Definition peek : VM DB Z := do st <- vget f_stack; vlift (st_peek st).
Definition poke (d : Z) : VM DB unit :=
  do st <- vget f_stack;
  do (_, st) <- vlift (st_pop st);
  vmod (fun f => with_stack f (st_push d st)).
Definition Back (n : nat) : VM DB Z := do st <- vget f_stack; vlift (st_Back st n).

Definition mem_Set (offset size : Z) (value : bytes) : VM DB unit :=
  do m <- vget f_mem; do m <- vlift (m_Set offset size value m); vmod (fun f => with_mem f m).
Definition mem_Get (offset size : Z) : VM DB bytes :=
  do m <- vget f_mem; vlift (m_Get offset size m).
Definition mem_GetPtr (offset size : Z) : VM DB bytes :=
  do m <- vget f_mem; vlift (m_GetPtr offset size m).
End stack_ops.
