(* ===== verification/VmGas.v ===== *)
(** Gas: [src/core/vm/gas.go], [gas_table.go] and [memory_table.go].

    A gas function computes what an instruction costs before it runs.  It may change the
    machine: it records the fee paid for memory so far, the gas granted to a call, and
    refunds. *)

From stdpp Require Import base numbers list.
From S2P Require Import Prelude.
From S2P Require Import CommonMath.
From S2P Require Import Params.
From S2P Require Import VmData.
From S2P Require Import VmAnalysis.
From S2P Require Import VmState.
Local Open Scope Z_scope.
Local Open Scope go_scope.
Local Open Scope vm_scope.

(** * gas.go *)

Definition GasQuickStep : Z := 2.
Definition GasFastestStep : Z := 3.
Definition GasFastStep : Z := 5.
Definition GasMidStep : Z := 8.
Definition GasSlowStep : Z := 10.
Definition GasExtStep : Z := 20.

Definition callGas (gt : GasTable) (availableGas base callCost : Z) : outcome vm_error Z :=
  let plain := if bitlen callCost >? 64 then Err errGasUintOverflow else Ok (u64 callCost) in
  if gt_CreateBySuicide gt >? 0 then
    let availableGas := u64 (availableGas - base) in
    let gas := u64 (availableGas - availableGas / 64) in
    if (bitlen callCost >? 64) || (gas <? u64 callCost) then Ok gas else plain
  else plain.

(** * memory_table.go *)

Definition memSize2 (off len : nat) (st : Stack) : outcome vm_error Z :=
  let! off := st_Back st off in let! len := st_Back st len in Ok (calcMemSize off len).
Definition memSizeConst (off : nat) (len : Z) (st : Stack) : outcome vm_error Z :=
  let! off := st_Back st off in Ok (calcMemSize off len).
Definition memSizeMax (x y : Stack -> outcome vm_error Z) (st : Stack) : outcome vm_error Z :=
  let! x := x st in let! y := y st in Ok (BigMax x y).

Definition memorySha3 : Stack -> outcome vm_error Z := memSize2 0 1.
Definition memoryCallDataCopy : Stack -> outcome vm_error Z := memSize2 0 2.
Definition memoryReturnDataCopy : Stack -> outcome vm_error Z := memSize2 0 2.
Definition memoryCodeCopy : Stack -> outcome vm_error Z := memSize2 0 2.
Definition memoryExtCodeCopy : Stack -> outcome vm_error Z := memSize2 1 3.
Definition memoryMLoad : Stack -> outcome vm_error Z := memSizeConst 0 32.
Definition memoryMStore8 : Stack -> outcome vm_error Z := memSizeConst 0 1.
Definition memoryMStore : Stack -> outcome vm_error Z := memSizeConst 0 32.
Definition memoryCreate : Stack -> outcome vm_error Z := memSize2 1 2.
Definition memoryCall : Stack -> outcome vm_error Z := memSizeMax (memSize2 5 6) (memSize2 3 4).
Definition memoryDelegateCall : Stack -> outcome vm_error Z := memSizeMax (memSize2 4 5) (memSize2 2 3).
Definition memoryStaticCall : Stack -> outcome vm_error Z := memSizeMax (memSize2 4 5) (memSize2 2 3).
Definition memoryReturn : Stack -> outcome vm_error Z := memSize2 0 1.
Definition memoryRevert : Stack -> outcome vm_error Z := memSize2 0 1.
Definition memoryLog : Stack -> outcome vm_error Z := memSize2 0 1.

(** * gas_table.go *)

Section gas.
Context {DB : Type} `{StateDB DB} (env : Env).
Let gt : GasTable := e_gasTable env.

Definition memoryGasCost (newMemSize : Z) : VM DB Z :=
  if newMemSize =? 0 then vret 0
  else if newMemSize >? 0xffffffffe0 then vfail errGasUintOverflow
  else
    let newMemSizeWords := toWordSize newMemSize in
    let newMemSize := u64 (newMemSizeWords * 32) in
    do mem <- vget f_mem;
    if newMemSize >? u64 (m_Len mem) then
      let square := u64 (newMemSizeWords * newMemSizeWords) in
      let linCoef := u64 (newMemSizeWords * MemoryGas) in
      let quadCoef := square / QuadCoeffDiv in
      let newTotalFee := u64 (linCoef + quadCoef) in
      let fee := u64 (newTotalFee - m_lastGasCost mem) in
      vmod (fun f => with_mem f (MkMemory (m_store (f_mem f)) newTotalFee));;
      vret fee
    else vret 0.

(** [math.SafeAdd], [math.SafeMul] and [bigUint64] followed by the overflow test. *)
Definition safeAdd (x y : Z) : VM DB Z :=
  let (r, overflow) := SafeAdd x y in if overflow then vfail errGasUintOverflow else vret r.
Definition safeMul (x y : Z) : VM DB Z :=
  let (r, overflow) := SafeMul x y in if overflow then vfail errGasUintOverflow else vret r.
Definition toUint64 (v : Z) : VM DB Z :=
  let (r, overflow) := bigUint64 v in if overflow then vfail errGasUintOverflow else vret r.

Definition constGasFunc (gas : Z) (memorySize : Z) : VM DB Z := vret gas.

(** The shape of the copying instructions: memory, a base price, and a price per word of
    the length found at depth [len]. *)
Definition gasCopy (base perWord : Z) (len : nat) (memorySize : Z) : VM DB Z :=
  do gas <- memoryGasCost memorySize;
  do gas <- safeAdd gas base;
  do l <- Back len;
  do words <- toUint64 l;
  do words <- safeMul (toWordSize words) perWord;
  safeAdd gas words.

Definition gasCallDataCopy : Z -> VM DB Z := gasCopy GasFastestStep CopyGas 2.
Definition gasReturnDataCopy : Z -> VM DB Z := gasCopy GasFastestStep CopyGas 2.
Definition gasSha3 : Z -> VM DB Z := gasCopy Sha3Gas Sha3WordGas 1.
Definition gasCodeCopy : Z -> VM DB Z := gasCopy GasFastestStep CopyGas 2.
Definition gasExtCodeCopy : Z -> VM DB Z := gasCopy (gt_ExtcodeCopy gt) CopyGas 3.

Definition gasSStore (memorySize : Z) : VM DB Z :=
  do y <- Back 1;
  do x <- Back 0;
  do val <- vget (fun f => GetState (f_db f) (c_self (f_contract f)) (BigToHash x));
  if EmptyHash val && negb (EmptyHash (BigToHash y)) then vret SstoreSetGas
  else if negb (EmptyHash val) && EmptyHash (BigToHash y) then
    vmod (fun f => with_db f (AddRefund SstoreRefundGas (f_db f)));; vret SstoreClearGas
  else vret SstoreResetGas.

Definition makeGasLog (n memorySize : Z) : VM DB Z :=
  do size <- Back 1;
  do requestedSize <- toUint64 size;
  do gas <- memoryGasCost memorySize;
  do gas <- safeAdd gas LogGas;
  do gas <- safeAdd gas (u64 (n * LogTopicGas));
  do memorySizeGas <- safeMul requestedSize LogDataGas;
  safeAdd gas memorySizeGas.

(** [gasMLoad], [gasMStore], [gasMStore8] map any error to the overflow error. *)
Definition gasMLoad (memorySize : Z) : VM DB Z :=
  do gas <- (fun f => match memoryGasCost memorySize f with
                      | Ok (f, inl _) => Ok (f, inl errGasUintOverflow)
                      | r => r
                      end);
  safeAdd gas GasFastestStep.
Definition gasMStore8 : Z -> VM DB Z := gasMLoad.
Definition gasMStore : Z -> VM DB Z := gasMLoad.

Definition gasCreate (memorySize : Z) : VM DB Z :=
  do gas <- memoryGasCost memorySize; safeAdd gas CreateGas.

Definition gasBalance (memorySize : Z) : VM DB Z := vret (gt_Balance gt).
Definition gasExtCodeSize (memorySize : Z) : VM DB Z := vret (gt_ExtcodeSize gt).
Definition gasSLoad (memorySize : Z) : VM DB Z := vret (gt_SLoad gt).

Definition gasExp (memorySize : Z) : VM DB Z :=
  do exponent <- Back 1;
  let expByteLen := u64 ((bitlen exponent + 7) / 8) in
  safeAdd (u64 (expByteLen * gt_ExpByte gt)) GasSlowStep.

(** The common end of the call instructions: grant gas to the callee and charge for it. *)
Definition grantCallGas (gas : Z) : VM DB Z :=
  do callCost <- Back 0;
  do available <- vget (fun f => c_Gas (f_contract f));
  match callGas gt available gas callCost with
  | Ok temp => vmod (fun f => with_evm f (set_callGasTemp (f_evm f) temp));; safeAdd gas temp
  | Err e => vmod (fun f => with_evm f (set_callGasTemp (f_evm f) 0));; vfail e
  | r => vlift r
  end.

Definition gasCall (memorySize : Z) : VM DB Z :=
  do v <- Back 2;
  let transfersValue := negb (v =? 0) in
  do a <- Back 1;
  let address := BigToAddress a in
  do db <- vget f_db;
  let gas := gt_Calls gt in
  let gas :=
    if e_IsEIP158 env then
      if transfersValue && Empty db address then u64 (gas + CallNewAccountGas) else gas
    else if negb (Exist db address) then u64 (gas + CallNewAccountGas) else gas in
  let gas := if transfersValue then u64 (gas + CallValueTransferGas) else gas in
  do memoryGas <- memoryGasCost memorySize;
  do gas <- safeAdd gas memoryGas;
  grantCallGas gas.

Definition gasCallCode (memorySize : Z) : VM DB Z :=
  do v <- Back 2;
  let gas := gt_Calls gt in
  let gas := if negb (v =? 0) then u64 (gas + CallValueTransferGas) else gas in
  do memoryGas <- memoryGasCost memorySize;
  do gas <- safeAdd gas memoryGas;
  grantCallGas gas.

Definition gasReturn : Z -> VM DB Z := memoryGasCost.
Definition gasRevert : Z -> VM DB Z := memoryGasCost.

Definition gasSuicide (memorySize : Z) : VM DB Z :=
  do gas <-
    (if e_IsEIP150 env then
       do a <- Back 0;
       let address := BigToAddress a in
       do db <- vget f_db;
       do self <- vget (fun f => c_self (f_contract f));
       let gas := gt_Suicide gt in
       vret (if e_IsEIP158 env then
               if Empty db address && negb (GetBalance db self =? 0)
               then u64 (gas + gt_CreateBySuicide gt) else gas
             else if negb (Exist db address) then u64 (gas + gt_CreateBySuicide gt) else gas)
     else vret 0);
  vmod (fun f => if HasSuicided (f_db f) (c_self (f_contract f)) then f
                 else with_db f (AddRefund SuicideRefundGas (f_db f)));;
  vret gas.

Definition gasDelegateCall (memorySize : Z) : VM DB Z :=
  do gas <- memoryGasCost memorySize;
  do gas <- safeAdd gas (gt_Calls gt);
  grantCallGas gas.
Definition gasStaticCall (memorySize : Z) : VM DB Z :=
  do gas <- memoryGasCost memorySize;
  do gas <- safeAdd gas (gt_Calls gt);
  grantCallGas gas.

Definition gasPush (memorySize : Z) : VM DB Z := vret GasFastestStep.
Definition gasSwap (memorySize : Z) : VM DB Z := vret GasFastestStep.
Definition gasDup (memorySize : Z) : VM DB Z := vret GasFastestStep.
End gas.
