(* ===== verification/VmInstr.v ===== *)
(** The instructions: [src/core/vm/instructions.go].

    Integers popped from the stack are values here; the pool they are recycled through in
    the source never shares a number between two owners.  The calls are parameters
    ([CallOps]), supplied by the machine itself. *)

From stdpp Require Import base numbers list.
From S2P Require Import Prelude.
From S2P Require Import CommonMath.
From S2P Require Import Params.
From S2P Require Import VmData.
From S2P Require Import VmAnalysis.
From S2P Require Import VmState.
Local Open Scope Z_scope.
Local Open Scope go_scope.
Local Open Scope vm_scope.

(** A call returns data, the gas left and possibly an error, all three at once. *)
Definition CallResult : Type := bytes * Z * option vm_error.

Record CallOps (DB : Type) := MkCallOps {
  co_Call : ContractRef -> bytes -> bytes -> Z -> Z -> EVM DB -> outcome Empty_set (EVM DB * CallResult);
  co_CallCode : ContractRef -> bytes -> bytes -> Z -> Z -> EVM DB -> outcome Empty_set (EVM DB * CallResult);
  co_DelegateCall : ContractRef -> bytes -> bytes -> Z -> EVM DB -> outcome Empty_set (EVM DB * CallResult);
  co_StaticCall : ContractRef -> bytes -> bytes -> Z -> EVM DB -> outcome Empty_set (EVM DB * CallResult);
  co_Create : ContractRef -> bytes -> Z -> Z -> EVM DB -> outcome Empty_set (EVM DB * (bytes * CallResult)) }.
Arguments co_Call {DB}.
Arguments co_CallCode {DB}.
Arguments co_DelegateCall {DB}.
Arguments co_StaticCall {DB}.
Arguments co_Create {DB}.
Arguments MkCallOps {DB}.

Section instructions.
Context {DB : Type} `{StateDB DB} (env : Env) (ops : CallOps DB).

Definition bool_word (b : bool) : Z := if b then 1 else 0.

(** ** Arithmetic, comparison and bits *)

Definition opAdd : VM DB bytes := do x <- pop; do y <- peek; poke (U256 (x + y));; vret [].
Definition opSub : VM DB bytes := do x <- pop; do y <- peek; poke (U256 (x - y));; vret [].
Definition opMul : VM DB bytes := do x <- pop; do y <- pop; push (U256 (x * y));; vret [].

Definition opDiv : VM DB bytes :=
  do x <- pop; do y <- peek;
  poke (if negb (y =? 0) then U256 (x / y) else 0);; vret [].

Definition opSdiv : VM DB bytes :=
  do x <- pop; do y <- pop;
  let x := S256 x in let y := S256 y in
  push (if (y =? 0) || (x =? 0) then 0
        else if negb (Z.sgn x =? Z.sgn y) then U256 (- (Z.abs x / Z.abs y))
        else U256 (Z.abs x / Z.abs y));; vret [].

Definition opMod : VM DB bytes :=
  do x <- pop; do y <- pop;
  push (if y =? 0 then 0 else U256 (x mod y));; vret [].

Definition opSmod : VM DB bytes :=
  do x <- pop; do y <- pop;
  let x := S256 x in let y := S256 y in
  push (if y =? 0 then 0
        else if x <? 0 then U256 (- (Z.abs x mod Z.abs y))
        else U256 (Z.abs x mod Z.abs y));; vret [].

Definition opExp : VM DB bytes :=
  do base <- pop; do exponent <- pop; push (fst (Exp base exponent));; vret [].

Definition opSignExtend : VM DB bytes :=
  do back <- pop;
  (if back <? 31 then
     let bit := u64 (u64 back * 8 + 7) in
     do num <- pop;
     let mask := Z.shiftl 1 bit - 1 in
     push (U256 (if Z.testbit num bit then Z.lor num (Z.lnot mask) else Z.land num mask))
   else vret tt);;
  vret [].

Definition opNot : VM DB bytes := do x <- peek; poke (U256 (Z.lnot x));; vret [].
Definition opLt : VM DB bytes := do x <- pop; do y <- peek; poke (bool_word (x <? y));; vret [].
Definition opGt : VM DB bytes := do x <- pop; do y <- peek; poke (bool_word (x >? y));; vret [].

Definition opSlt : VM DB bytes :=
  do x <- pop; do y <- peek;
  poke (if (x >=? tt255) && (y <? tt255) then 1
        else if (x <? tt255) && (y >=? tt255) then 0
        else bool_word (x <? y));; vret [].

Definition opSgt : VM DB bytes :=
  do x <- pop; do y <- peek;
  poke (if (x >=? tt255) && (y <? tt255) then 0
        else if (x <? tt255) && (y >=? tt255) then 1
        else bool_word (x >? y));; vret [].

Definition opEq : VM DB bytes := do x <- pop; do y <- peek; poke (bool_word (x =? y));; vret [].
Definition opIszero : VM DB bytes := do x <- peek; poke (if x >? 0 then 0 else 1);; vret [].
Definition opAnd : VM DB bytes := do x <- pop; do y <- pop; push (Z.land x y);; vret [].
Definition opOr : VM DB bytes := do x <- pop; do y <- peek; poke (Z.lor x y);; vret [].
Definition opXor : VM DB bytes := do x <- pop; do y <- peek; poke (Z.lxor x y);; vret [].

Definition opByte : VM DB bytes :=
  do th <- pop; do val <- peek;
  poke (if th <? 32 then u64 (Byte val 32 (i64 th)) else 0);; vret [].

Definition opAddmod : VM DB bytes :=
  do x <- pop; do y <- pop; do z <- pop;
  push (if z >? 0 then U256 ((x + y) mod z) else 0);; vret [].
Definition opMulmod : VM DB bytes :=
  do x <- pop; do y <- pop; do z <- pop;
  push (if z >? 0 then U256 ((x * y) mod z) else 0);; vret [].

Definition opSHL : VM DB bytes :=
  do shift <- pop; do value <- peek;
  let shift := U256 shift in let value := U256 value in
  poke (if shift >=? 256 then 0 else U256 (Z.shiftl value (u64 shift)));; vret [].

Definition opSHR : VM DB bytes :=
  do shift <- pop; do value <- peek;
  let shift := U256 shift in let value := U256 value in
  poke (if shift >=? 256 then 0 else U256 (Z.shiftr value (u64 shift)));; vret [].

Definition opSAR : VM DB bytes :=
  do shift <- pop; do value <- pop;
  let shift := U256 shift in let value := S256 value in
  push (if shift >=? 256 then U256 (if value >? 0 then 0 else -1)
        else U256 (Z.shiftr value (u64 shift)));; vret [].

(** ** Environment *)

Definition opSha3 : VM DB bytes :=
  do offset <- pop; do size <- pop;
  do data <- mem_Get (i64 offset) (i64 size);
  let hash := Keccak256 env data in
  (if EnablePreimageRecording env
   then vmod (fun f => with_db f (AddPreimage (BytesToHash hash) data (f_db f)))
   else vret tt);;
  push (be_val hash);; vret [].

Definition opAddress : VM DB bytes :=
  do self <- vget (fun f => c_self (f_contract f)); push (Address_Big self);; vret [].
Definition opBalance : VM DB bytes :=
  do slot <- peek;
  do b <- vget (fun f => GetBalance (f_db f) (BigToAddress slot));
  poke b;; vret [].
Definition opOrigin : VM DB bytes := push (Address_Big (Origin env));; vret [].
Definition opCaller : VM DB bytes :=
  do caller <- vget (fun f => c_CallerAddress (f_contract f)); push (Address_Big caller);; vret [].
Definition opCallValue : VM DB bytes :=
  do value <- vget (fun f => c_value (f_contract f)); push value;; vret [].

Definition opCallDataLoad : VM DB bytes :=
  do start <- pop;
  do input <- vget (fun f => c_Input (f_contract f));
  do d <- vlift (getDataBig input start 32);
  push (be_val d);; vret [].
Definition opCallDataSize : VM DB bytes :=
  do input <- vget (fun f => c_Input (f_contract f)); push (zlen input);; vret [].
Definition opCallDataCopy : VM DB bytes :=
  do memOffset <- pop; do dataOffset <- pop; do length <- pop;
  do input <- vget (fun f => c_Input (f_contract f));
  do d <- vlift (getDataBig input dataOffset length);
  mem_Set (u64 memOffset) (u64 length) d;; vret [].

Definition opReturnDataSize : VM DB bytes :=
  do d <- vget (fun f => evm_returnData (f_evm f)); push (u64 (zlen d));; vret [].
Definition opReturnDataCopy : VM DB bytes :=
  do memOffset <- pop; do dataOffset <- pop; do length <- pop;
  let e := dataOffset + length in
  do returnData <- vget (fun f => evm_returnData (f_evm f));
  if (bitlen e >? 64) || (u64 (zlen returnData) <? u64 e) then vfail errReturnDataOutOfBounds
  else
    do d <- vlift (must (zslice returnData (u64 dataOffset) (u64 e)));
    mem_Set (u64 memOffset) (u64 length) d;; vret [].

Definition opExtCodeSize : VM DB bytes :=
  do slot <- peek;
  do size <- vget (fun f => GetCodeSize (f_db f) (BigToAddress slot));
  poke (u64 size);; vret [].
Definition opCodeSize : VM DB bytes :=
  do code <- vget (fun f => c_Code (f_contract f)); push (zlen code);; vret [].
Definition opCodeCopy : VM DB bytes :=
  do memOffset <- pop; do codeOffset <- pop; do length <- pop;
  do code <- vget (fun f => c_Code (f_contract f));
  do codeCopy <- vlift (getDataBig code codeOffset length);
  mem_Set (u64 memOffset) (u64 length) codeCopy;; vret [].
Definition opExtCodeCopy : VM DB bytes :=
  do addr <- pop; do memOffset <- pop; do codeOffset <- pop; do length <- pop;
  do code <- vget (fun f => GetCode (f_db f) (BigToAddress addr));
  do codeCopy <- vlift (getDataBig code codeOffset length);
  mem_Set (u64 memOffset) (u64 length) codeCopy;; vret [].

Definition opGasprice : VM DB bytes := push (GasPrice env);; vret [].
Definition opBlockhash : VM DB bytes :=
  do num <- pop;
  let n := BlockNumber env - 257 in
  push (if (num >? n) && (num <? BlockNumber env) then Hash_Big (GetHash env (u64 num)) else 0);; vret [].
Definition opCoinbase : VM DB bytes := push (Address_Big (Coinbase env));; vret [].
Definition opTimestamp : VM DB bytes := push (U256 (Time env));; vret [].
Definition opNumber : VM DB bytes := push (U256 (BlockNumber env));; vret [].
Definition opDifficulty : VM DB bytes := push (U256 (Difficulty env));; vret [].
Definition opGasLimit : VM DB bytes := push (U256 (GasLimit env));; vret [].

(** ** Stack, memory, storage and control flow *)

Definition opPop : VM DB bytes := do _ <- pop; vret [].
Definition opMload : VM DB bytes :=
  do offset <- pop; do d <- mem_Get (i64 offset) 32; push (be_val d);; vret [].
Definition opMstore : VM DB bytes :=
  do mStart <- pop; do val <- pop;
  mem_Set (u64 mStart) 32 (PaddedBigBytes val 32);; vret [].
Definition opMstore8 : VM DB bytes :=
  do off <- pop; do val <- pop;
  do m <- vget f_mem;
  do m <- vlift (m_SetByte (i64 off) (u8 (Z.land (i64 val) 0xff)) m);
  vmod (fun f => with_mem f m);; vret [].

Definition opSload : VM DB bytes :=
  do loc <- pop;
  do val <- vget (fun f => GetState (f_db f) (c_self (f_contract f)) (BigToHash loc));
  push (Hash_Big val);; vret [].
Definition opSstore : VM DB bytes :=
  do loc <- pop; do val <- pop;
  vmod (fun f => with_db f (SetState (c_self (f_contract f)) (BigToHash loc) (BigToHash val) (f_db f)));; vret [].

(** [contract.jumpdests.has(contract.CodeHash, contract.Code, pos)] *)
Definition jump_ok (pos : Z) : VM DB bool :=
  do d <- vget (fun f => evm_jumpdests (f_evm f));
  do c <- vget f_contract;
  do (d, ok) <- vlift (dests_has d (c_CodeHash c) (c_Code c) pos);
  vmod (fun f => with_evm f (set_jumpdests (f_evm f) d));; vret ok.

Definition jump_to (pos : Z) : VM DB unit :=
  do ok <- jump_ok pos;
  if negb ok then
    do nop <- vget (fun f => GetOp (f_contract f) (u64 pos)); vfail (errInvalidJump nop pos)
  else vmod (fun f => with_pc f (u64 pos)).

Definition opJump : VM DB bytes := do pos <- pop; jump_to pos;; vret [].
Definition opJumpi : VM DB bytes :=
  do pos <- pop; do cond <- pop;
  (if negb (cond =? 0) then jump_to pos else vmod (fun f => with_pc f (u64 (f_pc f + 1))));; vret [].
Definition opJumpdest : VM DB bytes := vret [].
Definition opPc : VM DB bytes := do pc <- vget f_pc; push pc;; vret [].
Definition opMsize : VM DB bytes := do m <- vget f_mem; push (m_Len m);; vret [].
Definition opGas : VM DB bytes := do gas <- vget (fun f => c_Gas (f_contract f)); push gas;; vret [].

(** ** Calls *)

(** Running an operation of the machine from an instruction. *)
Definition vcall {A} (g : EVM DB -> outcome Empty_set (EVM DB * A)) : VM DB A := fun f =>
  match g (f_evm f) with
  | Ok (e, a) => Ok (with_evm f e, inr a)
  | Err e => Err e
  | Panic => Panic
  | NoFuel => NoFuel
  end.

(** [contract.Gas += returnGas] *)
Definition addGas (returnGas : Z) : VM DB unit :=
  vmod (fun f => with_contract f (set_Gas (f_contract f) (u64 (c_Gas (f_contract f) + returnGas)))).

Definition opCreate : VM DB bytes :=
  do value <- pop; do offset <- pop; do size <- pop;
  do input <- mem_Get (i64 offset) (i64 size);
  do gas <- vget (fun f => c_Gas (f_contract f));
  let gas := if e_IsEIP150 env then u64 (gas - gas / 64) else gas in
  vmod (fun f => with_contract f (fst (UseGas gas (f_contract f))));;
  do contract <- vget f_contract;
  do (addr, (res, returnGas, suberr)) <- vcall (co_Create ops (RefContract contract) input gas value);
  push (if e_IsHomestead env && bool_decide (suberr = Some ErrCodeStoreOutOfGas) then 0
        else if negb (bool_decide (suberr = None)) && negb (bool_decide (suberr = Some ErrCodeStoreOutOfGas)) then 0
        else Address_Big addr);;
  addGas returnGas;;
  vret (if bool_decide (suberr = Some errExecutionReverted) then res else []).

(** The common end of the four call instructions: the result flag, the returned data, and
    the gas the callee left. *)
Definition finishCall (retOffset retSize : Z) (r : CallResult) : VM DB bytes :=
  let '(ret, returnGas, err) := r in
  push (if negb (bool_decide (err = None)) then 0 else 1);;
  (if bool_decide (err = None) || bool_decide (err = Some errExecutionReverted)
   then mem_Set (u64 retOffset) (u64 retSize) ret else vret tt);;
  addGas returnGas;;
  vret ret.

Definition opCall : VM DB bytes :=
  do _ <- pop;
  do gas <- vget (fun f => evm_callGasTemp (f_evm f));
  do addr <- pop; do value <- pop; do inOffset <- pop; do inSize <- pop; do retOffset <- pop; do retSize <- pop;
  let toAddr := BigToAddress addr in
  let value := U256 value in
  do args <- mem_Get (i64 inOffset) (i64 inSize);
  let gas := if negb (value =? 0) then u64 (gas + CallStipend) else gas in
  do contract <- vget f_contract;
  do r <- vcall (co_Call ops (RefContract contract) toAddr args gas value);
  finishCall retOffset retSize r.

Definition opCallCode : VM DB bytes :=
  do _ <- pop;
  do gas <- vget (fun f => evm_callGasTemp (f_evm f));
  do addr <- pop; do value <- pop; do inOffset <- pop; do inSize <- pop; do retOffset <- pop; do retSize <- pop;
  let toAddr := BigToAddress addr in
  let value := U256 value in
  do args <- mem_Get (i64 inOffset) (i64 inSize);
  let gas := if negb (value =? 0) then u64 (gas + CallStipend) else gas in
  do contract <- vget f_contract;
  do r <- vcall (co_CallCode ops (RefContract contract) toAddr args gas value);
  finishCall retOffset retSize r.

Definition opDelegateCall : VM DB bytes :=
  do _ <- pop;
  do gas <- vget (fun f => evm_callGasTemp (f_evm f));
  do addr <- pop; do inOffset <- pop; do inSize <- pop; do retOffset <- pop; do retSize <- pop;
  let toAddr := BigToAddress addr in
  do args <- mem_Get (i64 inOffset) (i64 inSize);
  do contract <- vget f_contract;
  do r <- vcall (co_DelegateCall ops (RefContract contract) toAddr args gas);
  finishCall retOffset retSize r.

Definition opStaticCall : VM DB bytes :=
  do _ <- pop;
  do gas <- vget (fun f => evm_callGasTemp (f_evm f));
  do addr <- pop; do inOffset <- pop; do inSize <- pop; do retOffset <- pop; do retSize <- pop;
  let toAddr := BigToAddress addr in
  do args <- mem_Get (i64 inOffset) (i64 inSize);
  do contract <- vget f_contract;
  do r <- vcall (co_StaticCall ops (RefContract contract) toAddr args gas);
  finishCall retOffset retSize r.

Definition opReturn : VM DB bytes := do offset <- pop; do size <- pop; mem_GetPtr (i64 offset) (i64 size).
Definition opRevert : VM DB bytes := do offset <- pop; do size <- pop; mem_GetPtr (i64 offset) (i64 size).
Definition opStop : VM DB bytes := vret [].

Definition opSuicide : VM DB bytes :=
  do self <- vget (fun f => c_self (f_contract f));
  do balance <- vget (fun f => GetBalance (f_db f) self);
  do a <- pop;
  vmod (fun f => with_db f (AddBalance (BigToAddress a) balance (f_db f)));;
  vmod (fun f => with_db f (fst (Suicide self (f_db f))));; vret [].

(** ** Families of instructions *)

Fixpoint pop_topics (n : nat) : VM DB (list bytes) :=
  match n with
  | O => vret []
  | S n => do t <- pop; do ts <- pop_topics n; vret (BigToHash t :: ts)
  end.

Definition makeLog (size : nat) : VM DB bytes :=
  do mStart <- pop; do mSize <- pop;
  do topics <- pop_topics size;
  do d <- mem_Get (i64 mStart) (i64 mSize);
  vmod (fun f => with_db f (AddLog (MkLog (c_self (f_contract f)) topics d (u64 (BlockNumber env))) (f_db f)));;
  vret [].

Definition makePush (size pushByteSize : Z) : VM DB bytes :=
  do code <- vget (fun f => c_Code (f_contract f));
  do pc <- vget f_pc;
  let codeLen := zlen code in
  let startMin := if i64 (u64 (pc + 1)) <? codeLen then i64 (u64 (pc + 1)) else codeLen in
  let endMin := if startMin + pushByteSize <? codeLen then startMin + pushByteSize else codeLen in
  do d <- vlift (must (zslice code startMin endMin));
  push (be_val (RightPadBytes d pushByteSize));;
  vmod (fun f => with_pc f (u64 (f_pc f + size)));; vret [].

Definition makeDup (size : nat) : VM DB bytes :=
  do st <- vget f_stack; do st <- vlift (st_dup size st); vmod (fun f => with_stack f st);; vret [].

Definition makeSwap (size : nat) : VM DB bytes :=
  do st <- vget f_stack; do st <- vlift (st_swap (size + 1) st); vmod (fun f => with_stack f st);; vret [].
End instructions.
