(* ===== verification/VmJumpTable.v ===== *)
(** The instruction tables: [src/core/vm/jump_table.go].

    A table is an array of 256 operations; here an association list in which the first
    entry for an opcode counts and an opcode without entry has the zero operation, which is
    not valid.  A later fork's table overrides entries of the earlier one. *)

From stdpp Require Import base numbers list.
From S2P Require Import Prelude.
From S2P Require Import Params.
From S2P Require Import VmData.
From S2P Require Import VmState.
From S2P Require Import VmGas.
From S2P Require Import VmInstr.
Local Open Scope Z_scope.

Record operation (DB : Type) := MkOperation {
  execute : VM DB bytes;
  gasCost : Z -> VM DB Z;
  validateStack : Stack -> outcome vm_error unit;
  memorySize : option (Stack -> outcome vm_error Z);
  halts : bool; jumps : bool; writes : bool; valid : bool; reverts : bool; returns : bool }.
Arguments MkOperation {DB}.
Arguments execute {DB}.
Arguments gasCost {DB}.
Arguments validateStack {DB}.
Arguments memorySize {DB}.
Arguments halts {DB}.
Arguments jumps {DB}.
Arguments writes {DB}.
Arguments valid {DB}.
Arguments reverts {DB}.
Arguments returns {DB}.

Section builders.
Context {DB : Type}.
Implicit Types o : operation DB.
(** A valid operation, and the flags that may be added to one. *)
Definition op (e : VM DB bytes) (g : Z -> VM DB Z) (v : Stack -> outcome vm_error unit)
    (m : option (Stack -> outcome vm_error Z)) : operation DB :=
  MkOperation e g v m false false false true false false.
Definition halting o := MkOperation (execute o) (gasCost o) (validateStack o) (memorySize o) true (jumps o) (writes o) (valid o) (reverts o) (returns o).
Definition jumping o := MkOperation (execute o) (gasCost o) (validateStack o) (memorySize o) (halts o) true (writes o) (valid o) (reverts o) (returns o).
Definition writing o := MkOperation (execute o) (gasCost o) (validateStack o) (memorySize o) (halts o) (jumps o) true (valid o) (reverts o) (returns o).
Definition reverting o := MkOperation (execute o) (gasCost o) (validateStack o) (memorySize o) (halts o) (jumps o) (writes o) (valid o) true (returns o).
Definition returning o := MkOperation (execute o) (gasCost o) (validateStack o) (memorySize o) (halts o) (jumps o) (writes o) (valid o) (reverts o) true.
(** The zero value of the type. *)
Definition noOperation : operation DB :=
  MkOperation (vret []) (fun _ => vret 0) (fun _ => Ok tt) None false false false false false false.

Fixpoint table_get (t : list (Z * operation DB)) (opcode : Z) : operation DB :=
  match t with
  | [] => noOperation
  | (c, o) :: t => if c =? opcode then o else table_get t opcode
  end.
End builders.

Section tables.
Context {DB : Type} `{StateDB DB} (env : Env) (ops : CallOps DB).

Definition frontierArithmetic : list (Z * operation DB) :=
  [(STOP, halting (op opStop (constGasFunc 0) (makeStackFunc 0 0) None));
   (ADD, op opAdd (constGasFunc GasFastestStep) (makeStackFunc 2 1) None);
   (MUL, op opMul (constGasFunc GasFastStep) (makeStackFunc 2 1) None);
   (SUB, op opSub (constGasFunc GasFastestStep) (makeStackFunc 2 1) None);
   (DIV, op opDiv (constGasFunc GasFastStep) (makeStackFunc 2 1) None);
   (SDIV, op opSdiv (constGasFunc GasFastStep) (makeStackFunc 2 1) None);
   (MOD, op opMod (constGasFunc GasFastStep) (makeStackFunc 2 1) None);
   (SMOD, op opSmod (constGasFunc GasFastStep) (makeStackFunc 2 1) None);
   (ADDMOD, op opAddmod (constGasFunc GasMidStep) (makeStackFunc 3 1) None);
   (MULMOD, op opMulmod (constGasFunc GasMidStep) (makeStackFunc 3 1) None);
   (EXP, op opExp (gasExp env) (makeStackFunc 2 1) None);
   (SIGNEXTEND, op opSignExtend (constGasFunc GasFastStep) (makeStackFunc 2 1) None);
   (LT, op opLt (constGasFunc GasFastestStep) (makeStackFunc 2 1) None);
   (GT, op opGt (constGasFunc GasFastestStep) (makeStackFunc 2 1) None);
   (SLT, op opSlt (constGasFunc GasFastestStep) (makeStackFunc 2 1) None);
   (SGT, op opSgt (constGasFunc GasFastestStep) (makeStackFunc 2 1) None);
   (EQ, op opEq (constGasFunc GasFastestStep) (makeStackFunc 2 1) None);
   (ISZERO, op opIszero (constGasFunc GasFastestStep) (makeStackFunc 1 1) None);
   (AND, op opAnd (constGasFunc GasFastestStep) (makeStackFunc 2 1) None);
   (XOR, op opXor (constGasFunc GasFastestStep) (makeStackFunc 2 1) None);
   (OR, op opOr (constGasFunc GasFastestStep) (makeStackFunc 2 1) None);
   (NOT, op opNot (constGasFunc GasFastestStep) (makeStackFunc 1 1) None);
   (BYTE, op opByte (constGasFunc GasFastestStep) (makeStackFunc 2 1) None)].

Definition frontierEnvironment : list (Z * operation DB) :=
  [(SHA3, op (opSha3 env) gasSha3 (makeStackFunc 2 1) (Some memorySha3));
   (ADDRESS, op opAddress (constGasFunc GasQuickStep) (makeStackFunc 0 1) None);
   (BALANCE, op opBalance (gasBalance env) (makeStackFunc 1 1) None);
   (ORIGIN, op (opOrigin env) (constGasFunc GasQuickStep) (makeStackFunc 0 1) None);
   (CALLER, op opCaller (constGasFunc GasQuickStep) (makeStackFunc 0 1) None);
   (CALLVALUE, op opCallValue (constGasFunc GasQuickStep) (makeStackFunc 0 1) None);
   (CALLDATALOAD, op opCallDataLoad (constGasFunc GasFastestStep) (makeStackFunc 1 1) None);
   (CALLDATASIZE, op opCallDataSize (constGasFunc GasQuickStep) (makeStackFunc 0 1) None);
   (CALLDATACOPY, op opCallDataCopy gasCallDataCopy (makeStackFunc 3 0) (Some memoryCallDataCopy));
   (CODESIZE, op opCodeSize (constGasFunc GasQuickStep) (makeStackFunc 0 1) None);
   (CODECOPY, op opCodeCopy gasCodeCopy (makeStackFunc 3 0) (Some memoryCodeCopy));
   (GASPRICE, op (opGasprice env) (constGasFunc GasQuickStep) (makeStackFunc 0 1) None);
   (EXTCODESIZE, op opExtCodeSize (gasExtCodeSize env) (makeStackFunc 1 1) None);
   (EXTCODECOPY, op opExtCodeCopy (gasExtCodeCopy env) (makeStackFunc 4 0) (Some memoryExtCodeCopy))].

Definition frontierBlock : list (Z * operation DB) :=
  [(BLOCKHASH, op (opBlockhash env) (constGasFunc GasExtStep) (makeStackFunc 1 1) None);
   (COINBASE, op (opCoinbase env) (constGasFunc GasQuickStep) (makeStackFunc 0 1) None);
   (TIMESTAMP, op (opTimestamp env) (constGasFunc GasQuickStep) (makeStackFunc 0 1) None);
   (NUMBER, op (opNumber env) (constGasFunc GasQuickStep) (makeStackFunc 0 1) None);
   (DIFFICULTY, op (opDifficulty env) (constGasFunc GasQuickStep) (makeStackFunc 0 1) None);
   (GASLIMIT, op (opGasLimit env) (constGasFunc GasQuickStep) (makeStackFunc 0 1) None);
   (POP, op opPop (constGasFunc GasQuickStep) (makeStackFunc 1 0) None);
   (MLOAD, op opMload gasMLoad (makeStackFunc 1 1) (Some memoryMLoad));
   (MSTORE, op opMstore gasMStore (makeStackFunc 2 0) (Some memoryMStore));
   (MSTORE8, op opMstore8 gasMStore8 (makeStackFunc 2 0) (Some memoryMStore8));
   (SLOAD, op opSload (gasSLoad env) (makeStackFunc 1 1) None);
   (SSTORE, writing (op opSstore gasSStore (makeStackFunc 2 0) None));
   (JUMP, jumping (op opJump (constGasFunc GasMidStep) (makeStackFunc 1 0) None));
   (JUMPI, jumping (op opJumpi (constGasFunc GasSlowStep) (makeStackFunc 2 0) None));
   (PC, op opPc (constGasFunc GasQuickStep) (makeStackFunc 0 1) None);
   (MSIZE, op opMsize (constGasFunc GasQuickStep) (makeStackFunc 0 1) None);
   (GAS, op opGas (constGasFunc GasQuickStep) (makeStackFunc 0 1) None);
   (JUMPDEST, op opJumpdest (constGasFunc JumpdestGas) (makeStackFunc 0 0) None)].

Definition frontierPush : list (Z * operation DB) :=
  [(PUSH1, op (makePush 1 1) gasPush (makeStackFunc 0 1) None);
   (PUSH2, op (makePush 2 2) gasPush (makeStackFunc 0 1) None);
   (PUSH3, op (makePush 3 3) gasPush (makeStackFunc 0 1) None);
   (PUSH4, op (makePush 4 4) gasPush (makeStackFunc 0 1) None);
   (PUSH5, op (makePush 5 5) gasPush (makeStackFunc 0 1) None);
   (PUSH6, op (makePush 6 6) gasPush (makeStackFunc 0 1) None);
   (PUSH7, op (makePush 7 7) gasPush (makeStackFunc 0 1) None);
   (PUSH8, op (makePush 8 8) gasPush (makeStackFunc 0 1) None);
   (PUSH9, op (makePush 9 9) gasPush (makeStackFunc 0 1) None);
   (PUSH10, op (makePush 10 10) gasPush (makeStackFunc 0 1) None);
   (PUSH11, op (makePush 11 11) gasPush (makeStackFunc 0 1) None);
   (PUSH12, op (makePush 12 12) gasPush (makeStackFunc 0 1) None);
   (PUSH13, op (makePush 13 13) gasPush (makeStackFunc 0 1) None);
   (PUSH14, op (makePush 14 14) gasPush (makeStackFunc 0 1) None);
   (PUSH15, op (makePush 15 15) gasPush (makeStackFunc 0 1) None);
   (PUSH16, op (makePush 16 16) gasPush (makeStackFunc 0 1) None)].

Definition frontierPush2 : list (Z * operation DB) :=
  [(PUSH17, op (makePush 17 17) gasPush (makeStackFunc 0 1) None);
   (PUSH18, op (makePush 18 18) gasPush (makeStackFunc 0 1) None);
   (PUSH19, op (makePush 19 19) gasPush (makeStackFunc 0 1) None);
   (PUSH20, op (makePush 20 20) gasPush (makeStackFunc 0 1) None);
   (PUSH21, op (makePush 21 21) gasPush (makeStackFunc 0 1) None);
   (PUSH22, op (makePush 22 22) gasPush (makeStackFunc 0 1) None);
   (PUSH23, op (makePush 23 23) gasPush (makeStackFunc 0 1) None);
   (PUSH24, op (makePush 24 24) gasPush (makeStackFunc 0 1) None);
   (PUSH25, op (makePush 25 25) gasPush (makeStackFunc 0 1) None);
   (PUSH26, op (makePush 26 26) gasPush (makeStackFunc 0 1) None);
   (PUSH27, op (makePush 27 27) gasPush (makeStackFunc 0 1) None);
   (PUSH28, op (makePush 28 28) gasPush (makeStackFunc 0 1) None);
   (PUSH29, op (makePush 29 29) gasPush (makeStackFunc 0 1) None);
   (PUSH30, op (makePush 30 30) gasPush (makeStackFunc 0 1) None);
   (PUSH31, op (makePush 31 31) gasPush (makeStackFunc 0 1) None);
   (PUSH32, op (makePush 32 32) gasPush (makeStackFunc 0 1) None)].

Definition frontierDup : list (Z * operation DB) :=
  [(DUP1, op (makeDup 1) gasDup (makeDupStackFunc 1) None);
   (DUP2, op (makeDup 2) gasDup (makeDupStackFunc 2) None);
   (DUP3, op (makeDup 3) gasDup (makeDupStackFunc 3) None);
   (DUP4, op (makeDup 4) gasDup (makeDupStackFunc 4) None);
   (DUP5, op (makeDup 5) gasDup (makeDupStackFunc 5) None);
   (DUP6, op (makeDup 6) gasDup (makeDupStackFunc 6) None);
   (DUP7, op (makeDup 7) gasDup (makeDupStackFunc 7) None);
   (DUP8, op (makeDup 8) gasDup (makeDupStackFunc 8) None);
   (DUP9, op (makeDup 9) gasDup (makeDupStackFunc 9) None);
   (DUP10, op (makeDup 10) gasDup (makeDupStackFunc 10) None);
   (DUP11, op (makeDup 11) gasDup (makeDupStackFunc 11) None);
   (DUP12, op (makeDup 12) gasDup (makeDupStackFunc 12) None);
   (DUP13, op (makeDup 13) gasDup (makeDupStackFunc 13) None);
   (DUP14, op (makeDup 14) gasDup (makeDupStackFunc 14) None);
   (DUP15, op (makeDup 15) gasDup (makeDupStackFunc 15) None);
   (DUP16, op (makeDup 16) gasDup (makeDupStackFunc 16) None)].

Definition frontierSwap : list (Z * operation DB) :=
  [(SWAP1, op (makeSwap 1) gasSwap (makeSwapStackFunc 2) None);
   (SWAP2, op (makeSwap 2) gasSwap (makeSwapStackFunc 3) None);
   (SWAP3, op (makeSwap 3) gasSwap (makeSwapStackFunc 4) None);
   (SWAP4, op (makeSwap 4) gasSwap (makeSwapStackFunc 5) None);
   (SWAP5, op (makeSwap 5) gasSwap (makeSwapStackFunc 6) None);
   (SWAP6, op (makeSwap 6) gasSwap (makeSwapStackFunc 7) None);
   (SWAP7, op (makeSwap 7) gasSwap (makeSwapStackFunc 8) None);
   (SWAP8, op (makeSwap 8) gasSwap (makeSwapStackFunc 9) None);
   (SWAP9, op (makeSwap 9) gasSwap (makeSwapStackFunc 10) None);
   (SWAP10, op (makeSwap 10) gasSwap (makeSwapStackFunc 11) None);
   (SWAP11, op (makeSwap 11) gasSwap (makeSwapStackFunc 12) None);
   (SWAP12, op (makeSwap 12) gasSwap (makeSwapStackFunc 13) None);
   (SWAP13, op (makeSwap 13) gasSwap (makeSwapStackFunc 14) None);
   (SWAP14, op (makeSwap 14) gasSwap (makeSwapStackFunc 15) None);
   (SWAP15, op (makeSwap 15) gasSwap (makeSwapStackFunc 16) None);
   (SWAP16, op (makeSwap 16) gasSwap (makeSwapStackFunc 17) None)].

Definition frontierSystem : list (Z * operation DB) :=
  [(LOG0, writing (op (makeLog env 0) (makeGasLog 0) (makeStackFunc 2 0) (Some memoryLog)));
   (LOG1, writing (op (makeLog env 1) (makeGasLog 1) (makeStackFunc 3 0) (Some memoryLog)));
   (LOG2, writing (op (makeLog env 2) (makeGasLog 2) (makeStackFunc 4 0) (Some memoryLog)));
   (LOG3, writing (op (makeLog env 3) (makeGasLog 3) (makeStackFunc 5 0) (Some memoryLog)));
   (LOG4, writing (op (makeLog env 4) (makeGasLog 4) (makeStackFunc 6 0) (Some memoryLog)));
   (CREATE, writing (returning (op (opCreate env ops) gasCreate (makeStackFunc 3 1) (Some memoryCreate))));
   (CALL, returning (op (opCall ops) (gasCall env) (makeStackFunc 7 1) (Some memoryCall)));
   (CALLCODE, returning (op (opCallCode ops) (gasCallCode env) (makeStackFunc 7 1) (Some memoryCall)));
   (RETURN, halting (op opReturn gasReturn (makeStackFunc 2 0) (Some memoryReturn)));
   (SELFDESTRUCT, halting (writing (op opSuicide (gasSuicide env) (makeStackFunc 1 0) None)))].

Definition frontierInstructionSet : list (Z * operation DB) :=
  frontierArithmetic ++ frontierEnvironment ++ frontierBlock ++ frontierPush ++ frontierPush2 ++ frontierDup ++ frontierSwap ++ frontierSystem.

Definition homesteadInstructionSet : list (Z * operation DB) :=
  [(DELEGATECALL, returning (op (opDelegateCall ops) (gasDelegateCall env) (makeStackFunc 6 1) (Some memoryDelegateCall)))] ++ frontierInstructionSet.

Definition byzantiumInstructionSet : list (Z * operation DB) :=
  [(STATICCALL, returning (op (opStaticCall ops) (gasStaticCall env) (makeStackFunc 6 1) (Some memoryStaticCall)));
   (RETURNDATASIZE, op opReturnDataSize (constGasFunc GasQuickStep) (makeStackFunc 0 1) None);
   (RETURNDATACOPY, op opReturnDataCopy gasReturnDataCopy (makeStackFunc 3 0) (Some memoryReturnDataCopy));
   (REVERT, reverting (returning (op opRevert gasRevert (makeStackFunc 2 0) (Some memoryRevert))))] ++ homesteadInstructionSet.

Definition constantinopleInstructionSet : list (Z * operation DB) :=
  [(SHL, op opSHL (constGasFunc GasFastestStep) (makeStackFunc 2 1) None);
   (SHR, op opSHR (constGasFunc GasFastestStep) (makeStackFunc 2 1) None);
   (SAR, op opSAR (constGasFunc GasFastestStep) (makeStackFunc 2 1) None)] ++ byzantiumInstructionSet.
End tables.
