(* ===== verification/VmInterp.v ===== *)
(** The interpreter and the calls: [src/core/vm/interpreter.go], [evm.go] and
    [RunPrecompiledContract] of [contracts.go].

    The loop and the calls are mutually recursive.  The calls are written against a function
    [Run]; the loop ties the knot, with fuel.  Tracing ([Debug]) is not modelled: tracers
    only observe. *)

From stdpp Require Import base numbers list.
From S2P Require Import Prelude.
From S2P Require Import CommonMath.
From S2P Require Import Params.
From S2P Require Import VmData.
From S2P Require Import VmAnalysis.
From S2P Require Import VmState.
From S2P Require Import VmGas.
From S2P Require Import VmInstr.
From S2P Require Import VmJumpTable.
Local Open Scope Z_scope.
Local Open Scope go_scope.
Local Open Scope vm_scope.

Section machine.
Context {DB : Type} `{StateDB DB} (env : Env).

(** What a run of a contract returns: the machine, the contract with the gas it has left,
    the returned data and the error. *)
Definition RunResult : Type := outcome Empty_set (EVM DB * Contract * (bytes * option vm_error)).

(** [NewEVM] *)
Definition NewEVM (db : DB) : EVM DB := MkEVM db 0 false [] 0 ∅ 0.

(** * evm.go: the calls *)

Section calls.
Context (Run : Contract -> bytes -> EVM DB -> RunResult).

Definition RunPrecompiledContract (p : PrecompiledContract) (input : bytes) (contract : Contract) :
    Contract * (bytes * option vm_error) :=
  let (contract, ok) := UseGas (pc_RequiredGas p input) contract in
  (contract,
   if ok then match pc_Run p input with Some ret => (ret, None) | None => ([], Some errPrecompile) end
   else ([], Some ErrOutOfGas)).

Definition run (contract : Contract) (input : bytes) (evm : EVM DB) : RunResult :=
  match c_CodeAddr contract ≫= precompiles env with
  | Some p => let (contract, r) := RunPrecompiledContract p input contract in Ok (evm, contract, r)
  | None => Run contract input evm
  end.

(** The map of analysed code that [NewContract] gives the new contract: the caller's, or a
    fresh one when the caller is not a contract. *)
Definition newDests (caller : ContractRef) (evm : EVM DB) : EVM DB :=
  match caller with RefContract _ => evm | RefAccount _ => set_jumpdests evm ∅ end.

Definition revert (snapshot : Z) (evm : EVM DB) : outcome Empty_set (EVM DB) :=
  let! db := must (RevertToSnapshot snapshot (evm_StateDB evm)) in Ok (set_StateDB evm db).

(** [contract.UseGas(contract.Gas)] unless the code asked for the revert. *)
Definition burn (err : option vm_error) (contract : Contract) : Contract :=
  if bool_decide (err = Some errExecutionReverted) then contract else fst (UseGas (c_Gas contract) contract).

(** Running the contract of a call, and undoing what it did when it fails. *)
Definition runCall (snapshot : Z) (contract : Contract) (input : bytes) (evm : EVM DB) :
    outcome Empty_set (EVM DB * CallResult) :=
  let! (evm, contract, (ret, err)) := run contract input evm in
  match err with
  | None => Ok (evm, (ret, c_Gas contract, None))
  | Some e =>
      let! evm := revert snapshot evm in
      Ok (evm, (ret, c_Gas (burn (Some e) contract), Some e))
  end.

Definition takeSnapshot (evm : EVM DB) : EVM DB * Z :=
  let (db, id) := Snapshot (evm_StateDB evm) in (set_StateDB evm db, id).

Definition Call (caller : ContractRef) (addr input : bytes) (gas value : Z) (evm : EVM DB) :
    outcome Empty_set (EVM DB * CallResult) :=
  if NoRecursion env && (evm_depth evm >? 0) then Ok (evm, ([], gas, None))
  else if evm_depth evm >? CallCreateDepth then Ok (evm, ([], gas, Some ErrDepth))
  else if negb (CanTransfer (evm_StateDB evm) (ref_Address caller) value)
  then Ok (evm, ([], gas, Some ErrInsufficientBalance))
  else
    let (evm, snapshot) := takeSnapshot evm in
    let db := evm_StateDB evm in
    if negb (Exist db addr) && bool_decide (precompiles env addr = None) && e_IsEIP158 env && (value =? 0)
    then Ok (evm, ([], gas, None))
    else
      let db := if negb (Exist db addr) then CreateAccount addr db else db in
      let db := Transfer (ref_Address caller) addr value db in
      let evm := newDests caller (set_StateDB evm db) in
      let contract := NewContract caller addr value gas in
      let contract := SetCallCode (Some addr) (GetCodeHash db addr) (GetCode db addr) contract in
      runCall snapshot contract input evm.

Definition CallCode (caller : ContractRef) (addr input : bytes) (gas value : Z) (evm : EVM DB) :
    outcome Empty_set (EVM DB * CallResult) :=
  if NoRecursion env && (evm_depth evm >? 0) then Ok (evm, ([], gas, None))
  else if evm_depth evm >? CallCreateDepth then Ok (evm, ([], gas, Some ErrDepth))
  else if negb (CanTransfer (evm_StateDB evm) (ref_Address caller) value)
  then Ok (evm, ([], gas, Some ErrInsufficientBalance))
  else
    let (evm, snapshot) := takeSnapshot evm in
    let db := evm_StateDB evm in
    let evm := newDests caller evm in
    let contract := NewContract caller (ref_Address caller) value gas in
    let contract := SetCallCode (Some addr) (GetCodeHash db addr) (GetCode db addr) contract in
    runCall snapshot contract input evm.

(** The value is nil in the source until [AsDelegate] replaces it. *)
Definition DelegateCall (caller : ContractRef) (addr input : bytes) (gas : Z) (evm : EVM DB) :
    outcome Empty_set (EVM DB * CallResult) :=
  if NoRecursion env && (evm_depth evm >? 0) then Ok (evm, ([], gas, None))
  else if evm_depth evm >? CallCreateDepth then Ok (evm, ([], gas, Some ErrDepth))
  else
    let (evm, snapshot) := takeSnapshot evm in
    let db := evm_StateDB evm in
    let evm := newDests caller evm in
    let! contract := AsDelegate caller (NewContract caller (ref_Address caller) 0 gas) in
    let contract := SetCallCode (Some addr) (GetCodeHash db addr) (GetCode db addr) contract in
    runCall snapshot contract input evm.

(** The deferred reset runs only if this call set the flag. *)
Definition StaticCall (caller : ContractRef) (addr input : bytes) (gas : Z) (evm : EVM DB) :
    outcome Empty_set (EVM DB * CallResult) :=
  if NoRecursion env && (evm_depth evm >? 0) then Ok (evm, ([], gas, None))
  else if evm_depth evm >? CallCreateDepth then Ok (evm, ([], gas, Some ErrDepth))
  else
    let setReadOnly := negb (evm_readOnly evm) in
    let evm := if setReadOnly then set_readOnly evm true else evm in
    let (evm, snapshot) := takeSnapshot evm in
    let db := evm_StateDB evm in
    let evm := newDests caller evm in
    let contract := NewContract caller addr 0 gas in
    let contract := SetCallCode (Some addr) (GetCodeHash db addr) (GetCode db addr) contract in
    let! (evm, r) := runCall snapshot contract input evm in
    Ok (if setReadOnly then set_readOnly evm false else evm, r).

(** [contractHash != (common.Hash{}) && contractHash != emptyCodeHash], or a nonce *)
Definition addressTaken (db : DB) (addr : bytes) : bool :=
  negb (GetNonce db addr =? 0) ||
  (negb (EmptyHash (GetCodeHash db addr)) && negb (bool_decide (GetCodeHash db addr = Keccak256 env []))).

(** What follows the run of the creation code: store the code or undo. *)
Definition storeCode (snapshot : Z) (contractAddr : bytes) (contract : Contract) (ret : bytes)
    (err : option vm_error) (evm : EVM DB) : outcome Empty_set (EVM DB * CallResult) :=
  let maxCodeSizeExceeded := e_IsEIP158 env && (zlen ret >? MaxCodeSize) in
  let '(evm, contract, err) :=
    if bool_decide (err = None) && negb maxCodeSizeExceeded then
      let (contract, ok) := UseGas (u64 (zlen ret * CreateDataGas)) contract in
      if ok then (set_StateDB evm (SetCode contractAddr ret (evm_StateDB evm)), contract, err)
      else (evm, contract, Some ErrCodeStoreOutOfGas)
    else (evm, contract, err) in
  let! (evm, contract) :=
    if maxCodeSizeExceeded
       || (negb (bool_decide (err = None))
           && (e_IsHomestead env || negb (bool_decide (err = Some ErrCodeStoreOutOfGas))))
    then let! evm := revert snapshot evm in Ok (evm, burn err contract)
    else Ok (evm, contract) in
  let err := if maxCodeSizeExceeded && bool_decide (err = None) then Some errMaxCodeSizeExceeded else err in
  Ok (evm, (ret, c_Gas contract, err)).

Definition Create (caller : ContractRef) (code : bytes) (gas value : Z) (evm : EVM DB) :
    outcome Empty_set (EVM DB * (bytes * CallResult)) :=
  let noAddress := replicate AddressLength 0 in
  if evm_depth evm >? CallCreateDepth then Ok (evm, (noAddress, ([], gas, Some ErrDepth)))
  else if negb (CanTransfer (evm_StateDB evm) (ref_Address caller) value)
  then Ok (evm, (noAddress, ([], gas, Some ErrInsufficientBalance)))
  else
    let nonce := GetNonce (evm_StateDB evm) (ref_Address caller) in
    let evm := set_StateDB evm (SetNonce (ref_Address caller) (u64 (nonce + 1)) (evm_StateDB evm)) in
    let contractAddr := CreateAddress env (ref_Address caller) nonce in
    if addressTaken (evm_StateDB evm) contractAddr
    then Ok (evm, (noAddress, ([], 0, Some ErrContractAddressCollision)))
    else
      let (evm, snapshot) := takeSnapshot evm in
      let db := CreateAccount contractAddr (evm_StateDB evm) in
      let db := if e_IsEIP158 env then SetNonce contractAddr 1 db else db in
      let db := Transfer (ref_Address caller) contractAddr value db in
      let evm := newDests caller (set_StateDB evm db) in
      let contract := NewContract caller contractAddr value gas in
      let contract := SetCallCode (Some contractAddr) (Keccak256 env code) code contract in
      if NoRecursion env && (evm_depth evm >? 0) then Ok (evm, (contractAddr, ([], gas, None)))
      else
        let! (evm, contract, (ret, err)) := run contract [] evm in
        let! (evm, r) := storeCode snapshot contractAddr contract ret err evm in
        Ok (evm, (contractAddr, r)).

Definition callOps : CallOps DB := MkCallOps Call CallCode DelegateCall StaticCall Create.
End calls.

(** * interpreter.go *)

Definition jumpTable (ops : CallOps DB) : list (Z * operation DB) :=
  if e_IsConstantinople env then constantinopleInstructionSet env ops
  else if e_IsByzantium env then byzantiumInstructionSet env ops
  else if e_IsHomestead env then homesteadInstructionSet env ops
  else frontierInstructionSet env ops.

Definition enforceRestrictions (op : Z) (o : operation DB) : VM DB unit :=
  if r_IsByzantium (chain_Rules (chainConfig env) (Some (BlockNumber env))) then
    do readOnly <- vget (fun f => evm_readOnly (f_evm f));
    if readOnly then
      if writes o then vfail errWriteProtection
      else if op =? CALL then do v <- Back 2; if bitlen v >? 0 then vfail errWriteProtection else vret tt
      else vret tt
    else vret tt
  else vret tt.

(** The memory the operation needs, in bytes, rounded up to words. *)
Definition neededMemory (o : operation DB) : VM DB Z :=
  match memorySize o with
  | None => vret 0
  | Some memSize =>
      do st <- vget f_stack;
      do size <- vlift (memSize st);
      do size <- toUint64 size;
      safeMul (toWordSize size) 32
  end.

Definition chargeGas (o : operation DB) (memorySize : Z) : VM DB unit := fun f =>
  match gasCost o memorySize f with
  | Ok (f, inl _) => Ok (f, inl ErrOutOfGas)
  | Ok (f, inr cost) =>
      let (contract, ok) := UseGas cost (f_contract f) in
      if ok then Ok (with_contract f contract, inr tt) else Ok (f, inl ErrOutOfGas)
  | Err e => Err e
  | Panic => Panic
  | NoFuel => NoFuel
  end.

(** Executing, and keeping the data of an operation that returns some. *)
Definition perform (o : operation DB) : VM DB bytes := fun f =>
  match execute o f with
  | Ok (f, r) =>
      let res := match r with inl _ => [] | inr res => res end in
      Ok (if returns o then with_evm f (set_returnData (f_evm f) res) else f, r)
  | r => r
  end.

(** From the memory an operation needs to its result. *)
Definition turn (o : operation DB) : VM DB bytes :=
  do memorySize <- neededMemory o;
  chargeGas o memorySize;;
  (if memorySize >? 0 then vmod (fun f => with_mem f (m_Resize memorySize (f_mem f))) else vret tt);;
  perform o.

(** One turn of the loop; [None] when the loop goes on. *)
Definition step (ops : CallOps DB) : VM DB (option (bytes * option vm_error)) :=
  do op <- vget (fun f => GetOp (f_contract f) (f_pc f));
  let o := table_get (jumpTable ops) op in
  if negb (valid o) then vfail (errInvalidOpCode op)
  else
    do st <- vget f_stack;
    do _ <- vlift (validateStack o st);
    enforceRestrictions op o;;
    do res <- turn o;
    if reverts o then vret (Some (res, Some errExecutionReverted))
    else if halts o then vret (Some (res, None))
    else if negb (jumps o) then vmod (fun f => with_pc f (u64 (f_pc f + 1)));; vret None
    else vret None.

(** [Run] around a given loop. *)
Definition Run_with (loop : Frame DB -> outcome Empty_set (Frame DB * (bytes * option vm_error)))
    (contract : Contract) (input : bytes) (evm : EVM DB) : RunResult :=
  let evm := set_returnData (set_depth evm (evm_depth evm + 1)) [] in
  if zlen (c_Code contract) =? 0 then Ok (set_depth evm (evm_depth evm - 1), contract, ([], None))
  else
    let! (f, r) := loop (MkFrame evm (set_Input contract input) NewMemory newstack 0) in
    Ok (set_depth (f_evm f) (evm_depth (f_evm f) - 1), f_contract f, r).

(** The flag is read once per turn, whatever it says. *)
Definition tick (f : Frame DB) : Frame DB := with_evm f (set_ticks (f_evm f) (S (evm_ticks (f_evm f)))).

Fixpoint loop (fuel : nat) (f : Frame DB) : outcome Empty_set (Frame DB * (bytes * option vm_error)) :=
  match fuel with
  | O => NoFuel
  | S fuel =>
      if aborted env (evm_ticks (f_evm f)) then Ok (tick f, ([], None))
      else
        match step (callOps (Run_with (loop fuel))) (tick f) with
        | Ok (f, inl e) => Ok (f, ([], Some e))
        | Ok (f, inr (Some r)) => Ok (f, r)
        | Ok (f, inr None) => loop fuel f
        | Err e => Err e
        | Panic => Panic
        | NoFuel => NoFuel
        end
  end.

Definition Run (fuel : nat) : Contract -> bytes -> EVM DB -> RunResult := Run_with (loop fuel).
End machine.
