(* ===== verification/VmWorld.v ===== *)
(** What the machine relies on: the contract of the state database, and of the functions
    the environment supplies.

    [src/core/vm/interface.go] lists the methods of a database.  [StateDBLaws] states what
    they promise, in terms of the [World] the getters show: the effect of every mutator,
    and that going back to a snapshot restores the world it was taken in.  The machine's
    theorems are proved from these laws alone. *)

From stdpp Require Import base numbers list.
From S2P Require Import Prelude.
From S2P Require Import CommonMath.
From S2P Require Import VmData.
From S2P Require Import VmAnalysis.
From S2P Require Import VmState.
Local Open Scope Z_scope.
Local Open Scope go_scope.

(** A slice of bytes of any size that fits an address space. *)
Definition slice_ok (b : bytes) : Prop := bytes_ok b /\ zlen b <= 2 ^ 62.

(** Hash values and addresses are sequences of digits.  That a digit is below 256 is never
    used, so that an ideal hash, which never collides, remains possible. *)
Definition digits_ok (b : bytes) : Prop := Forall (fun x => 0 <= x) b.

Lemma bytes_digits b : bytes_ok b -> digits_ok b.
Proof. intros H. eapply Forall_impl; [exact H|]. by intros x []. Qed.

Lemma digits_ok_app a b : digits_ok a -> digits_ok b -> digits_ok (a ++ b).
Proof. apply Forall_app_2. Qed.
Lemma digits_ok_zeros n : digits_ok (replicate n 0).
Proof. apply Forall_replicate. done. Qed.
Lemma digits_ok_SetBytes n b : digits_ok b -> digits_ok (SetBytes n b).
Proof.
  intros H. unfold SetBytes. apply digits_ok_app; [apply digits_ok_zeros|]. case_match; [by apply Forall_drop|done].
Qed.

Lemma be_val_digits b : digits_ok b -> 0 <= be_val b.
Proof.
  induction 1 as [|x b Hx Hb IH]; [done|]. rewrite be_val_cons. pose proof (Z.pow_nonneg 256 (zlen b)). nia.
Qed.

(** * Worlds *)

Record World := MkWorld {
  w_balance : bytes -> Z;
  w_nonce : bytes -> Z;
  w_code : bytes -> bytes;
  w_storage : bytes -> bytes -> bytes;
  w_suicided : bytes -> bool;
  w_refund : Z;
  w_exist : bytes -> bool }.

(** The same accounts, contents and refund; an empty account may or may not exist. *)
Record same_accounts (w w' : World) : Prop := {
  sa_balance : forall a, w_balance w a = w_balance w' a;
  sa_nonce : forall a, w_nonce w a = w_nonce w' a;
  sa_code : forall a, w_code w a = w_code w' a;
  sa_storage : forall a k, w_storage w a k = w_storage w' a k;
  sa_suicided : forall a, w_suicided w a = w_suicided w' a;
  sa_refund : w_refund w = w_refund w' }.

(** The same world. *)
Definition world_eq (w w' : World) : Prop := same_accounts w w' /\ forall a, w_exist w a = w_exist w' a.

#[export] Instance same_accounts_equiv : Equivalence same_accounts.
Proof.
  split.
  - intros w. by constructor.
  - intros w w' []. by constructor.
  - intros w1 w2 w3 [] []. constructor; intros; etrans; eauto.
Qed.

#[export] Instance world_eq_equiv : Equivalence world_eq.
Proof.
  split.
  - by intros w.
  - intros w w' [H1 H2]. split; [by symmetry|done].
  - intros w1 w2 w3 [H1 H2] [H3 H4]. split; [by etrans|intros a; by rewrite H2, H4].
Qed.

#[export] Instance world_eq_same : subrelation world_eq same_accounts.
Proof. by intros w w' [? _]. Qed.

(** ** Updates *)

Section updates.
Context {A : Type}.
Definition upd (a : bytes) (x : A) (g : bytes -> A) : bytes -> A := fun b => if bool_decide (b = a) then x else g b.
Lemma upd_eq a x (g : bytes -> A) : upd a x g a = x.
Proof. unfold upd. by rewrite bool_decide_eq_true_2. Qed.
Lemma upd_ne a b x (g : bytes -> A) : b <> a -> upd a x g b = g b.
Proof. intros. unfold upd. by rewrite bool_decide_eq_false_2. Qed.
Lemma upd_same a x (g : bytes -> A) : g a = x -> forall b, upd a x g b = g b.
Proof. intros <- b. unfold upd. by case_bool_decide; subst. Qed.
End updates.

Definition set_balance a x w := MkWorld (upd a x (w_balance w)) (w_nonce w) (w_code w) (w_storage w) (w_suicided w) (w_refund w) (w_exist w).
Definition set_nonce a x w := MkWorld (w_balance w) (upd a x (w_nonce w)) (w_code w) (w_storage w) (w_suicided w) (w_refund w) (w_exist w).
Definition set_code a x w := MkWorld (w_balance w) (w_nonce w) (upd a x (w_code w)) (w_storage w) (w_suicided w) (w_refund w) (w_exist w).
Definition set_storage a k x w := MkWorld (w_balance w) (w_nonce w) (w_code w) (upd a (upd k x (w_storage w a)) (w_storage w)) (w_suicided w) (w_refund w) (w_exist w).
Definition set_suicided a x w := MkWorld (w_balance w) (w_nonce w) (w_code w) (w_storage w) (upd a x (w_suicided w)) (w_refund w) (w_exist w).
Definition set_refund x w := MkWorld (w_balance w) (w_nonce w) (w_code w) (w_storage w) (w_suicided w) x (w_exist w).
Definition zeroHash : bytes := replicate HashLength 0.

(** A new account in place of whatever was there; it inherits the balance. *)
Definition fresh_account a w := MkWorld (w_balance w) (upd a 0 (w_nonce w)) (upd a [] (w_code w))
  (upd a (fun _ => zeroHash) (w_storage w)) (upd a false (w_suicided w)) (w_refund w) (w_exist w).

#[export] Instance set_balance_proper a x : Proper (same_accounts ==> same_accounts) (set_balance a x).
Proof. intros w w' []. constructor; try done. intros b. cbn. unfold upd. by case_bool_decide. Qed.
#[export] Instance set_nonce_proper a x : Proper (same_accounts ==> same_accounts) (set_nonce a x).
Proof. intros w w' []. constructor; try done. intros b. cbn. unfold upd. by case_bool_decide. Qed.
#[export] Instance set_code_proper a x : Proper (same_accounts ==> same_accounts) (set_code a x).
Proof. intros w w' []. constructor; try done. intros b. cbn. unfold upd. by case_bool_decide. Qed.
#[export] Instance set_storage_proper a k x : Proper (same_accounts ==> same_accounts) (set_storage a k x).
Proof.
  intros w w' []. constructor; try done. intros b k'. cbn. unfold upd. case_bool_decide; [|done]. by case_bool_decide.
Qed.

(** ** Money *)

(** What a list of accounts holds. *)
Definition holdings (w : World) (l : list bytes) : Z := foldr (fun a s => w_balance w a + s) 0 l.

(** No accounts hold more than [M] together. *)
Definition funds (w : World) (M : Z) : Prop := forall l, NoDup l -> holdings w l <= M.

(** Nothing is minted on the way from [w] to [w']. *)
Definition no_mint (w w' : World) : Prop := forall M, funds w M -> funds w' M.

Lemma holdings_le w w' l : (forall a, w_balance w' a <= w_balance w a) -> holdings w' l <= holdings w l.
Proof. intros H. unfold holdings in *. induction l as [|a l IH]; cbn; [lia|]. specialize (H a). lia. Qed.

Lemma no_mint_le w w' : (forall a, w_balance w' a <= w_balance w a) -> no_mint w w'.
Proof. intros H M Hf l Hl. pose proof (holdings_le w w' l H). specialize (Hf l Hl). lia. Qed.

Lemma no_mint_same w w' : same_accounts w w' -> no_mint w w'.
Proof. intros []. apply no_mint_le. intros a. by rewrite sa_balance0. Qed.

#[export] Instance no_mint_refl : Reflexive no_mint.
Proof. by intros w M. Qed.

Lemma no_mint_trans w1 w2 w3 : no_mint w1 w2 -> no_mint w2 w3 -> no_mint w1 w3.
Proof. unfold no_mint. eauto. Qed.

Lemma holdings_set a x w l : NoDup l -> holdings (set_balance a x w) l = holdings w l + if bool_decide (a ∈ l) then x - w_balance w a else 0.
Proof.
  induction l as [|b l IH]; intros Hn; [done|]. apply NoDup_cons in Hn as [Hb Hn]. cbn [holdings foldr]. fold (holdings (set_balance a x w) l) (holdings w l). rewrite IH by done. cbn [w_balance set_balance]. unfold upd.
  destruct (decide (b = a)) as [->|Hne].
  - rewrite (bool_decide_eq_true_2 (a = a)), (bool_decide_eq_false_2 (a ∈ l)), (bool_decide_eq_true_2 (a ∈ a :: l)) by (done || left). lia.
  - rewrite (bool_decide_eq_false_2 (b = a)) by done. rewrite (bool_decide_ext (a ∈ b :: l) (a ∈ l)) by (rewrite elem_of_cons; naive_solver). lia.
Qed.

Lemma funds_sub w a x M : funds w M -> 0 <= x <= w_balance w a -> funds (set_balance a (w_balance w a - x) w) (M - x).
Proof.
  intros Hf Hx l Hl. rewrite holdings_set by done. case_bool_decide; [specialize (Hf l Hl); lia|]. specialize (Hf (a :: l) ltac:(by constructor)).
  cbn in Hf. fold (holdings w l) in Hf. lia.
Qed.

Lemma funds_add w a x M : funds w M -> 0 <= x -> funds (set_balance a (w_balance w a + x) w) (M + x).
Proof. intros Hf Hx l Hl. rewrite holdings_set by done. specialize (Hf l Hl). case_bool_decide; lia. Qed.

Lemma no_mint_transfer w a b v : 0 <= v <= w_balance w a -> no_mint w (set_balance b (w_balance (set_balance a (w_balance w a - v) w) b + v) (set_balance a (w_balance w a - v) w)).
Proof. intros Hv M Hf. replace M with (M - v + v) by lia. apply funds_add; [by apply funds_sub|lia]. Qed.

(** Giving all one has to another, and keeping nothing. *)
Lemma no_mint_give w a b : 0 <= w_balance w a -> no_mint w (set_balance a 0 (set_balance b (w_balance w b + w_balance w a) w)).
Proof.
  intros Ha. destruct (decide (a = b)) as [->|Hne].
  - apply no_mint_le. intros c. cbn. unfold upd. repeat case_bool_decide; subst; lia.
  - intros M Hf. apply (no_mint_transfer w a b (w_balance w a) ltac:(lia)) in Hf. revert M Hf. apply no_mint_le. intros c. cbn. unfold upd. repeat case_bool_decide; subst; try done; lia.
Qed.

(** * The database *)

Definition world {DB} `{StateDB DB} (db : DB) : World :=
  MkWorld (GetBalance db) (GetNonce db) (GetCode db) (GetState db) (HasSuicided db) (GetRefund db) (Exist db).

(** [saved db i w]: reverting [db] to snapshot [i] would give [w]. *)
Class StateDBLaws (DB : Type) `{StateDB DB} (hash : bytes -> bytes) := {
  db_ok : DB -> Prop;
  saved : DB -> Z -> World -> Prop;
  (** [db'] came from [db] by a mutator that did [w] to the world *)
  evolves := fun (db db' : DB) (w : World) =>
    db_ok db' /\ same_accounts (world db') w /\ forall i v, saved db i v -> saved db' i v;

  GetBalance_ok db a : db_ok db -> 0 <= GetBalance db a;
  GetNonce_ok db a : db_ok db -> is_u64 (GetNonce db a);
  GetCode_ok db a : db_ok db -> slice_ok (GetCode db a);
  GetCodeHash_ok db a : db_ok db -> GetCode db a <> [] -> GetCodeHash db a = hash (GetCode db a);
  GetCodeSize_ok db a : db_ok db -> GetCodeSize db a = zlen (GetCode db a);
  GetState_ok db a k : db_ok db -> is_hash (GetState db a k);
  GetRefund_ok db : db_ok db -> is_u64 (GetRefund db);
  Exist_ok db a : db_ok db -> Exist db a = false -> same_accounts (world db) (fresh_account a (world db)) /\ GetBalance db a = 0;

  CreateAccount_ok db a : db_ok db -> evolves db (CreateAccount a db) (fresh_account a (world db));
  SubBalance_ok db a x : db_ok db -> 0 <= x <= GetBalance db a ->
    evolves db (SubBalance a x db) (set_balance a (GetBalance db a - x) (world db));
  AddBalance_ok db a x : db_ok db -> 0 <= x ->
    evolves db (AddBalance a x db) (set_balance a (GetBalance db a + x) (world db));
  SetNonce_ok db a n : db_ok db -> is_u64 n -> evolves db (SetNonce a n db) (set_nonce a n (world db));
  SetCode_ok db a c : db_ok db -> slice_ok c -> evolves db (SetCode a c db) (set_code a c (world db));
  AddRefund_ok db x : db_ok db -> evolves db (AddRefund x db) (set_refund (u64 (GetRefund db + x)) (world db));
  SetState_ok db a k x : db_ok db -> is_hash k -> is_hash x -> evolves db (SetState a k x db) (set_storage a k x (world db));
  Suicide_ok db a : db_ok db ->
    evolves db (fst (Suicide a db))
      (if Exist db a then set_suicided a true (set_balance a 0 (world db)) else world db);
  AddLog_ok db l : db_ok db -> evolves db (AddLog l db) (world db);
  AddPreimage_ok db h p : db_ok db -> evolves db (AddPreimage h p db) (world db);
  Snapshot_ok db db' i : db_ok db -> Snapshot db = (db', i) ->
    evolves db db' (world db) /\ saved db' i (world db) /\ forall j w, saved db j w -> j < i;
  RevertToSnapshot_ok db i w : db_ok db -> saved db i w ->
    exists db', RevertToSnapshot i db = Some db' /\ db_ok db' /\ world_eq (world db') w /\
      forall j v, j < i -> saved db j v -> saved db' j v }.

Section evolution.
Context {DB : Type} `{HS : StateDB DB} {hash : bytes -> bytes} `{!StateDBLaws DB hash}.
Lemma evolves_trans (db1 db2 db3 : DB) w w' : evolves db1 db2 w -> evolves db2 db3 w' -> evolves db1 db3 w'.
Proof. intros (? & ? & ?) (? & ? & ?). split_and!; auto. Qed.
End evolution.

(** * The environment *)

(** Hashes, precompiled contracts and block data are what their types say, and no two codes
    share a hash. *)
Record env_ok (env : Env) : Prop := {
  hash_digits b : digits_ok (Keccak256 env b);
  hash_free b : bytes_ok b -> no_collision (Keccak256 env) b;
  GetHash_digits n : digits_ok (GetHash env n);
  Origin_digits : digits_ok (Origin env);
  Coinbase_digits : digits_ok (Coinbase env);
  GasPrice_nonneg : 0 <= GasPrice env;
  precompile_gas a p b : precompiles env a = Some p -> 0 <= pc_RequiredGas p b;
  precompile_run a p b r : precompiles env a = Some p -> pc_Run p b = Some r -> slice_ok r }.
