(* ===== verification/VmSafe.v ===== *)
(** Instructions run safely: the invariant of a running frame, and that every instruction
    preserves it and never leaves the bounds of the stack, the memory, the code or the
    returned data.

    [exec_ok m pops pushes ms] is the specification of the instruction [m]: on a well-formed
    frame with [pops] operands and memory covering what [ms] asks for, it ends, replaces
    [pops] operands by [pushes], and keeps the frame well-formed. *)

From stdpp Require Import base numbers list.
From S2P Require Import Prelude.
From S2P Require Import CommonMath.
From S2P Require Import Params.
From S2P Require Import VmData.
From S2P Require Import VmAnalysis.
From S2P Require Import VmState.
From S2P Require Import VmGas.
From S2P Require Import VmInstr.
From S2P Require Import VmWorld.
Local Open Scope Z_scope.
Local Open Scope go_scope.

Section safe.
Context {DB : Type} `{HS : StateDB DB} (env : Env) {L : StateDBLaws DB (Keccak256 env)}.
Implicit Types (e : EVM DB) (f : Frame DB) (c : Contract).

(** * The invariant *)

(** Read-only mode is enforced from Byzantium on. *)
Definition static e : Prop := e_IsByzantium env = true /\ evm_readOnly e = true.

Record evm_ok e : Prop := {
  eo_db : db_ok (evm_StateDB e);
  eo_dests : dests_ok (Keccak256 env) (evm_jumpdests e);
  eo_return : slice_ok (evm_returnData e) }.

(** What holds between the machine before and after: it is well-formed again, at the same
    depth and in the same mode, earlier snapshots still stand, in read-only mode the
    accounts are untouched, and no money was made. *)
Record evm_steps e e' : Prop := {
  es_ok : evm_ok e';
  es_depth : evm_depth e' = evm_depth e;
  es_readOnly : evm_readOnly e' = evm_readOnly e;
  es_saved : forall i w, saved (evm_StateDB e) i w -> saved (evm_StateDB e') i w;
  es_static : static e -> same_accounts (world (evm_StateDB e)) (world (evm_StateDB e'));
  es_funds : no_mint (world (evm_StateDB e)) (world (evm_StateDB e')) }.

Record contract_ok c : Prop := {
  co_gas : is_u64 (c_Gas c);
  co_code : slice_ok (c_Code c);
  co_hash : c_CodeHash c = Keccak256 env (c_Code c);
  co_input : slice_ok (c_Input c);
  co_value : 0 <= c_value c;
  co_self : digits_ok (c_self c);
  co_caller : digits_ok (c_CallerAddress c) }.

Record mem_ok (m : Memory) : Prop := {
  mo_bytes : bytes_ok (m_store m);
  mo_words : (32 | m_Len m);
  mo_len : m_Len m <= 2 ^ 40;
  mo_fee : is_u64 (m_lastGasCost m) }.

Definition stack_ok (st : Stack) : Prop := Forall (fun x => 0 <= x) st.

Record frame_ok f : Prop := {
  fo_evm : evm_ok (f_evm f);
  fo_contract : contract_ok (f_contract f);
  fo_mem : mem_ok (f_mem f);
  fo_stack : stack_ok (f_stack f);
  fo_pc : 0 <= f_pc f <= zlen (c_Code (f_contract f)) + 33 }.

(** * Specifications *)

Definition wp {A} (m : VM DB A) (Q : Frame DB -> vm_error + A -> Prop) f : Prop :=
  match m f with Ok (f', r) => Q f' r | _ => False end.

(** What an instruction leaves alone, whatever its result. *)
Record kept (extra : Z) f f' : Prop := {
  k_evm : evm_steps (f_evm f) (f_evm f');
  k_contract : f_contract f' = set_Gas (f_contract f) (c_Gas (f_contract f'));
  k_gas : 0 <= c_Gas (f_contract f') <= c_Gas (f_contract f) + extra;
  k_mem : mem_ok (f_mem f');
  k_len : m_Len (f_mem f') = m_Len (f_mem f);
  k_stack : stack_ok (f_stack f');
  k_pc : 0 <= f_pc f' <= Z.max (f_pc f + 32) (zlen (c_Code (f_contract f))) }.

Definition exec_post (extra : Z) (pops pushes : nat) f f' (r : vm_error + bytes) : Prop :=
  kept extra f f' /\
  match r with
  | inl _ => True
  | inr res => slice_ok res /\ (length (f_stack f') + pops = length (f_stack f) + pushes)%nat
  end.

(** The memory [ms] asks for is there. *)
Definition covered (ms : option (Stack -> outcome vm_error Z)) f : Prop :=
  match ms with
  | None => True
  | Some ms => exists s, ms (f_stack f) = Ok s /\ s <= m_Len (f_mem f)
  end.

Definition exec_ok (m : VM DB bytes) (pops pushes : nat) (ms : option (Stack -> outcome vm_error Z)) : Prop :=
  forall f, frame_ok f -> (pops <= length (f_stack f))%nat -> covered ms f -> wp m (exec_post 0 pops pushes f) f.

(** The same, for instructions read-only mode forbids. *)
Definition exec_ok_writing (m : VM DB bytes) (pops pushes : nat) (ms : option (Stack -> outcome vm_error Z)) : Prop :=
  forall f, frame_ok f -> ~ static (f_evm f) -> (pops <= length (f_stack f))%nat -> covered ms f ->
    wp m (exec_post 0 pops pushes f) f.

Lemma wp_bind {A B} (m : VM DB A) (k : A -> VM DB B) Q f :
  wp m (fun f r => match r with inl e => Q f (inl e) | inr a => wp (k a) Q f end) f -> wp (vbind m k) Q f.
Proof. unfold wp, vbind. destruct (m f) as [[f' [e|a]]|e| |]; done. Qed.

Lemma wp_mono {A} (m : VM DB A) (Q Q' : Frame DB -> vm_error + A -> Prop) f :
  wp m Q f -> (forall f r, Q f r -> Q' f r) -> wp m Q' f.
Proof. unfold wp. destruct (m f) as [[f' r]|e| |]; auto. Qed.

(** * Order on machines *)

Lemma evm_steps_refl e : evm_ok e -> evm_steps e e.
Proof. by constructor. Qed.

Lemma evm_steps_trans e1 e2 e3 : evm_steps e1 e2 -> evm_steps e2 e3 -> evm_steps e1 e3.
Proof.
  intros [? D1 R1 S1 T1 F1] [? D2 R2 S2 T2 F2]. constructor; [done|congruence|congruence|auto| |by eapply no_mint_trans].
  intros Hs. etrans; [by apply T1|]. apply T2. unfold static in *. by rewrite R1.
Qed.

(** Changing what is neither database nor mode. *)
Lemma evm_steps_aux e e' :
  evm_StateDB e' = evm_StateDB e -> evm_depth e' = evm_depth e -> evm_readOnly e' = evm_readOnly e ->
  evm_ok e' -> evm_steps e e'.
Proof. intros E ? ? ?. constructor; rewrite ?E; auto; [|by apply no_mint_same]. intros _. reflexivity. Qed.

(** Changing the database by a mutator. *)
Lemma evm_steps_db e db w :
  evm_ok e -> evolves (evm_StateDB e) db w -> (static e -> same_accounts (world (evm_StateDB e)) w) ->
  no_mint (world (evm_StateDB e)) w -> evm_steps e (set_StateDB e db).
Proof.
  intros [] (Hok & Hw & Hs) Hst Hf. constructor; try done.
  - intros Hs'. etrans; [by apply Hst|by symmetry].
  - eapply no_mint_trans; [exact Hf|]. apply no_mint_same. by symmetry.
Qed.

Lemma kept_refl f : frame_ok f -> kept 0 f f.
Proof.
  intros [He Hc Hm Hst Hpc]. destruct (co_gas _ Hc). constructor; try done; try lia.
  by destruct f as [? [] ? ? ?].
Qed.

(** * Sign of the operands *)

Lemma stack_ok_lookup st n x : stack_ok st -> st !! n = Some x -> 0 <= x.
Proof. intros H Hx. exact (Forall_lookup_1 _ _ _ _ H Hx). Qed.

Lemma U256_nonneg x : 0 <= U256 x.
Proof. apply U256_word. Qed.
Lemma u64_nonneg x : 0 <= u64 x.
Proof. apply u64_range. Qed.
Lemma be_val_nonneg b : bytes_ok b -> 0 <= be_val b.
Proof. intros. by apply be_val_bound. Qed.
Lemma bool_word_nonneg b : 0 <= bool_word b.
Proof. by destruct b. Qed.
Lemma if_nonneg (b : bool) x y : 0 <= x -> 0 <= y -> 0 <= if b then x else y.
Proof. by destruct b. Qed.

(** ** Slices *)

Lemma slice_ok_nil : slice_ok [].
Proof. split; [constructor|done]. Qed.

Lemma bytes_ok_app_2 a b : bytes_ok a -> bytes_ok b -> bytes_ok (a ++ b).
Proof. apply Forall_app_2. Qed.
Lemma bytes_ok_take n b : bytes_ok b -> bytes_ok (take n b).
Proof. apply Forall_take. Qed.
Lemma bytes_ok_drop n b : bytes_ok b -> bytes_ok (drop n b).
Proof. apply Forall_drop. Qed.
Lemma bytes_ok_zeros n : bytes_ok (replicate n 0).
Proof. apply Forall_replicate. done. Qed.
Lemma bytes_ok_gocopy d s : bytes_ok d -> bytes_ok s -> bytes_ok (gocopy d s).
Proof. intros. unfold gocopy. apply bytes_ok_app_2; [by apply bytes_ok_take|by apply bytes_ok_drop]. Qed.
Lemma bytes_ok_slice l lo hi r : bytes_ok l -> zslice l lo hi = Some r -> bytes_ok r.
Proof.
  intros Hl H. unfold zslice in H. case_match; simplify_eq. apply bytes_ok_take. by apply bytes_ok_drop.
Qed.
Lemma bytes_ok_SetBytes n b : bytes_ok b -> bytes_ok (SetBytes n b).
Proof. intros. rewrite SetBytes_be by done. apply be_fixed_ok. Qed.
Lemma bytes_ok_RightPad b l : bytes_ok b -> bytes_ok (RightPadBytes b l).
Proof. intros. unfold RightPadBytes. case_match; [done|]. apply bytes_ok_gocopy; [apply bytes_ok_zeros|done]. Qed.

(** * Memory *)

Lemma calcMemSize_cases o l s : 0 <= o -> 0 <= l -> calcMemSize o l <= s -> l = 0 \/ (0 < l /\ o + l <= s).
Proof. unfold calcMemSize. zcase. Qed.

Lemma m_GetPtr_ok o l m :
  mem_ok m -> 0 <= o -> 0 <= l -> calcMemSize o l <= m_Len m ->
  m_GetPtr (i64 o) (i64 l) m = Ok (take (Z.to_nat l) (drop (Z.to_nat o) (m_store m))).
Proof.
  intros [Hb Hw Hl _] Ho Hl0 Hs. unfold m_GetPtr. destruct (calcMemSize_cases _ _ _ Ho Hl0 Hs) as [->|[? ?]]; [done|].
  rewrite !i64_small by lia. rewrite Z.gtb_ltb. zb. unfold zslice, m_Len in *. zb.
  repeat f_equal. lia.
Qed.

Lemma m_Get_ok o l m :
  mem_ok m -> 0 <= o -> 0 <= l -> calcMemSize o l <= m_Len m ->
  m_Get (i64 o) (i64 l) m = Ok (take (Z.to_nat l) (drop (Z.to_nat o) (m_store m))).
Proof.
  intros [Hb Hw Hl _] Ho Hl0 Hs. unfold m_Get. destruct (calcMemSize_cases _ _ _ Ho Hl0 Hs) as [->|[? ?]]; [done|].
  rewrite !i64_small by lia. rewrite Z.gtb_ltb. zb. unfold zslice, m_Len in *. zb.
  rewrite gocopy_all; [repeat f_equal; lia|]. unfold zlen in *. rewrite length_replicate, length_take, length_drop. lia.
Qed.

Lemma slice_ok_sub m o l : mem_ok m -> slice_ok (take l (drop o (m_store m))).
Proof.
  intros [Hb _ Hl _]. split; [by apply bytes_ok_take, bytes_ok_drop|].
  unfold m_Len, zlen in *. rewrite length_take, length_drop. lia.
Qed.

Lemma m_Set_ok o l v m :
  mem_ok m -> bytes_ok v -> 0 <= o -> 0 <= l -> calcMemSize o l <= m_Len m ->
  exists m', m_Set (u64 o) (u64 l) v m = Ok m' /\ mem_ok m' /\ m_Len m' = m_Len m.
Proof.
  intros [Hb Hw Hl Hf] Hv Ho Hl0 Hs. pose proof (zlen_nonneg (m_store m)) as Hn. fold (m_Len m) in Hn. unfold m_Set.
  rewrite (u64_small (m_Len m)) by (unfold is_u64; lia).
  destruct (calcMemSize_cases _ _ _ Ho Hl0 Hs) as [->|[? ?]].
  { change (u64 0) with 0. rewrite !Z.gtb_ltb. zb. exists m. done. }
  rewrite !(u64_small l), !(u64_small o) by (unfold is_u64; lia). rewrite !Z.gtb_ltb. zb.
  rewrite u64_small by (unfold is_u64; lia). unfold m_Len in *. rewrite zslice_some by lia. cbn [must outcome_bind].
  eexists. split; [done|]. simpl.
  assert (zlen (take (Z.to_nat o) (m_store m) ++ gocopy (take (Z.to_nat (o + l - o)) (drop (Z.to_nat o) (m_store m))) v ++
    drop (Z.to_nat (o + l)) (m_store m)) = zlen (m_store m)) as Hlen.
  { unfold zlen in *. rewrite !length_app, length_gocopy, !length_take, !length_drop. lia. }
  split; [|done]. constructor; simpl; unfold m_Len; simpl; rewrite ?Hlen; try done.
  apply bytes_ok_app_2; [by apply bytes_ok_take|]. apply bytes_ok_app_2; [|by apply bytes_ok_drop].
  apply bytes_ok_gocopy; [by apply bytes_ok_take, bytes_ok_drop|done].
Qed.

Lemma m_SetByte_ok o b m :
  mem_ok m -> is_byte b -> 0 <= o -> calcMemSize o 1 <= m_Len m ->
  exists m', m_SetByte (i64 o) b m = Ok m' /\ mem_ok m' /\ m_Len m' = m_Len m.
Proof.
  intros [Hb Hw Hl Hf] Hv Ho Hs. unfold calcMemSize, m_Len in *. simpl in Hs. unfold m_SetByte. rewrite i64_small by lia.
  unfold zset. zb. eexists. split; [done|].
  assert (zlen (<[Z.to_nat o := b]> (m_store m)) = zlen (m_store m)) as Hlen by (unfold zlen; by rewrite length_insert).
  split; [|done]. constructor; simpl; unfold m_Len; simpl; rewrite ?Hlen; try done. by apply Forall_insert.
Qed.

Lemma getDataBig_ok data start size :
  slice_ok data -> 0 <= start -> 0 <= size ->
  exists d, getDataBig data start size = Ok d /\ bytes_ok d.
Proof.
  intros [Hb Hl] Hs Hz. unfold getDataBig. pose proof (zlen_nonneg data).
  assert (0 <= BigMin start (zlen data) <= zlen data) as Hs' by (unfold BigMin; rewrite Z.gtb_ltb; zcase).
  set (s := BigMin start (zlen data)) in *.
  assert (s <= BigMin (s + size) (zlen data) <= zlen data) as He by (unfold BigMin; rewrite Z.gtb_ltb; zcase).
  rewrite !u64_small by (unfold is_u64; lia). rewrite zslice_some by lia. cbn [must outcome_bind].
  eexists. split; [done|]. by apply bytes_ok_RightPad, bytes_ok_take, bytes_ok_drop.
Qed.
End safe.
