(* ===== verification/VmExec.v ===== *)
(** Every instruction of [src/core/vm/instructions.go] meets its specification. *)

From stdpp Require Import base numbers list.
From S2P Require Import Prelude.
From S2P Require Import CommonMath.
From S2P Require Import Params.
From S2P Require Import VmData.
From S2P Require Import VmAnalysis.
From S2P Require Import VmState.
From S2P Require Import VmGas.
From S2P Require Import VmInstr.
From S2P Require Import VmWorld.
From S2P Require Import VmSafe.
Local Open Scope Z_scope.
Local Open Scope go_scope.

Create HintDb vm.
#[export] Hint Resolve U256_nonneg u64_nonneg be_val_nonneg bool_word_nonneg if_nonneg zlen_nonneg : vm.
#[export] Hint Resolve slice_ok_nil bytes_ok_SetBytes bytes_ok_RightPad be_fixed_ok big_bytes_ok : vm.
#[export] Hint Resolve Forall_nil_2 Forall_cons_2 : vm.
#[export] Hint Resolve co_value co_self co_caller co_input co_code eo_db GetBalance_ok GetCode_ok : vm.
#[export] Hint Resolve hash_digits GetHash_digits Origin_digits Coinbase_digits GasPrice_nonneg : vm.
#[export] Hint Resolve be_val_digits bytes_digits : vm.
#[export] Hint Extern 1 (0 <= _) => lia : vm.
#[export] Hint Extern 0 (0 <= Hash_Big _) => apply be_val_digits : vm.
#[export] Hint Extern 0 (0 <= Address_Big _) => apply be_val_digits : vm.

Lemma Exp_nonneg b e : 0 <= fst (Exp b e).
Proof. apply Exp_words_word. unfold is_word. lia. Qed.
Lemma land_nonneg x y : 0 <= x -> 0 <= Z.land x y.
Proof. rewrite Z.land_nonneg. tauto. Qed.
Lemma lor_nonneg x y : 0 <= x -> 0 <= y -> 0 <= Z.lor x y.
Proof. rewrite Z.lor_nonneg. tauto. Qed.
Lemma lxor_nonneg x y : 0 <= x -> 0 <= y -> 0 <= Z.lxor x y.
Proof. rewrite Z.lxor_nonneg. tauto. Qed.
Lemma gas_nonneg env c : contract_ok env c -> 0 <= c_Gas c.
Proof. intros [[] ? ? ? ? ? ?]. done. Qed.
#[export] Hint Resolve gas_nonneg : vm.
Lemma is_hash_bytes h : is_hash h -> bytes_ok h.
Proof. by intros []. Qed.
#[export] Hint Resolve Exp_nonneg land_nonneg lor_nonneg lxor_nonneg GetState_ok is_hash_bytes : vm.

Lemma is_hash_BigToHash x : is_hash (BigToHash x).
Proof. split; [apply length_SetBytes|apply bytes_ok_SetBytes, big_bytes_ok]. Qed.

Lemma stack_ok_cons x st : stack_ok (x :: st) <-> 0 <= x /\ stack_ok st.
Proof. apply Forall_cons. Qed.
#[export] Hint Resolve <- stack_ok_cons : vm.

Ltac head_of t := lazymatch t with ?g _ => head_of g | _ => t end.

(** Split the frame and take [n] operands off its stack. *)
Tactic Notation "vm_open" int_or_var(n) :=
  match goal with
  | f : Frame _ |- _ => destruct f as [e c m st pc]; cbn [f_evm f_contract f_mem f_stack f_pc] in *
  end;
  do n (match goal with H : stack_ok ?s |- _ =>
          destruct s as [|?x ?st];
            [cbn in *; lia|let Hx := fresh "Hx" in apply stack_ok_cons in H as [Hx H]]
        end).

(** Run the monad as far as it goes without looking into the operations. *)
Ltac vm_run :=
  cbv [wp vbind vret vfail vget vmod vlift pop push peek poke mem_Set mem_Get mem_GetPtr Back st_pop st_push st_peek
       st_Back must head lookup list_lookup outcome_bind with_evm with_contract with_mem with_stack with_pc with_db f_db
       f_evm f_contract f_mem f_stack f_pc].

Section exec.
Context {DB : Type} `{HS : StateDB DB} (env : Env) {L : StateDBLaws DB (Keccak256 env)} (Henv : env_ok env).
Implicit Types (e : EVM DB) (f : Frame DB) (c : Contract).

(** The frame after an instruction that keeps the contract. *)
Lemma post_intro e c m st pc e' m' st' pc' pops pushes res :
  frame_ok env (MkFrame e c m st pc) -> evm_steps env e e' -> mem_ok m' -> m_Len m' = m_Len m -> stack_ok st' ->
  0 <= pc' <= Z.max (pc + 32) (zlen (c_Code c)) -> slice_ok res -> (length st' + pops = length st + pushes)%nat ->
  exec_post env 0 pops pushes (MkFrame e c m st pc) (MkFrame e' c m' st' pc') (inr res).
Proof.
  intros [? Hc ? ? ?] **. destruct (co_gas _ _ Hc). split; [|done]. constructor; cbn in *; try done; try lia. by destruct c.
Qed.

(** An instruction that only works on the stack. *)
Lemma stack_post e c m st st' pc pops pushes :
  frame_ok env (MkFrame e c m st pc) -> stack_ok st' -> (length st' + pops = length st + pushes)%nat ->
  exec_post env 0 pops pushes (MkFrame e c m st pc) (MkFrame e c m st' pc) (inr []).
Proof.
  intros Hok Hst Hlen. pose proof Hok as []. cbn in *.
  apply post_intro; auto using slice_ok_nil, evm_steps_refl. lia.
Qed.

Ltac vm_unfold := match goal with |- wp ?m _ _ => let h := head_of m in unfold h end.

Tactic Notation "stack_op" int_or_var(n) :=
  intros f Hok Hlen _; pose proof Hok as []; vm_unfold; vm_open n; vm_run;
  apply stack_post; [done|eauto 10 with vm|cbn; lia].

Lemma opAdd_ok : exec_ok env opAdd 2 1 None.
Proof. stack_op 2. Qed.
Lemma opSub_ok : exec_ok env opSub 2 1 None.
Proof. stack_op 2. Qed.
Lemma opMul_ok : exec_ok env opMul 2 1 None.
Proof. stack_op 2. Qed.
Lemma opDiv_ok : exec_ok env opDiv 2 1 None.
Proof. stack_op 2. Qed.
Lemma opSdiv_ok : exec_ok env opSdiv 2 1 None.
Proof. stack_op 2. Qed.
Lemma opMod_ok : exec_ok env opMod 2 1 None.
Proof. stack_op 2. Qed.
Lemma opSmod_ok : exec_ok env opSmod 2 1 None.
Proof. stack_op 2. Qed.
Lemma opExp_ok : exec_ok env opExp 2 1 None.
Proof. stack_op 2. Qed.
Lemma opNot_ok : exec_ok env opNot 1 1 None.
Proof. stack_op 1. Qed.
Lemma opLt_ok : exec_ok env opLt 2 1 None.
Proof. stack_op 2. Qed.
Lemma opGt_ok : exec_ok env opGt 2 1 None.
Proof. stack_op 2. Qed.
Lemma opSlt_ok : exec_ok env opSlt 2 1 None.
Proof. stack_op 2. Qed.
Lemma opSgt_ok : exec_ok env opSgt 2 1 None.
Proof. stack_op 2. Qed.
Lemma opEq_ok : exec_ok env opEq 2 1 None.
Proof. stack_op 2. Qed.
Lemma opIszero_ok : exec_ok env opIszero 1 1 None.
Proof. stack_op 1. Qed.
Lemma opAnd_ok : exec_ok env opAnd 2 1 None.
Proof. stack_op 2. Qed.
Lemma opOr_ok : exec_ok env opOr 2 1 None.
Proof. stack_op 2. Qed.
Lemma opXor_ok : exec_ok env opXor 2 1 None.
Proof. stack_op 2. Qed.
Lemma opByte_ok : exec_ok env opByte 2 1 None.
Proof. stack_op 2. Qed.
Lemma opAddmod_ok : exec_ok env opAddmod 3 1 None.
Proof. stack_op 3. Qed.
Lemma opMulmod_ok : exec_ok env opMulmod 3 1 None.
Proof. stack_op 3. Qed.
Lemma opSHL_ok : exec_ok env opSHL 2 1 None.
Proof. stack_op 2. Qed.
Lemma opSHR_ok : exec_ok env opSHR 2 1 None.
Proof. stack_op 2. Qed.
Lemma opSAR_ok : exec_ok env opSAR 2 1 None.
Proof. stack_op 2. Qed.
Lemma opAddress_ok : exec_ok env opAddress 0 1 None.
Proof. stack_op 0. Qed.
Lemma opBalance_ok : exec_ok env opBalance 1 1 None.
Proof. stack_op 1. Qed.
Lemma opOrigin_ok : exec_ok env (opOrigin env) 0 1 None.
Proof. stack_op 0. Qed.
Lemma opCaller_ok : exec_ok env opCaller 0 1 None.
Proof. stack_op 0. Qed.
Lemma opCallValue_ok : exec_ok env opCallValue 0 1 None.
Proof. stack_op 0. Qed.
Lemma opCallDataSize_ok : exec_ok env opCallDataSize 0 1 None.
Proof. stack_op 0. Qed.
Lemma opReturnDataSize_ok : exec_ok env opReturnDataSize 0 1 None.
Proof. stack_op 0. Qed.
Lemma opExtCodeSize_ok : exec_ok env opExtCodeSize 1 1 None.
Proof. stack_op 1. Qed.
Lemma opCodeSize_ok : exec_ok env opCodeSize 0 1 None.
Proof. stack_op 0. Qed.
Lemma opGasprice_ok : exec_ok env (opGasprice env) 0 1 None.
Proof. stack_op 0. Qed.
Lemma opBlockhash_ok : exec_ok env (opBlockhash env) 1 1 None.
Proof. stack_op 1. Qed.
Lemma opCoinbase_ok : exec_ok env (opCoinbase env) 0 1 None.
Proof. stack_op 0. Qed.
Lemma opTimestamp_ok : exec_ok env (opTimestamp env) 0 1 None.
Proof. stack_op 0. Qed.
Lemma opNumber_ok : exec_ok env (opNumber env) 0 1 None.
Proof. stack_op 0. Qed.
Lemma opDifficulty_ok : exec_ok env (opDifficulty env) 0 1 None.
Proof. stack_op 0. Qed.
Lemma opGasLimit_ok : exec_ok env (opGasLimit env) 0 1 None.
Proof. stack_op 0. Qed.
Lemma opPop_ok : exec_ok env opPop 1 0 None.
Proof. stack_op 1. Qed.
Lemma opSload_ok : exec_ok env opSload 1 1 None.
Proof. stack_op 1. Qed.
Lemma opJumpdest_ok : exec_ok env opJumpdest 0 0 None.
Proof. stack_op 0. Qed.
Lemma opPc_ok : exec_ok env opPc 0 1 None.
Proof. stack_op 0. Qed.
Lemma opMsize_ok : exec_ok env opMsize 0 1 None.
Proof. stack_op 0. Qed.
Lemma opGas_ok : exec_ok env opGas 0 1 None.
Proof. stack_op 0. Qed.
Lemma opStop_ok : exec_ok env opStop 0 0 None.
Proof. stack_op 0. Qed.

(** ** Memory *)

Lemma mem_sub_bytes m l o : mem_ok m -> bytes_ok (take l (drop o (m_store m))).
Proof. intros. by apply slice_ok_sub. Qed.
Lemma PaddedBigBytes_bytes v n : 0 <= v -> bytes_ok (PaddedBigBytes v n).
Proof.
  intros. unfold PaddedBigBytes. case_match; [apply big_bytes_ok|]. rewrite ReadBits_be by done. apply be_fixed_ok.
Qed.
Lemma slice_bytes b : slice_ok b -> bytes_ok b.
Proof. by intros []. Qed.
#[local] Hint Resolve PaddedBigBytes_bytes slice_bytes mem_sub_bytes slice_ok_sub evm_steps_refl : vm.

Ltac vm_covered :=
  match goal with H : covered (Some ?ms) _ |- _ =>
    let s := fresh "s" in let E := fresh in
    destruct H as (s & E & ?);
    unfold ms, memSizeMax, memSize2, memSizeConst, st_Back in E;
    cbn [f_stack f_mem lookup list_lookup must outcome_bind] in *; injection E as <-
  end.
Tactic Notation "vm_enter" int_or_var(n) :=
  intros f Hok Hlen Hcov; pose proof Hok as []; vm_unfold; vm_open n; vm_covered.
Ltac vm_post :=
  apply post_intro; eauto 10 with vm; try (cbn in *; lia).
(** A write to memory. *)
Ltac vm_store :=
  match goal with |- context [m_Set (u64 ?o) (u64 ?l) ?v ?m] =>
    let m' := fresh "m'" in
    destruct (m_Set_ok o l v m) as (m' & -> & ? & ?); [eauto 10 with vm..|]
  end.

Lemma opMload_ok : exec_ok env opMload 1 1 (Some memoryMLoad).
Proof.
  vm_enter 1. vm_run. change 32 with (i64 32). rewrite m_Get_ok by (done || lia). vm_run. vm_post.
Qed.

Lemma opMstore_ok : exec_ok env opMstore 2 0 (Some memoryMStore).
Proof. vm_enter 2. vm_run. change 32 with (u64 32) at 1. vm_store. vm_run. vm_post. Qed.

Lemma opMstore8_ok : exec_ok env opMstore8 2 0 (Some memoryMStore8).
Proof.
  vm_enter 2. vm_run.
  destruct (m_SetByte_ok x (u8 (Z.land (i64 x0) 255)) m) as (m' & -> & ? & ?); [auto using u8_range..|]. vm_run. vm_post.
Qed.

(** The copying instructions: fetch, then store. *)
Ltac vm_fetch :=
  match goal with |- context [getDataBig ?d ?s ?l] =>
    let r := fresh "r" in
    destruct (getDataBig_ok d s l) as (r & -> & ?); [eauto 10 with vm..|]
  end.

Lemma opCallDataLoad_ok : exec_ok env opCallDataLoad 1 1 None.
Proof. intros f Hok Hlen _. pose proof Hok as []. vm_unfold. vm_open 1. vm_run. vm_fetch. vm_run. vm_post. Qed.
Lemma opCallDataCopy_ok : exec_ok env opCallDataCopy 3 0 (Some memoryCallDataCopy).
Proof. vm_enter 3. vm_run. vm_fetch. vm_run. vm_store. vm_run. vm_post. Qed.
Lemma opCodeCopy_ok : exec_ok env opCodeCopy 3 0 (Some memoryCodeCopy).
Proof. vm_enter 3. vm_run. vm_fetch. vm_run. vm_store. vm_run. vm_post. Qed.
Lemma opExtCodeCopy_ok : exec_ok env opExtCodeCopy 4 0 (Some memoryExtCodeCopy).
Proof. vm_enter 4. vm_run. vm_fetch. vm_run. vm_store. vm_run. vm_post. Qed.
Lemma opReturn_ok : exec_ok env opReturn 2 0 (Some memoryReturn).
Proof. vm_enter 2. vm_run. rewrite m_GetPtr_ok by done. vm_run. vm_post. Qed.
Lemma opRevert_ok : exec_ok env opRevert 2 0 (Some memoryRevert).
Proof. vm_enter 2. vm_run. rewrite m_GetPtr_ok by done. vm_run. vm_post. Qed.

Lemma opSignExtend_ok : exec_ok env opSignExtend 2 1 None.
Proof.
  intros f Hok Hlen _. pose proof Hok as []. vm_unfold. vm_open 2. vm_run. destruct (x <? 31); vm_run; vm_post.
Qed.

(** An instruction that fails may have changed the analysis cache and the stack only. *)
Lemma fail_intro e c m st pc e' st' pops pushes err :
  frame_ok env (MkFrame e c m st pc) -> evm_steps env e e' -> stack_ok st' ->
  exec_post env 0 pops pushes (MkFrame e c m st pc) (MkFrame e' c m st' pc) (inl err).
Proof.
  intros Hok **. destruct (post_intro e c m st pc e' m st' pc (length st) (length st') []); try done; auto.
  - by destruct Hok.
  - destruct Hok. cbn in *. lia.
  - apply slice_ok_nil.
  - lia.
Qed.

Lemma opReturnDataCopy_ok : exec_ok env opReturnDataCopy 3 0 (Some memoryReturnDataCopy).
Proof.
  vm_enter 3. vm_run. destruct (eo_return _ _ fo_evm) as [Hb Hl]. pose proof (zlen_nonneg (evm_returnData e)).
  destruct ((bitlen (x0 + x1) >? 64) || (u64 (zlen (evm_returnData e)) <? u64 (x0 + x1))) eqn:E.
  { vm_run. apply fail_intro; eauto with vm. }
  apply orb_false_iff in E as [E1 E2]. rewrite Z.gtb_ltb, Z.ltb_ge in E1. apply bitlen_le in E1; [|lia..].
  rewrite (u64_small (x0 + x1)) in * by (unfold is_u64; lia). rewrite (u64_small (zlen _)) in E2 by (unfold is_u64; lia).
  rewrite (u64_small x0) by (unfold is_u64; lia). apply Z.ltb_ge in E2. rewrite zslice_some by lia.
  vm_run. vm_store. { by apply bytes_ok_take, bytes_ok_drop. } vm_run. vm_post.
Qed.

(** ** The database *)

Lemma opSha3_ok : exec_ok env (opSha3 env) 2 1 (Some memorySha3).
Proof.
  vm_enter 2. vm_run. rewrite m_Get_ok by done. destruct (EnablePreimageRecording env); vm_run; vm_post.
  eapply evm_steps_db; [done|apply AddPreimage_ok; eauto with vm|done|by apply no_mint_le].
Qed.

Lemma opSstore_ok : exec_ok_writing env opSstore 2 0 None.
Proof.
  intros f Hok Hst Hlen _. pose proof Hok as []. vm_unfold. vm_open 2. vm_run. vm_post.
  eapply evm_steps_db; [done|apply SetState_ok; eauto using is_hash_BigToHash with vm|done|by apply no_mint_le].
Qed.

Lemma suicide_no_mint (db db1 : DB) a b w : db_ok db -> evolves db db1 w -> w = set_balance b (GetBalance db b + GetBalance db a) (world db) ->
  no_mint (world db) (if Exist db1 a then set_suicided a true (set_balance a 0 (world db1)) else world db1).
Proof.
  intros Hdb (Hok & Hw & _) ->. pose proof (GetBalance_ok db a Hdb) as Ha. destruct (Exist db1 a) eqn:Ex.
  - eapply no_mint_trans; [by apply (no_mint_give (world db) a b)|]. apply no_mint_le. intros c. cbn. unfold upd. case_bool_decide; [done|]. pose proof (sa_balance _ _ Hw c) as Hc. cbn in Hc. unfold upd in Hc. rewrite Hc. case_bool_decide; done.
  - destruct (Exist_ok db1 a Hok Ex) as [_ Hz]. pose proof (sa_balance _ _ Hw a) as Hc. cbn in Hc. rewrite Hz in Hc. unfold upd in Hc.
    assert (GetBalance db a = 0) as Hz' by (case_bool_decide; [subst; lia|done]). clear Hc. apply no_mint_le. intros c. pose proof (sa_balance _ _ Hw c) as Hc'. cbn in Hc' |- *. rewrite Hc', Hz'. unfold upd. case_bool_decide; subst; lia.
Qed.

Lemma opSuicide_ok : exec_ok_writing env opSuicide 1 0 None.
Proof.
  intros f Hok Hst Hlen _. pose proof Hok as []. vm_unfold. vm_open 1. vm_run. vm_post.
  pose proof (eo_db _ _ fo_evm) as Hdb. pose proof (AddBalance_ok (evm_StateDB e) (BigToAddress x) (GetBalance (evm_StateDB e) (c_self c)) Hdb (GetBalance_ok _ _ Hdb)) as H1. pose proof H1 as (Hok1 & _).
  change (set_StateDB (set_StateDB e ?d1) ?d2) with (set_StateDB e d2).
  eapply evm_steps_db; [done|eapply evolves_trans; [exact H1|by apply Suicide_ok]|done|]. by eapply suicide_no_mint.
Qed.

Lemma pop_topics_run n : forall e c m st pc, (n <= length st)%nat ->
  exists ts, pop_topics (DB:=DB) n (MkFrame e c m st pc) = Ok (MkFrame e c m (drop n st) pc, inr ts).
Proof.
  induction n as [|n IH]; intros e c m st pc Hlen; [by exists []|]. destruct st as [|x st]; [cbn in *; lia|].
  destruct (IH e c m st pc ltac:(cbn in *; lia)) as [ts Hts]. exists (BigToHash x :: ts).
  cbn [pop_topics]. vm_run. by rewrite Hts.
Qed.

Lemma wp_bind_run {A B} (m : VM DB A) (k : A -> VM DB B) Q f f' a : m f = Ok (f', inr a) -> wp (k a) Q f' -> wp (vbind m k) Q f.
Proof. intros E H. unfold wp, vbind. by rewrite E. Qed.

Lemma makeLog_ok n : exec_ok_writing env (makeLog env n) (2 + n) 0 (Some memoryLog).
Proof.
  intros f Hok Hst Hlen Hcov. pose proof Hok as []. vm_unfold. vm_open 2. vm_covered.
  do 2 (eapply wp_bind_run; [done|]). destruct (pop_topics_run n e c m st pc) as [ts Hts]; [cbn in *; lia|].
  eapply wp_bind_run; [exact Hts|]. vm_run. rewrite m_Get_ok by done. vm_run. vm_post.
  - eapply evm_steps_db; [done|apply AddLog_ok; eauto with vm|done|by apply no_mint_le].
  - by apply Forall_drop.
  - cbn in *. rewrite length_drop. lia.
Qed.

(** ** Control flow *)

Lemma jump_to_ok e c m st st' pc pos pops pushes :
  frame_ok env (MkFrame e c m st pc) -> stack_ok st' -> (length st' + pops = length st + pushes)%nat -> 0 <= pos ->
  wp (vbind (jump_to pos) (fun _ => vret [])) (exec_post env 0 pops pushes (MkFrame e c m st pc)) (MkFrame e c m st' pc).
Proof.
  intros Hok Hst Hlen Hpos. pose proof Hok as [He Hc ? ? ?]. cbn in *. destruct (co_code _ _ Hc) as [Hb Hl].
  destruct (dests_has_valid _ _ _ pos (eo_dests _ _ He) Hb Hl (hash_free _ Henv _ Hb) Hpos) as (d' & Hd & Hd').
  unfold jump_to, jump_ok. vm_run. rewrite (co_hash _ _ Hc), Hd. vm_run.
  assert (evm_steps env e (set_jumpdests e d')) as Hs by (apply evm_steps_aux; try done; by destruct He).
  destruct (valid_jumpdest (c_Code c) pos) eqn:E; vm_run; [|by apply fail_intro].
  unfold valid_jumpdest in E. rewrite !andb_true_iff, Z.ltb_lt in E. destruct E as [[E _] _].
  rewrite u64_small by (unfold is_u64; lia). apply post_intro; auto using slice_ok_nil. lia.
Qed.

Lemma opJump_ok : exec_ok env opJump 1 0 None.
Proof.
  intros f Hok Hlen _. pose proof Hok as []. vm_unfold. vm_open 1. eapply wp_bind_run; [done|].
  apply jump_to_ok; [done..|cbn; lia|done].
Qed.

Lemma opJumpi_ok : exec_ok env opJumpi 2 0 None.
Proof.
  intros f Hok Hlen _. pose proof Hok as []. vm_unfold. vm_open 2. do 2 (eapply wp_bind_run; [done|]).
  destruct (negb (x0 =? 0)); [by apply jump_to_ok; [..|cbn; lia|]|]. vm_run. vm_post.
  pose proof (co_code _ _ fo_contract) as [? ?]. cbn in *. rewrite u64_small by (unfold is_u64; lia). lia.
Qed.

(** ** Stack *)

Lemma makePush_ok n : 1 <= n <= 32 -> exec_ok env (makePush n n) 0 1 None.
Proof.
  intros Hn f Hok Hlen _. pose proof Hok as []. vm_unfold. vm_open 0. vm_run.
  pose proof (co_code _ _ fo_contract) as [? ?]. pose proof (zlen_nonneg (c_Code c)).
  rewrite (u64_small (pc + 1)), i64_small by (unfold is_u64; lia).
  rewrite zslice_some by zcase. vm_run. vm_post.
  - apply stack_ok_cons. split; [|done]. by apply be_val_nonneg, bytes_ok_RightPad, bytes_ok_take, bytes_ok_drop.
  - cbn in *. rewrite u64_small by (unfold is_u64; lia). lia.
Qed.

Lemma makeDup_ok n : (1 <= n)%nat -> exec_ok env (makeDup n) n (S n) None.
Proof.
  intros Hn f Hok Hlen _. pose proof Hok as []. vm_unfold. vm_open 0. vm_run. unfold st_dup, Stack.
  destruct (lookup_lt_is_Some_2 st (n - 1)) as [y Hy]; [lia|]. rewrite Hy. vm_run.
  apply stack_post; [done|apply stack_ok_cons; eauto using stack_ok_lookup|cbn; lia].
Qed.

Lemma makeSwap_ok n : exec_ok env (makeSwap n) (S n) (S n) None.
Proof.
  intros f Hok Hlen _. pose proof Hok as []. vm_unfold. vm_open 0. vm_run. unfold st_swap, Stack.
  replace (n + 1 - 1)%nat with n by lia.
  destruct (lookup_lt_is_Some_2 st n) as [y Hy]; [lia|]. destruct (lookup_lt_is_Some_2 st 0) as [z Hz]; [lia|].
  rewrite Hy, Hz. vm_run. apply stack_post; [done| |by rewrite !length_insert].
  apply Forall_insert; [apply Forall_insert; [done|]|]; by eapply stack_ok_lookup.
Qed.

(** ** Calls *)

(** A call comes back, with no more gas than it was given. *)
Definition call_returns (gas : Z) e (o : outcome Empty_set (EVM DB * CallResult)) : Prop :=
  exists e' ret left err, o = Ok (e', (ret, left, err)) /\ evm_steps env e e' /\ slice_ok ret /\ 0 <= left <= gas.

(** What the instructions rely on: calls granted less than [bound] gas come back. *)
Record calls_ok (bound : Z) (ops : CallOps DB) : Prop := {
  Call_returns c addr input gas value e :
    contract_ok env c -> evm_ok env e -> digits_ok addr -> slice_ok input -> is_u64 gas -> gas < bound -> 0 <= value ->
    (static env e -> value = 0) -> call_returns gas e (co_Call ops (RefContract c) addr input gas value e);
  CallCode_returns c addr input gas value e :
    contract_ok env c -> evm_ok env e -> digits_ok addr -> slice_ok input -> is_u64 gas -> gas < bound -> 0 <= value ->
    call_returns gas e (co_CallCode ops (RefContract c) addr input gas value e);
  DelegateCall_returns c addr input gas e :
    contract_ok env c -> evm_ok env e -> digits_ok addr -> slice_ok input -> is_u64 gas -> gas < bound ->
    call_returns gas e (co_DelegateCall ops (RefContract c) addr input gas e);
  StaticCall_returns c addr input gas e :
    contract_ok env c -> evm_ok env e -> digits_ok addr -> slice_ok input -> is_u64 gas -> gas < bound ->
    call_returns gas e (co_StaticCall ops (RefContract c) addr input gas e);
  Create_returns c code gas value e :
    contract_ok env c -> evm_ok env e -> slice_ok code -> is_u64 gas -> gas < bound -> 0 <= value -> ~ static env e ->
    exists addr e' r, co_Create ops (RefContract c) code gas value e = Ok (e', (addr, r)) /\
      digits_ok addr /\ call_returns gas e (Ok (e', r)) }.

(** The gas a call may use: what [gasCall] granted, and the stipend of a call with value. *)
Definition granted (value : Z) e : Z := evm_callGasTemp e + (if value =? 0 then 0 else CallStipend).

Lemma contract_ok_gas c g : contract_ok env c -> is_u64 g -> contract_ok env (set_Gas c g).
Proof. intros [] ?. by constructor. Qed.

(** The frame after a call: the callee's machine, its gas added to ours. *)
Lemma post_call e c m st pc e' m' st' left gas pops pushes res :
  frame_ok env (MkFrame e c m st pc) -> evm_steps env e e' -> mem_ok m' -> m_Len m' = m_Len m -> stack_ok st' ->
  0 <= left <= gas -> c_Gas c + gas < 2 ^ 64 -> slice_ok res -> (length st' + pops = length st + pushes)%nat ->
  exec_post env gas pops pushes (MkFrame e c m st pc)
    (MkFrame e' (set_Gas c (u64 (c_Gas c + left))) m' st' pc) (inr res).
Proof.
  intros [? Hc ? ? ?] **. destruct (co_gas _ _ Hc). cbn in *. rewrite u64_small by (unfold is_u64; lia).
  split; [|done]. constructor; cbn; try done; lia.
Qed.

Lemma finishCall_ok e c m st pc e' st' ro rs ret left err gas pops :
  frame_ok env (MkFrame e c m st pc) -> evm_steps env e e' -> slice_ok ret -> 0 <= left <= gas ->
  c_Gas c + gas < 2 ^ 64 -> stack_ok st' -> (length st' + pops = length st)%nat ->
  0 <= ro -> 0 <= rs -> calcMemSize ro rs <= m_Len m ->
  wp (finishCall ro rs (ret, left, err)) (exec_post env gas pops 1 (MkFrame e c m st pc)) (MkFrame e' c m st' pc).
Proof.
  intros Hok Hs Hret Hleft Hgas Hst Hlen Hro Hrs Hcov. pose proof (fo_mem _ _ Hok). unfold finishCall.
  eapply wp_bind_run; [done|]. destruct (m_Set_ok ro rs ret m) as (m' & Hm & ? & ?); [by eauto with vm..|].
  destruct (bool_decide (err = None) || bool_decide (err = Some errExecutionReverted)); unfold addGas; vm_run; rewrite ?Hm;
    apply post_call; eauto with vm; cbn; lia.
Qed.

(** What a call instruction needs besides its operands: the grant is within bounds. *)
Definition can_grant (bound grant : Z) e c : Prop :=
  0 <= evm_callGasTemp e /\ grant < bound /\ c_Gas c + grant < 2 ^ 64.

Lemma stipend_bound v e :
  0 <= evm_callGasTemp e -> granted v e < 2 ^ 64 ->
  0 <= (if negb (U256 v =? 0) then u64 (evm_callGasTemp e + CallStipend) else evm_callGasTemp e) <= granted v e.
Proof.
  intros Ht Hg. unfold granted in *. destruct (Z.eqb_spec v 0) as [->|]; [change (U256 0 =? 0) with true; cbn; lia|].
  unfold CallStipend in *. destruct (negb _); [rewrite u64_small by (unfold is_u64; lia)|]; lia.
Qed.

Lemma U256_0 : U256 0 = 0.
Proof. done. Qed.
Lemma BigToAddress_digits x : digits_ok (BigToAddress x).
Proof. apply bytes_digits, bytes_ok_SetBytes, big_bytes_ok. Qed.
Lemma BigMax_le x y z : BigMax x y <= z -> x <= z /\ y <= z.
Proof. unfold BigMax. zcase. Qed.

Lemma UseGas_enough gas c :
  contract_ok env c -> 0 <= gas <= c_Gas c ->
  UseGas gas c = (set_Gas c (c_Gas c - gas), true) /\ contract_ok env (set_Gas c (c_Gas c - gas)).
Proof.
  intros Hc ?. destruct (co_gas _ _ Hc). unfold UseGas. zb. rewrite u64_small by (unfold is_u64; lia).
  split; [done|]. apply contract_ok_gas; [done|]. unfold is_u64. lia.
Qed.

Section call_instructions.
Context (bound : Z) (ops : CallOps DB) (Hops : calls_ok bound ops).

Lemma vcall_run {A} (g : EVM DB -> outcome Empty_set (EVM DB * A)) e c m st pc e' a :
  g e = Ok (e', a) -> vcall g (MkFrame e c m st pc) = Ok (MkFrame e' c m st pc, inr a).
Proof. intros E. unfold vcall. cbn. by rewrite E. Qed.

(** Read the arguments, call, finish. *)
Lemma call_tail gas (g : bytes -> Contract -> EVM DB -> outcome Empty_set (EVM DB * CallResult)) e c m st pc st' io il ro rs grant pops :
  frame_ok env (MkFrame e c m st pc) -> (forall args, slice_ok args -> call_returns gas e (g args c e)) -> gas <= grant ->
  c_Gas c + grant < 2 ^ 64 -> stack_ok st' -> (length st' + pops = length st)%nat ->
  0 <= io -> 0 <= il -> 0 <= ro -> 0 <= rs -> BigMax (calcMemSize ro rs) (calcMemSize io il) <= m_Len m ->
  wp (vbind (mem_Get (i64 io) (i64 il)) (fun args => vbind (vget f_contract) (fun contract =>
        vbind (vcall (g args contract)) (fun r => finishCall ro rs r))))
    (exec_post env grant pops 1 (MkFrame e c m st pc)) (MkFrame e c m st' pc).
Proof.
  intros Hok Hg Hle Hgas Hst Hlen ? ? ? ? [? ?]%BigMax_le. pose proof (fo_mem _ _ Hok) as Hm.
  eapply wp_bind_run; [cbv [mem_Get vbind vget vlift]; cbn [f_mem]; by rewrite m_Get_ok|]. eapply wp_bind_run; [done|].
  edestruct Hg as (e' & ret & left & err & Hc & Hs & Hret & Hleft); [by eapply (slice_ok_sub m)|].
  eapply wp_bind_run; [by apply vcall_run|]. apply finishCall_ok; [done..| |done|done|done|done|done|done]. lia.
Qed.

Ltac vm_call :=
  match goal with f := _ : Frame DB |- _ => subst f end;
  intros Hok Hcov (Ht & Hb & Hg); pose proof Hok as [? Hc ? Hst ?]; cbn in Hst; vm_covered;
  unfold stack_ok in Hst; rewrite ?Forall_cons in Hst; destruct_and! Hst; cbn in *; destruct (co_gas _ _ Hc).

Lemma opCall_ok e c m pc g a v io il ro rs st (f := MkFrame e c m (g :: a :: v :: io :: il :: ro :: rs :: st) pc) :
  frame_ok env f -> covered (Some memoryCall) f -> can_grant bound (granted v e) e c -> (static env e -> v = 0) ->
  wp (opCall ops) (exec_post env (granted v e) 7 1 f) f.
Proof.
  vm_call. intros Hv. pose proof (stipend_bound v e Ht ltac:(lia)) as Hgas.
  vm_unfold. do 8 (eapply wp_bind_run; [done|]).
  match type of Hgas with _ <= ?g <= _ => set (gas := g) in * end.
  apply (call_tail gas (fun args c => co_Call ops (RefContract c) (BigToAddress a) args gas (U256 v))); try done; try (cbn; lia).
  intros args Hargs. apply (Call_returns _ _ Hops); auto using BigToAddress_digits, U256_nonneg.
  - unfold is_u64. lia.
  - lia.
  - intros Hs. by rewrite (Hv Hs).
Qed.

Lemma opCallCode_ok e c m pc g a v io il ro rs st (f := MkFrame e c m (g :: a :: v :: io :: il :: ro :: rs :: st) pc) :
  frame_ok env f -> covered (Some memoryCall) f -> can_grant bound (granted v e) e c ->
  wp (opCallCode ops) (exec_post env (granted v e) 7 1 f) f.
Proof.
  vm_call. pose proof (stipend_bound v e Ht ltac:(lia)) as Hgas.
  vm_unfold. do 8 (eapply wp_bind_run; [done|]).
  match type of Hgas with _ <= ?g <= _ => set (gas := g) in * end.
  apply (call_tail gas (fun args c => co_CallCode ops (RefContract c) (BigToAddress a) args gas (U256 v))); try done; try (cbn; lia).
  intros args Hargs. apply (CallCode_returns _ _ Hops); auto using BigToAddress_digits, U256_nonneg.
  - unfold is_u64. lia.
  - lia.
Qed.

Lemma opDelegateCall_ok e c m pc g a io il ro rs st (f := MkFrame e c m (g :: a :: io :: il :: ro :: rs :: st) pc) :
  frame_ok env f -> covered (Some memoryDelegateCall) f -> can_grant bound (evm_callGasTemp e) e c ->
  wp (opDelegateCall ops) (exec_post env (evm_callGasTemp e) 6 1 f) f.
Proof.
  vm_call. vm_unfold. do 7 (eapply wp_bind_run; [done|]). set (gas := evm_callGasTemp e) in *.
  apply (call_tail gas (fun args c => co_DelegateCall ops (RefContract c) (BigToAddress a) args gas)); try done; try (cbn; lia).
  intros args Hargs. apply (DelegateCall_returns _ _ Hops); auto using BigToAddress_digits. unfold is_u64. lia.
Qed.

Lemma opStaticCall_ok e c m pc g a io il ro rs st (f := MkFrame e c m (g :: a :: io :: il :: ro :: rs :: st) pc) :
  frame_ok env f -> covered (Some memoryStaticCall) f -> can_grant bound (evm_callGasTemp e) e c ->
  wp (opStaticCall ops) (exec_post env (evm_callGasTemp e) 6 1 f) f.
Proof.
  vm_call. vm_unfold. do 7 (eapply wp_bind_run; [done|]). set (gas := evm_callGasTemp e) in *.
  apply (call_tail gas (fun args c => co_StaticCall ops (RefContract c) (BigToAddress a) args gas)); try done; try (cbn; lia).
  intros args Hargs. apply (StaticCall_returns _ _ Hops); auto using BigToAddress_digits. unfold is_u64. lia.
Qed.

(** The creator keeps a sixty-fourth of its gas, or nothing before EIP 150. *)
Lemma opCreate_ok e c m pc v o l st (f := MkFrame e c m (v :: o :: l :: st) pc) :
  frame_ok env f -> covered (Some memoryCreate) f -> ~ static env e -> c_Gas c < bound ->
  wp (opCreate env ops) (exec_post env 0 3 1 f) f.
Proof.
  subst f. intros Hok Hcov Hs Hb. pose proof Hok as [? Hc ? Hst ?]. cbn in Hst. vm_covered.
  unfold stack_ok in Hst. rewrite !Forall_cons in Hst. destruct_and! Hst. cbn in *. destruct (co_gas _ _ Hc).
  vm_unfold. do 3 (eapply wp_bind_run; [done|]).
  eapply wp_bind_run; [cbv [mem_Get vbind vget vlift]; cbn [f_mem]; by rewrite m_Get_ok|]. eapply wp_bind_run; [done|].
  set (gas := if e_IsEIP150 env then _ else _). assert (0 <= gas <= c_Gas c) as Hgas.
  { subst gas. cbn. destruct (e_IsEIP150 env); [|lia]. rewrite u64_small by (unfold is_u64; Z.to_euclidean_division_equations; lia).
    Z.to_euclidean_division_equations; lia. }
  clearbody gas. destruct (UseGas_enough gas c) as [Hu Hc']; [done..|]. set (c' := set_Gas c (c_Gas c - gas)) in *.
  eapply (wp_bind_run _ _ _ _ (MkFrame e c' m st pc) tt); [by cbv [vmod with_contract f_contract]; cbn; rewrite Hu|].
  eapply wp_bind_run; [done|].
  destruct (Create_returns _ _ Hops c' (take (Z.to_nat l) (drop (Z.to_nat o) (m_store m))) gas v e)
    as (addr & e' & [[res left] err] & Hcr & Ha & (? & ? & ? & ? & [= <- <- <- <-] & Hst & Hres & Hl));
    [by eauto with vm; try (unfold is_u64; lia)..|].
  eapply wp_bind_run; [by apply vcall_run|]. unfold addGas. vm_run. split; [constructor; cbn|split; cbn; [|lia]].
  all: subst c'; cbn in *; rewrite ?u64_small by (unfold is_u64; lia); eauto with vm; try lia.
  - apply stack_ok_cons. split; [|done]. repeat apply if_nonneg; auto with vm.
  - by destruct (bool_decide _); eauto with vm.
Qed.
End call_instructions.
End exec.
