(* ===== verification/VmCost.v ===== *)
(** Gas functions are safe and charge enough: each function of
    [src/core/vm/gas_table.go] ends, reports a price below 2^64, refuses memory beyond
    2^40 bytes, and prices a call above what the callee is granted. *)

From stdpp Require Import base numbers list.
From S2P Require Import Prelude.
From S2P Require Import CommonMath.
From S2P Require Import Params.
From S2P Require Import VmData.
From S2P Require Import VmState.
From S2P Require Import VmGas.
From S2P Require Import VmInstr.
From S2P Require Import VmWorld.
From S2P Require Import VmSafe.
From S2P Require Import VmExec.
Local Open Scope Z_scope.
Local Open Scope go_scope.

Section cost.
Context {DB : Type} `{HS : StateDB DB} (env : Env) {L : StateDBLaws DB (Keccak256 env)}.
Implicit Types (e : EVM DB) (f : Frame DB) (c : Contract).

(** * Specifications *)

(** What pricing leaves alone. *)
Record charged f f' : Prop := {
  ch_evm : evm_steps env (f_evm f) (f_evm f');
  ch_contract : f_contract f' = f_contract f;
  ch_stack : f_stack f' = f_stack f;
  ch_pc : f_pc f' = f_pc f;
  ch_store : m_store (f_mem f') = m_store (f_mem f);
  ch_mem : mem_ok (f_mem f') }.

(** The largest memory that can be paid for. *)
Definition maxMem : Z := 0xffffffffe0.

Definition price_post (P : Z -> Prop) f f' (r : vm_error + Z) : Prop :=
  charged f f' /\ match r with inl _ => True | inr cost => is_u64 cost /\ P cost end.

(** [g] is safe on [pops] operands, costs at least [lo], and, if [paid], accepts only memory
    that can be paid for. *)
Definition price_ok (g : Z -> VM DB Z) (pops : nat) (lo : Z) (paid : bool) : Prop :=
  forall f size, frame_ok env f -> (pops <= length (f_stack f))%nat -> 0 <= size ->
    wp (g size) (price_post (fun cost => lo <= cost /\ (paid = true -> size <= maxMem)) f) f.

(** The same, for instructions read-only mode forbids. *)
Definition price_ok_writing (g : Z -> VM DB Z) (pops : nat) (lo : Z) (paid : bool) : Prop :=
  forall f size, frame_ok env f -> ~ static env (f_evm f) -> (pops <= length (f_stack f))%nat -> 0 <= size ->
    wp (g size) (price_post (fun cost => lo <= cost /\ (paid = true -> size <= maxMem)) f) f.

Lemma wp_seq {A B} (m : VM DB A) (k : A -> VM DB B) (P : Frame DB -> vm_error + A -> Prop) Q f :
  wp m P f -> (forall f' a, P f' (inr a) -> wp (k a) Q f') -> (forall f' err, P f' (inl err) -> Q f' (inl err)) ->
  wp (vbind m k) Q f.
Proof. intros H H1 H2. unfold wp, vbind in *. destruct (m f) as [[f' [e|a]]|e| |]; try done; auto. by apply (H1 f' a). Qed.

Lemma charged_refl f : frame_ok env f -> charged f f.
Proof. intros []. constructor; auto using evm_steps_refl. Qed.
Lemma charged_trans f1 f2 f3 : charged f1 f2 -> charged f2 f3 -> charged f1 f3.
Proof. intros [] []. constructor; try congruence. by eapply evm_steps_trans. Qed.
Lemma charged_ok f f' : frame_ok env f -> charged f f' -> frame_ok env f'.
Proof. intros [] [[] Hc Hst Hpc ? ?]. constructor; rewrite ?Hc, ?Hst, ?Hpc; auto. Qed.

(** * Arithmetic *)

Lemma safeAdd_ok x y f : is_u64 x -> is_u64 y ->
  wp (safeAdd x y) (fun f' r => f' = f /\ match r with inl _ => True | inr z => z = x + y /\ is_u64 z end) f.
Proof.
  intros Hx Hy. unfold safeAdd. rewrite SafeAdd_spec by done. unfold wp. case_bool_decide; [done|].
  unfold is_u64 in *. simpl. rewrite u64_small by (unfold is_u64; lia). split_and!; [done|done|lia|lia].
Qed.

Lemma safeMul_ok x y f : is_u64 x -> is_u64 y ->
  wp (safeMul x y) (fun f' r => f' = f /\ match r with inl _ => True | inr z => z = x * y /\ is_u64 z end) f.
Proof.
  intros Hx Hy. unfold safeMul. rewrite SafeMul_spec by done. unfold wp. case_bool_decide; [done|].
  unfold is_u64 in *. simpl. rewrite u64_small by (unfold is_u64; nia). split_and!; [done|done|nia|lia].
Qed.

Lemma toUint64_ok v f : 0 <= v ->
  wp (toUint64 v) (fun f' r => f' = f /\ match r with inl _ => True | inr z => z = v /\ is_u64 z end) f.
Proof.
  intros Hv. unfold toUint64, bigUint64, wp. rewrite Z.gtb_ltb. destruct (Z.ltb_spec 64 (bitlen v)) as [|Hb]; [done|].
  apply bitlen_le in Hb; [|lia..]. simpl. rewrite u64_small by (unfold is_u64; lia). unfold is_u64. auto with lia.
Qed.

Lemma Back_ok n f : frame_ok env f -> (n < length (f_stack f))%nat ->
  wp (Back n) (fun f' r => f' = f /\ match r with inl _ => False | inr x => f_stack f !! n = Some x /\ 0 <= x end) f.
Proof.
  intros Hf Hn. unfold wp, Back, vbind, vget, vlift, st_Back, Stack in *.
  destruct (lookup_lt_is_Some_2 (f_stack f) n Hn) as [x Hx]. rewrite Hx. simpl. split_and!; [done..|].
  eapply stack_ok_lookup; [by destruct Hf|done].
Qed.

Lemma toWordSize_spec n : is_u64 n -> is_u64 (toWordSize n) /\ n <= toWordSize n * 32 < n + 32.
Proof.
  intros [? ?]. unfold toWordSize, MaxUint64, is_u64. rewrite Z.gtb_ltb. destruct (Z.ltb_spec (2 ^ 64 - 1 - 31) n).
  - change ((2 ^ 64 - 1) / 32 + 1) with (2 ^ 59). lia.
  - rewrite u64_small by (unfold is_u64; lia). Z.to_euclidean_division_equations. lia.
Qed.

(** * Memory *)

Lemma memoryGasCost_ok size f : frame_ok env f -> 0 <= size ->
  wp (memoryGasCost size) (price_post (fun cost => size <= maxMem) f) f.
Proof.
  intros Hf Hs. pose proof (charged_refl f Hf) as Hr. unfold memoryGasCost, maxMem.
  destruct (Z.eqb_spec size 0); [split; [done|]; unfold is_u64; lia|]. rewrite !Z.gtb_ltb.
  destruct (Z.ltb_spec 0xffffffffe0 size); [done|]. unfold wp, vbind, vget.
  cbn beta iota zeta; destruct (_ >? _); cbn; (split; [|split; [apply u64_range || (unfold is_u64; lia)|lia]]); [|done].
  destruct Hr as [? ? ? ? ? [? ? ? ?]]. constructor; try done. constructor; try done. apply u64_range.
Qed.

(** * The price list *)

Ltac u64_side := first [done | assumption | unfold is_u64 in *; lia].
Ltac p_mem := eapply wp_seq; [apply memoryGasCost_ok; assumption|
  let f1 := fresh "f1" in let cost := fresh "cost" in intros f1 cost (?Hch & ?Hcost & ?Hmem)|intros ? ? (? & _); split; done].
Ltac p_back := eapply wp_seq; [apply Back_ok; [eauto using charged_ok|lia]|
  let x := fresh "x" in intros ? x [-> [?Hx ?Hxn]]|by intros ? ? [_ []]].
Ltac p_arith lem := eapply wp_seq; [apply lem; u64_side|
  let z := fresh "z" in intros ? z [-> [?Hz ?Hzu]]|intros ? ? [-> _]; split; [eauto using charged_refl|done]].
Ltac p_last lem := eapply wp_mono; [apply lem; u64_side|intros ? [?|?] [-> ?Hz]; (split; [eauto using charged_refl|])].

Lemma gasCopy_ok base perWord n : 1 <= base -> is_u64 base -> is_u64 perWord -> price_ok (gasCopy base perWord n) (S n) base true.
Proof.
  intros Hb Hbu Hp f size Hf Hlen Hs. unfold gasCopy. p_mem. p_arith safeAdd_ok. rewrite <- (ch_stack _ _ Hch) in Hlen.
  p_back. p_arith toUint64_ok. subst. destruct (toWordSize_spec x) as [? _]; [done|].
  p_arith safeMul_ok. subst. p_last safeAdd_ok; [done|]. destruct Hz as [-> ?]. unfold is_u64 in *. auto with lia.
Qed.

Lemma gasMLoad_ok : price_ok gasMLoad 0 1 true.
Proof.
  intros f size Hf Hlen Hs. unfold gasMLoad. eapply (wp_seq _ _ (price_post (fun _ => size <= maxMem) f)).
  - pose proof (memoryGasCost_ok size f Hf Hs) as H. unfold wp in *. by destruct (memoryGasCost size f) as [[? []]| | |].
  - intros f1 cost (Hch & Hcost & Hmem). p_last safeAdd_ok; [done|]. destruct Hz as [-> ?].
    unfold is_u64, GasFastestStep in *. auto with lia.
  - intros f1 e (Hch & _). by split.
Qed.

Lemma gasCreate_ok : price_ok gasCreate 0 1 true.
Proof.
  intros f size Hf Hlen Hs. unfold gasCreate. p_mem. p_last safeAdd_ok; [done|]. destruct Hz as [-> ?].
  unfold is_u64, CreateGas in *. auto with lia.
Qed.

Lemma makeGasLog_ok n : 0 <= n <= 4 -> price_ok (makeGasLog n) 2 1 true.
Proof.
  intros Hn f size Hf Hlen Hs. unfold makeGasLog. p_back. p_arith toUint64_ok. subst. p_mem. p_arith safeAdd_ok.
  assert (is_u64 (u64 (n * LogTopicGas))) by apply u64_range. p_arith safeAdd_ok. p_arith safeMul_ok. p_last safeAdd_ok; [done|].
  destruct Hz2 as [-> ?]. unfold is_u64, LogGas in *. split; [lia|]. split; [|done]. lia.
Qed.

Lemma memoryGasCost_price : price_ok memoryGasCost 0 0 true.
Proof.
  intros f size Hf Hlen Hs. eapply wp_mono; [by apply memoryGasCost_ok|]. intros f1 [e|cost] [Hch Hc]; split; try done.
  destruct Hc as [[? ?] ?]. unfold is_u64. auto with lia.
Qed.

(** ** Prices of the fork *)

Lemma gasTable_range (get : GasTable -> Z) lo hi :
  lo <= get GasTableHomestead <= hi -> lo <= get GasTableEIP150 <= hi -> lo <= get GasTableEIP158 <= hi ->
  lo <= get (e_gasTable env) <= hi.
Proof. intros. unfold e_gasTable, gasTable. by repeat case_match. Qed.

Lemma const_price (g : Z -> VM DB Z) x : (forall size, g size = vret x) -> 1 <= x < 2 ^ 64 -> price_ok g 0 1 false.
Proof.
  intros Hg Hx f size Hf Hlen Hs. rewrite Hg. split; [by apply charged_refl|]. unfold is_u64. auto with lia.
Qed.

Lemma gasExp_ok : price_ok (gasExp env) 2 1 false.
Proof.
  intros f size Hf Hlen Hs. unfold gasExp. p_back.
  assert (is_u64 (u64 (u64 ((bitlen x + 7) / 8) * gt_ExpByte (e_gasTable env)))) by apply u64_range.
  p_last safeAdd_ok; [done|]. destruct Hz as [-> ?]. unfold is_u64, GasSlowStep in *. split; [lia|]. split; [lia|done].
Qed.

Lemma refund_charged f x : frame_ok env f -> ~ static env (f_evm f) -> charged f (with_db f (AddRefund x (f_db f))).
Proof.
  intros [] Hs. constructor; try done. eapply evm_steps_db; [done|apply AddRefund_ok; eauto with vm|done|by apply no_mint_le].
Qed.

Lemma gasSStore_ok : price_ok_writing gasSStore 2 1 false.
Proof.
  intros f size Hf Hst Hlen Hs. unfold gasSStore. p_back. p_back. unfold wp, vbind, vget. cbn beta iota.
  unfold SstoreSetGas, SstoreClearGas, SstoreResetGas.
  destruct (EmptyHash _ && _); [|destruct (_ && _)]; (split; [|unfold is_u64; split_and!; [lia..|done]]).
  - by apply charged_refl.
  - by apply refund_charged.
  - by apply charged_refl.
Qed.

Lemma gasSuicide_ok : price_ok_writing (gasSuicide env) 1 0 false.
Proof.
  intros f size Hf Hst Hlen Hs. unfold gasSuicide. apply (wp_seq _ _ (fun f' r => f' = f /\ exists g, r = inr g /\ is_u64 g)).
  - destruct (e_IsEIP150 env).
    + p_back. unfold wp, vbind, vget, vret. split; [done|]. eexists; split; [done|].
      pose proof (gasTable_range gt_Suicide 0 5000 ltac:(cbn; lia) ltac:(cbn; lia) ltac:(cbn; lia)).
      assert (is_u64 (gt_Suicide (e_gasTable env))) by (unfold is_u64; lia).
      repeat case_match; auto using u64_range.
    + split; [done|]. eexists; split; [done|]. unfold is_u64; lia.
  - intros f' a [-> (g & [= ->] & Hg)]. unfold wp, vbind, vmod, vret. destruct (HasSuicided _ _).
    + split; [by apply charged_refl|]. destruct Hg. unfold is_u64. auto with lia.
    + split; [by apply refund_charged|]. destruct Hg. unfold is_u64. auto with lia.
  - intros f' err [-> (g & ? & _)]. done.
Qed.

(** ** Calls *)

Lemma callGas_ok gt a b cc : match callGas gt a b cc with Ok t => is_u64 t | Err _ => True | _ => False end.
Proof. unfold callGas. repeat case_match; simplify_eq; auto using u64_range. Qed.

(** The price includes the grant, whatever [callGas] computed. *)
Lemma grantCallGas_ok gas f : frame_ok env f -> (1 <= length (f_stack f))%nat -> is_u64 gas ->
  wp (grantCallGas env gas) (fun f' r => charged f f' /\
    match r with inl _ => True | inr cost => is_u64 cost /\ is_u64 (evm_callGasTemp (f_evm f')) /\ cost = gas + evm_callGasTemp (f_evm f') end) f.
Proof.
  intros Hf Hlen Hg. unfold grantCallGas. p_back. eapply wp_seq with (P := fun f' r => f' = f /\ r = inr (c_Gas (f_contract f)));
    [done| |by intros ? ? []]. intros ? a [-> [= ->]].
  pose proof (callGas_ok (e_gasTable env) (c_Gas (f_contract f)) gas x) as Ht.
  assert (forall t, charged f (with_evm f (set_callGasTemp (f_evm f) t))) as Hch.
  { intros t. destruct (charged_refl f Hf), Hf as [[] ? ? ? ?]. by constructor. }
  destruct (callGas _ _ _ _) as [t|err| |]; try done.
  eapply wp_seq with (P := fun f' r => f' = with_evm f (set_callGasTemp (f_evm f) t)); [done| |by intros ? ? ->].
  intros ? _ ->. p_last safeAdd_ok; [done|]. by destruct Hz as [-> ?].
Qed.

(** The specification of a call's price: it exceeds the grant computed from the result. *)
Definition call_price_ok (g : Z -> VM DB Z) (pops : nat) (grant : Frame DB -> Z) : Prop :=
  forall f size, frame_ok env f -> (pops <= length (f_stack f))%nat -> 0 <= size ->
    wp (g size) (fun f' r => charged f f' /\
      match r with
      | inl _ => True
      | inr cost => is_u64 cost /\ size <= maxMem /\ 0 <= evm_callGasTemp (f_evm f') /\ grant f' < cost
      end) f.

(** The grant of a call with a value operand, and of one without. *)
Definition grant_valued f : Z := granted (default 0 (f_stack f !! 2%nat)) (f_evm f).
Definition grant_plain f : Z := evm_callGasTemp (f_evm f).

Lemma gt_Calls_range : 40 <= gt_Calls (e_gasTable env) <= 700.
Proof. apply (gasTable_range gt_Calls); cbn; lia. Qed.

(** Memory, a base price that covers the stipend, and the grant. *)
Lemma call_price_valued f base size v : frame_ok env f -> (7 <= length (f_stack f))%nat -> 0 <= size ->
  f_stack f !! 2%nat = Some v -> 40 <= base < 2 ^ 63 -> (v <> 0 -> 9000 <= base) ->
  wp (vbind (memoryGasCost size) (fun memoryGas => vbind (safeAdd base memoryGas) (fun gas => grantCallGas env gas)))
    (fun f' r => charged f f' /\
      match r with
      | inl _ => True
      | inr cost => is_u64 cost /\ size <= maxMem /\ 0 <= evm_callGasTemp (f_evm f') /\ grant_valued f' < cost
      end) f.
Proof.
  intros Hf Hlen Hs Hv Hb Hb'. p_mem. p_arith safeAdd_ok. rewrite <- (ch_stack _ _ Hch) in Hlen.
  eapply wp_mono; [apply grantCallGas_ok; [by eapply charged_ok|lia|done]|].
  intros f2 r [Hch2 Hr]. split; [by eapply charged_trans|]. destruct r as [|c2]; [done|]. destruct Hr as (? & [? ?] & ->).
  unfold grant_valued, granted. rewrite (ch_stack _ _ Hch2), (ch_stack _ _ Hch), Hv. cbn. unfold is_u64, CallStipend in *.
  split_and!; try lia. zcase.
Qed.

Lemma gasCall_ok : call_price_ok (gasCall env) 7 grant_valued.
Proof.
  intros f size Hf Hlen Hs. pose proof gt_Calls_range. unfold gasCall. p_back. p_back.
  eapply wp_seq with (P := fun f' r => f' = f /\ r = inr (f_db f)); [done| |by intros ? ? []].
  intros ? db [-> _]. apply (call_price_valued _ _ _ x); try done.
  - unfold CallNewAccountGas, CallValueTransferGas.
    repeat case_match; rewrite ?u64_small by (unfold is_u64; rewrite ?u64_small by (unfold is_u64; lia); lia); lia.
  - intros Hv. apply Z.eqb_neq in Hv. rewrite Hv. unfold CallNewAccountGas, CallValueTransferGas. simpl negb.
    repeat case_match; rewrite ?u64_small by (unfold is_u64; rewrite ?u64_small by (unfold is_u64; lia); lia); lia.
Qed.

Lemma gasCallCode_ok : call_price_ok (gasCallCode env) 7 grant_valued.
Proof.
  intros f size Hf Hlen Hs. pose proof gt_Calls_range. unfold gasCallCode. p_back.
  unfold CallValueTransferGas. apply (call_price_valued _ _ _ x); try done.
  - case_match; rewrite ?u64_small by (unfold is_u64; lia); lia.
  - intros Hv. apply Z.eqb_neq in Hv. rewrite Hv. cbn [negb]. rewrite u64_small by (unfold is_u64; lia). lia.
Qed.

Lemma gasDelegateCall_ok : call_price_ok (gasDelegateCall env) 6 grant_plain.
Proof.
  intros f size Hf Hlen Hs. pose proof gt_Calls_range. unfold gasDelegateCall. p_mem. p_arith safeAdd_ok.
  rewrite <- (ch_stack _ _ Hch) in Hlen. eapply wp_mono; [apply grantCallGas_ok; [by eapply charged_ok|lia|done]|].
  intros f2 r [Hch2 Hr]. split; [by eapply charged_trans|]. destruct r as [|c2]; [done|]. destruct Hr as (? & [? ?] & ->).
  unfold grant_plain, is_u64 in *. split_and!; lia.
Qed.
Lemma gasStaticCall_ok : call_price_ok (gasStaticCall env) 6 grant_plain.
Proof. exact gasDelegateCall_ok. Qed.
End cost.
