(* ===== verification/VmTable.v ===== *)
(** The instruction tables are consistent: for every entry of the tables of
    [src/core/vm/jump_table.go], the declared stack effect is the actual one, the declared
    memory covers every access, and each instruction that does not end the run costs gas. *)

From stdpp Require Import base numbers list.
From S2P Require Import Prelude.
From S2P Require Import CommonMath.
From S2P Require Import Params.
From S2P Require Import VmData.
From S2P Require Import VmState.
From S2P Require Import VmGas.
From S2P Require Import VmInstr.
From S2P Require Import VmJumpTable.
From S2P Require Import VmInterp.
From S2P Require Import VmWorld.
From S2P Require Import VmSafe.
From S2P Require Import VmExec.
From S2P Require Import VmCost.
Local Open Scope Z_scope.
Local Open Scope go_scope.

Create HintDb vmexec.

Section table.
Context {DB : Type} `{HS : StateDB DB} (env : Env) {L : StateDBLaws DB (Keccak256 env)} (Henv : env_ok env).
Implicit Types (e : EVM DB) (f : Frame DB) (c : Contract) (o : operation DB).

(** * One turn *)

(** What holds between the frame before and after an operation that cost at least [lo]. *)
Record turned (lo : Z) f f' : Prop := {
  t_evm : evm_steps env (f_evm f) (f_evm f');
  t_contract : f_contract f' = set_Gas (f_contract f) (c_Gas (f_contract f'));
  t_gas : 0 <= c_Gas (f_contract f') <= c_Gas (f_contract f) - lo;
  t_mem : mem_ok (f_mem f');
  t_stack : stack_ok (f_stack f');
  t_pc : 0 <= f_pc f' <= Z.max (f_pc f + 32) (zlen (c_Code (f_contract f))) }.

Definition turn_post (lo : Z) (pops pushes : nat) f f' (r : vm_error + bytes) : Prop :=
  match r with
  | inl _ => turned 0 f f'
  | inr res => turned lo f f' /\ slice_ok res /\ (length (f_stack f') + pops = length (f_stack f) + pushes)%nat
  end.

Lemma charged_turned f f' : frame_ok env f -> charged env f f' -> turned 0 f f'.
Proof.
  intros [? Hc ? ? ?] [? Hcc Hst Hpc ? ?]. destruct (co_gas _ _ Hc). constructor; rewrite ?Hcc, ?Hst, ?Hpc; try done; try lia.
  by destruct (f_contract f).
Qed.

(** ** Memory *)

Definition mem_total o f : Prop :=
  match memorySize o with None => True | Some ms => exists s, ms (f_stack f) = Ok s /\ 0 <= s end.

(** The size asked for covers the accesses and is a whole number of words. *)
Definition needs o f (size : Z) : Prop :=
  0 <= size /\ (32 | size) /\
  match memorySize o with None => size = 0 | Some ms => exists s, ms (f_stack f) = Ok s /\ s <= size end.

Lemma neededMemory_ok o f : mem_total o f ->
  wp (neededMemory o) (fun f' r => f' = f /\ match r with inl _ => True | inr size => needs o f size end) f.
Proof.
  unfold mem_total, neededMemory, needs. destruct (memorySize o) as [ms|].
  2:{ intros _. split; [done|]. split; [lia|]. split; [by exists 0|done]. }
  intros (s & Hs & Hs0). eapply wp_bind_run; [done|]. eapply wp_bind_run; [unfold vlift; by rewrite Hs|].
  eapply wp_seq; [by apply toUint64_ok| |by intros ? ? [-> _]]. intros ? z [-> [-> Hz]].
  destruct (toWordSize_spec s Hz) as [Hw Hle].
  eapply wp_mono; [apply safeMul_ok; [done|unfold is_u64; lia]|]. intros ? [|size] [-> Hr]; [done|].
  destruct Hr as [-> ?]. split; [done|]. split; [unfold is_u64 in *; lia|]. split; [by exists (toWordSize s)|].
  exists s. split; [done|lia].
Qed.

(** The frame after charging and making room. *)
Definition ready f1 (cost size : Z) : Frame DB :=
  let f2 := with_contract f1 (set_Gas (f_contract f1) (c_Gas (f_contract f1) - cost)) in
  if size >? 0 then with_mem f2 (m_Resize size (f_mem f2)) else f2.

Lemma m_Resize_ok size m : mem_ok m -> (32 | size) -> 0 <= size <= maxMem ->
  mem_ok (m_Resize size m) /\ size <= m_Len (m_Resize size m).
Proof.
  intros [Hb Hw Hl Hf] Hd Hs. unfold m_Resize, maxMem in *. pose proof (zlen_nonneg (m_store m)).
  rewrite u64_small by (unfold is_u64, m_Len in *; lia). destruct (Z.ltb_spec (m_Len m) size); [|done].
  assert (zlen (m_store m ++ replicate (Z.to_nat (size - m_Len m)) 0) = size) as Hlen.
  { rewrite zlen_app, zlen_replicate. unfold m_Len in *. lia. }
  split; [constructor|]; unfold m_Len in *; cbn; rewrite ?Hlen; try done; try lia.
  apply bytes_ok_app_2; [done|apply bytes_ok_zeros].
Qed.

Lemma ready_ok o f f1 cost size :
  frame_ok env f -> charged env f f1 -> 0 <= cost <= c_Gas (f_contract f) -> needs o f size ->
  (memorySize o <> None -> size <= maxMem) ->
  frame_ok env (ready f1 cost size) /\ covered (memorySize o) (ready f1 cost size).
Proof.
  intros Hf Hch Hcost (Hs & Hd & Hm) Hmax. pose proof (charged_ok _ _ _ Hf Hch) as [He Hc Hmem Hst Hpc].
  assert (contract_ok env (set_Gas (f_contract f1) (c_Gas (f_contract f1) - cost))) as Hc'.
  { apply contract_ok_gas; [done|]. destruct (co_gas _ _ Hc). rewrite (ch_contract _ _ _ Hch) in *. unfold is_u64. lia. }
  unfold ready, covered. rewrite Z.gtb_ltb. destruct (Z.ltb_spec 0 size).
  - destruct (memorySize o) as [ms|]; [|lia]. destruct Hm as (s & Hms & Hle).
    destruct (m_Resize_ok size (f_mem f1)) as [Hmo Hsz]; [done|done|split; [lia|by apply Hmax]|].
    split; [by constructor|]. exists s. cbn. rewrite (ch_stack _ _ _ Hch). split; [done|lia].
  - split; [by constructor|]. destruct (memorySize o) as [ms|]; [|done]. destruct Hm as (s & Hms & Hle).
    exists s. cbn. rewrite (ch_stack _ _ _ Hch). split; [done|]. pose proof (zlen_nonneg (m_store (f_mem f1))).
    unfold m_Len. lia.
Qed.

(** ** Composition *)

Lemma ready_run f1 cost size :
  (if size >? 0 then vmod (fun f => with_mem f (m_Resize size (f_mem f))) else vret tt)
    (with_contract f1 (set_Gas (f_contract f1) (c_Gas (f_contract f1) - cost))) = Ok (ready f1 cost size, inr tt).
Proof. unfold ready. by destruct (size >? 0). Qed.

Lemma ready_fields f1 cost size :
  f_evm (ready f1 cost size) = f_evm f1 /\ f_stack (ready f1 cost size) = f_stack f1 /\ f_pc (ready f1 cost size) = f_pc f1 /\
  f_contract (ready f1 cost size) = set_Gas (f_contract f1) (c_Gas (f_contract f1) - cost).
Proof. unfold ready. by destruct (size >? 0). Qed.

(** Executing after paying [cost]. *)
Lemma turned_exec f f1 cost size extra lo f' :
  charged env f f1 -> kept env extra (ready f1 cost size) f' -> extra + lo <= cost -> turned lo f f'.
Proof.
  intros [? Hc Hst Hpc ? ?] Hk Hlo. destruct (ready_fields f1 cost size) as (E1 & E2 & E3 & E4). destruct Hk as [K1 K2 K3 K4 K5 K6 K7].
  rewrite E1, E3, E4, Hc, ?Hpc in *. cbn in *. constructor; try done; [by eapply evm_steps_trans|].  lia.
Qed.

(** Keeping the returned data. *)
Lemma turned_return lo f f' res : turned lo f f' -> slice_ok res -> turned lo f (with_evm f' (set_returnData (f_evm f') res)).
Proof.
  intros [He ? ? ? ? ?] Hr. constructor; try done. eapply evm_steps_trans; [done|]. destruct (es_ok _ _ _ He). by apply evm_steps_aux.
Qed.

Lemma turned_weaken lo f f' : 0 <= lo -> turned lo f f' -> turned 0 f f'.
Proof. intros ? []. constructor; try done. lia. Qed.

Lemma perform_ok o pops pushes lo f f1 cost size extra :
  charged env f f1 -> extra + lo <= cost -> 0 <= lo ->
  wp (execute o) (exec_post env extra pops pushes (ready f1 cost size)) (ready f1 cost size) ->
  wp (perform o) (turn_post lo pops pushes f) (ready f1 cost size).
Proof.
  intros Hch Hlo Hlo0 Hex. unfold wp, perform in *. destruct (execute o _) as [[f' r]| | |]; try done.
  destruct Hex as [Hk Hr]. pose proof (turned_exec _ _ _ _ _ _ _ Hch Hk Hlo) as Ht.
  destruct (ready_fields f1 cost size) as (_ & E2 & _ & _). rewrite E2, (ch_stack _ _ _ Hch) in Hr.
  destruct r as [err|res]; simpl.
  - apply turned_weaken in Ht; [|done]. destruct (returns o); [|done]. apply turned_return; [done|apply slice_ok_nil].
  - destruct Hr as [Hres Hl]. destruct (returns o); [|done]. split; [by apply turned_return|done].
Qed.

(** An operation whose price satisfies [P], given the machine it leaves, and whose execution
    is safe after paying such a price, turns safely. *)
Lemma turn_ok o pops pushes lo (P : EVM DB -> Z -> Prop) f :
  frame_ok env f -> mem_total o f ->
  (forall size, 0 <= size -> wp (gasCost o size) (fun f1 r => charged env f f1 /\
     match r with
     | inl _ => True
     | inr cost => is_u64 cost /\ (memorySize o <> None -> size <= maxMem) /\ P (f_evm f1) cost
     end) f) ->
  (forall f2 cost, frame_ok env f2 -> covered (memorySize o) f2 -> f_stack f2 = f_stack f ->
     evm_readOnly (f_evm f2) = evm_readOnly (f_evm f) -> c_Gas (f_contract f2) = c_Gas (f_contract f) - cost ->
     P (f_evm f2) cost -> 0 <= cost ->
     exists extra, extra + lo <= cost /\ wp (execute o) (exec_post env extra pops pushes f2) f2) ->
  0 <= lo ->
  wp (turn o) (turn_post lo pops pushes f) f.
Proof.
  intros Hf Hm Hprice Hexec Hlo. unfold turn. eapply wp_seq; [by apply neededMemory_ok| |].
  2:{ intros ? ? [-> _]. by apply charged_turned, charged_refl. }
  intros ? size [-> Hn]. specialize (Hprice size ltac:(by destruct Hn)). unfold wp in *. unfold vbind at 1, chargeGas.
  destruct (gasCost o size f) as [[f1 [err|cost]]| | |]; try done; destruct Hprice as [Hch Hc]; [by apply charged_turned|].
  destruct Hc as ([Hc0 ?] & Hmax & HP). unfold UseGas. pose proof (ch_contract _ _ _ Hch) as Ecc.
  destruct (Z.ltb_spec (c_Gas (f_contract f1)) cost); [by apply charged_turned|].
  destruct (ready_ok o f f1 cost size) as [Hf2 Hcov]; [done|done|rewrite <- Ecc; lia|done|done|].
  rewrite u64_small by (destruct (co_gas _ _ (fo_contract _ _ (charged_ok _ _ _ Hf Hch))); unfold is_u64; lia).
  unfold vbind. rewrite ready_run. destruct (ready_fields f1 cost size) as (E1 & E2 & _ & E4).
  destruct (Hexec (ready f1 cost size) cost) as (extra & Hle & Hwp); rewrite ?E1, ?E2, ?E4; try done.
  - apply Hch.
  - apply Hch.
  - cbn. by rewrite Ecc.
  - exact (perform_ok o pops pushes lo f f1 cost size extra Hch Hle Hlo Hwp).
Qed.

(** * Entries *)

(** The check an entry declares: enough operands, and room for the results. *)
Definition stack_check (v : Stack -> outcome vm_error unit) (pops pushes : nat) : Prop :=
  forall st, match v st with
             | Ok _ => (pops <= length st)%nat /\ zlen st + Z.of_nat pushes - Z.of_nat pops <= StackLimit
             | Err _ => True
             | _ => False
             end.

Definition ends o : bool := halts o || reverts o.

(** Read-only mode lets the operation through. *)
Definition allowed (code : Z) o f : Prop :=
  static env (f_evm f) -> writes o = false /\ (code = CALL -> f_stack f !! 2%nat = Some 0).

(** What the interpreter relies on for an entry of its table, given gas up to [bound]. *)
Definition entry_ok (bound : Z) (p : Z * operation DB) : Prop :=
  let '(code, o) := p in
  exists pops pushes,
    stack_check (validateStack o) pops pushes /\ (code = STOP -> ends o = true) /\ (code = CALL -> (3 <= pops)%nat) /\
    forall f, frame_ok env f -> (pops <= length (f_stack f))%nat -> c_Gas (f_contract f) <= bound -> allowed code o f ->
      wp (turn o) (turn_post (if ends o then 0 else 1) pops pushes f) f.

Lemma makeStackFunc_ok a b : 0 <= a -> 0 <= b -> stack_check (makeStackFunc a b) (Z.to_nat a) (Z.to_nat b).
Proof.
  intros Ha Hb st. unfold makeStackFunc, st_require, st_len. destruct (Z.ltb_spec (zlen st) a); [done|]. cbn [outcome_bind].
  rewrite Z.gtb_ltb. destruct (Z.ltb_spec StackLimit (zlen st + b - a)); [done|]. unfold zlen in *. lia.
Qed.

(** Memory functions defined on [pops] operands. *)
Definition mem_defined (m : option (Stack -> outcome vm_error Z)) (pops : nat) : Prop :=
  match m with
  | None => True
  | Some ms => forall st, stack_ok st -> (pops <= length st)%nat -> exists s, ms st = Ok s /\ 0 <= s
  end.

Lemma Back_some st n : (n < length st)%nat -> stack_ok st -> exists x, st_Back st n = Ok x /\ 0 <= x.
Proof.
  intros Hn Hst. unfold st_Back, Stack in *. destruct (lookup_lt_is_Some_2 st n Hn) as [x Hx]. rewrite Hx. exists x.
  split; [done|]. by eapply stack_ok_lookup.
Qed.

Lemma memSize2_ok a b pops : (a < pops)%nat -> (b < pops)%nat -> mem_defined (Some (memSize2 a b)) pops.
Proof.
  intros Ha Hb st Hst Hl. destruct (Back_some st a) as (x & Hx & ?); [lia|done|]. destruct (Back_some st b) as (y & Hy & ?); [lia|done|].
  unfold memSize2. rewrite Hx, Hy. eexists; split; [done|]. unfold calcMemSize. zcase.
Qed.

Lemma memSizeConst_ok a l pops : (a < pops)%nat -> 0 <= l -> mem_defined (Some (memSizeConst a l)) pops.
Proof.
  intros Ha Hb st Hst Hl. destruct (Back_some st a) as (x & Hx & ?); [lia|done|].
  unfold memSizeConst. rewrite Hx. eexists; split; [done|]. unfold calcMemSize. zcase.
Qed.

Lemma memSizeMax_ok m1 m2 pops :
  mem_defined (Some m1) pops -> mem_defined (Some m2) pops -> mem_defined (Some (memSizeMax m1 m2)) pops.
Proof.
  intros H1 H2 st Hst Hl. destruct (H1 st Hst Hl) as (x & Hx & ?), (H2 st Hst Hl) as (y & Hy & ?).
  unfold memSizeMax. rewrite Hx, Hy. eexists; split; [done|]. unfold BigMax. zcase.
Qed.

Lemma mem_defined_total o pops f : mem_defined (memorySize o) pops -> frame_ok env f -> (pops <= length (f_stack f))%nat -> mem_total o f.
Proof. intros Hm [] Hl. unfold mem_total. destruct (memorySize o); [by apply Hm|done]. Qed.

(** An entry that grants no gas. *)
Lemma entry_plain bound code o n lo paid pops pushes :
  exec_ok env (execute o) pops pushes (memorySize o) -> price_ok env (gasCost o) n lo paid -> (n <= pops)%nat ->
  stack_check (validateStack o) pops pushes -> mem_defined (memorySize o) pops -> (memorySize o <> None -> paid = true) ->
  (code = STOP -> ends o = true) -> code <> CALL -> (if ends o then 0 else 1) <= lo ->
  entry_ok bound (code, o).
Proof.
  intros Hex Hpr Hn Hst Hm Hpaid Hstop Hcall Hlo. exists pops, pushes. split_and!; [done..|]. intros f Hf Hl _ _.
  apply (turn_ok o pops pushes _ (fun _ cost => lo <= cost)); [done|by eapply mem_defined_total| | |by destruct (ends o)].
  - intros size Hsize. eapply wp_mono; [apply Hpr; [done|lia|done]|]. intros f1 [|cost] [Hch Hc]; (split; [done|]); [done|].
    destruct Hc as (? & ? & ?). split_and!; [done| |done]. auto.
  - intros f2 cost Hf2 Hcov Est _ _ Hle _. exists 0. split; [lia|]. apply Hex; [done|by rewrite Est|done].
Qed.

(** An entry that writes. *)
Lemma entry_writing bound code o n lo paid pops pushes :
  exec_ok_writing env (execute o) pops pushes (memorySize o) -> price_ok_writing env (gasCost o) n lo paid -> (n <= pops)%nat ->
  stack_check (validateStack o) pops pushes -> mem_defined (memorySize o) pops -> (memorySize o <> None -> paid = true) ->
  (code = STOP -> ends o = true) -> code <> CALL -> (if ends o then 0 else 1) <= lo -> writes o = true ->
  entry_ok bound (code, o).
Proof.
  intros Hex Hpr Hn Hst Hm Hpaid Hstop Hcall Hlo Hw. exists pops, pushes. split_and!; [done..|]. intros f Hf Hl _ Hal.
  assert (~ static env (f_evm f)) as Hns by (intros Hs; destruct (Hal Hs); congruence).
  apply (turn_ok o pops pushes _ (fun _ cost => lo <= cost)); [done|by eapply mem_defined_total| | |by destruct (ends o)].
  - intros size Hsize. eapply wp_mono; [apply Hpr; [done|done|lia|done]|]. intros f1 [|cost] [Hch Hc]; (split; [done|]); [done|].
    destruct Hc as (? & ? & ?). split_and!; [done| |done]. auto.
  - intros f2 cost Hf2 Hcov Est Ero _ Hle _. exists 0. split; [lia|]. apply Hex; [done| |by rewrite Est|done].
    unfold static in *. by rewrite Ero.
Qed.

(** An entry that grants gas to a callee. *)
Lemma entry_call bound code o pops (grant : Frame DB -> Z) :
  (forall f f', f_evm f = f_evm f' -> f_stack f = f_stack f' -> grant f = grant f') ->
  call_price_ok env (gasCost o) pops grant ->
  (forall f, frame_ok env f -> (pops <= length (f_stack f))%nat -> covered (memorySize o) f -> allowed code o f ->
     can_grant bound (grant f) (f_evm f) (f_contract f) -> wp (execute o) (exec_post env (grant f) pops 1 f) f) ->
  stack_check (validateStack o) pops 1 -> mem_defined (memorySize o) pops -> code <> STOP -> (3 <= pops)%nat ->
  entry_ok bound (code, o).
Proof.
  intros Hg Hpr Hex Hst Hm Hstop Hp. exists pops, 1%nat. split_and!; [done..|]. intros f Hf Hl Hb Hal.
  set (G e := grant (with_evm f e)).
  apply (turn_ok o pops 1 _ (fun e cost => 0 <= evm_callGasTemp e /\ G e < cost)); [done|by eapply mem_defined_total| | |by destruct (ends o)].
  - intros size Hsize. eapply wp_mono; [by apply Hpr|]. intros f1 [|cost] [Hch Hc]; (split; [done|]); [done|].
    destruct Hc as (? & ? & ? & ?). split_and!; try done. subst G. cbn.
    by rewrite (Hg _ f1) by (cbn; rewrite ?(ch_stack _ _ _ Hch); done).
  - intros f2 cost Hf2 Hcov Est Ero Egas [Ht Hlt] Hc0. subst G. cbn in Hlt.
    rewrite (Hg _ f2) in Hlt by (cbn; done). exists (grant f2). split; [destruct (ends o); lia|].
    destruct (co_gas _ _ (fo_contract _ _ Hf2)), (co_gas _ _ (fo_contract _ _ Hf)).
    apply Hex; [done|by rewrite Est|done| |].
    + unfold allowed, static in *. by rewrite Ero, Est.
    + unfold can_grant. rewrite Egas in *. split_and!; [done|lia|lia].
Qed.

Section entries.
Context (bound : Z) (ops : CallOps DB) (Hops : calls_ok env bound ops).

Lemma grant_valued_ext f f' : f_evm f = f_evm f' -> f_stack f = f_stack f' -> grant_valued f = grant_valued f'.
Proof. unfold grant_valued. by intros -> ->. Qed.
Lemma grant_plain_ext f f' : f_evm f = f_evm f' -> f_stack f = f_stack f' -> grant_plain f = grant_plain f'.
Proof. unfold grant_plain. by intros -> _. Qed.

(** Name the operands of a frame. *)
Ltac operands :=
  match goal with f : Frame DB |- _ => destruct f as [e c m st pc] end; cbn in *;
  repeat match goal with H : (S _ <= length ?st)%nat |- _ =>
    destruct st as [|? ?]; cbn [length] in H; [lia|apply le_S_n in H] end.

Lemma CALL_ok : entry_ok bound (CALL, returning (op (opCall ops) (gasCall env) (makeStackFunc 7 1) (Some memoryCall))).
Proof.
  apply (entry_call _ _ _ 7 grant_valued); [apply grant_valued_ext|apply gasCall_ok| | | |done|lia].
  - intros f Hf Hl Hcov Hal Hgr. operands. apply (opCall_ok _ bound); try done.
    intros Hs. destruct (Hal Hs) as [_ Hv]. by injection (Hv eq_refl).
  - by apply (makeStackFunc_ok 7 1).
  - apply memSizeMax_ok; apply memSize2_ok; lia.
Qed.

Lemma CALLCODE_ok : entry_ok bound (CALLCODE, returning (op (opCallCode ops) (gasCallCode env) (makeStackFunc 7 1) (Some memoryCall))).
Proof.
  apply (entry_call _ _ _ 7 grant_valued); [apply grant_valued_ext|apply gasCallCode_ok| | | |done|lia].
  - intros f Hf Hl Hcov Hal Hgr. operands. by apply (opCallCode_ok _ bound).
  - by apply (makeStackFunc_ok 7 1).
  - apply memSizeMax_ok; apply memSize2_ok; lia.
Qed.

Lemma DELEGATECALL_ok : entry_ok bound (DELEGATECALL, returning (op (opDelegateCall ops) (gasDelegateCall env) (makeStackFunc 6 1) (Some memoryDelegateCall))).
Proof.
  apply (entry_call _ _ _ 6 grant_plain); [apply grant_plain_ext|apply gasDelegateCall_ok| | | |done|lia].
  - intros f Hf Hl Hcov Hal Hgr. operands. by apply (opDelegateCall_ok _ bound).
  - by apply (makeStackFunc_ok 6 1).
  - apply memSizeMax_ok; apply memSize2_ok; lia.
Qed.

Lemma STATICCALL_ok : entry_ok bound (STATICCALL, returning (op (opStaticCall ops) (gasStaticCall env) (makeStackFunc 6 1) (Some memoryStaticCall))).
Proof.
  apply (entry_call _ _ _ 6 grant_plain); [apply grant_plain_ext|apply gasStaticCall_ok| | | |done|lia].
  - intros f Hf Hl Hcov Hal Hgr. operands. by apply (opStaticCall_ok _ bound).
  - by apply (makeStackFunc_ok 6 1).
  - apply memSizeMax_ok; apply memSize2_ok; lia.
Qed.

Lemma CREATE_ok : entry_ok bound (CREATE, writing (returning (op (opCreate env ops) gasCreate (makeStackFunc 3 1) (Some memoryCreate)))).
Proof.
  exists 3%nat, 1%nat. split_and!; [by apply (makeStackFunc_ok 3 1)|done|done|]. intros f Hf Hl Hb Hal.
  assert (~ static env (f_evm f)) as Hns by (intros Hs; by destruct (Hal Hs)).
  apply (turn_ok _ 3 1 _ (fun _ cost => 1 <= cost)); [done| | | |done].
  - eapply (mem_defined_total _ 3); [apply memSize2_ok; lia|done..].
  - intros size Hsize. eapply wp_mono; [apply gasCreate_ok; [done|lia|done]|]. intros f1 [|cost] [Hch Hc]; (split; [done|]); [done|].
    destruct Hc as (? & ? & ?). split_and!; [done| |done]. auto.
  - intros f2 cost Hf2 Hcov Est Ero Egas Hle _. exists 0. split; [cbn; lia|]. rewrite <- Est in Hl. unfold static in *. rewrite <- Ero in Hns.
    cbn [execute writing returning op]. clear Hal. destruct f as [? c0 ? ? ?]. operands. apply (opCreate_ok _ bound); try done. lia.
Qed.

(** * The tables *)

#[local] Hint Resolve opAdd_ok opSub_ok opMul_ok opDiv_ok opSdiv_ok opMod_ok opSmod_ok opExp_ok opNot_ok opLt_ok : vmexec.
#[local] Hint Resolve opGt_ok opSlt_ok opSgt_ok opEq_ok opIszero_ok opAnd_ok opOr_ok opXor_ok opByte_ok opAddmod_ok : vmexec.
#[local] Hint Resolve opMulmod_ok opSHL_ok opSHR_ok opSAR_ok opAddress_ok opBalance_ok opOrigin_ok opCaller_ok : vmexec.
#[local] Hint Resolve opCallValue_ok opCallDataSize_ok opReturnDataSize_ok opExtCodeSize_ok opCodeSize_ok : vmexec.
#[local] Hint Resolve opGasprice_ok opBlockhash_ok opCoinbase_ok opTimestamp_ok opNumber_ok opDifficulty_ok : vmexec.
#[local] Hint Resolve opGasLimit_ok opPop_ok opSload_ok opJumpdest_ok opPc_ok opMsize_ok opGas_ok opStop_ok : vmexec.
#[local] Hint Resolve opMload_ok opMstore_ok opMstore8_ok opCallDataLoad_ok opCallDataCopy_ok opCodeCopy_ok : vmexec.
#[local] Hint Resolve opExtCodeCopy_ok opReturn_ok opRevert_ok opSignExtend_ok opReturnDataCopy_ok opSha3_ok : vmexec.
#[local] Hint Resolve opSstore_ok opSuicide_ok makeLog_ok opJump_ok opJumpi_ok makePush_ok makeDup_ok makeSwap_ok : vmexec.
#[local] Hint Extern 1 (_ <= _ <= _) => lia : vmexec.
#[local] Hint Extern 1 (_ <= _)%nat => lia : vmexec.

Lemma fork_price (g : Z -> VM DB Z) (get : GasTable -> Z) :
  (forall size, g size = vret (get (e_gasTable env))) -> 1 <= get GasTableHomestead <= 1000 -> 1 <= get GasTableEIP150 <= 1000 ->
  1 <= get GasTableEIP158 <= 1000 -> price_ok env g 0 1 false.
Proof.
  intros Hg H1 H2 H3. pose proof (gasTable_range env get 1 1000 H1 H2 H3). apply (const_price env _ _ Hg). lia.
Qed.

(** A price that does not depend on the machine. *)
Ltac fixed_price :=
  cbn [gasCost op halting jumping];
  lazymatch goal with
  | |- price_ok _ (constGasFunc ?x) _ _ _ => apply (const_price env _ x (fun _ => eq_refl)); cbv; split; congruence
  | |- price_ok _ gasPush _ _ _ => apply (const_price env _ GasFastestStep (fun _ => eq_refl)); cbv; split; congruence
  | |- price_ok _ gasDup _ _ _ => apply (const_price env _ GasFastestStep (fun _ => eq_refl)); cbv; split; congruence
  | |- price_ok _ gasSwap _ _ _ => apply (const_price env _ GasFastestStep (fun _ => eq_refl)); cbv; split; congruence
  | |- price_ok _ (gasBalance _) _ _ _ => apply (fork_price _ gt_Balance (fun _ => eq_refl)); cbn; lia
  | |- price_ok _ (gasExtCodeSize _) _ _ _ => apply (fork_price _ gt_ExtcodeSize (fun _ => eq_refl)); cbn; lia
  | |- price_ok _ (gasSLoad _) _ _ _ => apply (fork_price _ gt_SLoad (fun _ => eq_refl)); cbn; lia
  end.

Lemma free_price : price_ok env (constGasFunc (DB:=DB) 0) 0 0 false.
Proof. intros f size Hf _ _. split; [by apply charged_refl|]. unfold is_u64. split_and!; [lia..|done]. Qed.

(** Entries without memory, with memory, and with writes; [price] prices them. *)
Ltac stack_side := by apply makeStackFunc_ok.
Ltac entry_with price :=
  eapply entry_plain; [cbn; eauto with vmexec|price|cbn; lia|stack_side|try done|try done|done|done|cbn; lia].
Ltac entry := entry_with ltac:(fixed_price).
Ltac entries := repeat apply Forall_cons_2; try apply Forall_nil_2; try entry.
Ltac mem_side := first [apply memSize2_ok; lia | apply memSizeConst_ok; lia].

Lemma frontierArithmetic_ok : Forall (entry_ok bound) (frontierArithmetic env).
Proof.
  entries.
  - entry_with ltac:(apply free_price).
  - entry_with ltac:(apply gasExp_ok).
Qed.

Lemma price_weaken (g : Z -> VM DB Z) n lo lo' paid : lo' <= lo -> price_ok env g n lo paid -> price_ok env g n lo' paid.
Proof.
  intros Hlo Hg f size Hf Hl Hs. eapply wp_mono; [by apply Hg|]. intros f' [|cost] [Hch Hc]; (split; [done|]); [done|].
  destruct Hc as (? & ? & ?). split_and!; [done|lia|done].
Qed.

Lemma copy_price n : price_ok env (gasCopy (DB:=DB) GasFastestStep CopyGas n) (S n) 1 true.
Proof. apply (price_weaken _ _ GasFastestStep); [done|]. apply gasCopy_ok; unfold is_u64, GasFastestStep, CopyGas; lia. Qed.
Lemma sha3_price : price_ok env (gasSha3 (DB:=DB)) 2 1 true.
Proof. apply (price_weaken _ _ Sha3Gas); [done|]. apply gasCopy_ok; unfold is_u64, Sha3Gas, Sha3WordGas; lia. Qed.
Lemma extcopy_price : price_ok env (gasExtCodeCopy (DB:=DB) env) 4 1 true.
Proof.
  pose proof (gasTable_range env gt_ExtcodeCopy 1 1000 ltac:(cbn; lia) ltac:(cbn; lia) ltac:(cbn; lia)).
  apply (price_weaken _ _ (gt_ExtcodeCopy (e_gasTable env))); [lia|]. apply gasCopy_ok; unfold is_u64, CopyGas; lia.
Qed.

Lemma frontierEnvironment_ok : Forall (entry_ok bound) (frontierEnvironment env).
Proof.
  entries.
  - entry_with ltac:(apply sha3_price). mem_side.
  - entry_with ltac:(apply copy_price). mem_side.
  - entry_with ltac:(apply copy_price). mem_side.
  - entry_with ltac:(apply extcopy_price). mem_side.
Qed.

Ltac entry_writes price :=
  eapply entry_writing; [cbn; eauto with vmexec|price|cbn; lia|stack_side|try done|try done|done|done|cbn; lia|done].

Lemma frontierBlock_ok : Forall (entry_ok bound) (frontierBlock env).
Proof.
  entries.
  - entry_with ltac:(apply gasMLoad_ok). mem_side.
  - entry_with ltac:(apply gasMLoad_ok). mem_side.
  - entry_with ltac:(apply gasMLoad_ok). mem_side.
  - entry_writes ltac:(apply gasSStore_ok).
Qed.

Lemma frontierPush_ok : Forall (entry_ok bound) frontierPush.
Proof. entries. Qed.
Lemma frontierPush2_ok : Forall (entry_ok bound) frontierPush2.
Proof. entries. Qed.
Lemma frontierDup_ok : Forall (entry_ok bound) frontierDup.
Proof. entries. Qed.
Lemma frontierSwap_ok : Forall (entry_ok bound) frontierSwap.
Proof. entries. Qed.

Lemma log_price n : 0 <= n <= 4 -> price_ok_writing env (makeGasLog (DB:=DB) n) 2 1 true.
Proof. intros Hn f size Hf _. by apply makeGasLog_ok. Qed.

Lemma frontierSystem_ok : Forall (entry_ok bound) (frontierSystem env ops).
Proof.
  repeat apply Forall_cons_2; try apply Forall_nil_2.
  1-5: entry_writes ltac:(apply log_price; lia); mem_side.
  - apply CREATE_ok.
  - apply CALL_ok.
  - apply CALLCODE_ok.
  - entry_with ltac:(apply memoryGasCost_price). mem_side.
  - entry_writes ltac:(apply gasSuicide_ok).
Qed.

Lemma frontier_ok : Forall (entry_ok bound) (frontierInstructionSet env ops).
Proof.
  unfold frontierInstructionSet. rewrite !Forall_app.
  auto 10 using frontierArithmetic_ok, frontierEnvironment_ok, frontierBlock_ok, frontierPush_ok, frontierPush2_ok,
    frontierDup_ok, frontierSwap_ok, frontierSystem_ok.
Qed.

Lemma homestead_ok : Forall (entry_ok bound) (homesteadInstructionSet env ops).
Proof. apply Forall_cons_2; [apply DELEGATECALL_ok|apply frontier_ok]. Qed.

Lemma byzantium_ok : Forall (entry_ok bound) (byzantiumInstructionSet env ops).
Proof.
  unfold byzantiumInstructionSet. apply Forall_app_2; [|apply homestead_ok]. entries.
  - apply STATICCALL_ok.
  - entry_with ltac:(apply copy_price). mem_side.
  - entry_with ltac:(apply memoryGasCost_price). mem_side.
Qed.

Lemma constantinople_ok : Forall (entry_ok bound) (constantinopleInstructionSet env ops).
Proof. unfold constantinopleInstructionSet. apply Forall_app_2; [|apply byzantium_ok]. entries. Qed.

(** Every entry of the table in use. *)
Lemma jumpTable_entries : Forall (entry_ok bound) (jumpTable env ops).
Proof.
  unfold jumpTable. repeat case_match; [apply constantinople_ok|apply byzantium_ok|apply homestead_ok|apply frontier_ok].
Qed.
End entries.
End table.
