(* ===== verification/VmMachine.v ===== *)
(** The machine as a whole: the interpreter loop and the calls of [src/core/vm/evm.go].

    With more fuel than gas every call returns, whatever the code: nothing is accessed out of
    bounds, no more gas comes back than was given, earlier snapshots survive, and failed or
    read-only calls leave the accounts alone. *)

From stdpp Require Import base numbers list.
From S2P Require Import Prelude.
From S2P Require Import CommonMath.
From S2P Require Import Params.
From S2P Require Import VmData.
From S2P Require Import VmAnalysis.
From S2P Require Import VmState.
From S2P Require Import VmGas.
From S2P Require Import VmInstr.
From S2P Require Import VmJumpTable.
From S2P Require Import VmInterp.
From S2P Require Import VmWorld.
From S2P Require Import VmSafe.
From S2P Require Import VmExec.
From S2P Require Import VmCost.
From S2P Require Import VmTable.
Local Open Scope Z_scope.
Local Open Scope go_scope.

Section machine.
Context {DB : Type} `{HS : StateDB DB} (env : Env) {L : StateDBLaws DB (Keccak256 env)} (Henv : env_ok env).
Implicit Types (e : EVM DB) (f : Frame DB) (c : Contract) (o : operation DB).

(** * A step *)

(** A frame inside the loop. *)
Definition running f : Prop := frame_ok env f /\ zlen (f_stack f) <= StackLimit.

(** What running does to the outside: the machine steps, at least [lo] gas is used. *)
Record ran (lo : Z) f f' : Prop := {
  r_evm : evm_steps env (f_evm f) (f_evm f');
  r_contract : f_contract f' = set_Gas (f_contract f) (c_Gas (f_contract f'));
  r_gas : 0 <= c_Gas (f_contract f') <= c_Gas (f_contract f) - lo }.

Definition step_post f f' (r : vm_error + option (bytes * option vm_error)) : Prop :=
  match r with
  | inl _ => ran 0 f f'
  | inr (Some (res, _)) => ran 0 f f' /\ slice_ok res
  | inr None => ran 1 f f' /\ running f'
  end.

Lemma turned_ran lo f f' : turned env lo f f' -> ran lo f f'.
Proof. by intros []. Qed.
Lemma ran_trans lo f1 f2 f3 : 0 <= lo -> ran lo f1 f2 -> ran 0 f2 f3 -> ran 0 f1 f3.
Proof.
  intros Hlo [E1 C1 G1] [E2 C2 G2]. constructor; [by eapply evm_steps_trans|rewrite C2, C1; done|lia].
Qed.

Lemma table_get_entry (t : list (Z * operation DB)) code P :
  Forall P t -> valid (table_get t code) = true -> P (code, table_get t code).
Proof.
  induction 1 as [|[c o] t Ho Ht IH]; cbn [table_get]; [done|]. destruct (Z.eqb_spec c code) as [->|]; [done|exact IH].
Qed.

Lemma GetOp_end c n : slice_ok (c_Code c) -> 0 <= n -> GetOp c n <> STOP -> n < zlen (c_Code c).
Proof.
  intros [_ Hl] Hn Hop. pose proof (zlen_nonneg (c_Code c)). unfold GetOp, GetByte in Hop.
  rewrite u64_small in Hop by (unfold is_u64; lia). destruct (Z.ltb_spec n (zlen (c_Code c))); [done|by destruct Hop].
Qed.

Lemma enforceRestrictions_ok code o f :
  frame_ok env f -> (code = CALL -> (2 < length (f_stack f))%nat) ->
  wp (enforceRestrictions env code o) (fun f' r => f' = f /\ match r with inl _ => True | inr _ => allowed env code o f end) f.
Proof.
  intros Hf Hc. unfold enforceRestrictions, allowed, static. cbn [r_IsByzantium chain_Rules].
  fold (e_IsByzantium env). destruct (e_IsByzantium env); [|split; [done|]; by intros [? _]].
  eapply wp_bind_run; [done|]. destruct (evm_readOnly (f_evm f)) eqn:Ero; [|split; [done|]; by intros [_ ?]].
  destruct (writes o); [by split|]. destruct (Z.eqb_spec code CALL) as [->|]; [|by split].
  eapply wp_seq; [apply (Back_ok env); [done|auto]| |by intros ? ? [-> _]]. intros ? v [-> [Hv Hv0]].
  rewrite Z.gtb_ltb. destruct (Z.ltb_spec 0 (bitlen v)); [done|]. split; [done|]. intros _. split; [done|]. intros _.
  assert (v < 2 ^ 0) by (apply bitlen_le; lia). rewrite Hv. f_equal. lia.
Qed.

Lemma turned_running f f' pops pushes :
  running f -> turned env 1 f f' -> f_pc f < zlen (c_Code (f_contract f)) ->
  (length (f_stack f') + pops = length (f_stack f) + pushes)%nat ->
  zlen (f_stack f) + Z.of_nat pushes - Z.of_nat pops <= StackLimit ->
  running f' /\ running (with_pc f' (u64 (f_pc f' + 1))).
Proof.
  intros [Hf Hl] [He Hc Hg Hm Hst Hpc] Hlt Hlen Hlim. destruct Hf as [_ Hco _ _ _].
  assert (contract_ok env (f_contract f')) as Hc'.
  { rewrite Hc. destruct (co_gas _ _ Hco). apply contract_ok_gas; [done|]. unfold is_u64. lia. }
  assert (c_Code (f_contract f') = c_Code (f_contract f)) as Ecode by by rewrite Hc.
  destruct (co_code _ _ Hco) as [_ ?]. unfold running. split; split.
  1,3: constructor; cbn; rewrite ?Ecode; try done; try (by destruct He); rewrite ?u64_small by (unfold is_u64; lia); lia.
  all: cbn; unfold zlen in *; lia.
Qed.

(** The stack check of a table entry. *)
Lemma validate_ok v pops pushes f : stack_check v pops pushes ->
  wp (vlift (v (f_stack f))) (fun f' r => f' = f /\
    match r with
    | inl _ => True
    | inr _ => (pops <= length (f_stack f))%nat /\ zlen (f_stack f) + Z.of_nat pushes - Z.of_nat pops <= StackLimit
    end) f.
Proof. intros Hst. specialize (Hst (f_stack f)). unfold wp, vlift. by destruct (v (f_stack f)). Qed.

Lemma step_ok bound ops f :
  calls_ok env bound ops -> running f -> c_Gas (f_contract f) <= bound -> wp (step env ops) (step_post f) f.
Proof.
  intros Hops Hrun Hgas. pose proof Hrun as [Hf Hlim]. pose proof (turned_ran _ _ _ (charged_turned _ _ _ Hf (charged_refl _ _ Hf))) as Hsame.
  unfold step. eapply wp_bind_run; [done|]. set (code := GetOp _ _).
  destruct (valid (table_get (jumpTable env ops) code)) eqn:Hv; [|done].
  destruct (table_get_entry _ _ _ (jumpTable_entries env Henv bound ops Hops) Hv) as (pops & pushes & Hst & Hstop & Hcall & Hturn).
  set (o := table_get _ _) in *. cbn [negb]. eapply wp_bind_run; [done|].
  eapply wp_seq; [by apply validate_ok| |by intros ? ? [-> _]]. intros ? _ [-> [Hpops Hroom]].
  eapply wp_seq; [apply enforceRestrictions_ok; [done|]| |by intros ? ? [-> _]].
  { intros Hc. specialize (Hcall Hc). lia. }
  intros ? _ [-> Hal]. eapply wp_seq; [by apply Hturn| |by intros f' err Ht; apply turned_ran].
  intros f' res (Ht & Hres & Hlen). assert (0 <= if ends o then 0 else 1) by (destruct (ends o); lia).
  pose proof (turned_ran _ _ _ (turned_weaken _ _ _ _ H Ht)) as Ht0. unfold ends in *.
  destruct (reverts o); [by split|]. destruct (halts o); [by split|]. cbn [orb] in *.
  destruct (turned_running f f' pops pushes) as [Hr1 Hr2]; [done|done| |done|done|].
  { destruct Hf as [_ Hc _ _ [? _]]. apply (GetOp_end _ _ (co_code _ _ Hc)); [done|]. intros E. by specialize (Hstop E). }
  apply turned_ran in Ht. destruct (jumps o); [by split|]. split; [|done]. by destruct Ht.
Qed.

(** * The loop *)

Lemma tick_running f : running f -> running (tick f) /\ ran 0 f (tick f).
Proof.
  intros [[He Hc Hm Hst Hpc] Hl]. destruct (co_gas _ _ Hc). assert (evm_ok env (f_evm (tick f))) by by destruct He.
  split; [split; [by constructor|done]|]. constructor; [by apply evm_steps_aux|by destruct f as [? [] ? ? ?]|cbn; lia].
Qed.

(** The contract of the interpreter with fuel [n]. *)
Definition loop_returns (n : nat) : Prop :=
  forall f, running f -> c_Gas (f_contract f) < Z.of_nat n ->
    exists f' ret err, loop env n f = Ok (f', (ret, err)) /\ ran 0 f f' /\ slice_ok ret.

Lemma loop_step n :
  loop_returns n -> calls_ok env (Z.of_nat n) (callOps env (Run_with (loop env n))) -> loop_returns (S n).
Proof.
  intros IH Hops f Hrun Hgas. destruct (tick_running f Hrun) as [Hrun' Ht]. cbn [loop].
  destruct (aborted env _); [by eexists _, [], None; split_and!; [..|apply slice_ok_nil]|].
  pose proof (step_ok (Z.of_nat n) _ (tick f) Hops Hrun' ltac:(cbn; lia)) as Hs. unfold wp in Hs.
  destruct (step _ _ _) as [[f1 [err|[[ret err]|]]]| | |]; try done.
  - eexists _, [], _. split; [done|]. split; [by eapply (ran_trans 0)|apply slice_ok_nil].
  - destruct Hs as [Hs Hr]. eexists _, _, _. split; [done|]. split; [by eapply (ran_trans 0)|done].
  - destruct Hs as [Hs Hr]. destruct (IH f1 Hr) as (f' & ret & err & -> & Hran & Hret); [destruct Hs, Ht; cbn in *; lia|].
    eexists _, _, _. split; [done|]. split; [|done]. eapply (ran_trans 0); [done..|]. by eapply (ran_trans 1).
Qed.

(** * Running a contract *)

(** A contract about to run. *)
Record runnable c : Prop := {
  rn_gas : is_u64 (c_Gas c);
  rn_code : slice_ok (c_Code c);
  rn_hash : c_Code c <> [] -> c_CodeHash c = Keccak256 env (c_Code c);
  rn_value : 0 <= c_value c;
  rn_self : digits_ok (c_self c);
  rn_caller : digits_ok (c_CallerAddress c) }.

Definition Run_returns (bound : Z) (Run : Contract -> bytes -> EVM DB -> RunResult) : Prop :=
  forall c input e, runnable c -> evm_ok env e -> slice_ok input -> c_Gas c < bound ->
    exists e' c' ret err, Run c input e = Ok (e', c', (ret, err)) /\ evm_steps env e e' /\
      0 <= c_Gas c' <= c_Gas c /\ slice_ok ret.

Lemma evm_ok_aux e e' :
  evm_ok env e -> evm_StateDB e' = evm_StateDB e -> evm_jumpdests e' = evm_jumpdests e -> slice_ok (evm_returnData e') ->
  evm_ok env e'.
Proof. intros [] E1 E2 ?. by constructor; rewrite ?E1, ?E2. Qed.

Lemma NewMemory_ok : mem_ok NewMemory.
Proof. constructor; cbn; [constructor|by exists 0|done|unfold is_u64; lia]. Qed.

Lemma Run_with_returns n : loop_returns n -> Run_returns (Z.of_nat n) (Run_with (loop env n)).
Proof.
  intros Hloop c input e [Hg Hcode Hh Hv Hs Hc] He Hi Hb. unfold Run_with. set (e1 := set_returnData _ _).
  assert (evm_ok env e1) as He1 by (apply (evm_ok_aux e); [done..|apply slice_ok_nil]).
  destruct (Z.eqb_spec (zlen (c_Code c)) 0) as [E|E].
  - eexists _, c, [], None. split; [done|]. destruct Hg. split_and!; [|lia|lia|apply slice_ok_nil].
    constructor; try done; [by apply (evm_ok_aux e); [..|apply slice_ok_nil]|cbn; lia].
  - destruct (Hloop (MkFrame e1 (set_Input c input) NewMemory newstack 0)) as (f' & ret & err & Hl & [Hr Hrc Hrg] & Hret).
    + assert (c_Code c <> []) as Hne by (intros E'; by rewrite E' in E). pose proof (zlen_nonneg (c_Code c)).
      split; [constructor|]; cbn; try done; [by constructor; cbn; auto|apply NewMemory_ok|constructor|lia].
    + done.
    + rewrite Hl. eexists _, _, ret, err. split; [done|]. cbn in *. split_and!; try done; try lia.
      destruct Hr as [Hok Hd Hro Hsv Hst]. cbn in *. constructor; cbn; try done; [|lia].
      by apply (evm_ok_aux (f_evm f')); [..|destruct Hok].
Qed.

(** * Calls *)

Section calls.
Context (bound : Z) (Run : Contract -> bytes -> EVM DB -> RunResult) (HRun : Run_returns bound Run).

Lemma UseGas_bound gas c : 0 <= gas -> is_u64 (c_Gas c) -> 0 <= c_Gas (fst (UseGas gas c)) <= c_Gas c.
Proof.
  intros ? [? ?]. unfold UseGas. destruct (Z.ltb_spec (c_Gas c) gas); cbn; [lia|]. rewrite u64_small by (unfold is_u64; lia). lia.
Qed.

Lemma run_returns : Run_returns bound (run env Run).
Proof.
  intros c input e Hc He Hi Hb. unfold run. destruct (c_CodeAddr c) as [a|]; cbn [mbind option_bind]; [|by apply HRun].
  destruct (precompiles env a) as [p|] eqn:Hp; [|by apply HRun]. unfold RunPrecompiledContract.
  pose proof (UseGas_bound (pc_RequiredGas p input) c (precompile_gas _ Henv a p input Hp) (rn_gas _ Hc)) as Hu.
  destruct (UseGas _ c) as [c' ok]. cbn in Hu.
  assert (exists ret err, (if ok then match pc_Run p input with Some ret => (ret, None) | None => ([], Some errPrecompile) end
    else ([], Some ErrOutOfGas)) = (ret, err) /\ slice_ok ret) as (ret & err & -> & Hret).
  { destruct ok; [destruct (pc_Run p input) eqn:Hr|]; eexists _, _; (split; [done|]); eauto using slice_ok_nil.
    by eapply precompile_run. }
  exists e, c', ret, err. split_and!; auto using evm_steps_refl; lia.
Qed.

(** After a call that took [snapshot] in world [w]: its own effects, or none. *)
Record settled (snapshot : Z) (w : World) e e' (err : option vm_error) : Prop := {
  sd_ok : evm_ok env e';
  sd_depth : evm_depth e' = evm_depth e;
  sd_readOnly : evm_readOnly e' = evm_readOnly e;
  sd_saved : forall j v, j < snapshot -> saved (evm_StateDB e) j v -> saved (evm_StateDB e') j v;
  sd_static : err = None -> static env e -> same_accounts (world (evm_StateDB e)) (world (evm_StateDB e'));
  sd_funds : err = None -> no_mint (world (evm_StateDB e)) (world (evm_StateDB e'));
  sd_reverted : err <> None -> world_eq (world (evm_StateDB e')) w }.

Lemma revert_ok snapshot w e e' err :
  evm_steps env e e' -> saved (evm_StateDB e) snapshot w -> err <> None ->
  exists e'', revert snapshot e' = Ok e'' /\ settled snapshot w e e'' err.
Proof.
  intros [[Hdb Hd Hr] Hdep Hro Hsv Hst _] Hw Herr.
  destruct (RevertToSnapshot_ok _ _ _ Hdb (Hsv _ _ Hw)) as (db & Hrev & Hok & Heq & Hk).
  unfold revert. rewrite Hrev. eexists. split; [done|]. constructor; try done. cbn. auto.
Qed.

Lemma burn_bound err c : is_u64 (c_Gas c) -> 0 <= c_Gas (burn err c) <= c_Gas c.
Proof.
  intros Hg. unfold burn. destruct (bool_decide _); [destruct Hg; lia|]. destruct Hg. by apply UseGas_bound.
Qed.

Lemma runCall_ok snapshot w c input e :
  runnable c -> evm_ok env e -> slice_ok input -> c_Gas c < bound -> saved (evm_StateDB e) snapshot w ->
  exists e' ret left err, runCall env Run snapshot c input e = Ok (e', (ret, left, err)) /\
    settled snapshot w e e' err /\ slice_ok ret /\ 0 <= left <= c_Gas c.
Proof.
  intros Hc He Hi Hb Hw. destruct (run_returns c input e Hc He Hi Hb) as (e1 & c1 & ret & err & Hr & Hs & Hg & Hret).
  unfold runCall. rewrite Hr. cbn [outcome_bind]. destruct err as [err|].
  - destruct (revert_ok snapshot w e e1 (Some err)) as (e2 & -> & Hse); [done..|]. cbn [outcome_bind].
    destruct (rn_gas _ Hc). pose proof (burn_bound (Some err) c1 ltac:(unfold is_u64; lia)).
    eexists _, _, _, _. split; [done|]. split_and!; try done; lia.
  - eexists _, _, _, _. split; [done|]. destruct Hs. split_and!; try done; try lia. by constructor; auto.
Qed.

(** ** Before the run *)

Lemma takeSnapshot_ok e e1 i : evm_ok env e -> takeSnapshot e = (e1, i) ->
  evm_steps env e e1 /\ saved (evm_StateDB e1) i (world (evm_StateDB e)) /\
  same_accounts (world (evm_StateDB e1)) (world (evm_StateDB e)) /\ (forall j v, saved (evm_StateDB e) j v -> j < i).
Proof.
  intros He Ht. unfold takeSnapshot in Ht. destruct (Snapshot (evm_StateDB e)) as [db i'] eqn:Hs. injection Ht as <- <-.
  destruct (Snapshot_ok _ _ _ (eo_db _ _ He) Hs) as (Hev & Hsv & Hlt). split_and!; try done; [|by destruct Hev as (? & ? & ?)].
  by eapply evm_steps_db; [..|apply no_mint_le].
Qed.

Lemma newDests_steps caller e : evm_ok env e -> evm_steps env e (newDests caller e).
Proof.
  intros He. destruct caller; [by apply evm_steps_refl|]. apply evm_steps_aux; try done. destruct He.
  by constructor.
Qed.

Lemma set_balance_same a w : same_accounts w (set_balance a (w_balance w a) w).
Proof. constructor; try done. intros b. cbn. by rewrite upd_same. Qed.

Lemma Transfer_steps e a b v :
  evm_ok env e -> 0 <= v <= GetBalance (evm_StateDB e) a -> (static env e -> v = 0) ->
  evm_steps env e (set_StateDB e (Transfer a b v (evm_StateDB e))).
Proof.
  intros He Hv Hst. unfold Transfer. set (db1 := SubBalance a v (evm_StateDB e)).
  pose proof (SubBalance_ok (evm_StateDB e) a v (eo_db _ _ He) Hv) as H1. fold db1 in H1. pose proof H1 as (Hok1 & Hw1 & _).
  eapply evm_steps_db; [done|eapply evolves_trans; [exact H1|apply (AddBalance_ok db1 b v Hok1); lia]| |].
  - intros Hs. rewrite (Hst Hs), Z.add_0_r in *. rewrite Z.sub_0_r in Hw1. etrans; [|apply (set_balance_same b (world db1))]. rewrite Hw1. apply set_balance_same.
  - eapply no_mint_trans; [apply (no_mint_transfer (world (evm_StateDB e)) a b v Hv)|]. apply no_mint_le. intros c. cbn. unfold upd. pose proof (sa_balance _ _ Hw1 b) as Hb. pose proof (sa_balance _ _ Hw1 c) as Hc. cbn in Hb, Hc. unfold upd in Hb, Hc.
    repeat case_bool_decide; subst; rewrite ?Hb, ?Hc; lia.
Qed.

Lemma CreateAccount_steps e a :
  evm_ok env e -> (static env e -> Exist (evm_StateDB e) a = false) ->
  evm_steps env e (set_StateDB e (CreateAccount a (evm_StateDB e))) /\
  forall b, GetBalance (CreateAccount a (evm_StateDB e)) b = GetBalance (evm_StateDB e) b.
Proof.
  intros He Hex. pose proof (CreateAccount_ok _ a (eo_db _ _ He)) as Hev. split.
  - eapply evm_steps_db; [done..| |by apply no_mint_le]. intros Hs. apply Exist_ok; [by destruct He|auto].
  - destruct Hev as (_ & Hw & _). intros b. exact (sa_balance _ _ Hw b).
Qed.

(** ** The call as a whole *)

(** It returns, and if it returns an error the world is what it was. *)
Definition call_outcome (gas : Z) e (o : outcome Empty_set (EVM DB * CallResult)) : Prop :=
  exists e' ret left err, o = Ok (e', (ret, left, err)) /\ evm_steps env e e' /\ slice_ok ret /\ 0 <= left <= gas /\
    (err <> None -> world_eq (world (evm_StateDB e')) (world (evm_StateDB e))).

Lemma call_outcome_returns gas e r : call_outcome gas e r -> call_returns env gas e r.
Proof. intros (e' & ret & left & err & ? & ? & ? & ? & _). by exists e', ret, left, err. Qed.

Lemma call_refused gas e err : evm_ok env e -> 0 <= gas -> call_outcome gas e (Ok (e, ([], gas, err))).
Proof. intros. eexists _, _, _, _. split; [done|]. split_and!; auto using evm_steps_refl, slice_ok_nil with lia. intros _. reflexivity. Qed.

(** From the snapshot on: prepare, run, settle. *)
Lemma call_settled e e1 i e2 c input gas :
  evm_ok env e -> takeSnapshot e = (e1, i) -> evm_steps env e1 e2 ->
  runnable c -> slice_ok input -> c_Gas c = gas -> gas < bound ->
  call_outcome gas e (runCall env Run i c input e2).
Proof.
  intros He Ht Hs2 Hc Hi <- Hb. destruct (takeSnapshot_ok _ _ _ He Ht) as (Hs1 & Hsv & Hsame & Hlt).
  destruct (runCall_ok i (world (evm_StateDB e)) c input e2) as (e' & ret & left & err & -> & Hse & Hret & Hl); try done.
  { by destruct Hs2. } { by apply (es_saved _ _ _ Hs2). }
  pose proof (evm_steps_trans _ _ _ _ Hs1 Hs2) as [_ D R V S F]. destruct Hse as [K1 K2 K3 K4 K5 KF K6].
  eexists _, _, _, _. split; [done|]. split_and!; try done; try lia. constructor; [done|congruence|congruence| | |].
  - intros j v Hj. apply K4; [by eapply Hlt|by apply V].
  - intros Hst. destruct (decide (err = None)) as [E|E].
    + etrans; [by apply S|]. apply K5; [done|]. unfold static in *. by rewrite R.
    + symmetry. apply world_eq_same. by apply K6.
  - destruct (decide (err = None)) as [E|E]; [eapply no_mint_trans; [exact F|by apply KF]|]. apply no_mint_same. symmetry. apply world_eq_same. by apply K6.
Qed.

(** ** The four calls *)

(** The caller is an account or a running contract. *)
Definition ref_ok (r : ContractRef) : Prop :=
  digits_ok (ref_Address r) /\
  match r with RefContract c => 0 <= c_value c /\ digits_ok (c_CallerAddress c) | RefAccount _ => True end.

Lemma runnable_code db addr c :
  db_ok db -> is_u64 (c_Gas c) -> 0 <= c_value c -> digits_ok (c_self c) -> digits_ok (c_CallerAddress c) ->
  runnable (SetCallCode (Some addr) (GetCodeHash db addr) (GetCode db addr) c).
Proof. intros. constructor; cbn; eauto using GetCode_ok, GetCodeHash_ok. Qed.

Ltac call_guards :=
  repeat match goal with |- call_outcome _ _ (if ?b then Ok _ else _) => destruct b eqn:?; [by apply call_refused|] end.

Section guarded.
Context (caller : ContractRef) (addr input : bytes) (gas : Z) (e : EVM DB).
Hypothesis (Hcaller : ref_ok caller) (He : evm_ok env e) (Haddr : digits_ok addr) (Hinput : slice_ok input).
Hypothesis (Hgas : is_u64 gas) (Hbound : gas < bound).

(** Without a value to move, only the snapshot comes before the run. *)
Lemma call_without_value c e1 i :
  takeSnapshot e = (e1, i) -> c_Gas c = gas -> 0 <= c_value c -> digits_ok (c_self c) -> digits_ok (c_CallerAddress c) ->
  call_outcome gas e (runCall env Run i
    (SetCallCode (Some addr) (GetCodeHash (evm_StateDB e1) addr) (GetCode (evm_StateDB e1) addr) c) input (newDests caller e1)).
Proof.
  intros Ht Hc **. destruct (takeSnapshot_ok _ _ _ He Ht) as (Hs1 & _). pose proof (es_ok _ _ _ Hs1) as He1.
  eapply call_settled; try done.
  - by apply newDests_steps.
  - apply runnable_code; [by destruct He1|by rewrite Hc|done..].
Qed.

Lemma CallCode_ok value : 0 <= value -> call_outcome gas e (CallCode env Run caller addr input gas value e).
Proof.
  intros Hv. destruct Hgas, Hcaller. unfold CallCode. call_guards.
  destruct (takeSnapshot e) as [e1 i] eqn:Ht. by apply call_without_value.
Qed.

Lemma DelegateCall_ok c : caller = RefContract c -> call_outcome gas e (DelegateCall env Run caller addr input gas e).
Proof.
  intros E. destruct Hgas, Hcaller as [? Hr]. unfold DelegateCall. call_guards.
  destruct (takeSnapshot e) as [e1 i] eqn:Ht. rewrite E in *. destruct Hr. cbn [AsDelegate outcome_bind ref_Address] in *.
  eapply (call_without_value (MkContract (c_CallerAddress c) (c_self c) [] [] None [] gas (c_value c) true)) in Ht; try done.
  by rewrite E in Ht.
Qed.

Lemma StaticCall_outcome e0 (r : outcome Empty_set (EVM DB * CallResult)) :
  e0 = set_readOnly e true -> evm_readOnly e = false -> call_outcome gas e0 r ->
  call_outcome gas e (let! (evm, r) := r in Ok (set_readOnly evm false, r)).
Proof.
  intros -> Hro (e' & ret & left & err & -> & Hs & Hret & Hl & Hw). eexists _, _, _, _. split; [done|].
  destruct Hs as [[] D R V S]. split_and!; try done; try lia. constructor; cbn in *; try done. intros [_ ?]. congruence.
Qed.
End guarded.

Lemma StaticCall_ok caller addr input gas e :
  ref_ok caller -> evm_ok env e -> digits_ok addr -> slice_ok input -> is_u64 gas -> gas < bound ->
  call_outcome gas e (StaticCall env Run caller addr input gas e).
Proof.
  intros Hcaller He Ha Hi Hg Hb. pose proof Hg as [? ?]. pose proof Hcaller as [? _]. unfold StaticCall. call_guards.
  destruct (evm_readOnly e) eqn:Hro; cbn [negb]; destruct (takeSnapshot _) as [e1 i] eqn:Ht.
  - assert (call_outcome gas e (runCall env Run i (SetCallCode (Some addr) (GetCodeHash (evm_StateDB e1) addr)
      (GetCode (evm_StateDB e1) addr) (NewContract caller addr 0 gas)) input (newDests caller e1)))
      as (e' & ret & left & err & -> & Hout) by by apply call_without_value.
    by exists e', ret, left, err.
  - eapply StaticCall_outcome; [done|done|]. apply call_without_value; try done. by destruct He.
Qed.

(** What a static call runs leaves the accounts alone. *)
Lemma StaticCall_untouched caller addr input gas e :
  ref_ok caller -> evm_ok env e -> digits_ok addr -> slice_ok input -> is_u64 gas -> gas < bound -> e_IsByzantium env = true ->
  exists e' r, StaticCall env Run caller addr input gas e = Ok (e', r) /\ same_accounts (world (evm_StateDB e)) (world (evm_StateDB e')).
Proof.
  intros Hcaller He Ha Hi Hg Hb Hbyz. destruct (evm_readOnly e) eqn:Hro.
  { destruct (StaticCall_ok caller addr input gas e) as (e' & ret & left & err & -> & Hs & _); try done. eexists _, _. split; [done|]. by apply Hs. }
  pose proof Hg as [? ?]. pose proof Hcaller as [? _]. unfold StaticCall.
  destruct (_ && _); [by eexists _, _|]. destruct (_ >? _); [by eexists _, _|]. rewrite Hro. cbn [negb].
  destruct (takeSnapshot _) as [e1 i] eqn:Ht.
  assert (call_outcome gas (set_readOnly e true) (runCall env Run i (SetCallCode (Some addr) (GetCodeHash (evm_StateDB e1) addr)
      (GetCode (evm_StateDB e1) addr) (NewContract caller addr 0 gas)) input (newDests caller e1)))
    as (e' & ret & left & err & -> & Hs & _) by (apply call_without_value; try done; by destruct He).
  cbn [outcome_bind]. eexists _, _. split; [done|]. by apply Hs.
Qed.

Lemma Call_ok caller addr input gas value e :
  ref_ok caller -> evm_ok env e -> digits_ok addr -> slice_ok input -> is_u64 gas -> gas < bound -> 0 <= value ->
  (static env e -> value = 0) -> call_outcome gas e (Call env Run caller addr input gas value e).
Proof.
  intros [Hca _] He Ha Hi Hg Hb Hv Hst. pose proof Hg as [? ?]. unfold Call. call_guards.
  rename Heqb1 into Hbal. rewrite negb_false_iff in Hbal. unfold CanTransfer in Hbal. rewrite Z.geb_leb, Z.leb_le in Hbal.
  destruct (takeSnapshot e) as [e1 i] eqn:Ht. destruct (takeSnapshot_ok _ _ _ He Ht) as (Hs1 & Hsv & Hsame & Hlt).
  pose proof (es_ok _ _ _ Hs1) as He1. pose proof (sa_balance _ _ Hsame (ref_Address caller)) as Hbal1. cbn in Hbal1.
  destruct (_ && (value =? 0)).
  { eexists _, _, _, _. split; [done|]. split_and!; [done|apply slice_ok_nil|lia|lia|done]. }
  set (db2 := if negb (Exist (evm_StateDB e1) addr) then _ else _).
  assert (evm_steps env e1 (set_StateDB e1 db2) /\ GetBalance db2 (ref_Address caller) = GetBalance (evm_StateDB e1) (ref_Address caller)) as [Hs2 Hb2].
  { subst db2. destruct (Exist (evm_StateDB e1) addr) eqn:Hex; cbn [negb]; [by destruct e1; split; [apply evm_steps_refl|]|].
    destruct (CreateAccount_steps e1 addr He1) as [? ?]; [done|]. by split. }
  assert (evm_steps env e1 (set_StateDB e1 (Transfer (ref_Address caller) addr value db2))) as Hs3.
  { eapply evm_steps_trans; [exact Hs2|]. apply (Transfer_steps (set_StateDB e1 db2)); [by destruct Hs2|cbn; lia|].
    intros Hs. apply Hst. unfold static in *. cbn in Hs. by rewrite (es_readOnly _ _ _ Hs1) in Hs. }
  pose proof (es_ok _ _ _ Hs3) as He3. eapply call_settled; try done.
  - eapply evm_steps_trans; [exact Hs3|by apply newDests_steps].
  - by apply runnable_code; [destruct He3|..].
Qed.

(** ** Creation *)

(** Before Homestead a contract whose code could not be paid for was kept, without code. *)
Definition undone (err : option vm_error) : Prop :=
  err <> None /\ (e_IsHomestead env = true \/ err <> Some ErrCodeStoreOutOfGas).

Record stored (snapshot : Z) (w : World) e e' (err : option vm_error) : Prop := {
  st_ok : evm_ok env e';
  st_depth : evm_depth e' = evm_depth e;
  st_readOnly : evm_readOnly e' = evm_readOnly e;
  st_saved : forall j v, j < snapshot -> saved (evm_StateDB e) j v -> saved (evm_StateDB e') j v;
  st_funds : no_mint (world (evm_StateDB e)) (world (evm_StateDB e')) \/ world_eq (world (evm_StateDB e')) w;
  st_undone : undone err -> world_eq (world (evm_StateDB e')) w }.

Lemma settled_stored snapshot w e e' err err' : settled snapshot w e e' err -> err <> None -> stored snapshot w e e' err'.
Proof. intros [] ?. constructor; auto. Qed.
Lemma steps_stored snapshot w e e' err : evm_steps env e e' -> ~ undone err -> stored snapshot w e e' err.
Proof. intros [] ?. constructor; auto. done. Qed.

Lemma storeCode_ok snapshot w addr c ret err e e' gas :
  evm_steps env e e' -> ~ static env e -> saved (evm_StateDB e) snapshot w -> slice_ok ret -> is_u64 gas -> 0 <= c_Gas c <= gas ->
  exists e'' left err', storeCode env snapshot addr c ret err e' = Ok (e'', (ret, left, err')) /\
    stored snapshot w e e'' err' /\ 0 <= left <= gas.
Proof.
  intros Hs Hns Hw Hret Hg Hc. assert (is_u64 (c_Gas c)) as Hgc by (destruct Hg; unfold is_u64; lia).
  destruct (revert_ok snapshot w e e' (Some ErrOutOfGas) Hs Hw ltac:(done)) as (e2 & Hrev & Hset).
  assert (forall err', stored snapshot w e e2 err') as Hst by (intros; by eapply settled_stored).
  unfold storeCode. set (mx := e_IsEIP158 env && _). pose proof (u64_range (zlen ret * CreateDataGas)) as [? _].
  pose proof (UseGas_bound (u64 (zlen ret * CreateDataGas)) c ltac:(done) Hgc) as Hu.
  pose proof (fun err => burn_bound err c Hgc) as Hburn.
  destruct (bool_decide (err = None) && negb mx) eqn:Hrun; [destruct (UseGas _ c) as [c' []] eqn:Huse|].
  - apply andb_true_iff in Hrun as [->%bool_decide_eq_true ->%negb_true_iff]. cbn in *.
    eexists _, _, _. split; [done|]. split; [|lia]. apply steps_stored; [|by intros []].
    eapply evm_steps_trans; [done|]. destruct Hs. eapply evm_steps_db; [done|apply SetCode_ok; [by destruct es_ok|done]| |by apply no_mint_le].
    intros Hst'. destruct Hns. unfold static in *. by rewrite es_readOnly in Hst'.
  - apply andb_true_iff in Hrun as [_ ->%negb_true_iff]. unfold UseGas in Huse. case_match; simplify_eq. cbn in *.
    destruct (e_IsHomestead env) eqn:Hh; cbn; rewrite ?Hrev; eexists _, _, _; (split; [done|]); (split; [|cbn; first [lia|destruct (Hburn err); lia|destruct (Hburn (Some ErrCodeStoreOutOfGas)); lia]]); [done|].
    apply steps_stored; [done|]. intros [_ []]; congruence.
  - destruct (mx || _) eqn:Hor; cbn; rewrite ?Hrev; eexists _, _, _; (split; [done|]); (split; [|cbn; first [lia|destruct (Hburn err); lia|destruct (Hburn (Some ErrCodeStoreOutOfGas)); lia]]); [done|].
    apply orb_false_iff in Hor as [-> Hor]. cbn. apply steps_stored; [done|]. intros [Hne Hor'].
    rewrite bool_decide_eq_false_2 in Hor by done. cbn in Hor. apply orb_false_iff in Hor as [Hh Hc'].
    rewrite negb_false_iff, bool_decide_eq_true in Hc'. destruct Hor'; congruence.
Qed.

Lemma CreateAddress_digits a n : digits_ok (CreateAddress env a n).
Proof. unfold CreateAddress. case_match; apply digits_ok_SetBytes, Forall_drop, (hash_digits _ Henv). Qed.

(** The world a failed creation leaves: the old one, with the creator's nonce advanced once
    depth and balance allow the creation. *)
Definition create_undone (caller : bytes) (value : Z) e e' : Prop :=
  same_accounts (world (evm_StateDB e'))
    (if (evm_depth e <=? CallCreateDepth) && (value <=? GetBalance (evm_StateDB e) caller)
     then set_nonce caller (u64 (GetNonce (evm_StateDB e) caller + 1)) (world (evm_StateDB e)) else world (evm_StateDB e)).

Definition create_outcome (caller : bytes) (gas value : Z) e (r : outcome Empty_set (EVM DB * (bytes * CallResult))) : Prop :=
  exists e' addr ret left err, r = Ok (e', (addr, (ret, left, err))) /\ evm_steps env e e' /\ digits_ok addr /\ slice_ok ret /\
    0 <= left <= gas /\ (undone err -> create_undone caller value e e').

(** What [Create] prepares between the snapshot and the run. *)
Lemma create_prepare caller addr value e :
  evm_ok env e -> ~ static env e -> 0 <= value <= GetBalance (evm_StateDB e) caller ->
  let db := CreateAccount addr (evm_StateDB e) in
  let db := if e_IsEIP158 env then SetNonce addr 1 db else db in
  evm_steps env e (set_StateDB e (Transfer caller addr value db)).
Proof.
  intros He Hns Hv. destruct (CreateAccount_steps e addr He) as [Hs1 Hb1]; [done|].
  set (db1 := CreateAccount addr (evm_StateDB e)) in *. intros db db2.
  assert (evm_steps env (set_StateDB e db1) (set_StateDB e db2) /\ GetBalance db2 caller = GetBalance db1 caller) as [Hs2 Hb2].
  { subst db2. destruct (e_IsEIP158 env); [|split; [apply evm_steps_refl|done]; by destruct Hs1].
    destruct (SetNonce_ok db1 addr 1) as (H1 & H2 & H3); [by destruct Hs1 as [[]]|unfold is_u64; lia|].
    split; [|exact (sa_balance _ _ H2 caller)]. by eapply (evm_steps_db _ (set_StateDB e db1)); [destruct Hs1| | |apply no_mint_le]. }
  eapply evm_steps_trans; [exact Hs1|]. eapply evm_steps_trans; [exact Hs2|].
  apply (Transfer_steps (set_StateDB e db2)); [by destruct Hs2| |done]. cbn. rewrite Hb2, Hb1. lia.
Qed.

(** Creation from the snapshot on. *)
Lemma create_settled caller code addr value gas e e1 i e2 :
  evm_ok env e -> ~ static env e -> takeSnapshot e = (e1, i) -> evm_steps env e1 e2 -> digits_ok (ref_Address caller) ->
  digits_ok addr -> slice_ok code -> is_u64 gas -> gas < bound -> 0 <= value ->
  exists e' ret left err,
    (let! (evm, contract, (ret, err)) := run env Run (SetCallCode (Some addr) (Keccak256 env code) code (NewContract caller addr value gas)) [] e2 in
     let! (evm, r) := storeCode env i addr contract ret err evm in
     Ok (evm, (addr, r))) = Ok (e', (addr, (ret, left, err))) /\
    evm_steps env e e' /\ slice_ok ret /\ 0 <= left <= gas /\ (undone err -> world_eq (world (evm_StateDB e')) (world (evm_StateDB e))).
Proof.
  intros He Hns Ht Hs2 Hca Ha Hc Hg Hb Hv. destruct (takeSnapshot_ok _ _ _ He Ht) as (Hs1 & Hsv & Hsame & Hlt).
  destruct (run_returns (SetCallCode (Some addr) (Keccak256 env code) code (NewContract caller addr value gas)) [] e2)
    as (e3 & c3 & ret & err & -> & Hs3 & Hg3 & Hret); [by constructor|by destruct Hs2|apply slice_ok_nil|done|]. cbn [outcome_bind].
  pose proof (evm_steps_trans _ _ _ _ Hs1 Hs2) as [_ D R V S F].
  destruct (storeCode_ok i (world (evm_StateDB e)) addr c3 ret err e2 e3 gas) as (e4 & left & err' & -> & [K1 K2 K3 K4 KF K5] & Hl); try done.
  { unfold static in *. by rewrite R. } { by apply (es_saved _ _ _ Hs2). }
  eexists _, _, _, _. split; [done|]. split_and!; try done; try lia. constructor; [done|congruence|congruence| |done|].
  - intros j v Hj. apply K4; [by eapply Hlt|by apply V].
  - destruct KF as [KF|KF]; [by eapply no_mint_trans|]. apply no_mint_same. symmetry. by apply world_eq_same.
Qed.

Lemma Create_ok caller code gas value e :
  ref_ok caller -> evm_ok env e -> slice_ok code -> is_u64 gas -> gas < bound -> 0 <= value -> ~ static env e ->
  create_outcome (ref_Address caller) gas value e (Create env Run caller code gas value e).
Proof.
  intros [Hca _] He Hc Hg Hb Hv Hns. pose proof Hg as [? ?]. unfold Create. pose proof (digits_ok_zeros AddressLength).
  unfold create_outcome, create_undone. rewrite Z.gtb_ltb. destruct (Z.ltb_spec CallCreateDepth (evm_depth e)).
  { rewrite (proj2 (Z.leb_gt _ _)) by lia. eexists _, _, _, _, _. split; [done|]. by split_and!; auto using evm_steps_refl, slice_ok_nil with lia. }
  rewrite (proj2 (Z.leb_le (evm_depth e) _)) by lia. unfold CanTransfer. destruct (Z.geb_spec (GetBalance (evm_StateDB e) (ref_Address caller)) value) as [Hbal|]; cbn [negb].
  2:{ rewrite (proj2 (Z.leb_gt _ _)) by lia. eexists _, _, _, _, _. split; [done|]. by split_and!; auto using evm_steps_refl, slice_ok_nil with lia. }
  rewrite (proj2 (Z.leb_le value _)) by lia. cbn [andb].
  set (db1 := SetNonce _ _ _). set (e1 := set_StateDB e db1).
  pose proof (SetNonce_ok _ (ref_Address caller) _ (eo_db _ _ He) (u64_range (GetNonce (evm_StateDB e) (ref_Address caller) + 1))) as Hev.
  assert (evm_steps env e e1) as Hs1 by by eapply evm_steps_db; [..|apply no_mint_le].
  destruct Hev as (_ & Hw1 & _). pose proof (es_ok _ _ _ Hs1) as He1. change (SetNonce _ _ _) with db1 in Hw1.
  destruct (addressTaken _ _ _).
  { eexists _, _, _, _, _. split; [done|]. by split_and!; auto using slice_ok_nil with lia. }
  destruct (takeSnapshot e1) as [e2 i] eqn:Ht. destruct (takeSnapshot_ok _ _ _ He1 Ht) as (Hs2 & _ & Hsame & _).
  assert (~ static env e1 /\ ~ static env e2) as [Hns1 Hns2].
  { unfold static in *. by rewrite (es_readOnly _ _ _ Hs2). }
  set (addr := CreateAddress _ _ _). assert (digits_ok addr) as Haddr by apply CreateAddress_digits.
  pose proof (create_prepare (ref_Address caller) addr value e2 ltac:(by destruct Hs2) Hns2) as Hs3.
  pose proof (sa_balance _ _ Hsame (ref_Address caller)) as Hb2. pose proof (sa_balance _ _ Hw1 (ref_Address caller)) as Hb1.
  cbn in Hb1, Hb2. specialize (Hs3 ltac:(rewrite Hb2, Hb1; lia)). cbn zeta in Hs3.
  set (e3 := set_StateDB e2 _) in *.
  assert (evm_steps env e2 (newDests caller e3)) as Hs4 by (eapply evm_steps_trans; [exact Hs3|apply newDests_steps; by destruct Hs3]).
  destruct (_ && _).
  { eexists _, _, _, _, _. split; [done|]. split_and!; [|done|apply slice_ok_nil|lia|lia|by intros [? _]].
    eapply evm_steps_trans; [exact Hs1|]. by eapply evm_steps_trans. }
  destruct (create_settled caller code addr value gas e1 e2 i (newDests caller e3)) as (e' & ret & left & err & -> & Hs & Hret & Hl & Hun); try done.
  eexists _, _, _, _, _. split; [done|]. split_and!; try done; try lia.
  - by eapply evm_steps_trans.
  - intros Hu. destruct (Hun Hu) as [Hw _]. by etrans.
Qed.

Lemma callOps_ok : calls_ok env bound (callOps env Run).
Proof.
  assert (forall c, contract_ok env c -> ref_ok (RefContract c)) as Href by by intros c [].
  constructor; intros; cbn; [apply call_outcome_returns..|].
  - by apply Call_ok; auto.
  - by apply CallCode_ok; auto.
  - by eapply DelegateCall_ok; auto.
  - by apply StaticCall_ok; auto.
  - destruct (Create_ok (RefContract c) code gas value e) as (e' & addr & ret & left & err & -> & ? & ? & ? & ? & _); auto.
    eexists _, _, _. split; [done|]. split; [done|]. by eexists _, _, _, _.
Qed.
End calls.

(** * The knot *)

Lemma loop_ok n : loop_returns n.
Proof.
  induction n as [|n IH]; [|apply loop_step; [done|apply callOps_ok, Run_with_returns, IH]].
  intros f [Hf _] Hg. destruct (co_gas _ _ (fo_contract _ _ Hf)). lia.
Qed.

Lemma Run_ok n : Run_returns (Z.of_nat n) (Run env n).
Proof. apply Run_with_returns, loop_ok. Qed.
End machine.
