(* ===== verification/TrieEncoding.v ===== *)
(** Keys of the trie ([src/trie/encoding.go]): key bytes, nibbles with an optional
    terminator, and the compact form stored in the database.

    The conversions are inverse to each other on well-formed keys and panic only on input
    no caller in the package produces, except that [compactToHex] panics on an empty
    string, which an encoded node may contain. *)

From stdpp Require Import base numbers list.
From S2P Require Import Prelude.
Local Open Scope Z_scope.
Local Open Scope go_scope.

(** * The code *)

Definition hasTerm (s : bytes) : bool :=
  (zlen s >? 0) && match last s with Some x => x =? 16 | None => false end.

(** Writes one byte per pair of nibbles into [dst]; indexing past either end panics. *)
Fixpoint decodeNibbles (nibbles dst : bytes) : option bytes :=
  match nibbles, dst with
  | [], _ => Some dst
  | hi :: lo :: nibbles, _ :: dst => cons (Z.lor (u8 (Z.shiftl hi 4)) lo) <$> decodeNibbles nibbles dst
  | _, _ => None
  end.

(** [hex[:len(hex)-1]] when the key has a terminator. *)
Definition cutTerm (hex : bytes) : bytes := if hasTerm hex then take (length hex - 1) hex else hex.

Definition hexToCompact (hex : bytes) : option bytes :=
  let terminator := if hasTerm hex then 1 else 0 in
  let hex := cutTerm hex in
  let flag := u8 (Z.shiftl terminator 5) in
  let buf := replicate (length hex / 2) 0 in
  if Z.land (zlen hex) 1 =? 1 then
    h0 ← zget hex 0;
    cons (Z.lor (Z.lor flag (Z.shiftl 1 4)) h0) <$> decodeNibbles (drop 1 hex) buf
  else cons flag <$> decodeNibbles hex buf.

Fixpoint nibblesOf (str : bytes) : bytes :=
  match str with [] => [] | b :: str => b / 16 :: b mod 16 :: nibblesOf str end.

Definition keybytesToHex (str : bytes) : bytes := nibblesOf str ++ [16].

Definition compactToHex (compact : bytes) : option bytes :=
  let base := keybytesToHex compact in
  let base := take (length base - 1) base in
  b0 ← zget base 0;
  let base := if b0 >=? 2 then base ++ [16] else base in
  let chop := 2 - Z.land b0 1 in
  zslice base chop (zlen base).

Definition hexToKeybytes (hex : bytes) : option bytes :=
  let hex := cutTerm hex in
  if negb (Z.land (zlen hex) 1 =? 0) then None
  else decodeNibbles hex (replicate ((length hex + 1) / 2) 0).

Fixpoint prefixLen (a b : bytes) : nat :=
  match a, b with
  | x :: a, y :: b => if x =? y then S (prefixLen a b) else O
  | _, _ => O
  end.

(** * Well-formed keys *)

Definition is_nibble (x : Z) : Prop := 0 <= x < 16.
Definition nibbles_ok (k : bytes) : Prop := Forall is_nibble k.

(** A whole key: nibbles and the terminator. *)
Definition hexkey (k : bytes) : Prop := exists ks, k = ks ++ [16] /\ nibbles_ok ks.
(** Part of a key, with or without the terminator. *)
Definition hexpart (k : bytes) : Prop := nibbles_ok k \/ hexkey k.

Lemma hasTerm_app ks x : hasTerm (ks ++ [x]) = (x =? 16).
Proof. unfold hasTerm. rewrite zlen_app, last_snoc, Z.gtb_ltb, (proj2 (Z.ltb_lt _ _)); [done|]. pose proof (zlen_nonneg ks). change (zlen [x]) with 1. lia. Qed.

Lemma hasTerm_nibbles ks : nibbles_ok ks -> hasTerm ks = false.
Proof.
  intros Hk. destruct ks as [|x ks _] using rev_ind; [done|]. rewrite hasTerm_app. apply Forall_app in Hk as [_ [[? ?] _]%Forall_cons].
  apply Z.eqb_neq. lia.
Qed.

Lemma cutTerm_hexkey ks : cutTerm (ks ++ [16]) = ks.
Proof. unfold cutTerm. rewrite hasTerm_app, length_app, Nat.add_sub. cbn. by rewrite take_app_length. Qed.
Lemma cutTerm_nibbles ks : nibbles_ok ks -> cutTerm ks = ks.
Proof. intros. unfold cutTerm. by rewrite hasTerm_nibbles. Qed.

(** The nibbles packed two to a byte. *)
Fixpoint pack (ks : bytes) : bytes :=
  match ks with hi :: lo :: ks => hi * 16 + lo :: pack ks | _ => [] end.

Lemma pack_byte hi lo : is_nibble hi -> is_nibble lo -> Z.lor (u8 (Z.shiftl hi 4)) lo = hi * 16 + lo.
Proof.
  intros [? ?] [? ?]. rewrite Z.shiftl_mul_pow2 by lia. rewrite u8_small by (unfold is_byte; lia).
  symmetry. rewrite <- Z.lxor_lor, <- Z.add_nocarry_lxor; [lia|..];
  (apply Z.bits_inj'; intros n Hn; rewrite Z.land_spec, Z.bits_0;
    destruct (Z.lt_ge_cases n 4); [by rewrite Z.mul_pow2_bits_low by lia|];
    destruct (Z.eq_dec lo 0) as [->|]; [by rewrite Z.bits_0, andb_false_r|];
    rewrite (Z.bits_above_log2 lo n), andb_false_r; [done|lia|];
    assert (Z.log2 lo < 4) by (apply Z.log2_lt_pow2; lia); lia).
Qed.

(** Two steps at a time. *)
Lemma pairs_ind (P : bytes -> Prop) : P [] -> (forall x, P [x]) -> (forall x y l, P l -> P (x :: y :: l)) -> forall l, P l.
Proof.
  intros H0 H1 H2. assert (forall l, P l /\ forall x, P (x :: l)) as H; [|intros l; apply H].
  induction l as [|x l [IH1 IH2]]; split; auto.
Qed.

Lemma decodeNibbles_spec ks n : nibbles_ok ks -> length ks = (2 * n)%nat -> decodeNibbles ks (replicate n 0) = Some (pack ks).
Proof.
  revert n. induction ks as [|x|x y ks IH] using pairs_ind; intros n Hk Hn.
  - by destruct n.
  - cbn in Hn. lia.
  - destruct n as [|n]; [done|]. apply Forall_cons in Hk as [Hx [Hy Hk]%Forall_cons]. cbn. cbn in Hn.
    rewrite (IH n) by (done || lia). cbn. by rewrite pack_byte.
Qed.

Lemma nibblesOf_pack ks n : nibbles_ok ks -> length ks = (2 * n)%nat -> nibblesOf (pack ks) = ks.
Proof.
  revert n. induction ks as [|x|x y ks IH] using pairs_ind; intros n Hk Hn; [done|cbn in Hn; lia|].
  apply Forall_cons in Hk as [Hx [Hy Hk]%Forall_cons]. destruct n as [|n]; [done|]. cbn in *. rewrite (IH n) by (done || lia).
  unfold is_nibble in *. rewrite <- (Z.div_unique (x * 16 + y) 16 x y), <- (Z.mod_unique (x * 16 + y) 16 x y) by lia. done.
Qed.

Lemma pack_nibblesOf b : bytes_ok b -> pack (nibblesOf b) = b.
Proof.
  induction 1 as [|x b [? ?] Hb IH]; [done|]. cbn. rewrite IH. f_equal. pose proof (Z.div_mod x 16 ltac:(lia)). lia.
Qed.

Lemma nibblesOf_ok b : bytes_ok b -> nibbles_ok (nibblesOf b).
Proof.
  induction 1 as [|x b [? ?] Hb IH]; [constructor|]. repeat constructor; try done; try (apply Z.div_pos; lia); try (apply Z.mod_pos_bound; lia).
  apply Z.div_lt_upper_bound; lia.
Qed.

Lemma length_nibblesOf b : length (nibblesOf b) = (2 * length b)%nat.
Proof. induction b as [|x b IH]; cbn; [done|]. lia. Qed.

Lemma keybytesToHex_hexkey b : bytes_ok b -> hexkey (keybytesToHex b).
Proof. intros. eexists. split; [done|]. by apply nibblesOf_ok. Qed.

Lemma keybytesToHex_inj a b : bytes_ok a -> bytes_ok b -> keybytesToHex a = keybytesToHex b -> a = b.
Proof.
  intros Ha Hb [H _]%app_inj_2; [|done]. rewrite <- (pack_nibblesOf a), <- (pack_nibblesOf b) by done. by rewrite H.
Qed.

Lemma prefixLen_spec a b :
  (prefixLen a b <= length a)%nat /\ (prefixLen a b <= length b)%nat /\ take (prefixLen a b) a = take (prefixLen a b) b /\
  (forall x y, a !! prefixLen a b = Some x -> b !! prefixLen a b = Some y -> x <> y).
Proof.
  revert b. induction a as [|x a IH]; intros [|y b]; cbn; try (split_and!; [lia..|done|done]).
  destruct (Z.eqb_spec x y) as [->|Hne]; cbn; [|split_and!; [lia..|done|by intros ? ? [= <-] [= <-]]].
  destruct (IH b) as (H1 & H2 & H3 & H4). split_and!; [lia..|by rewrite H3|done].
Qed.

(** The compact form, from its parts. *)
Definition compact (term : bool) (ks : bytes) : bytes :=
  let flag := if term then 2 else 0 in
  if Nat.odd (length ks)
  then match ks with k0 :: ks => (flag + 1) * 16 + k0 :: pack ks | [] => [] end
  else flag * 16 :: pack ks.

Lemma land_1_odd n : (Z.land (Z.of_nat n) 1 =? 1) = Nat.odd n.
Proof.
  change 1 with (Z.ones 1) at 1. rewrite Z.land_ones by lia. change (2 ^ 1) with 2. rewrite <- Zodd_mod.
  rewrite <- Nat.negb_even, Zodd_even_bool. f_equal. induction n as [n IH] using lt_wf_ind.
  destruct n as [|[|n]]; [done|done|]. rewrite Nat.even_succ_succ, <- (IH n) by lia.
  replace (Z.of_nat (S (S n))) with (Z.succ (Z.succ (Z.of_nat n))) by lia. by rewrite Z.even_succ_succ.
Qed.

Lemma flag_byte (term : bool) k0 : is_nibble k0 ->
  Z.lor (Z.lor (u8 (Z.shiftl (if term then 1 else 0) 5)) (Z.shiftl 1 4)) k0 = ((if term then 2 else 0) + 1) * 16 + k0.
Proof.
  intros H0. destruct term.
  - change (Z.lor (u8 (Z.shiftl 1 5)) (Z.shiftl 1 4)) with (u8 (Z.shiftl 3 4)). by apply pack_byte.
  - change (Z.lor (u8 (Z.shiftl 0 5)) (Z.shiftl 1 4)) with (u8 (Z.shiftl 1 4)). by apply pack_byte.
Qed.

Lemma hexToCompact_eq (term : bool) ks : nibbles_ok ks ->
  hexToCompact (ks ++ if term then [16] else []) = Some (compact term ks).
Proof.
  intros Hk. unfold hexToCompact, compact.
  assert (cutTerm (ks ++ if term then [16] else []) = ks) as ->.
  { destruct term; [apply cutTerm_hexkey|]. rewrite app_nil_r. by apply cutTerm_nibbles. }
  assert (hasTerm (ks ++ if term then [16] else []) = term) as ->.
  { destruct term; [apply hasTerm_app|]. rewrite app_nil_r. by apply hasTerm_nibbles. }
  unfold zlen. rewrite land_1_odd. destruct (Nat.odd (length ks)) eqn:Ho.
  - destruct ks as [|k0 ks]; [done|]. apply Forall_cons in Hk as [Hk0 Hk]. cbn [drop]. change (zget (k0 :: ks) 0) with (Some k0). cbn [mbind option_bind].
    apply Nat.odd_spec in Ho as [m Hm]. cbn in Hm.
    replace (length (k0 :: ks) / 2)%nat with m by (apply (Nat.div_unique _ _ _ 1); cbn [length]; lia).
    rewrite drop_0, decodeNibbles_spec by (done || lia). cbn [fmap option_fmap option_map]. by rewrite flag_byte.
  - assert (Nat.Even (length ks)) as [m Hm] by (apply Nat.even_spec; rewrite <- Nat.negb_odd, Ho; done).
    replace (length ks / 2)%nat with m by (apply (Nat.div_unique _ _ _ 0); lia).
    rewrite decodeNibbles_spec by (done || lia). by destruct term.
Qed.

Lemma pack_ok ks : nibbles_ok ks -> bytes_ok (pack ks).
Proof.
  induction ks as [|x|x y ks IH] using pairs_ind; intros Hk; [constructor..|].
  apply Forall_cons in Hk as [[? ?] [[? ?] Hk]%Forall_cons]. constructor; [unfold is_byte; lia|by apply IH].
Qed.

Lemma compact_ok term ks : nibbles_ok ks -> bytes_ok (compact term ks).
Proof.
  intros Hk. unfold compact. destruct (Nat.odd (length ks)); [destruct ks as [|k0 ks]; [constructor|]; apply Forall_cons in Hk as [[? ?] Hk]|];
    (constructor; [unfold is_byte; destruct term; lia|by apply pack_ok]).
Qed.

Lemma compact_cons term ks : nibbles_ok ks -> exists b0 b, compact term ks = b0 :: b /\
  nibblesOf (compact term ks) = (if term then 2 else 0) + (if Nat.odd (length ks) then 1 else 0) :: (if Nat.odd (length ks) then ks else 0 :: ks).
Proof.
  intros Hk. unfold compact. destruct (Nat.odd (length ks)) eqn:Ho.
  - destruct ks as [|k0 ks]; [done|]. apply Forall_cons in Hk as [Hk0 Hk]. eexists _, _. split; [done|]. cbn [nibblesOf].
    apply Nat.odd_spec in Ho as [m Hm]. rewrite (nibblesOf_pack ks m) by (done || (cbn in Hm; lia)). unfold is_nibble in *.
    rewrite <- (Z.div_unique _ 16 ((if term then 2 else 0) + 1) k0), <- (Z.mod_unique _ 16 ((if term then 2 else 0) + 1) k0) by lia. done.
  - assert (Nat.Even (length ks)) as [m Hm] by (apply Nat.even_spec; rewrite <- Nat.negb_odd, Ho; done).
    eexists _, _. split; [done|]. cbn [nibblesOf]. rewrite (nibblesOf_pack ks m) by done. by destruct term.
Qed.

Lemma compactToHex_eq (term : bool) ks : nibbles_ok ks -> compactToHex (compact term ks) = Some (ks ++ if term then [16] else []).
Proof.
  intros Hk. destruct (compact_cons term ks Hk) as (b0 & b & _ & Hn). unfold compactToHex, keybytesToHex.
  rewrite Hn, length_app, Nat.add_sub, take_app_length.
  destruct (Nat.odd (length ks)), term; rewrite ?app_nil_r;
    lazymatch goal with |- context [zget (?x :: ?l) 0] => change (zget (x :: l) 0) with (Some x) end; cbn [mbind option_bind].
  - exact (zslice_app_r [3] (ks ++ [16])).
  - exact (zslice_app_r [1] ks).
  - exact (zslice_app_r [2; 0] (ks ++ [16])).
  - exact (zslice_app_r [0; 0] ks).
Qed.

(** * Round trips *)

Lemma hexpart_split k : hexpart k -> exists (term : bool) ks, k = (ks ++ if term then [16] else []) /\ nibbles_ok ks.
Proof. intros [Hk|(ks & -> & Hk)]; [exists false, k; by rewrite app_nil_r|by exists true, ks]. Qed.

(** The compact form of a key can be read back: for every key of nibbles, with or
    without terminator, [hexToCompact] succeeds, its result is a byte string, and
    [compactToHex] of the result is the key. *)
Theorem compact_roundtrip k : hexpart k ->
  exists c, hexToCompact k = Some c /\ bytes_ok c /\ c <> [] /\ compactToHex c = Some k.
Proof.
  intros (term & ks & -> & Hk)%hexpart_split. exists (compact term ks).
  split_and!; [by apply hexToCompact_eq|by apply compact_ok| |by apply compactToHex_eq].
  destruct (compact_cons term ks Hk) as (b0 & b & -> & _). done.
Qed.
Lemma compact_roundtrip_witness :
  exists c, hexToCompact [1; 15; 2; 16] = Some c /\ bytes_ok c /\ c <> [] /\ compactToHex c = Some [1; 15; 2; 16].
Proof. apply compact_roundtrip. right. exists [1; 15; 2]. split; [done|]. repeat constructor; lia. Defined.

(**  Key bytes survive the way to nibbles and back. *)
Theorem keybytes_roundtrip b : bytes_ok b -> hexToKeybytes (keybytesToHex b) = Some b.
Proof.
  intros Hb. unfold hexToKeybytes, keybytesToHex. rewrite cutTerm_hexkey. unfold zlen. rewrite length_nibblesOf.
  replace ((2 * length b + 1) / 2)%nat with (length b) by (apply (Nat.div_unique _ _ _ 1); lia).
  change 1 with (Z.ones 1). rewrite Z.land_ones, Nat2Z.inj_mul, Z.mul_comm by lia. change (2 ^ 1) with 2. change (Z.of_nat 2) with 2.
  rewrite Z_mod_mult. cbn [Z.eqb negb]. rewrite decodeNibbles_spec; [by rewrite pack_nibblesOf|by apply nibblesOf_ok|apply length_nibblesOf].
Qed.
Lemma keybytes_roundtrip_witness : hexToKeybytes (keybytesToHex [0; 255; 18]) = Some [0; 255; 18].
Proof. apply keybytes_roundtrip. repeat constructor; lia. Defined.
