(* ===== verification/TrieTree.v ===== *)
(** What a trie means: finite trees of extensions and branches, the value they hold for a
    key, and their normal form.

    In normal form a tree is determined by the values it holds ([canon_unique]), so two
    tries with the same content have the same shape and the same root hash. *)

From stdpp Require Import base numbers list.
From S2P Require Import Prelude.
From S2P Require Import TrieEncoding.
Local Open Scope Z_scope.

(** * Trees *)

Inductive tree :=
| Leaf (v : bytes)
| Ext (k : bytes) (t : tree)
| Branch (ts : list (option tree)).

(** All children satisfy [P]. *)
Definition each (P : tree -> Prop) (o : option tree) : Prop := match o with Some t => P t | None => True end.

Section tree_ind.
Context (P : tree -> Prop) (Hleaf : forall v, P (Leaf v)) (Hext : forall k t, P t -> P (Ext k t))
  (Hbranch : forall ts, Forall (each P) ts -> P (Branch ts)).
Fixpoint tree_ind' (t : tree) : P t :=
  match t with
  | Leaf v => Hleaf v
  | Ext k t => Hext k t (tree_ind' t)
  | Branch ts =>
      Hbranch ts
        ((fix go (ts : list (option tree)) : Forall (each P) ts :=
            match ts with
            | [] => Forall_nil_2 _
            | o :: ts => Forall_cons_2 _ o ts match o return each P o with Some t => tree_ind' t | None => I end (go ts)
            end) ts)
  end.
End tree_ind.

Lemma each_lookup P ts i t : Forall (each P) ts -> ts !! i = Some (Some t) -> P t.
Proof. intros H Ht. by apply (Forall_lookup_1 _ _ _ _ H Ht). Qed.

(** The value for a key. *)
Fixpoint tget (t : tree) (k : bytes) : option bytes :=
  match t with
  | Leaf v => match k with [] => Some v | _ => None end
  | Ext p t => if bool_decide (take (length p) k = p) then tget t (drop (length p) k) else None
  | Branch ts =>
      match k with
      | [] => None
      | x :: k =>
          (fix go (ts : list (option tree)) (i : nat) : option bytes :=
             match ts, i with
             | Some t :: _, O => tget t k
             | _ :: ts, S i => go ts i
             | _, _ => None
             end) ts (Z.to_nat x)
      end
  end.
Definition oget (o : option tree) (k : bytes) : option bytes := o ≫= fun t => tget t k.
Definition child (ts : list (option tree)) (x : Z) : option tree := mjoin (ts !! Z.to_nat x).

(** Normal form, for keys of at most [L] digits: no empty or chained extensions, no branch
    with fewer than two children, values only at terminators. *)
Definition is_branch (t : tree) : Prop := match t with Branch _ => True | _ => False end.
Definition is_leaf (t : tree) : Prop := match t with Leaf _ => True | _ => False end.
Definition value_ok (v : bytes) : Prop := v <> [] /\ bytes_ok v /\ zlen v < 2 ^ 60.

Inductive canon : nat -> tree -> Prop :=
| canon_last L k v : hexkey k -> (length k <= L)%nat -> value_ok v -> canon L (Ext k (Leaf v))
| canon_ext L k t : k <> [] -> nibbles_ok k -> is_branch t -> canon L t -> canon (length k + L) (Ext k t)
| canon_branch L ts :
    length ts = 17%nat ->
    (forall i t, (i < 16)%nat -> ts !! i = Some (Some t) -> canon L t) ->
    (forall t, ts !! 16%nat = Some (Some t) -> exists v, t = Leaf v /\ value_ok v) ->
    (exists i j t u, i <> j /\ ts !! i = Some (Some t) /\ ts !! j = Some (Some u)) ->
    canon (S L) (Branch ts).

(** The empty trie has no tree. *)
Definition ocanon (L : nat) (o : option tree) : Prop := match o with Some t => canon L t | None => True end.

Lemma tget_branch ts x k : tget (Branch ts) (x :: k) = oget (child ts x) k.
Proof.
  cbn. unfold child. generalize (Z.to_nat x). induction ts as [|[t|] ts IH]; intros [|i]; try done; apply IH.
Qed.

Lemma canon_not_leaf L v : ~ canon L (Leaf v).
Proof. inversion 1. Qed.

Lemma canon_mono L L' t : canon L t -> (L <= L')%nat -> canon L' t.
Proof.
  intros H. revert L'. induction H as [L k v|L k t ? ? ? ? IH|L ts ? Hc IH]; intros L' Hl.
  - constructor; [done|lia|done].
  - replace L' with (length k + (L' - length k))%nat by lia. constructor; try done. apply IH. lia.
  - destruct L' as [|L']; [lia|]. constructor; try done. intros i t Hi Ht. eapply IH; [done..|lia].
Qed.

(** * Keys *)

Lemma hexkey_not_nil k : hexkey k -> k <> [].
Proof. intros (ks & -> & _) E. by apply app_nil in E as [_ ?]. Qed.
Lemma hexkey_cons x k : hexkey (x :: k) -> (x = 16 /\ k = []) \/ (is_nibble x /\ hexkey k).
Proof.
  intros ([|y ks] & E & Hk); injection E as -> ->; [by left|right]. apply Forall_cons in Hk as [? ?]. split; [done|]. by exists ks.
Qed.
Lemma hexkey_nibble x k : is_nibble x -> hexkey k -> hexkey (x :: k).
Proof. intros ? (ks & -> & ?). exists (x :: ks). split; [done|by constructor]. Qed.
Lemma hexkey_term : hexkey [16].
Proof. exists []. split; [done|constructor]. Qed.
Lemma hexkey_app p k : nibbles_ok p -> hexkey k -> hexkey (p ++ k).
Proof. intros Hp (ks & -> & Hk). exists (p ++ ks). rewrite app_assoc. split; [done|]. by apply Forall_app. Qed.
Lemma hexkey_drop p k : nibbles_ok p -> hexkey (p ++ k) -> hexkey k.
Proof.
  induction p as [|x p IH]; [done|]. intros [Hx Hp]%Forall_cons Hk. cbn in Hk. apply hexkey_cons in Hk as [[-> _]|[_ Hk]]; [unfold is_nibble in *; lia|auto].
Qed.
(** Whole keys are not prefixes of each other. *)
Lemma hexkey_prefix k l : hexkey k -> hexkey (k ++ l) -> l = [].
Proof.
  intros (ks & -> & Hk) H. rewrite <- app_assoc in H. apply (hexkey_drop ks) in H; [|done]. cbn in H.
  apply hexkey_cons in H as [[_ ?]|[[? ?] _]]; [done|lia].
Qed.

(** * Content *)

Lemma tget_ext_app p t k : tget (Ext p t) (p ++ k) = tget t k.
Proof. cbn. rewrite take_app_length, drop_app_length. by rewrite bool_decide_eq_true_2. Qed.
Lemma tget_ext_Some p t k v : tget (Ext p t) k = Some v -> exists k', k = p ++ k' /\ tget t k' = Some v.
Proof.
  cbn. case_bool_decide as E; [|done]. intros H. exists (drop (length p) k). split; [|done]. by rewrite <- E at 1; rewrite take_drop.
Qed.

(** Every tree in normal form holds a value. *)
Lemma canon_inhabited L t : canon L t -> exists k v, hexkey k /\ tget t k = Some v.
Proof.
  induction 1 as [L k v Hk|L k t ? Hk ? ? (k' & v & Hk' & Hv)|L ts Hl Hc IH Hlast (i & j & t & u & Hij & Ht & Hu)].
  - exists k, v. split; [done|]. rewrite <- (app_nil_r k) at 2. by rewrite tget_ext_app.
  - exists (k ++ k'), v. split; [by apply hexkey_app|by rewrite tget_ext_app].
  - pose proof (lookup_lt_Some _ _ _ Ht) as Hi. destruct (decide (i = 16)%nat) as [->|Hne].
    + destruct (Hlast _ Ht) as (v & -> & _). exists [16], v. split; [apply hexkey_term|]. rewrite tget_branch. unfold child.
      change (Z.to_nat 16) with 16%nat. by rewrite Ht.
    + destruct (IH i t ltac:(lia) Ht) as (k & v & Hk & Hv). exists (Z.of_nat i :: k), v.
      split; [apply hexkey_nibble; [unfold is_nibble; lia|done]|]. rewrite tget_branch. unfold child. by rewrite Nat2Z.id, Ht.
Qed.

Lemma branch_key L ts i t : canon L (Branch ts) -> ts !! i = Some (Some t) ->
  exists k v, hexkey (Z.of_nat i :: k) /\ tget (Branch ts) (Z.of_nat i :: k) = Some v.
Proof.
  intros Hc Ht. inversion Hc as [| |L' ? Hl Hch Hlast _]; subst. pose proof (lookup_lt_Some _ _ _ Ht).
  destruct (decide (i = 16)%nat) as [->|].
  - destruct (Hlast _ Ht) as (v & -> & _). exists [], v. split; [apply hexkey_term|]. rewrite tget_branch. unfold child.
    by rewrite Nat2Z.id, Ht.
  - destruct (canon_inhabited L' t) as (k & v & Hk & Hv); [apply (Hch i); [lia|done]|]. exists k, v.
    split; [apply hexkey_nibble; [unfold is_nibble; lia|done]|]. rewrite tget_branch. unfold child. by rewrite Nat2Z.id, Ht.
Qed.

(** A branch holds two keys that differ in the first digit. *)
Lemma branch_two L ts : canon L (Branch ts) -> exists x y k l v w,
  x <> y /\ hexkey (x :: k) /\ hexkey (y :: l) /\ tget (Branch ts) (x :: k) = Some v /\ tget (Branch ts) (y :: l) = Some w.
Proof.
  intros Hc. inversion Hc as [| |L' ? Hl Hch Hlast (i & j & t & u & Hij & Ht & Hu)]; subst.
  destruct (branch_key _ _ _ _ Hc Ht) as (k & v & ? & ?). destruct (branch_key _ _ _ _ Hc Hu) as (l & w & ? & ?).
  exists (Z.of_nat i), (Z.of_nat j), k, l, v, w. split_and!; try done. lia.
Qed.

(** * Uniqueness *)

(** A tree is a single value or a branch under a common prefix. *)
Definition glue (p : bytes) (ts : list (option tree)) : tree := match p with [] => Branch ts | _ => Ext p (Branch ts) end.

Lemma tget_glue p ts k : tget (glue p ts) (p ++ k) = tget (Branch ts) k.
Proof. destruct p; [done|]. apply tget_ext_app. Qed.
Lemma tget_glue_Some p ts k v : tget (glue p ts) k = Some v -> exists k', k = p ++ k' /\ tget (Branch ts) k' = Some v.
Proof. destruct p; [by exists k|]. apply tget_ext_Some. Qed.

Lemma canon_shape L t : canon L t ->
  (exists k v, t = Ext k (Leaf v) /\ hexkey k) \/ exists p ts L', t = glue p ts /\ nibbles_ok p /\ canon L' (Branch ts).
Proof.
  destruct 1 as [L k v Hk|L k t Hne Hk Ht Hc|L ts Hl Hc Hlast Htwo].
  - left. by exists k, v.
  - right. destruct t as [| |ts]; try done. exists k, ts, L. split_and!; try done. by destruct k.
  - right. exists [], ts, (S L). split_and!; [done|constructor|by constructor].
Qed.

Lemma single_key k v l w : tget (Ext k (Leaf v)) l = Some w -> l = k /\ w = v.
Proof. intros (l' & -> & H)%tget_ext_Some. destruct l'; [|done]. rewrite app_nil_r. by injection H as ->. Qed.

(** The prefix of a glued tree is a prefix of every common prefix of its keys. *)
Lemma glue_prefix p ts p' ts' L' : canon L' (Branch ts') -> nibbles_ok p' ->
  (forall k, hexkey k -> tget (glue p ts) k = tget (glue p' ts') k) -> p `prefix_of` p'.
Proof.
  intros Hc' Hp' Heq. destruct (branch_two _ _ Hc') as (x & y & k & l & v & w & Hxy & Hk & Hl & Hv & Hw).
  rewrite <- (tget_glue p'), <- Heq in Hv by by apply hexkey_app. rewrite <- (tget_glue p'), <- Heq in Hw by by apply hexkey_app.
  apply tget_glue_Some in Hv as (k' & Ek & _). apply tget_glue_Some in Hw as (l' & El & _).
  clear -Hxy Ek El. revert p' Ek El. induction p as [|a p IH]; intros [|b p'] Ek El; cbn in *; simplify_eq.
  - apply prefix_nil.
  - apply prefix_nil.
  - by apply prefix_cons, IH.
Qed.

Lemma children_unique L L' ts ts' :
  canon L (Branch ts) -> canon L' (Branch ts') ->
  Forall (each (fun t => forall L L' t', canon L t -> canon L' t' -> (forall k, hexkey k -> tget t k = tget t' k) -> t = t')) ts ->
  (forall k, hexkey k -> tget (Branch ts) k = tget (Branch ts') k) -> ts = ts'.
Proof.
  intros Hc Hc' IH Heq. pose proof (fun i t => branch_key _ _ i t Hc) as Hin. pose proof (fun i t => branch_key _ _ i t Hc') as Hin'.
  inversion Hc as [| |M ? Hl Hch Hlast _]; inversion Hc' as [| |M' ? Hl' Hch' Hlast' _]; subst.
  assert (forall i k, hexkey (Z.of_nat i :: k) -> oget (mjoin (ts !! i)) k = oget (mjoin (ts' !! i)) k) as Heq'.
  { intros i k Hk. specialize (Heq _ Hk). rewrite !tget_branch in Heq. unfold child in Heq. by rewrite Nat2Z.id in Heq. }
  apply list_eq_same_length with 17%nat; [done..|]. intros i o o' Hi Ho Ho'.
  assert (forall k, hexkey (Z.of_nat i :: k) -> oget o k = oget o' k) as Hoo by (intros k Hk; specialize (Heq' _ _ Hk); by rewrite Ho, Ho' in Heq').
  destruct o as [t|], o' as [t'|]; [|exfalso..|done].
  - f_equal. destruct (decide (i = 16)%nat) as [->|].
    + destruct (Hlast _ Ho) as (v & -> & _), (Hlast' _ Ho') as (v' & -> & _). specialize (Hoo [] hexkey_term). by injection Hoo as ->.
    + eapply (each_lookup _ _ _ _ IH Ho); [apply (Hch i); [lia|done]|apply (Hch' i); [lia|done]|]. intros k Hk. apply Hoo, hexkey_nibble; [unfold is_nibble; lia|done].
  - destruct (Hin _ _ Ho) as (k & v & Hk & Hv). rewrite tget_branch in Hv. unfold child in Hv. rewrite Nat2Z.id, Ho in Hv. cbn in Hv. specialize (Hoo k Hk). cbn in Hoo. congruence.
  - destruct (Hin' _ _ Ho') as (k & v & Hk & Hv). rewrite tget_branch in Hv. unfold child in Hv. rewrite Nat2Z.id, Ho' in Hv. cbn in Hv. specialize (Hoo k Hk). cbn in Hoo. congruence.
Qed.

(** Two keys of one tree and a tree of one key differ. *)
Lemma single_not_glue k v p ts L : canon L (Branch ts) -> nibbles_ok p ->
  ~ (forall l, hexkey l -> tget (Ext k (Leaf v)) l = tget (glue p ts) l).
Proof.
  intros Hc Hp Heq. destruct (branch_two _ _ Hc) as (x & y & a & b & w & w' & Hxy & Ha & Hb & Hv & Hw).
  rewrite <- (tget_glue p), <- Heq in Hv by by apply hexkey_app. rewrite <- (tget_glue p), <- Heq in Hw by by apply hexkey_app.
  apply single_key in Hv as [E1 _]. apply single_key in Hw as [E2 _]. rewrite <- E2 in E1. apply app_inv_head in E1. congruence.
Qed.

(** When branches are determined by their content, so are branches under a prefix. *)
Lemma glue_unique p ts L L' t' :
  (forall L' ts', canon L' (Branch ts') -> (forall k, hexkey k -> tget (Branch ts) k = tget (Branch ts') k) -> ts = ts') ->
  canon L (Branch ts) -> nibbles_ok p -> canon L' t' ->
  (forall k, hexkey k -> tget (glue p ts) k = tget t' k) -> glue p ts = t'.
Proof.
  intros Hb Hc Hp Hc' Heq. destruct (canon_shape _ _ Hc') as [(k & v & -> & Hk)|(p' & ts' & M' & -> & Hp' & Hts')].
  { exfalso. eapply (single_not_glue k v p ts L); [done..|]. intros l Hl. by rewrite Heq. }
  assert (p = p') as <-.
  { apply (anti_symm prefix); [by eapply glue_prefix|]. eapply glue_prefix; [exact Hc|done|]. intros k Hk. by rewrite Heq. }
  f_equal. eapply Hb; [done|]. intros k Hk. rewrite <- !(tget_glue p). apply Heq. by apply hexkey_app.
Qed.

Lemma canon_unique t : forall L L' t', canon L t -> canon L' t' -> (forall k, hexkey k -> tget t k = tget t' k) -> t = t'.
Proof.
  induction t as [v|k t IH|ts IH] using tree_ind'; intros L L' t' Hc Hc' Heq.
  - by apply canon_not_leaf in Hc.
  - destruct (canon_shape _ _ Hc) as [(k' & v & E & Hk)|(p & ts & M & E & Hp & Hts)].
    + injection E as <- ->. destruct (canon_shape _ _ Hc') as [(k' & v' & -> & Hk')|(p & ts & M & -> & Hp & Hts)].
      * assert (tget (Ext k (Leaf v)) k' = Some v') as [-> ->]%single_key; [|done].
        rewrite Heq by done. rewrite <- (app_nil_r k') at 2. apply tget_ext_app.
      * exfalso. by eapply (single_not_glue k v p ts).
    + rewrite E. destruct p as [|x p]; [done|]. injection E as -> ->. apply (glue_unique (x :: p) ts M L'); try done.
      intros M' ts' Hc1 Heq1. by injection (IH _ _ _ Hts Hc1 Heq1).
  - apply (glue_unique [] ts L L'); try done; [|constructor]. intros M ts' Hc1 Heq1. by eapply children_unique.
Qed.

(** * Building trees *)

(** A tree under a key, which may be empty. *)
Definition graft (k : bytes) (t : tree) : tree := match k with [] => t | _ => Ext k t end.

Lemma tget_graft k t l : tget (graft k t) (k ++ l) = tget t l.
Proof. destruct k; [done|]. apply tget_ext_app. Qed.
Lemma tget_graft_leaf k v : tget (graft k (Leaf v)) k = Some v.
Proof. rewrite <- (app_nil_r k) at 2. by rewrite tget_graft. Qed.
Lemma tget_graft_Some k t l v : tget (graft k t) l = Some v -> exists l', l = k ++ l' /\ tget t l' = Some v.
Proof. destruct k; [by exists l|]. apply tget_ext_Some. Qed.

Lemma tget_ext_None p t l : (forall l', l <> p ++ l') -> tget (Ext p t) l = None.
Proof. intros H. destruct (tget (Ext p t) l) as [v|] eqn:E; [|done]. apply tget_ext_Some in E as (l' & -> & _). by destruct (H l'). Qed.

(** What may stand at a digit of a branch. *)
Definition child_fit (L : nat) (x : Z) (t : tree) : Prop :=
  (x = 16 /\ exists v, t = Leaf v /\ value_ok v) \/ (is_nibble x /\ canon L t).

Lemma child_fit_digit L x t : child_fit L x t -> 0 <= x <= 16.
Proof. intros [[-> _]|[[? ?] _]]; lia. Qed.

Lemma tget_insert ts x o y l : length ts = 17%nat -> 0 <= x <= 16 -> 0 <= y ->
  tget (Branch (<[Z.to_nat x := o]> ts)) (y :: l) = if bool_decide (y = x) then oget o l else tget (Branch ts) (y :: l).
Proof.
  intros Hl Hx Hy. rewrite !tget_branch. unfold child. case_bool_decide as E.
  - subst. by rewrite list_lookup_insert_eq by lia.
  - by rewrite list_lookup_insert_ne by lia.
Qed.

Lemma canon_insert L ts x t : canon (S L) (Branch ts) -> child_fit L x t -> canon (S L) (Branch (<[Z.to_nat x := Some t]> ts)).
Proof.
  intros Hc Hx. pose proof (child_fit_digit _ _ _ Hx). inversion Hc as [| |? ? Hl Hch Hlast (i & j & a & b & Hij & Ha & Hb)]; subst. constructor.
  - by rewrite length_insert.
  - intros i' t' Hi' Ht'.
    apply list_lookup_insert_Some in Ht' as [(<- & [= <-] & _)|[_ Ht']]; [|eauto]. destruct Hx as [[-> _]|[_ ?]]; [lia|done].
  - intros t' Ht'. apply list_lookup_insert_Some in Ht' as [(E & [= <-] & _)|[_ Ht']]; [|eauto]. destruct Hx as [[-> Hv]|[[? ?] _]]; [done|lia].
  - assert (forall i a, ts !! i = Some (Some a) -> exists a', <[Z.to_nat x := Some t]> ts !! i = Some (Some a')) as Hin.
    { intros i' a' Ha'. destruct (decide (i' = Z.to_nat x)) as [->|]; [exists t; apply list_lookup_insert_eq; lia|exists a'; by rewrite list_lookup_insert_ne]. }
    destruct (Hin _ _ Ha) as [a' Ha'], (Hin _ _ Hb) as [b' Hb']. by exists i, j, a', b'.
Qed.

(** A branch of two. *)
Definition fork (x : Z) (a : tree) (y : Z) (b : tree) : list (option tree) :=
  <[Z.to_nat y := Some b]> (<[Z.to_nat x := Some a]> (replicate 17 None)).

Lemma fork_canon L x a y b : x <> y -> child_fit L x a -> child_fit L y b -> canon (S L) (Branch (fork x a y b)).
Proof.
  intros Hxy Ha Hb. pose proof (child_fit_digit _ _ _ Ha). pose proof (child_fit_digit _ _ _ Hb). unfold fork.
  assert (forall i t, fork x a y b !! i = Some (Some t) -> (i = Z.to_nat y /\ t = b) \/ (i = Z.to_nat x /\ t = a)) as Hin.
  { intros i t Ht. apply list_lookup_insert_Some in Ht as [(<- & [= <-] & _)|[_ Ht]]; [by left|].
    apply list_lookup_insert_Some in Ht as [(<- & [= <-] & _)|[_ Ht]]; [by right|]. by apply lookup_replicate in Ht as [? _]. }
  constructor.
  - by rewrite !length_insert, length_replicate.
  - intros i t Hi [[-> ->]|[-> ->]]%Hin; [destruct Hb as [[-> _]|[_ ?]]|destruct Ha as [[-> _]|[_ ?]]]; try done; lia.
  - intros t [[E ->]|[E ->]]%Hin; [destruct Hb as [[-> ?]|[[? ?] _]]|destruct Ha as [[-> ?]|[[? ?] _]]]; try done; lia.
  - exists (Z.to_nat y), (Z.to_nat x), b, a. split_and!; [lia|by rewrite list_lookup_insert_eq by (rewrite length_insert, length_replicate; lia)|].
    rewrite list_lookup_insert_ne by lia. rewrite list_lookup_insert_eq; [done|]. rewrite length_replicate. lia.
Qed.

Lemma tget_fork x a y b z l : x <> y -> 0 <= x <= 16 -> 0 <= y <= 16 -> 0 <= z ->
  tget (Branch (fork x a y b)) (z :: l) = if bool_decide (z = y) then tget b l else if bool_decide (z = x) then tget a l else None.
Proof.
  intros. unfold fork. rewrite !tget_insert by (rewrite ?length_insert, ?length_replicate; lia). case_bool_decide; [done|]. case_bool_decide; [done|].
  rewrite tget_branch. unfold child. destruct (replicate 17 None !! Z.to_nat z) as [o|] eqn:E; [|done]. by apply lookup_replicate in E as [-> _].
Qed.

Lemma canon_glue L p ts : nibbles_ok p -> canon L (Branch ts) -> canon (length p + L) (glue p ts).
Proof. intros. destruct p as [|x p]; [done|]. by constructor. Qed.

(** The subtree of an extension below a digit of its key. *)
Lemma ext_fit L c x p u : canon L (Ext (c ++ x :: p) u) -> child_fit (L - length c - 1) x (graft p u).
Proof.
  intros Hc. inversion Hc as [? ? v Hk Hkl Hv|M ? ? Hne Hk Hb Hcu|]; subst.
  - assert (nibbles_ok c /\ hexkey (x :: p)) as [Hcn Hk'].
    { clear -Hk. induction c as [|y c IH]; [by split; [constructor|]|]. cbn in Hk. apply hexkey_cons in Hk as [[_ E]|[? Hk]]; [by destruct c|].
      destruct (IH Hk). split; [by constructor|done]. }
    rewrite length_app in Hkl. cbn in Hkl. apply hexkey_cons in Hk' as [[-> ->]|[Hx Hk']].
    + left. split; [done|]. by exists v.
    + right. split; [done|]. pose proof (hexkey_not_nil _ Hk'). destruct p; [done|]. constructor; [done|lia|done].
  - apply Forall_app in Hk as [Hcn [Hx Hk]%Forall_cons]. right. split; [done|]. rewrite length_app. cbn [length].
    destruct p as [|y p]; cbn [graft].
    + eapply canon_mono; [done|]. cbn. lia.
    + replace (length c + S (length (y :: p)) + M - length c - 1)%nat with (length (y :: p) + M)%nat by lia. by constructor.
Qed.

(** Splitting an extension where a new key leaves it. *)
Lemma split_content L c x p u y k v :
  x <> y -> canon L (Ext (c ++ x :: p) u) -> hexkey (c ++ y :: k) -> (length (c ++ y :: k) <= L)%nat -> value_ok v -> nibbles_ok c ->
  let t' := glue c (fork x (graft p u) y (graft k (Leaf v))) in
  canon L t' /\ forall l, hexkey l -> tget t' l = if bool_decide (l = c ++ y :: k) then Some v else tget (Ext (c ++ x :: p) u) l.
Proof.
  intros Hxy Hc Hk Hkl Hv Hcn t'. pose proof (ext_fit _ _ _ _ _ Hc) as Hx. rewrite length_app in Hkl. cbn in Hkl.
  assert (child_fit (L - length c - 1) y (graft k (Leaf v))) as Hy.
  { apply hexkey_drop in Hk; [|done]. apply hexkey_cons in Hk as [[-> ->]|[Hy Hk]]; [left; split; [done|by exists v]|right; split; [done|]].
    pose proof (hexkey_not_nil _ Hk). destruct k; [done|]. constructor; [done|cbn in *; lia|done]. }
  pose proof (child_fit_digit _ _ _ Hx). pose proof (child_fit_digit _ _ _ Hy). split.
  - replace L with (length c + S (L - length c - 1))%nat by lia. apply canon_glue; [done|]. by apply fork_canon.
  - intros l Hl. destruct (decide (c `prefix_of` l)) as [[l' ->]|Hnp].
    + unfold t'. rewrite tget_glue. apply hexkey_drop in Hl; [|done]. destruct l' as [|z l']; [by apply hexkey_not_nil in Hl|].
      assert (0 <= z) by (apply hexkey_cons in Hl as [[-> _]|[[? ?] _]]; lia). rewrite tget_fork by (done || lia).
      assert (bool_decide (c ++ z :: l' = c ++ y :: k) = bool_decide (z = y) && bool_decide (l' = k)) as ->.
      { apply eq_true_iff_eq. rewrite andb_true_iff, !bool_decide_eq_true. split; [intros E%app_inv_head; by injection E|by intros [-> ->]]. }
      case_bool_decide as E1; cbn [andb].
      * subst z. case_bool_decide as E2; [subst l'; apply tget_graft_leaf|].
        rewrite tget_ext_None; [|intros l2; rewrite <- app_assoc; cbn; intros E%app_inv_head; congruence].
        destruct (tget (graft k (Leaf v)) l') eqn:E3; [|done]. apply tget_graft_Some in E3 as (l2 & -> & E3). destruct l2; [by rewrite app_nil_r in E2|done].
      * case_bool_decide as E2.
        -- subst z. destruct (decide (p `prefix_of` l')) as [[l2 ->]|Hn].
           ++ rewrite tget_graft. replace (c ++ x :: p ++ l2) with ((c ++ x :: p) ++ l2) by by rewrite <- app_assoc. by rewrite tget_ext_app.
           ++ rewrite tget_ext_None; [|intros l2; rewrite <- app_assoc; cbn; intros E%app_inv_head; injection E as ->; apply Hn; by eexists].
              destruct (tget (graft p u) l') eqn:E3; [|done]. apply tget_graft_Some in E3 as (l2 & -> & _). destruct Hn. by eexists.
        -- rewrite tget_ext_None; [done|]. intros l2. rewrite <- app_assoc. cbn. intros E%app_inv_head. congruence.
    + rewrite bool_decide_eq_false_2 by (intros ->; apply Hnp; by eexists).
      rewrite tget_ext_None by (intros l2; rewrite <- app_assoc; intros ->; apply Hnp; by eexists).
      destruct (tget t' l) eqn:E; [|done]. apply tget_glue_Some in E as (l' & -> & _). destruct Hnp. by eexists.
Qed.

(** * Shrinking trees *)

(** Joining the keys of two extensions. *)
Definition join (p : bytes) (t : tree) : tree := match t with Ext q u => Ext (p ++ q) u | _ => Ext p t end.

Lemma tget_join p t k : tget (join p t) k = tget (Ext p t) k.
Proof.
  destruct t as [v|q u|ts]; [done| |done]. cbn [join]. destruct (tget (Ext p (Ext q u)) k) as [v|] eqn:E.
  - apply tget_ext_Some in E as (k' & -> & E). apply tget_ext_Some in E as (k'' & -> & E). by rewrite app_assoc, tget_ext_app.
  - destruct (tget (Ext (p ++ q) u) k) as [v|] eqn:E2; [|done]. apply tget_ext_Some in E2 as (k' & -> & E2). by rewrite <- app_assoc, !tget_ext_app, E2 in E.
Qed.

Lemma canon_join L p t : p <> [] -> nibbles_ok p -> canon L t -> canon (length p + L) (join p t).
Proof.
  intros Hne Hp Hc. inversion Hc as [? q v Hq Hl Hv|M q u Hq Hqn Hb Hu|M ts Hl]; subst; cbn [join].
  - constructor; [by apply hexkey_app|rewrite length_app; lia|done].
  - rewrite Nat.add_assoc, <- length_app. constructor; [by destruct p|by apply Forall_app|done|done].
  - by constructor.
Qed.

(** A branch with one child left. *)
Lemma squash L ts j t : length ts = 17%nat -> ts !! j = Some (Some t) -> (forall i, i <> j -> mjoin (ts !! i) = None) -> child_fit L (Z.of_nat j) t ->
  canon (S L) (join [Z.of_nat j] t) /\ forall k, hexkey k -> tget (join [Z.of_nat j] t) k = tget (Branch ts) k.
Proof.
  intros Hl Hj Honly Hfit. split.
  - destruct Hfit as [[Ej (v & -> & Hv)]|[Hn Hc]].
    + rewrite Ej. constructor; [apply hexkey_term|cbn; lia|done].
    + change (S L) with (length [Z.of_nat j] + L)%nat. apply canon_join; [done|by constructor; [|constructor]|done].
  - intros [|x k] Hk; [by apply hexkey_not_nil in Hk|]. rewrite tget_join, tget_branch. unfold child. cbn [tget length take drop].
    assert (0 <= x) by (apply hexkey_cons in Hk as [[-> _]|[[? ?] _]]; lia). rewrite take_0, drop_0. case_bool_decide as E.
    + injection E as ->. by rewrite Nat2Z.id, Hj.
    + rewrite Honly; [done|]. intros E'. apply E. f_equal. lia.
Qed.

Record deleted (L : nat) (t : tree) (o : option tree) (k : bytes) : Prop := {
  de_canon : ocanon L o;
  de_get l : hexkey l -> oget o l = if bool_decide (l = k) then None else tget t l }.

Lemma deleted_none L t k : canon L t -> tget t k = None -> deleted L t (Some t) k.
Proof. intros Hc Hn. constructor; [done|]. intros l _. cbn. by case_bool_decide; subst. Qed.

(** Deleting one key of a branch leaves another. *)
Lemma branch_survives L M ts o k : canon L (Branch ts) -> deleted M (Branch ts) o k -> exists t, o = Some t.
Proof.
  intros Hc [_ Hd]. destruct o as [t|]; [by exists t|exfalso]. destruct (branch_two _ _ Hc) as (x & y & a & b & v & w & Hxy & Ha & Hb & Hv & Hw).
  pose proof (Hd _ Ha) as H1. pose proof (Hd _ Hb) as H2. cbn [oget mbind option_bind] in H1, H2. do 2 case_bool_decide; congruence.
Qed.

Lemma ext_deleted L p u o k : canon L (Ext p u) -> is_branch u -> hexkey (p ++ k) -> (forall M, canon M u -> L = (length p + M)%nat -> deleted M u o k) ->
  exists u', o = Some u' /\ deleted L (Ext p u) (Some (join p u')) (p ++ k).
Proof.
  intros Hc Hb Hk Hd. inversion Hc as [|M ? ? Hne Hp _ Hcu|]; subst; [done|]. specialize (Hd M Hcu eq_refl). destruct u as [| |ts]; try done.
  destruct (branch_survives _ _ _ _ _ Hcu Hd) as [u' ->]. destruct Hd as [Hd1 Hd2]. exists u'. split; [done|]. constructor; [by apply canon_join|].
  intros l Hl. cbn [oget mbind option_bind]. rewrite tget_join. destruct (decide (p `prefix_of` l)) as [[l' ->]|Hnp].
  - rewrite !tget_ext_app. assert (bool_decide (p ++ l' = p ++ k) = bool_decide (l' = k)) as -> by (apply bool_decide_ext; split; [apply app_inv_head|by intros ->]).
    apply Hd2. by eapply hexkey_drop.
  - rewrite bool_decide_eq_false_2 by (intros ->; apply Hnp; by eexists). rewrite !tget_ext_None; [done|intros l' ->; apply Hnp; by eexists..].
Qed.

(** The content of a branch with one child replaced. *)
Lemma branch_content ts x k o l : length ts = 17%nat -> hexkey (x :: k) -> hexkey l ->
  (forall l, hexkey (x :: l) -> oget o l = if bool_decide (l = k) then None else oget (child ts x) l) ->
  tget (Branch (<[Z.to_nat x := o]> ts)) l = if bool_decide (l = x :: k) then None else tget (Branch ts) l.
Proof.
  intros Hlen Hk Hl Ho. assert (0 <= x <= 16) by (apply hexkey_cons in Hk as [[-> _]|[[? ?] _]]; lia).
  destruct l as [|z l]; [by apply hexkey_not_nil in Hl|]. assert (0 <= z) by (apply hexkey_cons in Hl as [[-> _]|[[? ?] _]]; lia).
  rewrite tget_insert by (done || lia). case_bool_decide as E.
  - subst z. rewrite Ho, <- tget_branch by done. assert (bool_decide (x :: l = x :: k) = bool_decide (l = k)) as -> by (apply bool_decide_ext; split; [by intros [= ->]|by intros ->]). done.
  - by rewrite bool_decide_eq_false_2 by congruence.
Qed.
