(* ===== verification/TrieNode.v ===== *)
(** Nodes of the trie ([src/trie/node.go]): their types, the cached flags, and the decoder
    of stored nodes, which loads children lazily as hashes. *)

From stdpp Require Import base numbers list.
From S2P Require Import Prelude.
From S2P Require Import RlpEncode.
From S2P Require Import RlpRaw.
From S2P Require Import TrieEncoding.
Local Open Scope Z_scope.
Local Open Scope go_scope.

(** * Types *)

Record nodeFlag := MkFlag { fl_hash : option bytes; fl_gen : Z; fl_dirty : bool }.

(** A nil node is the absence of one. *)
Inductive node :=
| shortNode (key : bytes) (val : option node) (flags : nodeFlag)
| fullNode (children : list (option node)) (flags : nodeFlag)
| hashNode (h : bytes)
| valueNode (v : bytes).

Definition u16 (z : Z) : Z := z mod 2 ^ 16.

Definition flag_canUnload (f : nodeFlag) (cachegen cachelimit : Z) : bool :=
  negb (fl_dirty f) && (u16 (cachegen - fl_gen f) >=? cachelimit).
Definition canUnload (n : node) (gen limit : Z) : bool :=
  match n with
  | shortNode _ _ f | fullNode _ f => flag_canUnload f gen limit
  | hashNode _ | valueNode _ => false
  end.
Definition cache (n : node) : option bytes * bool :=
  match n with
  | shortNode _ _ f | fullNode _ f => (fl_hash f, fl_dirty f)
  | hashNode _ | valueNode _ => (None, true)
  end.

(** * Encoding: what the RLP encoder sees of a node *)

Fixpoint node_rval (n : node) : rval :=
  match n with
  | shortNode k v _ => RPtr (RStruct [RBytes k; RInterface match v with Some n => Some (node_rval n) | None => None end])
  | fullNode cs _ =>
      REncoder [RSlice false (map (fun o => RInterface match o with Some n => Some (node_rval n) | None => None end) cs)] false
  | hashNode h => RBytes h
  | valueNode v => RBytes v
  end.

(** * Decoding *)

Inductive node_error :=
| errEmptyNode
| errNotAList (e : rlp_error)
| errElements (n : Z)
| errKey (e : rlp_error)
| errValue (e : rlp_error)
| errRef (e : rlp_error)
| errOversized (size : Z)
| errStringSize (size : Z).

Definition map_err {E E' A} (g : E -> E') (m : outcome E A) : outcome E' A :=
  match m with Ok a => Ok a | Err e => Err (g e) | Panic => Panic | NoFuel => NoFuel end.

Definition hashLen : Z := 32.

Section decode.
Context (cachegen : Z).

Section refs.
Variable decodeNode : option bytes -> bytes -> outcome node_error node.

Definition decodeRef (buf : bytes) : outcome node_error (option node * bytes) :=
  let! (kind, val, rest) := map_err errRef (Split buf) in
  match kind with
  | KList =>
      let size := zlen buf - zlen rest in
      if size >? hashLen then Err (errOversized size)
      else let! n := decodeNode None buf in Ok (Some n, rest)
  | KString =>
      if zlen val =? 0 then Ok (None, rest)
      else if zlen val =? 32 then Ok (Some (hashNode val), rest)
      else Err (errStringSize (zlen val))
  | KByte => Err (errStringSize (zlen val))
  end.

Definition decodeShort (hash : option bytes) (elems : bytes) : outcome node_error node :=
  let! (kbuf, rest) := map_err errKey (SplitString elems) in
  let flag := MkFlag hash cachegen false in
  let! key := must (compactToHex kbuf) in
  if hasTerm key then
    let! (val, _) := map_err errValue (SplitString rest) in
    Ok (shortNode key (Some (valueNode val)) flag)
  else
    let! (r, _) := decodeRef rest in
    Ok (shortNode key r flag).

Fixpoint decodeRefs (n : nat) (elems : bytes) : outcome node_error (list (option node) * bytes) :=
  match n with
  | O => Ok ([], elems)
  | S n =>
      let! (cld, rest) := decodeRef elems in
      let! (clds, rest) := decodeRefs n rest in
      Ok (cld :: clds, rest)
  end.

Definition decodeFull (hash : option bytes) (elems : bytes) : outcome node_error node :=
  let! (children, elems) := decodeRefs 16 elems in
  let! (val, _) := map_err errValue (SplitString elems) in
  Ok (fullNode (children ++ [if zlen val >? 0 then Some (valueNode val) else None]) (MkFlag hash cachegen false)).
End refs.

(** [c, _ := rlp.CountValues(elems)]: the count is 0 when there is an error. *)
Fixpoint decodeNode (fuel : nat) (hash : option bytes) (buf : bytes) : outcome node_error node :=
  match fuel with
  | O => NoFuel
  | S fuel =>
      if zlen buf =? 0 then Err errEmptyNode
      else
        let! (elems, _) := map_err errNotAList (SplitList buf) in
        let! c := match CountValues elems with Ok c => Ok c | Err _ => Ok 0 | Panic => Panic | NoFuel => NoFuel end in
        if c =? 2 then decodeShort (decodeNode fuel) hash elems
        else if c =? 17 then decodeFull (decodeNode fuel) hash elems
        else Err (errElements c)
  end.

(** [mustDecodeNode] *)
Definition mustDecodeNode {E} (hash buf : bytes) : outcome E node :=
  match decodeNode (S (length buf)) (Some hash) buf with Ok n => Ok n | NoFuel => NoFuel | _ => Panic end.
End decode.

(** * Induction *)

Definition each_node (P : node -> Prop) (o : option node) : Prop := match o with Some n => P n | None => True end.

Section node_ind.
Context (P : node -> Prop)
  (Hshort : forall k v f, each_node P v -> P (shortNode k v f))
  (Hfull : forall cs f, Forall (each_node P) cs -> P (fullNode cs f))
  (Hhash : forall h, P (hashNode h)) (Hvalue : forall v, P (valueNode v)).
Fixpoint node_ind' (n : node) : P n :=
  match n with
  | shortNode k v f => Hshort k v f match v with Some n => node_ind' n | None => I end
  | fullNode cs f =>
      Hfull cs f
        ((fix go (cs : list (option node)) : Forall (each_node P) cs :=
            match cs with
            | [] => Forall_nil_2 _
            | o :: cs => Forall_cons_2 _ o cs match o return each_node P o with Some n => node_ind' n | None => I end (go cs)
            end) cs)
  | hashNode h => Hhash h
  | valueNode v => Hvalue v
  end.
End node_ind.
