(* ===== verification/TrieOps.v ===== *)
(** The trie ([src/trie/trie.go]): reading, inserting and deleting, with nodes loaded from
    the database as they are reached, and the wrapper that hashes keys
    ([src/trie/secure_trie.go]).

    The recursion follows the key, and a step that loads a node does not shorten it, so the
    functions take fuel; [keyFuel] is enough for tries in normal form (TrieRefine.v). *)

From stdpp Require Import base numbers list.
From S2P Require Import Prelude.
From S2P Require Import CommonMath.
From S2P Require Import TrieEncoding.
From S2P Require Import TrieNode.
Local Open Scope Z_scope.
Local Open Scope go_scope.

(** [MissingNodeError] *)
Record MissingNodeError := MkMissing { NodeHash : bytes; Path : bytes }.

(** * trie.go *)

Record Trie := MkTrie { t_root : option node; t_originalRoot : bytes; t_cachegen : Z; t_cachelimit : Z }.
Definition with_root (t : Trie) (n : option node) : Trie := MkTrie n (t_originalRoot t) (t_cachegen t) (t_cachelimit t).

(** [n.Children[i] = c] on a copy of the node; the array has 17 elements. *)
Definition setChild (cs : list (option node)) (i : Z) (c : option node) : option (list (option node)) := zset cs i c.

Section trie.
(** What the node database answers. *)
Context (db : bytes -> option bytes) (cachegen : Z).

Abbreviation Tm := (outcome MissingNodeError).

Definition newFlag : nodeFlag := MkFlag None cachegen true.

Definition resolveHash (n prefix : bytes) : Tm node :=
  let hash := BytesToHash n in
  match db hash with
  | None => Err (MkMissing hash prefix)
  | Some enc => mustDecodeNode cachegen n enc
  end.

Definition resolve (o : option node) (prefix : bytes) : Tm (option node) :=
  match o with
  | Some (hashNode h) => let! n := resolveHash h prefix in Ok (Some n)
  | _ => Ok o
  end.

Definition regen (f : nodeFlag) : nodeFlag := MkFlag (fl_hash f) cachegen (fl_dirty f).

Fixpoint tryGet (fuel : nat) (origNode : option node) (key : bytes) (pos : Z) : Tm (option bytes * option node * bool) :=
  match fuel with
  | O => NoFuel
  | S fuel =>
      match origNode with
      | None => Ok (None, None, false)
      | Some (valueNode v) => Ok (Some v, Some (valueNode v), false)
      | Some (shortNode nkey val flags) =>
          let n := Some (shortNode nkey val flags) in
          if zlen key - pos <? zlen nkey then Ok (None, n, false)
          else
            let! part := must (zslice key pos (pos + zlen nkey)) in
            if negb (bool_decide (nkey = part)) then Ok (None, n, false)
            else
              let! (value, newnode, didResolve) := tryGet fuel val key (pos + zlen nkey) in
              Ok (value, if (didResolve : bool) then Some (shortNode nkey newnode (regen flags)) else n, didResolve)
      | Some (fullNode cs flags) =>
          let! x := must (zget key pos) in
          let! c := must (zget cs x) in
          let! (value, newnode, didResolve) := tryGet fuel c key (pos + 1) in
          if (didResolve : bool) then
            let! cs := must (setChild cs x newnode) in
            Ok (value, Some (fullNode cs (regen flags)), didResolve)
          else Ok (value, Some (fullNode cs flags), didResolve)
      | Some (hashNode h) =>
          let! prefix := must (zslice key 0 pos) in
          let! child := resolveHash h prefix in
          let! (value, newnode, _) := tryGet fuel (Some child) key pos in
          Ok (value, newnode, true)
      end
  end.

(** [(dirty, node)]; a valueNode's bytes are compared when it replaces another. *)
Fixpoint insert (fuel : nat) (o : option node) (prefix key : bytes) (value : option node) : Tm (bool * option node) :=
  match fuel with
  | O => NoFuel
  | S fuel =>
      match key with
      | [] =>
          match o with
          | Some (valueNode v) =>
              match value with
              | Some (valueNode w) => Ok (negb (bool_decide (v = w)), value)
              | _ => Panic
              end
          | _ => Ok (true, value)
          end
      | key0 :: key1 =>
          match o with
          | Some (shortNode nkey val flags) =>
              let matchlen := prefixLen key nkey in
              if (matchlen =? length nkey)%nat then
                let! (dirty, nn) := insert fuel val (prefix ++ take matchlen key) (drop matchlen key) value in
                if negb dirty then Ok (false, o) else Ok (true, Some (shortNode nkey nn newFlag))
              else
                let branch := replicate 17 None in
                let! x := must (nkey !! matchlen) in
                let! (_, old) := insert fuel None (prefix ++ take (S matchlen) nkey) (drop (S matchlen) nkey) val in
                let! branch := must (setChild branch x old) in
                let! y := must (key !! matchlen) in
                let! (_, new) := insert fuel None (prefix ++ take (S matchlen) key) (drop (S matchlen) key) value in
                let! branch := must (setChild branch y new) in
                let branch := Some (fullNode branch newFlag) in
                if (matchlen =? 0)%nat then Ok (true, branch)
                else Ok (true, Some (shortNode (take matchlen key) branch newFlag))
          | Some (fullNode cs flags) =>
              let! c := must (zget cs key0) in
              let! (dirty, nn) := insert fuel c (prefix ++ [key0]) key1 value in
              if negb dirty then Ok (false, o)
              else
                let! cs := must (setChild cs key0 nn) in
                Ok (true, Some (fullNode cs newFlag))
          | None => Ok (true, Some (shortNode key value newFlag))
          | Some (hashNode h) =>
              let! rn := resolveHash h prefix in
              let! (dirty, nn) := insert fuel (Some rn) prefix key value in
              if negb dirty then Ok (false, Some rn) else Ok (true, nn)
          | Some (valueNode _) => Panic
          end
      end
  end.

(** The index of the only child, [-1] when there is none, [-2] when there are several. *)
Fixpoint onlyChild (cs : list (option node)) (i pos : Z) : Z :=
  match cs with
  | [] => pos
  | None :: cs => onlyChild cs (i + 1) pos
  | Some _ :: cs => if pos =? -1 then onlyChild cs (i + 1) i else -2
  end.

Fixpoint delete (fuel : nat) (o : option node) (prefix key : bytes) : Tm (bool * option node) :=
  match fuel with
  | O => NoFuel
  | S fuel =>
      match o with
      | Some (shortNode nkey val flags) =>
          let matchlen := prefixLen key nkey in
          if (matchlen <? length nkey)%nat then Ok (false, o)
          else if (matchlen =? length key)%nat then Ok (true, None)
          else
            let! (dirty, child) := delete fuel val (prefix ++ take (length nkey) key) (drop (length nkey) key) in
            if negb dirty then Ok (false, o)
            else
              match child with
              | Some (shortNode ckey cval _) => Ok (true, Some (shortNode (nkey ++ ckey) cval newFlag))
              | _ => Ok (true, Some (shortNode nkey child newFlag))
              end
      | Some (fullNode cs flags) =>
          let! key0 := must (zget key 0) in
          let! c := must (zget cs key0) in
          let! (dirty, nn) := delete fuel c (prefix ++ [key0]) (drop 1 key) in
          if negb dirty then Ok (false, o)
          else
            let! cs := must (setChild cs key0 nn) in
            let pos := onlyChild cs 0 (-1) in
            if pos >=? 0 then
              let! only := must (zget cs pos) in
              let! cnode := (if negb (pos =? 16) then resolve only prefix else Ok None) in
              match cnode with
              | Some (shortNode ckey cval _) => Ok (true, Some (shortNode (u8 pos :: ckey) cval newFlag))
              | _ => Ok (true, Some (shortNode [u8 pos] only newFlag))
              end
            else Ok (true, Some (fullNode cs newFlag))
      | Some (valueNode _) => Ok (true, None)
      | None => Ok (false, None)
      | Some (hashNode h) =>
          let! rn := resolveHash h prefix in
          let! (dirty, nn) := delete fuel (Some rn) prefix key in
          if negb dirty then Ok (false, Some rn) else Ok (true, nn)
      end
  end.
End trie.

Definition keyFuel (key : bytes) : nat := 2 * length key + 2.

Section api.
Context (db : bytes -> option bytes).

Definition TryGet (key : bytes) (t : Trie) : Trie * outcome MissingNodeError (option bytes) :=
  let key := keybytesToHex key in
  match tryGet db (t_cachegen t) (keyFuel key) (t_root t) key 0 with
  | Ok (value, newroot, didResolve) => (if (didResolve : bool) then with_root t newroot else t, Ok value)
  | Err e => (t, Err e)
  | Panic => (t, Panic)
  | NoFuel => (t, NoFuel)
  end.

Definition TryDelete (key : bytes) (t : Trie) : outcome MissingNodeError Trie :=
  let k := keybytesToHex key in
  let! (_, n) := delete db (t_cachegen t) (keyFuel k) (t_root t) [] k in
  Ok (with_root t n).

Definition TryUpdate (key value : bytes) (t : Trie) : outcome MissingNodeError Trie :=
  let k := keybytesToHex key in
  if negb (zlen value =? 0) then
    let! (_, n) := insert db (t_cachegen t) (keyFuel k) (t_root t) [] k (Some (valueNode value)) in
    Ok (with_root t n)
  else
    let! (_, n) := delete db (t_cachegen t) (keyFuel k) (t_root t) [] k in
    Ok (with_root t n).
End api.
