(* ===== verification/TrieStore.v ===== *)
(** Trees as the database stores them, and the nodes that represent a tree.

    [tenc] is the encoding of a tree with large subtrees replaced by their hashes.  A node
    in memory represents a tree ([repr]) when its loaded part has the tree's shape, its
    hash nodes stand for stored subtrees, and its cached hashes are right.  Decoding a
    stored encoding gives such a node. *)

From stdpp Require Import base numbers list.
From S2P Require Import Prelude.
From S2P Require Import CommonMath.
From S2P Require Import RlpEncode.
From S2P Require Import RlpRaw.
From S2P Require Import RlpStream.
From S2P Require Import RlpTyped.
From S2P Require Import TrieEncoding.
From S2P Require Import TrieTree.
From S2P Require Import TrieNode.
Local Open Scope Z_scope.
Local Open Scope go_scope.

Section store.
Context (hash : bytes -> bytes).

(** * Encodings *)

(** A subtree inside its parent: in full when short, otherwise its hash. *)
Definition ref_of (t : tree) (enc : bytes) : bytes :=
  match t with Leaf _ => enc | _ => if zlen enc <? 32 then enc else rlp_string (hash enc) end.

Fixpoint tenc (t : tree) : bytes :=
  match t with
  | Leaf v => rlp_string v
  | Ext k t => rlp_list (rlp_string (compact (hasTerm k) (cutTerm k)) ++ ref_of t (tenc t))
  | Branch ts => rlp_list (concat (map (fun o => match o with Some t => ref_of t (tenc t) | None => rlp_string [] end) ts))
  end.
Definition tref (o : option tree) : bytes := match o with Some t => ref_of t (tenc t) | None => rlp_string [] end.
Definition troot (t : tree) : bytes := hash (tenc t).

(** [db] holds every subtree of [t] that is stored by hash. *)
Definition holds (db : bytes -> option bytes) (t : tree) : Prop := db (troot t) = Some (tenc t).
Fixpoint stored (db : bytes -> option bytes) (t : tree) : Prop :=
  match t with
  | Leaf _ => True
  | Ext _ u => (32 <= zlen (tenc t) -> holds db t) /\ stored db u
  | Branch ts =>
      (32 <= zlen (tenc t) -> holds db t) /\
      (fix go ts := match ts with [] => True | Some u :: ts => stored db u /\ go ts | None :: ts => go ts end) ts
  end.

Lemma stored_child db ts i t : stored db (Branch ts) -> ts !! i = Some (Some t) -> stored db t.
Proof.
  intros [_ H]. revert i. induction ts as [|[u|] ts IH]; intros [|i] Hi; cbn in Hi; simplify_eq; try done.
  - apply H.
  - eapply IH; [apply H|done].
  - eapply IH; [apply H|done].
Qed.

Lemma stored_holds db t : stored db t -> ~ is_leaf t -> 32 <= zlen (tenc t) -> holds db t.
Proof. destruct t; [done| |]; intros [H _] _; exact H. Qed.

(** * Sizes *)

Context (hash_len : forall b, length (hash b) = 32%nat) (hash_ok : forall b, bytes_ok (hash b)).

(** What encodings are made of. *)
Definition enc_ok (b : bytes) : Prop := bytes_ok b /\ zlen b < 2 ^ 61.

Lemma enc_string b : bytes_ok b -> zlen b < 2 ^ 60 -> enc_ok (rlp_string b).
Proof. intros. split; [apply rlp_string_bytes; [done|lia]|]. pose proof (rlp_string_len b). lia. Qed.

Lemma subref_ok t : enc_ok (tenc t) -> bytes_ok (ref_of t (tenc t)) /\ (~ is_leaf t -> zlen (ref_of t (tenc t)) <= 41) /\ zlen (ref_of t (tenc t)) < 2 ^ 61.
Proof.
  intros [Hb Hl]. assert (zlen (hash (tenc t)) = 32) as E by (unfold zlen; by rewrite hash_len).
  assert (bytes_ok (rlp_string (hash (tenc t))) /\ zlen (rlp_string (hash (tenc t))) <= 41).
  { split; [apply rlp_string_bytes; [done|lia]|]. pose proof (rlp_string_len (hash (tenc t))). lia. }
  unfold ref_of. destruct t as [v|k t|ts]; [done|set (u := Ext k t) in *|set (u := Branch ts) in *]; destruct (Z.ltb_spec (zlen (tenc u)) 32); split_and!; try lia; tauto.
Qed.

Lemma compact_len term ks : zlen (compact term ks) <= zlen ks + 1.
Proof.
  unfold compact. assert (forall l, zlen (pack l) <= zlen l) as Hp.
  { induction l as [|x|x y l IH] using pairs_ind; [done|done|]. cbn [pack]. rewrite !zlen_cons. lia. }
  destruct (Nat.odd (length ks)); [destruct ks as [|k0 ks]; [done|]|]; rewrite ?zlen_cons; [pose proof (Hp ks)|pose proof (Hp ks)]; lia.
Qed.

Lemma hexpart_cut k : hexpart k -> nibbles_ok (cutTerm k) /\ zlen (cutTerm k) <= zlen k.
Proof.
  intros [Hk|(ks & -> & Hk)].
  - rewrite cutTerm_nibbles by done. split; [done|lia].
  - rewrite cutTerm_hexkey, zlen_app. split; [done|]. change (zlen [16]) with 1. lia.
Qed.

Lemma enc_ext k t : hexpart k -> zlen k < 2 ^ 58 -> enc_ok (tenc t) -> (forall v, t = Leaf v -> zlen v < 2 ^ 60) -> enc_ok (tenc (Ext k t)).
Proof.
  intros Hk Hkl Ht Hv. destruct (hexpart_cut k Hk) as [Hc Hcl]. pose proof (compact_len (hasTerm k) (cutTerm k)).
  assert (bytes_ok (rlp_string (compact (hasTerm k) (cutTerm k))) /\ zlen (rlp_string (compact (hasTerm k) (cutTerm k))) <= 2 ^ 58 + 10) as [H1 H2].
  { split; [apply rlp_string_bytes; [by apply compact_ok|lia]|]. pose proof (rlp_string_len (compact (hasTerm k) (cutTerm k))). lia. }
  destruct (subref_ok t Ht) as (H3 & H4 & H5).
  assert (zlen (ref_of t (tenc t)) <= 2 ^ 60 + 9) as H6.
  { destruct t as [v| |]; [|specialize (H4 (fun F => F)); lia..]. cbn. specialize (Hv v eq_refl). pose proof (rlp_string_len v). lia. }
  pose proof (rlp_list_len (rlp_string (compact (hasTerm k) (cutTerm k)) ++ ref_of t (tenc t))). rewrite zlen_app in *.
  split; [|cbn [tenc]; lia]. cbn [tenc]. apply rlp_list_bytes; [by apply bytes_ok_app|rewrite zlen_app; lia].
Qed.

(** A child of a branch in normal form. *)
Definition child_ok (i : nat) (o : option tree) : Prop :=
  match o with
  | None => True
  | Some t => enc_ok (tenc t) /\ if decide (i < 16)%nat then ~ is_leaf t else exists v, t = Leaf v /\ value_ok v
  end.

Lemma tref_ok i o : child_ok i o -> bytes_ok (tref o) /\ zlen (tref o) <= if decide (i < 16)%nat then 41 else 2 ^ 60 + 9.
Proof.
  destruct o as [t|]; cbn.
  - intros [Ht Hi]. destruct (subref_ok t Ht) as (H1 & H2 & H3). split; [done|]. destruct (decide _); [auto|].
    destruct Hi as (v & -> & _ & _ & Hv). cbn. pose proof (rlp_string_len v). lia.
  - intros _. split; [by apply (rlp_string_bytes []); [constructor|]|]. change (1 <= if decide (i < 16)%nat then 41 else 2 ^ 60 + 9). destruct (decide _); lia.
Qed.

Lemma tenc_branch ts : tenc (Branch ts) = rlp_list (concat (map tref ts)).
Proof. done. Qed.

Lemma refs_ok ts n : (forall i o, ts !! i = Some o -> child_ok (n + i) o) -> (n + length ts <= 17)%nat ->
  bytes_ok (concat (map tref ts)) /\ zlen (concat (map tref ts)) <= 41 * Z.of_nat (length ts) + 2 ^ 60.
Proof.
  revert n. induction ts as [|o ts IH]; intros n Hts Hn; [cbn; split; [apply Forall_nil_2|rewrite zlen_nil; lia]|]. cbn [map concat length].
  destruct (tref_ok n o) as [H1 H2]; [specialize (Hts 0%nat o eq_refl); by rewrite Nat.add_0_r in Hts|].
  destruct (IH (S n)) as [H3 H4]; [intros i o' Hi; specialize (Hts (S i) o' Hi); by rewrite Nat.add_succ_r in Hts|cbn in Hn; lia|].
  split; [by apply bytes_ok_app|]. rewrite zlen_app. revert H2. destruct (decide (n < 16)%nat); intros H2; [lia|].
  assert (ts = []) as -> by (destruct ts; [done|cbn in Hn; lia]). change (zlen (concat (map tref []))) with 0. lia.
Qed.

Lemma enc_branch ts : length ts = 17%nat -> (forall i o, ts !! i = Some o -> child_ok i o) -> enc_ok (tenc (Branch ts)).
Proof.
  intros Hl Hc. rewrite tenc_branch. destruct (refs_ok ts 0 Hc) as [H1 H2]; [lia|]. rewrite Hl in H2.
  pose proof (rlp_list_len (concat (map tref ts))). split; [apply rlp_list_bytes; [done|lia]|lia].
Qed.

Lemma canon_enc L t : canon L t -> (Z.of_nat L < 2 ^ 58) -> enc_ok (tenc t).
Proof.
  induction 1 as [L k v Hk Hkl Hv|L k t Hne Hk Hb Hc IH|L ts Hl Hc IH Hlast Htwo]; intros HL.
  - destruct Hv as (_ & Hv & Hvl). apply enc_ext; [by right|unfold zlen; lia|by apply enc_string|by intros ? [= <-]].
  - apply enc_ext; [by left|unfold zlen; lia|apply IH; lia|]. by destruct t.
  - apply enc_branch; [done|]. intros i o Hi. destruct o as [t|]; [|done]. pose proof (lookup_lt_Some _ _ _ Hi). cbn.
    destruct (decide (i < 16)%nat).
    + split; [apply (IH i); [done|done|lia]|]. intros Hlf. destruct t; [|done..]. by eapply canon_not_leaf, (Hc i).
    + assert (i = 16%nat) as -> by lia. destruct (Hlast _ Hi) as (v & -> & Hv). split; [|eauto]. apply enc_string; apply Hv.
Qed.

(** * Splitting encodings *)

Lemma Split_list p r : bytes_ok p -> bytes_ok r -> zlen p < 2 ^ 62 -> zlen r < 2 ^ 62 -> Split (rlp_list p ++ r) = Ok (KList, p, r).
Proof.
  intros Hp Hr Hpl Hrl. pose proof (rlp_list_len p Hpl). apply (Split_intro KList p r).
  - cbn. lia.
  - apply bytes_ok_app. split; [apply rlp_list_bytes; [done|lia]|done].
  - change (value_bytes KList p) with (rlp_list p). rewrite zlen_app. lia.
Qed.

Lemma Split_string c r : bytes_ok c -> bytes_ok r -> zlen c < 2 ^ 62 -> zlen r < 2 ^ 62 ->
  exists k, Split (rlp_string c ++ r) = Ok (k, c, r) /\ k <> KList /\ (zlen c <> 1 -> k = KString).
Proof.
  intros Hc Hr Hcl Hrl. destruct (rlp_string_value c Hc ltac:(lia)) as (k & E & Hk & Hcan & _). exists k. pose proof (rlp_string_len c Hcl) as Hl.
  rewrite E in *. split_and!; [|done|].
  - apply Split_intro; [done| |rewrite zlen_app; lia]. apply bytes_ok_app. split; [|done]. rewrite <- E. apply rlp_string_bytes; [done|lia].
  - intros Hn. destruct k; try done. destruct Hcan as (x & -> & _). by destruct Hn.
Qed.

(** An encoded value, of whatever kind. *)
Definition is_value (b : bytes) : Prop := exists k c, canonical k c /\ b = value_bytes k c.

Lemma string_value c : bytes_ok c -> zlen c < 2 ^ 62 -> is_value (rlp_string c).
Proof. intros Hc Hl. destruct (rlp_string_value c Hc ltac:(lia)) as (k & E & _ & Hcan & _). by exists k, c. Qed.

Lemma list_value p : zlen p < 2 ^ 62 -> is_value (rlp_list p).
Proof. intros Hl. exists KList, p. split; [cbn; lia|done]. Qed.

Lemma CountValues_values bs : Forall is_value bs -> bytes_ok (concat bs) -> zlen (concat bs) < 2 ^ 62 -> CountValues (concat bs) = Ok (zlen bs).
Proof.
  intros Hv Hok Hl.
  assert (exists vs, Forall (fun '(k, c) => canonical k c) vs /\ bs = (fun '(k, c) => value_bytes k c) <$> vs) as (vs & Hvs & ->).
  { clear -Hv. induction Hv as [|b bs (k & c & Hc & ->) _ (vs & Hvs & ->)]; [by exists []|]. exists ((k, c) :: vs). split; [by constructor|done]. }
  rewrite CountValues_intro by (done || lia). unfold zlen. by rewrite length_fmap.
Qed.

Lemma tenc_list t : ~ is_leaf t -> exists p, tenc t = rlp_list p /\ zlen p <= zlen (tenc t) /\ (bytes_ok (tenc t) -> bytes_ok p).
Proof.
  intros Ht. assert (exists p, tenc t = rlp_list p) as [p Ep] by (destruct t; [done|by eexists..]). exists p. rewrite Ep.
  split_and!; [done|apply zlen_rlp_list_ge|apply rlp_list_ok].
Qed.

Lemma ref_value t : enc_ok (tenc t) -> (forall v, t = Leaf v -> value_ok v) -> is_value (ref_of t (tenc t)).
Proof.
  intros [Hb Hl] Hv. assert (is_value (rlp_string (hash (tenc t)))) as Hh.
  { apply string_value; [done|]. unfold zlen. rewrite hash_len. lia. }
  unfold ref_of. destruct t as [v|k t|ts].
  - destruct (Hv v eq_refl) as (_ & ? & ?). apply string_value; [done|lia].
  - destruct (_ <? 32); [|done]. destruct (tenc_list (Ext k t)) as (p & E & Hp & _); [by intros []|]. rewrite E. apply list_value. lia.
  - destruct (_ <? 32); [|done]. destruct (tenc_list (Branch ts)) as (p & E & Hp & _); [by intros []|]. rewrite E. apply list_value. lia.
Qed.

Lemma tref_value i o : child_ok i o -> is_value (tref o).
Proof.
  destruct o as [t|]; cbn [child_ok tref]; [|intros; apply string_value; [apply Forall_nil_2|done]].
  intros [Ht Hi]. apply ref_value; [done|]. intros v ->. destruct (decide _); [by destruct Hi|]. by destruct Hi as (w & [= <-] & Hw).
Qed.

(** * Nodes that represent trees *)

Context (db : bytes -> option bytes).

Definition stored_root (t : tree) : Prop := holds db t /\ stored db t.

(** A subtree is stored by its hash when it is the root or long enough. *)
Definition hashed (root : bool) (t : tree) : Prop := root = true \/ 32 <= zlen (tenc t).

Definition flag_ok (root : bool) (fl : nodeFlag) (t : tree) : Prop :=
  (forall h, fl_hash fl = Some h -> h = troot t /\ hashed root t) /\
  (fl_dirty fl = false -> (hashed root t -> holds db t) /\ stored db t).

Inductive repr : bool -> node -> tree -> Prop :=
| repr_value root v : repr root (valueNode v) (Leaf v)
| repr_short root k n t fl : repr false n t -> flag_ok root fl (Ext k t) -> repr root (shortNode k (Some n) fl) (Ext k t)
| repr_full root cs ts fl :
    Forall2 (option_Forall2 (repr false)) cs ts -> flag_ok root fl (Branch ts) -> repr root (fullNode cs fl) (Branch ts)
| repr_hash root h t : ~ is_leaf t -> h = troot t -> hashed root t -> stored_root t -> repr root (hashNode h) t.

Definition orepr (root : bool) : option node -> option tree -> Prop := option_Forall2 (repr root).

(** ** Decoding *)

Lemma decodeRef_leafless dn t r :
  enc_ok (tenc t) -> ~ is_leaf t -> stored db t -> bytes_ok r -> zlen r < 2 ^ 61 ->
  (zlen (tenc t) < 32 -> exists n, dn None (tenc t ++ r) = Ok n /\ repr false n t) ->
  exists n, decodeRef dn (ref_of t (tenc t) ++ r) = Ok (Some n, r) /\ repr false n t.
Proof using hash_len hash_ok.
  intros [Hb Hl] Hnl Hst Hr Hrl Hdn. unfold ref_of, decodeRef.
  destruct (tenc_list t Hnl) as (p & Ep & Hpl & Hp). specialize (Hp Hb).
  destruct (Z.ltb_spec (zlen (tenc t)) 32) as [Hs|Hs].
  - destruct (Hdn Hs) as (n & Hd & Hn). exists n. split; [|done].
    replace (match t with Leaf _ => tenc t | _ => tenc t end) with (tenc t) by by destruct t.
    rewrite Ep, Split_list by (done || lia). cbn [map_err outcome_bind]. rewrite <- Ep, zlen_app.
    rewrite Z.gtb_ltb, (proj2 (Z.ltb_ge _ _)) by (unfold hashLen; lia). by rewrite Hd.
  - exists (hashNode (troot t)). assert (zlen (hash (tenc t)) = 32) as El by (unfold zlen; by rewrite hash_len).
    split; [|constructor; [done|done|by right|split; [by apply stored_holds|done]]].
    replace (match t with Leaf _ => tenc t | _ => rlp_string (hash (tenc t)) end) with (rlp_string (hash (tenc t))) by by destruct t.
    destruct (Split_string (hash (tenc t)) r) as (k & -> & _ & Hk); [done|done|lia|lia|]. rewrite Hk by lia. cbn [map_err outcome_bind].
    by rewrite El.
Qed.

Definition loaded (n : node) : Prop := match n with hashNode _ => False | _ => True end.

(** What decoding a tree's encoding gives, whatever follows it. *)
Definition decodes_to (gen : Z) (fuel : nat) (t : tree) : Prop := forall root hsh r,
  flag_ok root (MkFlag hsh gen false) t -> bytes_ok r -> zlen r < 2 ^ 61 ->
  exists n, decodeNode gen fuel hsh (tenc t ++ r) = Ok n /\ repr root n t /\ loaded n.

Lemma flag_embedded gen t : stored db t -> zlen (tenc t) < 32 -> flag_ok false (MkFlag None gen false) t.
Proof. intros Hs Hl. split; [done|]. intros _. split; [|done]. intros [?|?]; [done|lia]. Qed.

Lemma hexpart_parts k : hexpart k -> k = cutTerm k ++ (if hasTerm k then [16] else []).
Proof.
  intros [Hk|(ks & -> & Hk)]; [by rewrite cutTerm_nibbles, hasTerm_nibbles, app_nil_r|by rewrite cutTerm_hexkey, hasTerm_app].
Qed.

Lemma decodeRefs_ok dn ts r :
  (forall o, o ∈ ts -> match o with Some t => enc_ok (tenc t) /\ ~ is_leaf t /\ stored db t /\
     (zlen (tenc t) < 32 -> forall r, bytes_ok r -> zlen r < 2 ^ 61 -> exists n, dn None (tenc t ++ r) = Ok n /\ repr false n t) | None => True end) ->
  bytes_ok (concat (map tref ts) ++ r) -> zlen (concat (map tref ts) ++ r) < 2 ^ 61 ->
  exists cs, decodeRefs dn (length ts) (concat (map tref ts) ++ r) = Ok (cs, r) /\ Forall2 (option_Forall2 (repr false)) cs ts.
Proof using hash_len hash_ok.
  induction ts as [|o ts IH]; intros Hts Hb Hl; [by exists []|]. cbn [map concat length decodeRefs] in *. rewrite <- app_assoc in *.
  apply bytes_ok_app in Hb as [Hb0 Hb]. rewrite zlen_app in Hl. pose proof (zlen_nonneg (tref o)). set (r' := concat (map tref ts) ++ r) in *.
  destruct IH as (cs & Hcs & HF); [intros o' Ho'; apply Hts; by right|done|lia|].
  assert (exists c, decodeRef dn (tref o ++ r') = Ok (c, r') /\ option_Forall2 (repr false) c o) as (c & -> & Hc).
  { specialize (Hts o ltac:(by left)). destruct o as [t|].
    - destruct Hts as (He & Hnl & Hst & Hdn). destruct (decodeRef_leafless dn t r') as (n & Hd & Hn); [done|done|done|done|lia|eauto with lia|].
      exists (Some n). split; [done|by constructor].
    - exists None. split; [|constructor]. unfold decodeRef, tref.
      destruct (Split_string [] r') as (k & -> & _ & Hk); [apply Forall_nil_2|done|done|lia|]. by rewrite (Hk ltac:(done)). }
  cbn [outcome_bind]. rewrite Hcs. cbn [outcome_bind]. exists (c :: cs). split; [done|by constructor].
Qed.

Lemma decodeNode_list gen fuel hsh p r n : bytes_ok p -> bytes_ok r -> zlen p < 2 ^ 62 -> zlen r < 2 ^ 62 -> CountValues p = Ok n ->
  decodeNode gen (S fuel) hsh (rlp_list p ++ r) =
    if n =? 2 then decodeShort gen (decodeNode gen fuel) hsh p
    else if n =? 17 then decodeFull gen (decodeNode gen fuel) hsh p else Err (errElements n).
Proof.
  intros Hp Hr Hpl Hrl Hn. cbn [decodeNode]. pose proof (rlp_list_pos p). pose proof (zlen_nonneg r).
  rewrite zlen_app, (proj2 (Z.eqb_neq _ _)) by lia. unfold SplitList. rewrite Split_list by done. cbn [map_err outcome_bind]. by rewrite Hn.
Qed.

Lemma ext_payload k t : hexpart k -> zlen k < 2 ^ 58 -> enc_ok (tenc t) -> enc_ok (tenc (Ext k t)) -> (forall v, t = Leaf v -> value_ok v) ->
  let c := compact (hasTerm k) (cutTerm k) in
  let p := rlp_string c ++ ref_of t (tenc t) in
  tenc (Ext k t) = rlp_list p /\ bytes_ok c /\ zlen c < 2 ^ 60 /\ bytes_ok (ref_of t (tenc t)) /\ bytes_ok p /\ zlen p < 2 ^ 61 /\
  compactToHex c = Some k /\ CountValues p = Ok 2.
Proof using hash_len hash_ok.
  intros Hk Hkl Ht [He Hel] Hv c p. destruct (hexpart_cut k Hk) as [Hcut Hcutl]. pose proof (compact_len (hasTerm k) (cutTerm k)) as Hcl. fold c in Hcl.
  assert (bytes_ok c) as Hc by by apply compact_ok. destruct (subref_ok t Ht) as (Hr & _ & _).
  assert (tenc (Ext k t) = rlp_list p) as E by done. rewrite E in *. apply rlp_list_ok in He. pose proof (zlen_rlp_list_ge p).
  split_and!; try done; try lia.
  - subst c. rewrite compactToHex_eq by done. by rewrite <- hexpart_parts.
  - subst p. replace (rlp_string c ++ ref_of t (tenc t)) with (concat [rlp_string c; ref_of t (tenc t)]) in * by (cbn; by rewrite app_nil_r).
    apply (CountValues_values [_; _]); [|done|lia]. constructor; [apply string_value; [done|lia]|]. constructor; [by apply ref_value|constructor].
Qed.

Lemma decode_last gen fuel k v : hexkey k -> zlen k < 2 ^ 58 -> value_ok v -> decodes_to gen (S fuel) (Ext k (Leaf v)).
Proof using hash_len hash_ok.
  intros Hk Hkl Hv root hsh r Hh Hr Hrl. pose proof Hv as (_ & Hvb & Hvl).
  assert (enc_ok (tenc (Leaf v))) as Hlv by by apply enc_string.
  assert (enc_ok (tenc (Ext k (Leaf v)))) as He by (apply enc_ext; [by right|done|done|by intros ? [= <-]]).
  destruct (ext_payload k (Leaf v)) as (-> & Hc & Hcl & Hrf & Hp & Hpl & Hcx & Hcount); try done; [by right|by intros ? [= <-]|].
  set (c := compact _ _) in *. set (p := rlp_string c ++ _) in *. rewrite (decodeNode_list gen fuel hsh p r 2) by (done || lia). cbn [Z.eqb Pos.eqb].
  unfold decodeShort, SplitString. subst p. cbn [ref_of tenc] in *. pose proof (rlp_string_len v).
  destruct (Split_string c (rlp_string v)) as (kd & -> & Hkd & _); [done|done|lia|lia|]. cbn [outcome_bind map_err].
  destruct kd; [|cbn [map_err outcome_bind]; rewrite Hcx|done]; cbn [map_err outcome_bind]; rewrite ?Hcx; cbn [must outcome_bind];
    (assert (hasTerm k = true) as -> by (destruct Hk as (ks & -> & _); apply hasTerm_app));
    (destruct (Split_string v []) as (kd & Hsp & Hkd' & _); [done|apply Forall_nil_2|lia|done|]); rewrite app_nil_r in Hsp; rewrite Hsp;
    (exists (shortNode k (Some (valueNode v)) (MkFlag hsh gen false)); split; [by destruct kd|]; split; [constructor; [constructor|done]|done]).
Qed.

Lemma decode_ext gen fuel k t : k <> [] -> nibbles_ok k -> zlen k < 2 ^ 58 -> ~ is_leaf t -> enc_ok (tenc t) -> stored db t ->
  (zlen (tenc t) < 32 -> decodes_to gen fuel t) -> decodes_to gen (S fuel) (Ext k t).
Proof using hash_len hash_ok.
  intros Hne Hk Hkl Hnl Ht Hst IH root hsh r Hh Hr Hrl.
  assert (enc_ok (tenc (Ext k t))) as He by (apply enc_ext; [by left|done|done|by destruct t]).
  destruct (ext_payload k t) as (-> & Hc & Hcl & Hrf & Hp & Hpl & Hcx & Hcount); try done; [by left|by destruct t|].
  set (c := compact _ _) in *. set (p := rlp_string c ++ _) in *. rewrite (decodeNode_list gen fuel hsh p r 2) by (done || lia). cbn [Z.eqb Pos.eqb].
  unfold decodeShort, SplitString. subst p. rewrite zlen_app in Hpl. pose proof (zlen_nonneg (rlp_string c)).
  destruct (Split_string c (ref_of t (tenc t))) as (kd & -> & Hkd & _); [done|done|lia|lia|]. cbn [outcome_bind map_err].
  destruct (decodeRef_leafless (decodeNode gen fuel) t []) as (n & Hd & Hn); [done|done|done|apply Forall_nil_2|done| |].
  { intros Hs. destruct (IH Hs false None []) as (n & ? & ? & _); [by apply flag_embedded|apply Forall_nil_2|done|]. by exists n. }
  rewrite app_nil_r in Hd.
  exists (shortNode k (Some n) (MkFlag hsh gen false)). split; [|by split; [constructor; [done|done]|]].
  destruct kd; try done; cbn [map_err outcome_bind]; rewrite Hcx; cbn [must outcome_bind]; rewrite hasTerm_nibbles by done; by rewrite Hd.
Qed.

Lemma branch_payload ts : length ts = 17%nat -> (forall i o, ts !! i = Some o -> child_ok i o) ->
  bytes_ok (concat (map tref ts)) /\ zlen (concat (map tref ts)) < 2 ^ 61 /\ CountValues (concat (map tref ts)) = Ok 17.
Proof using hash_len hash_ok.
  intros Hl Hc. destruct (enc_branch ts Hl Hc) as [He Hel]. rewrite tenc_branch in *. apply rlp_list_ok in He. pose proof (zlen_rlp_list_ge (concat (map tref ts))).
  split_and!; [done|lia|]. rewrite CountValues_values; [|apply Forall_lookup_2|done|lia].
  - unfold zlen. by rewrite length_map, Hl.
  - intros i x Hx. rewrite list_lookup_fmap in Hx. destruct (ts !! i) as [o|] eqn:E; [|done]. injection Hx as <-. eapply tref_value; eauto.
Qed.

Lemma decode_branch gen fuel ts : length ts = 17%nat -> (forall i o, ts !! i = Some o -> child_ok i o) -> stored db (Branch ts) ->
  (forall i t, (i < 16)%nat -> ts !! i = Some (Some t) -> zlen (tenc t) < 32 -> decodes_to gen fuel t) -> decodes_to gen (S fuel) (Branch ts).
Proof using hash_len hash_ok.
  intros Hl Hc Hst IH root hsh r Hh Hr Hrl. destruct (branch_payload ts Hl Hc) as (Hp & Hpl & Hcount). rewrite tenc_branch.
  rewrite (decodeNode_list gen fuel hsh _ r 17) by (done || lia). change (17 =? 2) with false. change (17 =? 17) with true. cbv iota. unfold decodeFull.
  destruct (lookup_lt_is_Some_2 ts 16) as [o Ho]; [lia|].
  assert (ts = take 16 ts ++ [o]) as Ets.
  { rewrite <- (take_drop 16 ts) at 1. f_equal. rewrite (drop_S _ o) by done. by rewrite drop_ge by lia. }
  assert (concat (map tref ts) = concat (map tref (take 16 ts)) ++ tref o) as Ec.
  { rewrite Ets at 1. rewrite map_app, concat_app. cbn. by rewrite app_nil_r. }
  rewrite Ec in Hp, Hpl |- *. pose proof Hp as [_ Hpo]%bytes_ok_app.
  destruct (decodeRefs_ok (decodeNode gen fuel) (take 16 ts) (tref o)) as (cs & Hd & Hcs); [|done|done|].
  { intros o' (i & Hi)%list_elem_of_lookup. apply lookup_take_Some in Hi as [Hi Hi16]. destruct o' as [t|]; [|done].
    pose proof (Hc i _ Hi) as [He Hnl]. destruct (decide (i < 16)%nat); [|lia]. split_and!; [done|done|by eapply stored_child|].
    intros Hs r0 Hr0 Hrl0. destruct (IH i t Hi16 Hi Hs false None r0) as (n & ? & ? & _); [apply flag_embedded; [by eapply stored_child|done]|done..|]. by exists n. }
  rewrite length_take, Hl in Hd. change (16 `min` 17)%nat with 16%nat in Hd. rewrite Hd. cbn [outcome_bind].
  assert (exists v, tref o = rlp_string v /\ bytes_ok v /\ zlen v < 2 ^ 60 /\ option_Forall2 (repr false) (if zlen v >? 0 then Some (valueNode v) else None) o) as (v & Eo & Hvb & Hvl & Hrep).
  { specialize (Hc 16%nat o Ho). destruct o as [t|]; [|exists []; split_and!; [done|apply Forall_nil_2|done|constructor]].
    destruct Hc as [_ Hlf]. destruct (decide (16 < 16)%nat); [lia|]. destruct Hlf as (v & -> & Hne & Hvb & Hvl). exists v. split_and!; try done.
    destruct v; [done|]. rewrite zlen_cons, Z.gtb_ltb, (proj2 (Z.ltb_lt _ _)) by (pose proof (zlen_nonneg v); lia). repeat constructor. }
  unfold SplitString. rewrite Eo. destruct (Split_string v []) as (kd & Hsp & Hkd & _); [done|apply Forall_nil_2|lia|done|].
  rewrite app_nil_r in Hsp. rewrite Hsp. eexists. split; [by destruct kd|]. split; [|done]. constructor; [|done].
  rewrite Ets. apply Forall2_app; [done|]. by constructor.
Qed.

(** A child's encoding is shorter than the encoding it is embedded in. *)
Lemma embedded_ext k t : ~ is_leaf t -> zlen (tenc t) < 32 -> (length (tenc t) < length (tenc (Ext k t)))%nat.
Proof.
  intros Hnl Hs. cbn [tenc]. unfold rlp_list, ref_of. rewrite (proj2 (Z.ltb_lt _ _)) by done.
  replace (match t with Leaf _ => tenc t | _ => tenc t end) with (tenc t) by by destruct t. rewrite !length_app.
  pose proof (rlp_string_pos (compact (hasTerm k) (cutTerm k))). unfold zlen in *. lia.
Qed.
Lemma embedded_branch ts i t : ts !! i = Some (Some t) -> ~ is_leaf t -> zlen (tenc t) < 32 -> (length (tenc t) < length (tenc (Branch ts)))%nat.
Proof.
  intros Hi Hnl Hs. rewrite tenc_branch. unfold rlp_list. rewrite length_app. pose proof (rlp_head_pos 0xC0 0xF7 (zlen (concat (map tref ts)))).
  assert (length (tenc t) <= length (concat (map tref ts)))%nat; [|unfold zlen in *; lia].
  rewrite <- (take_drop_middle ts i _ Hi), map_app, concat_app. cbn [map concat]. rewrite !length_app. cbn [tref]. unfold ref_of. rewrite (proj2 (Z.ltb_lt _ _)) by done.
  replace (match t with Leaf _ => tenc t | _ => tenc t end) with (tenc t) by by destruct t. lia.
Qed.

Lemma canon_children L ts : canon L (Branch ts) -> Z.of_nat L < 2 ^ 58 -> forall i o, ts !! i = Some o -> child_ok i o.
Proof using hash_len hash_ok.
  intros Hc HL i o Hi. destruct o as [t|]; [|done]. inversion Hc as [| |M ? Hl Hch Hlast _]; subst. pose proof (lookup_lt_Some _ _ _ Hi). cbn.
  destruct (decide (i < 16)%nat).
  - split; [eapply canon_enc; [by apply (Hch i)|lia]|]. intros Hlf. destruct t; [|done..]. by eapply canon_not_leaf, (Hch i).
  - assert (i = 16%nat) as -> by lia. destruct (Hlast _ Hi) as (v & -> & Hv). split; [|eauto]. apply enc_string; apply Hv.
Qed.

Lemma canon_not_is_leaf L t : canon L t -> ~ is_leaf t.
Proof. intros Hc Hl. destruct t; [|done..]. by eapply canon_not_leaf. Qed.

(** Decoding the stored encoding of a tree in normal form. *)
Lemma decode_canon gen t : forall L fuel, canon L t -> Z.of_nat L < 2 ^ 58 -> stored db t -> (length (tenc t) < fuel)%nat -> decodes_to gen fuel t.
Proof using hash_len hash_ok.
  induction t as [v|k t IH|ts IH] using tree_ind'; intros L [|fuel] Hc HL Hst Hf; try lia.
  - by apply canon_not_leaf in Hc.
  - inversion Hc as [? ? v Hk Hkl Hv|M ? ? Hne Hk Hb Hct|]; subst.
    + apply decode_last; [done|unfold zlen; lia|done].
    + pose proof (canon_not_is_leaf _ _ Hct). apply decode_ext; [done|done|unfold zlen; lia|done|eapply canon_enc; [done|lia]|apply Hst|].
      intros Hs. pose proof (embedded_ext k t H Hs). eapply IH; [done|lia|apply Hst|lia].
  - pose proof (canon_children _ _ Hc HL) as Hch. inversion Hc as [| |M ? Hl Hcc _ _]; subst. apply decode_branch; [done|done|done|].
    intros i t Hi Ht Hs. pose proof (canon_not_is_leaf _ _ (Hcc _ _ Hi Ht)) as Hnl. pose proof (embedded_branch ts i t Ht Hnl Hs).
    eapply (each_lookup _ _ _ _ IH Ht); [by apply (Hcc i)|lia|by eapply stored_child|lia].
Qed.
End store.
