(* ===== verification/TrieRefine.v ===== *)
(** The trie implements a map: reading, inserting and deleting on nodes, partly loaded and
    with cached hashes, do to the represented tree what the map operations do, keep it in
    normal form, and return within the fuel given. *)

From stdpp Require Import base numbers list.
From S2P Require Import Prelude.
From S2P Require Import CommonMath.
From S2P Require Import TrieEncoding.
From S2P Require Import TrieTree.
From S2P Require Import TrieNode.
From S2P Require Import TrieOps.
From S2P Require Import TrieStore.
Local Open Scope Z_scope.
Local Open Scope go_scope.

Section refine.
Context (hash : bytes -> bytes) (hash_len : forall b, length (hash b) = 32%nat) (hash_ok : forall b, bytes_ok (hash b)).
Context (db : bytes -> option bytes) (gen : Z).
(** A bound on the number of digits of keys. *)
Context (B : nat) (HB : Z.of_nat B < 2 ^ 58).
Abbreviation repr := (repr hash db).
Abbreviation orepr := (orepr hash db).
Abbreviation flag_ok := (flag_ok hash db).

(** * Loading *)

Lemma resolveHash_ok root h t L pre : repr root (hashNode h) t -> canon L t -> (L <= B)%nat ->
  exists n, resolveHash db gen h pre = Ok n /\ repr root n t /\ loaded n.
Proof using hash_len hash_ok HB.
  intros Hr Hc HL. inversion Hr as [| | |? ? ? Hnl E Hh [Hho Hst]]; subst. unfold resolveHash.
  rewrite BytesToHash_id by apply hash_len. unfold holds in Hho. rewrite Hho. unfold mustDecodeNode.
  destruct (decode_canon hash hash_len hash_ok db gen t L (S (length (tenc hash t))) Hc ltac:(lia) Hst ltac:(lia) root (Some (troot hash t)) [])
    as (n & Hd & Hn & Hl); [|apply Forall_nil_2|done|].
  - split; [by intros ? [= <-]|done].
  - rewrite app_nil_r in Hd. exists n. by rewrite Hd.
Qed.

(** * Reading *)

(** One more step when the node has to be loaded. *)
Definition wait (n : node) : nat := match n with hashNode _ => 1 | _ => 0 end.
Lemma wait_le n : (wait n <= 1)%nat.
Proof using. clear. destruct n; cbn; lia. Qed.

Lemma flag_regen root fl t : flag_ok root fl t -> flag_ok root (regen gen fl) t.
Proof. done. Qed.

(** The key that is left at a subtree: a whole key, or none at a leaf. *)
Definition fits (t : tree) (k : bytes) : Prop := (exists L, canon L t /\ (L <= B)%nat /\ hexkey k) \/ (is_leaf t /\ k = []).

Lemma zslice_prefix_app (pre k p : bytes) : zslice (pre ++ k) (zlen pre) (zlen pre + zlen p) = Some (take (length p) k) \/ zlen k < zlen p.
Proof.
  destruct (Z.lt_ge_cases (zlen k) (zlen p)) as [|H]; [by right|left]. pose proof (zlen_nonneg pre). pose proof (zlen_nonneg p).
  rewrite zslice_some by (rewrite ?zlen_app; lia). replace (zlen pre + zlen p - zlen pre) with (zlen p) by lia. unfold zlen.
  by rewrite !Nat2Z.id, drop_app_length.
Qed.

Lemma zget_app (pre k : bytes) : zget (pre ++ k) (zlen pre) = k !! 0%nat.
Proof.
  unfold zget. rewrite (proj2 (Z.leb_le _ _)) by apply zlen_nonneg. unfold zlen. rewrite Nat2Z.id, lookup_app_r by lia. by rewrite Nat.sub_diag.
Qed.

(** Below an extension whose key is a prefix. *)
Lemma fits_ext p u k : fits (Ext p u) (p ++ k) -> fits u k /\ p <> [].
Proof.
  intros [(L & Hc & HL & Hk)|[? _]]; [|done]. inversion Hc as [? ? v Hp|M ? ? Hne Hp Hb Hcu|]; subst.
  - apply hexkey_prefix in Hk; [|done]. subst. split; [right; done|by apply hexkey_not_nil].
  - split; [|done]. left. exists M. split_and!; [done|lia|by eapply hexkey_drop].
Qed.

Lemma fits_branch ts x k t : fits (Branch ts) (x :: k) -> child ts x = Some t -> fits t k.
Proof.
  intros [(L & Hc & HL & Hk)|[? _]]; [|done]. inversion Hc as [| |M ? Hl Hch Hlast _]; subst. unfold child.
  destruct (ts !! Z.to_nat x) as [o|] eqn:Ho; [|done]. intros [= ->]. apply hexkey_cons in Hk as [[-> ->]|[[? ?] Hk]].
  - right. by destruct (Hlast _ Ho) as (v & -> & _).
  - left. exists M. split_and!; [eapply (Hch (Z.to_nat x)); [lia|done]|lia|done].
Qed.

(** The child at a digit, in the node and in the tree. *)
Lemma child_nodes root cs ts fl L x k : repr root (fullNode cs fl) (Branch ts) -> canon L (Branch ts) -> hexkey (x :: k) ->
  exists c, zget cs x = Some c /\ orepr false c (child ts x) /\ 0 <= x < zlen cs /\ zlen cs = 17.
Proof.
  intros Hr Hc Hk. inversion Hr as [| |? ? ? ? HF|]; subst. inversion Hc as [| |M ? Hl _ _ _]; subst. pose proof (Forall2_length _ _ _ HF) as Hlen.
  assert (0 <= x <= 16) as Hx by (apply hexkey_cons in Hk as [[-> _]|[[? ?] _]]; lia).
  destruct (lookup_lt_is_Some_2 cs (Z.to_nat x)) as [c Hcx]; [lia|]. exists c. unfold zget. rewrite (proj2 (Z.leb_le _ _)) by lia.
  split; [done|]. destruct (Forall2_lookup_l _ _ _ _ _ HF Hcx) as (o & Ho & Hco). unfold child. rewrite Ho. split; [done|]. unfold zlen. lia.
Qed.

(** Replacing the child at a digit. *)
Lemma setChild_ok cs ts x c o : Forall2 (option_Forall2 (repr false)) cs ts -> 0 <= x < zlen cs -> orepr false c o ->
  exists cs', setChild cs x c = Some cs' /\ cs' = <[Z.to_nat x := c]> cs /\ Forall2 (option_Forall2 (repr false)) cs' (<[Z.to_nat x := o]> ts).
Proof.
  intros HF Hx Hc. unfold setChild, zset. zb. eexists. split; [done|]. split; [done|]. by apply Forall2_insert.
Qed.

Lemma insert_child ts x : <[Z.to_nat x := child ts x]> ts = ts.
Proof.
  unfold child. destruct (ts !! Z.to_nat x) as [o|] eqn:E; cbn; [by rewrite list_insert_id|]. apply list_insert_ge. by apply lookup_ge_None.
Qed.

Lemma tryGet_ok fuel : forall root n t k pre, repr root n t -> fits t k -> (2 * length k + wait n < fuel)%nat ->
  exists n' r, tryGet db gen fuel (Some n) (pre ++ k) (zlen pre) = Ok (tget t k, Some n', r) /\ repr root n' t.
Proof using hash_len hash_ok HB.
  induction fuel as [|fuel IH]; intros root n t k pre Hr Hf Hfu; [lia|]. cbn [tryGet].
  inversion Hr as [? v|? p u t' fl Hu Hfl|? cs ts fl HF Hfl|? h ? Hnl E Hh Hs]; subst.
  - destruct Hf as [(? & []%canon_not_leaf & _)|[_ ->]]. exists (valueNode v), false. by split.
  - rewrite zlen_app. replace (zlen pre + zlen k - zlen pre) with (zlen k) by lia.
    destruct (Z.ltb_spec (zlen k) (zlen p)) as [Hlt|Hge].
    { eexists _, _. split; [|done]. cbn [tget]. rewrite bool_decide_eq_false_2; [done|]. intros E. apply (f_equal length) in E. rewrite length_take in E. unfold zlen in *. lia. }
    destruct (zslice_prefix_app pre k p) as [->|]; [|lia]. cbn [must outcome_bind]. cbn [tget].
    destruct (decide (take (length p) k = p)) as [E|E].
    2:{ rewrite !bool_decide_eq_false_2 by congruence. cbn. by eexists _, _. }
    rewrite !bool_decide_eq_true_2 by done. cbn [negb].
    assert (k = p ++ drop (length p) k) as Ek by by rewrite <- E at 1; rewrite take_drop. rewrite Ek in Hf. apply fits_ext in Hf as [Hf Hp].
    assert (length k = length p + length (drop (length p) k))%nat as El by (rewrite Ek at 1; by rewrite length_app).
    assert (0 < length p)%nat by (destruct p; [done|cbn; lia]). pose proof (wait_le u).
    destruct (IH false u t' (drop (length p) k) (pre ++ p) Hu Hf ltac:(lia)) as (n' & r & Hg & Hn').
    rewrite <- app_assoc, <- Ek, zlen_app in Hg. rewrite Hg. cbn [outcome_bind]. destruct r; eexists _, _; (split; [done|]); by constructor.
  - destruct Hf as [(L & Hc & HL & Hk)|[? _]]; [|done]. pose proof (hexkey_not_nil _ Hk). destruct k as [|x k]; [done|].
    destruct (child_nodes _ _ _ _ _ _ _ Hr Hc Hk) as (c & Hcx & Hco & Hx & _). rewrite zget_app. cbn [lookup list_lookup must outcome_bind]. rewrite Hcx. cbn [must outcome_bind].
    assert (fits (Branch ts) (x :: k)) as Hf by (left; eauto).
    assert (exists c' r, tryGet db gen fuel c (pre ++ x :: k) (zlen pre + 1) = Ok (oget (child ts x) k, c', r) /\ orepr false c' (child ts x)) as (c' & r & -> & Hc').
    { pose proof (fits_branch ts x k) as Hfb. destruct Hco as [n t Hnt|].
      - pose proof (wait_le n). cbn [length] in Hfu. destruct (IH false n t k (pre ++ [x]) Hnt (Hfb t Hf eq_refl) ltac:(lia)) as (n' & r & Hg & Hn').
        rewrite <- app_assoc, zlen_app in Hg. cbn in Hg. change (zlen [x]) with 1 in Hg. rewrite Hg. exists (Some n'), r. split; [done|by constructor].
      - destruct fuel as [|fuel]; [cbn in Hfu; lia|]. by exists None, false; split; [|constructor]. }
    rewrite tget_branch. cbn [outcome_bind]. destruct r; [|by eexists _, _].
    destruct (setChild_ok cs ts x c' (child ts x) HF Hx Hc') as (cs' & -> & _ & HF'). rewrite insert_child in HF'. cbn [must outcome_bind].
    eexists _, _. split; [done|]. by constructor.
  - destruct Hf as [(L & Hc & HL & Hk)|[? _]]; [|done]. rewrite zslice_app_l. cbn [must outcome_bind].
    destruct (resolveHash_ok root _ t L pre Hr Hc HL) as (n & -> & Hn & Hld). cbn [outcome_bind].
    destruct (IH root n t k pre Hn ltac:(left; eauto)) as (n' & r & -> & Hn'); [destruct n; cbn in *; try done; lia|]. cbn. by eexists _, _.
Qed.

(** * Inserting *)

(** A flag that claims nothing. *)
Definition fresh (fl : nodeFlag) : Prop := fl_hash fl = None /\ fl_dirty fl = true.
Lemma flag_fresh root fl t : fresh fl -> flag_ok root fl t.
Proof. intros [H1 H2]. split; congruence. Qed.
Lemma flag_new root t : flag_ok root (newFlag gen) t.
Proof. by apply flag_fresh. Qed.

(** Inserting where there is nothing. *)
Lemma insert_none fuel pre k n t : (0 < fuel)%nat -> repr false n t ->
  exists n', insert db gen fuel None pre k (Some n) = Ok (true, Some n') /\ repr false n' (graft k t).
Proof.
  intros Hf Hn. destruct fuel as [|fuel]; [lia|]. destruct k as [|x k]; cbn [insert graft]; [by exists n|].
  eexists. split; [done|]. constructor; [done|apply flag_new].
Qed.

(** What an insertion does to the tree. *)
Record inserted (L : nat) (t t' : tree) (k v : bytes) : Prop := {
  in_canon : canon L t';
  in_branch : is_branch t -> is_branch t';
  in_get l : hexkey l -> tget t' l = if bool_decide (l = k) then Some v else tget t l }.

Lemma insert_short_eq fuel p val fl pre k value : k <> [] ->
  insert db gen (S fuel) (Some (shortNode p val fl)) pre k value =
    if (prefixLen k p =? length p)%nat then
      let! (dirty, nn) := insert db gen fuel val (pre ++ take (prefixLen k p) k) (drop (prefixLen k p) k) value in
      if negb dirty then Ok (false, Some (shortNode p val fl)) else Ok (true, Some (shortNode p nn (newFlag gen)))
    else
      let! x := must (p !! prefixLen k p) in
      let! (_, old) := insert db gen fuel None (pre ++ take (S (prefixLen k p)) p) (drop (S (prefixLen k p)) p) val in
      let! branch := must (setChild (replicate 17 None) x old) in
      let! y := must (k !! prefixLen k p) in
      let! (_, new) := insert db gen fuel None (pre ++ take (S (prefixLen k p)) k) (drop (S (prefixLen k p)) k) value in
      let! branch := must (setChild branch y new) in
      if (prefixLen k p =? 0)%nat then Ok (true, Some (fullNode branch (newFlag gen)))
      else Ok (true, Some (shortNode (take (prefixLen k p) k) (Some (fullNode branch (newFlag gen))) (newFlag gen))).
Proof. by destruct k. Qed.

(** Where the keys part: the common digits and the first that differ. *)
Lemma prefixLen_app p k : prefixLen (p ++ k) p = length p.
Proof. induction p as [|x p IH]; [by destruct k|]. cbn. by rewrite Z.eqb_refl, IH. Qed.

Lemma prefixLen_split k p : prefixLen k p <> length p -> prefixLen k p <> length k ->
  exists c x p' y k', p = c ++ x :: p' /\ k = c ++ y :: k' /\ x <> y /\ length c = prefixLen k p.
Proof.
  intros H1 H2. destruct (prefixLen_spec k p) as (L1 & L2 & Ht & Hd).
  destruct (lookup_lt_is_Some_2 k (prefixLen k p)) as [y Hy]; [lia|]. destruct (lookup_lt_is_Some_2 p (prefixLen k p)) as [x Hx]; [lia|].
  exists (take (prefixLen k p) k), x, (drop (S (prefixLen k p)) p), y, (drop (S (prefixLen k p)) k). split_and!.
  - by rewrite Ht, take_drop_middle.
  - by rewrite take_drop_middle.
  - intros ->. by eapply Hd.
  - rewrite length_take. lia.
Qed.

(** A whole key does not end inside the key of an extension. *)
Lemma key_not_inside L p u k : canon L (Ext p u) -> hexkey k -> prefixLen k p = length k -> prefixLen k p = length p.
Proof.
  intros Hc Hk E. destruct (prefixLen_spec k p) as (_ & L2 & Ht & _). rewrite E, take_ge in Ht by lia.
  assert (p = k ++ drop (length k) p) as Ep by by rewrite Ht at 1; rewrite take_drop.
  assert (drop (length k) p = []) as Ed; [|rewrite E, Ep, Ed, app_nil_r; done].
  inversion Hc as [? ? v Hp|M ? ? Hne Hp|]; subst.
  - apply (hexkey_prefix k); [done|by rewrite <- Ep].
  - exfalso. rewrite Ep in Hp. apply Forall_app in Hp as [Hp _]. destruct Hk as (ks & -> & _). apply Forall_app in Hp as [_ [[? ?] _]%Forall_cons]. lia.
Qed.

Lemma ext_inserted L p u u' k v : canon L (Ext p u) -> hexkey (p ++ k) ->
  (is_leaf u -> u' = Leaf v /\ value_ok v) -> (forall M, canon M u -> L = (length p + M)%nat -> inserted M u u' k v) ->
  inserted L (Ext p u) (Ext p u') (p ++ k) v.
Proof.
  intros Hc Hk Hleaf Hin. constructor.
  - inversion Hc as [? ? w Hp Hpl|M ? ? Hne Hp Hb Hcu|]; subst.
    + destruct (Hleaf I) as [-> Hv]. by constructor.
    + destruct (Hin M Hcu eq_refl) as [H1 H2 _]. constructor; auto.
  - done.
  - intros l Hl. destruct (decide (p `prefix_of` l)) as [[l' ->]|Hnp].
    + rewrite !tget_ext_app. assert (bool_decide (p ++ l' = p ++ k) = bool_decide (l' = k)) as -> by (apply bool_decide_ext; split; [apply app_inv_head|by intros ->]).
      inversion Hc as [? ? w Hp Hpl|M ? ? Hne Hp Hb Hcu|]; subst.
      * destruct (Hleaf I) as [-> _]. apply hexkey_prefix in Hk; [|done]. apply hexkey_prefix in Hl; [|done]. by subst.
      * apply (Hin M Hcu eq_refl). by eapply hexkey_drop.
    + rewrite bool_decide_eq_false_2 by (intros ->; apply Hnp; by eexists). rewrite !tget_ext_None; [done|intros l' ->; apply Hnp; by eexists..].
Qed.

Lemma branch_inserted L ts x k v o : canon (S L) (Branch ts) -> hexkey (x :: k) -> child_fit L x o ->
  (forall l, hexkey (x :: l) -> tget o l = if bool_decide (l = k) then Some v else oget (child ts x) l) ->
  inserted (S L) (Branch ts) (Branch (<[Z.to_nat x := Some o]> ts)) (x :: k) v.
Proof.
  intros Hc Hk Ho Hget. pose proof (child_fit_digit _ _ _ Ho). constructor; [by apply canon_insert|done|].
  inversion Hc as [| |? ? Hl Hch Hlast _]; subst. intros [|z l] Hz; [by apply hexkey_not_nil in Hz|].
  assert (0 <= z) by (apply hexkey_cons in Hz as [[-> _]|[[? ?] _]]; lia). rewrite tget_insert by (done || lia). case_bool_decide as E.
  - subst z. cbn. rewrite Hget, <- tget_branch by done. assert (bool_decide (x :: l = x :: k) = bool_decide (l = k)) as -> by (apply bool_decide_ext; split; [by intros [= ->]|by intros ->]). done.
  - rewrite bool_decide_eq_false_2 by congruence. done.
Qed.

(** A fresh child, and a child inserted into. *)
Lemma child_fresh L x k v : hexkey (x :: k) -> (length k <= L)%nat -> value_ok v -> child_fit L x (graft k (Leaf v)).
Proof.
  intros [[-> ->]|[Hx Hk]]%hexkey_cons HL Hv; [left; split; [done|by exists v]|right; split; [done|]].
  pose proof (hexkey_not_nil _ Hk). destruct k; [done|]. by constructor.
Qed.
Lemma tget_fresh x k v l : hexkey (x :: k) -> hexkey (x :: l) -> tget (graft k (Leaf v)) l = if bool_decide (l = k) then Some v else None.
Proof.
  intros Hk Hl. case_bool_decide as E; [subst; apply tget_graft_leaf|]. destruct (tget _ l) eqn:Eg; [|done].
  apply tget_graft_Some in Eg as (l' & -> & Eg). destruct l'; [by rewrite app_nil_r in E|done].
Qed.

Definition insert_post (root : bool) (L : nat) (t : tree) (k v : bytes) (r : outcome MissingNodeError (bool * option node)) : Prop :=
  exists d n' t', r = Ok (d, Some n') /\ repr root n' t' /\ inserted L t t' k v /\ (d = false -> t' = t).

Lemma fork_repr root c x a na y b nb fl1 fl2 : 0 <= x <= 16 -> 0 <= y <= 16 -> repr false na a -> repr false nb b ->
  fresh fl1 -> fresh fl2 ->
  exists cs1 cs2, setChild (replicate 17 None) x (Some na) = Some cs1 /\ setChild cs1 y (Some nb) = Some cs2 /\
    repr root (match c with [] => fullNode cs2 fl1 | _ => shortNode c (Some (fullNode cs2 fl1)) fl2 end) (glue c (fork x a y b)).
Proof.
  intros Hx Hy Ha Hb F1 F2.
  assert (Forall2 (option_Forall2 (repr false)) (replicate 17 None) (replicate 17 None)) as HF0 by (apply Forall2_replicate; constructor).
  destruct (setChild_ok _ _ x (Some na) (Some a) HF0) as (cs1 & E1 & -> & HF1); [change (zlen (replicate 17 None)) with 17; lia|by constructor|].
  destruct (setChild_ok _ _ y (Some nb) (Some b) HF1) as (cs2 & E2 & -> & HF2); [unfold zlen; rewrite length_insert; cbn; lia|by constructor|].
  eexists _, _. split; [done|]. split; [done|].
  assert (forall root, repr root (fullNode (<[Z.to_nat y:=Some nb]> (<[Z.to_nat x:=Some na]> (replicate 17 None))) fl1) (Branch (fork x a y b))) as Hfull.
  { intros r. constructor; [done|by apply flag_fresh]. }
  destruct c as [|z c]; [apply Hfull|]. constructor; [apply Hfull|by apply flag_fresh].
Qed.

Lemma insert_split fuel root p u t fl L k pre v :
  repr root (shortNode p (Some u) fl) (Ext p t) -> canon L (Ext p t) -> hexkey k -> (length k <= L)%nat -> value_ok v -> (0 < fuel)%nat ->
  prefixLen k p <> length p -> insert_post root L (Ext p t) k v (insert db gen (S fuel) (Some (shortNode p (Some u) fl)) pre k (Some (valueNode v))).
Proof.
  intros Hr Hc Hk Hkl Hv Hf Hm. inversion Hr as [|? ? ? ? ? Hu _| |]; subst.
  destruct (prefixLen_split k p Hm) as (c & x & p' & y & k' & Ep & Ek & Hxy & Hlen); [intros E; apply Hm; by eapply key_not_inside|].
  rewrite insert_short_eq, (proj2 (Nat.eqb_neq _ _)) by (done || by apply hexkey_not_nil).
  assert (p !! prefixLen k p = Some x) as -> by (rewrite <- Hlen, Ep; by apply list_lookup_middle).
  assert (k !! prefixLen k p = Some y) as -> by (rewrite <- Hlen; rewrite Ek at 1; by apply list_lookup_middle).
  assert (drop (S (prefixLen k p)) p = p') as -> by (rewrite <- Hlen, Ep, cons_middle, app_assoc; apply drop_app_length'; rewrite length_app; cbn; lia).
  assert (drop (S (prefixLen k p)) k = k') as -> by (rewrite <- Hlen; rewrite Ek at 1; rewrite cons_middle, app_assoc; apply drop_app_length'; rewrite length_app; cbn; lia).
  assert (take (prefixLen k p) k = c) as -> by (rewrite <- Hlen; rewrite Ek at 1; apply take_app_length).
  cbn [must outcome_bind].
  destruct (insert_none fuel (pre ++ take (S (prefixLen k p)) p) p' u t Hf Hu) as (na & -> & Hna). cbn [outcome_bind].
  destruct (insert_none fuel (pre ++ take (S (prefixLen k p)) k) k' (valueNode v) (Leaf v) Hf ltac:(constructor)) as (nb & -> & Hnb). cbn [outcome_bind].
  assert (nibbles_ok c) as Hcn.
  { clear -Hk Ek. rewrite Ek in Hk. revert Hk. clear. induction c as [|z c IH]; [constructor|]. cbn. intros [[_ E]|[Hz Hk]]%hexkey_cons; [by destruct c|].
    constructor; [done|by apply IH]. }
  subst p k. destruct (split_content L c x p' t y k' v Hxy Hc Hk Hkl Hv Hcn) as [Hcan Hget].
  pose proof (child_fit_digit _ _ _ (ext_fit _ _ _ _ _ Hc)). assert (0 <= y <= 16) by (apply hexkey_drop in Hk; [|done]; apply hexkey_cons in Hk as [[-> _]|[[? ?] _]]; lia).
  destruct (fork_repr root c x (graft p' t) na y (graft k' (Leaf v)) nb (newFlag gen) (newFlag gen)) as (cs1 & cs2 & -> & E2 & Hrep); [done..|]. cbn [must outcome_bind]. rewrite E2. cbn [must outcome_bind].
  rewrite <- Hlen. destruct c as [|z c]; cbn [length Nat.eqb]; eexists _, _, _; (split; [done|]); (split; [exact Hrep|]); by split; [constructor|].
Qed.

(** Inserting under an extension that is a prefix of the key. *)
Lemma insert_under fuel root p u t fl L k pre v (d : bool) nn t' :
  repr root (shortNode p (Some u) fl) (Ext p t) -> p <> [] -> inserted L (Ext p t) (Ext p t') (p ++ k) v ->
  insert db gen fuel (Some u) (pre ++ p) k (Some (valueNode v)) = Ok (d, Some nn) -> repr false nn t' -> (d = false -> t' = t) ->
  insert_post root L (Ext p t) (p ++ k) v (insert db gen (S fuel) (Some (shortNode p (Some u) fl)) pre (p ++ k) (Some (valueNode v))).
Proof.
  intros Hr Hne Hin Hi Hnn Hd. rewrite insert_short_eq, prefixLen_app, Nat.eqb_refl, take_app_length, drop_app_length, Hi by by destruct p.
  cbn [outcome_bind]. destruct d; cbn [negb].
  - eexists _, _, _. split; [done|]. split; [constructor; [done|apply flag_new]|]. by split.
  - rewrite (Hd eq_refl) in *. eexists _, _, _. by split.
Qed.

(** Inserting at a digit of a branch. *)
Lemma insert_child_ok fuel L ts x k pre v c :
  canon (S L) (Branch ts) -> hexkey (x :: k) -> (length k <= L)%nat -> value_ok v -> orepr false c (child ts x) -> (0 < fuel)%nat ->
  (forall n t, child ts x = Some t -> repr false n t -> canon L t -> hexkey k -> insert_post false L t k v (insert db gen fuel (Some n) pre k (Some (valueNode v)))) ->
  exists d nn o, insert db gen fuel c pre k (Some (valueNode v)) = Ok (d, Some nn) /\ repr false nn o /\ child_fit L x o /\
    (forall l, hexkey (x :: l) -> tget o l = if bool_decide (l = k) then Some v else oget (child ts x) l) /\ (d = false -> child ts x = Some o).
Proof.
  intros Hc Hk Hkl Hv Hco Hf IH. inversion Hc as [| |? ? Hl Hch Hlast _]; subst. destruct (child ts x) as [t|] eqn:Ech; inversion Hco as [n ? Hnt|]; subst.
  - assert (ts !! Z.to_nat x = Some (Some t)) as Hx by (unfold child in Ech; destruct (ts !! Z.to_nat x) as [o|]; [by cbn in Ech; subst|done]).
    pose proof (hexkey_cons _ _ Hk) as [[-> ->]|[[? ?] Hk']].
    + destruct (Hlast _ Hx) as (w & -> & Hw). inversion Hnt as [| | |? ? ? Hnl]; subst; [|by destruct Hnl]. destruct fuel as [|fuel]; [lia|].
      exists (negb (bool_decide (w = v))), (valueNode v), (Leaf v). split_and!; [done|constructor|left; split; [done|by exists v]| |].
      * intros l [[_ ->]|[[? ?] _]]%hexkey_cons; [done|lia].
      * rewrite negb_false_iff, bool_decide_eq_true. by intros ->.
    + assert (canon L t) as Hct by (eapply (Hch (Z.to_nat x)); [lia|done]). destruct (IH n t eq_refl Hnt Hct Hk') as (d & nn & t' & Hi & Hnn & [I1 I2 I3] & Hd).
      exists d, nn, t'. split_and!; [done|done|right; split; [done|done]| |by intros ->%Hd].
      intros l [[? _]|[_ Hl']]%hexkey_cons; [lia|]. by apply I3.
  - destruct (insert_none fuel pre k (valueNode v) (Leaf v) Hf ltac:(constructor)) as (nb & -> & Hnb). exists true, nb, (graft k (Leaf v)).
    split_and!; [done|done|by apply child_fresh| |done]. intros l Hl'. by eapply tget_fresh.
Qed.

Lemma insert_ok fuel : forall root n t L k pre v, repr root n t -> canon L t -> (L <= B)%nat -> hexkey k -> (length k <= L)%nat -> value_ok v ->
  (2 * length k + wait n < fuel)%nat -> insert_post root L t k v (insert db gen fuel (Some n) pre k (Some (valueNode v))).
Proof using hash_len hash_ok HB.
  induction fuel as [|fuel IH]; intros root n t L k pre v Hr Hc HL Hk Hkl Hv Hfu; [lia|]. pose proof (hexkey_not_nil _ Hk) as Hne.
  assert (0 < length k)%nat by (destruct k; [done|cbn; lia]).
  inversion Hr as [? w|? p u t' fl Hu Hfl|? cs ts fl HF Hfl|? h ? Hnl E Hh Hs]; subst.
  - by apply canon_not_leaf in Hc.
  - destruct (decide (prefixLen k p = length p)) as [Em|Em]; [|apply insert_split; try done; lia].
    destruct (prefixLen_spec k p) as (_ & _ & Ht & _). rewrite Em, (take_ge p) in Ht by lia.
    assert (k = p ++ drop (length p) k) as Ek by by rewrite <- Ht at 1; rewrite take_drop. set (k' := drop (length p) k) in *. clearbody k'. subst k.
    assert (p <> []) as Hp by (inversion Hc as [? ? ? Hx| |]; subst; [by apply hexkey_not_nil|done]). rewrite length_app in *.
    assert (0 < length p)%nat by (destruct p; [done|cbn; lia]). pose proof (wait_le u).
    destruct t' as [w| |]; [|exfalso; inversion Hc; subst; done|].
    + inversion Hu as [? ? E| | |? ? ? Hnl]; subst; [|by destruct Hnl]. inversion Hc as [? ? ? Hp'| |? ? ? Hx]; subst; [|done].
      pose proof (hexkey_prefix _ _ Hp' Hk) as ->. destruct fuel as [|fuel]; [lia|].
      eapply (insert_under (S fuel) root p _ (Leaf w) fl L [] pre v (negb (bool_decide (w = v))) _ (Leaf v)); [done|done| |done|constructor|].
      * apply ext_inserted; [done|done|done|]. by intros M ?%canon_not_leaf.
      * rewrite negb_false_iff, bool_decide_eq_true. by intros ->.
    + inversion Hc as [|M ? ? _ Hpn _ Hcb|]; subst.
      destruct (IH false u (Branch ts) M k' (pre ++ p) v) as (d & nn & t2 & Hi & Hnn & Hin & Hd); try done; [lia|by eapply hexkey_drop|lia|lia|].
      eapply insert_under; [done|done| |done|done|done]. apply ext_inserted; [done|done|done|]. intros M' _ E. by replace M' with M by lia.
  - destruct k as [|x k]; [done|]. destruct (child_nodes _ _ _ _ _ _ _ Hr Hc Hk) as (c & Hcx & Hco & Hx & Hlen). cbn [insert]. rewrite Hcx. cbn [must outcome_bind].
    inversion Hc as [| |M ? Hl Hch Hlast _]; subst. cbn [length] in *.
    assert (exists d nn o, insert db gen fuel c (pre ++ [x]) k (Some (valueNode v)) = Ok (d, Some nn) /\ repr false nn o /\ child_fit M x o /\
      (forall l, hexkey (x :: l) -> tget o l = if bool_decide (l = k) then Some v else oget (child ts x) l) /\ (d = false -> child ts x = Some o)) as (d & nn & o & -> & Hnn & Hfit & Hget & Hd).
    { eapply insert_child_ok; try done; [lia..|]. intros n t Ht Hn Hcn Hkn. pose proof (wait_le n). apply IH; try done; lia. }
    cbn [outcome_bind]. pose proof (branch_inserted M ts x k v o Hc Hk Hfit Hget) as Hin. destruct d; cbn [negb].
    + destruct (setChild_ok cs ts x (Some nn) (Some o) HF Hx ltac:(by constructor)) as (cs' & -> & _ & HF'). cbn [must outcome_bind].
      eexists _, _, _. split; [done|]. split; [constructor; [done|apply flag_new]|]. by split.
    + rewrite <- (Hd eq_refl), insert_child in Hin. by eexists _, _, _.
  - pose proof Hne. destruct k as [|x k]; [done|]. cbn [insert]. destruct (resolveHash_ok root _ t L pre Hr Hc HL) as (n & -> & Hn & Hld). cbn [outcome_bind].
    destruct (IH root n t L (x :: k) pre v) as (d & nn & t2 & Hi & Hnn & Hin & Hd); try done; [destruct n; cbn in *; try done; lia|].
    rewrite Hi. cbn [outcome_bind]. destruct d; cbn [negb]; [by eexists _, _, _|]. rewrite (Hd eq_refl) in *. by eexists _, _, _.
Qed.

(** * Deleting *)

(** [onlyChild] finds the only child, if there is just one. *)
Lemma onlyChild_seen cs : forall i pos, 0 <= pos ->
  (onlyChild cs i pos = pos /\ forall j, mjoin (cs !! j) = None) \/ (onlyChild cs i pos = -2 /\ exists j n, cs !! j = Some (Some n)).
Proof.
  induction cs as [|[n|] cs IH]; intros i pos Hpos; cbn [onlyChild]; [by left|..].
  - rewrite (proj2 (Z.eqb_neq _ _)) by lia. right. split; [done|]. by exists 0%nat, n.
  - destruct (IH (i + 1) pos Hpos) as [[-> Hn]|(-> & j & n & Hj)]; [left|right].
    + split; [done|]. intros [|j]; [done|apply Hn].
    + split; [done|]. by exists (S j), n.
Qed.

Lemma onlyChild_spec cs : forall i, 0 <= i ->
  (onlyChild cs i (-1) = -1 /\ forall j, mjoin (cs !! j) = None) \/
  (exists j n, onlyChild cs i (-1) = i + Z.of_nat j /\ cs !! j = Some (Some n) /\ forall j', j' <> j -> mjoin (cs !! j') = None) \/
  (onlyChild cs i (-1) = -2 /\ exists j j' n n', j <> j' /\ cs !! j = Some (Some n) /\ cs !! j' = Some (Some n')).
Proof.
  induction cs as [|[n|] cs IH]; intros i Hi; cbn [onlyChild]; [by left|..].
  - change (-1 =? -1) with true. cbv iota. right. destruct (onlyChild_seen cs (i + 1) i Hi) as [[-> Hn]|(-> & j & n' & Hj)]; [left|right].
    + exists 0%nat, n. split_and!; [lia|done|]. intros [|j] Hj; [done|apply Hn].
    + split; [done|]. exists 0%nat, (S j), n, n'. by split_and!.
  - destruct (IH (i + 1) ltac:(lia)) as [[-> Hn]|[(j & n & -> & Hj & Ho)|(-> & j & j' & n & n' & Hne & Hj & Hj')]]; [left|right; left|right; right].
    + split; [done|]. intros [|j]; [done|apply Hn].
    + exists (S j), n. split_and!; [lia|done|]. intros [|j'] Hj'; [done|apply Ho; lia].
    + split; [done|]. exists (S j), (S j'), n, n'. split_and!; [lia|done|done].
Qed.

(** The same positions are empty in nodes and trees. *)
Lemma nodes_lookup cs ts i : Forall2 (option_Forall2 (repr false)) cs ts -> orepr false (mjoin (cs !! i)) (mjoin (ts !! i)).
Proof.
  intros HF. destruct (cs !! i) as [c|] eqn:E; [destruct (Forall2_lookup_l _ _ _ _ _ HF E) as (o & -> & ?); done|].
  apply lookup_ge_None in E. rewrite (Forall2_length _ _ _ HF) in E. rewrite (proj2 (lookup_ge_None _ _)) by done. constructor.
Qed.

Definition delete_post (root : bool) (L : nat) (t : tree) (k : bytes) (r : outcome MissingNodeError (bool * option node)) : Prop :=
  exists d n' o, r = Ok (d, n') /\ orepr root n' o /\ deleted L t o k /\ (if (d : bool) then each_node loaded n' else o = Some t).

(** Loading a child, if it has to be. *)
Lemma resolve_ok L n t pre : repr false n t -> canon L t -> (L <= B)%nat ->
  exists n', resolve db gen (Some n) pre = Ok (Some n') /\ repr false n' t /\ loaded n'.
Proof using hash_len hash_ok HB.
  intros Hn Hc HL. destruct n as [k v f|cs f|h|v]; cbn [resolve]; [by eexists|by eexists| |by eexists].
  destruct (resolveHash_ok false h t L pre Hn Hc HL) as (n' & -> & ? & ?). by exists n'.
Qed.

(** What is left of a branch that lost a child. *)
Lemma reduce_ok root L cs ts pre fl :
  Forall2 (option_Forall2 (repr false)) cs ts -> length ts = 17%nat -> (S L <= B)%nat -> fresh fl ->
  (forall i t, ts !! i = Some (Some t) -> child_fit L (Z.of_nat i) t) -> (exists i t, ts !! i = Some (Some t)) ->
  exists n t, (let pos := onlyChild cs 0 (-1) in
    if pos >=? 0 then
      let! only := must (zget cs pos) in
      let! cnode := (if negb (pos =? 16) then resolve db gen only pre else Ok None) in
      match cnode with
      | Some (shortNode ckey cval _) => Ok (true, Some (shortNode (u8 pos :: ckey) cval fl))
      | _ => Ok (true, Some (shortNode [u8 pos] only fl))
      end
    else Ok (true, Some (fullNode cs fl))) = Ok (true, Some n) /\ loaded n /\ repr root n t /\ canon (S L) t /\ forall l, hexkey l -> tget t l = tget (Branch ts) l.
Proof using hash_len hash_ok HB.
  intros HF Hl HL Hfl Hfit (i0 & t0 & Hi0). cbn zeta. assert (forall r t, flag_ok r fl t) as Hflag by (intros; by apply flag_fresh).
  destruct (onlyChild_spec cs 0 ltac:(done)) as [[_ Hnone]|[(j & n & -> & Hj & Honly)|(-> & j & j' & n & n' & Hne & Hj & Hj')]].
  - exfalso. pose proof (nodes_lookup cs ts i0 HF) as Hi. rewrite Hnone, Hi0 in Hi. inversion Hi.
  - rewrite Z.add_0_l. pose proof (lookup_lt_Some _ _ _ Hj) as Hjl. rewrite (Forall2_length _ _ _ HF), Hl in Hjl.
    destruct (Forall2_lookup_l _ _ _ _ _ HF Hj) as (o & Hjt & Ho). inversion Ho as [? t Hnt|]; subst. pose proof (Hfit _ _ Hjt) as Hft.
    destruct (squash L ts j t Hl Hjt) as [Hcan Hget]; [|done|].
    { intros i Hi. pose proof (nodes_lookup cs ts i HF) as Hx. rewrite Honly in Hx by done. by inversion Hx. }
    rewrite Z.geb_leb, (proj2 (Z.leb_le _ _)) by lia. unfold zget. rewrite (proj2 (Z.leb_le _ _)), Nat2Z.id, Hj by lia. cbn [must outcome_bind].
    rewrite u8_small by (unfold is_byte; lia).
    destruct Hft as [[Ej (v & -> & Hv)]|[[? ?] Hct]].
    + rewrite Ej. cbn [Z.eqb Pos.eqb negb outcome_bind]. eexists _, (join [16] (Leaf v)). rewrite Ej in *. split_and!; try done. by constructor.
    + rewrite (proj2 (Z.eqb_neq _ _)) by lia. cbn [negb].
      destruct (resolve_ok L n t pre Hnt Hct ltac:(lia)) as (n' & -> & Hn' & Hld). cbn [outcome_bind].
      inversion Hn' as [|? ck cv ct cf Hcv|? ? ? ? HF'|]; subst; [by apply canon_not_leaf in Hct| | |done].
      * eexists _, _. split_and!; [done|done| |done|done]. by constructor.
      * eexists _, _. split_and!; [done|done| |done|done]. by constructor.
  - change (-2 >=? 0) with false. cbv iota. eexists _, (Branch ts). split_and!; [done|done|by constructor| |done].
    destruct (Forall2_lookup_l _ _ _ _ _ HF Hj) as (o & Hjt & Ho). destruct (Forall2_lookup_l _ _ _ _ _ HF Hj') as (o' & Hjt' & Ho').
    inversion Ho as [? t|]; inversion Ho' as [? t'|]; subst. constructor; [done| | |by exists j, j', t, t'].
    + intros i u Hi Hu. destruct (Hfit _ _ Hu) as [[? _]|[_ ?]]; [lia|done].
    + intros u Hu. destruct (Hfit _ _ Hu) as [[_ ?]|[[? ?] _]]; [done|lia].
Qed.

Lemma delete_short fuel root p u t fl L k pre :
  repr root (shortNode p (Some u) fl) (Ext p t) -> canon L (Ext p t) -> hexkey k ->
  (forall k' M, k = p ++ k' -> canon M t -> L = (length p + M)%nat -> hexkey k' -> delete_post false M t k' (delete db gen fuel (Some u) (pre ++ p) k')) ->
  delete_post root L (Ext p t) k (delete db gen (S fuel) (Some (shortNode p (Some u) fl)) pre k).
Proof.
  intros Hr Hc Hk IH. inversion Hr as [|? ? ? ? ? Hu Hfl| |]; subst. cbn [delete]. destruct (prefixLen_spec k p) as (_ & Hl & Ht & _).
  destruct (Nat.ltb_spec (prefixLen k p) (length p)) as [Hlt|Hge].
  { exists false, (Some (shortNode p (Some u) fl)), (Some (Ext p t)). split_and!; [done|by constructor| |done]. apply deleted_none; [done|].
    apply tget_ext_None. intros k' ->. rewrite prefixLen_app in Hlt. lia. }
  assert (prefixLen k p = length p) as E by lia. rewrite E, (take_ge p) in Ht by lia.
  assert (k = p ++ drop (length p) k) as Ek by by rewrite <- Ht at 1; rewrite take_drop. set (k' := drop (length p) k) in *. clearbody k'. subst k.
  rewrite E, take_app_length, length_app. destruct (Nat.eqb_spec (length p) (length p + length k')) as [Ez|Ez].
  - assert (k' = []) as -> by (destruct k'; [done|cbn in Ez; lia]). rewrite app_nil_r in *. exists true, None, None. split_and!; [done|constructor| |done].
    constructor; [done|]. intros l Hl'. cbn. case_bool_decide as El; [done|]. symmetry. apply tget_ext_None. intros l' ->.
    apply hexkey_prefix in Hl'; [|done]. subst. by rewrite app_nil_r in El.
  - assert (k' <> []) as Hne by (intros ->; cbn in Ez; lia).
    inversion Hc as [? ? v Hp|M ? ? Hpne Hp Hb Hct|]; subst; [by apply hexkey_prefix in Hk|].
    destruct (IH k' M eq_refl Hct eq_refl) as (d & n' & o & -> & Hn' & Hdel & Hd); [by eapply hexkey_drop|]. cbn [outcome_bind].
    destruct (ext_deleted _ p t o k' Hc Hb Hk) as (u' & -> & Hdel'); [intros M' _ ?; by replace M' with M by lia|].
    inversion Hn' as [n1 ? Hn1|]; subst. destruct d; cbn [negb].
    + assert (exists n2, match n1 with shortNode q cv _ => shortNode (p ++ q) cv (newFlag gen) | _ => shortNode p (Some n1) (newFlag gen) end = n2 /\
        loaded n2 /\ repr root n2 (join p u')) as (n2 & E2 & Hl2 & Hn2).
      { inversion Hn1 as [|? q cv ct cf Hcv Hcf|? ? ? ? HF|]; subst; try done; [by eexists; split_and!; [done|done|constructor; [constructor|apply flag_new]]|..];
          (eexists; split_and!; [done|done|constructor; [done|apply flag_new]]). }
      exists true, (Some n2), (Some (join p u')). split_and!; [by destruct n1; subst|by constructor|done|done].
    + injection Hd as ->. exists false, (Some (shortNode p (Some u) fl)), (Some (Ext p t)). split_and!; [done|by constructor| |done].
      by destruct t.
Qed.

(** Deleting at a digit of a branch. *)
Lemma delete_child_ok fuel L ts x k pre c :
  canon (S L) (Branch ts) -> hexkey (x :: k) -> orepr false c (child ts x) -> (0 < fuel)%nat ->
  (forall n t, child ts x = Some t -> repr false n t -> canon L t -> hexkey k -> delete_post false L t k (delete db gen fuel (Some n) pre k)) ->
  exists d nn o, delete db gen fuel c pre k = Ok (d, nn) /\ orepr false nn o /\ (forall t, o = Some t -> child_fit L x t) /\
    (forall l, hexkey (x :: l) -> oget o l = if bool_decide (l = k) then None else oget (child ts x) l) /\ (d = false -> child ts x = o).
Proof.
  intros Hc Hk Hco Hf IH. inversion Hc as [| |? ? Hl Hch Hlast _]; subst. destruct (child ts x) as [t|] eqn:Ech; inversion Hco as [n ? Hnt|]; subst.
  - assert (ts !! Z.to_nat x = Some (Some t)) as Hx by (unfold child in Ech; destruct (ts !! Z.to_nat x) as [o|]; [by cbn in Ech; subst|done]).
    pose proof (hexkey_cons _ _ Hk) as [[-> ->]|[[? ?] Hk']].
    + destruct (Hlast _ Hx) as (w & -> & Hw). inversion Hnt as [| | |? ? ? Hnl]; subst; [|by destruct Hnl]. destruct fuel as [|fuel]; [lia|].
      exists true, None, None. split_and!; [done|constructor|done| |done]. intros l [[_ ->]|[[? ?] _]]%hexkey_cons; [done|lia].
    + assert (canon L t) as Hct by (eapply (Hch (Z.to_nat x)); [lia|done]). destruct (IH n t eq_refl Hnt Hct Hk') as (d & nn & o & Hi & Hnn & [I1 I2] & Hd).
      exists d, nn, o. split_and!; [done|done| | |by intros ->]; [intros t' ->; right; by split|].
      intros l [[? _]|[_ Hl']]%hexkey_cons; [lia|]. by apply I2.
  - destruct fuel as [|fuel]; [lia|]. exists false, None, None. split_and!; [done|constructor|done| |done]. intros l _. cbn. by case_bool_decide.
Qed.

Lemma delete_full fuel root cs ts fl L x k pre :
  repr root (fullNode cs fl) (Branch ts) -> canon (S L) (Branch ts) -> (S L <= B)%nat -> hexkey (x :: k) -> (0 < fuel)%nat ->
  (forall n t, child ts x = Some t -> repr false n t -> canon L t -> hexkey k -> delete_post false L t k (delete db gen fuel (Some n) (pre ++ [x]) k)) ->
  delete_post root (S L) (Branch ts) (x :: k) (delete db gen (S fuel) (Some (fullNode cs fl)) pre (x :: k)).
Proof using hash_len hash_ok HB.
  intros Hr Hc HL Hk Hf IH. inversion Hr as [| |? ? ? ? HF Hfl|]; subst. inversion Hc as [| |? ? Hl Hch Hlast (i & j & a & b & Hij & Ha & Hb)]; subst.
  destruct (child_nodes _ _ _ _ _ _ _ Hr Hc Hk) as (c & Hcx & Hco & Hx & Hlen). cbn [delete]. change (zget (x :: k) 0) with (Some x). cbn [must outcome_bind].
  rewrite Hcx. cbn [must outcome_bind drop].
  destruct (delete_child_ok fuel L ts x k (pre ++ [x]) c Hc Hk Hco Hf IH) as (d & nn & o & Hdel & Hnn & Hfit & Hget & Hd). rewrite drop_0, Hdel. cbn [outcome_bind].
  destruct d; cbn [negb].
  - destruct (setChild_ok cs ts x nn o HF Hx Hnn) as (cs' & -> & _ & HF'). cbn [must outcome_bind].
    assert (forall i t, <[Z.to_nat x := o]> ts !! i = Some (Some t) -> child_fit L (Z.of_nat i) t) as Hfit'.
    { intros i' t Hi. apply list_lookup_insert_Some in Hi as [(<- & -> & _)|[_ Hi]]; [rewrite Z2Nat.id by lia; by apply Hfit|].
      pose proof (lookup_lt_Some _ _ _ Hi). destruct (decide (i' = 16)%nat) as [->|]; [left; split; [done|by apply Hlast]|right; split; [unfold is_nibble; lia|]].
      eapply (Hch i'); [lia|done]. }
    destruct (reduce_ok root L cs' (<[Z.to_nat x := o]> ts) pre (newFlag gen)) as (n & t & Hred & Hld & Hn & Hct & Hgt); try done; [by rewrite length_insert| |].
    { destruct (decide (i = Z.to_nat x)) as [->|]; [exists j, b; by rewrite list_lookup_insert_ne by lia|exists i, a; by rewrite list_lookup_insert_ne by done]. }
    cbn zeta in Hred. rewrite Hred. exists true, (Some n), (Some t). split_and!; [done|by constructor| |done]. constructor; [done|].
    intros l Hl'. cbn [oget mbind option_bind]. rewrite Hgt by done. by apply branch_content.
  - exists false, (Some (fullNode cs fl)), (Some (Branch ts)). split_and!; [done|by constructor| |done]. apply deleted_none; [done|].
    rewrite tget_branch, (Hd eq_refl), Hget by done. by rewrite bool_decide_eq_true_2.
Qed.

Lemma delete_ok fuel : forall root n t L k pre, repr root n t -> canon L t -> (L <= B)%nat -> hexkey k ->
  (2 * length k + wait n < fuel)%nat -> delete_post root L t k (delete db gen fuel (Some n) pre k).
Proof using hash_len hash_ok HB.
  induction fuel as [|fuel IH]; intros root n t L k pre Hr Hc HL Hk Hfu; [lia|]. pose proof (hexkey_not_nil _ Hk) as Hne.
  assert (0 < length k)%nat by (destruct k; [done|cbn; lia]).
  inversion Hr as [? w|? p u t' fl Hu Hfl|? cs ts fl HF Hfl|? h ? Hnl E Hh Hs]; subst.
  - by apply canon_not_leaf in Hc.
  - apply delete_short; try done. intros k' M -> Hct -> Hk'. rewrite length_app in *. pose proof (wait_le u).
    assert (0 < length p)%nat by (inversion Hc as [? ? ? Hx| |]; subst; [pose proof (hexkey_not_nil _ Hx)|]; destruct p; try done; cbn; lia).
    apply IH; try done; lia.
  - destruct k as [|x k]; [done|]. inversion Hc as [| |M ? Hl]; subst. cbn [length] in *. apply delete_full; try done; [lia|].
    intros n t Ht Hn Hct Hk'. pose proof (wait_le n). apply IH; try done; lia.
  - cbn [delete]. destruct (resolveHash_ok root _ t L pre Hr Hc HL) as (n & -> & Hn & Hld). cbn [outcome_bind].
    destruct (IH root n t L k pre Hn Hc HL Hk) as (d & nn & o & -> & Hnn & Hdel & Hd); [destruct n; cbn in *; try done; lia|]. cbn [outcome_bind].
    destruct d; cbn [negb]; [by eexists true, _, _|]. subst. inversion Hnn; subst. eexists false, _, _. split_and!; [done|by constructor|done|done].
Qed.
End refine.
