(* ===== verification/TrieMap.v ===== *)
(** What a trie promises to its clients ([src/trie/trie.go], the exported operations): it is
    a finite map from byte strings to non-empty byte strings, and its content alone decides
    its shape, so equal contents have equal root hashes. *)

From stdpp Require Import base numbers list gmap.
From S2P Require Import Prelude.
From S2P Require Import CommonMath.
From S2P Require Import TrieEncoding.
From S2P Require Import TrieTree.
From S2P Require Import TrieNode.
From S2P Require Import TrieOps.
From S2P Require Import TrieStore.
From S2P Require Import TrieRefine.
Local Open Scope Z_scope.
Local Open Scope go_scope.

(** What a tree holds for a key. *)
Definition content (o : option tree) (key : bytes) : option bytes := oget o (keybytesToHex key).

(** Keys of at most [n] bytes are below the bound. *)
Definition keyBound (n : nat) : nat := 2 * n + 1.

(** [t] is a trie over [db] that stands for the tree [o], for keys of at most [n] bytes. *)
Record is_trie (hash : bytes -> bytes) (db : bytes -> option bytes) (n : nat) (t : Trie) (o : option tree) : Prop := {
  it_repr : orepr hash db true (t_root t) o;
  it_canon : ocanon (keyBound n) o;
  it_keys k v : hexkey k -> oget o k = Some v -> exists key, bytes_ok key /\ k = keybytesToHex key }.

Definition key_ok (n : nat) (key : bytes) : Prop := bytes_ok key /\ (length key <= n)%nat.

Lemma keyBound_ok n : Z.of_nat n < 2 ^ 56 -> Z.of_nat (keyBound n) < 2 ^ 58.
Proof. unfold keyBound. lia. Qed.
Lemma length_keybytesToHex key : length (keybytesToHex key) = S (2 * length key).
Proof. unfold keybytesToHex. rewrite length_app, length_nibblesOf. cbn. lia. Qed.
Lemma key_ok_hex n key : key_ok n key -> hexkey (keybytesToHex key) /\ (length (keybytesToHex key) <= keyBound n)%nat.
Proof. intros [H1 H2]. split; [by apply keybytesToHex_hexkey|]. rewrite length_keybytesToHex. unfold keyBound. lia. Qed.

Lemma single_get k v : tget (Ext k (Leaf v)) k = Some v.
Proof. cbn. rewrite firstn_all, bool_decide_eq_true_2 by done. by rewrite drop_all. Qed.

(** The keys of the map are those of the tree. *)
Lemma content_update o o' key r :
  (forall l, hexkey l -> oget o' l = if bool_decide (l = keybytesToHex key) then r else oget o l) -> bytes_ok key ->
  forall k, bytes_ok k -> content o' k = if bool_decide (k = key) then r else content o k.
Proof.
  intros H Hkey k Hk. unfold content. rewrite H by by apply keybytesToHex_hexkey. case_bool_decide as E1; case_bool_decide as E2; try done.
  - by apply keybytesToHex_inj in E1.
  - by subst.
Qed.

(** * Sequences of operations *)

Inductive trie_op := OpGet (key : bytes) | OpUpdate (key value : bytes) | OpDelete (key : bytes).

Fixpoint trie_run (db : bytes -> option bytes) (ops : list trie_op) (t : Trie) : outcome MissingNodeError (Trie * list (option bytes)) :=
  match ops with
  | [] => Ok (t, [])
  | OpGet key :: ops =>
      let (t, r) := TryGet db key t in
      let! v := r in
      let! (t, out) := trie_run db ops t in
      Ok (t, v :: out)
  | OpUpdate key value :: ops => let! t := TryUpdate db key value t in trie_run db ops t
  | OpDelete key :: ops => let! t := TryDelete db key t in trie_run db ops t
  end.

(** The same on a finite map; writing an empty value removes the key. *)
Definition map_write (key value : bytes) (m : gmap bytes bytes) : gmap bytes bytes :=
  if bool_decide (value = []) then base.delete key m else <[key := value]> m.
Fixpoint map_run (ops : list trie_op) (m : gmap bytes bytes) : gmap bytes bytes * list (option bytes) :=
  match ops with
  | [] => (m, [])
  | OpGet key :: ops => let (m', out) := map_run ops m in (m', m !! key :: out)
  | OpUpdate key value :: ops => map_run ops (map_write key value m)
  | OpDelete key :: ops => map_run ops (base.delete key m)
  end.

Definition op_ok (n : nat) (o : trie_op) : Prop :=
  match o with
  | OpGet key | OpDelete key => key_ok n key
  | OpUpdate key value => key_ok n key /\ bytes_ok value /\ zlen value < 2 ^ 60
  end.

(** A trie that stands for a map. *)
Definition trie_map (hash : bytes -> bytes) (db : bytes -> option bytes) (n : nat) (t : Trie) (m : gmap bytes bytes) : Prop :=
  exists o, is_trie hash db n t o /\ forall key, bytes_ok key -> content o key = m !! key.

Section map.
Context (hash : bytes -> bytes) (hash_len : forall b, length (hash b) = 32%nat) (hash_ok : forall b, bytes_ok (hash b)).
Context (db : bytes -> option bytes) (n : nat) (Hn : Z.of_nat n < 2 ^ 56).
Abbreviation is_trie := (is_trie hash db n).

Lemma tryGet_root key t o : key_ok n key -> is_trie t o ->
  exists n' r, tryGet db (t_cachegen t) (keyFuel (keybytesToHex key)) (t_root t) (keybytesToHex key) 0 = Ok (content o key, n', r) /\
    orepr hash db true n' o.
Proof using hash_len hash_ok Hn.
  intros Hk [Hr Hc _]. apply key_ok_hex in Hk as [Hk Hl]. destruct Hr as [nd t' Hr|]; [|exists None, false; split; [|constructor]; unfold keyFuel; by rewrite Nat.add_comm].
  destruct (tryGet_ok hash hash_len hash_ok db (t_cachegen t) (keyBound n) (keyBound_ok n Hn) (keyFuel (keybytesToHex key)) true nd t' (keybytesToHex key) [])
    as (n' & r & E & Hn'); [done|left; by exists (keyBound n)|unfold keyFuel; pose proof (wait_le nd); lia|].
  change (zlen []) with 0 in E. exists (Some n'), r. split; [exact E|by constructor].
Qed.

Lemma is_trie_update t nd o o' key r : is_trie t o -> bytes_ok key -> orepr hash db true nd o' -> ocanon (keyBound n) o' ->
  (forall l, hexkey l -> oget o' l = if bool_decide (l = keybytesToHex key) then r else oget o l) -> is_trie (with_root t nd) o'.
Proof.
  intros Ht Hk Hr Hc He. split; [done..|]. intros k v Hh Hv. rewrite He in Hv by done. case_bool_decide; [by exists key|]. by eapply it_keys.
Qed.

Lemma insert_root key value t o : key_ok n key -> value_ok value -> is_trie t o ->
  exists d nd o', insert db (t_cachegen t) (keyFuel (keybytesToHex key)) (t_root t) [] (keybytesToHex key) (Some (valueNode value)) = Ok (d, nd) /\
    is_trie (with_root t nd) o' /\
    (forall l, hexkey l -> oget o' l = if bool_decide (l = keybytesToHex key) then Some value else oget o l).
Proof using hash_len hash_ok Hn.
  intros Hkey Hv Ht. pose proof Ht as [Hr Hc _]. destruct (key_ok_hex _ _ Hkey) as [Hk Hl].
  enough (exists d nd o', insert db (t_cachegen t) (keyFuel (keybytesToHex key)) (t_root t) [] (keybytesToHex key) (Some (valueNode value)) = Ok (d, nd) /\
    orepr hash db true nd o' /\ ocanon (keyBound n) o' /\ (forall l, hexkey l -> oget o' l = if bool_decide (l = keybytesToHex key) then Some value else oget o l))
    as (d & nd & o' & H1 & H2 & H3 & H4).
  { exists d, nd, o'. split_and!; [done| |done]. apply (is_trie_update t nd o o' key (Some value)); try done. apply Hkey. }
  destruct Hr as [nd t' Hr|].
  - destruct (insert_ok hash hash_len hash_ok db (t_cachegen t) (keyBound n) (keyBound_ok n Hn) (keyFuel (keybytesToHex key)) true nd t' (keyBound n) (keybytesToHex key) [] value)
      as (d & n' & t2 & -> & Hn' & [H1 _ H3] & _); try done; [unfold keyFuel; pose proof (wait_le nd); lia|].
    exists d, (Some n'), (Some t2). split; [done|]. split_and!; [by constructor|exact H1|exact H3].
  - exists true, (Some (shortNode (keybytesToHex key) (Some (valueNode value)) (newFlag (t_cachegen t)))), (Some (Ext (keybytesToHex key) (Leaf value))).
    split_and!.
    + unfold keyFuel. rewrite Nat.add_comm. cbn [Nat.add insert]. pose proof (hexkey_not_nil _ Hk). by destruct (keybytesToHex key).
    + constructor; constructor; [constructor|done].
    + by constructor.
    + intros l Hlk. cbn [oget mbind option_bind]. case_bool_decide as E.
      * subst. by rewrite single_get.
      * destruct (tget _ l) eqn:G; [|done]. by apply single_key in G as [-> _].
Qed.

Lemma delete_root key t o : key_ok n key -> is_trie t o ->
  exists d nd o', delete db (t_cachegen t) (keyFuel (keybytesToHex key)) (t_root t) [] (keybytesToHex key) = Ok (d, nd) /\
    is_trie (with_root t nd) o' /\
    (forall l, hexkey l -> oget o' l = if bool_decide (l = keybytesToHex key) then None else oget o l).
Proof using hash_len hash_ok Hn.
  intros Hkey Ht. pose proof Ht as [Hr Hc _]. destruct (key_ok_hex _ _ Hkey) as [Hk Hl].
  enough (exists d nd o', delete db (t_cachegen t) (keyFuel (keybytesToHex key)) (t_root t) [] (keybytesToHex key) = Ok (d, nd) /\
    orepr hash db true nd o' /\ ocanon (keyBound n) o' /\ (forall l, hexkey l -> oget o' l = if bool_decide (l = keybytesToHex key) then None else oget o l))
    as (d & nd & o' & H1 & H2 & H3 & H4).
  { exists d, nd, o'. split_and!; [done| |done]. apply (is_trie_update t nd o o' key None); try done. apply Hkey. }
  destruct Hr as [nd t' Hr|].
  - destruct (delete_ok hash hash_len hash_ok db (t_cachegen t) (keyBound n) (keyBound_ok n Hn) (keyFuel (keybytesToHex key)) true nd t' (keyBound n) (keybytesToHex key) [])
      as (d & n' & o & -> & Hn' & [H1 H2] & _); try done; [unfold keyFuel; pose proof (wait_le nd); lia|].
    by exists d, n', o.
  - exists false, None, None. split_and!; [unfold keyFuel; by rewrite Nat.add_comm|constructor|done|]. intros l _. by case_bool_decide.
Qed.

(** ** Each operation *)

Lemma TryGet_ok key t o : key_ok n key -> is_trie t o -> exists t', TryGet db key t = (t', Ok (content o key)) /\ is_trie t' o.
Proof using hash_len hash_ok Hn.
  intros Hk Ht. unfold TryGet. destruct (tryGet_root key t o Hk Ht) as (n' & [|] & -> & Hr); eexists; (split; [done|]); [|done].
  split; [done|apply Ht..].
Qed.

Lemma TryUpdate_ok key value t o : key_ok n key -> bytes_ok value -> zlen value < 2 ^ 60 -> is_trie t o ->
  exists t' o', TryUpdate db key value t = Ok t' /\ is_trie t' o' /\
    forall k, bytes_ok k -> content o' k = if bool_decide (k = key) then (if bool_decide (value = []) then None else Some value) else content o k.
Proof using hash_len hash_ok Hn.
  intros Hk Hv Hl Ht. unfold TryUpdate. case_bool_decide as Ev.
  - subst. cbn [zlen length Z.of_nat Z.eqb negb]. destruct (delete_root key t o Hk Ht) as (d & nd & o' & -> & Ht' & Hc).
    eexists _, o'. split; [done|]. split; [done|]. apply (content_update _ _ key); [done|apply Hk].
  - destruct (Z.eqb_spec (zlen value) 0) as [E|_]; [by destruct value|]. cbn [negb].
    destruct (insert_root key value t o Hk ltac:(done) Ht) as (d & nd & o' & -> & Ht' & Hc).
    eexists _, o'. split; [done|]. split; [done|]. apply (content_update _ _ key); [done|apply Hk].
Qed.

Lemma TryDelete_ok key t o : key_ok n key -> is_trie t o ->
  exists t' o', TryDelete db key t = Ok t' /\ is_trie t' o' /\ forall k, bytes_ok k -> content o' k = if bool_decide (k = key) then None else content o k.
Proof using hash_len hash_ok Hn.
  intros Hk Ht. unfold TryDelete. destruct (delete_root key t o Hk Ht) as (d & nd & o' & -> & Ht' & Hc).
  eexists _, o'. split; [done|]. split; [done|]. apply (content_update _ _ key); [done|apply Hk].
Qed.

Lemma trie_run_ok ops t m : Forall (op_ok n) ops -> trie_map hash db n t m ->
  exists t', trie_run db ops t = Ok (t', snd (map_run ops m)) /\ trie_map hash db n t' (fst (map_run ops m)).
Proof using hash_len hash_ok Hn.
  intros Ho. revert t m. induction Ho as [|[key|key value|key] ops Hop Ho IH]; intros t m (o & Ht & Hm); cbn [trie_run map_run].
  - exists t. split; [done|]. by exists o.
  - destruct (TryGet_ok key t o Hop Ht) as (t1 & -> & Ht1). cbn [outcome_bind]. destruct (IH t1 m) as (t2 & -> & H2); [by exists o|].
    rewrite Hm by apply Hop. destruct (map_run ops m). by exists t2.
  - destruct Hop as (Hk & Hv & Hl). destruct (TryUpdate_ok key value t o Hk Hv Hl Ht) as (t1 & o1 & -> & Ht1 & Hc). cbn [outcome_bind].
    apply IH. exists o1. split; [done|]. intros k Hkb. rewrite Hc, Hm by done. unfold map_write.
    do 2 case_bool_decide; subst; by simplify_map_eq.
  - destruct (TryDelete_ok key t o Hop Ht) as (t1 & o1 & -> & Ht1 & Hc). cbn [outcome_bind].
    apply IH. exists o1. split; [done|]. intros k Hkb. rewrite Hc, Hm by done. case_bool_decide; subst; by simplify_map_eq.
Qed.


(** C8. The trie is a map: any sequence of reads, writes and deletions on a trie that
    stands for a map, whatever part of it is loaded and whatever hashes are cached, returns,
    gives the results the same operations have on the map and leaves a trie that stands for
    the resulting map. *)
Theorem trie_refines_map ops t m : Forall (op_ok n) ops -> trie_map hash db n t m ->
  exists t', trie_run db ops t = Ok (t', snd (map_run ops m)) /\ trie_map hash db n t' (fst (map_run ops m)).
Proof using hash_len hash_ok Hn. apply trie_run_ok. Qed.

End map.

(** The empty trie stands for the empty map. *)
Definition emptyTrie : Trie := MkTrie None [] 0 0.
Lemma emptyTrie_map hash db n : trie_map hash db n emptyTrie ∅.
Proof. exists None. split; [by repeat constructor|]. intros. by rewrite lookup_empty. Qed.

(** ** Content decides the tree *)

Lemma same_content hash db db' n n' t t' o o' : is_trie hash db n t o -> is_trie hash db' n' t' o' ->
  (forall key, bytes_ok key -> content o key = content o' key) -> o = o'.
Proof.
  intros [_ Hc Hk] [_ Hc' Hk'] Heq. assert (forall k, hexkey k -> oget o k = oget o' k) as Hall.
  { intros k Hh. destruct (oget o k) as [v|] eqn:E.
    - destruct (Hk k v Hh E) as (key & Hb & ->). specialize (Heq key Hb). unfold content in Heq. congruence.
    - destruct (oget o' k) as [v|] eqn:E'; [|done]. destruct (Hk' k v Hh E') as (key & Hb & ->). specialize (Heq key Hb). unfold content in Heq. congruence. }
  destruct o as [u|], o' as [u'|]; [f_equal; by eapply canon_unique| | |done]; exfalso.
  - destruct (canon_inhabited _ _ Hc) as (k & v & Hh & Hv). specialize (Hall k Hh). cbn in Hall. congruence.
  - destruct (canon_inhabited _ _ Hc') as (k & v & Hh & Hv). specialize (Hall k Hh). cbn in Hall. congruence.
Qed.

(** A hash with outputs of the right shape. *)
Definition constHash (b : bytes) : bytes := replicate 32 0.
Lemma constHash_len b : length (constHash b) = 32%nat.
Proof. done. Qed.
Lemma constHash_ok b : bytes_ok (constHash b).
Proof. by apply Forall_replicate. Qed.

Definition sample_ops : list trie_op := [OpUpdate [1; 2] [7]; OpUpdate [1; 3] [8]; OpUpdate [1] [9]; OpDelete [1; 2]; OpGet [1; 3]; OpGet [1; 2]; OpUpdate [1] []; OpGet [1]].

Lemma trie_refines_map_witness : exists t', trie_run (fun _ => None) sample_ops emptyTrie = Ok (t', [Some [8]; None; None]) /\
  trie_map constHash (fun _ => None) 2 t' {[ [1; 3] := [8] ]}.
Proof.
  assert (Forall (op_ok 2) sample_ops) as Ho by (repeat constructor; try lia; done).
  destruct (trie_refines_map constHash constHash_len constHash_ok (fun _ => None) 2 ltac:(done) sample_ops emptyTrie ∅ Ho (emptyTrie_map _ _ _)) as (t' & E & H).
  exists t'. split; [exact E|]. assert (fst (map_run sample_ops ∅) = {[ [1; 3] := [8] ]}) as <- by (vm_compute; reflexivity). exact H.
Defined.
