(* ===== verification/TrieDatabase.v ===== *)
(** The write layer under the tries ([src/trie/database.go]): encoded nodes kept in memory
    with reference counts, collected when nothing refers to them any more or flushed to
    disk.

    Writes go through batches ([src/eaidb/memory_database.go]), which may fail to be written;
    a batch is written whole or not at all.  Go ranges over maps in an unspecified order, here
    it is the one of [map_to_list].  Locks, logging and the statistics kept for it are not
    modelled.  The properties of collection and commit are in [TrieGC]. *)

From stdpp Require Import base numbers list gmap.
From S2P Require Import Prelude.
From S2P Require Import CommonMath.
Local Open Scope Z_scope.
Local Open Scope go_scope.

Record cachedNode := MkCached { blob : option bytes; parents : Z; children : gmap bytes Z }.

Record Database := MkDatabase {
  nodes : gmap bytes cachedNode; preimages : gmap bytes bytes; diskdb : gmap bytes bytes;
  nodesSize : Z; preimagesSize : Z }.

Definition with_nodes (db : Database) (m : gmap bytes cachedNode) : Database :=
  MkDatabase m (preimages db) (diskdb db) (nodesSize db) (preimagesSize db).
Definition with_size (db : Database) (n : Z) : Database := MkDatabase (nodes db) (preimages db) (diskdb db) n (preimagesSize db).

(** The node with the zero hash refers to the roots. *)
Definition metaroot : bytes := replicate HashLength 0.

Definition NewDatabase (disk : gmap bytes bytes) : Database :=
  MkDatabase {[metaroot := MkCached None 0 ∅]} ∅ disk 0 0.

(** [len(blob)] of a possibly nil slice. *)
Definition blobLen (b : option bytes) : Z := match b with Some b => zlen b | None => 0 end.
Definition nodeSize (b : option bytes) : Z := Z.of_nat HashLength + blobLen b.

Definition db_insert (hash blob : bytes) (db : Database) : Database :=
  match nodes db !! hash with
  | Some _ => db
  | None => with_size (with_nodes db (<[hash := MkCached (Some blob) 0 ∅]> (nodes db))) (nodesSize db + nodeSize (Some blob))
  end.

Definition insertPreimage (hash preimage : bytes) (db : Database) : Database :=
  match preimages db !! hash with
  | Some _ => db
  | None => MkDatabase (nodes db) (<[hash := preimage]> (preimages db)) (diskdb db) (nodesSize db)
              (preimagesSize db + nodeSize (Some preimage))
  end.

(** [None] stands for a nil slice or an error of the disk. *)
Definition Node (db : Database) (hash : bytes) : option bytes :=
  match nodes db !! hash with Some n => blob n | None => diskdb db !! hash end.

Definition secureKeyPrefix : bytes := [115; 101; 99; 117; 114; 101; 45; 107; 101; 121; 45].
Definition secureKey (key : bytes) : bytes := secureKeyPrefix ++ key.

Definition db_preimage (db : Database) (hash : bytes) : option bytes :=
  match preimages db !! hash with Some p => Some p | None => diskdb db !! secureKey hash end.

Definition with_parents (n : cachedNode) (p : Z) : cachedNode := MkCached (blob n) p (children n).
Definition with_children (n : cachedNode) (c : gmap bytes Z) : cachedNode := MkCached (blob n) (parents n) c.

(** A parent that is not there is a nil pointer. *)
Definition reference (child parent : bytes) (db : Database) : option Database :=
  match nodes db !! child with
  | None => Some db
  | Some node =>
      p ← nodes db !! parent;
      if bool_decide (is_Some (children p !! child)) && negb (bool_decide (parent = metaroot)) then Some db
      else
        let m := <[child := with_parents node (parents node + 1)]> (nodes db) in
        p ← m !! parent;
        Some (with_nodes db (<[parent := with_children p (<[child := default 0 (children p !! child) + 1]> (children p))]> m))
  end.

(** [node.children[child]--], dropping the entry at zero. *)
Definition dropChild (child : bytes) (c : gmap bytes Z) : gmap bytes Z :=
  let n := default 0 (c !! child) - 1 in if n =? 0 then delete child c else <[child := n]> c.

Definition childHashes (n : cachedNode) : list bytes := map fst (map_to_list (children n)).

Section cascade.
Variable deref : bytes -> bytes -> Database -> outcome Empty_set Database.
Fixpoint derefAll (hashes : list bytes) (parent : bytes) (db : Database) : outcome Empty_set Database :=
  match hashes with
  | [] => Ok db
  | h :: hashes => let! db := deref h parent db in derefAll hashes parent db
  end.
End cascade.

Fixpoint dereference (fuel : nat) (child parent : bytes) (db : Database) : outcome Empty_set Database :=
  match fuel with
  | O => NoFuel
  | S fuel =>
      let! p := must (nodes db !! parent) in
      let db := with_nodes db (<[parent := with_children p (dropChild child (children p))]> (nodes db)) in
      match nodes db !! child with
      | None => Ok db
      | Some node =>
          let node := with_parents node (parents node - 1) in
          let db := with_nodes db (<[child := node]> (nodes db)) in
          if parents node =? 0 then
            let! db := derefAll (dereference fuel) (childHashes node) child db in
            Ok (with_size (with_nodes db (delete child (nodes db))) (nodesSize db - nodeSize (blob node)))
          else Ok db
      end
  end.

(** * Flushing to disk *)

(** A batch of writes. *)
Record Batch := MkBatch { writes : list (bytes * bytes); size : Z }.
Definition NewBatch : Batch := MkBatch [] 0.
Definition batch_Put (key value : bytes) (b : Batch) : Batch := MkBatch (writes b ++ [(key, value)]) (size b + zlen value).
Definition batch_Write (b : Batch) (disk : gmap bytes bytes) : gmap bytes bytes := foldl (fun d w => <[w.1 := w.2]> d) disk (writes b).
Definition IdealBatchSize : Z := 100 * 1024.

(** The disk, the batch being filled, and which of the coming writes will fail. *)
Record flush := MkFlush { f_disk : gmap bytes bytes; f_batch : Batch; f_faults : list bool }.

(** An error leaves the disk as it is then. *)
Definition f_Write (f : flush) : outcome (gmap bytes bytes) flush :=
  match f_faults f with
  | true :: _ => Err (f_disk f)
  | fs => Ok (MkFlush (batch_Write (f_batch f) (f_disk f)) (f_batch f) (tail fs))
  end.
Definition f_Reset (f : flush) : flush := MkFlush (f_disk f) NewBatch (f_faults f).
Definition f_Put (key value : bytes) (f : flush) : flush := MkFlush (f_disk f) (batch_Put key value (f_batch f)) (f_faults f).
Definition f_Flush (full : bool) (f : flush) : outcome (gmap bytes bytes) flush :=
  if full then let! f := f_Write f in Ok (f_Reset f) else Ok f.

Fixpoint commitPreimages (ps : list (bytes * bytes)) (f : flush) : outcome (gmap bytes bytes) flush :=
  match ps with
  | [] => Ok f
  | (hash, preimage) :: ps =>
      let f := f_Put (secureKey hash) preimage f in
      let! f := f_Flush (IdealBatchSize <? size (f_batch f)) f in
      commitPreimages ps f
  end.

Section children.
Variable commit : bytes -> flush -> outcome (gmap bytes bytes) flush.
Fixpoint commitAll (hashes : list bytes) (f : flush) : outcome (gmap bytes bytes) flush :=
  match hashes with
  | [] => Ok f
  | h :: hashes => let! f := commit h f in commitAll hashes f
  end.
Variable uncache : bytes -> Database -> outcome Empty_set Database.
Fixpoint uncacheAll (hashes : list bytes) (db : Database) : outcome Empty_set Database :=
  match hashes with
  | [] => Ok db
  | h :: hashes => let! db := uncache h db in uncacheAll hashes db
  end.
End children.

Fixpoint db_commit (fuel : nat) (db : Database) (hash : bytes) (f : flush) : outcome (gmap bytes bytes) flush :=
  match fuel with
  | O => NoFuel
  | S fuel =>
      match nodes db !! hash with
      | None => Ok f
      | Some node =>
          let! f := commitAll (db_commit fuel db) (childHashes node) f in
          let f := f_Put hash (default [] (blob node)) f in
          f_Flush (IdealBatchSize <=? size (f_batch f)) f
      end
  end.

Fixpoint uncache (fuel : nat) (hash : bytes) (db : Database) : outcome Empty_set Database :=
  match fuel with
  | O => NoFuel
  | S fuel =>
      match nodes db !! hash with
      | None => Ok db
      | Some node =>
          let! db := uncacheAll (uncache fuel) (childHashes node) db in
          Ok (with_size (with_nodes db (delete hash (nodes db))) (nodesSize db - nodeSize (blob node)))
      end
  end.

Definition with_disk (db : Database) (disk : gmap bytes bytes) : Database :=
  MkDatabase (nodes db) (preimages db) disk (nodesSize db) (preimagesSize db).

(** The error carries the database as the failed write leaves it. *)
Definition db_Commit (fuel : nat) (faults : list bool) (node : bytes) (db : Database) : outcome Database Database :=
  match (let! f := commitPreimages (map_to_list (preimages db)) (MkFlush (diskdb db) NewBatch faults) in
         let! f := db_commit fuel db node f in
         f_Write f) with
  | Ok f =>
      match uncache fuel node (MkDatabase (nodes db) ∅ (f_disk f) (nodesSize db) 0) with
      | Ok db => Ok db
      | Err e => match e with end
      | Panic => Panic
      | NoFuel => NoFuel
      end
  | Err disk => Err (with_disk db disk)
  | Panic => Panic
  | NoFuel => NoFuel
  end.

(** The hashes kept in memory, and the memory taken. *)
Definition Nodes (db : Database) : list bytes := filter (fun h => h <> metaroot) (map fst (map_to_list (nodes db))).
Definition Size (db : Database) : Z := nodesSize db + preimagesSize db.

(** * References do not change what is stored *)

Definition same_nodes (db db' : Database) : Prop :=
  (forall h, blob <$> nodes db !! h = blob <$> nodes db' !! h) /\ diskdb db = diskdb db'.

#[global] Instance same_nodes_equiv : Equivalence same_nodes.
Proof.
  split.
  - done.
  - intros x y [H1 H2]. by split.
  - intros x y z [H1 H2] [H3 H4]. split; [|congruence]. intros h. by rewrite H1.
Qed.

Lemma same_nodes_Node db db' h : same_nodes db db' -> Node db h = Node db' h.
Proof. intros [H1 H2]. unfold Node. specialize (H1 h). destruct (nodes db !! h), (nodes db' !! h); try done; [by injection H1|by rewrite H2]. Qed.
Lemma same_nodes_in db db' h : same_nodes db db' -> is_Some (nodes db !! h) -> is_Some (nodes db' !! h).
Proof. intros [H _] [n E]. specialize (H h). rewrite E in H. destruct (nodes db' !! h); [by eexists|done]. Qed.

(** Replacing a node by one with the same content. *)
Lemma same_nodes_insert db h n n' : nodes db !! h = Some n -> blob n' = blob n -> same_nodes db (with_nodes db (<[h := n']> (nodes db))).
Proof. intros Hn Hb. split; [|done]. intros k. cbn. destruct (decide (k = h)) as [->|]; simplify_map_eq; [cbn; congruence|done]. Qed.

Lemma reference_same child parent db : is_Some (nodes db !! parent) -> exists db', reference child parent db = Some db' /\ same_nodes db db'.
Proof.
  intros [p Hp]. unfold reference. destruct (nodes db !! child) as [c|] eqn:Hc; [|by exists db]. rewrite Hp. cbn [mbind option_bind].
  destruct (bool_decide _ && _); [by exists db|]. set (db1 := with_nodes db (<[child := with_parents c (parents c + 1)]> (nodes db))).
  assert (same_nodes db db1) as H1 by by apply (same_nodes_insert _ _ c).
  change (<[child := _]> (nodes db)) with (nodes db1). destruct (same_nodes_in _ _ parent H1 ltac:(by eexists)) as [q Hq]. rewrite Hq.
  eexists. split; [done|]. etrans; [exact H1|]. by apply (same_nodes_insert db1 _ q).
Qed.

Lemma Node_insert_eq h b db : nodes db !! h = None -> Node (db_insert h b db) h = Some b.
Proof. intros H. unfold db_insert, Node. rewrite H. cbn. by simplify_map_eq. Qed.
Lemma Node_insert_ne h b db k : k <> h -> Node (db_insert h b db) k = Node db k.
Proof. intros H. unfold db_insert, Node. destruct (nodes db !! h); [done|]. cbn. by simplify_map_eq. Qed.
Lemma insert_in h b db : is_Some (nodes (db_insert h b db) !! h).
Proof. unfold db_insert. destruct (nodes db !! h) eqn:E; [by rewrite E|]. cbn. by simplify_map_eq. Qed.
