(* ===== verification/TrieGC.v ===== *)
(** Reference counting in the trie database ([src/trie/database.go]): dropping a reference
    collects exactly what nothing refers to any more, and committing moves nodes to disk
    without ever making one unavailable.

    Nodes may be on disk and in memory at once; for those the counts need not be exact, and
    need not be, since they can always be read from disk. *)

From stdpp Require Import base numbers list gmap relations.
From S2P Require Import Prelude.
From S2P Require Import CommonMath.
From S2P Require Import TrieDatabase.
Local Open Scope Z_scope.
Local Open Scope go_scope.

(** * Sums over maps *)

Section msum.
Context {V : Type} (f : bytes -> V -> Z).
Definition msum (m : gmap bytes V) : Z := map_fold (fun k v acc => f k v + acc) 0 m.

Lemma msum_fresh k v m : m !! k = None -> msum (<[k := v]> m) = f k v + msum m.
Proof. intros H. unfold msum. apply (map_fold_insert_L (fun k v acc => f k v + acc)); [intros; lia|done]. Qed.
Lemma msum_delete k v m : m !! k = Some v -> msum (delete k m) = msum m - f k v.
Proof. intros H. rewrite <- (insert_delete_id m k v H) at 2. rewrite msum_fresh by apply lookup_delete_eq. lia. Qed.
Lemma msum_insert k v w m : m !! k = Some v -> msum (<[k := w]> m) = msum m - f k v + f k w.
Proof. intros H. rewrite <- insert_delete_eq, msum_fresh, (msum_delete k v) by (done || apply lookup_delete_eq). lia. Qed.

Lemma msum_nonneg m : (forall k v, m !! k = Some v -> 0 <= f k v) -> 0 <= msum m.
Proof.
  induction m as [|k v m Hk IH] using map_ind; intros H; [done|]. rewrite msum_fresh by done.
  pose proof (H k v ltac:(by simplify_map_eq)). assert (0 <= msum m); [|lia]. apply IH. intros j w Hj. apply (H j). rewrite lookup_insert_ne; [done|]. by intros ->; simplify_eq.
Qed.
Lemma msum_member k v m : (forall k v, m !! k = Some v -> 0 <= f k v) -> m !! k = Some v -> f k v <= msum m.
Proof.
  intros H Hk. pose proof (msum_delete k v m Hk). assert (0 <= msum (delete k m)); [|lia]. apply msum_nonneg. intros j w Hj. apply (H j).
  by apply lookup_delete_Some in Hj as [_ Hj].
Qed.
End msum.

(** * References *)

Definition cnt (h : bytes) (n : cachedNode) : Z := default 0 (children n !! h).
(** How often [h] is referred to. *)
Definition refs (h : bytes) (m : gmap bytes cachedNode) : Z := msum (fun _ => cnt h) m.

Definition edge (m : gmap bytes cachedNode) (p c : bytes) : Prop := exists n, m !! p = Some n /\ is_Some (children n !! c).

Definition avail (db : Database) (h : bytes) : Prop := is_Some (nodes db !! h) \/ is_Some (diskdb db !! h).

Lemma childHashes_spec n h : h ∈ childHashes n <-> is_Some (children n !! h).
Proof.
  unfold childHashes. rewrite list_elem_of_fmap. split.
  - intros ([? c] & -> & Hin). apply elem_of_map_to_list in Hin. cbn. by rewrite Hin.
  - intros [c Hc]. exists (h, c). split; [done|]. by apply elem_of_map_to_list.
Qed.

Section gc.
(** Nodes refer to nodes of smaller rank; a tree's height is one. *)
Context (rank : bytes -> nat).

Record gc_ok (db : Database) : Prop := {
  g_root : is_Some (nodes db !! metaroot) /\ diskdb db !! metaroot = None;
  g_top p : ~ edge (nodes db) p metaroot;
  g_rank p c : edge (nodes db) p c -> (rank c < rank p)%nat;
  g_pos p n c k : nodes db !! p = Some n -> children n !! c = Some k -> 0 < k /\ (p <> metaroot -> k = 1);
  g_count h n : nodes db !! h = Some n -> diskdb db !! h = None -> h <> metaroot -> parents n = refs h (nodes db);
  g_avail p c : edge (nodes db) p c -> avail db c;
  g_closed p c : edge (nodes db) p c -> is_Some (diskdb db !! p) -> is_Some (diskdb db !! c);
  g_same h n b : nodes db !! h = Some n -> diskdb db !! h = Some b -> blob n = Some b }.

Lemma refs_zero db h : gc_ok db -> refs h (nodes db) = 0 -> forall p, ~ edge (nodes db) p h.
Proof.
  intros Hg Hr p (n & Hp & k & Hk). assert (cnt h n <= refs h (nodes db)) as Hle.
  { apply (msum_member (fun _ => cnt h) p); [|done]. intros q m Hq. unfold cnt. destruct (children m !! h) as [j|] eqn:E; cbn; [|lia]. by apply (g_pos _ Hg q m h j) in E as [? _]; [lia|]. }
  destruct (g_pos _ Hg p n h k Hp Hk). unfold cnt in Hle. rewrite Hk in Hle. cbn in Hle. lia.
Qed.

(** ** Losing references and nodes *)

Lemma gc_shrink db db' : gc_ok db -> diskdb db' = diskdb db -> is_Some (nodes db' !! metaroot) ->
  (forall p c, edge (nodes db') p c -> edge (nodes db) p c /\ avail db' c) ->
  (forall h n', nodes db' !! h = Some n' -> exists n, nodes db !! h = Some n /\ blob n' = blob n) ->
  (forall p n c k, nodes db' !! p = Some n -> children n !! c = Some k -> 0 < k /\ (p <> metaroot -> k = 1)) ->
  (forall h n, nodes db' !! h = Some n -> diskdb db !! h = None -> h <> metaroot -> parents n = refs h (nodes db')) -> gc_ok db'.
Proof.
  intros [[_ G1] G2 G3 G4 G5 G6 G7 G8] Hd Hr He Hb Hp Hc. constructor; rewrite ?Hd; try done.
  - intros p Hpm. by apply He in Hpm as [? _]; eapply G2.
  - intros p c Hpc. apply He in Hpc as [Hpc _]. by apply G3.
  - intros p c Hpc. by apply He in Hpc as [_ ?].
  - intros p c Hpc. apply He in Hpc as [Hpc _]. by apply (G7 p).
  - intros h n b Hh Hb'. destruct (Hb h n Hh) as (n0 & Hn0 & ->). by eapply G8.
Qed.

Lemma dropChild_lookup c ch d k : ch !! c = Some k ->
  dropChild c ch !! d = if bool_decide (d = c) then (if k =? 1 then None else Some (k - 1)) else ch !! d.
Proof.
  intros Hk. unfold dropChild. rewrite Hk. cbn [default]. change (id k) with k. replace (k - 1 =? 0) with (k =? 1) by (destruct (Z.eqb_spec k 1), (Z.eqb_spec (k - 1) 0); lia).
  case_bool_decide as E; destruct (k =? 1); subst; by simplify_map_eq.
Qed.

Lemma refs_insert h p n n' m : m !! p = Some n -> refs h (<[p := n']> m) = refs h m - cnt h n + cnt h n'.
Proof. apply (msum_insert (fun _ => cnt h)). Qed.

(** One reference less, and the count with it. *)
Definition unlink (child parent : bytes) (p : cachedNode) (m : gmap bytes cachedNode) : gmap bytes cachedNode :=
  let m := <[parent := with_children p (dropChild child (children p))]> m in
  match m !! child with Some n => <[child := with_parents n (parents n - 1)]> m | None => m end.

Lemma unlink_lookup child parent p m h : m !! parent = Some p -> child <> parent ->
  unlink child parent p m !! h =
    if bool_decide (h = parent) then Some (with_children p (dropChild child (children p)))
    else if bool_decide (h = child) then (fun n => with_parents n (parents n - 1)) <$> m !! child else m !! h.
Proof.
  intros Hp Hne. unfold unlink. rewrite lookup_insert_ne by done. destruct (m !! child) as [n|] eqn:E.
  - repeat case_bool_decide; subst; by simplify_map_eq.
  - repeat case_bool_decide; subst; by simplify_map_eq.
Qed.

Lemma unlink_refs child parent p k m h : m !! parent = Some p -> child <> parent -> children p !! child = Some k ->
  refs h (unlink child parent p m) = refs h m - if bool_decide (h = child) then 1 else 0.
Proof.
  intros Hp Hne Hk. unfold unlink. rewrite lookup_insert_ne by done.
  assert (cnt h (with_children p (dropChild child (children p))) = cnt h p - if bool_decide (h = child) then 1 else 0) as Hc.
  { unfold cnt. cbn. rewrite (dropChild_lookup _ _ _ k Hk). case_bool_decide; [subst; rewrite Hk; destruct (Z.eqb_spec k 1); cbn; lia|]. destruct (children p !! h); cbn; lia. }
  destruct (m !! child) as [n|] eqn:E.
  - rewrite (refs_insert h child n) by (by rewrite lookup_insert_ne). rewrite (refs_insert h parent p) by done. rewrite Hc.
    change (cnt h (with_parents n (parents n - 1))) with (cnt h n). lia.
  - rewrite (refs_insert h parent p) by done. rewrite Hc. lia.
Qed.

Lemma unlink_edge child parent p k m q c : m !! parent = Some p -> child <> parent -> children p !! child = Some k ->
  edge (unlink child parent p m) q c -> edge m q c.
Proof.
  intros Hp Hne Hk (n & Hn & j & Hj). rewrite unlink_lookup in Hn by done. repeat case_bool_decide; subst.
  - injection Hn as <-. cbn in Hj. rewrite (dropChild_lookup _ _ _ k Hk) in Hj. exists p. split; [done|]. case_bool_decide; [subst; by rewrite Hk|by exists j].
  - destruct (m !! child) as [n0|] eqn:E; [|done]. injection Hn as <-. exists n0. split; [done|by exists j].
  - exists n. split; [done|by exists j].
Qed.

Lemma unlink_ok child parent p k db : gc_ok db -> nodes db !! parent = Some p -> children p !! child = Some k ->
  child <> parent /\ child <> metaroot /\ gc_ok (with_nodes db (unlink child parent p (nodes db))).
Proof.
  intros Hg Hp Hk. assert (edge (nodes db) parent child) as Hpc by (exists p; split; [done|by exists k]).
  assert (child <> parent) as Hne by (intros ->; apply (g_rank _ Hg) in Hpc; lia).
  assert (child <> metaroot) as Hnm by (intros ->; by apply (g_top _ Hg) in Hpc). split_and!; [done..|].
  pose proof (fun q c => unlink_edge child parent p k (nodes db) q c Hp Hne Hk) as Hed.
  assert (forall h, is_Some (nodes db !! h) -> is_Some (unlink child parent p (nodes db) !! h)) as Hin.
  { intros h [n Hn]. rewrite unlink_lookup by done. repeat case_bool_decide; subst; [by eexists|rewrite Hn; by eexists|by eexists]. }
  apply (gc_shrink db); try done; cbn [nodes with_nodes].
  - apply Hin, (g_root _ Hg).
  - intros q c Hqc. split; [by apply Hed|]. apply Hed, (g_avail _ Hg) in Hqc as [H|H]; [left; by apply Hin|by right].
  - intros h n'. rewrite unlink_lookup by done. repeat case_bool_decide; subst.
    + intros [= <-]. by exists p.
    + intros (n & Hn & ->)%fmap_Some. by exists n.
    + by eexists.
  - intros q n c j. rewrite unlink_lookup by done. repeat case_bool_decide; subst.
    + intros [= <-]. cbn. rewrite (dropChild_lookup _ _ _ k Hk). destruct (g_pos _ Hg parent p child k Hp Hk) as [? Hk1]. case_bool_decide; [|by apply (g_pos _ Hg)].
      destruct (Z.eqb_spec k 1); [done|]. intros [= <-]. split; [lia|]. intros Hm. by specialize (Hk1 Hm).
    + intros (n0 & Hn & ->)%fmap_Some. intros Hj. by apply (g_pos _ Hg child n0 c j).
    + intros Hn Hj. by apply (g_pos _ Hg q n c j).
  - intros h n. rewrite unlink_lookup, (unlink_refs _ _ _ k) by done. repeat case_bool_decide; subst; try done.
    + intros [= <-] Hd Hm. cbn. rewrite (g_count _ Hg parent p) by done. lia.
    + intros (n0 & Hn & ->)%fmap_Some Hd Hm. cbn. rewrite (g_count _ Hg child n0) by done. lia.
    + intros Hn Hd Hm. rewrite (g_count _ Hg h n) by done. lia.
Qed.

(** ** Collecting *)

(** From [db] to [db'] references were dropped and nodes collected, the node [x] of [db]
    becoming [q]; nodes not below [x] are as they were. *)
Record collects (x : bytes) (q : cachedNode) (db db' : Database) : Prop := {
  co_ok : gc_ok db';
  co_node : nodes db' !! x = Some q;
  co_frame h : h <> x -> (rank x <= rank h)%nat -> nodes db' !! h = nodes db !! h;
  co_disk : diskdb db' = diskdb db /\ preimages db' = preimages db;
  co_nodes h n' : nodes db' !! h = Some n' -> exists n, nodes db !! h = Some n /\ blob n' = blob n /\ (parents n' = 0 -> parents n = 0) }.

Lemma collects_trans x q q' db1 db2 db3 : collects x q db1 db2 -> collects x q' db2 db3 -> collects x q' db1 db3.
Proof.
  intros [_ _ F1 [D1 P1] N1] [G2 Q2 F2 [D2 P2] N2]. constructor; [done|done| |split; congruence|].
  - intros h Hne Hr. by rewrite F2, F1.
  - intros h n3 H3. destruct (N2 h n3 H3) as (n2 & H2 & B2 & Z2). destruct (N1 h n2 H2) as (n1 & H1 & B1 & Z1). exists n1. split_and!; [done|congruence|auto].
Qed.

Lemma deref_eq fuel child parent db p : nodes db !! parent = Some p -> child <> parent ->
  dereference (S fuel) child parent db =
    let db1 := with_nodes db (unlink child parent p (nodes db)) in
    match nodes db1 !! child with
    | None => Ok db1
    | Some node =>
        if parents node =? 0 then
          let! db2 := derefAll (dereference fuel) (childHashes node) child db1 in
          Ok (with_size (with_nodes db2 (delete child (nodes db2))) (nodesSize db2 - nodeSize (blob node)))
        else Ok db1
    end.
Proof.
  intros Hp Hne. cbn [dereference]. rewrite Hp. cbn [must outcome_bind nodes with_nodes]. unfold unlink. rewrite !lookup_insert_ne by done.
  destruct (nodes db !! child) as [n|] eqn:E; [|by rewrite lookup_insert_ne, E]. by rewrite lookup_insert_eq.
Qed.

Definition deref_good (fuel : nat) : Prop := forall child parent p k db,
  gc_ok db -> nodes db !! parent = Some p -> children p !! child = Some k -> (rank parent < fuel)%nat ->
  exists db', dereference fuel child parent db = Ok db' /\ collects parent (with_children p (dropChild child (children p))) db db'.

(** Dropping all references of a node. *)
Lemma derefAll_ok fuel x : deref_good fuel -> (rank x < fuel)%nat -> x <> metaroot -> forall hs q db,
  gc_ok db -> nodes db !! x = Some q -> NoDup hs -> (forall h, h ∈ hs -> is_Some (children q !! h)) ->
  exists db' q', derefAll (dereference fuel) hs x db = Ok db' /\ collects x q' db db' /\ blob q' = blob q /\ parents q' = parents q /\
    forall h, children q' !! h = if bool_decide (h ∈ hs) then None else children q !! h.
Proof.
  intros IH Hr Hx. induction hs as [|c hs IHhs]; intros q db Hg Hq Hnd Hin; cbn [derefAll].
  { exists db, q. split; [done|]. split_and!; [|done..|]. - constructor; try done. intros h n Hn. by exists n. - intros h. by rewrite bool_decide_eq_false_2 by apply not_elem_of_nil. }
  apply NoDup_cons in Hnd as [Hc Hnd]. destruct (Hin c ltac:(by left)) as [k Hk]. destruct (IH c x q k db) as (db1 & -> & H1); try done.
  cbn [outcome_bind]. destruct (g_pos _ Hg x q c k Hq Hk) as [_ Hk1]. specialize (Hk1 Hx) as ->. set (q1 := with_children q (dropChild c (children q))) in *.
  assert (forall h, children q1 !! h = if bool_decide (h = c) then None else children q !! h) as Hq1 by (intros h; cbn; by rewrite (dropChild_lookup _ _ _ 1)).
  destruct (IHhs q1 db1) as (db2 & q2 & -> & H2 & B2 & P2 & C2); [apply H1|apply H1|done| |].
  { intros h Hh. rewrite Hq1, bool_decide_eq_false_2 by (intros ->; done). apply Hin. by right. }
  exists db2, q2. split; [done|]. split_and!; [by eapply collects_trans|done|done|]. intros h. rewrite C2, Hq1.
  destruct (decide (h = c)) as [->|Hh]; [by rewrite (bool_decide_eq_false_2 (c ∈ hs)), !bool_decide_eq_true_2 by (done || by left)|].
  rewrite (bool_decide_eq_false_2 (h = c)), (bool_decide_ext (h ∈ c :: hs) (h ∈ hs)); [done| |done]. rewrite elem_of_cons. naive_solver.
Qed.

(** A node without references goes. *)
Lemma drop_node_ok x q db z : gc_ok db -> x <> metaroot -> nodes db !! x = Some q -> parents q = 0 -> children q = ∅ ->
  gc_ok (with_size (with_nodes db (delete x (nodes db))) z).
Proof.
  intros Hg Hx Hq Hp Hc. assert (forall p c, edge (delete x (nodes db)) p c -> edge (nodes db) p c) as Hed.
  { intros p c (n & Hn & Hj). apply lookup_delete_Some in Hn as [_ Hn]. by exists n. }
  apply (gc_shrink db); try done; cbn [nodes with_nodes with_size].
  - rewrite lookup_delete_ne by done. apply (g_root _ Hg).
  - intros p c Hpc. split; [by apply Hed|]. destruct (decide (c = x)) as [->|Hne].
    + destruct (diskdb db !! x) eqn:Hd; [right; cbn; by rewrite Hd|]. exfalso. apply (refs_zero db x Hg) with (p := p); [|by apply Hed].
      by rewrite <- (g_count _ Hg x q).
    + apply Hed, (g_avail _ Hg) in Hpc as [H|H]; [left; cbn; by rewrite lookup_delete_ne|by right].
  - intros h n' Hh. apply lookup_delete_Some in Hh as [_ Hh]. by exists n'.
  - intros p n c k Hn. apply lookup_delete_Some in Hn as [_ Hn]. by apply (g_pos _ Hg).
  - intros h n Hn Hd Hm. apply lookup_delete_Some in Hn as [_ Hn]. rewrite (g_count _ Hg h n) by done.
    unfold refs. rewrite (msum_delete _ x q) by done. unfold cnt at 3. rewrite Hc, lookup_empty. cbn. lia.
Qed.

Lemma dereference_ok fuel : deref_good fuel.
Proof.
  induction fuel as [|fuel IH]; intros child parent p k db Hg Hp Hk Hr; [lia|].
  destruct (unlink_ok child parent p k db Hg Hp Hk) as (Hne & Hnm & Hg1). rewrite (deref_eq _ _ _ _ p) by done. cbv zeta.
  assert (rank child < rank parent)%nat as Hrc by (apply (g_rank _ Hg); exists p; split; [done|by exists k]).
  set (db1 := with_nodes db (unlink child parent p (nodes db))) in *.
  assert (forall h, nodes db1 !! h = unlink child parent p (nodes db) !! h) as Hl by done.
  assert (nodes db1 !! parent = Some (with_children p (dropChild child (children p)))) as Hp1 by by rewrite Hl, unlink_lookup, bool_decide_eq_true_2.
  assert (forall h, h <> parent -> h <> child -> nodes db1 !! h = nodes db !! h) as Ho1 by (intros h ? ?; by rewrite Hl, unlink_lookup, !bool_decide_eq_false_2).
  assert (nodes db1 !! child = (fun n => with_parents n (parents n - 1)) <$> nodes db !! child) as Hc1
    by by rewrite Hl, unlink_lookup, bool_decide_eq_false_2, bool_decide_eq_true_2.
  assert (forall h n', h <> child -> nodes db1 !! h = Some n' -> exists n, nodes db !! h = Some n /\ blob n' = blob n /\ (parents n' = 0 -> parents n = 0)) as Hn1.
  { intros h n' Hh Hn. destruct (decide (h = parent)) as [->|]; [rewrite Hp1 in Hn; injection Hn as <-; by exists p|]. rewrite Ho1 in Hn by done. by exists n'. }
  assert (forall h, h <> parent -> (rank parent <= rank h)%nat -> nodes db1 !! h = nodes db !! h) as Hf1.
  { intros h Hh Hle. apply Ho1; [done|]. intros ->. lia. }
  destruct (nodes db1 !! child) as [n|] eqn:Hn.
  2:{ exists db1. split; [done|]. constructor; try done. intros h n' Hh. apply Hn1; [|done]. intros ->. congruence. }
  symmetry in Hc1. apply fmap_Some in Hc1 as (n0 & Hn0 & ->). cbn [parents children blob with_parents]. destruct (Z.eqb_spec (parents n0 - 1) 0) as [Hz|Hz].
  2:{ exists db1. split; [done|]. constructor; try done. intros h n' Hh. destruct (decide (h = child)) as [->|]; [|by apply Hn1].
      rewrite Hn in Hh. injection Hh as <-. exists n0. split_and!; [done..|]. cbn. lia. }
  destruct (derefAll_ok fuel child IH ltac:(lia) Hnm (childHashes (with_parents n0 (parents n0 - 1))) (with_parents n0 (parents n0 - 1)) db1 Hg1 Hn)
    as (db2 & q & -> & H2 & Bq & Pq & Cq); [apply NoDup_fst_map_to_list|intros h; apply childHashes_spec|].
  destruct H2 as [Hg2 Hq2 Hf2 Hd2 Hn2]. cbn [outcome_bind]. eexists. split; [done|].
  assert (children q = ∅) as Hqe.
  { apply map_empty. intros h. rewrite Cq. case_bool_decide as E; [done|]. apply eq_None_not_Some. by rewrite <- childHashes_spec. }
  constructor; cbn [nodes with_nodes with_size].
  - apply (drop_node_ok child q); [done..| |done]. rewrite Pq. cbn. lia.
  - rewrite lookup_delete_ne, Hf2 by (done || lia). done.
  - intros h Hh Hle. assert (h <> child) by (intros ->; lia). rewrite lookup_delete_ne, Hf2 by (done || lia). by apply Hf1.
  - exact Hd2.
  - intros h n' (Hh & Hn')%lookup_delete_Some. destruct (Hn2 h n' Hn') as (m & Hm & Bm & Zm). destruct (Hn1 h m) as (m0 & ? & ? & ?); [done..|].
    exists m0. split_and!; [done|congruence|auto].
Qed.

(** ** Adding *)

Lemma refs_none h m : (forall p, ~ edge m p h) -> refs h m = 0.
Proof.
  intros He. unfold refs. assert (forall k n, m !! k = Some n -> cnt h n = 0) as Hz.
  { intros k n Hk. unfold cnt. destruct (children n !! h) as [j|] eqn:E; [|done]. destruct (He k). exists n. split; [done|by exists j]. }
  clear He. induction m as [|k n m Hk IH] using map_ind; [done|]. rewrite msum_fresh by done. rewrite (Hz k n) by by simplify_map_eq.
  rewrite IH; [done|]. intros j o Hj. apply (Hz j). rewrite lookup_insert_ne; [done|]. intros ->. congruence.
Qed.

Lemma insert_gc h b db : gc_ok db -> h <> metaroot -> (forall c, diskdb db !! h = Some c -> c = b) -> gc_ok (db_insert h b db).
Proof.
  intros Hg Hm Hd. unfold db_insert. destruct (nodes db !! h) as [n|] eqn:E; [done|].
  set (m := <[h := MkCached (Some b) 0 ∅]> (nodes db)).
  assert (forall p c, edge m p c -> edge (nodes db) p c) as Hed.
  { intros p c (n & Hn & j & Hj). apply lookup_insert_Some in Hn as [[<- <-]|[Hne Hn]]; [cbn in Hj; by rewrite lookup_empty in Hj|]. exists n. split; [done|by exists j]. }
  assert (forall k, refs k m = refs k (nodes db)) as Hrf by (intros k; unfold m, refs; rewrite msum_fresh by done; unfold cnt at 1; cbn; rewrite lookup_empty; cbn; lia).
  destruct Hg as [[G0 G1] G2 G3 G4 G5 G6 G7 G8]. constructor; cbn [nodes diskdb with_nodes with_size]; fold m.
  - split; [|done]. unfold m. by rewrite lookup_insert_ne.
  - intros p Hp. by apply (G2 p), Hed.
  - intros p c Hp. by apply G3, Hed.
  - intros p n c k [[<- <-]|[Hne Hn]]%lookup_insert_Some; [cbn; by rewrite lookup_empty|by apply G4].
  - intros k n Hk Hkd Hkm. rewrite Hrf. apply lookup_insert_Some in Hk as [[<- <-]|[Hne Hn]]; [|by apply G5]. cbn. symmetry. apply refs_none.
    intros p Hp. destruct (G6 p h Hp) as [[? ?]|[? ?]]; congruence.
  - intros p c Hp. apply Hed, G6 in Hp as [[n Hn]|Hp]; [left; cbn; unfold m; destruct (decide (c = h)) as [->|]; [by simplify_map_eq|rewrite lookup_insert_ne by done; by eexists]|by right].
  - intros p c Hp. by apply G7, Hed.
  - intros k n c [[<- <-]|[Hne Hn]]%lookup_insert_Some Hc; [cbn; by rewrite (Hd c)|by eapply G8].
Qed.

(** What a reference needs: the parent is there, what it refers to can be found, and is on
    disk when the parent is. *)
Record may_refer (child parent : bytes) (db : Database) : Prop := {
  mr_parent : is_Some (nodes db !! parent);
  mr_child : avail db child /\ child <> metaroot;
  mr_rank : (rank child < rank parent)%nat;
  mr_disk : is_Some (diskdb db !! parent) -> is_Some (diskdb db !! child) }.

Lemma reference_eq child parent db c p : nodes db !! child = Some c -> nodes db !! parent = Some p -> child <> parent ->
  reference child parent db =
    Some (if bool_decide (is_Some (children p !! child)) && negb (bool_decide (parent = metaroot)) then db
          else with_nodes db (<[parent := with_children p (<[child := cnt child p + 1]> (children p))]> (<[child := with_parents c (parents c + 1)]> (nodes db)))).
Proof.
  intros Hc Hp Hne. unfold reference. rewrite Hc, Hp. cbn [mbind option_bind]. destruct (bool_decide _ && _); [done|].
  rewrite lookup_insert_ne, Hp by done. done.
Qed.

Lemma reference_gc child parent db : gc_ok db -> may_refer child parent db -> exists db', reference child parent db = Some db' /\ gc_ok db'.
Proof.
  intros Hg [[p Hp] [Ha Hcm] Hr Hd]. assert (child <> parent) as Hne by (intros ->; lia).
  destruct (nodes db !! child) as [c|] eqn:Hc; [|exists db; split; [|done]; unfold reference; by rewrite Hc].
  rewrite (reference_eq _ _ _ c p) by done. eexists. split; [done|]. destruct (bool_decide _ && _) eqn:Hb'; [done|].
  assert (is_Some (children p !! child) -> parent = metaroot) as Hb.
  { intros Hs. rewrite bool_decide_eq_true_2 in Hb' by done. by apply negb_false_iff, bool_decide_eq_true in Hb'. }
  clear Hb'. set (m := <[parent := _]> _).
  assert (forall k, m !! k = if bool_decide (k = parent) then Some (with_children p (<[child := cnt child p + 1]> (children p)))
    else if bool_decide (k = child) then Some (with_parents c (parents c + 1)) else nodes db !! k) as Hm.
  { intros k. unfold m. repeat case_bool_decide; subst; by simplify_map_eq. }
  assert (forall k, refs k m = refs k (nodes db) + if bool_decide (k = child) then 1 else 0) as Hrf.
  { intros k. assert (cnt k (with_children p (<[child := cnt child p + 1]> (children p))) = if bool_decide (k = child) then cnt child p + 1 else cnt k p) as Hcn by (unfold cnt, with_children; cbn [children]; case_bool_decide; subst; [by rewrite lookup_insert_eq|by rewrite lookup_insert_ne]).
    unfold m. rewrite (refs_insert k parent p) by (by rewrite lookup_insert_ne). rewrite (refs_insert k child c) by done.
    change (cnt k (with_parents c (parents c + 1))) with (cnt k c). rewrite Hcn. case_bool_decide; subst; lia. }
  assert (forall q d, edge m q d -> edge (nodes db) q d \/ (q = parent /\ d = child)) as Hed.
  { intros q d (n & Hn & j & Hj). rewrite Hm in Hn. repeat case_bool_decide; subst; simplify_eq.
    - cbn in Hj. destruct (decide (d = child)) as [->|]; [by right|]. rewrite lookup_insert_ne in Hj by done. left. exists p. split; [done|by exists j].
    - left. exists c. split; [done|by exists j].
    - left. exists n. split; [done|by exists j]. }
  assert (forall k, is_Some (nodes db !! k) -> is_Some (m !! k)) as Hin by (intros k [n Hn]; rewrite Hm; repeat case_bool_decide; subst; by eexists).
  destruct Hg as [[G0 G1] G2 G3 G4 G5 G6 G7 G8]. constructor; cbn [nodes diskdb with_nodes].
  - auto.
  - intros q [Hq|[-> ?]]%Hed; [by apply (G2 q)|congruence].
  - intros q d [Hq|[-> ->]]%Hed; auto.
  - intros q n d k. rewrite Hm. repeat case_bool_decide; subst; [|intros [= <-]; by apply (G4 child c)|apply G4].
    intros [= <-]. cbn. destruct (decide (d = child)) as [->|]; [|rewrite lookup_insert_ne by done; by apply (G4 parent p)].
    rewrite lookup_insert_eq. intros [= <-]. unfold cnt. destruct (children p !! child) as [j|] eqn:Ej; cbn.
    + destruct (G4 parent p child j Hp Ej). split; [lia|]. intros Hpm. destruct Hpm. apply Hb. by eexists.
    + lia.
  - intros k n. rewrite Hm, Hrf. repeat case_bool_decide; subst; try done; intros Hk Hkd Hkm; simplify_eq; cbn; rewrite ?(G5 _ _ Hp), ?(G5 _ _ Hc), ?(G5 k n) by done; lia.
  - intros q d [Hq|[-> ->]]%Hed; [apply G6 in Hq|]; [destruct Hq as [H|H]|destruct Ha as [H|H]]; try (left; cbn; by apply Hin); by right.
  - intros q d [Hq|[-> ->]]%Hed; [by apply G7|done].
  - intros k n b. rewrite Hm. repeat case_bool_decide; subst; [intros [= <-]; by apply (G8 parent p)|intros [= <-]; by apply (G8 child c)|apply G8].
Qed.

(** ** Committing *)

(** The disk may grow by nodes whose children it has. *)
Record disk_grows (db : Database) (disk : gmap bytes bytes) : Prop := {
  dg_old h : is_Some (diskdb db !! h) -> is_Some (disk !! h);
  dg_other h : length h = HashLength -> nodes db !! h = None -> disk !! h = diskdb db !! h;
  dg_same h n b : nodes db !! h = Some n -> disk !! h = Some b -> blob n = Some b;
  dg_root : disk !! metaroot = None;
  dg_closed p c : edge (nodes db) p c -> is_Some (disk !! p) -> is_Some (disk !! c) }.

Lemma disk_gc db disk s ps z : gc_ok db -> disk_grows db disk -> gc_ok (MkDatabase (nodes db) ps disk s z).
Proof.
  intros [[G0 G1] G2 G3 G4 G5 G6 G7 G8] [D1 D2 D3 D4 D5]. constructor; cbn; try done.
  - intros h n Hn Hh Hm. apply G5; try done. destruct (diskdb db !! h) eqn:E; [|done]. destruct (D1 h); [by eexists|congruence].
  - intros p c Hp. destruct (G6 p c Hp) as [?|?]; [by left|right; by apply D1].
Qed.

(** A node of the disk may be dropped from memory. *)
Lemma evict_gc h db s : gc_ok db -> is_Some (diskdb db !! h) -> gc_ok (with_size (with_nodes db (delete h (nodes db))) s).
Proof.
  intros Hg Hh. assert (h <> metaroot) as Hm by (intros ->; destruct (g_root _ Hg) as [_ E]; rewrite E in Hh; by destruct Hh).
  assert (forall p c, edge (delete h (nodes db)) p c -> edge (nodes db) p c) as Hed by (intros p c (n & [_ Hn]%lookup_delete_Some & Hc); by exists n).
  destruct (nodes db !! h) as [x|] eqn:Hx.
  2:{ rewrite delete_id by done. destruct Hg; by constructor. }
  destruct Hg as [[G0 G1] G2 G3 G4 G5 G6 G7 G8]. constructor; cbn [nodes diskdb with_nodes with_size].
  - by rewrite lookup_delete_ne.
  - intros p Hp. by apply (G2 p), Hed.
  - intros p c Hp. by apply G3, Hed.
  - intros p n c k [_ Hn]%lookup_delete_Some. by apply G4.
  - intros k n [Hne Hn]%lookup_delete_Some Hd Hk. rewrite (G5 k n) by done. unfold refs. rewrite (msum_delete _ h x) by done.
    assert (cnt k x = 0); [|lia]. unfold cnt. destruct (children x !! k) as [j|] eqn:E; [|done].
    destruct (G7 h k) as [? ?]; [exists x; split; [done|by eexists]|done|congruence].
  - intros p c Hp%Hed. destruct (decide (c = h)) as [->|Hc]; [by right|]. destruct (G6 p c Hp) as [?|?]; [left; cbn; by rewrite lookup_delete_ne|by right].
  - intros p c Hp%Hed. by apply G7.
  - intros k n b [_ Hn]%lookup_delete_Some. by apply G8.
Qed.

(** Nodes are found under hashes, and have content. *)
Record shape_ok (db : Database) : Prop := {
  s_node h n : nodes db !! h = Some n -> length h = HashLength /\ (h <> metaroot -> is_Some (blob n));
  s_preimage h : is_Some (preimages db !! h) -> length h = HashLength }.

(** The value a batch gives a key, if any. *)
Lemma batch_Write_lookup b k : exists o, forall d, batch_Write b d !! k = match o with Some v => Some v | None => d !! k end.
Proof.
  destruct b as [ws n]. unfold batch_Write. cbn. induction ws as [|[j w] ws [o IH]] using rev_ind; [by exists None|].
  exists (if bool_decide (j = k) then Some w else o). intros d. rewrite foldl_app. cbn. case_bool_decide; [subst; apply lookup_insert_eq|by rewrite lookup_insert_ne].
Qed.
Lemma batch_Write_twice b d : batch_Write b (batch_Write b d) = batch_Write b d.
Proof. apply map_eq. intros k. destruct (batch_Write_lookup b k) as [[v|] H]; by rewrite !H. Qed.

Definition flushed (f : flush) : gmap bytes bytes := batch_Write (f_batch f) (f_disk f).

Lemma flushed_Put k v f : flushed (f_Put k v f) = <[k := v]> (flushed f).
Proof. unfold flushed, batch_Write. cbn. by rewrite foldl_app. Qed.

(** Both what is on disk and what will be are good. *)
Definition flush_ok (db : Database) (f : flush) : Prop := disk_grows db (f_disk f) /\ disk_grows db (flushed f).

(** A step of a commit: it fails with a good disk, or goes on with more to write. *)
Definition flushes (db : Database) (f : flush) (r : outcome (gmap bytes bytes) flush) (Q : flush -> Prop) : Prop :=
  match r with
  | Ok f' => flush_ok db f' /\ (forall h, is_Some (flushed f !! h) -> is_Some (flushed f' !! h)) /\ Q f'
  | Err disk => disk_grows db disk
  | _ => False
  end.

Lemma flushes_bind db f m k Q R : flushes db f m Q -> (forall f', flush_ok db f' -> (forall h, is_Some (flushed f !! h) -> is_Some (flushed f' !! h)) -> Q f' -> flushes db f' (k f') R) ->
  flushes db f (outcome_bind m k) R.
Proof.
  intros Hm Hk. destruct m as [f'|disk| |]; cbn in *; try done. destruct Hm as (H1 & H2 & H3). specialize (Hk f' H1 H2 H3).
  destruct (k f'); cbn in *; try done. destruct Hk as (? & ? & ?). split_and!; auto.
Qed.

Lemma f_Write_ok db f : flush_ok db f -> flushes db f (f_Write f) (fun f' => f_disk f' = flushed f /\ f_disk f' = flushed f').
Proof.
  intros [H1 H2].
  unfold f_Write. destruct (f_faults f) as [|[] fs]; cbn; [|done|]; unfold flush_ok, flushed in *; cbn; by rewrite batch_Write_twice.
Qed.

Lemma f_Flush_ok db f full : flush_ok db f -> flushes db f (f_Flush full f) (fun _ => True).
Proof.
  intros Hf. unfold f_Flush. destruct full; [|done]. eapply flushes_bind; [by apply f_Write_ok|].
  intros f' [Hd Hd'] Hl [H1 H2]. cbn. change (flushed (f_Reset f')) with (f_disk f'). unfold flush_ok. change (flushed (f_Reset f')) with (f_disk f'). rewrite H2.
  by split_and!.
Qed.

Lemma insert_grows db d k v : disk_grows db d ->
  (forall n, nodes db !! k = Some n -> blob n = Some v) -> (length k = HashLength -> is_Some (nodes db !! k)) -> k <> metaroot ->
  (forall c, edge (nodes db) k c -> is_Some (d !! c)) -> disk_grows db (<[k := v]> d).
Proof.
  intros [D1 D2 D3 D4 D5] Hv Hk Hm Hc.
  assert (forall h, is_Some (d !! h) -> is_Some (<[k := v]> d !! h)) as Hin by (intros h Hh; destruct (decide (h = k)) as [->|]; [by simplify_map_eq|by rewrite lookup_insert_ne]).
  constructor.
  - auto.
  - intros h Hl Hn. rewrite lookup_insert_ne; [by apply D2|]. intros ->. rewrite Hn in Hk. by destruct (Hk Hl).
  - intros h n b Hn [[<- <-]|[_ Hb]]%lookup_insert_Some; [auto|by eapply D3].
  - by rewrite lookup_insert_ne.
  - intros p c He Hp. apply Hin. destruct (decide (p = k)) as [->|]; [by apply Hc|]. apply (D5 p); [done|]. by rewrite lookup_insert_ne in Hp.
Qed.

Lemma f_Put_ok db f k v full : flush_ok db f ->
  (forall n, nodes db !! k = Some n -> blob n = Some v) -> (length k = HashLength -> is_Some (nodes db !! k)) -> k <> metaroot ->
  (forall c, edge (nodes db) k c -> is_Some (flushed f !! c)) ->
  flushes db f (f_Flush (full (f_batch (f_Put k v f))) (f_Put k v f)) (fun f' => is_Some (flushed f' !! k)).
Proof.
  intros [Hd Hf] Hv Hk Hm Hc. assert (flush_ok db (f_Put k v f)) as Hp by (split; [done|]; rewrite flushed_Put; by apply insert_grows).
  pose proof (f_Flush_ok db _ (full (f_batch (f_Put k v f))) Hp) as H. destruct (f_Flush _ _) as [f'|disk| |]; try done.
  destruct H as (H1 & H2 & _). split; [done|split].
  - intros h Hh. apply H2. rewrite flushed_Put. destruct (decide (h = k)) as [->|]; [by simplify_map_eq|by rewrite lookup_insert_ne].
  - apply H2. rewrite flushed_Put. by simplify_map_eq.
Qed.

Lemma secureKey_length h : length h = HashLength -> length (secureKey h) <> HashLength.
Proof. intros H. unfold secureKey. rewrite length_app, H. cbn. lia. Qed.

Lemma commitPreimages_ok db ps : shape_ok db -> (forall h p, (h, p) ∈ ps -> length h = HashLength) -> forall f, flush_ok db f ->
  flushes db f (commitPreimages ps f) (fun _ => True).
Proof.
  intros Hs. induction ps as [|[h p] ps IH]; intros Hps f Hf; cbn [commitPreimages]; [done|].
  pose proof (secureKey_length h (Hps h p ltac:(by left))) as Hl.
  assert (nodes db !! secureKey h = None) as Hn by (apply eq_None_not_Some; intros [n Hn]; by apply (s_node _ Hs) in Hn as [? _]).
  eapply flushes_bind.
  - apply (f_Put_ok db f (secureKey h) p (fun b => IdealBatchSize <? size b)); [done|congruence|done| |].
    + intros E. rewrite E in Hl. unfold metaroot in Hl. by rewrite length_replicate in Hl.
    + intros c (n & Hn' & _). congruence.
  - intros f' Hf' _ _. apply IH; [|done]. intros. eapply Hps. by right.
Qed.

Lemma commit_ok db : gc_ok db -> shape_ok db -> forall fuel h f, (rank h < fuel)%nat -> h <> metaroot -> flush_ok db f ->
  flushes db f (db_commit fuel db h f) (fun f' => is_Some (nodes db !! h) -> is_Some (flushed f' !! h)).
Proof.
  intros Hg Hs. induction fuel as [|fuel IH]; intros h f Hr Hm Hf; [lia|]. cbn [db_commit]. destruct (nodes db !! h) as [n|] eqn:Hn; [|split; [done|split; [done|by intros [? ?]]]].
  assert (forall cs f, (forall c, c ∈ cs -> edge (nodes db) h c) -> flush_ok db f ->
    flushes db f (commitAll (db_commit fuel db) cs f) (fun f' => forall c, c ∈ cs -> is_Some (flushed f' !! c))) as Hall.
  { induction cs as [|c cs IHc]; intros f0 Hcs Hf0; cbn [commitAll]; [split; [done|split; [done|]]; intros ? []%elem_of_nil|].
    assert (edge (nodes db) h c) as Hc by (apply Hcs; by left). pose proof (g_rank _ Hg _ _ Hc).
    eapply flushes_bind; [apply IH; [lia| |done]; intros ->; by apply (g_top _ Hg) in Hc|]. intros f1 Hf1 Hl1 H1. cbn in H1.
    assert (is_Some (flushed f1 !! c)) as Hc1 by (destruct (g_avail _ Hg _ _ Hc) as [?|?]; [auto|by apply Hf1]).
    specialize (IHc f1 ltac:(intros; apply Hcs; by right) Hf1). destruct (commitAll _ _ _); try done. destruct IHc as (? & Hl & Hq).
    split; [done|split; [auto|]]. intros c' [->|?]%elem_of_cons; auto. }
  eapply flushes_bind; [apply Hall; [|done]; intros c Hc; exists n; split; [done|by apply childHashes_spec]|].
  intros f' Hf' Hl Hc. cbn in Hc. destruct (s_node _ Hs h n Hn) as [_ [b Hb]]; [done|]. rewrite Hb. cbn [default id].
  pose proof (f_Put_ok db f' h b (fun b => IdealBatchSize <=? size b) Hf') as H.
  assert (flushes db f' (f_Flush (IdealBatchSize <=? size (f_batch (f_Put h b f'))) (f_Put h b f')) (fun f' => is_Some (flushed f' !! h))) as H'.
  { apply H; [congruence|by eexists|done|]. intros c (n' & Hn' & Hc'). apply Hc, childHashes_spec. congruence. }
  destruct (f_Flush _ _); try done. destruct H' as (? & ? & ?). split; [done|by split].
Qed.

(** Nodes of the disk leave the memory. *)
Record evicts (db db' : Database) : Prop := {
  ev_ok : gc_ok db';
  ev_disk : diskdb db' = diskdb db /\ preimages db' = preimages db;
  ev_nodes h : nodes db' !! h = nodes db !! h \/ (nodes db' !! h = None /\ is_Some (diskdb db !! h)) }.

Lemma evicts_trans db1 db2 db3 : evicts db1 db2 -> evicts db2 db3 -> evicts db1 db3.
Proof.
  intros [O1 [D1 P1] N1] [O2 [D2 P2] N2]. constructor; [done|split; congruence|]. intros h. rewrite D1 in N2.
  destruct (N2 h) as [->|[-> ?]]; [apply N1|by right].
Qed.

Lemma evicts_in db db' h n : evicts db db' -> nodes db' !! h = Some n -> nodes db !! h = Some n.
Proof. intros H Hn. destruct (ev_nodes _ _ H h) as [<-|[E _]]; congruence. Qed.

Lemma uncacheAll_ok fuel db hs : (forall h db, h ∈ hs -> gc_ok db -> is_Some (diskdb db !! h) -> exists db', uncache fuel h db = Ok db' /\ evicts db db' /\ nodes db' !! h = None) ->
  gc_ok db -> (forall h, h ∈ hs -> is_Some (diskdb db !! h)) -> exists db', uncacheAll (uncache fuel) hs db = Ok db' /\ evicts db db'.
Proof.
  intros IH. revert db. induction hs as [|h hs IHhs]; intros db Hg Hd; cbn [uncacheAll]; [exists db; split; [done|]; constructor; auto|].
  destruct (IH h db ltac:(by left) Hg ltac:(apply Hd; by left)) as (db1 & -> & E1 & _). cbn [outcome_bind].
  destruct (IHhs ltac:(intros; apply IH; [by right|done..]) db1) as (db2 & -> & E2); [apply E1| |exists db2; split; [done|by eapply evicts_trans]].
  intros h' Hh. destruct (ev_disk _ _ E1) as [-> _]. apply Hd. by right.
Qed.

Lemma uncache_ok fuel : forall h db, (rank h < fuel)%nat -> gc_ok db -> is_Some (diskdb db !! h) ->
  exists db', uncache fuel h db = Ok db' /\ evicts db db' /\ nodes db' !! h = None.
Proof.
  induction fuel as [|fuel IH]; intros h db Hr Hg Hd; [lia|]. cbn [uncache]. destruct (nodes db !! h) as [n|] eqn:Hn.
  2:{ exists db. split_and!; [done| |done]. constructor; auto. }
  assert (forall c, c ∈ childHashes n -> edge (nodes db) h c) as Hc by (intros c Hc; exists n; split; [done|by apply childHashes_spec]).
  destruct (uncacheAll_ok fuel db (childHashes n)) as (db1 & -> & E1); [|done| |].
  - intros c db' Hin Hg' Hd'. apply IH; [|done..]. pose proof (g_rank _ Hg _ _ (Hc c Hin)). lia.
  - intros c Hin. by apply (g_closed _ Hg h c); [apply Hc|].
  - cbn [outcome_bind]. eexists. split; [done|]. pose proof E1 as [O1 [D1 P1] N1]. split; [|cbn; by simplify_map_eq]. constructor; cbn [nodes diskdb preimages with_size with_nodes].
    + apply evict_gc; [done|by rewrite D1].
    + done.
    + intros k. destruct (decide (k = h)) as [->|]; [right; split; [by simplify_map_eq|done]|]. rewrite lookup_delete_ne by done. apply N1.
Qed.

Lemma evicts_Node db db' h : gc_ok db -> evicts db db' -> Node db' h = Node db h.
Proof.
  intros Hg [O [D _] N]. unfold Node. rewrite D. destruct (N h) as [->|[-> [b Hb]]]; [done|]. rewrite Hb.
  destruct (nodes db !! h) as [n|] eqn:E; [|done]. symmetry. by eapply (g_same _ Hg).
Qed.

Lemma grows_Node db disk ps s z h : disk_grows db disk -> length h = HashLength -> Node (MkDatabase (nodes db) ps disk s z) h = Node db h.
Proof. intros H Hh. unfold Node. cbn. destruct (nodes db !! h) eqn:E; [done|]. by apply (dg_other _ _ H). Qed.

(** *** The preimages are written *)

Lemma f_Flush_flushed full f f' : f_Flush full f = Ok f' -> flushed f' = flushed f.
Proof.
  unfold f_Flush, f_Write. destruct full; [|by intros [= <-]]. destruct (f_faults f) as [|[] fs]; cbn; [|done|]; by intros [= <-].
Qed.
Lemma f_Write_disk f f' : f_Write f = Ok f' -> f_disk f' = flushed f.
Proof. unfold f_Write. destruct (f_faults f) as [|[] fs]; cbn; [|done|]; by intros [= <-]. Qed.

Lemma commitPreimages_flushed ps : forall f f', NoDup (map fst ps) -> commitPreimages ps f = Ok f' ->
  forall h, (forall p, (h, p) ∈ ps -> flushed f' !! secureKey h = Some p) /\ (h ∉ map fst ps -> flushed f' !! secureKey h = flushed f !! secureKey h).
Proof.
  induction ps as [|[k v] ps IH]; intros f f' Hnd E h; cbn [commitPreimages map fst] in *; [injection E as <-; split; [by intros p []%elem_of_nil|done]|].
  apply NoDup_cons in Hnd as [Hk Hnd]. destruct (f_Flush _ _) as [f1| | |] eqn:E1; try done. apply f_Flush_flushed in E1. rewrite flushed_Put in E1.
  destruct (IH f1 f' Hnd E h) as [H1 H2]. split.
  - intros p [[= -> ->]|Hin]%elem_of_cons; [|auto]. rewrite H2, E1 by done. by simplify_map_eq.
  - intros [Hne Hn]%not_elem_of_cons. rewrite H2, E1 by done. rewrite lookup_insert_ne; [done|]. intros Heq. destruct Hne. by apply (app_inv_head secureKeyPrefix).
Qed.

Lemma commit_flushed db fuel : forall h f f' k, db_commit fuel db h f = Ok f' -> nodes db !! k = None -> flushed f' !! k = flushed f !! k.
Proof.
  induction fuel as [|fuel IH]; intros h f f' k E Hk; [done|]. cbn [db_commit] in E. destruct (nodes db !! h) as [n|] eqn:Hn; [|by injection E as <-].
  assert (forall cs f f', commitAll (db_commit fuel db) cs f = Ok f' -> flushed f' !! k = flushed f !! k) as Hall.
  { induction cs as [|c cs IHc]; intros g g' Eg; cbn [commitAll] in Eg; [by injection Eg as <-|]. destruct (db_commit fuel db c g) as [g1| | |] eqn:E1; try done.
    rewrite (IHc g1 g' Eg). by eapply IH. }
  destruct (commitAll _ _ _) as [f1| | |] eqn:E1; try done. cbn [outcome_bind] in E. apply f_Flush_flushed in E. rewrite E, flushed_Put, lookup_insert_ne by congruence.
  by eapply Hall.
Qed.

(** *** The whole commit *)

(** Every node can be read as before. *)
Definition same_answers (db db' : Database) : Prop := forall h, length h = HashLength -> Node db' h = Node db h.

Definition committed (db : Database) (h : bytes) (r : outcome Database Database) : Prop :=
  match r with
  | Ok db' =>
      gc_ok db' /\ shape_ok db' /\ same_answers db db' /\ nodes db' !! h = None /\ preimages db' = ∅ /\
      forall k p, preimages db !! k = Some p -> db_preimage db' k = Some p
  | Err db' => gc_ok db' /\ shape_ok db' /\ same_answers db db' /\ nodes db' = nodes db /\ preimages db' = preimages db
  | _ => False
  end.

Lemma db_Commit_ok fuel faults h db : gc_ok db -> shape_ok db -> (rank h < fuel)%nat -> h <> metaroot -> committed db h (db_Commit fuel faults h db).
Proof.
  intros Hg Hs Hr Hm. set (f0 := MkFlush (diskdb db) NewBatch faults).
  assert (disk_grows db (diskdb db)) as H0 by (destruct Hg as [[G0 G1] G2 G3 G4 G5 G6 G7 G8]; by constructor).
  assert (flushes db f0 (let! f := commitPreimages (map_to_list (preimages db)) f0 in let! f := db_commit fuel db h f in f_Write f)
    (fun f => (is_Some (nodes db !! h) -> is_Some (f_disk f !! h)) /\ f_disk f = flushed f)) as Hf.
  { eapply flushes_bind; [apply commitPreimages_ok; [done| |by split]; intros k p Hk%elem_of_map_to_list; apply (s_preimage _ Hs); by eexists|].
    intros f1 Hf1 _ _. eapply flushes_bind; [by apply commit_ok|]. intros f2 Hf2 _ Hh. cbn beta in Hh. pose proof (f_Write_ok db f2 Hf2) as H.
    destruct (f_Write f2) as [f3| | |]; try done. destruct H as (H1 & H2 & H3 & H4). split; [done|split; [done|]]. rewrite H3. split; [done|congruence]. }
  unfold db_Commit. fold f0. destruct (outcome_bind (commitPreimages (map_to_list (preimages db)) f0) _) as [f|disk| |] eqn:E; cbn in Hf; try done.
  2:{ cbn. split_and!; [by apply disk_gc|destruct Hs; by constructor| |done|done]. intros k Hk. by apply grows_Node. }
  destruct Hf as ([Hd _] & _ & Hh & Hfd). set (db1 := MkDatabase _ _ _ _ _). assert (gc_ok db1) as Hg1 by by apply disk_gc.
  assert (exists db', uncache fuel h db1 = Ok db' /\ evicts db1 db' /\ nodes db' !! h = None) as (db' & -> & Hev & Hn).
  { destruct (nodes db1 !! h) as [n|] eqn:En; [apply uncache_ok; [done..|]; apply Hh; by eexists|].
    exists db1. destruct fuel; [lia|]. cbn [uncache]. rewrite En. split_and!; [done| |done]. constructor; auto. }
  pose proof (ev_disk _ _ Hev) as [D P]. cbn. split_and!; [apply Hev| | |done|by rewrite P|].
  - constructor; [intros k n Hk; by apply (s_node _ Hs), (evicts_in _ _ _ _ Hev Hk)|]. rewrite P. cbn. intros k [? Hk]. by rewrite lookup_empty in Hk.
  - intros k Hk. rewrite (evicts_Node db1) by done. by apply grows_Node.
  - intros k p Hk. unfold db_preimage. rewrite P, D. cbn. rewrite lookup_empty.
    destruct (commitPreimages _ _) as [f1| | |] eqn:E1; try done. cbn [outcome_bind] in E. destruct (db_commit _ _ _ _) as [f2| | |] eqn:E2; try done. cbn [outcome_bind] in E.
    rewrite (f_Write_disk _ _ E), (commit_flushed _ _ _ _ _ _ E2).
    + eapply commitPreimages_flushed; [|exact E1|by apply elem_of_map_to_list]. apply NoDup_fst_map_to_list.
    + apply eq_None_not_Some. intros [n Hn']. apply (s_node _ Hs) in Hn' as [Hl _]. apply (secureKey_length k); [apply (s_preimage _ Hs); by eexists|done].
Qed.

(** * Histories *)

(** What the users of the database do: the tries insert nodes and preimages and refer to
    children, the chain holds roots, lets go of them, and commits some. *)
Inductive db_step : Database -> Database -> Prop :=
| step_insert h b db : length h = HashLength -> h <> metaroot -> (forall c, diskdb db !! h = Some c -> c = b) -> db_step db (db_insert h b db)
| step_preimage h p db : length h = HashLength -> db_step db (insertPreimage h p db)
| step_reference child parent db db' : may_refer child parent db -> reference child parent db = Some db' -> db_step db db'
| step_dereference fuel child parent db db' : edge (nodes db) parent child -> (rank parent < fuel)%nat -> dereference fuel child parent db = Ok db' -> db_step db db'
| step_commit fuel faults h db db' : h <> metaroot -> (rank h < fuel)%nat ->
    db_Commit fuel faults h db = Ok db' \/ db_Commit fuel faults h db = Err db' -> db_step db db'.

Definition db_ok (db : Database) : Prop := gc_ok db /\ shape_ok db.

Lemma NewDatabase_node disk h n : nodes (NewDatabase disk) !! h = Some n -> metaroot = h /\ MkCached None 0 ∅ = n.
Proof. intros H. cbn [nodes NewDatabase] in H. by apply lookup_singleton_Some in H. Qed.

Lemma NewDatabase_ok disk : disk !! metaroot = None -> db_ok (NewDatabase disk).
Proof.
  intros Hd. assert (forall p c, ~ edge (nodes (NewDatabase disk)) p c) as He.
  { intros p c (n & [<- <-]%NewDatabase_node & k & Hk). cbn in Hk. by rewrite lookup_empty in Hk. }
  split; constructor.
  - split; [by eexists|done].
  - intros p. apply He.
  - intros p c Hp. by apply He in Hp.
  - intros p n c k [<- <-]%NewDatabase_node Hk. cbn in Hk. by rewrite lookup_empty in Hk.
  - intros h n [<- <-]%NewDatabase_node. done.
  - intros p c Hp. by apply He in Hp.
  - intros p c Hp. by apply He in Hp.
  - intros h n b [<- <-]%NewDatabase_node Hb. change (disk !! metaroot = Some b) in Hb. congruence.
  - intros h n [<- <-]%NewDatabase_node. done.
  - intros h [p Hp]. cbn in Hp. by rewrite lookup_empty in Hp.
Qed.

Lemma shape_nodes db db' : shape_ok db -> preimages db' = preimages db ->
  (forall h n', nodes db' !! h = Some n' -> exists n, nodes db !! h = Some n /\ blob n' = blob n) -> shape_ok db'.
Proof.
  intros [S1 S2] Hp Hn. constructor; [|by rewrite Hp]. intros h n' Hh. destruct (Hn h n' Hh) as (n & Hn1 & ->). by apply (S1 h n).
Qed.

Lemma dereference_collects_from fuel child parent db : gc_ok db -> edge (nodes db) parent child -> (rank parent < fuel)%nat ->
  exists db' p, dereference fuel child parent db = Ok db' /\ collects parent p db db'.
Proof.
  intros Hg (p & Hp & k & Hk) Hr. destruct (dereference_ok fuel child parent p k db Hg Hp Hk Hr) as (db' & E & H). by exists db', (with_children p (dropChild child (children p))).
Qed.

Lemma reference_keeps child parent db db' : reference child parent db = Some db' -> is_Some (nodes db !! parent) -> same_nodes db db' /\ preimages db' = preimages db.
Proof.
  intros E Hp. destruct (reference_same child parent db Hp) as (db1 & E1 & H1). assert (db1 = db') as -> by congruence. split; [done|].
  revert E. unfold reference. destruct (nodes db !! child); [|by intros [= <-]]. destruct (nodes db !! parent); [|done]. cbn [mbind option_bind].
  destruct (_ && _); [by intros [= <-]|]. destruct (_ !! parent); [|done]. by intros [= <-].
Qed.

Lemma db_step_ok db db' : db_step db db' -> db_ok db -> db_ok db'.
Proof.
  intros Hst [Hg Hs]. destruct Hst as [h b db Hl Hm Hd|h p db Hl|child parent db db' Hr E|fuel child parent db db' He Hr E|fuel faults h db db' Hm Hr E].
  - split; [by apply insert_gc|]. unfold db_insert. destruct (nodes db !! h) eqn:E; [done|]. destruct Hs as [S1 S2]. constructor; cbn [nodes preimages with_nodes with_size]; [|done].
    intros k n [[<- <-]|[_ Hn]]%lookup_insert_Some; [cbn; split; [done|by eexists]|by apply S1].
  - unfold insertPreimage. destruct (preimages db !! h); [done|]. split; [destruct Hg; by constructor|]. destruct Hs as [S1 S2]. constructor; cbn [nodes preimages]; [done|].
    intros k [q Hq]. apply lookup_insert_Some in Hq as [[<- _]|[_ Hq]]; [done|]. apply S2. by eexists.
  - destruct (reference_gc _ _ _ Hg Hr) as (db1 & E1 & H1). assert (db1 = db') as -> by congruence. split; [done|].
    destruct (reference_keeps _ _ _ _ E (mr_parent _ _ _ Hr)) as [[Hb _] Hp]. apply (shape_nodes db); [done..|].
    intros h n' Hn. specialize (Hb h). rewrite Hn in Hb. by apply fmap_Some in Hb as (n & ? & ?); exists n.
  - destruct (dereference_collects_from fuel child parent db Hg He Hr) as (db1 & p & E1 & H). assert (db1 = db') as -> by congruence.
    split; [apply H|]. apply (shape_nodes db); [done|apply H|]. intros h n' Hn. destruct (co_nodes _ _ _ _ H h n' Hn) as (n & ? & ? & _). by exists n.
  - pose proof (db_Commit_ok fuel faults h db Hg Hs Hr Hm) as H. destruct E as [E|E]; rewrite E in H; cbn in H; split; apply H.
Qed.

Lemma db_history_ok db db' : rtc db_step db db' -> db_ok db -> db_ok db'.
Proof. induction 1; [done|]. eauto using db_step_ok. Qed.

Lemma avail_Node db h : db_ok db -> avail db h -> h <> metaroot -> is_Some (Node db h).
Proof.
  intros [Hg Hs] Ha Hm. unfold Node. destruct (nodes db !! h) as [n|] eqn:E; [by apply (s_node _ Hs h n)|]. destruct Ha as [[? ?]|?]; [congruence|done].
Qed.

Lemma reachable_Node db p h : db_ok db -> tc (edge (nodes db)) p h -> is_Some (Node db h).
Proof.
  intros Hd Ht. assert (exists q, edge (nodes db) q h) as [q Hq] by (clear -Ht; induction Ht; eauto).
  apply avail_Node; [done|by apply (g_avail _ (proj1 Hd) q)|]. intros ->. by apply (g_top _ (proj1 Hd) q).
Qed.

(** C17. Whatever the order in which nodes and preimages are inserted, references added and
    dropped, and tries committed to a disk that may fail, the reference counts of nodes only
    in memory are exact and every node that can be reached from a root still held can be
    read. *)
Theorem held_nodes_stay disk db : disk !! metaroot = None -> rtc db_step (NewDatabase disk) db ->
  (forall h n, nodes db !! h = Some n -> diskdb db !! h = None -> h <> metaroot -> parents n = refs h (nodes db)) /\
  (forall root h, edge (nodes db) metaroot root -> rtc (edge (nodes db)) root h -> is_Some (Node db h)).
Proof.
  intros Hd Hst. assert (db_ok db) as Hok by (eapply db_history_ok; [done|by apply NewDatabase_ok]). split; [apply Hok|].
  intros root h Hr Hh. apply (reachable_Node db metaroot); [done|]. eapply tc_rtc_r; [by apply tc_once|done].
Qed.

(** Dropping an existing reference returns, keeps the content of all nodes that remain
    and of the disk, collects every node whose last reference goes with it, and none that
    still has one. *)
Theorem dereference_collects fuel child parent db : gc_ok db -> edge (nodes db) parent child -> (rank parent < fuel)%nat ->
  exists db', dereference fuel child parent db = Ok db' /\ gc_ok db' /\ diskdb db' = diskdb db /\
    (forall h n', nodes db' !! h = Some n' -> exists n, nodes db !! h = Some n /\ blob n' = blob n /\ (parents n' = 0 -> parents n = 0)) /\
    (forall h, nodes db' !! h = None -> diskdb db !! h = None -> forall p, ~ edge (nodes db') p h).
Proof.
  intros Hg He Hr. destruct (dereference_collects_from fuel child parent db Hg He Hr) as (db' & p & E & H). exists db'.
  split_and!; [done|apply H|apply H|apply (co_nodes _ _ _ _ H)|]. intros h Hn Hd q Hq. destruct (co_disk _ _ _ _ H) as [D _].
  destruct (g_avail _ (co_ok _ _ _ _ H) q h Hq) as [[? ?]|[? ?]]; congruence.
Qed.

(** C18. A commit returns; at every moment, also when a write to disk fails half way, all
    nodes can be read as before.  When it succeeds the trie has left the memory and the
    preimages are on disk; when it fails nothing has left the memory. *)
Theorem commit_keeps_nodes fuel faults h db : db_ok db -> (rank h < fuel)%nat -> h <> metaroot ->
  committed db h (db_Commit fuel faults h db).
Proof. intros [Hg Hs] Hr Hm. by apply db_Commit_ok. Qed.
End gc.

(** * An example *)

Module GCSample.
Definition leafHash : bytes := replicate 32 1.
Definition rootHash : bytes := replicate 32 2.
Definition rank (h : bytes) : nat := if bool_decide (h = metaroot) then 2 else if bool_decide (h = rootHash) then 1 else 0.

Definition inserted : Database := db_insert rootHash [8] (db_insert leafHash [9] (NewDatabase ∅)).
Definition linked : Database := default inserted (reference leafHash rootHash inserted).
Definition held : Database := default linked (reference rootHash metaroot linked).

Lemma held_history : rtc (db_step rank) (NewDatabase ∅) held.
Proof.
  eapply rtc_l; [apply (step_insert rank leafHash [9]); [done|done|intros c E; vm_compute in E; discriminate E]|].
  eapply rtc_l; [apply (step_insert rank rootHash [8]); [done|done|intros c E; vm_compute in E; discriminate E]|].
  eapply rtc_l; [apply (step_reference rank leafHash rootHash _ linked); [|vm_compute; reflexivity]|].
  { constructor; [vm_compute; by eexists|split; [left; vm_compute; by eexists|done]|vm_compute; lia|intros [c E]; vm_compute in E; discriminate E]. }
  eapply rtc_l; [apply (step_reference rank rootHash metaroot _ held); [|vm_compute; reflexivity]|apply rtc_refl].
  constructor; [vm_compute; by eexists|split; [left; vm_compute; by eexists|done]|vm_compute; lia|intros [c E]; vm_compute in E; discriminate E].
Qed.

Lemma held_ok : db_ok rank held.
Proof. eapply db_history_ok; [apply held_history|by apply NewDatabase_ok]. Qed.

Lemma held_root : edge (nodes held) metaroot rootHash.
Proof. eexists. split; [vm_compute; reflexivity|by eexists]. Qed.

Lemma held_nodes_stay_witness : is_Some (Node held leafHash).
Proof.
  apply (held_nodes_stay rank ∅ held (lookup_empty metaroot) held_history) with rootHash; [apply held_root|]. apply rtc_once. eexists. split; [vm_compute; reflexivity|by eexists].
Defined.

Lemma dereference_collects_witness : exists db', dereference 3 rootHash metaroot held = Ok db' /\ gc_ok rank db'.
Proof. destruct (dereference_collects rank 3 rootHash metaroot held (proj1 held_ok) held_root ltac:(vm_compute; lia)) as (db' & E & H & _). exact (ex_intro _ db' (conj E H)). Defined.

Lemma commit_keeps_nodes_witness : committed rank held rootHash (db_Commit 2 [true] rootHash held).
Proof. apply (commit_keeps_nodes rank 2 [true] rootHash held held_ok); [vm_compute; lia|done]. Defined.
End GCSample.
