(* ===== verification/TrieHasher.v ===== *)
(** Hashing and storing tries ([src/trie/hasher.go] and the operations of
    [src/trie/trie.go] that use it): nodes are collapsed bottom up, long ones replaced by
    their hash, and with a database every long node is written to it.

    [Hash] returns the root hash of the tree the trie stands for, [Commit] also stores the
    tree, and [New] reopens what was stored. *)

From stdpp Require Import base numbers list gmap.
From S2P Require Import Prelude.
From S2P Require Import CommonMath.
From S2P Require Import RlpEncode.
From S2P Require Import RlpStream.
From S2P Require Import TrieEncoding.
From S2P Require Import TrieTree.
From S2P Require Import TrieNode.
From S2P Require Import TrieOps.
From S2P Require Import TrieStore.
From S2P Require Import TrieRefine.
From S2P Require Import TrieMap.
From S2P Require Import TrieDatabase.
Local Open Scope Z_scope.
Local Open Scope go_scope.

(** * Model *)

Section hasher.
(** The hash function, the hasher's cache parameters and its leaf callback, which may record references. *)
Context (sha : bytes -> bytes) (cachegen cachelimit : Z) (onleaf : option (bytes -> bytes -> Database -> Database)).

(** Hashing does not fail; encoding errors and bad nodes panic. *)
Abbreviation Hm := (outcome Empty_set).

Definition trackChild (hash : bytes) (db : Database) (o : option node) : Hm Database :=
  match o with Some (hashNode child) => must (reference (BytesToHash child) hash db) | _ => Ok db end.
Fixpoint trackChildren (hash : bytes) (cs : list (option node)) (db : Database) : Hm Database :=
  match cs with
  | [] => Ok db
  | o :: cs => let! db := trackChild hash db o in trackChildren hash cs db
  end.

Definition callLeaf (hash : bytes) (o : option node) (db : Database) : Database :=
  match onleaf, o with Some f, Some (valueNode child) => f child hash db | _, _ => db end.
Fixpoint callLeaves (hash : bytes) (cs : list (option node)) (db : Database) : Database :=
  match cs with [] => db | o :: cs => callLeaves hash cs (callLeaf hash o db) end.

(** The children a collapsed node refers to. *)
Definition tracked (n : node) : list (option node) :=
  match n with shortNode _ v _ => [v] | fullNode cs _ => take 16 cs | _ => [] end.

Definition store (n : node) (db : option Database) (force : bool) : Hm (node * option Database) :=
  match n with
  | hashNode _ => Ok (n, db)
  | _ =>
      match Encode (EncBuf [] [] 0) (node_rval n) with
      | Ok tmp =>
          if (zlen tmp <? 32) && negb force then Ok (n, db)
          else
            let hash := match fst (cache n) with Some hash => hash | None => sha tmp end in
            match db with
            | None => Ok (hashNode hash, None)
            | Some db =>
                let h := BytesToHash hash in
                let db := db_insert h tmp db in
                let! db := trackChildren h (tracked n) db in
                Ok (hashNode hash, Some (callLeaves h (tracked n) db))
            end
      | NoFuel => NoFuel
      | _ => Panic
      end
  end.

Definition setFlags (n : node) (hash : option bytes) (clean : bool) : node :=
  let upd f := MkFlag hash (fl_gen f) (if clean then false else fl_dirty f) in
  match n with
  | shortNode k v f => shortNode k v (upd f)
  | fullNode cs f => fullNode cs (upd f)
  | _ => n
  end.

Definition is_some {A} (o : option A) : bool := match o with Some _ => true | None => false end.
Definition nodeHash (n : node) : option bytes := match n with hashNode h => Some h | _ => None end.

(** A nil child is encoded as an empty string. *)
Definition orEmpty (o : option node) : option node := Some match o with Some n => n | None => valueNode [] end.

Section children.
Variable hashChild : node -> option Database -> Hm (node * node * option Database).

Fixpoint hashSlots (k : nat) (cs : list (option node)) (db : option Database) : Hm (list (option node) * list (option node) * option Database) :=
  match k with
  | O => Ok ([], [], db)
  | S k =>
      match cs with
      | [] => Ok ([], [], db)
      | o :: cs =>
          let! (hashed, cached, db) :=
            match o with
            | Some n => let! (hashed, cached, db) := hashChild n db in Ok (Some hashed, Some cached, db)
            | None => Ok (orEmpty None, None, db)
            end in
          let! (hs, ns, db) := hashSlots k cs db in
          Ok (hashed :: hs, cached :: ns, db)
      end
  end.

Definition hashChildren (original : node) (db : option Database) : Hm (node * node * option Database) :=
  match original with
  | shortNode key val f =>
      let! ckey := must (hexToCompact key) in
      match val with
      | Some (valueNode v) => Ok (shortNode ckey val f, shortNode key val f, db)
      | Some n =>
          let! (hashed, cached, db) := hashChild n db in
          Ok (shortNode ckey (Some hashed) f, shortNode key (Some cached) f, db)
      | None => Panic
      end
  | fullNode cs f =>
      let! last := must (cs !! 16%nat) in
      let! (hs, ns, db) := hashSlots 16 cs db in
      Ok (fullNode (hs ++ [orEmpty last]) f, fullNode (ns ++ [last]) f, db)
  | n => Ok (n, n, db)
  end.
End children.

Definition storeAndCache (collapsed cached : node) (db : option Database) (force : bool) : Hm (node * node * option Database) :=
  let! (hashed, db) := store collapsed db force in
  Ok (hashed, setFlags cached (nodeHash hashed) (is_some db), db).

Fixpoint hash (n : node) (db : option Database) (force : bool) {struct n} : Hm (node * node * option Database) :=
  let walk :=
    let! (collapsed, cached, db) := hashChildren (fun n db => hash n db false) n db in
    storeAndCache collapsed cached db force in
  match cache n with
  | (Some h, dirty) =>
      match db with
      | None => Ok (hashNode h, n, db)
      | Some _ =>
          if canUnload n cachegen cachelimit then Ok (hashNode h, hashNode h, db)
          else if negb dirty then Ok (hashNode h, n, db) else walk
      end
  | (None, _) => walk
  end.
End hasher.

(** [0x56e81f17...63b421] *)
Definition emptyRoot : bytes :=
  [86; 232; 31; 23; 27; 204; 85; 166; 255; 131; 69; 230; 146; 192; 248; 110;
   91; 72; 224; 27; 153; 108; 173; 192; 1; 98; 47; 181; 227; 99; 180; 33].

Section root.
Context (sha : bytes -> bytes).
Abbreviation leafCallback := (option (bytes -> bytes -> Database -> Database)).

Definition hashRoot (t : Trie) (db : option Database) (onleaf : leafCallback) : outcome Empty_set (node * option node * option Database) :=
  match t_root t with
  | None => Ok (hashNode emptyRoot, None, db)
  | Some n => let! (hashed, cached, db) := hash sha (t_cachegen t) (t_cachelimit t) onleaf n db true in Ok (hashed, Some cached, db)
  end.

(** [hash.(hashNode)] *)
Definition asHash (n : node) : option bytes := BytesToHash <$> nodeHash n.

Definition Hash (t : Trie) : outcome Empty_set (bytes * Trie) :=
  let! (hashed, cached, _) := hashRoot t None None in
  let! h := must (asHash hashed) in
  Ok (h, with_root t cached).

Definition with_gen (t : Trie) (g : Z) : Trie := MkTrie (t_root t) (t_originalRoot t) g (t_cachelimit t).

Definition Commit (t : Trie) (db : Database) (onleaf : leafCallback) : outcome Empty_set (bytes * Trie * Database) :=
  let! (hashed, cached, db) := hashRoot t (Some db) onleaf in
  let! db := must db in
  let! h := must (asHash hashed) in
  Ok (h, with_gen (with_root t cached) (u16 (t_cachegen t + 1)), db).

Definition New (root : bytes) (db : bytes -> option bytes) : outcome MissingNodeError Trie :=
  let t := MkTrie None root 0 0 in
  if negb (bool_decide (root = metaroot)) && negb (bool_decide (root = emptyRoot)) then
    let! n := resolveHash db 0 root [] in
    Ok (with_root t (Some n))
  else Ok t.
End root.

(** * What hashing preserves *)

(** The nodes a database answers for; without one, those of [db0]. *)
Definition view (db0 : bytes -> option bytes) (o : option Database) : bytes -> option bytes :=
  match o with Some db => Node db | None => db0 end.

Definition extends (f g : bytes -> option bytes) : Prop := forall h b, f h = Some b -> g h = Some b.

#[global] Instance extends_refl : Reflexive extends.
Proof. by intros f h b. Qed.
#[global] Instance extends_trans : Transitive extends.
Proof. intros f g k H1 H2 h b H. by apply H2, H1. Qed.

(** Every subtree that is not a value. *)
Inductive subtree : tree -> tree -> Prop :=
| subtree_refl t : ~ is_leaf t -> subtree t t
| subtree_ext u k t : subtree u t -> subtree u (Ext k t)
| subtree_branch u ts i t : ts !! i = Some (Some t) -> subtree u t -> subtree u (Branch ts).

Section mono.
Context (sha : bytes -> bytes) (f g : bytes -> option bytes) (Hfg : extends f g).

Lemma stored_mono t : stored sha f t -> stored sha g t.
Proof using Hfg.
  induction t as [v|k t IH|ts IH] using tree_ind'; cbn [stored]; [done| |].
  - intros [H1 H2]. split; [|auto]. intros H. by apply Hfg, H1.
  - intros [H1 H2]. split; [intros H; by apply Hfg, H1|]. clear H1. induction IH as [|[t|] ts Ht _ IHts]; [done| |by apply IHts].
    destruct H2 as [H2 H3]. split; [by apply Ht|by apply IHts].
Qed.

Lemma stored_root_mono t : stored_root sha f t -> stored_root sha g t.
Proof using Hfg. intros [H1 H2]. split; [by apply Hfg|by apply stored_mono]. Qed.

Lemma flag_ok_mono root fl t : flag_ok sha f root fl t -> flag_ok sha g root fl t.
Proof using Hfg. intros [H1 H2]. split; [done|]. intros Hd. destruct (H2 Hd) as [H3 H4]. split; [intros; by apply Hfg, H3|by apply stored_mono]. Qed.

Lemma repr_mono n : forall root t, repr sha f root n t -> repr sha g root n t.
Proof using Hfg.
  induction n as [k v fl IH|cs fl IH|h|v] using node_ind'; intros root t Hr; inversion Hr; subst.
  - constructor; [by apply IH|by apply flag_ok_mono].
  - constructor; [|by apply flag_ok_mono]. clear Hr. generalize dependent ts. intros ts HF _.
    induction HF as [|o o' cs ts Ho _ IHF]; [done|]. apply Forall_cons in IH as [IH1 IH2]. constructor; [|by apply IHF].
    destruct Ho; constructor. by apply IH1.
  - constructor; [done..|by apply stored_root_mono].
  - constructor.
Qed.
End mono.

(** * Correctness *)

Section correct.
Context (sha : bytes -> bytes) (hash_len : forall b, length (sha b) = 32%nat) (hash_ok : forall b, bytes_ok (sha b)).
(** The strings the database is used for: no two of them have the same hash, and none has the hash zero. *)
Context (P : bytes -> Prop) (P_inj : forall a b, P a -> P b -> sha a = sha b -> a = b) (P_root : forall a, P a -> sha a <> metaroot).
Context (cachegen cachelimit : Z) (onleaf : option (bytes -> bytes -> Database -> Database)).
Context (Hleaf : forall f, onleaf = Some f -> forall v h db, same_nodes db (f v h db)).
(** The nodes to be loaded when no database is written to. *)
Context (db0 : bytes -> option bytes).

(** Nodes are stored under their hash. *)
Definition sound (db : Database) : Prop :=
  (forall h b, length h = 32%nat -> Node db h = Some b -> P b /\ h = sha b) /\
  (forall h n, nodes db !! h = Some n -> blob n = None -> h = metaroot).
Definition osound (o : option Database) : Prop := match o with Some db => sound db | None => True end.

Lemma sound_same db db' : same_nodes db db' -> sound db -> sound db'.
Proof.
  intros Hs [H1 H2]. split.
  - intros h b Hl. rewrite <- (same_nodes_Node _ _ _ Hs). by apply H1.
  - intros h n Hn Hb. destruct Hs as [Hs _]. specialize (Hs h). rewrite Hn in Hs. destruct (nodes db !! h) as [m|] eqn:E; [|done].
    injection Hs as Hs. apply (H2 h m); congruence.
Qed.

Lemma db_insert_ok b db : P b -> sound db -> let db' := db_insert (sha b) b db in
  sound db' /\ extends (Node db) (Node db') /\ Node db' (sha b) = Some b.
Proof using hash_len P_inj P_root.
  intros Hb [H1 H2] db'.
  assert (Node db' (sha b) = Some b) as Hn.
  { destruct (nodes db !! sha b) as [n|] eqn:E; [|by apply Node_insert_eq]. subst db'. unfold db_insert. rewrite E. unfold Node. rewrite E.
    destruct (blob n) as [c|] eqn:Ec; [|by destruct (P_root b Hb); eapply H2].
    destruct (H1 (sha b) c) as [Hc Hcb]; [done|unfold Node; by rewrite E|]. f_equal. by apply P_inj. }
  split_and!; [split|intros h c Hh|done].
  - intros h c Hl Hh. destruct (decide (h = sha b)) as [->|Hne]; [by simplify_eq|]. apply H1; [done|]. rewrite <- Hh. subst db'. by rewrite Node_insert_ne.
  - intros h n. subst db'. unfold db_insert. destruct (nodes db !! sha b) eqn:E; [apply H2|]. cbn. intros [[<- <-]|[Hne Hh]]%lookup_insert_Some; [done|by apply H2].
  - destruct (decide (h = sha b)) as [->|Hne]; [|subst db'; by rewrite Node_insert_ne].
    destruct (H1 (sha b) c) as [Hc Hcb]; [done|done|]. rewrite Hn. f_equal. by apply P_inj.
Qed.

Lemma trackChildren_ok h cs : forall db, is_Some (nodes db !! h) -> exists db', trackChildren h cs db = Ok db' /\ same_nodes db db'.
Proof.
  induction cs as [|o cs IH]; intros db Hh; [by exists db|]. cbn [trackChildren].
  assert (exists db1, trackChild h db o = Ok db1 /\ same_nodes db db1) as (db1 & -> & H1).
  { destruct o as [[| |c|]|]; try by exists db. cbn [trackChild]. destruct (reference_same (BytesToHash c) h db Hh) as (db1 & -> & H1). by exists db1. }
  cbn [outcome_bind]. destruct (IH db1) as (db2 & -> & H2); [by eapply same_nodes_in|]. exists db2. split; [done|]. by etrans.
Qed.
Lemma callLeaves_ok h cs : forall db, same_nodes db (callLeaves onleaf h cs db).
Proof using Hleaf.
  induction cs as [|o cs IH]; intros db; [done|]. cbn [callLeaves]. etrans; [|apply IH]. unfold callLeaf.
  destruct onleaf as [f|] eqn:E; [|done]. destruct o as [[| | |v]|]; try done. by apply Hleaf.
Qed.

(** What a subtree is replaced by. *)
Definition collapsed (root : bool) (t : tree) (n : node) : Prop :=
  (hashed sha root t -> n = hashNode (troot sha t)) /\
  (~ hashed sha root t -> nodeHash n = None /\ rval_ok (node_rval n) = true /\ rlp_spec (node_rval n) = Ok (tenc sha t)).

#[local] Instance hashed_dec root t : Decision (hashed sha root t).
Proof. unfold hashed. solve_decision. Defined.

(** What the hasher leaves of the store: what was there, sound, and with a database the tree. *)
Record after (root : bool) (t : tree) (o o' : option Database) : Prop := {
  af_mode : is_some o' = is_some o;
  af_ext : extends (view db0 o) (view db0 o');
  af_sound : osound o';
  af_holds : is_some o = true -> hashed sha root t -> holds sha (view db0 o') t }.

Lemma hasher_store_ok n t o root : nodeHash n = None -> rval_ok (node_rval n) = true -> rlp_spec (node_rval n) = Ok (tenc sha t) -> zlen (tenc sha t) < 2 ^ 61 ->
  (forall h, fst (cache n) = Some h -> h = troot sha t) -> (is_some o = true -> P (tenc sha t)) -> osound o ->
  exists h o', store sha onleaf n o root = Ok (h, o') /\ collapsed root t h /\ after root t o o'.
Proof using hash_len P_inj P_root Hleaf.
  intros Hnh Hok Hsp Hl Hc HP Ho. unfold store.
  assert (Encode (EncBuf [] [] 0) (node_rval n) = Ok (tenc sha t)) as -> by (apply Encode_ok; [done..|lia]).
  assert (match fst (cache n) with Some hash => hash | None => sha (tenc sha t) end = troot sha t) as ->.
  { destruct (fst (cache n)); [by apply Hc|done]. }
  replace (match n with hashNode _ => _ | _ => _ end) with
    (if (zlen (tenc sha t) <? 32) && negb root then Ok (n, o) else
     match o with None => Ok (hashNode (troot sha t), None)
     | Some db => let! db := trackChildren (BytesToHash (troot sha t)) (tracked n) (db_insert (BytesToHash (troot sha t)) (tenc sha t) db) in
         Ok (E := Empty_set) (hashNode (troot sha t), Some (callLeaves onleaf (BytesToHash (troot sha t)) (tracked n) db)) end) by by destruct n.
  rewrite BytesToHash_id by apply hash_len. destruct (decide (hashed sha root t)) as [Hh|Hh].
  - replace ((zlen (tenc sha t) <? 32) && negb root) with false by (symmetry; apply andb_false_iff; rewrite Z.ltb_ge, negb_false_iff; destruct Hh; auto).
    assert (collapsed root t (hashNode (troot sha t))) as Hcol by by split.
    destruct o as [db|]; [|by eexists _, _].
    destruct (db_insert_ok (tenc sha t) db (HP eq_refl) Ho) as (H1 & H2 & H3). set (db1 := db_insert _ _ _) in *. change (db_insert (troot sha t) (tenc sha t) db) with db1.
    destruct (trackChildren_ok (troot sha t) (tracked n) db1) as (db2 & -> & H4); [apply insert_in|]. cbn [outcome_bind].
    pose proof (callLeaves_ok (troot sha t) (tracked n) db2) as H5. eexists _, _. split; [done|]. split; [done|].
    assert (same_nodes db1 (callLeaves onleaf (troot sha t) (tracked n) db2)) as H6 by by etrans. split; [done| | |].
    + intros h b Hb. cbn. rewrite <- (same_nodes_Node _ _ _ H6). by apply H2.
    + by apply (sound_same db1).
    + intros _ _. unfold holds. cbn. by rewrite <- (same_nodes_Node _ _ _ H6).
  - replace ((zlen (tenc sha t) <? 32) && negb root) with true.
    2:{ symmetry. apply andb_true_iff. rewrite Z.ltb_lt, negb_true_iff. split; [destruct (Z.lt_ge_cases (zlen (tenc sha t)) 32); [done|]|destruct root]; try done; destruct Hh; [by right|by left]. }
    exists n, o. by repeat split.
Qed.

Lemma collapsed_ref t n : ~ is_leaf t -> collapsed false t n ->
  rval_ok (node_rval n) = true /\ rlp_spec (node_rval n) = Ok (ref_of sha t (tenc sha t)).
Proof.
  intros Hnl [H1 H2]. replace (ref_of sha t (tenc sha t)) with (if zlen (tenc sha t) <? 32 then tenc sha t else rlp_string (sha (tenc sha t))) by by destruct t.
  destruct (Z.ltb_spec (zlen (tenc sha t)) 32) as [Hs|Hs].
  - destruct H2 as (_ & ? & ?); [intros [?|?]; [done|lia]|done].
  - rewrite H1 by by right. done.
Qed.

(** The subtrees of a tree are among the strings in use. *)
Definition known (t : tree) : Prop := forall u, subtree u t -> P (tenc sha u).

Definition hash_post (root : bool) (t : tree) (o : option Database) (r : outcome Empty_set (node * node * option Database)) : Prop :=
  exists h c o', r = Ok (h, c, o') /\ collapsed root t h /\ repr sha (view db0 o') root c t /\ after root t o o' /\
    (is_some o = true -> stored sha (view db0 o') t).

Definition hash_good (n : node) : Prop := forall root t o L,
  repr sha (view db0 o) root n t -> canon L t -> Z.of_nat L < 2 ^ 58 -> (is_some o = true -> known t) -> osound o ->
  hash_post root t o (hash sha cachegen cachelimit onleaf n o root).

Abbreviation orepr' o := (option_Forall2 (repr sha (view db0 o) false)).
Abbreviation hash' := (hash sha cachegen cachelimit onleaf).

Lemma child_mono o o' c t : extends (view db0 o) (view db0 o') -> orepr' o c t -> orepr' o' c t.
Proof. intros He [n u H|]; constructor. by eapply repr_mono. Qed.
Lemma orepr_mono o o' cs ts : extends (view db0 o) (view db0 o') -> Forall2 (orepr' o) cs ts -> Forall2 (orepr' o') cs ts.
Proof. intros He HF. eapply Forall2_impl; [exact HF|]. intros x y. by apply child_mono. Qed.

Definition iface (c : option node) : rval := RInterface match c with Some n => Some (node_rval n) | None => None end.

(** The children of a branch that are not values. *)
Lemma hashSlots_ok L : forall k cs ts o,
  Forall (each_node hash_good) cs -> Forall2 (orepr' o) cs ts -> (k <= length ts)%nat ->
  (forall i t, (i < k)%nat -> ts !! i = Some (Some t) -> canon L t /\ (is_some o = true -> known t)) -> Z.of_nat L < 2 ^ 58 -> osound o ->
  exists hs ns o', hashSlots (fun n db => hash' n db false) k cs o = Ok (hs, ns, o') /\
    (forallb rval_ok (map iface hs) = true /\ spec_all rlp_spec (map iface hs) = Ok (concat (map (tref sha) (take k ts)))) /\
    Forall2 (orepr' o') ns (take k ts) /\ is_some o' = is_some o /\ extends (view db0 o) (view db0 o') /\ osound o' /\
    (is_some o = true -> Forall (each (stored sha (view db0 o'))) (take k ts)).
Proof using hash_len P_inj P_root Hleaf.
  induction k as [|k IH]; intros cs ts o Hg HF Hk Hc HL Ho.
  { exists [], [], o. by split_and!. }
  destruct HF as [|c t cs ts Hct HF]; [cbn in Hk; lia|]. cbn in Hk. apply Forall_cons in Hg as [Hg1 Hg]. cbn [hashSlots].
  assert (exists h c' o1, match c with Some n => let! (hashed, cached, db) := hash' n o false in Ok (E := Empty_set) (Some hashed, Some cached, db) | None => Ok (orEmpty None, None, o) end = Ok (h, c', o1) /\
    rval_ok (iface h) = true /\ rlp_spec (iface h) = Ok (tref sha t) /\ option_Forall2 (repr sha (view db0 o1) false) c' t /\ is_some o1 = is_some o /\
    extends (view db0 o) (view db0 o1) /\ osound o1 /\ (is_some o = true -> each (stored sha (view db0 o1)) t)) as (h & c' & o1 & -> & H1 & H2 & H3 & H4 & H5 & H6 & H7).
  { destruct Hct as [n t Hn|]; [|exists (orEmpty None), None, o; split_and!; done || constructor].
    destruct (Hc 0%nat t ltac:(lia) eq_refl) as [Hct Hkn]. destruct (Hg1 false t o L) as (h & c & o1 & -> & Hh & Hc' & [A1 A2 A3 _] & A4); try done.
    destruct (collapsed_ref t h) as [? ?]; [by eapply canon_not_is_leaf|done|].
    exists (Some h), (Some c), o1. split_and!; try done. by constructor. }
  cbn [outcome_bind]. destruct (IH cs ts o1) as (hs & ns & o2 & -> & [B1 B2] & B3 & B4 & B5 & B6 & B7); try done.
  { by eapply orepr_mono. } { lia. } { intros i u Hi. rewrite H4. apply (Hc (S i)). lia. }
  cbn [outcome_bind]. exists (h :: hs), (c' :: ns), o2. cbn [map forallb spec_all take concat]. rewrite H1, H2, B1, B2. split_and!; try done.
  - constructor; [by eapply child_mono|done].
  - congruence.
  - by etrans.
  - intros Hs. constructor; [|apply B7; congruence]. specialize (H7 Hs). destruct t; [|done]. by eapply stored_mono.
Qed.

(** Storing a collapsed node whose children are done, and caching its hash. *)
Lemma finish_ok mk fl cl t o o1 root :
  nodeHash cl = None -> rval_ok (node_rval cl) = true -> rlp_spec (node_rval cl) = Ok (tenc sha t) -> zlen (tenc sha t) < 2 ^ 61 ->
  fst (cache cl) = fl_hash fl -> (is_some o = true -> P (tenc sha t)) ->
  (forall h b, setFlags (mk fl) h b = mk (MkFlag h (fl_gen fl) (if (b : bool) then false else fl_dirty fl))) ->
  (forall o2 f, extends (view db0 o1) (view db0 o2) -> flag_ok sha (view db0 o2) root f t -> repr sha (view db0 o2) root (mk f) t) ->
  flag_ok sha (view db0 o) root fl t -> is_some o1 = is_some o -> extends (view db0 o) (view db0 o1) -> osound o1 ->
  (is_some o = true -> forall o2, extends (view db0 o1) (view db0 o2) -> (32 <= zlen (tenc sha t) -> holds sha (view db0 o2) t) -> stored sha (view db0 o2) t) ->
  exists h c o', storeAndCache sha onleaf cl (mk fl) o1 root = Ok (h, c, o') /\
    collapsed root t h /\ repr sha (view db0 o') root c t /\ after root t o o' /\ (is_some o = true -> stored sha (view db0 o') t).
Proof using hash_len P_inj P_root Hleaf.
  intros Hn Hok Hsp Hl Hca HP Hset Hrep [Hf1 Hf2] Hm He Hs Hst.
  destruct (hasher_store_ok cl t o1 root) as (h & o2 & Est & Hh & [A1 A2 A3 A4]); try done; [rewrite Hca; by intros ? [? _]%Hf1|by rewrite Hm|]. unfold storeAndCache. rewrite Est.
  cbn [outcome_bind]. rewrite Hset. eexists _, _, o2. split; [done|]. rewrite Hm in *.
  assert (is_some o = true -> stored sha (view db0 o2) t) as Hst2 by (intros Hx; apply Hst; [done..|]; intros; apply A4; [done|by right]).
  assert (extends (view db0 o) (view db0 o2)) as He2 by by etrans.
  split_and!; [done| |by split|done]. apply Hrep; [done|]. split; cbn [fl_hash fl_dirty].
  - intros x Hx. destruct Hh as [H1 H2]. destruct (decide (hashed sha root t)) as [Hd|Hd]; [|by destruct (H2 Hd); congruence].
    rewrite H1 in Hx by done. by injection Hx as <-.
  - rewrite A1. destruct (is_some o); [intros _; split; auto|]. intros Hd. destruct (Hf2 Hd) as [H1 H2].
    split; [intros Hx; by apply He2, H1|by eapply stored_mono].
Qed.

(** A cached hash is used when nothing has to be stored. *)
Lemma hash_walk n root t o :
  flag_ok sha (view db0 o) root (MkFlag (fst (cache n)) 0 (snd (cache n))) t -> ~ is_leaf t -> repr sha (view db0 o) root n t -> osound o ->
  hash_post root t o (let! (cl, cd, db) := hashChildren (fun n db => hash' n db false) n o in storeAndCache sha onleaf cl cd db root) ->
  hash_post root t o (hash' n o root).
Proof.
  intros [Hf1 Hf2] Hnl Hr Ho Hw. cbn [fl_hash fl_dirty] in *.
  assert (canUnload n cachegen cachelimit = true -> snd (cache n) = false) as Hu.
  { destruct n; cbn; try done; unfold flag_canUnload; by intros [?%negb_true_iff _]%andb_prop. }
  set (w := outcome_bind _ _) in Hw.
  assert (hash' n o root = match cache n with
    | (Some h, dirty) => match o with None => Ok (hashNode h, n, o) | Some _ =>
        if canUnload n cachegen cachelimit then Ok (hashNode h, hashNode h, o) else if negb dirty then Ok (hashNode h, n, o) else w end
    | (None, _) => w end) as -> by by destruct n.
  destruct (cache n) as [[h|] dirty] eqn:E; [|done]. cbn [fst snd] in *. destruct (Hf1 h eq_refl) as [-> Hh].
  assert (collapsed root t (hashNode (troot sha t))) as Hcol by by split.
  destruct o as [db|]; [|by eexists _, _, _]. destruct (canUnload n cachegen cachelimit).
  - destruct (Hf2 (Hu eq_refl)) as [H1 H2]. eexists _, _, _. split; [done|]. split_and!; [done|by constructor; [..|split; auto]|by split|done].
  - destruct dirty; [done|]. destruct (Hf2 eq_refl) as [H1 H2]. eexists _, _, _. split; [done|]. split_and!; [done..|by split|done].
Qed.

Lemma hexToCompact_part k : hexpart k -> hexToCompact k = Some (compact (hasTerm k) (cutTerm k)).
Proof. intros Hk. destruct (hexpart_cut k Hk) as [Hc _]. rewrite (hexpart_parts k Hk) at 1. by rewrite hexToCompact_eq. Qed.

Lemma short_spec k n fl b : rval_ok (node_rval n) = true -> rlp_spec (node_rval n) = Ok b ->
  rval_ok (node_rval (shortNode k (Some n) fl)) = true /\ rlp_spec (node_rval (shortNode k (Some n) fl)) = Ok (rlp_list (rlp_string k ++ b)).
Proof. intros H1 H2. cbn. rewrite H1, H2. cbn. by rewrite app_nil_r. Qed.

Lemma hash_last k v fl : hash_good (shortNode k (Some (valueNode v)) fl).
Proof using hash_len hash_ok P_inj P_root Hleaf.
  intros root t o L Hr Hc HL Hkn Ho. inversion Hr as [|? ? ? t' ? Hu Hfl| |]; subst. inversion Hu as [? ? E| | |]; subst.
  destruct (canon_enc sha hash_len hash_ok L _ Hc HL) as [He Hel]. inversion Hc as [? ? ? Hk Hkl Hv|? ? ? ? ? Hb|]; subst; [|done].
  apply hash_walk; [done|by intros []|done|done|]. cbn [hashChildren]. rewrite hexToCompact_part by by right. cbn [must outcome_bind].
  destruct (short_spec (compact (hasTerm k) (cutTerm k)) (valueNode v) fl (rlp_string v)) as [S1 S2]; [done..|].
  apply (finish_ok (fun f => shortNode k (Some (valueNode v)) f) fl); try done.
  - intros Hs. apply (Hkn Hs), subtree_refl. exact (fun F => F).
  - intros o2 f _ Hf. constructor; [constructor|done].
Qed.

Lemma hash_ext k n fl : hash_good n -> (forall v, n <> valueNode v) -> hash_good (shortNode k (Some n) fl).
Proof using hash_len hash_ok P_inj P_root Hleaf.
  intros IH Hnv root t o L Hr Hc HL Hkn Ho. inversion Hr as [|? ? ? t' ? Hu Hfl| |]; subst.
  destruct (canon_enc sha hash_len hash_ok L _ Hc HL) as [He Hel]. inversion Hc as [? ? ? Hk Hkl Hv|M ? ? Hne Hk Hb Hct|]; subst.
  { inversion Hu as [? w| | |? ? ? Hnl]; subst; [by destruct (Hnv v)|by destruct Hnl]. }
  apply hash_walk; [done|by intros []|done|done|]. cbn [hashChildren]. rewrite hexToCompact_part by by left. cbn [must outcome_bind].
  destruct (IH false t' o M Hu Hct) as (h & c & o1 & E & Hh & Hcr & [A1 A2 A3 A4] & A5); [lia|intros Hs u Hsu; apply (Hkn Hs); by constructor|done|].
  replace (match n with valueNode _ => _ | _ => _ end) with
    (Ok (E := Empty_set) (shortNode (compact (hasTerm k) (cutTerm k)) (Some h) fl, shortNode k (Some c) fl, o1)) by (destruct n; try (by rewrite E); by edestruct Hnv).
  cbn [outcome_bind]. destruct (collapsed_ref t' h) as [C1 C2]; [by eapply canon_not_is_leaf|done|].
  destruct (short_spec (compact (hasTerm k) (cutTerm k)) h fl (ref_of sha t' (tenc sha t'))) as [S1 S2]; [done..|].
  apply (finish_ok (fun f => shortNode k (Some c) f) fl); try done.
  - intros Hs. apply (Hkn Hs), subtree_refl. exact (fun F => F).
  - intros o2 f He2 Hf. constructor; [by eapply repr_mono|done].
  - intros Hs o2 He2 Hho. split; [done|]. eapply stored_mono; [done|]. by apply A5.
Qed.

Lemma stored_branch g ts : (32 <= zlen (tenc sha (Branch ts)) -> holds sha g (Branch ts)) -> Forall (each (stored sha g)) ts -> stored sha g (Branch ts).
Proof.
  intros H1 H2. split; [exact H1|]. clear H1. induction H2 as [|[t|] ts Ht _ IH]; [done| |exact IH]. by split.
Qed.

Lemma full_spec hs fl b : forallb rval_ok (map iface hs) = true -> spec_all rlp_spec (map iface hs) = Ok b ->
  rval_ok (node_rval (fullNode hs fl)) = true /\ rlp_spec (node_rval (fullNode hs fl)) = Ok (rlp_list b).
Proof.
  intros H1 H2. cbn [node_rval rval_ok forallb rlp_spec spec_all]. fold iface. change (map _ hs) with (map iface hs). rewrite H1. split; [done|].
  rewrite H2. cbn [outcome_bind]. by rewrite app_nil_r.
Qed.

Lemma spec_all_app vs ws b c : spec_all rlp_spec vs = Ok b -> spec_all rlp_spec ws = Ok c -> spec_all rlp_spec (vs ++ ws) = Ok (b ++ c).
Proof.
  revert b. induction vs as [|v vs IH]; intros b; cbn [spec_all app].
  - intros [= <-] H. by rewrite H.
  - intros H Hw. destruct (rlp_spec v); try done. cbn [outcome_bind] in *. destruct (spec_all rlp_spec vs) as [bs| | |]; try done.
    rewrite (IH bs eq_refl Hw). cbn in *. injection H as <-. by rewrite app_assoc.
Qed.

(** The collapsed branch, once its first sixteen children are. *)
Lemma branch_spec f hs ts fl tl cl : length ts = 17%nat -> ts !! 16%nat = Some tl -> (forall t, ts !! 16%nat = Some (Some t) -> exists v, t = Leaf v /\ value_ok v) ->
  option_Forall2 (repr sha f false) cl tl ->
  forallb rval_ok (map iface hs) = true -> spec_all rlp_spec (map iface hs) = Ok (concat (map (tref sha) (take 16 ts))) ->
  ts = take 16 ts ++ [tl] /\ (tl = None /\ cl = None \/ exists v, tl = Some (Leaf v) /\ cl = Some (valueNode v)) /\
  rval_ok (node_rval (fullNode (hs ++ [orEmpty cl]) fl)) = true /\ rlp_spec (node_rval (fullNode (hs ++ [orEmpty cl]) fl)) = Ok (tenc sha (Branch ts)).
Proof.
  intros Hl Htl Hlast Hlr B1 B2. assert (ts = take 16 ts ++ [tl]) as Ets.
  { rewrite <- (take_drop 16 ts) at 1. f_equal. rewrite (drop_S _ tl) by done. by rewrite drop_ge by lia. }
  assert (tl = None /\ cl = None \/ exists v, tl = Some (Leaf v) /\ cl = Some (valueNode v)) as Hlf.
  { destruct Hlr as [n u Hn|]; [|by left]. destruct (Hlast u Htl) as (v & -> & _). right. inversion Hn as [| | |? ? ? Hnl]; subst; [by exists v|by destruct Hnl]. }
  split; [done|]. split; [done|]. apply full_spec.
  - rewrite map_app, forallb_app, B1. by destruct Hlf as [[-> ->]|(v & -> & ->)].
  - rewrite map_app. rewrite Ets at 1. rewrite map_app, concat_app. apply spec_all_app; [done|].
    by destruct Hlf as [[-> ->]|(v & -> & ->)]; cbn; rewrite app_nil_r.
Qed.

Lemma hash_full cs fl : Forall (each_node hash_good) cs -> hash_good (fullNode cs fl).
Proof using hash_len hash_ok P_inj P_root Hleaf.
  intros IH root t o L Hr Hc HL Hkn Ho. inversion Hr as [| |? ? ts ? HF Hfl|]; subst.
  destruct (canon_enc sha hash_len hash_ok L _ Hc HL) as [He Hel]. inversion Hc as [| |M ? Hl Hch Hlast _]; subst.
  apply hash_walk; [done|by intros []|done|done|]. cbn [hashChildren].
  destruct (lookup_lt_is_Some_2 ts 16) as [tl Htl]; [lia|]. destruct (Forall2_lookup_r _ _ _ _ _ HF Htl) as (cl & Hcl & Hlr). rewrite Hcl. cbn [must outcome_bind].
  destruct (hashSlots_ok M 16 cs ts o IH HF) as (hs & ns & o1 & -> & [B1 B2] & B3 & B4 & B5 & B6 & B7); [lia| |lia|done|].
  { intros i u Hi Hu. split; [by apply (Hch i)|]. intros Hs w Hw. apply (Hkn Hs). by eapply subtree_branch. }
  cbn [outcome_bind]. destruct (branch_spec (view db0 o) hs ts fl tl cl) as (Ets & Hlf & S1 & S2); try done.
  apply (finish_ok (fun f => fullNode (ns ++ [cl]) f) fl); try done.
  - intros Hs. apply (Hkn Hs), subtree_refl. exact (fun F => F).
  - intros o2 f He2 Hf. constructor; [|done]. rewrite Ets. apply Forall2_app; [by eapply orepr_mono|]. constructor; [|done].
    eapply child_mono; [|exact Hlr]. by etrans.
  - intros Hs o2 He2 Hho. apply stored_branch; [done|]. rewrite Ets. apply Forall_app. split.
    + eapply Forall_impl; [by apply B7|]. intros [u|]; [|done]. by apply stored_mono.
    + constructor; [|done]. by destruct Hlf as [[-> ->]|(v & -> & ->)].
Qed.

Lemma hash_correct n : hash_good n.
Proof using hash_len hash_ok P_inj P_root Hleaf.
  induction n as [k [[| | |v]|] fl IH|cs fl IH|h|v] using node_ind'; try (by apply hash_ext; try done); [apply hash_last| |by apply hash_full| |].
  - intros root t o L Hr. inversion Hr.
  - intros root t o L Hr Hc HL Hkn Ho. inversion Hr as [| | |? ? ? Hnl E Hh [Hs1 Hs2]]; subst. eexists _, _, o. split; [done|]. by repeat split.
  - intros root t o L Hr Hc. inversion Hr; subst. by apply canon_not_leaf in Hc.
Qed.

End correct.

(** ** The exported operations *)

Definition rootHash (sha : bytes -> bytes) (o : option tree) : bytes := match o with Some t => troot sha t | None => emptyRoot end.

Section api.
Context (sha : bytes -> bytes) (hash_len : forall b, length (sha b) = 32%nat) (hash_ok : forall b, bytes_ok (sha b)).
Context (n : nat) (Hn : Z.of_nat n < 2 ^ 56).

Lemma asHash_root t : asHash (hashNode (troot sha t)) = Some (troot sha t).
Proof using hash_len. unfold asHash. cbn [nodeHash fmap option_fmap option_map]. by rewrite BytesToHash_id by apply hash_len. Qed.

Lemma Hash_ok db t o : is_trie sha db n t o -> exists t', Hash sha t = Ok (rootHash sha o, t') /\ is_trie sha db n t' o.
Proof using hash_len hash_ok Hn.
  intros [Hr Hc Hk]. unfold Hash, hashRoot. destruct Hr as [nd u Hr|]; [|by exists (with_root t None); repeat split; try constructor].
  destruct (hash_correct sha hash_len hash_ok (fun _ => False) ltac:(done) ltac:(done) (t_cachegen t) (t_cachelimit t) None ltac:(done) db nd true u None (keyBound n))
    as (h & c & o' & -> & [H1 _] & H2 & [A1 _ _ _] & _); try done; [by apply keyBound_ok|].
  cbn [outcome_bind]. rewrite H1 by by left. rewrite asHash_root. cbn [must outcome_bind]. eexists. split; [done|].
  destruct o'; [done|]. split; [by constructor|done..].
Qed.

Context (P : bytes -> Prop) (P_inj : forall a b, P a -> P b -> sha a = sha b -> a = b) (P_root : forall a, P a -> sha a <> metaroot).

Lemma Commit_ok onleaf db t o : (forall f, onleaf = Some f -> forall v h db, same_nodes db (f v h db)) ->
  is_trie sha (Node db) n t o -> sound sha P db -> (forall u, o = Some u -> known sha P u) ->
  exists t' db', Commit sha t db onleaf = Ok (rootHash sha o, t', db') /\ is_trie sha (Node db') n t' o /\
    sound sha P db' /\ extends (Node db) (Node db') /\ (forall u, o = Some u -> stored_root sha (Node db') u).
Proof using hash_len hash_ok Hn P_inj P_root.
  intros Hleaf [Hr Hc Hk] Hs Hkn. unfold Commit, hashRoot.
  destruct Hr as [nd u Hr|]; [|exists (with_gen (with_root t None) (u16 (t_cachegen t + 1))), db; split_and!; [done|split; [constructor|done..]|done..]].
  destruct (hash_correct sha hash_len hash_ok P P_inj P_root (t_cachegen t) (t_cachelimit t) onleaf Hleaf (fun _ => None) nd true u (Some db) (keyBound n))
    as (h & c & o' & -> & [H1 _] & H2 & [A1 A2 A3 A4] & A5); try done; [by apply keyBound_ok|by intros _; apply Hkn|].
  destruct o' as [db'|]; [|done]. cbn [outcome_bind must]. rewrite H1 by by left. rewrite asHash_root. cbn [must outcome_bind].
  eexists _, db'. split; [done|]. split_and!; [split; [by constructor|done..]|done..|].
  intros ? [= <-]. split; [apply A4; [done|by left]|by apply A5].
Qed.

(** Reopening a stored tree by its root. *)
Lemma New_ok db o : ocanon (keyBound n) o -> (forall k v, hexkey k -> oget o k = Some v -> exists key, bytes_ok key /\ k = keybytesToHex key) ->
  (forall u, o = Some u -> stored_root sha db u /\ troot sha u <> metaroot /\ troot sha u <> emptyRoot) ->
  exists t, New (rootHash sha o) db = Ok t /\ is_trie sha db n t o.
Proof using hash_len hash_ok Hn.
  intros Hc Hk Hu. unfold New. destruct o as [u|]; cbn [rootHash].
  - destruct (Hu u eq_refl) as (Hst & H1 & H2). rewrite !bool_decide_eq_false_2 by done. cbn [negb andb].
    destruct (resolveHash_ok sha hash_len hash_ok db 0 (keyBound n) (keyBound_ok n Hn) true (troot sha u) u (keyBound n) []) as (nd & -> & Hnd & _); try done.
    { constructor; [by eapply canon_not_is_leaf|done|by left|done]. }
    eexists. split; [done|]. split; [by constructor|done..].
  - rewrite (bool_decide_eq_true_2 (emptyRoot = emptyRoot)), andb_false_r by done. eexists. split; [done|]. by repeat constructor.
Qed.
End api.

Lemma rlp_list_not_nil_string p : rlp_list p <> [128].
Proof.
  unfold rlp_list, rlp_head. pose proof (zlen_nonneg p). destruct (_ <? 56); intros [= E _]; [lia|]. pose proof (zlen_nonneg (big_bytes (zlen p))). lia.
Qed.

(** C9. The root hash is a function of the content: two tries that stand for the same map,
    whatever operations built them, whatever parts are loaded, and over whatever databases,
    have the same root hash; computing it returns and leaves the tries standing for the map. *)
Theorem root_hash_of_content sha db1 db2 n t1 t2 m :
  (forall b, length (sha b) = 32%nat) -> (forall b, bytes_ok (sha b)) -> Z.of_nat n < 2 ^ 56 ->
  trie_map sha db1 n t1 m -> trie_map sha db2 n t2 m ->
  exists h t1' t2', Hash sha t1 = Ok (h, t1') /\ Hash sha t2 = Ok (h, t2') /\ trie_map sha db1 n t1' m /\ trie_map sha db2 n t2' m.
Proof.
  intros Hl Hb Hn (o1 & Ht1 & Hm1) (o2 & Ht2 & Hm2).
  assert (o1 = o2) as -> by (eapply same_content; [done..|]; intros; by rewrite Hm1, Hm2).
  destruct (Hash_ok sha Hl Hb n Hn db1 t1 o2 Ht1) as (t1' & E1 & H1). destruct (Hash_ok sha Hl Hb n Hn db2 t2 o2 Ht2) as (t2' & E2 & H2).
  exists (rootHash sha o2), t1', t2'. split_and!; [done..|by exists o2|by exists o2].
Qed.

(** C10. Committing a trie and opening the root it returns gives the content back: commit
    returns the root hash of the content, the one [Hash] computes, everything stored before stays readable, and the
    committed trie and the one opened from the new database both stand for the same map.
    The strings in use (what the database holds, the encodings of the tree and that of the
    empty string) are assumed free of hash collisions. *)
Theorem commit_then_new sha P onleaf db n t o :
  (forall b, length (sha b) = 32%nat) -> (forall b, bytes_ok (sha b)) -> Z.of_nat n < 2 ^ 56 ->
  (forall a b, P a -> P b -> sha a = sha b -> a = b) -> (forall a, P a -> sha a <> metaroot) ->
  P [128] -> sha [128] = emptyRoot ->
  (forall f, onleaf = Some f -> forall v h db, same_nodes db (f v h db)) ->
  is_trie sha (Node db) n t o -> sound sha P db -> (forall u, o = Some u -> known sha P u) ->
  exists h t1 t' db' t'', Hash sha t = Ok (h, t1) /\ Commit sha t db onleaf = Ok (h, t', db') /\ New h (Node db') = Ok t'' /\
    is_trie sha (Node db') n t' o /\ is_trie sha (Node db') n t'' o /\ extends (Node db) (Node db') /\ sound sha P db'.
Proof.
  intros Hl Hb Hn Hinj Hroot He Hes Hleaf Ht Hs Hkn.
  destruct (Commit_ok sha Hl Hb n Hn P Hinj Hroot onleaf db t o Hleaf Ht Hs Hkn) as (t' & db' & E & Ht' & Hs' & Hx & Hst).
  destruct (New_ok sha Hl Hb n Hn (Node db') o) as (t'' & E' & Ht''); [apply Ht|apply Ht| |destruct (Hash_ok sha Hl Hb n Hn (Node db) t o Ht) as (t1 & E1 & _); by exists (rootHash sha o), t1, t', db', t''].
  intros u ->. assert (~ is_leaf u) as Hnl by (eapply canon_not_is_leaf, Ht). assert (P (tenc sha u)) as HP by by apply (Hkn u eq_refl), subtree_refl.
  split_and!; [by apply Hst|by apply Hroot|]. rewrite <- Hes. intros Eq. apply Hinj in Eq; [|done..].
  destruct (tenc_list sha u Hnl) as (p & Ep & _). rewrite Ep in Eq. by apply rlp_list_not_nil_string in Eq.
Qed.

(** ** Witnesses *)

Definition sample_ops1 : list trie_op := [OpUpdate [1; 2] [7]; OpUpdate [1; 3] [8]; OpUpdate [9] [9]; OpDelete [9]].
Definition sample_ops2 : list trie_op := [OpUpdate [1; 3] [8]; OpGet [4]; OpUpdate [1; 2] [7]].

Lemma root_hash_of_content_witness : exists t1 t2 h t1' t2',
  trie_run (fun _ => None) sample_ops1 emptyTrie = Ok (t1, []) /\ trie_run (fun _ => None) sample_ops2 emptyTrie = Ok (t2, [None]) /\
  Hash constHash t1 = Ok (h, t1') /\ Hash constHash t2 = Ok (h, t2').
Proof.
  destruct (trie_run_ok constHash constHash_len constHash_ok (fun _ => None) 2 ltac:(done) sample_ops1 emptyTrie ∅) as (t1 & E1 & H1); [repeat constructor; try lia; done|apply emptyTrie_map|].
  destruct (trie_run_ok constHash constHash_len constHash_ok (fun _ => None) 2 ltac:(done) sample_ops2 emptyTrie ∅) as (t2 & E2 & H2); [repeat constructor; try lia; done|apply emptyTrie_map|].
  assert (fst (map_run sample_ops2 ∅) = fst (map_run sample_ops1 ∅)) as E by (vm_compute; reflexivity). rewrite E in H2.
  destruct (root_hash_of_content constHash (fun _ => None) (fun _ => None) 2 t1 t2 _ constHash_len constHash_ok ltac:(done) H1 H2) as (h & t1' & t2' & H3 & H4 & _).
  exists t1, t2, h, t1', t2'. split_and!; [exact E1|exact E2|exact H3|exact H4].
Defined.

(** A hash without collisions among short strings. *)
Definition shortHash (b : bytes) : bytes :=
  if bool_decide (b = [128]) then emptyRoot else 1 :: take 31 (map (fun x => x mod 256) b ++ replicate 31 0).
Lemma shortHash_len b : length (shortHash b) = 32%nat.
Proof. unfold shortHash. case_bool_decide; [done|]. cbn [length]. rewrite length_take, length_app, length_replicate. lia. Qed.
Lemma shortHash_ok b : bytes_ok (shortHash b).
Proof.
  unfold shortHash. case_bool_decide; [repeat constructor; done|]. constructor; [done|]. apply Forall_take, Forall_app. split; [|by apply Forall_replicate].
  apply Forall_fmap, Forall_true. intros x. unfold is_byte. cbn. pose proof (Z.mod_pos_bound x 256). lia.
Qed.

Definition sample_tree : tree := Ext (keybytesToHex [1; 2]) (Leaf [7]).
Definition sample_trie : Trie := MkTrie (Some (shortNode (keybytesToHex [1; 2]) (Some (valueNode [7])) (newFlag 0))) [] 0 0.
Definition sample_strings (b : bytes) : Prop := b = [128] \/ b = tenc shortHash sample_tree.

Lemma sample_free a b : sample_strings a -> sample_strings b -> shortHash a = shortHash b -> a = b.
Proof. intros [-> | ->] [-> | ->]; vm_compute; congruence. Qed.
Lemma sample_is_trie db : is_trie shortHash db 2 sample_trie (Some sample_tree).
Proof.
  split.
  - constructor. constructor; [constructor|by apply flag_fresh].
  - constructor; [by apply keybytesToHex_hexkey; repeat constructor|cbn; lia|repeat constructor; done].
  - intros k v _ [-> _]%single_key. exists [1; 2]. by split; [repeat constructor|].
Qed.
Lemma sample_known : known shortHash sample_strings sample_tree.
Proof. intros w Hw. inversion Hw as [|? ? ? Hl|]; subst; [by right|inversion Hl; subst; done]. Qed.

Lemma commit_then_new_witness : exists h t1 t' db' t'', Hash shortHash sample_trie = Ok (h, t1) /\ Commit shortHash sample_trie (NewDatabase ∅) None = Ok (h, t', db') /\
  New h (Node db') = Ok t'' /\ is_trie shortHash (Node db') 2 t'' (Some sample_tree).
Proof.
  destruct (commit_then_new shortHash sample_strings None (NewDatabase ∅) 2 sample_trie (Some sample_tree)) as (h & t1 & t' & db' & t'' & H0 & H1 & H2 & _ & H3 & _).
  - apply shortHash_len.
  - apply shortHash_ok.
  - done.
  - apply sample_free.
  - intros a [-> | ->]; vm_compute; congruence.
  - by left.
  - done.
  - done.
  - apply sample_is_trie.
  - split.
    + intros k b _. unfold Node. cbn. destruct (decide (k = metaroot)) as [->|Hk]; by simplify_map_eq.
    + intros k nd. cbn. intros [<- _]%lookup_singleton_Some. done.
  - intros u [= <-]. apply sample_known.
  - by exists h, t1, t', db', t''.
Defined.
