(* ===== verification/TrieProof.v ===== *)
(** Merkle proofs ([src/trie/proof.go]): the nodes on the way to a key, and reading the key's
    value off them knowing only the root hash.

    A proof database is a map from hashes to encoded nodes.  [VerifyProof] does not hash what it
    finds; whoever fills the database puts nodes under their hash. *)

From stdpp Require Import base numbers list gmap.
From S2P Require Import Prelude.
From S2P Require Import CommonMath.
From S2P Require Import RlpEncode.
From S2P Require Import RlpStream.
From S2P Require Import TrieEncoding.
From S2P Require Import TrieTree.
From S2P Require Import TrieNode.
From S2P Require Import TrieOps.
From S2P Require Import TrieStore.
From S2P Require Import TrieRefine.
From S2P Require Import TrieMap.
From S2P Require Import TrieDatabase.
From S2P Require Import TrieHasher.
Local Open Scope Z_scope.
Local Open Scope go_scope.

(** * Model *)

(** [get]: as far as the key goes in one decoded node. *)
Definition keyMatches (nkey key : bytes) : bool := negb ((length key <? length nkey)%nat || negb (bool_decide (nkey = take (length nkey) key))).

Fixpoint get (n : node) (key : bytes) : outcome Empty_set (bytes * option node) :=
  match n with
  | shortNode nkey val _ =>
      if keyMatches nkey key then
        let key := drop (length nkey) key in
        match val with Some n => get n key | None => Ok (key, None) end
      else Ok ([], None)
  | fullNode cs _ =>
      match key with
      | [] => Panic
      | x :: key =>
          if x <? 0 then Panic
          else (fix child (cs : list (option node)) (i : nat) : outcome Empty_set (bytes * option node) :=
            match cs, i with
            | Some n :: _, O => get n key
            | None :: _, O => Ok (key, None)
            | _ :: cs, S i => child cs i
            | [], _ => Panic
            end) cs (Z.to_nat x)
      end
  | hashNode _ => Ok (key, Some n)
  | valueNode _ => Ok ([], Some n)
  end.

Inductive proof_error := errMissingProof (i : nat) (hash : bytes) | errBadProof (i : nat) (e : node_error).

Section verify.
Variable proofDb : bytes -> option bytes.
(** The value, [None] when the key is not there, and the number of nodes used. *)
Fixpoint verifyLoop (fuel i : nat) (wantHash key : bytes) : outcome proof_error (option bytes * nat) :=
  match fuel with
  | O => NoFuel
  | S fuel =>
      match proofDb wantHash with
      | None => Err (errMissingProof i wantHash)
      | Some buf =>
          let! n := map_err (errBadProof i) (decodeNode 0 (S (length buf)) (Some wantHash) buf) in
          match get n key with
          | Ok (_, None) => Ok (None, i)
          | Ok (keyrest, Some (hashNode cld)) =>
              verifyLoop fuel (S i) (take HashLength cld ++ drop (length cld) wantHash) keyrest
          | Ok (_, Some (valueNode v)) => Ok (Some v, S i)
          | Ok (_, Some _) => verifyLoop fuel (S i) wantHash key
          | Err e => match e with end
          | Panic => Panic
          | NoFuel => NoFuel
          end
      end
  end.
Definition VerifyProof (fuel : nat) (rootHash key : bytes) : outcome proof_error (option bytes * nat) :=
  verifyLoop fuel 0 rootHash (keybytesToHex key).
End verify.

Section prove.
Context (sha : bytes -> bytes) (db : bytes -> option bytes).

(** The nodes on the path to a key. *)
Fixpoint proofNodes (fuel : nat) (cachegen : Z) (tn : option node) (key : bytes) : outcome MissingNodeError (list node) :=
  match fuel with
  | O => NoFuel
  | S fuel =>
      match key, tn with
      | [], _ | _, None => Ok []
      | key0 :: key1, Some n =>
          match n with
          | shortNode nkey val _ =>
              let! rest := (if keyMatches nkey key then proofNodes fuel cachegen val (drop (length nkey) key) else Ok []) in
              Ok (n :: rest)
          | fullNode cs _ =>
              let! c := must (zget cs key0) in
              let! rest := proofNodes fuel cachegen c key1 in
              Ok (n :: rest)
          | hashNode h =>
              let! n := resolveHash db cachegen h [] in
              proofNodes fuel cachegen (Some n) key
          | valueNode _ => Panic
          end
      end
  end.

(** What the loop over the nodes puts into the proof; errors of the encoder are dropped there. *)
Fixpoint putNodes (first : bool) (fromLevel : nat) (ns : list node) (proofDb : gmap bytes bytes) : outcome MissingNodeError (gmap bytes bytes) :=
  match ns with
  | [] => Ok proofDb
  | n :: ns =>
      match (let! (n, _, _) := hashChildren (fun n db => hash sha 0 0 None n db false) n None in
             let! (hn, _) := store sha None n None false in Ok (n, hn)) with
      | Ok (n, hn) =>
          match nodeHash hn, first with
          | None, false => putNodes false fromLevel ns proofDb
          | o, _ =>
              match fromLevel with
              | S fromLevel => putNodes false fromLevel ns proofDb
              | O =>
                  let enc := match EncodeToBytes (EncBuf [] [] 0) (node_rval n) with Ok enc => enc | _ => [] end in
                  let hash := match o with Some hash => hash | None => sha enc end in
                  putNodes false O ns (<[hash := enc]> proofDb)
              end
          end
      | Err e => match e with end
      | Panic => Panic
      | NoFuel => NoFuel
      end
  end.

Definition Prove (t : Trie) (key : bytes) (fromLevel : nat) (proofDb : gmap bytes bytes) : outcome MissingNodeError (gmap bytes bytes) :=
  let key := keybytesToHex key in
  let! ns := proofNodes (keyFuel key) (t_cachegen t) (t_root t) key in
  putNodes true fromLevel ns proofDb.
End prove.

(** * The path to a key *)

Fixpoint path (t : tree) (k : bytes) : list tree :=
  match t with
  | Leaf _ => []
  | Ext p u => t :: if bool_decide (take (length p) k = p) then path u (drop (length p) k) else []
  | Branch ts =>
      t :: match k with
           | [] => []
           | x :: k =>
               (fix go (ts : list (option tree)) (i : nat) : list tree :=
                  match ts, i with
                  | Some u :: _, O => path u k
                  | _ :: ts, S i => go ts i
                  | _, _ => []
                  end) ts (Z.to_nat x)
           end
  end.
Definition opath (o : option tree) (k : bytes) : list tree := match o with Some t => path t k | None => [] end.

Lemma path_branch ts x k : path (Branch ts) (x :: k) = Branch ts :: opath (child ts x) k.
Proof.
  cbn. f_equal. unfold child. generalize (Z.to_nat x) as i. induction ts as [|[u|] ts IH]; intros [|i]; cbn; try done; apply IH.
Qed.

Lemma keyMatches_spec p k : keyMatches p k = bool_decide (take (length p) k = p).
Proof.
  unfold keyMatches. destruct (decide (take (length p) k = p)) as [E|E].
  - rewrite (bool_decide_eq_true_2 (p = _)), (bool_decide_eq_true_2 (_ = p)) by done. apply (f_equal length) in E. rewrite length_take in E.
    destruct (Nat.ltb_spec (length k) (length p)); [lia|done].
  - rewrite (bool_decide_eq_false_2 (p = _)), (bool_decide_eq_false_2 (_ = p)) by congruence. by rewrite orb_true_r.
Qed.

Lemma path_head t k : ~ is_leaf t -> t ∈ path t k.
Proof. destruct t as [v|p u|ts]; [done|..]; intros _; [|destruct k]; by left. Qed.

Section get.
Context (sha : bytes -> bytes) (db : bytes -> option bytes) (B : nat).
Abbreviation repr := (repr sha db).
Abbreviation fits := (fits B).

(** A node further on the path that is referred to by its hash. *)
Record later (t : tree) (k : bytes) (h k' : bytes) (u : tree) : Prop := {
  la_hash : h = troot sha u;
  la_long : 32 <= zlen (tenc sha u);
  la_node : ~ is_leaf u;
  la_stored : stored_root sha db u;
  la_fits : fits u k';
  la_get : tget u k' = tget t k;
  la_path w : w ∈ path u k' -> w ∈ path t k }.

(** What [get] finds in a node: the value, its absence, or the hash of a later node, with a
    shorter key unless the node is itself a hash. *)
Definition got (bound : nat) (t : tree) (k : bytes) (r : outcome Empty_set (bytes * option node)) : Prop :=
  match r with
  | Ok (_, None) => tget t k = None
  | Ok (_, Some (valueNode v)) => tget t k = Some v
  | Ok (k', Some (hashNode h)) => (length k' < bound)%nat /\ exists u, later t k h k' u
  | _ => False
  end.

Lemma got_inside b b' t t' k k' r : got b t' k' r -> (b <= b')%nat -> tget t' k' = tget t k -> (forall w, w ∈ path t' k' -> w ∈ path t k) -> got b' t k r.
Proof.
  intros Hr Hb Hg Hp. destruct r as [[k1 [[| |h|v]|]]| | |]; cbn in *; try done; [|congruence..].
  destruct Hr as (Hl & u & []). split; [lia|]. exists u. constructor; try done; [congruence|auto].
Qed.

Lemma get_child cs fl x key : 0 <= x -> get (fullNode cs fl) (x :: key) =
  match zget cs x with Some (Some n) => get n key | Some None => Ok (key, None) | None => Panic end.
Proof.
  intros Hx. cbn [get]. rewrite (proj2 (Z.ltb_ge _ _)) by lia. unfold zget. rewrite (proj2 (Z.leb_le _ _)) by lia. generalize (Z.to_nat x) as i.
  induction cs as [|[n|] cs IH]; intros [|i]; cbn; try done; apply IH.
Qed.

Lemma match_app (p k : bytes) : take (length p) k = p -> k = p ++ drop (length p) k.
Proof. intros E. by rewrite <- E at 1; rewrite take_drop. Qed.

Lemma get_ok n : forall root t k, repr root n t -> (root = true -> loaded n) -> fits t k -> got (length k + wait n) t k (get n k).
Proof.
  induction n as [p v fl IH|cs fl IH|h|v] using node_ind'; intros root t k Hr Hl Hf; inversion Hr as [|? ? u t' ? Hu Hfl|? ? ts ? HF Hfl|? ? ? Hnl E Hh Hs]; subst.
  - cbn [get wait each_node] in *. rewrite keyMatches_spec. case_bool_decide as E; [|cbn; by rewrite bool_decide_eq_false_2].
    pose proof (match_app _ _ E) as Ek. pose proof Hf as Hf'. rewrite Ek in Hf'. apply fits_ext in Hf' as [Hf' Hp].
    eapply got_inside; [by apply (IH false)|..].
    + rewrite Ek at 2. rewrite length_app. pose proof (wait_le u). destruct p; [done|]. cbn. lia.
    + rewrite Ek at 2. by rewrite tget_ext_app.
    + intros w Hw. cbn [path]. rewrite bool_decide_eq_true_2 by done. by right.
  - destruct Hf as [(L & Hc & HL & Hk)|[? _]]; [|done]. pose proof (hexkey_not_nil _ Hk). destruct k as [|x k]; [done|].
    destruct (child_nodes sha db B _ _ _ _ _ _ _ Hr Hc Hk) as (c & Hcx & Hco & Hx & _). rewrite get_child, Hcx by lia.
    assert (cs !! Z.to_nat x = Some c) as Hcs by (unfold zget in Hcx; by case_match).
    pose proof (fits_branch B ts x k) as Hfb. pose proof (Forall_lookup_1 _ _ _ _ IH Hcs) as IHc. remember (child ts x) as o eqn:Eo.
    destruct Hco as [n t Hnt|]; [|change (tget (Branch ts) (x :: k) = None); by rewrite tget_branch, <- Eo].
    eapply got_inside; [apply (IHc false); [done|done|apply Hfb; [left; eauto|done]]|..].
    + pose proof (wait_le n). cbn. lia.
    + by rewrite tget_branch, <- Eo.
    + intros w Hw. rewrite path_branch, <- Eo. by right.
  - cbn. destruct root; [by destruct (Hl eq_refl)|]. destruct Hh as [|Hh]; [done|]. split; [lia|]. exists t. by constructor.
  - cbn. by destruct Hf as [(? & []%canon_not_leaf & _)|[_ ->]].
Qed.
End get.

(** * A store with all of a tree *)

Fixpoint subtrees (t : tree) : list tree :=
  match t with
  | Leaf _ => []
  | Ext _ u => t :: subtrees u
  | Branch ts => t :: (fix go (ts : list (option tree)) : list tree := match ts with [] => [] | Some u :: ts => subtrees u ++ go ts | None :: ts => go ts end) ts
  end.

Lemma subtrees_branch ts u : u ∈ subtrees (Branch ts) <-> u = Branch ts \/ exists i t, ts !! i = Some (Some t) /\ u ∈ subtrees t.
Proof.
  cbn. rewrite elem_of_cons. f_equiv. induction ts as [|[t|] ts IH].
  - split; [by intros []%elem_of_nil|by intros (i & t & H & _)].
  - rewrite elem_of_app, IH. split.
    + intros [H|(i & t' & H1 & H2)]; [by exists 0%nat, t|by exists (S i), t'].
    + intros ([|i] & t' & H1 & H2); cbn in H1; [left; congruence|right; by exists i, t'].
  - rewrite IH. split; [intros (i & t' & H1 & H2); by exists (S i), t'|]. intros ([|i] & t' & H1 & H2); [done|]. by exists i, t'.
Qed.

Lemma subtrees_subtree u t : u ∈ subtrees t -> subtree u t.
Proof.
  induction t as [v|k t IH|ts IH] using tree_ind'; cbn [subtrees].
  - by intros []%elem_of_nil.
  - intros [->|H]%elem_of_cons; [apply subtree_refl; by intros []|constructor; auto].
  - intros [->|(i & t & Hi & H)]%subtrees_branch; [apply subtree_refl; by intros []|]. econstructor; [done|]. by apply (each_lookup _ _ _ _ IH Hi).
Qed.

Lemma path_subtree t : forall k w, w ∈ path t k -> subtree w t.
Proof.
  induction t as [v|p t IH|ts IH] using tree_ind'; intros k w.
  - by intros []%elem_of_nil.
  - cbn [path]. intros [->|H]%elem_of_cons; [apply subtree_refl; by intros []|]. constructor. case_bool_decide; [by eapply IH|by apply elem_of_nil in H].
  - destruct k as [|x k]; [cbn; intros [->|[]%elem_of_nil]%elem_of_cons; apply subtree_refl; by intros []|].
    rewrite path_branch. intros [->|H]%elem_of_cons; [apply subtree_refl; by intros []|]. unfold child in H. destruct (ts !! Z.to_nat x) as [[t|]|] eqn:E; cbn in H; [|by apply elem_of_nil in H..].
    econstructor; [done|]. by eapply (each_lookup _ _ _ _ IH E).
Qed.

Lemma path_subtrees t : forall k w, w ∈ path t k -> w ∈ subtrees t.
Proof.
  induction t as [v|p t IH|ts IH] using tree_ind'; intros k w.
  - by intros []%elem_of_nil.
  - cbn [path subtrees]. intros [->|H]%elem_of_cons; [by left|]. right. case_bool_decide; [by eapply IH|by apply elem_of_nil in H].
  - rewrite subtrees_branch. destruct k as [|x k]; [cbn; intros [->|[]%elem_of_nil]%elem_of_cons; by left|].
    rewrite path_branch. intros [->|H]%elem_of_cons; [by left|]. right. unfold child in H. destruct (ts !! Z.to_nat x) as [[t|]|] eqn:E; cbn in H; [|by apply elem_of_nil in H..].
    exists (Z.to_nat x), t. split; [done|]. by eapply (each_lookup _ _ _ _ IH E).
Qed.

Section ideal.
Context (sha : bytes -> bytes).

Definition ideal (t : tree) (h : bytes) : option bytes := tenc sha <$> head (filter (fun u => troot sha u = h) (subtrees t)).

Lemma ideal_holds t u : (forall v w, v ∈ subtrees t -> w ∈ subtrees t -> troot sha v = troot sha w -> tenc sha v = tenc sha w) ->
  u ∈ subtrees t -> holds sha (ideal t) u.
Proof.
  intros Hinj Hu. unfold holds, ideal. destruct (filter _ _) as [|v vs] eqn:E.
  - assert (u ∈ filter (fun u' => troot sha u' = troot sha u) (subtrees t)) as H by by apply list_elem_of_filter. rewrite E in H. by apply elem_of_nil in H.
  - cbn. f_equal. assert (v ∈ filter (fun u' => troot sha u' = troot sha u) (subtrees t)) as H by (rewrite E; by left).
    apply list_elem_of_filter in H as [H1 H2]. by apply Hinj.
Qed.

Lemma stored_holds_all db t : (forall u, u ∈ subtrees t -> holds sha db u) -> stored sha db t.
Proof.
  induction t as [v|k t IH|ts IH] using tree_ind'; intros H; [done|..].
  - cbn. split; [intros _; apply H; by left|]. apply IH. intros u Hu. apply H. by right.
  - apply stored_branch; [intros _; apply H; by left|]. apply Forall_lookup_2. intros i [u|] Hi; [|done]. cbn. apply (each_lookup _ _ _ _ IH Hi).
    intros w Hw. apply H, subtrees_branch. right. by exists i, u.
Qed.

Lemma subtrees_head t : ~ is_leaf t -> t ∈ subtrees t.
Proof. destruct t; [done|..]; by left. Qed.

Lemma ideal_stored t P : (forall a b, P a -> P b -> sha a = sha b -> a = b) -> known sha P t -> ~ is_leaf t -> stored_root sha (ideal t) t.
Proof.
  intros Hinj Hk Hnl. assert (forall u, u ∈ subtrees t -> holds sha (ideal t) u) as H.
  { intros u Hu. apply ideal_holds; [|done]. intros v w Hv Hw. apply Hinj; by apply Hk, subtrees_subtree. }
  split; [by apply H, subtrees_head|by apply stored_holds_all].
Qed.
End ideal.

(** * Verification *)

Section verification.
Context (sha : bytes -> bytes) (hash_len : forall b, length (sha b) = 32%nat) (hash_ok : forall b, bytes_ok (sha b)).
Context (P : bytes -> Prop) (P_inj : forall a b, P a -> P b -> sha a = sha b -> a = b).
Context (B : nat) (HB : Z.of_nat B < 2 ^ 58).

(** Nodes are under their hash. *)
Definition proof_ok (proofDb : bytes -> option bytes) : Prop := forall h b, proofDb h = Some b -> P b /\ h = sha b.

(** What verification returns: the value, or that a node on the path is missing. *)
Definition verified (proofDb : bytes -> option bytes) (t : tree) (k : bytes) (r : outcome proof_error (option bytes * nat)) : Prop :=
  match r with
  | Ok (v, _) => v = tget t k
  | Err (errMissingProof _ h) => exists w, w ∈ path t k /\ (w = t \/ 32 <= zlen (tenc sha w)) /\ h = troot sha w /\ proofDb h = None
  | _ => False
  end.

Lemma verifyLoop_ok db proofDb : proof_ok proofDb -> forall fuel i t k, fits B t k -> ~ is_leaf t -> stored_root sha db t ->
  (forall w, w ∈ path t k -> P (tenc sha w)) -> (length k < fuel)%nat -> verified proofDb t k (verifyLoop proofDb fuel i (troot sha t) k).
Proof using hash_len hash_ok P_inj HB.
  intros Hdb. induction fuel as [|fuel IH]; intros i t k Hf Hnl Hst HP Hfu; [lia|]. cbn [verifyLoop].
  destruct (proofDb (troot sha t)) as [buf|] eqn:Eb; [|exists t; split_and!; [by apply path_head|by left|done..]].
  destruct (Hdb _ _ Eb) as [HPb Hhb]. assert (buf = tenc sha t) as -> by (symmetry; apply P_inj; [by apply HP, path_head|done|done]).
  destruct Hf as [(L & Hc & HL & Hk)|[? _]]; [|done]. assert (fits B t k) as Hf by (left; eauto). destruct Hst as [Hho Hst].
  destruct (decode_canon sha hash_len hash_ok db 0 t L (S (length (tenc sha t))) Hc ltac:(lia) Hst ltac:(lia) true (Some (troot sha t)) [])
    as (n & Hd & Hn & Hl); [split; [intros ? [= <-]; by split; [|left]|done]|apply Forall_nil_2|done|].
  rewrite app_nil_r in Hd. rewrite Hd. cbn [map_err outcome_bind].
  pose proof (get_ok sha db B n true t k Hn ltac:(done) Hf) as Hg. destruct (get n k) as [[k' [[| |h|v]|]]| | |]; cbn in Hg |- *; try done.
  destruct Hg as (Hlen & u & [-> Hlong Hnu Hsu Hfu' Hgu Hpu]). assert (wait n = 0%nat) as Hw by by destruct n. 
  rewrite take_ge, drop_ge, app_nil_r by (unfold troot; rewrite !hash_len; done).
  specialize (IH (S i) u k' Hfu' Hnu Hsu ltac:(intros w Hw'; by apply HP, Hpu) ltac:(lia)).
  destruct (verifyLoop _ _ _ _ _) as [[v j]|[j h|]| |]; cbn in *; try done; [congruence|]. destruct IH as (w & Hw1 & Hw2 & -> & Hw3). exists w. split_and!; auto.
  right. by destruct Hw2 as [->|].
Qed.
End verification.

(** * Construction *)

Section construction.
Context (sha : bytes -> bytes) (hash_len : forall b, length (sha b) = 32%nat) (hash_ok : forall b, bytes_ok (sha b)).
Context (B : nat) (HB : Z.of_nat B < 2 ^ 58) (db : bytes -> option bytes).

(** A collected node and the subtree it stands for. *)
Definition stands_for (n : node) (t : tree) : Prop := loaded n /\ (exists root, repr sha db root n t) /\ exists L, canon L t /\ (L <= B)%nat.

Lemma proofNodes_ok gen fuel : forall root n t k, repr sha db root n t -> fits B t k -> (2 * length k + wait n < fuel)%nat ->
  exists ns, proofNodes db fuel gen (Some n) k = Ok ns /\ Forall2 stands_for ns (path t k).
Proof using hash_len hash_ok HB.
  induction fuel as [|fuel IH]; intros root n t k Hr Hf Hfu; [lia|]. cbn [proofNodes].
  assert (is_leaf t \/ ~ is_leaf t) as [Hlf|Hnl] by (destruct t; cbn; tauto).
  { destruct Hf as [(L & Hc & _)|[_ ->]]; [by apply canon_not_is_leaf in Hc|]. exists []. destruct t; [|done..]. by split; [|constructor]. }
  destruct Hf as [(L & Hc & HL & Hk)|[Hlf _]]; [|by destruct Hnl]. assert (fits B t k) as Hf by (left; eauto). pose proof (hexkey_not_nil _ Hk). destruct k as [|x k]; [done|].
  inversion Hr as [? v|? p u t' fl Hu Hfl|? cs ts fl HF Hfl|? h ? _ E Hh Hs]; subst; [done|..].
  - rewrite keyMatches_spec. cbn [path]. assert (stands_for (shortNode p (Some u) fl) (Ext p t')) as Hst by (split; [done|split; eauto]).
    case_bool_decide as E; [|eexists; split; [done|]; by constructor].
    pose proof (match_app _ _ E) as Ek. rewrite Ek in Hf. apply fits_ext in Hf as [Hf Hp].
    assert (length (x :: k) = length p + length (drop (length p) (x :: k)))%nat as El by (rewrite Ek at 1; by rewrite length_app).
    assert (0 < length p)%nat by (destruct p; [done|cbn; lia]). pose proof (wait_le u).
    destruct (IH false u t' (drop (length p) (x :: k)) Hu Hf ltac:(lia)) as (ns & -> & Hns). eexists. split; [done|]. by constructor.
  - rewrite path_branch. destruct (child_nodes sha db B _ _ _ _ _ _ _ Hr Hc Hk) as (c & Hcx & Hco & Hx & _). rewrite Hcx. cbn [must outcome_bind].
    assert (stands_for (fullNode cs fl) (Branch ts)) as Hst by (split; [done|split; eauto]). pose proof (fits_branch B ts x k) as Hfb. remember (child ts x) as o eqn:Eo.
    destruct Hco as [n t Hnt|].
    + pose proof (wait_le n). cbn [length] in Hfu. destruct (IH false n t k Hnt (Hfb t Hf eq_refl) ltac:(lia)) as (ns & -> & Hns). eexists. split; [done|]. by constructor.
    + destruct fuel as [|fuel]; [cbn in Hfu; lia|]. eexists. cbn [proofNodes]. split; [by destruct k|]. by constructor.
  - destruct (resolveHash_ok sha hash_len hash_ok db gen B HB root _ t L [] Hr Hc HL) as (n & -> & Hn & Hld). cbn [outcome_bind].
    apply (IH root n t (x :: k) Hn Hf). assert (wait n = 0%nat) as -> by by destruct n. cbn [wait] in Hfu. lia.
Qed.

(** Collapsing a node without storing anything. *)
Lemma hashChildren_ok n t root L : repr sha db root n t -> canon L t -> Z.of_nat L < 2 ^ 58 -> loaded n ->
  exists cl cd, hashChildren (fun n db => hash sha 0 0 None n db false) n None = Ok (cl, cd, None) /\ nodeHash cl = None /\
    rval_ok (node_rval cl) = true /\ rlp_spec (node_rval cl) = Ok (tenc sha t) /\ fst (cache cl) = fst (cache n).
Proof using hash_len hash_ok.
  clear HB B. intros Hr Hc HL Hld.
  pose proof (hash_correct sha hash_len hash_ok (fun _ => False) ltac:(done) ltac:(done) 0 0 None ltac:(done) db) as Hgood.
  inversion Hr as [? v|? p u t' fl Hu Hfl|? cs ts fl HF Hfl|]; subst; [by apply canon_not_leaf in Hc| |..].
  - assert (hexpart p) as Hp by (inversion Hc; subst; [by right|by left]). cbn [hashChildren]. rewrite hexToCompact_part by done. cbn [must outcome_bind].
    inversion Hc as [? ? v Hk Hkl Hv|M ? ? Hne Hk Hb Hct|]; subst.
    + inversion Hu as [| | |? ? ? Hnl]; subst; [|by destruct Hnl]. eexists _, _. split; [done|].
      destruct (short_spec (compact (hasTerm p) (cutTerm p)) (valueNode v) fl (rlp_string v)) as [S1 S2]; [done..|]. by split_and!.
    + destruct (Hgood u false t' None M Hu Hct) as (h & c & o & E & Hh & _ & [A1 _ _ _] & _); [lia|done|done|]. destruct o; [done|].
      destruct (collapsed_ref sha t' h) as [C1 C2]; [by eapply canon_not_is_leaf|done|].
      destruct (short_spec (compact (hasTerm p) (cutTerm p)) h fl (ref_of sha t' (tenc sha t'))) as [S1 S2]; [done..|].
      assert (forall v, u <> valueNode v) as Hnv by (intros v ->; inversion Hu; by subst).
      exists (shortNode (compact (hasTerm p) (cutTerm p)) (Some h) fl), (shortNode p (Some c) fl). split; [|by split_and!].
      destruct u; try (by rewrite E); by edestruct Hnv.
  - inversion Hc as [| |M ? Hl Hch Hlast _]; subst. cbn [hashChildren].
    destruct (lookup_lt_is_Some_2 ts 16) as [tl Htl]; [lia|]. destruct (Forall2_lookup_r _ _ _ _ _ HF Htl) as (cl & Hcl & Hlr). rewrite Hcl. cbn [must outcome_bind].
    destruct (hashSlots_ok sha hash_len (fun _ => False) ltac:(done) ltac:(done) 0 0 None ltac:(done) db M 16 cs ts None) as (hs & ns & o1 & E & [B1 B2] & _ & B4 & _);
      [apply Forall_lookup_2; intros i [n|] _; [apply Hgood|done]|done|lia|intros i u Hi Hu; split; [by apply (Hch i)|done]|lia|done|]. destruct o1; [done|].
    destruct (branch_spec sha (view db None) hs ts fl tl cl) as (_ & _ & S1 & S2); try done.
    rewrite E. eexists _, _. split; [done|]. by split_and!.
  - done.
Qed.
End construction.

Section putting.
Context (sha : bytes -> bytes) (hash_len : forall b, length (sha b) = 32%nat) (hash_ok : forall b, bytes_ok (sha b)).
Context (B : nat) (HB : Z.of_nat B < 2 ^ 58) (db : bytes -> option bytes).
Context (P : bytes -> Prop) (P_inj : forall a b, P a -> P b -> sha a = sha b -> a = b).

Lemma stands_for_enc n t : stands_for sha B db n t ->
  exists cl hn, (let! (n, _, _) := hashChildren (fun n db => hash sha 0 0 None n db false) n None in let! (hn, _) := store sha None n None false in Ok (n, hn)) = Ok (cl, hn) /\
    EncodeToBytes (EncBuf [] [] 0) (node_rval cl) = Ok (tenc sha t) /\ nodeHash hn = if zlen (tenc sha t) <? 32 then None else Some (troot sha t).
Proof using hash_len hash_ok HB.
  intros (Hld & (root & Hr) & L & Hc & HL). destruct (canon_enc sha hash_len hash_ok L t Hc ltac:(lia)) as [_ He].
  destruct (hashChildren_ok sha hash_len hash_ok db n t root L Hr Hc ltac:(lia) Hld) as (cl & cd & -> & Hn & Hok & Hsp & Hca). cbn [outcome_bind].
  destruct (hasher_store_ok sha hash_len (fun _ => False) ltac:(done) ltac:(done) None ltac:(done) db cl t None false) as (hn & o & E & [C1 C2] & _); try done.
  { rewrite Hca. intros h Hh. destruct n; cbn in Hh; try done; inversion Hr as [|? ? ? ? ? _ [Hf _]|? ? ? ? _ [Hf _]|]; subst; by apply Hf. }
  rewrite E. cbn [outcome_bind]. exists cl, hn. split; [done|]. split; [apply EncodeToBytes_ok; [done..|lia]|].
  destruct (Z.ltb_spec (zlen (tenc sha t)) 32) as [Hs|Hs].
  - apply C2. intros [?|?]; [done|lia].
  - rewrite C1 by by right. done.
Qed.

(** What the proof holds: the nodes that are referred to by hash, and the first. *)
Definition covers (proofDb : gmap bytes bytes) (t : tree) : Prop := proofDb !! troot sha t = Some (tenc sha t).

Lemma put_covers proofDb t u : P (tenc sha t) -> P (tenc sha u) -> covers proofDb u -> covers (<[troot sha t := tenc sha t]> proofDb) u.
Proof using P_inj.
  intros Ht Hu Hc. unfold covers. destruct (decide (troot sha t = troot sha u)) as [E|E]; [|by rewrite lookup_insert_ne].
  rewrite E, lookup_insert_eq. f_equal. by apply P_inj.
Qed.

Lemma putNodes_ok ns ts : Forall2 (stands_for sha B db) ns ts -> (forall t, t ∈ ts -> P (tenc sha t)) -> forall first proofDb, proof_ok sha P (fun h => proofDb !! h) ->
  exists proofDb', putNodes sha first 0 ns proofDb = Ok proofDb' /\ proof_ok sha P (fun h => proofDb' !! h) /\
    (forall u, P (tenc sha u) -> covers proofDb u -> covers proofDb' u) /\
    (forall i t, ts !! i = Some t -> (i = 0%nat /\ first = true) \/ 32 <= zlen (tenc sha t) -> covers proofDb' t).
Proof using hash_len hash_ok HB P_inj.
  induction 1 as [|n t ns ts Hn HF IH]; intros HP first proofDb Hdb; cbn [putNodes].
  { exists proofDb. split_and!; [done..|]. intros i t Hi. by rewrite lookup_nil in Hi. }
  destruct (stands_for_enc n t Hn) as (cl & hn & -> & -> & ->). assert (P (tenc sha t)) as HPt by (apply HP; by left).
  assert (forall u, u ∈ ts -> P (tenc sha u)) as HPs by (intros u Hu; apply HP; by right).
  assert (proof_ok sha P (fun h => <[troot sha t := tenc sha t]> proofDb !! h)) as Hput.
  { intros h b [[<- <-]|[_ Hb]]%lookup_insert_Some; [done|by apply Hdb]. }
  assert (exists D, match (if zlen (tenc sha t) <? 32 then None else Some (troot sha t)), first with
    | None, false => putNodes sha false 0 ns proofDb
    | o, _ => putNodes sha false 0 ns (<[match o with Some hash => hash | None => sha (tenc sha t) end := tenc sha t]> proofDb) end = putNodes sha false 0 ns D /\
    proof_ok sha P (fun h => D !! h) /\ (forall u, P (tenc sha u) -> covers proofDb u -> covers D u) /\ (first = true \/ 32 <= zlen (tenc sha t) -> covers D t)) as (D & -> & HD & Hkeep & Hcov).
  { destruct (Z.ltb_spec (zlen (tenc sha t)) 32) as [Hs|Hs]; [destruct first|];
      [exists (<[troot sha t := tenc sha t]> proofDb)|exists proofDb|exists (<[troot sha t := tenc sha t]> proofDb)]; (split; [done|]);
      split_and!; try done; try (by intros; apply put_covers); try (by intros; unfold covers; rewrite lookup_insert_eq).
    intros [|]; [done|lia]. }
  destruct (IH HPs false D HD) as (D' & -> & H1 & H2 & H3). exists D'. split_and!; [done|done|auto|].
  intros [|i] u Hu Hc; cbn in Hu; [|apply (H3 i); [done|]; right; by destruct Hc as [[? _]|]].
  injection Hu as ->. apply H2; [done|]. apply Hcov. destruct Hc as [[_ ?]|]; auto.
Qed.
End putting.

(** * Proofs and root hashes *)

Section theorems.
Context (sha : bytes -> bytes) (hash_len : forall b, length (sha b) = 32%nat) (hash_ok : forall b, bytes_ok (sha b)).
Context (P : bytes -> Prop) (P_inj : forall a b, P a -> P b -> sha a = sha b -> a = b).
Context (n : nat) (Hn : Z.of_nat n < 2 ^ 56) (db : bytes -> option bytes) (t : Trie) (u : tree).
Context (Ht : is_trie sha db n t (Some u)) (Hu : known sha P u).

Lemma key_fits key : key_ok n key -> fits (keyBound n) u (keybytesToHex key).
Proof using Ht. intros Hk. apply key_ok_hex in Hk as [Hk Hl]. left. exists (keyBound n). split_and!; [apply Ht|done|done]. Qed.

Lemma VerifyProof_ok proofDb key fuel : proof_ok sha P proofDb -> key_ok n key -> (2 * length key + 2 <= fuel)%nat ->
  verified sha proofDb u (keybytesToHex key) (VerifyProof proofDb fuel (troot sha u) key).
Proof using hash_len hash_ok P_inj Hn Ht Hu.
  intros Hdb Hk Hf. assert (~ is_leaf u) as Hnl by (eapply canon_not_is_leaf, Ht). unfold VerifyProof.
  apply (verifyLoop_ok sha hash_len hash_ok P P_inj (keyBound n) (keyBound_ok n Hn) (ideal sha u)); [done|by apply key_fits|done|by apply (ideal_stored sha u P)| |].
  - intros w Hw. by eapply Hu, path_subtree.
  - rewrite length_keybytesToHex. lia.
Qed.

Lemma Prove_ok proofDb key fuel : proof_ok sha P (fun h => proofDb !! h) -> key_ok n key -> (2 * length key + 2 <= fuel)%nat ->
  exists proofDb' i, Prove sha db t key 0 proofDb = Ok proofDb' /\ VerifyProof (fun h => proofDb' !! h) fuel (troot sha u) key = Ok (content (Some u) key, i).
Proof using hash_len hash_ok P_inj Hn Ht Hu.
  intros Hdb Hk Hf. pose proof (it_repr _ _ _ _ _ Ht) as Hr. inversion Hr as [nd ? Hnd E|]; subst.
  assert (~ is_leaf u) as Hnl by (eapply canon_not_is_leaf, Ht). pose proof (wait_le nd).
  destruct (proofNodes_ok sha hash_len hash_ok (keyBound n) (keyBound_ok n Hn) db (t_cachegen t) (keyFuel (keybytesToHex key)) true nd u _ Hnd (key_fits key Hk)) as (ns & E1 & Hns); [unfold keyFuel; lia|].
  destruct (putNodes_ok sha hash_len hash_ok (keyBound n) (keyBound_ok n Hn) db P P_inj ns _ Hns) with (first := true) (proofDb := proofDb) as (proofDb' & E2 & Hdb' & _ & Hcov);
    [intros w Hw; by eapply Hu, path_subtree|done|].
  pose proof (VerifyProof_ok _ key fuel Hdb' Hk Hf) as Hv. unfold Prove. rewrite <- E, E1. cbn [outcome_bind]. rewrite E2. exists proofDb'.
  destruct (VerifyProof _ _ _ _) as [[v i]|[i h|]| |]; try done; [exists i; split; [done|]; by rewrite Hv|].
  destruct Hv as (w & Hw & Hl & -> & Hnone). apply list_elem_of_lookup in Hw as [j Hj]. assert (covers sha proofDb' w) as Hc; [|unfold covers in Hc; congruence].
  destruct Hl as [->|Hl]; [|by apply (Hcov j); [|right]]. apply (Hcov 0%nat); [|by left]. destruct u as [v|p u'|ts]; [done|done|]. cbn. by destruct (keybytesToHex key).
Qed.
End theorems.

(** Nothing can be proved against the hash of the empty trie: what hashes to it is not a node. *)
Lemma VerifyProof_empty sha P proofDb key fuel : (forall a b, P a -> P b -> sha a = sha b -> a = b) -> P [128] -> sha [128] = emptyRoot ->
  proof_ok sha P proofDb -> (0 < fuel)%nat ->
  match VerifyProof proofDb fuel emptyRoot key with
  | Err (errMissingProof _ h) => proofDb h = None
  | Err _ => True
  | _ => False
  end.
Proof.
  intros Hinj He Hes Hdb Hf. unfold VerifyProof. destruct fuel as [|fuel]; [lia|]. cbn [verifyLoop]. destruct (proofDb emptyRoot) as [buf|] eqn:Eb; [|done].
  destruct (Hdb _ _ Eb) as [HP Hh]. assert (buf = [128]) as -> by (apply Hinj; [done|done|by rewrite Hes]). done.
Qed.

Section proofs.
Context (sha : bytes -> bytes) (hash_len : forall b, length (sha b) = 32%nat) (hash_ok : forall b, bytes_ok (sha b)).
Context (P : bytes -> Prop) (P_inj : forall a b, P a -> P b -> sha a = sha b -> a = b) (P_empty : P [128]) (sha_empty : sha [128] = emptyRoot).
Context (n : nat) (Hn : Z.of_nat n < 2 ^ 56) (db : bytes -> option bytes) (t : Trie) (o : option tree).
Context (Ht : is_trie sha db n t o) (Hu : forall u, o = Some u -> known sha P u).

Lemma Hash_root h t' : Hash sha t = Ok (h, t') -> h = rootHash sha o.
Proof using hash_len hash_ok Hn Ht. intros E. destruct (Hash_ok sha hash_len hash_ok n Hn db t _ Ht) as (t'' & E' & _). rewrite E in E'. by injection E'. Qed.

(** C15. A proof cannot lie: against the root hash of a trie, with any set of nodes each of which is
    under its own hash, verification returns, and when it gives a value or the absence of one,
    that is what the trie has for the key.  It fails only where a node is missing or the trie is
    empty.  That nodes are under their own hashes is up to whoever fills the set: verification
    does not hash them.  No two strings in use have the same hash. *)
Theorem proof_sound h t' proofDb key fuel : Hash sha t = Ok (h, t') -> proof_ok sha P proofDb -> key_ok n key -> (2 * length key + 2 <= fuel)%nat ->
  match VerifyProof proofDb fuel h key with
  | Ok (v, _) => v = content o key /\ o <> None
  | Err (errMissingProof _ h) => proofDb h = None
  | Err (errBadProof _ _) => o = None
  | _ => False
  end.
Proof using hash_len hash_ok P_inj P_empty sha_empty Hn Ht Hu.
  intros ->%Hash_root Hdb Hk Hf. destruct o as [u|]; cbn [rootHash].
  - pose proof (VerifyProof_ok sha hash_len hash_ok P P_inj n Hn db t u Ht (Hu u eq_refl) proofDb key fuel Hdb Hk Hf) as H.
    fold (troot sha u). destruct (VerifyProof _ _ _ _) as [[v i]|[i h|]| |]; try done. by destruct H as (w & _ & _ & _ & H).
  - pose proof (VerifyProof_empty sha P proofDb key fuel P_inj P_empty sha_empty Hdb ltac:(lia)) as H. by destruct (VerifyProof _ _ _ _) as [[v i]|[i h|]| |].
Qed.

(** C16. The whole proof a trie constructs for a key, present or not, convinces whoever knows the
    root hash, unless the trie is empty: construction returns, and verifying with the
    constructed nodes, added to any others under their own hashes, gives the value the trie has
    for the key.  The empty trie adds no node, and nothing can be verified against its hash. *)
Theorem proof_complete h t' proofDb key fuel : Hash sha t = Ok (h, t') -> proof_ok sha P (fun h => proofDb !! h) -> key_ok n key -> (2 * length key + 2 <= fuel)%nat ->
  exists proofDb', Prove sha db t key 0 proofDb = Ok proofDb' /\
    match o with
    | Some _ => exists i, VerifyProof (fun h => proofDb' !! h) fuel h key = Ok (content o key, i)
    | None => proofDb' = proofDb /\ exists e, VerifyProof (fun h => proofDb' !! h) fuel h key = Err e
    end.
Proof using hash_len hash_ok P_inj P_empty sha_empty Hn Ht Hu.
  intros ->%Hash_root Hdb Hk Hf. destruct o as [u|]; cbn [rootHash].
  - destruct (Prove_ok sha hash_len hash_ok P P_inj n Hn db t u Ht (Hu u eq_refl) proofDb key fuel Hdb Hk Hf) as (proofDb' & i & E1 & E2). exists proofDb'. split; [done|]. by exists i.
  - pose proof (it_repr _ _ _ _ _ Ht) as Hr. inversion Hr as [|E]; subst. exists proofDb. pose proof (VerifyProof_empty sha P _ key fuel P_inj P_empty sha_empty Hdb ltac:(lia)) as H. split; [|split; [done|]].
    + unfold Prove. rewrite <- E. by destruct (keybytesToHex key).
    + destruct (VerifyProof _ _ _ _) as [[v i]|e| |]; try done. by exists e.
Qed.
End proofs.

(** ** The root hash binds the content *)

Section binding.
Context (sha : bytes -> bytes).
Context (P : bytes -> Prop) (P_inj : forall a b, P a -> P b -> sha a = sha b -> a = b) (P_empty : P [128]) (sha_empty : sha [128] = emptyRoot).
Context (n : nat) (db1 : bytes -> option bytes).

Lemma ideal_proof_ok u : known sha P u -> proof_ok sha P (ideal sha u).
Proof.
  intros Hu h b. unfold ideal. destruct (filter _ _) as [|w ws] eqn:E; [done|]. intros [= <-].
  assert (w ∈ filter (fun w => troot sha w = h) (subtrees u)) as [Hh Hw]%list_elem_of_filter by (rewrite E; by left). split; [by apply Hu, subtrees_subtree|done].
Qed.

(** A path through the tree does not leave its own store. *)
Lemma ideal_path u k w : known sha P u -> w ∈ path u k -> ideal sha u (troot sha w) <> None.
Proof using P_inj.
  intros Hu Hw%path_subtrees. rewrite (ideal_holds sha u w); [done| |done]. intros v v' Hv Hv'. apply P_inj; by apply Hu, subtrees_subtree.
Qed.

Lemma root_not_empty t u : is_trie sha db1 n t (Some u) -> known sha P u -> troot sha u <> emptyRoot.
Proof using P_inj P_empty sha_empty.
  intros Ht Hu. assert (~ is_leaf u) as Hnl by (eapply canon_not_is_leaf, Ht). rewrite <- sha_empty. intros E%P_inj; [|by apply Hu, subtree_refl|done].
  destruct (tenc_list sha u Hnl) as (p & Ep & _). rewrite Ep in E. by apply rlp_list_not_nil_string in E.
Qed.
End binding.

Section bound.
Context (sha : bytes -> bytes) (hash_len : forall b, length (sha b) = 32%nat) (hash_ok : forall b, bytes_ok (sha b)).
Context (P : bytes -> Prop) (P_inj : forall a b, P a -> P b -> sha a = sha b -> a = b) (P_empty : P [128]) (sha_empty : sha [128] = emptyRoot).
Context (n : nat) (Hn : Z.of_nat n < 2 ^ 56).

Lemma rootHash_binds db1 db2 t1 t2 o1 o2 : is_trie sha db1 n t1 o1 -> is_trie sha db2 n t2 o2 ->
  (forall u, o1 = Some u -> known sha P u) -> (forall u, o2 = Some u -> known sha P u) -> rootHash sha o1 = rootHash sha o2 ->
  forall key, key_ok n key -> content o1 key = content o2 key.
Proof using hash_len hash_ok P_inj P_empty sha_empty Hn.
  intros H1 H2 K1 K2 E key Hk. destruct o1 as [u1|], o2 as [u2|]; cbn [rootHash] in E; [|exfalso..|done].
  - pose proof (ideal_proof_ok sha P u1 (K1 _ eq_refl)) as Hdb.
    pose proof (VerifyProof_ok sha hash_len hash_ok P P_inj n Hn db1 t1 u1 H1 (K1 _ eq_refl) _ key _ Hdb Hk (le_n _)) as V1.
    pose proof (VerifyProof_ok sha hash_len hash_ok P P_inj n Hn db2 t2 u2 H2 (K2 _ eq_refl) _ key _ Hdb Hk (le_n _)) as V2.
    rewrite <- E in V2. unfold content. destruct (VerifyProof _ _ _ _) as [[v i]|[i h|]| |]; try done; [cbn in *; congruence|].
    destruct V1 as (w & Hw & _ & -> & Hnone). by destruct (ideal_path sha P P_inj u1 _ w (K1 _ eq_refl) Hw Hnone).
  - exact (root_not_empty sha P P_inj P_empty sha_empty n db1 t1 u1 H1 (K1 _ eq_refl) E).
  - exact (root_not_empty sha P P_inj P_empty sha_empty n db2 t2 u2 H2 (K2 _ eq_refl) (eq_sym E)).
Qed.
End bound.

(** ** Witnesses *)

Lemma sample_Hash : exists t', Hash shortHash sample_trie = Ok (troot shortHash sample_tree, t').
Proof. eexists. vm_compute. reflexivity. Qed.

Lemma sample_key : key_ok 2 [1; 2].
Proof. by split; [repeat constructor|]. Qed.

Lemma empty_proof_ok : proof_ok shortHash sample_strings (fun h => (∅ : gmap bytes bytes) !! h).
Proof. intros h b Hb. by rewrite lookup_empty in Hb. Qed.

(** The one node of the sample trie, under its hash. *)
Definition sample_proof (h : bytes) : option bytes := if bool_decide (h = troot shortHash sample_tree) then Some (tenc shortHash sample_tree) else None.
Lemma sample_proof_ok : proof_ok shortHash sample_strings sample_proof.
Proof. intros h b. unfold sample_proof. case_bool_decide; [|done]. intros [= <-]. subst. by split; [right|]. Qed.
Lemma sample_all_known u : Some sample_tree = Some u -> known shortHash sample_strings u.
Proof. intros [= <-]. apply sample_known. Qed.

Lemma proof_sound_witness : exists i, VerifyProof sample_proof 6 (troot shortHash sample_tree) [1; 2] = Ok (content (Some sample_tree) [1; 2], i).
Proof.
  destruct sample_Hash as [t' Ht'].
  pose proof (proof_sound shortHash shortHash_len shortHash_ok sample_strings sample_free (or_introl eq_refl) eq_refl 2 ltac:(done) (fun _ => None) sample_trie (Some sample_tree)
    (sample_is_trie _) sample_all_known _ t' sample_proof [1; 2] 6 Ht' sample_proof_ok sample_key ltac:(cbn; lia)) as H.
  assert (match VerifyProof sample_proof 6 (troot shortHash sample_tree) [1; 2] with Ok _ => True | _ => False end) as Hok by (vm_compute; exact I).
  destruct (VerifyProof _ _ _ _) as [[v i]| | |]; try contradiction Hok. exists i. destruct H as [-> _]. reflexivity.
Defined.

Lemma proof_complete_witness : exists proofDb' i, Prove shortHash (fun _ => None) sample_trie [1; 2] 0 ∅ = Ok proofDb' /\
  VerifyProof (fun h => proofDb' !! h) 6 (troot shortHash sample_tree) [1; 2] = Ok (Some [7], i).
Proof.
  destruct sample_Hash as [t' Ht'].
  destruct (proof_complete shortHash shortHash_len shortHash_ok sample_strings sample_free (or_introl eq_refl) eq_refl 2 ltac:(done) (fun _ => None) sample_trie (Some sample_tree)
    (sample_is_trie _) sample_all_known _ t' ∅ [1; 2] 6 Ht' empty_proof_ok sample_key ltac:(cbn; lia)) as (proofDb' & E1 & i & E2).
  exists proofDb', i. exact (conj E1 E2).
Defined.

(** Verification does not hash what it finds: under the root hash of the sample trie, the node
    of another one is believed. *)
Lemma unhashed_node_believed : let other := Ext (keybytesToHex [1; 2]) (Leaf [8]) in
  VerifyProof (fun _ => Some (tenc shortHash other)) 6 (troot shortHash sample_tree) [1; 2] = Ok (Some [8], 1%nat) /\ content (Some sample_tree) [1; 2] = Some [7].
Proof. vm_compute. split; reflexivity. Qed.
