(* ===== verification/State.v ===== *)
(** The state database: [src/core/state/statedb.go], [state_object.go] and [journal.go].

    Accounts live in a trie; the database keeps modified accounts in memory and a journal
    from which any snapshot can be restored.  Tries and the store of contract code
    ([database.go]) are parameters.  Caches that reads fill (loaded accounts, code and
    storage slots) are not modelled: they answer what a fresh read would.  Only an account
    that is loaded to be changed is kept, since finalising looks at the accounts in memory.  The memoised
    database error is left out as well; a failed read yields the default the source
    returns. *)

From stdpp Require Import base numbers list gmap.
From S2P Require Import Prelude.
From S2P Require Import CommonMath.
From S2P Require Import RlpEncode.
From S2P Require Import RlpRaw.
From S2P Require Import RlpStream.
From S2P Require Import VmState.
From S2P Require Import VmWorld.
Local Open Scope Z_scope.
Local Open Scope go_scope.

(** * database.go: the interfaces *)

(** [TryGet] is [None] on an error, empty for an absent key. *)
Class Trie (T : Type) := {
  TryGet : T -> bytes -> option bytes;
  TryUpdate : bytes -> bytes -> T -> T;
  TryDelete : bytes -> T -> T;
  trie_Hash : T -> bytes }.

Record Database (T : Type) := MkDatabase {
  OpenStorageTrie : bytes -> option T;
  (** what opening the zero root gives *)
  EmptyTrie : T;
  ContractCode : bytes -> option bytes }.
Arguments OpenStorageTrie {T}.
Arguments EmptyTrie {T}.
Arguments ContractCode {T}.

(** * state_object.go: data *)

Record Account := MkAccount { a_Nonce : Z; a_Balance : Z; a_Root : bytes; a_CodeHash : bytes }.

Abbreviation Storage := (gmap bytes bytes).

Record stateObject (T : Type) := MkObject {
  so_address : bytes; so_data : Account; so_trie : option T; so_code : bytes;
  so_cachedStorage : Storage; so_dirtyStorage : Storage;
  so_dirtyCode : bool; so_suicided : bool; so_deleted : bool }.
Arguments MkObject {T}.
Arguments so_address {T}.
Arguments so_data {T}.
Arguments so_trie {T}.
Arguments so_code {T}.
Arguments so_cachedStorage {T}.
Arguments so_dirtyStorage {T}.
Arguments so_dirtyCode {T}.
Arguments so_suicided {T}.
Arguments so_deleted {T}.

(** * journal.go: data *)

Inductive journalEntry (T : Type) :=
| createObjectChange (account : bytes)
| resetObjectChange (prev : stateObject T)
| suicideChange (account : bytes) (prev : bool) (prevbalance : Z)
| balanceChange (account : bytes) (prev : Z)
| nonceChange (account : bytes) (prev : Z)
| storageChange (account key prevalue : bytes)
| codeChange (account prevcode prevhash : bytes)
| refundChange (prev : Z)
| addLogChange (txhash : bytes)
| addPreimageChange (hash : bytes)
| touchChange (account : bytes).
Arguments createObjectChange {T}.
Arguments resetObjectChange {T}.
Arguments suicideChange {T}.
Arguments balanceChange {T}.
Arguments nonceChange {T}.
Arguments storageChange {T}.
Arguments codeChange {T}.
Arguments refundChange {T}.
Arguments addLogChange {T}.
Arguments addPreimageChange {T}.
Arguments touchChange {T}.

(** The entries, newest first, and how many touch each address. *)
Record journal (T : Type) := MkJournal { j_entries : list (journalEntry T); j_dirties : gmap bytes Z }.
Arguments MkJournal {T}.
Arguments j_entries {T}.
Arguments j_dirties {T}.

(** * statedb.go: data *)

(** A log with what the database adds to it. *)
Record StateLog := MkStateLog { sl_log : Log; sl_TxHash : bytes; sl_BlockHash : bytes; sl_TxIndex : Z; sl_Index : Z }.

(** The database.  [validRevisions] holds pairs of id and journal length, oldest first. *)
Record SDB (T : Type) := MkSDB {
  trie : T; stateObjects : gmap bytes (stateObject T); stateObjectsDirty : gset bytes;
  refund : Z; thash : bytes; bhash : bytes; txIndex : Z;
  logs : gmap bytes (list StateLog); logSize : Z; preimages : gmap bytes bytes;
  sjournal : journal T; validRevisions : list (Z * Z); nextRevisionId : Z }.
Arguments MkSDB {T}.
Arguments trie {T}.
Arguments stateObjects {T}.
Arguments stateObjectsDirty {T}.
Arguments refund {T}.
Arguments thash {T}.
Arguments bhash {T}.
Arguments txIndex {T}.
Arguments logs {T}.
Arguments logSize {T}.
Arguments preimages {T}.
Arguments sjournal {T}.
Arguments validRevisions {T}.
Arguments nextRevisionId {T}.

Section updates.
Context {T : Type}.
Implicit Types (s : SDB T) (o : stateObject T).
Definition with_trie s t := MkSDB t (stateObjects s) (stateObjectsDirty s) (refund s) (thash s) (bhash s) (txIndex s) (logs s) (logSize s) (preimages s) (sjournal s) (validRevisions s) (nextRevisionId s).
Definition with_objects s m := MkSDB (trie s) m (stateObjectsDirty s) (refund s) (thash s) (bhash s) (txIndex s) (logs s) (logSize s) (preimages s) (sjournal s) (validRevisions s) (nextRevisionId s).
Definition with_dirty s d := MkSDB (trie s) (stateObjects s) d (refund s) (thash s) (bhash s) (txIndex s) (logs s) (logSize s) (preimages s) (sjournal s) (validRevisions s) (nextRevisionId s).
Definition with_refund s r := MkSDB (trie s) (stateObjects s) (stateObjectsDirty s) r (thash s) (bhash s) (txIndex s) (logs s) (logSize s) (preimages s) (sjournal s) (validRevisions s) (nextRevisionId s).
Definition with_tx s th bh ti := MkSDB (trie s) (stateObjects s) (stateObjectsDirty s) (refund s) th bh ti (logs s) (logSize s) (preimages s) (sjournal s) (validRevisions s) (nextRevisionId s).
Definition with_logs s l n := MkSDB (trie s) (stateObjects s) (stateObjectsDirty s) (refund s) (thash s) (bhash s) (txIndex s) l n (preimages s) (sjournal s) (validRevisions s) (nextRevisionId s).
Definition with_preimages s p := MkSDB (trie s) (stateObjects s) (stateObjectsDirty s) (refund s) (thash s) (bhash s) (txIndex s) (logs s) (logSize s) p (sjournal s) (validRevisions s) (nextRevisionId s).
Definition with_journal s j := MkSDB (trie s) (stateObjects s) (stateObjectsDirty s) (refund s) (thash s) (bhash s) (txIndex s) (logs s) (logSize s) (preimages s) j (validRevisions s) (nextRevisionId s).
Definition with_revisions s r n := MkSDB (trie s) (stateObjects s) (stateObjectsDirty s) (refund s) (thash s) (bhash s) (txIndex s) (logs s) (logSize s) (preimages s) (sjournal s) r n.

Definition with_data o d := MkObject (so_address o) d (so_trie o) (so_code o) (so_cachedStorage o) (so_dirtyStorage o) (so_dirtyCode o) (so_suicided o) (so_deleted o).
Definition with_suicided o b := MkObject (so_address o) (so_data o) (so_trie o) (so_code o) (so_cachedStorage o) (so_dirtyStorage o) (so_dirtyCode o) b (so_deleted o).
Definition with_deleted o b := MkObject (so_address o) (so_data o) (so_trie o) (so_code o) (so_cachedStorage o) (so_dirtyStorage o) (so_dirtyCode o) (so_suicided o) b.
Definition with_code o c := MkObject (so_address o) (so_data o) (so_trie o) c (so_cachedStorage o) (so_dirtyStorage o) true (so_suicided o) (so_deleted o).
Definition with_storage o c d := MkObject (so_address o) (so_data o) (so_trie o) (so_code o) c d (so_dirtyCode o) (so_suicided o) (so_deleted o).
Definition with_strie o (t : option T) : stateObject T := MkObject (so_address o) (so_data o) t (so_code o) (so_cachedStorage o) (so_dirtyStorage o) (so_dirtyCode o) (so_suicided o) (so_deleted o).
End updates.

(** * journal.go: operations *)

Section state.
Context {T : Type} `{Trie T} (db : Database T) (hash : bytes -> bytes).
Implicit Types (s : SDB T) (o : stateObject T).

Definition dirtied (e : journalEntry T) : option bytes :=
  match e with
  | createObjectChange a | suicideChange a _ _ | balanceChange a _ | nonceChange a _ | storageChange a _ _
  | codeChange a _ _ | touchChange a => Some a
  | resetObjectChange _ | refundChange _ | addLogChange _ | addPreimageChange _ => None
  end.

Definition newJournal : journal T := MkJournal [] ∅.

Definition j_dirty (addr : bytes) (j : journal T) : journal T :=
  MkJournal (j_entries j) (<[addr := default 0 (j_dirties j !! addr) + 1]> (j_dirties j)).
Definition j_append (e : journalEntry T) (j : journal T) : journal T :=
  let j := MkJournal (e :: j_entries j) (j_dirties j) in
  match dirtied e with Some addr => j_dirty addr j | None => j end.
(** [if j.dirties[addr]--; j.dirties[addr] == 0 { delete }] *)
Definition j_undirty (addr : bytes) (d : gmap bytes Z) : gmap bytes Z :=
  let n := default 0 (d !! addr) - 1 in if n =? 0 then delete addr d else <[addr := n]> d.

Definition journal_append (e : journalEntry T) s : SDB T := with_journal s (j_append e (sjournal s)).

(** * state_object.go *)

Definition emptyCodeHash : bytes := hash [].

(** The nil code hash of an account just created is the empty one here; no account is stored with an
    empty code hash. *)
Definition newObject (address : bytes) (data : Account) : stateObject T :=
  let data := if bool_decide (a_CodeHash data = []) then MkAccount (a_Nonce data) (a_Balance data) (a_Root data) emptyCodeHash
              else data in
  MkObject address data None [] ∅ ∅ false false false.

Definition so_empty o : bool :=
  (a_Nonce (so_data o) =? 0) && (a_Balance (so_data o) =? 0) && bool_decide (a_CodeHash (so_data o) = emptyCodeHash).

Definition getTrie o : T :=
  match so_trie o with
  | Some t => t
  | None => match OpenStorageTrie db (a_Root (so_data o)) with Some t => t | None => EmptyTrie db end
  end.

(** The value read from the trie: the content of one RLP string, left-padded. *)
Definition storageValue (enc : bytes) : bytes :=
  if bool_decide (enc = []) then zeroHash
  else match Split enc with Ok (_, content, _) => BytesToHash content | _ => zeroHash end.

Definition so_GetState o (key : bytes) : bytes :=
  match so_cachedStorage o !! key with
  | Some value => value
  | None => match TryGet (getTrie o) key with Some enc => storageValue enc | None => zeroHash end
  end.

Definition so_Code o : bytes :=
  if negb (bool_decide (so_code o = [])) then so_code o
  else if bool_decide (a_CodeHash (so_data o) = emptyCodeHash) then []
  else default [] (ContractCode db (BytesToHash (a_CodeHash (so_data o)))).

(** The unjournalled setters. *)
Definition setBalance (amount : Z) o : stateObject T :=
  with_data o (MkAccount (a_Nonce (so_data o)) amount (a_Root (so_data o)) (a_CodeHash (so_data o))).
Definition setNonce (nonce : Z) o : stateObject T :=
  with_data o (MkAccount nonce (a_Balance (so_data o)) (a_Root (so_data o)) (a_CodeHash (so_data o))).
Definition setCode (codeHash code : bytes) o : stateObject T :=
  with_data (with_code o code) (MkAccount (a_Nonce (so_data o)) (a_Balance (so_data o)) (a_Root (so_data o)) codeHash).
Definition setState (key value : bytes) o : stateObject T :=
  with_storage o (<[key := value]> (so_cachedStorage o)) (<[key := value]> (so_dirtyStorage o)).
Definition setRoot (root : bytes) o : stateObject T :=
  with_data o (MkAccount (a_Nonce (so_data o)) (a_Balance (so_data o)) root (a_CodeHash (so_data o))).

Definition setStateObject o s : SDB T := with_objects s (<[so_address o := o]> (stateObjects s)).

Definition ripemd : bytes := BytesToAddress [3].

Definition touch o s : SDB T :=
  let s := journal_append (touchChange (so_address o)) s in
  if bool_decide (so_address o = ripemd) then with_journal s (j_dirty (so_address o) (sjournal s)) else s.

Definition so_SetBalance (amount : Z) o s : SDB T :=
  setStateObject (setBalance amount o) (journal_append (balanceChange (so_address o) (a_Balance (so_data o))) s).
Definition so_AddBalance (amount : Z) o s : SDB T :=
  if amount =? 0 then if so_empty o then touch o s else s
  else so_SetBalance (a_Balance (so_data o) + amount) o s.
Definition so_SubBalance (amount : Z) o s : SDB T :=
  if amount =? 0 then s else so_SetBalance (a_Balance (so_data o) - amount) o s.
Definition so_SetNonce (nonce : Z) o s : SDB T :=
  setStateObject (setNonce nonce o) (journal_append (nonceChange (so_address o) (a_Nonce (so_data o))) s).
Definition so_SetCode (codeHash code : bytes) o s : SDB T :=
  setStateObject (setCode codeHash code o) (journal_append (codeChange (so_address o) (so_Code o) (a_CodeHash (so_data o))) s).
Definition so_SetState (key value : bytes) o s : SDB T :=
  setStateObject (setState key value o) (journal_append (storageChange (so_address o) key (so_GetState o key)) s).

(** [bytes.TrimLeft(b, "\x00")] *)
Fixpoint trimLeft (b : bytes) : bytes := match b with 0 :: b => trimLeft b | _ => b end.

(** [updateTrie]: write the dirty slots to the storage trie. *)
Definition writeSlot (key value : bytes) (t : T) : T :=
  if EmptyHash value then TryDelete key t
  else match EncodeToBytes (EncBuf [] [] 0) (RBytes (trimLeft value)) with Ok v => TryUpdate key v t | _ => t end.
Definition updateTrie o : stateObject T :=
  with_strie (with_storage o (so_cachedStorage o) ∅) (Some (map_fold writeSlot (getTrie o) (so_dirtyStorage o))).
Definition updateRoot o : stateObject T := let o := updateTrie o in setRoot (trie_Hash (getTrie o)) o.

(** * statedb.go *)

(** An account as the trie stores it. *)
Definition accountType : rtype := TStruct [TUint 64; TPtr false TBigInt; TByteArray 32; TByteSlice].
Definition decodeAccount (enc : bytes) : option Account :=
  match DecodeBytes (makeDecoder (S (length enc)) accountType) enc with
  | Ok (DStruct [DUint nonce; DPtr (Some (DUint balance)); DBytes root; DBytes codeHash]) =>
      Some (MkAccount nonce balance root codeHash)
  | _ => None
  end.
Definition encodeAccount (a : Account) : outcome enc_error bytes :=
  EncodeToBytes (EncBuf [] [] 0)
    (RStruct [RUint (a_Nonce a); RBigIntPtr (Some (a_Balance a)); RByteArray (a_Root a); RBytes (a_CodeHash a)]).

(** What the trie holds for an address. *)
Definition loadAccount (t : T) (addr : bytes) : option Account :=
  match TryGet t addr with
  | None | Some [] => None
  | Some enc => decodeAccount enc
  end.

Definition getStateObject s (addr : bytes) : option (stateObject T) :=
  match stateObjects s !! addr with
  | Some obj => if so_deleted obj then None else Some obj
  | None => newObject addr <$> loadAccount (trie s) addr
  end.

(** ** Getters *)

Definition sExist s addr : bool := negb (bool_decide (getStateObject s addr = None)).
Definition sEmpty s addr : bool := match getStateObject s addr with Some o => so_empty o | None => true end.
Definition sGetBalance s addr : Z := match getStateObject s addr with Some o => a_Balance (so_data o) | None => 0 end.
Definition sGetNonce s addr : Z := match getStateObject s addr with Some o => a_Nonce (so_data o) | None => 0 end.
Definition sGetCode s addr : bytes := match getStateObject s addr with Some o => so_Code o | None => [] end.
Definition sGetCodeSize s addr : Z :=
  match getStateObject s addr with
  | Some o =>
      if negb (bool_decide (so_code o = [])) then zlen (so_code o)
      else zlen (default [] (ContractCode db (BytesToHash (a_CodeHash (so_data o)))))
  | None => 0
  end.
Definition sGetCodeHash s addr : bytes :=
  match getStateObject s addr with Some o => BytesToHash (a_CodeHash (so_data o)) | None => zeroHash end.
Definition sGetState s addr key : bytes := match getStateObject s addr with Some o => so_GetState o key | None => zeroHash end.
Definition sHasSuicided s addr : bool := match getStateObject s addr with Some o => so_suicided o | None => false end.
Definition sGetLogs s (h : bytes) : list StateLog := default [] (logs s !! h).

(** ** Setters *)

Definition createObject (addr : bytes) s : SDB T * stateObject T * option (stateObject T) :=
  let prev := getStateObject s addr in
  let newobj := setNonce 0 (newObject addr (MkAccount 0 0 zeroHash [])) in
  let s := journal_append (match prev with None => createObjectChange addr | Some prev => resetObjectChange prev end) s in
  (setStateObject newobj s, newobj, prev).

(** A loaded account is kept ([getStateObject] stores it). *)
Definition GetOrNewStateObject (addr : bytes) s : SDB T * stateObject T :=
  match getStateObject s addr with
  | Some o => (setStateObject o s, o)
  | None => fst (createObject addr s)
  end.

Definition sCreateAccount (addr : bytes) s : SDB T :=
  let '(s, new, prev) := createObject addr s in
  match prev with Some prev => setStateObject (setBalance (a_Balance (so_data prev)) new) s | None => s end.

Definition sAddBalance addr amount s : SDB T := let (s, o) := GetOrNewStateObject addr s in so_AddBalance amount o s.
Definition sSubBalance addr amount s : SDB T := let (s, o) := GetOrNewStateObject addr s in so_SubBalance amount o s.
Definition sSetBalance addr amount s : SDB T := let (s, o) := GetOrNewStateObject addr s in so_SetBalance amount o s.
Definition sSetNonce addr nonce s : SDB T := let (s, o) := GetOrNewStateObject addr s in so_SetNonce nonce o s.
Definition sSetCode addr code s : SDB T := let (s, o) := GetOrNewStateObject addr s in so_SetCode (hash code) code o s.
Definition sSetState addr key value s : SDB T := let (s, o) := GetOrNewStateObject addr s in so_SetState key value o s.

Definition sSuicide addr s : SDB T * bool :=
  match getStateObject s addr with
  | None => (s, false)
  | Some o =>
      let s := journal_append (suicideChange addr (so_suicided o) (a_Balance (so_data o))) s in
      (setStateObject (setBalance 0 (with_suicided o true)) s, true)
  end.

Definition sAddLog (log : Log) s : SDB T :=
  let s := journal_append (addLogChange (thash s)) s in
  let log := MkStateLog log (thash s) (bhash s) (u64 (txIndex s)) (logSize s) in
  with_logs s (<[thash s := sGetLogs s (thash s) ++ [log]]> (logs s)) (u64 (logSize s + 1)).

Definition sAddPreimage (h preimage : bytes) s : SDB T :=
  match preimages s !! h with
  | Some _ => s
  | None =>
      let s := journal_append (addPreimageChange h) s in
      with_preimages s (<[h := preimage]> (preimages s))
  end.

Definition sAddRefund (gas : Z) s : SDB T :=
  let s := journal_append (refundChange (refund s)) s in with_refund s (u64 (refund s + gas)).

(** ** Snapshots *)

Definition sSnapshot s : SDB T * Z :=
  let id := nextRevisionId s in
  (with_revisions s (validRevisions s ++ [(id, zlen (j_entries (sjournal s)))]) (id + 1), id).

(** Undoing one entry; [None] is the dereference of a nil pointer. *)
Definition modify (addr : bytes) (g : stateObject T -> stateObject T) s : option (SDB T) :=
  o ← getStateObject s addr; Some (setStateObject (g o) s).

Definition revert_entry (e : journalEntry T) s : option (SDB T) :=
  match e with
  | createObjectChange a => Some (with_dirty (with_objects s (delete a (stateObjects s))) (stateObjectsDirty s ∖ {[a]}))
  | resetObjectChange prev => Some (setStateObject prev s)
  | suicideChange a prev prevbalance =>
      match getStateObject s a with
      | Some o => Some (setStateObject (setBalance prevbalance (with_suicided o prev)) s)
      | None => Some s
      end
  | balanceChange a prev => modify a (setBalance prev) s
  | nonceChange a prev => modify a (setNonce prev) s
  | storageChange a key prevalue => modify a (setState key prevalue) s
  | codeChange a prevcode prevhash => modify a (setCode (BytesToHash prevhash) prevcode) s
  | refundChange prev => Some (with_refund s prev)
  | addLogChange txhash =>
      let l := sGetLogs s txhash in
      let logs := if zlen l =? 1 then delete txhash (logs s) else <[txhash := take (length l - 1) l]> (logs s) in
      Some (with_logs s logs (u64 (logSize s - 1)))
  | addPreimageChange h => Some (with_preimages s (delete h (preimages s)))
  | touchChange _ => Some s
  end.

(** Undoing the newest [n] entries. *)
Fixpoint journal_revert (n : nat) s : option (SDB T) :=
  match n with
  | O => Some s
  | S n =>
      match j_entries (sjournal s) with
      | [] => None
      | e :: es =>
          s ← revert_entry e s;
          let d := match dirtied e with Some a => j_undirty a (j_dirties (sjournal s)) | None => j_dirties (sjournal s) end in
          journal_revert n (with_journal s (MkJournal es d))
      end
  end.

(** [sort.Search]: binary search for the first index where [f] holds. *)
Fixpoint search (fuel : nat) (f : nat -> bool) (i j : nat) : nat :=
  match fuel with
  | O => i
  | S fuel =>
      if (i <? j)%nat then
        let h := ((i + j) / 2)%nat in
        if f h then search fuel f i h else search fuel f (S h) j
      else i
  end.

Definition sRevertToSnapshot (revid : Z) s : option (SDB T) :=
  let revs := validRevisions s in
  let idx := search (length revs) (fun i => match revs !! i with Some (id, _) => revid <=? id | None => false end) 0 (length revs) in
  match revs !! idx with
  | Some (id, snapshot) =>
      if id =? revid then
        s ← journal_revert (length (j_entries (sjournal s)) - Z.to_nat snapshot) s;
        Some (with_revisions s (take idx revs) (nextRevisionId s))
      else None
  | None => None
  end.

(** ** Between transactions *)

Definition clearJournalAndRefund s : SDB T := with_refund (with_revisions (with_journal s newJournal) [] (nextRevisionId s)) 0.

Definition updateStateObject o s : outcome enc_error (SDB T) :=
  match encodeAccount (so_data o) with
  | Ok data => Ok (with_trie s (TryUpdate (so_address o) data (trie s)))
  | _ => Panic
  end.
Definition deleteStateObject o s : SDB T :=
  with_trie (setStateObject (with_deleted o true) s) (TryDelete (so_address o) (trie s)).

Definition finaliseObject (deleteEmptyObjects : bool) (addr : bytes) s : outcome enc_error (SDB T) :=
  match stateObjects s !! addr with
  | None => Ok s
  | Some o =>
      let! s :=
        if so_suicided o || (deleteEmptyObjects && so_empty o) then Ok (deleteStateObject o s)
        else let o := updateRoot o in updateStateObject o (setStateObject o s) in
      Ok (with_dirty s ({[addr]} ∪ stateObjectsDirty s))
  end.

Fixpoint finaliseObjects (deleteEmptyObjects : bool) (addrs : list bytes) s : outcome enc_error (SDB T) :=
  match addrs with
  | [] => Ok s
  | a :: addrs => let! s := finaliseObject deleteEmptyObjects a s in finaliseObjects deleteEmptyObjects addrs s
  end.

Definition Finalise (deleteEmptyObjects : bool) s : outcome enc_error (SDB T) :=
  let! s := finaliseObjects deleteEmptyObjects (map fst (map_to_list (j_dirties (sjournal s)))) s in
  Ok (clearJournalAndRefund s).

Definition IntermediateRoot (deleteEmptyObjects : bool) s : outcome enc_error (SDB T * bytes) :=
  let! s := Finalise deleteEmptyObjects s in Ok (s, trie_Hash (trie s)).

Definition Prepare (th bh : bytes) (ti : Z) s : SDB T := with_tx s th bh ti.

Definition newState (t : T) : SDB T := MkSDB t ∅ ∅ 0 zeroHash zeroHash 0 ∅ 0 ∅ newJournal [] 0.

(** ** The interface of the machine *)

(** Databases over the given tries and code are databases of the machine. *)
Definition SDB_StateDB : StateDB (SDB T) := {|
  CreateAccount := sCreateAccount;
  SubBalance := sSubBalance;
  AddBalance := sAddBalance;
  GetBalance := sGetBalance;
  GetNonce := sGetNonce;
  SetNonce := sSetNonce;
  GetCodeHash := sGetCodeHash;
  GetCode := sGetCode;
  SetCode := sSetCode;
  GetCodeSize := sGetCodeSize;
  AddRefund := sAddRefund;
  GetRefund := refund;
  GetState := sGetState;
  SetState := sSetState;
  Suicide := sSuicide;
  HasSuicided := sHasSuicided;
  Exist := sExist;
  Empty := sEmpty;
  RevertToSnapshot := sRevertToSnapshot;
  Snapshot := sSnapshot;
  AddLog := sAddLog;
  AddPreimage := sAddPreimage |}.
End state.
