(* ===== verification/StateLaws.v ===== *)
(** The database keeps its contract ([StateDBLaws]): every mutator changes the world as
    promised, and the journal restores every snapshot. *)

From stdpp Require Import base numbers list gmap sorting.
From S2P Require Import Prelude.
From S2P Require Import CommonMath.
From S2P Require Import VmAnalysis.
From S2P Require Import VmState.
From S2P Require Import VmWorld.
From S2P Require Import State.
Local Open Scope Z_scope.
Local Open Scope go_scope.

(** What the database relies on in its tries: on a trie of which no part is missing, a key reads
    back what was last written to it, and the root is a hash. *)
Class TrieLaws (T : Type) `{Trie T} := {
  trie_ok : T -> Prop;
  law_update t k v : trie_ok t -> v <> [] ->
    trie_ok (TryUpdate k v t) /\ forall k', TryGet (TryUpdate k v t) k' = if bool_decide (k' = k) then Some v else TryGet t k';
  law_delete t k : trie_ok t ->
    trie_ok (TryDelete k t) /\ forall k', TryGet (TryDelete k t) k' = if bool_decide (k' = k) then Some [] else TryGet t k';
  law_hash t : trie_ok t -> length (trie_Hash t) = HashLength }.

Section laws.
Context {T : Type} `{HT : Trie T} `{!TrieLaws T} (db : Database T) (hash : bytes -> bytes).
Implicit Types (s : SDB T) (o : stateObject T).
#[local] Instance machine_StateDB : StateDB (SDB T) := SDB_StateDB db hash.

(** * Well-formed databases *)

(** Hashes are 32 digits, distinct for distinct codes, code is stored under its hash, and the
    zero root stands for the empty trie.  Tries that can be opened have no part missing and
    hold bytes. *)
Record backing_ok : Prop := {
  bk_len b : length (hash b) = HashLength;
  bk_free b : bytes_ok b -> no_collision hash b;
  bk_code h c : ContractCode db h = Some c -> slice_ok c /\ hash c = h;
  bk_empty t k : OpenStorageTrie db zeroHash = Some t \/ t = EmptyTrie db -> TryGet t k = Some [];
  bk_open r t : OpenStorageTrie db r = Some t \/ t = EmptyTrie db -> trie_ok t /\ forall k enc, TryGet t k = Some enc -> slice_ok enc }.

Record obj_ok o : Prop := {
  oo_balance : 0 <= a_Balance (so_data o);
  oo_nonce : is_u64 (a_Nonce (so_data o));
  oo_hash : length (a_CodeHash (so_data o)) = HashLength;
  oo_code : slice_ok (so_Code db hash o);
  oo_codeHash : so_Code db hash o <> [] -> a_CodeHash (so_data o) = hash (so_Code db hash o);
  oo_state k : is_hash (so_GetState db o k) }.

(** Two objects no getter can tell apart. *)
Record obj_eq o o' : Prop := {
  oe_address : so_address o = so_address o';
  oe_nonce : a_Nonce (so_data o) = a_Nonce (so_data o');
  oe_balance : a_Balance (so_data o) = a_Balance (so_data o');
  oe_hash : a_CodeHash (so_data o) = a_CodeHash (so_data o');
  oe_code : so_Code db hash o = so_Code db hash o';
  oe_state k : so_GetState db o k = so_GetState db o' k;
  oe_suicided : so_suicided o = so_suicided o' }.

#[local] Instance obj_eq_equiv : Equivalence obj_eq.
Proof.
  split.
  - intros o. by constructor.
  - intros o o' []. by constructor.
  - intros o1 o2 o3 [] []. constructor; try congruence.
Qed.

(** The same view: all that survives undoing. *)
Record view_eq s s' : Prop := {
  ve_trie : trie s = trie s';
  ve_refund : refund s = refund s';
  ve_logs : logs s = logs s';
  ve_logSize : logSize s = logSize s';
  ve_preimages : preimages s = preimages s';
  ve_objects a : option_Forall2 obj_eq (getStateObject hash s a) (getStateObject hash s' a) }.

#[local] Instance view_eq_equiv : Equivalence view_eq.
Proof.
  split.
  - intros s. by constructor.
  - intros s s' []. by constructor.
  - intros s1 s2 s3 [? ? ? ? ? H1] [? ? ? ? ? H2]. constructor; try congruence. intros a.
    specialize (H1 a). specialize (H2 a). destruct H1; inversion H2; subst; constructor. by etrans.
Qed.

(** ** Objects and the journal *)

(** The journal tells of the suicide of [a]. *)
Definition marks (es : list (journalEntry T)) (a : bytes) : Prop := exists p b, suicideChange a p b ∈ es.

(** A slot as it is in a storage trie. *)
Definition trieSlot (t : T) (k : bytes) : bytes := storageValue (default [] (TryGet t k)).

(** An object is kept under its address, what it has to write to its trie is what it
    shows, that trie has no part missing, and the slots it remembers and need not write
    are those of the trie. *)
Definition tidy (a : bytes) o : Prop :=
  so_address o = a /\ (forall k v, so_dirtyStorage o !! k = Some v -> so_cachedStorage o !! k = Some v) /\ (forall t, so_trie o = Some t -> trie_ok t) /\
  (forall k v, so_cachedStorage o !! k = Some v -> so_dirtyStorage o !! k = None -> trieSlot (getTrie db o) k = v).

(** What an entry restores was there when it was written. *)
Definition entry_ok (t : T) (es : list (journalEntry T)) (e : journalEntry T) : Prop :=
  match e with
  | createObjectChange a => loadAccount t a = None
  | resetObjectChange prev => so_deleted prev = false /\ tidy (so_address prev) prev /\ (so_suicided prev = true -> marks es (so_address prev))
  | suicideChange a prev _ => prev = true -> marks es a
  | _ => True
  end.
Fixpoint entries_ok (t : T) (es : list (journalEntry T)) : Prop := match es with [] => True | e :: es => entry_ok t es e /\ entries_ok t es end.

(** How many entries are about [a]. *)
Definition mentions (a : bytes) (es : list (journalEntry T)) : Z := zlen (filter (fun e => dirtied e = Some a) es).

(** Deleted objects are not in the trie and not dirty; the suicides of the current
    transaction are in the journal; every address in the journal is dirty, and what is dirty
    is in memory, or nowhere. *)
Record kept s : Prop := {
  kp_trie : trie_ok (trie s);
  kp_tidy a o : stateObjects s !! a = Some o -> tidy a o;
  kp_dead a o : stateObjects s !! a = Some o -> so_deleted o = true -> loadAccount (trie s) a = None /\ j_dirties (sjournal s) !! a = None;
  kp_marked a o : stateObjects s !! a = Some o -> so_suicided o = true -> so_deleted o = true \/ marks (j_entries (sjournal s)) a;
  kp_count a : mentions a (j_entries (sjournal s)) <= default 0 (j_dirties (sjournal s) !! a);
  kp_found a : is_Some (j_dirties (sjournal s) !! a) -> stateObjects s !! a = None -> loadAccount (trie s) a = None;
  kp_entries : entries_ok (trie s) (j_entries (sjournal s)) }.

(** Revisions: increasing ids, journal lengths within the journal and not decreasing. *)
Record revisions_ok s : Prop := {
  rv_ids i j p q : (i < j)%nat -> validRevisions s !! i = Some p -> validRevisions s !! j = Some q -> p.1 < q.1 /\ p.2 <= q.2;
  rv_next i p : validRevisions s !! i = Some p -> p.1 < nextRevisionId s /\ 0 <= p.2 <= zlen (j_entries (sjournal s)) }.

Record sdb_ok s : Prop := {
  so_live a o : getStateObject hash s a = Some o -> obj_ok o /\ so_address o = a;
  so_stored a acc : loadAccount (trie s) a = Some acc -> obj_ok (newObject hash a acc);
  so_kept : kept s;
  so_logs : (forall h, logs s !! h <> Some []) /\ is_u64 (logSize s) /\ is_u64 (refund s);
  so_revisions : revisions_ok s }.

(** * Objects *)

Lemma get_live s a o : getStateObject hash s a = Some o -> so_deleted o = false.
Proof.
  unfold getStateObject. destruct (stateObjects s !! a) as [o'|]; [by destruct (so_deleted o') eqn:E; intros [= <-]|].
  destruct (loadAccount (trie s) a); by intros [= <-].
Qed.

Lemma get_set_eq o s : so_deleted o = false -> getStateObject hash (setStateObject o s) (so_address o) = Some o.
Proof. intros Hd. unfold getStateObject. cbn. by rewrite lookup_insert_eq, Hd. Qed.

Lemma get_set_ne o s a : a <> so_address o -> getStateObject hash (setStateObject o s) a = getStateObject hash s a.
Proof. intros Ha. unfold getStateObject. cbn. by rewrite lookup_insert_ne. Qed.

Lemma get_set o s a : so_deleted o = false ->
  getStateObject hash (setStateObject o s) a = if bool_decide (a = so_address o) then Some o else getStateObject hash s a.
Proof. intros Hd. case_bool_decide as E; [subst; by apply get_set_eq|by apply get_set_ne]. Qed.

Lemma so_GetState_set o k v k' : so_GetState db (setState k v o) k' = if bool_decide (k' = k) then v else so_GetState db o k'.
Proof.
  unfold so_GetState. cbn. case_bool_decide as E; [subst; by rewrite lookup_insert_eq|]. by rewrite lookup_insert_ne by done.
Qed.

Lemma so_Code_set o h c :
  so_Code db hash (setCode h c o) =
    if negb (bool_decide (c = [])) then c
    else if bool_decide (h = emptyCodeHash hash) then [] else default [] (ContractCode db (BytesToHash h)).
Proof. done. Qed.

(** ** Changes that respect the equivalence *)

Definition respects (g : stateObject T -> stateObject T) : Prop :=
  (forall o o', obj_eq o o' -> obj_eq (g o) (g o')) /\ (forall o, so_deleted (g o) = so_deleted o) /\
  (forall o, so_address (g o) = so_address o).

Lemma respects_setBalance x : respects (setBalance x).
Proof. split_and!; try done. by intros o o' []. Qed.
Lemma respects_setNonce x : respects (setNonce x).
Proof. split_and!; try done. by intros o o' []. Qed.
Lemma respects_suicided x y : respects (fun o => setBalance y (with_suicided o x)).
Proof. split_and!; try done. by intros o o' []. Qed.
Lemma respects_setCode h c : respects (setCode h c).
Proof. split_and!; try done. by intros o o' []. Qed.
Lemma respects_setState k v : respects (setState k v).
Proof.
  split_and!; try done. intros o o' []. constructor; try done. intros k'. rewrite !so_GetState_set. by case_bool_decide.
Qed.

Lemma view_set g s s' o o' : respects g -> view_eq s s' -> obj_eq o o' -> so_deleted o = false -> so_deleted o' = false ->
  view_eq (setStateObject (g o) s) (setStateObject (g o') s').
Proof.
  intros (Hg & Hd & Ha) [? ? ? ? ? Ho] Heq D D'. constructor; try done. intros a.
  rewrite !get_set by by rewrite Hd. rewrite !Ha, (oe_address _ _ Heq). case_bool_decide; [|apply Ho]. constructor. by apply Hg.
Qed.

Lemma modify_cong g s s' a s1 : respects g -> view_eq s s' -> modify hash a g s = Some s1 ->
  exists s1', modify hash a g s' = Some s1' /\ view_eq s1 s1'.
Proof.
  intros Hg Hv. unfold modify. pose proof (ve_objects _ _ Hv a) as Ho.
  destruct (getStateObject hash s a) as [o|] eqn:E; [|done]. inversion Ho as [? o' Heq E1 E2|]; subst. intros [= <-].
  exists (setStateObject (g o') s'). split; [done|]. apply view_set; try done; by eapply get_live.
Qed.

(** * Undoing *)

Lemma revert_entry_cong e s s' s1 : view_eq s s' -> revert_entry hash e s = Some s1 ->
  exists s1', revert_entry hash e s' = Some s1' /\ view_eq s1 s1'.
Proof.
  intros Hv. pose proof Hv as [Ht Hr Hl Hn Hp Ho]. destruct e as [a|prev|a prev bal|a x|a x|a k x|a c h|x|th|h|a]; cbn [revert_entry].
  - intros [= <-]. eexists. split; [done|]. constructor; try done. intros b. unfold getStateObject. cbn.
    destruct (decide (b = a)) as [->|]; [rewrite !lookup_delete_eq, Ht; by destruct (loadAccount _ _); constructor|].
    rewrite !lookup_delete_ne by done. apply Ho.
  - intros [= <-]. eexists. split; [done|]. constructor; try done. intros b. unfold getStateObject. cbn.
    destruct (decide (b = so_address prev)) as [->|]; [rewrite !lookup_insert_eq; by destruct (so_deleted prev); constructor|].
    rewrite !lookup_insert_ne by done. apply Ho.
  - specialize (Ho a). destruct (getStateObject hash s a) as [o|] eqn:E; inversion Ho as [? o' Heq E1 E2|E1 E2]; subst; intros [= <-].
    + eexists. split; [done|]. apply (view_set (fun o => setBalance bal (with_suicided o prev))); try done;
        [apply respects_suicided|by eapply get_live..].
    + by eexists.
  - by apply modify_cong; [apply respects_setBalance|].
  - by apply modify_cong; [apply respects_setNonce|].
  - by apply modify_cong; [apply respects_setState|].
  - by apply modify_cong; [apply respects_setCode|].
  - intros [= <-]. eexists. split; [done|]. by constructor.
  - intros [= <-]. eexists. split; [done|]. constructor; try done; unfold sGetLogs; cbn; by rewrite ?Hl, ?Hn.
  - intros [= <-]. eexists. split; [done|]. constructor; try done; cbn. by rewrite Hp.
  - intros [= <-]. by eexists.
Qed.

(** Undoing does not look at, or change, the rest of the journal and the revisions. *)
Lemma revert_entry_frame e s s1 : revert_entry hash e s = Some s1 ->
  sjournal s1 = sjournal s /\ validRevisions s1 = validRevisions s /\ nextRevisionId s1 = nextRevisionId s /\ trie s1 = trie s.
Proof.
  destruct e; cbn [revert_entry]; unfold modify; intros Hr;
    repeat match goal with
    | H : context [getStateObject hash ?s ?a] |- _ => destruct (getStateObject hash s a)
    end; cbn in Hr; by simplify_eq.
Qed.

Lemma view_journal s s' j j' : view_eq s s' -> view_eq (with_journal s j) (with_journal s' j').
Proof. intros []. by constructor. Qed.
Lemma view_revisions s s' r r' n n' : view_eq s s' -> view_eq (with_revisions s r n) (with_revisions s' r' n').
Proof. intros []. by constructor. Qed.

Lemma journal_revert_cong n : forall s s' s1, view_eq s s' -> j_entries (sjournal s) = j_entries (sjournal s') ->
  journal_revert hash n s = Some s1 ->
  exists s1', journal_revert hash n s' = Some s1' /\ view_eq s1 s1' /\ j_entries (sjournal s1) = j_entries (sjournal s1').
Proof.
  induction n as [|n IH]; intros s s' s1 Hv Hj Hr; cbn [journal_revert] in *; [simplify_eq; by exists s'|].
  rewrite <- Hj. destruct (j_entries (sjournal s)) as [|e es]; [done|].
  destruct (revert_entry hash e s) as [s2|] eqn:E; [|done]. cbn in Hr.
  destruct (revert_entry_cong e s s' s2 Hv E) as (s2' & -> & Hv2). cbn. eapply IH; [by apply view_journal| |done]. done.
Qed.

Lemma journal_revert_add n m s : journal_revert hash (n + m) s = (s1 ← journal_revert hash n s; journal_revert hash m s1).
Proof.
  revert s. induction n as [|n IH]; intros s; cbn [Nat.add journal_revert]; [done|].
  destruct (j_entries (sjournal s)) as [|e es]; [done|]. destruct (revert_entry hash e s); [|done]. cbn. apply IH.
Qed.

Lemma journal_revert_frame n : forall s s1, journal_revert hash n s = Some s1 ->
  j_entries (sjournal s1) = drop n (j_entries (sjournal s)) /\ (n <= length (j_entries (sjournal s)))%nat /\
  validRevisions s1 = validRevisions s /\ nextRevisionId s1 = nextRevisionId s /\ trie s1 = trie s.
Proof.
  induction n as [|n IH]; intros s s1 Hr; cbn [journal_revert] in Hr; [simplify_eq; rewrite drop_0; split_and!; [done|lia|done..]|].
  destruct (j_entries (sjournal s)) as [|e es] eqn:Ej; [done|].
  destruct (revert_entry hash e s) as [s2|] eqn:E; [|done]. cbn in Hr.
  destruct (revert_entry_frame _ _ _ E) as (_ & Hv & Hn & Ht). destruct (IH _ _ Hr) as (H1 & H2 & H3 & H4 & H5). cbn in *.
  split_and!; [done|lia|congruence..].
Qed.

Lemma journal_revert_revisions n : forall s r k, journal_revert hash n (with_revisions s r k) =
  (fun s1 => with_revisions s1 r k) <$> journal_revert hash n s.
Proof.
  induction n as [|n IH]; intros s r k; cbn [journal_revert]; [done|]. cbn.
  destruct (j_entries (sjournal s)) as [|e es]; [done|].
  assert (revert_entry hash e (with_revisions s r k) = (fun s1 => with_revisions s1 r k) <$> revert_entry hash e s) as ->.
  { destruct e; try done; cbn [revert_entry]; unfold modify;
      match goal with |- context [getStateObject hash ?x ?a] => change (getStateObject hash x a) with (getStateObject hash s a) end;
      by destruct (getStateObject hash s _). }
  destruct (revert_entry hash e s) as [s2|]; [|done]. cbn. apply (IH (with_journal s2 _)).
Qed.

(** ** Well-formedness and undoing *)

Lemma obj_ok_eq o o' : obj_eq o o' -> obj_ok o -> obj_ok o'.
Proof.
  intros [E1 E2 E3 E4 E5 E6 E7] [? ? ? ? ? Hs]. constructor; rewrite <- ?E2, <- ?E3, <- ?E4, <- ?E5; auto. intros k. by rewrite <- E6.
Qed.

Lemma kept_ext s s' : kept s -> trie s' = trie s -> stateObjects s' = stateObjects s -> sjournal s' = sjournal s -> kept s'.
Proof. intros [] Ht Ho Hj. constructor; rewrite ?Ht, ?Ho, ?Hj; done. Qed.

Lemma get_tidy s a o : kept s -> getStateObject hash s a = Some o -> tidy a o /\ (so_suicided o = true -> marks (j_entries (sjournal s)) a).
Proof.
  intros [_ Ht _ Hm _ _ _]. unfold getStateObject. destruct (stateObjects s !! a) as [o'|] eqn:E.
  - destruct (so_deleted o') eqn:D; intros [= <-]. split; [by apply Ht|]. intros Hs. by destruct (Hm _ _ E Hs) as [?|?]; [congruence|].
  - destruct (loadAccount (trie s) a); intros [= <-]. split; [|done]. split_and!; try done.
Qed.

Lemma mentions_cons a e es : mentions a (e :: es) = mentions a es + if bool_decide (dirtied e = Some a) then 1 else 0.
Proof. unfold mentions. rewrite filter_cons. case_decide; [rewrite bool_decide_eq_true_2, zlen_cons by done|rewrite bool_decide_eq_false_2 by done]; lia. Qed.

Lemma marks_cons es e a : marks es a -> marks (e :: es) a.
Proof. intros (p & b & Hin). exists p, b. by right. Qed.
Lemma marks_tail e es a : marks (e :: es) a -> (forall p b, e <> suicideChange a p b) -> marks es a.
Proof. intros (p & b & [E|Hin]%elem_of_cons) Hne; [by destruct (Hne p b)|]. by exists p, b. Qed.

(** An address an entry is about has no deleted object. *)
Lemma mentioned_live s e es a o : kept s -> j_entries (sjournal s) = e :: es -> dirtied e = Some a -> stateObjects s !! a = Some o -> so_deleted o = false.
Proof.
  intros Hk Ej He Ho. destruct (so_deleted o) eqn:D; [|done]. destruct (kp_dead _ Hk _ _ Ho D) as [_ Hd]. pose proof (kp_count _ Hk a) as Hc.
  rewrite Ej, mentions_cons, bool_decide_eq_true_2, Hd in Hc by done. cbn in Hc. pose proof (zlen_nonneg (filter (fun e => dirtied e = Some a) es)). unfold mentions in Hc. lia.
Qed.

Definition popped (e : journalEntry T) (d : gmap bytes Z) : gmap bytes Z := match dirtied e with Some a => j_undirty a d | None => d end.

Lemma popped_ne e d a : dirtied e <> Some a -> popped e d !! a = d !! a.
Proof.
  intros Hne. unfold popped. destruct (dirtied e) as [b|]; [|done]. unfold j_undirty. cbv zeta. assert (b <> a) by congruence. destruct (_ =? 0); [by rewrite lookup_delete_ne|by rewrite lookup_insert_ne].
Qed.
Lemma popped_eq e d a : dirtied e = Some a -> default 0 (popped e d !! a) = default 0 (d !! a) - 1.
Proof.
  intros He. unfold popped. rewrite He. unfold j_undirty. cbv zeta. destruct (Z.eqb_spec (default 0 (d !! a) - 1) 0) as [E|E]; [rewrite lookup_delete_eq; cbn; lia|by rewrite lookup_insert_eq].
Qed.

(** Undoing the newest entry, which left the objects [m]: those that were there, and ones that
    are as they were when the entry was written. *)
Lemma kept_pop s s1 e es : kept s -> j_entries (sjournal s) = e :: es -> trie s1 = trie s ->
  (forall a o, stateObjects s1 !! a = Some o ->
    (stateObjects s !! a = Some o /\ (so_suicided o = true -> so_deleted o = true \/ marks es a)) \/
    (so_deleted o = false /\ tidy a o /\ (so_suicided o = true -> marks es a))) ->
  (forall a, stateObjects s1 !! a = None -> stateObjects s !! a = None \/ loadAccount (trie s) a = None) ->
  kept (with_journal s1 (MkJournal es (popped e (j_dirties (sjournal s))))).
Proof.
  intros Hk Ej Et Hm Hn. pose proof Hk as [Kt Ko Kd Km Kc Kf Ke]. constructor; cbn; rewrite ?Et.
  - done.
  - intros a o Ha. destruct (Hm _ _ Ha) as [[Ha' _]|(_ & ? & _)]; [by apply Ko|done].
  - intros a o Ha D. destruct (Hm _ _ Ha) as [[Ha' _]|(? & _)]; [|congruence]. destruct (Kd _ _ Ha' D) as [? ?]. split; [done|]. rewrite popped_ne; [done|].
    intros He. rewrite (mentioned_live s e es a o) in D; done.
  - intros a o Ha Hs. destruct (Hm _ _ Ha) as [[_ ?]|(? & _ & ?)]; auto.
  - intros a. specialize (Kc a). rewrite Ej, mentions_cons in Kc. case_bool_decide as He; [rewrite (popped_eq _ _ _ He)|rewrite popped_ne by done]; lia.
  - intros a Ha Ho. destruct (Hn _ Ho) as [Ho'|]; [|done]. apply Kf; [|done]. destruct (decide (dirtied e = Some a)) as [He|He]; [|by rewrite popped_ne in Ha].
    specialize (Kc a). rewrite Ej, mentions_cons, bool_decide_eq_true_2 in Kc by done. pose proof (zlen_nonneg (filter (fun e => dirtied e = Some a) es)). unfold mentions in Kc.
    destruct (j_dirties (sjournal s) !! a); [done|cbn in Kc; lia].
  - rewrite Ej in Ke. apply Ke.
Qed.

(** An object put in place of the one that was at its address. *)
Lemma placed s es o m : m = <[so_address o := o]> (stateObjects s) -> so_deleted o = false -> tidy (so_address o) o -> (so_suicided o = true -> marks es (so_address o)) ->
  (forall a o', a <> so_address o -> stateObjects s !! a = Some o' -> so_suicided o' = true -> so_deleted o' = true \/ marks es a) ->
  forall a o', m !! a = Some o' ->
    (stateObjects s !! a = Some o' /\ (so_suicided o' = true -> so_deleted o' = true \/ marks es a)) \/
    (so_deleted o' = false /\ tidy a o' /\ (so_suicided o' = true -> marks es a)).
Proof.
  intros -> Hd Ht Hs Hr a o'. destruct (decide (a = so_address o)) as [->|Hne]; [rewrite lookup_insert_eq|rewrite lookup_insert_ne by done]; [intros [= <-]; by right|]. intros Ha. left. eauto.
Qed.

Lemma placed_found s o a : (<[so_address o := o]> (stateObjects s)) !! a = None -> stateObjects s !! a = None \/ loadAccount (trie s) a = None.
Proof. rewrite lookup_insert_None. intros [? _]. by left. Qed.

Lemma other_marks s e es a o : kept s -> j_entries (sjournal s) = e :: es -> stateObjects s !! a = Some o -> (forall p b, e <> suicideChange a p b) ->
  so_suicided o = true -> so_deleted o = true \/ marks es a.
Proof.
  intros Hk Ej Ho Hne Hs. destruct (kp_marked _ Hk _ _ Ho Hs) as [?|Hm]; [by left|]. right. rewrite Ej in Hm. by eapply marks_tail.
Qed.

(** Changes of an object that leave it tidy. *)
Definition keeps (g : stateObject T -> stateObject T) : Prop := forall a o, tidy a o -> tidy a (g o) /\ so_suicided (g o) = so_suicided o.
Lemma keeps_setBalance x : keeps (setBalance x).
Proof. done. Qed.
Lemma keeps_setNonce x : keeps (setNonce x).
Proof. done. Qed.
Lemma keeps_setCode h c : keeps (setCode h c).
Proof. done. Qed.
Lemma keeps_setState k v : keeps (setState k v).
Proof.
  intros a o (Ha & Hd & Ht & Hc). split; [|done]. split_and!; [done| |done|]; intros k' v'; cbn; (destruct (decide (k' = k)) as [->|]; [by rewrite !lookup_insert_eq|rewrite !lookup_insert_ne by done]); [apply Hd|apply Hc].
Qed.

Lemma modify_kept g s s1 a e es : keeps g -> (forall o, so_deleted (g o) = so_deleted o) -> kept s -> j_entries (sjournal s) = e :: es -> (forall b p x, e <> suicideChange b p x) ->
  modify hash a g s = Some s1 -> kept (with_journal s1 (MkJournal es (popped e (j_dirties (sjournal s))))).
Proof.
  intros Hg Hgd Hk Ej Hne. unfold modify. destruct (getStateObject hash s a) as [o|] eqn:E; [|done]. intros [= <-]. destruct (get_tidy _ _ _ Hk E) as [Ht Hs].
  destruct (Hg _ _ Ht) as [Ht' Hs']. pose proof Ht' as [Ea _]. apply (kept_pop s); [done..| |apply placed_found]. eapply placed; [reflexivity|rewrite Hgd; by eapply get_live|by rewrite Ea| |].
  - rewrite Hs', Ea. intros H. apply Hs in H. rewrite Ej in H. by eapply marks_tail.
  - intros b o' _ Hb. by eapply other_marks.
Qed.

Lemma same_kept s s1 e es : kept s -> j_entries (sjournal s) = e :: es -> (forall b p x, e <> suicideChange b p x) -> trie s1 = trie s -> stateObjects s1 = stateObjects s ->
  kept (with_journal s1 (MkJournal es (popped e (j_dirties (sjournal s))))).
Proof. intros Hk Ej Hne Et Eo. apply (kept_pop s); [done..| |]; rewrite Eo; [|by left]. intros a o Ha. left. split; [done|]. by eapply other_marks. Qed.

Lemma revert_entry_kept e es s s1 : kept s -> j_entries (sjournal s) = e :: es -> revert_entry hash e s = Some s1 ->
  kept (with_journal s1 (MkJournal es (popped e (j_dirties (sjournal s))))).
Proof.
  intros Hk Ej. pose proof (kp_entries _ Hk) as He. rewrite Ej in He. destruct He as [He _]. destruct e as [a|prev|a prev bal|a x|a x|a k x|a c h|x|th|h|a]; cbn [revert_entry].
  - intros [= <-]. apply (kept_pop s); [done..| |]; intros b; cbn.
    + intros o. rewrite lookup_delete_Some. intros [_ Hl]. left. split; [done|]. by eapply other_marks.
    + rewrite lookup_delete_None. intros [<-|?]; [by right|by left].
  - intros [= <-]. destruct He as (? & ? & ?). apply (kept_pop s); [done..| |apply placed_found]. eapply placed; [reflexivity|done..|]. intros b o' _ Hb. by eapply other_marks.
  - destruct (getStateObject hash s a) as [o|] eqn:E; intros [= <-].
    + destruct (get_tidy _ _ _ Hk E) as [Ht _]. pose proof Ht as [Ea _]. apply (kept_pop s); [done..| |apply (placed_found s (setBalance bal (with_suicided o prev)))]. eapply placed; [reflexivity|by eapply get_live in E|change (tidy (so_address o) o); by rewrite Ea|change (prev = true -> marks es (so_address o)); by rewrite Ea|].
      intros b o' Hb Ho. eapply other_marks; [done..|]. cbn in Hb. rewrite Ea in Hb. congruence.
    + apply (kept_pop s); [done..| |by left]. intros b o Ho. left. split; [done|]. destruct (decide (b = a)) as [->|]; [|eapply other_marks; [done..|congruence]].
      left. unfold getStateObject in E. rewrite Ho in E. by destruct (so_deleted o).
  - by apply modify_kept; [apply keeps_setBalance|..].
  - by apply modify_kept; [apply keeps_setNonce|..].
  - by apply modify_kept; [apply keeps_setState|..].
  - by apply modify_kept; [apply keeps_setCode|..].
  - intros [= <-]. by apply same_kept.
  - intros [= <-]. by apply same_kept.
  - intros [= <-]. by apply same_kept.
  - intros [= <-]. by apply same_kept.
Qed.

Lemma journal_revert_kept n : forall s s1, kept s -> journal_revert hash n s = Some s1 -> kept s1.
Proof.
  induction n as [|n IH]; intros s s1 Hk Hr; cbn [journal_revert] in Hr; [by simplify_eq|].
  destruct (j_entries (sjournal s)) as [|e es] eqn:Ej; [done|]. destruct (revert_entry hash e s) as [s2|] eqn:E; [|done]. cbn in Hr. eapply IH; [|exact Hr].
  destruct (revert_entry_frame _ _ _ E) as (-> & _). by eapply revert_entry_kept.
Qed.

Lemma view_world s s' : view_eq s s' -> world_eq (world s) (world s').
Proof.
  intros [Ht Hr _ _ _ Ho].
  split; [constructor; [..|done]|]; cbn; intros a; intros; unfold sGetBalance, sGetNonce, sGetCode, sGetState, sHasSuicided, sExist;
    specialize (Ho a); destruct (getStateObject hash s a), (getStateObject hash s' a); inversion Ho as [? ? []|]; by subst.
Qed.

(** The parts of well-formedness a view does not show. *)
Lemma sdb_ok_view s s' :
  sdb_ok s -> view_eq s s' -> kept s' -> revisions_ok s' -> sdb_ok s'.
Proof.
  intros [Hl Hs _ Hlog _] [Ht Hr HL HN Hp Ho] Hk Hrv. constructor; try done.
  - intros a o Hg. specialize (Ho a). rewrite Hg in Ho. inversion Ho as [o' ? Heq E|]; subst.
    destruct (Hl a o') as [H1 H2]; [done|]. split; [by eapply obj_ok_eq|]. by rewrite <- (oe_address _ _ Heq).
  - by rewrite <- Ht.
  - by rewrite <- HL, <- HN, <- Hr.
Qed.

(** * Snapshots *)

Lemma search_spec f n : forall fuel i j, (i <= j <= n)%nat -> (j - i <= fuel)%nat ->
  (forall x y, (x <= y < n)%nat -> f x = true -> f y = true) ->
  (i <= search fuel f i j <= j)%nat /\
  (forall x, (i <= x < search fuel f i j)%nat -> f x = false) /\ (forall x, (search fuel f i j <= x < j)%nat -> f x = true).
Proof.
  induction fuel as [|fuel IH]; intros i j Hij Hf Hm; cbn [search]; [split_and!; lia|].
  destruct (Nat.ltb_spec i j); [|split_and!; lia].
  assert (i <= (i + j) / 2 < j)%nat as Hh by (split; [apply Nat.div_le_lower_bound|apply Nat.Div0.div_lt_upper_bound]; lia).
  set (h := ((i + j) / 2)%nat) in *. destruct (f h) eqn:E.
  - destruct (IH i h) as (H1 & H2 & H3); [lia|lia|done|]. split_and!; [lia|lia|done|]. intros x Hx.
    destruct (decide (x < h)%nat); [apply H3; lia|]. apply (Hm h x); [lia|done].
  - destruct (IH (S h) j) as (H1 & H2 & H3); [lia|lia|done|]. split_and!; [lia|lia| |done]. intros x Hx.
    destruct (decide (S h <= x)%nat); [apply H2; lia|]. destruct (f x) eqn:Ex; [|done].
    rewrite (Hm x h) in E; [done|lia|done].
Qed.

Lemma revert_eq s idx i j : revisions_ok s -> validRevisions s !! idx = Some (i, j) ->
  sRevertToSnapshot hash i s =
    (s1 ← journal_revert hash (length (j_entries (sjournal s)) - Z.to_nat j) s;
     Some (with_revisions s1 (take idx (validRevisions s)) (nextRevisionId s1))).
Proof.
  intros [Hid _] Hidx. unfold sRevertToSnapshot. set (revs := validRevisions s) in *.
  set (f := fun k => match revs !! k with Some (id, _) => i <=? id | None => false end).
  pose proof (lookup_lt_Some _ _ _ Hidx) as Hlt.
  destruct (search_spec f (length revs) (length revs) 0 (length revs)) as (H1 & H2 & H3); [lia|lia| |].
  { intros x y Hxy Hx. subst f. cbn in *. destruct (lookup_lt_is_Some_2 revs x) as [[a b] Ha]; [lia|].
    destruct (lookup_lt_is_Some_2 revs y) as [[c d] Hc]; [lia|]. rewrite Ha in Hx. rewrite Hc. apply Z.leb_le in Hx. apply Z.leb_le.
    destruct (decide (x = y)) as [->|]; [simplify_eq; lia|]. destruct (Hid x y _ _ ltac:(lia) Ha Hc). cbn in *. lia. }
  set (k := search _ f _ _) in *. assert (k = idx) as ->.
  { destruct (lt_eq_lt_dec k idx) as [[Hk|Hk]|Hk]; [|done|].
    - destruct (lookup_lt_is_Some_2 revs k) as [[a b] Ha]; [lia|]. specialize (H3 k ltac:(lia)). subst f. cbn in H3. rewrite Ha in H3.
      apply Z.leb_le in H3. destruct (Hid k idx _ _ Hk Ha Hidx). cbn in *. lia.
    - specialize (H2 idx ltac:(lia)). subst f. cbn in H2. rewrite Hidx in H2. apply Z.leb_gt in H2. lia. }
  rewrite Hidx, Z.eqb_refl. done.
Qed.

(** Reverting to [i] would succeed and give [w]. *)
Definition sdb_saved s (i : Z) (w : World) : Prop :=
  exists idx j s0, validRevisions s !! idx = Some (i, j) /\
    journal_revert hash (length (j_entries (sjournal s)) - Z.to_nat j) s = Some s0 /\ world_eq (world s0) w /\
    sdb_ok (with_revisions s0 (take idx (validRevisions s)) (nextRevisionId s)).

(** [s'] extends the journal of [s] by entries that undo all it did. *)
Definition undoes s s' : Prop :=
  validRevisions s' = validRevisions s /\ nextRevisionId s' = nextRevisionId s /\
  exists k s0, journal_revert hash k s' = Some s0 /\ view_eq s0 s /\ j_entries (sjournal s0) = j_entries (sjournal s).

Lemma undoes_refl s : undoes s s.
Proof. split_and!; [done..|]. by exists 0%nat, s. Qed.

Lemma undoes_trans s1 s2 s3 : undoes s1 s2 -> undoes s2 s3 -> undoes s1 s3.
Proof.
  intros (V1 & N1 & k1 & u1 & R1 & Q1 & J1) (V2 & N2 & k2 & u2 & R2 & Q2 & J2). split_and!; [congruence..|].
  destruct (journal_revert_cong k1 s2 u2 u1) as (u1' & R1' & Q1' & J1'); [by symmetry|done|done|].
  exists (k2 + k1)%nat, u1'. rewrite journal_revert_add, R2. cbn. split_and!; [done| |congruence]. etrans; [by symmetry|done].
Qed.

Lemma undoes_length s s' k s0 :
  journal_revert hash k s' = Some s0 -> j_entries (sjournal s0) = j_entries (sjournal s) ->
  length (j_entries (sjournal s')) = (k + length (j_entries (sjournal s)))%nat.
Proof.
  intros Hr Hj. destruct (journal_revert_frame _ _ _ Hr) as (E & Hk & _). rewrite <- Hj, E, length_drop. lia.
Qed.

Lemma revisions_ok_same s s' : revisions_ok s -> validRevisions s' = validRevisions s -> nextRevisionId s' = nextRevisionId s ->
  zlen (j_entries (sjournal s)) <= zlen (j_entries (sjournal s')) -> revisions_ok s'.
Proof.
  intros [H1 H2] E1 E2 E3. constructor; rewrite ?E1, ?E2; [done|]. intros i p Hp. destruct (H2 i p Hp). lia.
Qed.

Lemma saved_undoes s s' i w : sdb_ok s -> sdb_ok s' -> undoes s s' -> sdb_saved s i w -> sdb_saved s' i w.
Proof.
  intros Hok Hok' (V & N & k & u & R & Q & J) (idx & j & s0 & Hidx & Hr & Hw & Hs0).
  destruct (journal_revert_cong _ s u s0 ltac:(by symmetry) ltac:(done) Hr) as (u0 & R0 & Q0 & J0).
  destruct (rv_next _ (so_revisions _ Hok) _ _ Hidx) as [_ Hj]. cbn in Hj. pose proof (undoes_length _ _ _ _ R J) as Hlen.
  assert (journal_revert hash (length (j_entries (sjournal s')) - Z.to_nat j) s' = Some u0) as R'.
  { replace (length (j_entries (sjournal s')) - Z.to_nat j)%nat with (k + (length (j_entries (sjournal s)) - Z.to_nat j))%nat
      by (unfold zlen in Hj; lia). by rewrite journal_revert_add, R. }
  exists idx, j, u0. rewrite V, N. split_and!; [done|done| |].
  - etrans; [|done]. apply view_world. by symmetry.
  - eapply sdb_ok_view; [exact Hs0|by apply view_revisions| |].
    + apply (kept_ext u0); [|done..]. exact (journal_revert_kept _ s' u0 (so_kept _ Hok') R').
    + eapply revisions_ok_same; [apply Hs0|done|done|]. cbn. by rewrite J0.
Qed.

(** * Mutators *)

(** [s'] is [s] with the object at [a] replaced. *)
Record stepped s s' (a : bytes) (o : stateObject T) : Prop := {
  sp_ok : sdb_ok s';
  sp_undoes : undoes s s';
  sp_get b : getStateObject hash s' b = if bool_decide (b = a) then Some o else getStateObject hash s b;
  sp_refund : refund s' = refund s }.

Lemma append_entries (e : journalEntry T) s : j_entries (sjournal (journal_append e s)) = e :: j_entries (sjournal s).
Proof. unfold journal_append, j_append. by destruct (dirtied e). Qed.

Lemma store_entries (e : journalEntry T) o s :
  j_entries (sjournal (setStateObject o (journal_append e s))) = e :: j_entries (sjournal s).
Proof. apply append_entries. Qed.

(** Journalling. *)
Lemma append_dirties (e : journalEntry T) s a :
  j_dirties (sjournal (journal_append e s)) !! a = if bool_decide (dirtied e = Some a) then Some (default 0 (j_dirties (sjournal s) !! a) + 1) else j_dirties (sjournal s) !! a.
Proof.
  unfold journal_append, j_append. destruct (dirtied e) as [b|] eqn:E; [|by rewrite bool_decide_eq_false_2]. cbn. destruct (decide (b = a)) as [->|].
  - by rewrite lookup_insert_eq, bool_decide_eq_true_2.
  - rewrite lookup_insert_ne, bool_decide_eq_false_2 by congruence. done.
Qed.

Lemma append_count (e : journalEntry T) s a : kept s ->
  mentions a (j_entries (sjournal (journal_append e s))) <= default 0 (j_dirties (sjournal (journal_append e s)) !! a).
Proof. intros Hk. rewrite append_entries, append_dirties, mentions_cons. pose proof (kp_count _ Hk a). case_bool_decide; cbn; lia. Qed.

(** What an object and the entry about it must be to be stored together. *)
Record storable s (e : journalEntry T) o : Prop := {
  sb_entry : entry_ok (trie s) (j_entries (sjournal s)) e;
  sb_about : dirtied e = None \/ dirtied e = Some (so_address o);
  sb_live : so_deleted o = false;
  sb_tidy : tidy (so_address o) o;
  sb_marked : so_suicided o = true -> marks (e :: j_entries (sjournal s)) (so_address o) }.

Lemma store_kept s e o : kept s -> storable s e o -> kept (setStateObject o (journal_append e s)).
Proof.
  intros Hk [He Ha Hd Ht Hm]. pose proof Hk as [Kt Ko Kd Km Kc Kf Ke]. constructor; cbn [stateObjects setStateObject with_objects trie sjournal].
  - done.
  - intros a o'. destruct (decide (a = so_address o)) as [->|]; [rewrite lookup_insert_eq; by intros [= <-]|rewrite lookup_insert_ne by done; apply Ko].
  - intros a o'. destruct (decide (a = so_address o)) as [->|]; [rewrite lookup_insert_eq; intros [= <-]; congruence|rewrite lookup_insert_ne by done]. intros H1 H2.
    rewrite append_dirties, bool_decide_eq_false_2 by (destruct Ha; congruence). by eapply Kd.
  - intros a o'. rewrite append_entries. destruct (decide (a = so_address o)) as [->|]; [rewrite lookup_insert_eq; intros [= <-]; by right; apply Hm|rewrite lookup_insert_ne by done].
    intros H1 H2. destruct (Km _ _ H1 H2); [by left|right; by apply marks_cons].
  - intros a. by apply append_count.
  - intros a Hd'. rewrite lookup_insert_None. intros [Hn Hne]. apply Kf; [|done]. rewrite append_dirties, bool_decide_eq_false_2 in Hd' by (destruct Ha; congruence). done.
  - rewrite append_entries. by split.
Qed.

(** Storing a journalled object keeps the database well-formed. *)
Lemma store_ok s e o : sdb_ok s -> obj_ok o -> storable s e o ->
  sdb_ok (setStateObject o (journal_append e s)).
Proof.
  intros Hok Ho Hd. pose proof Hok as [Hl Hs Hk Hlog Hrv]. constructor; try done.
  - intros a o'. rewrite get_set by apply Hd. case_bool_decide; [intros [= <-]; by subst|]. intros Hg. by apply Hl.
  - by apply store_kept.
  - eapply revisions_ok_same; [done..|]. rewrite store_entries, zlen_cons. lia.
Qed.

(** One entry undone. *)
Lemma undo_one s s' e s1 : j_entries (sjournal s') = e :: j_entries (sjournal s) -> validRevisions s' = validRevisions s ->
  nextRevisionId s' = nextRevisionId s -> revert_entry hash e s' = Some s1 -> view_eq s1 s -> undoes s s'.
Proof.
  intros Hj V N Hr Hv. split_and!; [done..|]. eexists 1%nat, _. cbn [journal_revert]. rewrite Hj, Hr. cbn. split_and!; [done| |done].
  etrans; [|exact Hv]. by constructor.
Qed.

Lemma store_stepped s e o s1 : sdb_ok s -> obj_ok o -> storable s e o ->
  revert_entry hash e (setStateObject o (journal_append e s)) = Some s1 -> view_eq s1 s ->
  stepped s (setStateObject o (journal_append e s)) (so_address o) o.
Proof.
  intros Hok Ho Hd Hr Hv. constructor; [by apply store_ok| |intros b; rewrite get_set by apply Hd; done|done].
  eapply undo_one; [apply append_entries|done|done|exact Hr|exact Hv].
Qed.

Lemma storable_change s a o e g : sdb_ok s -> getStateObject hash s a = Some o -> keeps g -> so_deleted (g o) = so_deleted o -> so_address (g o) = a ->
  dirtied e = Some a -> entry_ok (trie s) (j_entries (sjournal s)) e -> storable s e (g o).
Proof.
  intros Hok Hg Hk Hgd Hga He Heo. destruct (get_tidy _ _ _ (so_kept _ Hok) Hg) as [Ht Hs]. destruct (Hk _ _ Ht) as [Ht' Hs'].
  constructor; rewrite ?Hga, ?Hs'; [done|by right|rewrite Hgd; by eapply get_live|done|]. intros H. by apply marks_cons, Hs.
Qed.

(** Changing an object, the entry holding what restores it. *)
Lemma change_stepped s a o e g h : sdb_ok s -> getStateObject hash s a = Some o -> keeps g ->
  (forall s, revert_entry hash e s = modify hash a h s) -> dirtied e = Some a -> entry_ok (trie s) (j_entries (sjournal s)) e -> respects h ->
  obj_ok (g o) -> so_deleted (g o) = so_deleted o -> so_address (g o) = a -> obj_eq (h (g o)) o ->
  stepped s (setStateObject (g o) (journal_append e s)) a (g o).
Proof.
  intros Hok Hg Hkg He Hea Heo (Hh & Hhd & Hha) Hgo Hgd Hga Heq. pose proof (storable_change s a o e g Hok Hg Hkg Hgd Hga Hea Heo) as Hsb.
  pose proof (sb_live _ _ _ Hsb) as Hlive. pose proof (store_stepped s e (g o)) as Hst. rewrite Hga in Hst.
  apply (Hst (setStateObject (h (g o)) (setStateObject (g o) (journal_append e s)))); try done.
  - rewrite He. unfold modify. rewrite <- Hga, get_set_eq by done. reflexivity.
  - constructor; try done. intros b. rewrite get_set by (by rewrite Hhd). rewrite Hha, Hga. case_bool_decide as E.
    + subst b. rewrite Hg. by constructor.
    + rewrite get_set_ne by (by rewrite Hga). change (getStateObject hash (journal_append e s) b) with (getStateObject hash s b).
      by destruct (getStateObject hash s b); constructor.
Qed.

(** ** Worlds *)

(** The world with the object [o] at [a]. *)
Definition world_obj (a : bytes) o (w : World) : World :=
  MkWorld (upd a (a_Balance (so_data o)) (w_balance w)) (upd a (a_Nonce (so_data o)) (w_nonce w))
    (upd a (so_Code db hash o) (w_code w)) (upd a (so_GetState db o) (w_storage w)) (upd a (so_suicided o) (w_suicided w))
    (w_refund w) (w_exist w).

Lemma world_stepped s s' a o : stepped s s' a o -> same_accounts (world s') (world_obj a o (world s)).
Proof.
  intros [_ _ Hg Hr]. constructor; [..|exact Hr]; cbn; intros b; intros;
    unfold upd, sGetBalance, sGetNonce, sGetCode, sGetState, sHasSuicided; rewrite Hg; by case_bool_decide.
Qed.

Lemma world_obj_shown s a o : getStateObject hash s a = Some o -> same_accounts (world_obj a o (world s)) (world s).
Proof.
  intros Hg. constructor; [..|done]; cbn; intros b; intros;
    unfold upd, sGetBalance, sGetNonce, sGetCode, sGetState, sHasSuicided; case_bool_decide; subst; by rewrite ?Hg.
Qed.

#[local] Instance world_obj_proper a o : Proper (same_accounts ==> same_accounts) (world_obj a o).
Proof. intros w w' []. constructor; try done; intros b; intros; cbn; unfold upd; by case_bool_decide. Qed.

(** ** Objects stay well-formed *)

Context (Hb : backing_ok).

Lemma setBalance_ok x o : 0 <= x -> obj_ok o -> obj_ok (setBalance x o).
Proof. intros ? []. by constructor. Qed.
Lemma setNonce_ok x o : is_u64 x -> obj_ok o -> obj_ok (setNonce x o).
Proof. intros ? []. by constructor. Qed.
Lemma setState_ok k v o : is_hash v -> obj_ok o -> obj_ok (setState k v o).
Proof. intros ? []. constructor; try done. intros k'. rewrite so_GetState_set. by case_bool_decide. Qed.
Lemma setCode_ok c o : slice_ok c -> obj_ok o -> obj_ok (setCode (hash c) c o).
Proof.
  intros Hc []. assert (so_Code db hash (setCode (hash c) c o) = c) as E.
  { rewrite so_Code_set. case_bool_decide; [subst|done]. by rewrite bool_decide_eq_true_2. }
  constructor; rewrite ?E; try done. apply (bk_len Hb).
Qed.

Definition freshObject (a : bytes) : stateObject T := setNonce 0 (newObject hash a (MkAccount 0 0 zeroHash [])).

Lemma fresh_data a : so_data (freshObject a) = MkAccount 0 0 zeroHash (emptyCodeHash hash).
Proof. unfold freshObject, newObject. by rewrite bool_decide_eq_true_2. Qed.

Lemma fresh_GetState a k : so_GetState db (freshObject a) k = zeroHash.
Proof.
  unfold so_GetState. cbn [freshObject so_cachedStorage setNonce with_data newObject]. rewrite lookup_empty.
  unfold getTrie. rewrite fresh_data. cbn [so_trie freshObject setNonce with_data newObject a_Root].
  destruct (OpenStorageTrie db zeroHash) as [t|] eqn:E; [rewrite (bk_empty Hb t)|rewrite (bk_empty Hb (EmptyTrie db))]; auto.
Qed.
Lemma fresh_Code a : so_Code db hash (freshObject a) = [].
Proof. unfold so_Code. rewrite fresh_data. cbn. by rewrite bool_decide_eq_true_2. Qed.

Lemma zeroHash_ok : is_hash zeroHash.
Proof. split; [apply length_replicate|apply Forall_replicate]. unfold is_byte. lia. Qed.

Lemma fresh_ok a : obj_ok (freshObject a).
Proof.
  constructor; rewrite ?fresh_Code, ?fresh_data; cbn; [lia|unfold is_u64; lia|apply (bk_len Hb)|split; [constructor|done]|done|].
  intros k. rewrite fresh_GetState. apply zeroHash_ok.
Qed.

(** ** Creating *)

Lemma get_none_load s a : sdb_ok s -> getStateObject hash s a = None -> loadAccount (trie s) a = None.
Proof.
  intros Hok. unfold getStateObject. destruct (stateObjects s !! a) as [o|] eqn:E.
  - destruct (so_deleted o) eqn:D; [|done]. intros _. by apply (kp_dead _ (so_kept _ Hok) a o).
  - by destruct (loadAccount (trie s) a).
Qed.

Lemma fresh_tidy a : tidy a (freshObject a).
Proof. split_and!; done. Qed.

Lemma create_stepped s a : sdb_ok s -> getStateObject hash s a = None ->
  stepped s (setStateObject (freshObject a) (journal_append (createObjectChange a) s)) a (freshObject a).
Proof.
  intros Hok Hg. eapply (store_stepped s _ (freshObject a)); [done|apply fresh_ok|constructor; try done; [exact (get_none_load s a Hok Hg)|by right]|reflexivity|].
  constructor; try done. intros b. unfold getStateObject at 1. cbn. destruct (decide (b = a)) as [->|Hne].
  - rewrite lookup_delete_eq, Hg, (get_none_load s a Hok Hg). constructor.
  - rewrite lookup_delete_ne, lookup_insert_ne by done. fold (getStateObject hash s b). by destruct (getStateObject hash s b); constructor.
Qed.

Lemma reset_stepped s a prev o : sdb_ok s -> getStateObject hash s a = Some prev -> obj_ok o -> so_deleted o = false -> tidy a o -> so_suicided o = false ->
  stepped s (setStateObject o (journal_append (resetObjectChange prev) s)) a o.
Proof.
  intros Hok Hg Ho Hd Ht Hs. pose proof (get_live _ _ _ Hg) as Hpd. destruct (so_live _ Hok _ _ Hg) as [_ Hpa]. pose proof Ht as [Ha _]. rewrite <- Ha.
  destruct (get_tidy _ _ _ (so_kept _ Hok) Hg) as [Hpt Hps].
  eapply (store_stepped s _ o); [done|done|constructor; rewrite ?Ha; try done; [cbn; by rewrite Hpa|by left|congruence]|reflexivity|]. constructor; try done. intros b.
  rewrite get_set by done. case_bool_decide as E; [subst b; rewrite Hpa, Hg; by constructor|].
  rewrite get_set_ne by congruence. change (getStateObject hash (journal_append _ s) b) with (getStateObject hash s b).
  by destruct (getStateObject hash s b); constructor.
Qed.

Lemma set_set o o' s : so_address o = so_address o' -> setStateObject o' (setStateObject o s) = setStateObject o' s.
Proof. intros E. unfold setStateObject, with_objects. cbn. by rewrite E, insert_insert_eq. Qed.

(** A new object shows what the missing one did. *)
Lemma world_fresh s a : getStateObject hash s a = None -> same_accounts (world_obj a (freshObject a) (world s)) (world s).
Proof.
  intros Hg. constructor; [..|done]; intros b; intros;
    cbv [world_obj w_balance w_nonce w_code w_storage w_suicided world GetBalance GetNonce GetCode GetState HasSuicided
         machine_StateDB SDB_StateDB upd sGetBalance sGetNonce sGetCode sGetState sHasSuicided];
    case_bool_decide; subst; rewrite ?Hg, ?fresh_data, ?fresh_Code, ?fresh_GetState; done.
Qed.

(** Keeping the object that is shown changes nothing. *)
Lemma keep_ok s a o : sdb_ok s -> getStateObject hash s a = Some o -> sdb_ok (setStateObject o s) /\ view_eq (setStateObject o s) s.
Proof.
  intros Hok Hg. destruct (so_live _ Hok _ _ Hg) as [Ho Ha]. pose proof (get_live _ _ _ Hg) as Hd. destruct (get_tidy _ _ _ (so_kept _ Hok) Hg) as [Ht Hs].
  assert (view_eq (setStateObject o s) s) as Hv.
  { constructor; try done. intros b. rewrite get_set by done. case_bool_decide; [subst; rewrite Hg; by constructor|]. by destruct (getStateObject hash s b); constructor. }
  split; [|done]. apply (sdb_ok_view s); [done|by symmetry| |by destruct (so_revisions _ Hok)]. destruct (so_kept _ Hok) as [Kt Ko Kd Km Kc Kf Ke].
  constructor; try done; cbn; intros b; (destruct (decide (b = so_address o)) as [->|]; [rewrite lookup_insert_eq|rewrite lookup_insert_ne by done; auto]).
  - intros o' [= <-]. by rewrite Ha.
  - intros o' [= <-]. congruence.
  - intros o'. apply Kd.
  - intros o' [= <-] Hs'. right. rewrite Ha. by apply Hs.
  - done.
Qed.

Lemma GetOrNew_ok s a s1 o : sdb_ok s -> GetOrNewStateObject hash a s = (s1, o) ->
  sdb_ok s1 /\ undoes s s1 /\ getStateObject hash s1 a = Some o /\ same_accounts (world s1) (world s).
Proof.
  intros Hok. unfold GetOrNewStateObject. destruct (getStateObject hash s a) as [o'|] eqn:Hg.
  - intros [= <- <-]. destruct (keep_ok _ _ _ Hok Hg) as [Hok' Hv]. destruct (so_live _ Hok _ _ Hg) as [_ Ha]. pose proof (get_live _ _ _ Hg) as Hd. split_and!; [done| | |].
    + split_and!; [done..|]. by exists 0%nat, (setStateObject o' s).
    + rewrite get_set, bool_decide_eq_true_2 by done. done.
    + apply world_eq_same. by apply view_world.
  - unfold createObject. rewrite Hg. intros [= <- <-]. pose proof (create_stepped s a Hok Hg) as Hst.
    split_and!; [apply Hst|apply Hst| |].
    + rewrite (sp_get _ _ _ _ Hst). by rewrite bool_decide_eq_true_2.
    + etrans; [by eapply world_stepped|by apply world_fresh].
Qed.

(** It is kept in memory. *)
Lemma GetOrNew_held s a s1 o : sdb_ok s -> GetOrNewStateObject hash a s = (s1, o) -> stateObjects s1 !! so_address o = Some o /\ so_deleted o = false.
Proof.
  intros Hok. unfold GetOrNewStateObject. destruct (getStateObject hash s a) as [o'|] eqn:Hg.
  - intros [= <- <-]. split; [apply lookup_insert_eq|by eapply get_live].
  - unfold createObject. rewrite Hg. intros [= <- <-]. split; [apply lookup_insert_eq|done].
Qed.

(** ** The mutators of the interface *)

Definition sdb_evolves s s' (w : World) : Prop :=
  sdb_ok s' /\ same_accounts (world s') w /\ forall i v, sdb_saved s i v -> sdb_saved s' i v.

Lemma evolves_intro s s' w : sdb_ok s -> sdb_ok s' -> undoes s s' -> same_accounts (world s') w -> sdb_evolves s s' w.
Proof. intros. split_and!; try done. intros i v. by apply saved_undoes. Qed.

(** A mutator that gets or makes the object and changes it. *)
Lemma change_evolves s a s1 o s2 o' w :
  sdb_ok s -> GetOrNewStateObject hash a s = (s1, o) -> stepped s1 s2 a o' ->
  (forall w', same_accounts w' (world s) -> same_accounts (world_obj a o w') w' -> same_accounts (world_obj a o' w') w) ->
  sdb_evolves s s2 w.
Proof.
  intros Hok Hg Hst Hw. destruct (GetOrNew_ok _ _ _ _ Hok Hg) as (Hok1 & Hu1 & Hg1 & Hw1). apply evolves_intro; [done|apply Hst| |].
  - eapply undoes_trans; [done|apply Hst].
  - etrans; [by eapply world_stepped|]. apply Hw; [done|by apply world_obj_shown].
Qed.

(** What one change does to the world that shows the object. *)
Ltac show_obj :=
  intros [Hbal Hnon Hcod Hsto Hsui Href]; constructor; [..|done]; intros b; intros;
  cbv [world_obj set_balance set_nonce set_code set_storage set_suicided w_balance w_nonce w_code w_storage w_suicided upd] in *;
  repeat match goal with H : forall b, _ |- _ => specialize (H b) end;
  repeat case_bool_decide; subst; try done; try assumption.

Lemma world_setBalance a x o w : same_accounts (world_obj a o w) w -> same_accounts (world_obj a (setBalance x o) w) (set_balance a x w).
Proof. show_obj. Qed.
Lemma world_setNonce a x o w : same_accounts (world_obj a o w) w -> same_accounts (world_obj a (setNonce x o) w) (set_nonce a x w).
Proof. show_obj. Qed.
Lemma world_setCode a c o w : same_accounts (world_obj a o w) w -> same_accounts (world_obj a (setCode (hash c) c o) w) (set_code a c w).
Proof.
  show_obj. rewrite so_Code_set. case_bool_decide; [subst|done]. by rewrite bool_decide_eq_true_2.
Qed.
Lemma world_setState a k v o w : same_accounts (world_obj a o w) w -> same_accounts (world_obj a (setState k v o) w) (set_storage a k v w).
Proof.
  intros [Hbal Hnon Hcod Hsto Hsui Href]. constructor; try done. intros b k'. cbn. destruct (decide (b = a)) as [->|].
  - rewrite !upd_eq, so_GetState_set. unfold upd. case_bool_decide; [done|]. specialize (Hsto a k'). cbn in Hsto. by rewrite upd_eq in Hsto.
  - by rewrite !upd_ne.
Qed.
Lemma world_balance a o w : same_accounts (world_obj a o w) w -> a_Balance (so_data o) = w_balance w a.
Proof. intros Hw. rewrite <- (sa_balance _ _ Hw a). cbn. by rewrite upd_eq. Qed.

Lemma SetBalance_stepped s a o x : sdb_ok s -> getStateObject hash s a = Some o -> 0 <= x ->
  stepped s (so_SetBalance x o s) a (setBalance x o).
Proof.
  intros Hok Hg Hx. destruct (so_live _ Hok _ _ Hg) as [Ho Ha]. unfold so_SetBalance. rewrite Ha.
  apply (change_stepped s a o _ (setBalance x) (setBalance (a_Balance (so_data o)))); try done;
    [apply respects_setBalance|by apply setBalance_ok].
Qed.

(** Journalling something that is not an object. *)
Lemma plain_evolves s s' e s1 w : sdb_ok s -> kept s' -> j_entries (sjournal s') = e :: j_entries (sjournal s) ->
  validRevisions s' = validRevisions s -> nextRevisionId s' = nextRevisionId s ->
  stateObjects s' = stateObjects s -> trie s' = trie s -> (forall h, logs s' !! h <> Some []) /\ is_u64 (logSize s') /\ is_u64 (refund s') ->
  revert_entry hash e s' = Some s1 -> view_eq s1 s -> same_accounts (world s') w -> sdb_evolves s s' w.
Proof.
  intros Hok Hk Hj V N Ho Ht Hl Hr Hv Hw. pose proof Hok as [Hlive Hs _ Hlog Hrv]. apply evolves_intro; try done; [|by eapply undo_one].
  constructor; try done.
  - unfold getStateObject. rewrite Ho, Ht. exact Hlive.
  - by rewrite Ht.
  - eapply revisions_ok_same; [done..|]. rewrite Hj, zlen_cons. lia.
Qed.

Lemma view_same s s' : stateObjects s' = stateObjects s -> trie s' = trie s -> refund s' = refund s -> logs s' = logs s ->
  logSize s' = logSize s -> preimages s' = preimages s -> view_eq s' s.
Proof.
  intros Ho Ht ????. constructor; try done. intros b. unfold getStateObject. rewrite Ho, Ht.
  fold (getStateObject hash s b). by destruct (getStateObject hash s b); constructor.
Qed.

Lemma append_kept s e : kept s -> entry_ok (trie s) (j_entries (sjournal s)) e -> (forall a, dirtied e = Some a -> exists o, stateObjects s !! a = Some o /\ so_deleted o = false) ->
  kept (journal_append e s).
Proof.
  intros Hk He Hl. pose proof Hk as [Kt Ko Kd Km Kc Kf Ke]. constructor; try done.
  - intros a o Ha D. change (stateObjects s !! a = Some o) in Ha. rewrite append_dirties, bool_decide_eq_false_2; [by eapply Kd|]. intros E. destruct (Hl a E) as (o' & Ho & Hd'). simplify_eq. congruence.
  - intros a o Ha D. rewrite append_entries. destruct (Km _ _ Ha D); [by left|right; by apply marks_cons].
  - intros a. by apply append_count.
  - intros a Hd Ho. change (stateObjects s !! a = None) in Ho. apply Kf; [|done]. rewrite append_dirties, bool_decide_eq_false_2 in Hd; [done|]. intros E. destruct (Hl a E) as (o' & ? & _). congruence.
  - rewrite append_entries. by split.
Qed.

(** Marking an address dirty once more. *)
Lemma dirty_kept s a : kept s -> (exists o, stateObjects s !! a = Some o /\ so_deleted o = false) -> kept (with_journal s (j_dirty a (sjournal s))).
Proof.
  intros Hk (o' & Hl & Hlive). pose proof Hk as [Kt Ko Kd Km Kc Kf Ke]. constructor; try done; cbn.
  - intros b o Ho D. destruct (decide (b = a)) as [->|]; [simplify_eq; congruence|rewrite lookup_insert_ne by done; by eapply Kd].
  - intros b. specialize (Kc b). destruct (decide (b = a)) as [->|]; [rewrite lookup_insert_eq; cbn; lia|by rewrite lookup_insert_ne].
  - intros b. destruct (decide (b = a)) as [->|]; [congruence|rewrite lookup_insert_ne by done; apply Kf].
Qed.

Lemma touch_ok s o : sdb_ok s -> stateObjects s !! so_address o = Some o -> so_deleted o = false -> sdb_evolves s (touch o s) (world s).
Proof.
  intros Hok Hg Hlive. unfold touch. pose proof (so_logs _ Hok).
  assert (exists o', stateObjects s !! so_address o = Some o' /\ so_deleted o' = false) as Hl by by exists o.
  assert (kept (journal_append (touchChange (so_address o)) s)) as Hk by (apply append_kept; [apply Hok|done|]; by intros a [= <-]).
  assert (kept (touch o s)) as Hk' by (unfold touch; destruct (bool_decide _); [by apply dirty_kept|done]). unfold touch in Hk'.
  destruct (bool_decide _); (eapply (plain_evolves s _ (touchChange (so_address o))); try done; by apply view_same).
Qed.

Lemma sAddRefund_ok s x : sdb_ok s -> sdb_evolves s (sAddRefund x s) (set_refund (u64 (refund s + x)) (world s)).
Proof.
  intros Hok. pose proof (so_logs _ Hok) as (? & ? & ?). eapply (plain_evolves s _ (refundChange (refund s))); try done; try by apply view_same.
  { by apply (kept_ext (journal_append (refundChange (refund s)) s)); [apply append_kept; [apply Hok|..]|..]. }
  split_and!; [done..|apply u64_range].
Qed.

Lemma sAddPreimage_ok s h p : sdb_ok s -> sdb_evolves s (sAddPreimage h p s) (world s).
Proof.
  intros Hok. pose proof (so_logs _ Hok). unfold sAddPreimage. destruct (preimages s !! h) eqn:E; [done|].
  eapply (plain_evolves s _ (addPreimageChange h)); try done.
  { by apply (kept_ext (journal_append (addPreimageChange h) s)); [apply append_kept; [apply Hok|..]|..]. }
  apply view_same; try done. cbn. by rewrite delete_insert_id.
Qed.

(** Dropping the last log, and the list when it was the only one. *)
Lemma log_undone (m : gmap bytes (list StateLog)) h x : m !! h <> Some [] ->
  let l := default [] (m !! h) ++ [x] in
  (if zlen l =? 1 then delete h (<[h := l]> m) else <[h := take (length l - 1) l]> (<[h := l]> m)) = m.
Proof.
  intros Hne l. subst l. rewrite length_app, Nat.add_sub, take_app_length, zlen_app. change (zlen [x]) with 1.
  destruct (m !! h) as [[|y l]|] eqn:E; cbn [default from_option id]; [done| |].
  - rewrite zlen_cons, (proj2 (Z.eqb_neq _ _)) by (pose proof (zlen_nonneg l); lia). by rewrite insert_insert_eq, insert_id.
  - rewrite delete_insert_eq. by apply delete_id.
Qed.

Lemma sAddLog_ok s l : sdb_ok s -> sdb_evolves s (sAddLog l s) (world s).
Proof.
  intros Hok. destruct (so_logs _ Hok) as (Hne & Hsz & Hrf).
  eapply (plain_evolves s _ (addLogChange (thash s))); try done.
  - by apply (kept_ext (journal_append (addLogChange (thash s)) s)); [apply append_kept; [apply Hok|..]|..].
  - split; [|split; [apply u64_range|done]]. intros h. cbn. destruct (decide (h = thash s)) as [->|].
    + rewrite lookup_insert_eq. intros [= E]. by apply app_nil in E as [_ E].
    + rewrite lookup_insert_ne by done. apply Hne.
  - apply view_same; try done; cbn.
    + unfold sGetLogs. cbn. rewrite lookup_insert_eq. cbn. by apply log_undone.
    + unfold u64, is_u64 in *. rewrite Zminus_mod_idemp_l. replace (logSize s + 1 - 1) with (logSize s) by lia. by apply Z.mod_small.
Qed.

(** A change of one field, journalled with what it was. *)
Lemma SetNonce_stepped s a o x : sdb_ok s -> getStateObject hash s a = Some o -> is_u64 x ->
  stepped s (so_SetNonce x o s) a (setNonce x o).
Proof.
  intros Hok Hg Hx. destruct (so_live _ Hok _ _ Hg) as [Ho Ha]. unfold so_SetNonce. rewrite Ha.
  apply (change_stepped s a o _ (setNonce x) (setNonce (a_Nonce (so_data o)))); try done;
    [apply respects_setNonce|by apply setNonce_ok].
Qed.

Lemma SetState_stepped s a o k v : sdb_ok s -> getStateObject hash s a = Some o -> is_hash v ->
  stepped s (so_SetState db k v o s) a (setState k v o).
Proof.
  intros Hok Hg Hx. destruct (so_live _ Hok _ _ Hg) as [Ho Ha]. unfold so_SetState. rewrite Ha.
  apply (change_stepped s a o _ (setState k v) (setState k (so_GetState db o k))); try done;
    [apply keeps_setState|apply respects_setState|by apply setState_ok|].
  constructor; try done. intros k'. rewrite !so_GetState_set. by repeat case_bool_decide; subst.
Qed.

(** The code journalled is the code the object showed, found again under its hash. *)
Lemma setCode_undo o h c : obj_ok o -> obj_eq (setCode (BytesToHash (a_CodeHash (so_data o))) (so_Code db hash o) (setCode h c o)) o.
Proof.
  intros Ho. pose proof (oo_hash _ Ho) as Hl. rewrite BytesToHash_id by done. constructor; try done.
  rewrite so_Code_set. case_bool_decide as E; [|done]. cbn [negb]. case_bool_decide as Eh; [by rewrite E|]. rewrite E.
  unfold so_Code in E. case_bool_decide as Ec; [|done]. cbn [negb] in E. by rewrite bool_decide_eq_false_2 in E.
Qed.

Lemma SetCode_stepped s a o c : sdb_ok s -> getStateObject hash s a = Some o -> slice_ok c ->
  stepped s (so_SetCode db hash (hash c) c o s) a (setCode (hash c) c o).
Proof.
  intros Hok Hg Hx. destruct (so_live _ Hok _ _ Hg) as [Ho Ha]. unfold so_SetCode. rewrite Ha.
  apply (change_stepped s a o _ (setCode (hash c) c) (setCode (BytesToHash (a_CodeHash (so_data o))) (so_Code db hash o))); try done;
    [apply respects_setCode|by apply setCode_ok|by apply setCode_undo].
Qed.

Lemma sSetNonce_ok s a n : sdb_ok s -> is_u64 n -> sdb_evolves s (sSetNonce hash a n s) (set_nonce a n (world s)).
Proof.
  intros Hok Hn. unfold sSetNonce. destruct (GetOrNewStateObject hash a s) as [s1 o] eqn:E.
  destruct (GetOrNew_ok _ _ _ _ Hok E) as (Hok1 & _ & Hg & _).
  eapply change_evolves; [done|done|by apply SetNonce_stepped|]. intros w' Hw Ho. rewrite <- Hw. by apply world_setNonce.
Qed.

Lemma sSetCode_ok s a c : sdb_ok s -> slice_ok c -> sdb_evolves s (sSetCode db hash a c s) (set_code a c (world s)).
Proof.
  intros Hok Hn. unfold sSetCode. destruct (GetOrNewStateObject hash a s) as [s1 o] eqn:E.
  destruct (GetOrNew_ok _ _ _ _ Hok E) as (Hok1 & _ & Hg & _).
  eapply change_evolves; [done|done|by apply SetCode_stepped|]. intros w' Hw Ho. rewrite <- Hw. by apply world_setCode.
Qed.

Lemma sSetState_ok s a k v : sdb_ok s -> is_hash v -> sdb_evolves s (sSetState db hash a k v s) (set_storage a k v (world s)).
Proof.
  intros Hok Hn. unfold sSetState. destruct (GetOrNewStateObject hash a s) as [s1 o] eqn:E.
  destruct (GetOrNew_ok _ _ _ _ Hok E) as (Hok1 & _ & Hg & _).
  eapply change_evolves; [done|done|by apply SetState_stepped|]. intros w' Hw Ho. rewrite <- Hw. by apply world_setState.
Qed.

(** Balances. *)
Lemma set_balance_id a w : same_accounts (set_balance a (w_balance w a) w) w.
Proof. constructor; try done. intros b. cbn. unfold upd. by case_bool_decide; subst. Qed.

Lemma sdb_evolves_trans s1 s2 s3 w2 w3 : sdb_evolves s1 s2 w2 -> sdb_evolves s2 s3 w3 -> sdb_evolves s1 s3 w3.
Proof. intros (_ & _ & H1) (? & ? & H2). split_and!; auto. Qed.

Lemma GetOrNew_evolves s a s1 o : sdb_ok s -> GetOrNewStateObject hash a s = (s1, o) -> sdb_evolves s s1 (world s).
Proof. intros Hok E. destruct (GetOrNew_ok _ _ _ _ Hok E) as (? & ? & _ & ?). by apply evolves_intro. Qed.

(** Writing the balance found plus something. *)
Lemma balance_evolves s a s1 o x : sdb_ok s -> GetOrNewStateObject hash a s = (s1, o) -> 0 <= sGetBalance hash s a + x ->
  sdb_evolves s (so_SetBalance (a_Balance (so_data o) + x) o s1) (set_balance a (sGetBalance hash s a + x) (world s)).
Proof.
  intros Hok E Hx. destruct (GetOrNew_ok _ _ _ _ Hok E) as (Hok1 & _ & Hg & Hw1).
  assert (a_Balance (so_data o) = sGetBalance hash s a) as ->.
  { pose proof (sa_balance _ _ Hw1 a) as Hb1. cbn in Hb1. rewrite <- Hb1. unfold sGetBalance. by rewrite Hg. }
  eapply change_evolves; [done|done|by apply SetBalance_stepped|]. intros w' Hw Ho. rewrite <- Hw. by apply world_setBalance.
Qed.

Lemma sGetBalance_ok s a : sdb_ok s -> 0 <= sGetBalance hash s a.
Proof. intros Hok. unfold sGetBalance. destruct (getStateObject hash s a) eqn:E; [|done]. by apply (so_live _ Hok) in E as [[] _]. Qed.

Lemma evolves_world s s' w w' : sdb_evolves s s' w -> same_accounts w w' -> sdb_evolves s s' w'.
Proof. intros (? & Hw & ?) Hw'. split_and!; [done|by rewrite Hw|done]. Qed.

Lemma sAddBalance_ok s a x : sdb_ok s -> 0 <= x ->
  sdb_evolves s (sAddBalance hash a x s) (set_balance a (sGetBalance hash s a + x) (world s)).
Proof.
  intros Hok Hx. unfold sAddBalance. destruct (GetOrNewStateObject hash a s) as [s1 o] eqn:E. unfold so_AddBalance.
  pose proof (sGetBalance_ok s a Hok). destruct (Z.eqb_spec x 0) as [->|]; [|apply balance_evolves; [done|done|lia]].
  pose proof (GetOrNew_evolves _ _ _ _ Hok E) as Hev. apply evolves_world with (world s).
  - destruct (so_empty hash o); [|done]. pose proof Hev as (Hok1 & Hw1 & _).
    eapply sdb_evolves_trans; [done|]. destruct (GetOrNew_held _ _ _ _ Hok E) as [Hg Hd].
    eapply evolves_world; [by apply touch_ok|done].
  - rewrite Z.add_0_r. symmetry. exact (set_balance_id a (world s)).
Qed.

Lemma sSubBalance_ok s a x : sdb_ok s -> 0 <= x <= sGetBalance hash s a ->
  sdb_evolves s (sSubBalance hash a x s) (set_balance a (sGetBalance hash s a - x) (world s)).
Proof.
  intros Hok Hx. unfold sSubBalance. destruct (GetOrNewStateObject hash a s) as [s1 o] eqn:E. unfold so_SubBalance.
  destruct (Z.eqb_spec x 0) as [->|]; [|apply (balance_evolves s a s1 o (- x)); [done|done|lia]].
  eapply evolves_world; [by eapply GetOrNew_evolves|]. rewrite Z.sub_0_r. symmetry. exact (set_balance_id a (world s)).
Qed.

Lemma sSetBalance_ok s a x : sdb_ok s -> 0 <= x -> sdb_evolves s (sSetBalance hash a x s) (set_balance a x (world s)).
Proof.
  intros Hok Hx. unfold sSetBalance. destruct (GetOrNewStateObject hash a s) as [s1 o] eqn:E. destruct (GetOrNew_ok _ _ _ _ Hok E) as (Hok1 & _ & Hg & _).
  eapply change_evolves; [done|done|by apply SetBalance_stepped|]. intros w' Hw Ho. rewrite <- Hw. by apply world_setBalance.
Qed.

(** Self-destruction. *)
Lemma world_suicided a o w : same_accounts (world_obj a o w) w ->
  same_accounts (world_obj a (setBalance 0 (with_suicided o true)) w) (set_suicided a true (set_balance a 0 w)).
Proof. show_obj. Qed.

Lemma sSuicide_ok s a : sdb_ok s ->
  sdb_evolves s (fst (sSuicide hash a s)) (if sExist hash s a then set_suicided a true (set_balance a 0 (world s)) else world s).
Proof.
  intros Hok. unfold sSuicide, sExist. destruct (getStateObject hash s a) as [o|] eqn:Hg; cbn; [|by apply evolves_intro; [..|apply undoes_refl|]].
  destruct (so_live _ Hok _ _ Hg) as [Ho Ha].
  assert (stepped s (setStateObject (setBalance 0 (with_suicided o true)) (journal_append (suicideChange a (so_suicided o) (a_Balance (so_data o))) s))
    a (setBalance 0 (with_suicided o true))) as Hst.
  { pose proof (store_stepped s (suicideChange a (so_suicided o) (a_Balance (so_data o))) (setBalance 0 (with_suicided o true))) as Hst.
    cbn [so_address setBalance with_data with_suicided] in Hst. rewrite Ha in Hst. destruct (get_tidy _ _ _ (so_kept _ Hok) Hg) as [Ht Hs].
    eapply Hst; [done|by destruct Ho|constructor; try done; [by right; cbn; rewrite Ha|exact (get_live _ _ _ Hg)|cbn; by rewrite Ha|]| |].
    - intros _. cbn. rewrite Ha. eexists _, _. by left.
    - cbn [revert_entry]. rewrite get_set by exact (get_live _ _ _ Hg). rewrite bool_decide_eq_true_2 by done. reflexivity.
    - constructor; try done. intros b. rewrite !get_set by exact (get_live _ _ _ Hg). cbn. rewrite Ha. case_bool_decide as E.
      + subst b. rewrite Hg. by constructor.
      + change (getStateObject hash (journal_append _ s) b) with (getStateObject hash s b). by destruct (getStateObject hash s b); constructor. }
  apply evolves_intro; [done|apply Hst|apply Hst|]. etrans; [by apply world_stepped|]. apply world_suicided. by apply world_obj_shown.
Qed.

(** Creation, over an account that may be there. *)
Lemma world_created s a : same_accounts (world_obj a (setBalance (sGetBalance hash s a) (freshObject a)) (world s)) (fresh_account a (world s)).
Proof.
  constructor; [..|done]; intros b; intros; cbv [world_obj fresh_account w_balance w_nonce w_code w_storage w_suicided upd];
    case_bool_decide; subst; try done.
  - exact (fresh_Code a).
  - apply fresh_GetState.
Qed.

Lemma sCreateAccount_ok s a : sdb_ok s -> sdb_evolves s (sCreateAccount hash a s) (fresh_account a (world s)).
Proof.
  intros Hok. unfold sCreateAccount, createObject. fold (freshObject a). pose proof (world_created s a) as Hw.
  unfold sGetBalance in Hw. destruct (getStateObject hash s a) as [prev|] eqn:Hg; cbn [snd fst].
  - rewrite set_set by done. destruct (so_live _ Hok _ _ Hg) as [Ho Ha].
    assert (stepped s (setStateObject (setBalance (a_Balance (so_data prev)) (freshObject a)) (journal_append (resetObjectChange prev) s)) a
      (setBalance (a_Balance (so_data prev)) (freshObject a))) as Hst.
    { eapply reset_stepped; [done|done| |done|apply fresh_tidy|done]. apply setBalance_ok; [apply Ho|apply fresh_ok]. }
    apply evolves_intro; [done|apply Hst|apply Hst|]. etrans; [by apply world_stepped|done].
  - pose proof (create_stepped s a Hok Hg) as Hst. apply evolves_intro; [done|apply Hst|apply Hst|].
    etrans; [by apply world_stepped|]. etrans; [|exact Hw]. by constructor.
Qed.

(** ** Snapshots *)

Lemma revisions_ok_with s r n : revisions_ok s -> (forall i p, r !! i = Some p -> validRevisions s !! i = Some p) -> nextRevisionId s <= n ->
  revisions_ok (with_revisions s r n).
Proof.
  intros [H1 H2] Hr Hn. constructor; cbn.
  - intros i j p q Hij Hp Hq. eapply H1; eauto.
  - intros i p Hp. apply Hr, H2 in Hp. lia.
Qed.

Lemma sdb_ok_with s r n : sdb_ok s -> revisions_ok (with_revisions s r n) -> sdb_ok (with_revisions s r n).
Proof. intros [Hl Hs Hk Hlog Hrv] Hr. constructor; try done. by apply (kept_ext s). Qed.

Lemma take_lookup_of {A} (l : list A) n i x : take n l !! i = Some x -> l !! i = Some x.
Proof. rewrite lookup_take_Some. by intros [? _]. Qed.

Lemma snapshot_ok_revisions s : revisions_ok s ->
  revisions_ok (with_revisions s (validRevisions s ++ [(nextRevisionId s, zlen (j_entries (sjournal s)))]) (nextRevisionId s + 1)).
Proof.
  intros [H1 H2]. constructor; cbn.
  - intros i j p q Hij Hp Hq. apply lookup_snoc_Some in Hq as [[Hj Hq]|[-> <-]].
    + rewrite lookup_app_l in Hp by lia. eauto.
    + rewrite lookup_app_l in Hp by done. destruct (H2 _ _ Hp). cbn. lia.
  - intros i p Hp. apply lookup_snoc_Some in Hp as [[_ Hp]|[_ <-]]; [destruct (H2 _ _ Hp); lia|].
    cbn. pose proof (zlen_nonneg (j_entries (sjournal s))). lia.
Qed.

Lemma sSnapshot_ok s s' i : sdb_ok s -> sSnapshot s = (s', i) ->
  sdb_evolves s s' (world s) /\ sdb_saved s' i (world s) /\ forall j w, sdb_saved s j w -> j < i.
Proof.
  intros Hok [= <- <-]. pose proof (so_revisions _ Hok) as Hrv. pose proof (snapshot_ok_revisions s Hrv) as Hrv'. split_and!.
  - split_and!; [by apply sdb_ok_with|done|]. intros j v (idx & k & s0 & Hidx & Hr & Hw & Hs0).
    pose proof (lookup_lt_Some _ _ _ Hidx). exists idx, k, (with_revisions s0 (validRevisions s ++ [(nextRevisionId s, zlen (j_entries (sjournal s)))]) (nextRevisionId s + 1)). cbn.
    split_and!; [by rewrite lookup_app_l|by rewrite journal_revert_revisions, Hr|done|].
    rewrite take_app_le by lia. apply (sdb_ok_with _ _ _ Hs0). eapply (revisions_ok_with _ _ _ (so_revisions _ Hs0)); cbn; [done|lia].
  - exists (length (validRevisions s)), (zlen (j_entries (sjournal s))), (fst (sSnapshot s)). cbn.
    split_and!; [by rewrite lookup_app_r, Nat.sub_diag| |done|].
    + unfold zlen. rewrite Nat2Z.id, Nat.sub_diag. reflexivity.
    + rewrite take_app_length. apply (sdb_ok_with _ _ _ Hok). apply revisions_ok_with; [done|done|lia].
  - intros j w (idx & k & s0 & Hidx & _). by apply (rv_next _ Hrv) in Hidx as [? _].
Qed.

Lemma sRevertToSnapshot_ok s i w : sdb_ok s -> sdb_saved s i w ->
  exists s', sRevertToSnapshot hash i s = Some s' /\ sdb_ok s' /\ world_eq (world s') w /\ forall j v, j < i -> sdb_saved s j v -> sdb_saved s' j v.
Proof.
  intros Hok (idx & k & s0 & Hidx & Hr & Hw & Hs0). pose proof (so_revisions _ Hok) as Hrv.
  destruct (journal_revert_frame _ _ _ Hr) as (Hj & Hk & HV & HN & _).
  rewrite (revert_eq _ _ _ _ Hrv Hidx), Hr. cbn. rewrite HN. eexists. split_and!; [done|done|done|].
  intros j v Hji (idx' & k' & u0 & Hidx' & Hr' & Hw' & Hu0).
  assert (idx' < idx)%nat as Hlt.
  { destruct (lt_eq_lt_dec idx' idx) as [[?|Heq]|Hgt]; [done|subst; simplify_eq; lia|]. destruct (rv_ids _ Hrv _ _ _ _ Hgt Hidx Hidx'). cbn in *. lia. }
  destruct (rv_ids _ Hrv _ _ _ _ Hlt Hidx' Hidx) as [_ Hkk]. destruct (rv_next _ Hrv _ _ Hidx) as [_ Hkl]. destruct (rv_next _ Hrv _ _ Hidx') as [_ Hkl'].
  cbn in *. unfold zlen in *.
  replace (length (j_entries (sjournal s)) - Z.to_nat k')%nat
    with ((length (j_entries (sjournal s)) - Z.to_nat k) + (Z.to_nat k - Z.to_nat k'))%nat in Hr' by lia.
  rewrite journal_revert_add, Hr in Hr'. cbn in Hr'.
  exists idx', k', (with_revisions u0 (take idx (validRevisions s)) (nextRevisionId s)). cbn. split_and!; [by rewrite lookup_take_lt| |done|].
  - rewrite journal_revert_revisions, Hj, length_drop.
    replace (_ - _ - Z.to_nat k')%nat with (Z.to_nat k - Z.to_nat k')%nat by lia. by rewrite Hr'.
  - rewrite take_take, Nat.min_l by lia. exact Hu0.
Qed.

(** * The contract *)

Lemma sGetNonce_ok s a : sdb_ok s -> is_u64 (sGetNonce hash s a).
Proof. intros Hok. unfold sGetNonce. destruct (getStateObject hash s a) eqn:E; [|done]. by apply (so_live _ Hok) in E as [[] _]. Qed.
Lemma sGetCode_ok s a : sdb_ok s -> slice_ok (sGetCode db hash s a).
Proof. intros Hok. unfold sGetCode. destruct (getStateObject hash s a) eqn:E; [|by split; [constructor|]]. by apply (so_live _ Hok) in E as [[] _]. Qed.
Lemma sGetState_ok s a k : sdb_ok s -> is_hash (sGetState db hash s a k).
Proof. intros Hok. unfold sGetState. destruct (getStateObject hash s a) eqn:E; [|apply zeroHash_ok]. by apply (so_live _ Hok) in E as [[] _]. Qed.
Lemma sGetCodeHash_ok s a : sdb_ok s -> sGetCode db hash s a <> [] -> sGetCodeHash hash s a = hash (sGetCode db hash s a).
Proof.
  intros Hok. unfold sGetCode, sGetCodeHash. destruct (getStateObject hash s a) eqn:E; [|done].
  apply (so_live _ Hok) in E as [[] _]. intros Hc. rewrite BytesToHash_id by done. auto.
Qed.

(** The size is read off the code, or off the database without looking at the hash of no code. *)
Lemma sGetCodeSize_ok s a : sdb_ok s -> sGetCodeSize db hash s a = zlen (sGetCode db hash s a).
Proof.
  intros Hok. unfold sGetCode, sGetCodeSize. destruct (getStateObject hash s a) eqn:E; [|done].
  apply (so_live _ Hok) in E as [Ho _]. unfold so_Code. case_bool_decide as Ec; cbn [negb]; [|done].
  case_bool_decide as Eh; [|done]. rewrite Eh, BytesToHash_id by apply (bk_len Hb).
  destruct (ContractCode db (emptyCodeHash hash)) as [c|] eqn:Ecc; [|done]. destruct (bk_code Hb _ _ Ecc) as [[Hc _] Hh].
  by rewrite (bk_free Hb [] ltac:(constructor) c Hc Hh).
Qed.

Lemma sExist_ok s a : sdb_ok s -> sExist hash s a = false ->
  same_accounts (world s) (fresh_account a (world s)) /\ sGetBalance hash s a = 0.
Proof.
  intros Hok. unfold sExist. case_bool_decide as E; [|done]. intros _. split; [|unfold sGetBalance; by rewrite E].
  symmetry. rewrite <- (world_created s a). unfold sGetBalance. rewrite E. etrans; [|by apply world_fresh]. by constructor.
Qed.

Lemma sGetRefund_ok s : sdb_ok s -> is_u64 (refund s).
Proof. intros Hok. apply (so_logs _ Hok). Qed.

#[local] Instance SDB_StateDBLaws : StateDBLaws (SDB T) hash := {|
  db_ok := sdb_ok;
  saved := sdb_saved;
  GetBalance_ok := sGetBalance_ok;
  GetNonce_ok := sGetNonce_ok;
  GetCode_ok := sGetCode_ok;
  GetCodeHash_ok := sGetCodeHash_ok;
  GetCodeSize_ok := sGetCodeSize_ok;
  GetState_ok := sGetState_ok;
  GetRefund_ok := sGetRefund_ok;
  Exist_ok := sExist_ok;
  CreateAccount_ok := sCreateAccount_ok;
  SubBalance_ok := sSubBalance_ok;
  AddBalance_ok := sAddBalance_ok;
  SetNonce_ok := sSetNonce_ok;
  SetCode_ok := sSetCode_ok;
  AddRefund_ok := sAddRefund_ok;
  SetState_ok := fun s a k v Hok _ => sSetState_ok s a k v Hok;
  Suicide_ok := sSuicide_ok;
  AddLog_ok := sAddLog_ok;
  AddPreimage_ok := sAddPreimage_ok;
  Snapshot_ok := sSnapshot_ok;
  RevertToSnapshot_ok := sRevertToSnapshot_ok |}.

(** A database opened on a trie of well-formed accounts. *)
Lemma newState_ok t : trie_ok t -> (forall a acc, loadAccount t a = Some acc -> obj_ok (newObject hash a acc)) -> sdb_ok (newState t).
Proof.
  intros Hto Ht. constructor; cbn.
  - intros a o. unfold getStateObject. cbn. rewrite lookup_empty. destruct (loadAccount t a) as [acc|] eqn:E; [|done]. intros [= <-]. split; [by apply Ht|done].
  - done.
  - constructor; cbn; try done; try (intros a o Ho; by rewrite lookup_empty in Ho). intros a [n Hn]. by rewrite lookup_empty in Hn.
  - split; [intros h; by rewrite lookup_empty|by split].
  - split; intros; by rewrite ?lookup_nil in *.
Qed.
End laws.
