(* ===== verification/Sample.v ===== *)
(** A concrete world for the machine and the state database: tries that are finite maps, a
    hash that never collides, an environment without precompiled contracts, and a database
    with one contract.  It shows that what the theorems assume can hold. *)

From stdpp Require Import base numbers list gmap.
From S2P Require Import Prelude.
From S2P Require Import CommonMath.
From S2P Require Import Params.
From S2P Require Import VmData.
From S2P Require Import VmAnalysis.
From S2P Require Import VmState.
From S2P Require Import VmInterp.
From S2P Require Import VmWorld.
From S2P Require Import VmSafe.
From S2P Require Import State.
From S2P Require Import StateLaws.
Local Open Scope Z_scope.
Local Open Scope go_scope.

(** One large digit holds the whole string. *)
Definition idealHash (b : bytes) : bytes := Z.max 0 (be_val (1 :: b)) :: replicate 31 0.

Lemma idealHash_free b : bytes_ok b -> no_collision idealHash b.
Proof.
  intros Hb c Hc [= E]. assert (bytes_ok (1 :: b) /\ bytes_ok (1 :: c)) as [Hb1 Hc1] by by split; constructor.
  rewrite !Z.max_r in E by by apply be_val_bound. assert (1 :: c = 1 :: b) as [= ->]; [|done]. by rewrite <- (big_bytes_be_val 1 c), <- (big_bytes_be_val 1 b), E.
Qed.
Lemma idealHash_digits b : digits_ok (idealHash b).
Proof. constructor; [lia|apply digits_ok_zeros]. Qed.

#[export] Instance mapTrie : Trie (gmap bytes bytes) := {
  TryGet m k := Some (default [] (m !! k));
  TryUpdate k v m := <[k := v]> m;
  TryDelete k m := delete k m;
  trie_Hash m := zeroHash }.

#[export] Instance mapTrie_laws : TrieLaws (gmap bytes bytes).
Proof.
  refine {| trie_ok := fun _ => True |}; [..|done]; intros t k; intros; (split; [done|]); intros k'; cbn; case_bool_decide; subst; by rewrite ?lookup_insert_eq, ?lookup_delete_eq, ?lookup_insert_ne, ?lookup_delete_ne.
Defined.

Definition sampleDatabase : Database (gmap bytes bytes) := MkDatabase _ (fun _ => Some ∅) ∅ (fun _ => None).

Lemma sample_backing : backing_ok sampleDatabase idealHash.
Proof.
  constructor.
  - done.
  - apply idealHash_free.
  - done.
  - intros t k [[= <-] | ->]; cbn; by rewrite lookup_empty.
  - intros r t Ht. split; [done|]. intros k enc. assert (t = ∅) as -> by (by destruct Ht as [[= <-] | ->]). cbn. rewrite lookup_empty. intros [= <-]. split; [apply Forall_nil_2|done].
Qed.

(** Every fork up to Byzantium is active. *)
Definition sampleConfig : ChainConfig := MkChainConfig (Some 1) (Some 0) None false (Some 0) (Some 0) (Some 0) (Some 0) None (replicate 32 0).
Definition sampleEnv : Env :=
  MkEnv (fun _ => replicate 32 0) (replicate 20 0) 1 (replicate 20 0) 1000000 5 1000 17 sampleConfig false false idealHash
    (fun _ => None) (fun _ => None) (fun _ => false).

Lemma sampleEnv_ok : env_ok sampleEnv.
Proof.
  constructor; try done.
  - apply idealHash_digits.
  - apply idealHash_free.
  - intros. apply digits_ok_zeros.
  - apply digits_ok_zeros.
  - apply digits_ok_zeros.
Qed.

#[export] Instance sample_StateDB : StateDB (SDB (gmap bytes bytes)) := SDB_StateDB sampleDatabase idealHash.
#[export] Instance sample_laws : StateDBLaws (SDB (gmap bytes bytes)) (Keccak256 sampleEnv) := SDB_StateDBLaws sampleDatabase idealHash sample_backing.

(** An account with money, and a contract: store 7 at 0, log nothing, and stop;
    [PUSH1 7 PUSH1 0 SSTORE STOP]. *)
Definition user : bytes := replicate 19 0 ++ [1].
Definition contract : bytes := replicate 19 0 ++ [2].
Definition contractCode : bytes := [0x60; 7; 0x60; 0; 0x55; 0].
Definition sampleState : SDB (gmap bytes bytes) :=
  SetCode contract contractCode (AddBalance user 1000 (newState ∅)).

Lemma newState_fine : db_ok (newState (∅ : gmap bytes bytes)).
Proof. refine (newState_ok sampleDatabase idealHash ∅ I _). intros a acc. unfold loadAccount. cbn. by rewrite lookup_empty. Qed.

Lemma contractCode_ok : slice_ok contractCode.
Proof. by split; [repeat constructor|]. Qed.

Lemma sampleState_ok : db_ok sampleState.
Proof.
  destruct (AddBalance_ok (newState ∅) user 1000 newState_fine ltac:(lia)) as (H1 & _). by destruct (SetCode_ok _ contract contractCode H1 contractCode_ok) as (H2 & _).
Qed.

(** The user has all the money. *)
Lemma sampleState_balance a : GetBalance sampleState a = if bool_decide (a = user) then 1000 else 0.
Proof.
  destruct (AddBalance_ok (newState ∅) user 1000 newState_fine ltac:(lia)) as (H1 & W1 & _). destruct (SetCode_ok _ contract contractCode H1 contractCode_ok) as (_ & W2 & _).
  pose proof (sa_balance _ _ W2 a) as E2. pose proof (sa_balance _ _ W1 a) as E1. cbn [w_balance world set_code set_balance] in E1, E2. unfold sampleState. rewrite E2, E1. unfold upd.
  assert (forall b, GetBalance (newState (∅ : gmap bytes bytes)) b = 0) as Hz; [|rewrite !Hz; done]. intros b. cbn. unfold sGetBalance, getStateObject, loadAccount. cbn. by rewrite !lookup_empty.
Qed.

Definition sampleEVM : EVM (SDB (gmap bytes bytes)) := MkEVM sampleState 0 false [] 0 ∅ 0.

Lemma sampleEVM_ok : evm_ok sampleEnv sampleEVM.
Proof. constructor; [apply sampleState_ok|apply dests_ok_empty|apply slice_ok_nil]. Qed.
