(* ===== verification/StateFinal.v ===== *)
(** The end of a transaction ([Finalise] and [IntermediateRoot] of
    [src/core/state/statedb.go]): what the journal marked dirty is written to the tries, and
    suicided and empty accounts are removed. *)

From stdpp Require Import base numbers list gmap.
From S2P Require Import Prelude.
From S2P Require Import CommonMath.
From S2P Require Import RlpEncode.
From S2P Require Import RlpRaw.
From S2P Require Import RlpStream.
From S2P Require Import RlpTyped.
From S2P Require Import VmData.
From S2P Require Import VmState.
From S2P Require Import VmWorld.
From S2P Require Import State.
From S2P Require Import StateLaws.
From S2P Require Import Sample.
Local Open Scope Z_scope.
Local Open Scope go_scope.

(** * Accounts in the trie *)

(** The root and the code hash have the length of a hash; that they are bytes is not
    needed. *)
Definition account_ok (a : Account) : Prop :=
  is_u64 (a_Nonce a) /\ is_word (a_Balance a) /\ length (a_Root a) = HashLength /\ length (a_CodeHash a) = HashLength.

(** Strings of more than one byte are read whatever they hold. *)
Lemma long_string_loose c : zlen c <> 1 -> zlen c < 2 ^ 64 -> canonical KString c /\ rlp_string c = value_bytes KString c.
Proof.
  intros H1 Hl. assert (canonical KString c) as Hc by (apply short_string_canonical; [done|]; by rewrite (proj2 (Z.eqb_neq _ _))).
  split; [done|]. by apply rlp_string_canonical.
Qed.

Lemma long_bytes_decodes c : zlen c <> 1 -> zlen c < 2 ^ 64 -> decodes s_Bytes (rlp_string c) c.
Proof.
  intros H1 Hl. destruct (long_string_loose c H1 Hl) as [Hc ->]. apply decodes_kind; [done|]. intros s r st Hv Ha.
  destruct (at_value_read _ _ _ _ _ Hv ltac:(done)) as (s' & Hrf & Hr). exists s'. split; [|done]. simpl csize. unfold sbind. rewrite Hrf. by rewrite (proj2 (short_string_canonical c Hl)).
Qed.

Lemma hash_array_decodes b : zlen b = 32 -> decodes (decodeByteArray 32) (rlp_string b) (DBytes b).
Proof.
  intros Hb. destruct (long_string_loose b ltac:(lia) ltac:(lia)) as [Hc ->]. apply decodes_kind; [simpl; lia|]. intros s r st Hv _.
  change (csize KString b) with (zlen b). cbv beta iota. rewrite Hb. destruct (at_value_read _ _ _ _ _ Hv ltac:(done)) as (s' & Hrf & Hr). rewrite Hb in Hrf.
  exists s'. split; [|done]. change (u64 32) with 32. unfold sbind. cbn [Z.ltb Z.gtb Z.compare Pos.compare Pos.compare_cont]. by rewrite Hrf.
Qed.

(** The fields of a struct, each with its encoding and value. *)
Lemma decodeFields_all (dec : rtype -> SM dval) (l : list (rtype * bytes * dval)) : Forall (fun p => decodes (dec p.1.1) p.1.2 p.2) l ->
  forall s r st, ready s (concat (map (fun p => p.1.2) l) ++ r) st -> zlen (concat (map (fun p => p.1.2) l)) <= avail (zlen (concat (map (fun p => p.1.2) l) ++ r)) st ->
  exists s', decodeFields dec (map (fun p => p.1.1) l) s = (s', Ok (map snd l)) /\ ready s' r (advance st (zlen (concat (map (fun p => p.1.2) l)))).
Proof.
  induction 1 as [|[[t b] v] l Hp _ IH]; intros s r st Hrd Ha; cbn [map concat decodeFields fst snd] in *.
  { rewrite zlen_nil, advance_0. by exists s. }
  rewrite <- app_assoc in *. rewrite zlen_app in Ha. pose proof (zlen_nonneg b). pose proof (zlen_nonneg (concat (map (fun p => p.1.2) l))).
  pose proof (avail_app b (concat (map (fun p => p.1.2) l) ++ r) st) as Hav. destruct (Hp s _ st Hrd ltac:(lia)) as (s1 & E & Hr1). cbn in E. rewrite E.
  destruct (IH s1 r (advance st (zlen b)) Hr1 ltac:(lia)) as (s' & E' & Hr'). exists s'. unfold smap, sbind. rewrite E'. split; [done|].
  by rewrite zlen_app, <- advance_advance.
Qed.

Lemma scalar_decodes fuel t v bs : (0 < fuel)%nat -> type_ok t = true -> typed t v bs -> bytes_ok bs -> zlen bs < 2 ^ 64 -> zlen bs < Z.of_nat fuel -> decodes (makeDecoder fuel t) bs v.
Proof. intros Hf Ht. destruct (makeDecoder_good fuel t Hf) as [Hg _]. apply (good_decodes _ _ _ (Hg Ht)). Qed.

(** An account read back from its encoding is the account that was written: encoding
    succeeds and decoding its result gives nonce, balance, storage root and code hash. *)
Lemma account_roundtrip a : account_ok a -> exists enc, encodeAccount a = Ok enc /\ enc <> [] /\ decodeAccount enc = Some a.
Proof.
  intros (Hn & Hw & Hr & Hc). destruct a as [nonce balance root codeHash]. cbn in Hn, Hw, Hr, Hc. destruct Hn as [Hn0 Hn1], Hw as [Hw0 Hw1].
  assert (zlen root = 32 /\ zlen codeHash = 32) as [Lr Lc] by (unfold zlen; by rewrite Hr, Hc).
  assert (zlen (big_bytes nonce) <= 8) as Ln by (apply byte_len_bits; lia). assert (zlen (big_bytes balance) <= 32) as Lb by (apply byte_len_bits; lia).
  pose proof (rlp_string_len (big_bytes nonce)). pose proof (rlp_string_len (big_bytes balance)). pose proof (rlp_string_len root). pose proof (rlp_string_len codeHash).
  set (l := [(TUint 64, rlp_string (big_bytes nonce), DUint nonce); (TPtr false TBigInt, rlp_string (big_bytes balance), DPtr (Some (DUint balance)));
    (TByteArray 32, rlp_string root, DBytes root); (TByteSlice, rlp_string codeHash, DBytes codeHash)]).
  set (p := concat (map (fun p => p.1.2) l)). assert (0 <= zlen p <= 200) as Hp by (split; [apply zlen_nonneg|]; subst p l; cbn [map concat fst snd]; rewrite !zlen_app; change (zlen []) with 0; lia).
  pose proof (rlp_list_len p ltac:(lia)) as HL. set (b := rlp_list p) in *.
  assert (encodeAccount (MkAccount nonce balance root codeHash) = Ok b) as Henc.
  { apply EncodeToBytes_ok; [|cbn; unfold rlp_big; by rewrite (proj2 (Z.ltb_ge _ _)) by lia|lia]. cbn. by rewrite (proj2 (Z.leb_le 0 nonce)), (proj2 (Z.ltb_lt nonce _)) by lia. }
  exists b. split; [done|]. split; [intros E; pose proof (rlp_list_pos p) as Hpos; fold b in Hpos; rewrite E in Hpos; by cbn in Hpos|].
  assert (Forall (fun q => decodes (makeDecoder (S (length b)) q.1.1) q.1.2 q.2) l) as Hall.
  { unfold zlen in HL, Hp. assert (zlen (rlp_string (big_bytes nonce)) <= zlen p /\ zlen (rlp_string (big_bytes balance)) <= zlen p) as [Q1 Q2].
    { pose proof (zlen_nonneg (rlp_string (big_bytes nonce))). pose proof (zlen_nonneg (rlp_string (big_bytes balance))). subst p l. cbn [map concat fst snd]. rewrite !zlen_app. change (zlen []) with 0. lia. }
    unfold zlen in Q1, Q2. repeat constructor; cbn [fst snd].
    - apply scalar_decodes; [lia|done|done|apply rlp_string_bytes; [apply big_bytes_ok|lia]|lia|unfold zlen; lia].
    - apply scalar_decodes; [lia|done|done|apply rlp_string_bytes; [apply big_bytes_ok|lia]|lia|unfold zlen; lia].
    - by apply hash_array_decodes.
    - cbn [makeDecoder]. unfold decodeByteSlice. apply decodes_smap, decodes_swrap, long_bytes_decodes; lia. }
  unfold decodeAccount. assert (decodes (makeDecoder (S (length b)) accountType) b (DStruct (map snd l))) as Hd.
  { eapply decodes_ext; [apply makeStructDecoder_eq|]. apply decodes_smap, in_list_decodes; [by right|lia|]. intros s r st Hrd.
    destruct (decodeFields_all _ l Hall s r (ListPos 0 (zlen p) :: st) Hrd) as (s' & E & Hr'); [cbn; fold p; lia|]. exists s'. split; [exact E|exact Hr']. }
  pose proof (NewStream_ready b ltac:(lia)) as Hrd. unfold DecodeBytes. destruct (Hd (NewStream b (u64 (zlen b))) [] []) as (s' & -> & [Hcore _]); [by rewrite app_nil_r|cbn; rewrite app_nil_r; lia|].
  by rewrite (core_r _ _ _ Hcore).
Qed.

(** * Slots in the trie of an account *)

Definition slot_enc (v : bytes) : bytes := if EmptyHash v then [] else rlp_string (trimLeft v).

Lemma trimLeft_zeros v : exists n, v = replicate n 0 ++ trimLeft v.
Proof. induction v as [|x v [n IH]]; [by exists 0%nat|]. destruct x; [exists (S n); cbn; by rewrite <- IH|by exists 0%nat..]. Qed.

Lemma trimLeft_hash v : is_hash v -> bytes_ok (trimLeft v) /\ zlen (trimLeft v) <= 32 /\ BytesToHash (trimLeft v) = v.
Proof.
  intros [Hl Hv]. destruct (trimLeft_zeros v) as [n E]. assert (bytes_ok (trimLeft v)) as Ht by (rewrite E in Hv; by apply bytes_ok_app in Hv as [_ ?]).
  pose proof (f_equal length E) as El. rewrite length_app, length_replicate, Hl in El. split; [done|]. split; [unfold zlen, HashLength in *; lia|].
  unfold BytesToHash, SetBytes. rewrite (proj2 (Nat.ltb_ge _ _)) by lia. rewrite E at 3. f_equal. f_equal. lia.
Qed.

(** A slot reads back from what is written for it. *)
Lemma slot_roundtrip v : is_hash v -> storageValue (slot_enc v) = v.
Proof.
  intros Hv. destruct (trimLeft_hash v Hv) as (Ht & Hl & Hb). unfold slot_enc, EmptyHash. case_bool_decide as E; [by subst|]. unfold storageValue.
  rewrite bool_decide_eq_false_2 by (intros En; pose proof (rlp_string_pos (trimLeft v)) as Hp; rewrite En in Hp; by cbn in Hp).
  destruct (rlp_string_value (trimLeft v) Ht ltac:(lia)) as (k & Ev & _ & Hc & _). pose proof (rlp_string_bytes _ Ht ltac:(lia)) as Hok. pose proof (rlp_string_len (trimLeft v) ltac:(lia)).
  rewrite Ev in *. rewrite <- (app_nil_r (value_bytes _ _)). rewrite Split_intro; rewrite ?app_nil_r; done || lia.
Qed.

Lemma storageValue_hash enc : slice_ok enc -> is_hash (storageValue enc).
Proof.
  intros [Hok Hl]. assert (is_hash (replicate HashLength 0)) as Hz by (split; [apply length_replicate|by apply Forall_replicate]).
  unfold storageValue. case_bool_decide; [done|]. destruct (Split_cases enc Hok ltac:(lia)) as [(k & c & r & _ & -> & ->)|[e ->]]; [|done].
  apply bytes_ok_app in Hok as [Hok _]. assert (bytes_ok c) as Hc by (destruct k; cbn in Hok; [done|by apply bytes_ok_app in Hok as [_ ?]..]).
  split; [apply length_SetBytes|]. unfold BytesToHash. rewrite SetBytes_be by done. apply be_fixed_ok.
Qed.

Section final.
Context {T : Type} `{HT : Trie T} `{!TrieLaws T} (db : Database T) (hash : bytes -> bytes) (Hb : backing_ok db hash).
Implicit Types (s : SDB T) (o : stateObject T).
#[local] Instance final_StateDB : StateDB (SDB T) := SDB_StateDB db hash.
#[local] Instance final_obj_eq : Equivalence (obj_eq db hash) := obj_eq_equiv db hash.
#[local] Instance final_laws : StateDBLaws (SDB T) hash := SDB_StateDBLaws db hash Hb.

Lemma writeSlot_ok (t : T) k v : trie_ok t -> is_hash v ->
  trie_ok (writeSlot k v t) /\ forall k', TryGet (writeSlot k v t) k' = if bool_decide (k' = k) then Some (slot_enc v) else TryGet t k'.
Proof.
  intros Ht Hv. unfold writeSlot, slot_enc. destruct (EmptyHash v); [by apply law_delete|]. destruct (trimLeft_hash v Hv) as (Hb1 & Hl & _). pose proof (rlp_string_len (trimLeft v) ltac:(lia)).
  rewrite (EncodeToBytes_ok _ _ (rlp_string (trimLeft v))) by (done || lia). apply law_update; [done|]. intros En. pose proof (rlp_string_pos (trimLeft v)) as Hp. rewrite En in Hp. by cbn in Hp.
Qed.

Lemma writeSlots_ok (t : T) (m : Storage) : trie_ok t -> (forall k v, m !! k = Some v -> is_hash v) ->
  trie_ok (map_fold writeSlot t m) /\ forall k, TryGet (map_fold writeSlot t m) k = match m !! k with Some v => Some (slot_enc v) | None => TryGet t k end.
Proof.
  intros Ht. revert m. apply (map_fold_weak_ind (fun r m => (forall k v, m !! k = Some v -> is_hash v) -> trie_ok r /\ forall k, TryGet r k = match m !! k with Some v => Some (slot_enc v) | None => TryGet t k end)).
  - intros _. split; [done|]. intros k. by rewrite lookup_empty.
  - intros i x m r Hi IH Hm. destruct IH as [Hr Hg]; [intros k v Hk; apply (Hm k); rewrite lookup_insert_ne; [done|]; intros ->; congruence|].
    destruct (writeSlot_ok r i x Hr (Hm i x (lookup_insert_eq _ _ _))) as [Hr' Hg']. split; [done|]. intros k. rewrite Hg'. case_bool_decide as E; [subst; by rewrite lookup_insert_eq|].
    rewrite lookup_insert_ne by done. apply Hg.
Qed.

Lemma getTrie_ok a o : tidy db a o -> trie_ok (getTrie db o).
Proof.
  intros (_ & _ & Ht & _). unfold getTrie. destruct (so_trie o) as [t|]; [by apply Ht|]. destruct (OpenStorageTrie db (a_Root (so_data o))) as [t|] eqn:E; apply (bk_open _ _ Hb (a_Root (so_data o))); auto.
Qed.

(** Writing an account's slots changes nothing it shows, and then all it shows is in its
    trie, whose hash is the root of the account. *)
Lemma updateRoot_ok a o : tidy db a o -> obj_ok db hash o ->
  obj_eq db hash (updateRoot db o) o /\ tidy db a (updateRoot db o) /\ length (a_Root (so_data (updateRoot db o))) = HashLength /\
  exists t, so_trie (updateRoot db o) = Some t /\ a_Root (so_data (updateRoot db o)) = trie_Hash t /\ forall k, trieSlot t k = so_GetState db o k.
Proof.
  intros Ht Ho. pose proof Ht as (Ha & Hd & _ & Hc). assert (forall k v, so_dirtyStorage o !! k = Some v -> is_hash v) as Hv.
  { intros k v Hk. apply Hd in Hk. pose proof (oo_state _ _ _ Ho k) as H. unfold so_GetState in *. by rewrite Hk in *. }
  destruct (writeSlots_ok (getTrie db o) (so_dirtyStorage o) (getTrie_ok a o Ht) Hv) as [Hok Hg].
  set (t' := map_fold writeSlot (getTrie db o) (so_dirtyStorage o)) in *. assert (forall k, trieSlot t' k = so_GetState db o k) as Hs.
  { intros k. unfold trieSlot, so_GetState. rewrite Hg. destruct (so_dirtyStorage o !! k) as [v|] eqn:Ed; [rewrite (Hd k v Ed); by apply slot_roundtrip, (Hv k)|].
    destruct (so_cachedStorage o !! k) as [v|] eqn:Ec; [by apply Hc|]. by destruct (TryGet (getTrie db o) k). }
  split_and!; [| |cbn; by apply law_hash|by exists t'].
  - constructor; try done. intros k. rewrite <- Hs. unfold so_GetState. cbn [so_cachedStorage updateRoot updateTrie setRoot with_data with_strie with_storage]. destruct (so_cachedStorage o !! k) as [v|] eqn:E.
    + rewrite Hs. unfold so_GetState. by rewrite E.
    + change (getTrie db (updateRoot db o)) with t'. unfold trieSlot. by destruct (TryGet t' k).
  - split_and!; [done|cbn; intros k v; by rewrite lookup_empty|by intros t [= <-]|].
    intros k v Hk _. change (getTrie db (updateRoot db o)) with t'. rewrite Hs. unfold so_GetState. cbn in Hk. by rewrite Hk.
Qed.

(** An account written to the trie is well-formed when it is read. *)
Lemma stored_ok a acc : account_ok acc -> obj_ok db hash (newObject hash a acc).
Proof.
  intros (Hn & [Hw _] & _ & Hc). assert (newObject hash a acc = MkObject (T := T) a acc None [] ∅ ∅ false false false) as ->.
  { unfold newObject. rewrite bool_decide_eq_false_2; [done|]. intros E. by rewrite E in Hc. }
  assert (forall c, ContractCode db (BytesToHash (a_CodeHash acc)) = Some c -> slice_ok c /\ hash c = a_CodeHash acc) as Hcc by (intros c H; apply (bk_code _ _ Hb) in H; by rewrite BytesToHash_id in H).
  constructor; cbn; try done.
  - unfold so_Code. cbn. case_bool_decide; [by split; [constructor|]|]. destruct (ContractCode db _) as [c|] eqn:E; [by apply Hcc|by split; [constructor|]].
  - unfold so_Code. cbn. case_bool_decide; [done|]. destruct (ContractCode db _) as [c|] eqn:E; [|done]. intros _. by destruct (Hcc c eq_refl) as [_ Hh].
  - intros k. unfold so_GetState, getTrie. cbn. rewrite lookup_empty.
    assert (forall t : T, OpenStorageTrie db (a_Root acc) = Some t \/ t = EmptyTrie db -> is_hash (match TryGet t k with Some enc => storageValue enc | None => zeroHash end)) as Hh.
    { intros t Ht. destruct (bk_open _ _ Hb _ _ Ht) as [_ Hs]. destruct (TryGet t k) as [enc|] eqn:E; [by apply storageValue_hash, (Hs k)|apply zeroHash_ok]. }
    destruct (OpenStorageTrie db (a_Root acc)) as [t|] eqn:E; apply Hh; auto.
Qed.

(** * Writing the accounts *)

(** Whether an account is removed, and what becomes of its object. *)
Definition removed (del : bool) o : bool := so_suicided o || (del && so_empty hash o).
Definition settled_object (del : bool) o : stateObject T := if removed del o then with_deleted o true else updateRoot db o.

(** [s'] is [s] after the accounts [l] have been written. *)
Record written (del : bool) (l : list bytes) s s' : Prop := {
  wr_trie : trie_ok (trie s');
  wr_objects a : stateObjects s' !! a = if bool_decide (a ∈ l) then settled_object del <$> stateObjects s !! a else stateObjects s !! a;
  wr_load a : loadAccount (trie s') a =
    match stateObjects s !! a with
    | Some o => if bool_decide (a ∈ l) then if removed del o then None else Some (so_data (updateRoot db o)) else loadAccount (trie s) a
    | None => loadAccount (trie s) a
    end;
  wr_journal : sjournal s' = sjournal s;
  wr_refund : refund s' = refund s;
  wr_logs : logs s' = logs s /\ logSize s' = logSize s;
  wr_tx : thash s' = thash s /\ bhash s' = bhash s /\ txIndex s' = txIndex s;
  wr_revisions : nextRevisionId s' = nextRevisionId s }.

(** An object that can be written: its balance fits a word. *)
Definition writable s a : Prop := forall o, stateObjects s !! a = Some o -> obj_ok db hash o /\ tidy db a o /\ a_Balance (so_data o) < 2 ^ 256.

Lemma decide_one (a b : bytes) : bool_decide (b ∈ [a]) = bool_decide (b = a).
Proof. apply bool_decide_ext, list_elem_of_singleton. Qed.
Lemma decide_cons (a b : bytes) l : bool_decide (b ∈ a :: l) = bool_decide (b = a) || bool_decide (b ∈ l).
Proof. rewrite <- bool_decide_or. apply bool_decide_ext, elem_of_cons. Qed.

Lemma finaliseObject_ok del a s : trie_ok (trie s) -> writable s a -> exists s', finaliseObject db hash del a s = Ok s' /\ written del [a] s s'.
Proof using Hb.
  intros Ht Hw. unfold finaliseObject. destruct (stateObjects s !! a) as [o|] eqn:Eo.
  2:{ exists s. split; [done|]. constructor; try done; intros b; rewrite decide_one; case_bool_decide; subst; rewrite ?Eo; try done. by destruct (stateObjects s !! b). }
  destruct (Hw o Eo) as (Ho & Hti & Hbal). pose proof Hti as (Ha & _ & _). fold (removed del o). destruct (removed del o) eqn:Er; cbn [outcome_bind].
  - eexists. split; [reflexivity|]. destruct (law_delete (trie s) (so_address o) Ht) as [Ht' Hg]. constructor; try done; intros b; cbn; rewrite Ha, ?decide_one in *.
    + case_bool_decide; subst; [rewrite lookup_insert_eq, Eo; cbn; unfold settled_object; by rewrite Er|by rewrite lookup_insert_ne].
    + unfold loadAccount. rewrite Hg. case_bool_decide; subst; [by rewrite Eo, Er|by destruct (stateObjects s !! b)].
  - destruct (updateRoot_ok a o Hti Ho) as (_ & _ & Hroot & _). unfold updateStateObject. destruct (account_roundtrip (so_data (updateRoot db o))) as (enc & -> & Hne & Hdec).
    { destruct Ho. split_and!; [done| |done|done]. split; [done|exact Hbal]. }
    cbn [outcome_bind]. eexists. split; [reflexivity|]. change (so_address (updateRoot db o)) with (so_address o). destruct (law_update (trie s) (so_address o) enc Ht Hne) as [Ht' Hg].
    constructor; try done; intros b; cbn [stateObjects with_dirty with_trie setStateObject with_objects trie]; change (so_address (updateRoot db o)) with (so_address o) in *; rewrite Ha, ?decide_one in *.
    + case_bool_decide; subst; [rewrite lookup_insert_eq, Eo; cbn; unfold settled_object; by rewrite Er|by rewrite lookup_insert_ne].
    + unfold loadAccount. rewrite Hg. case_bool_decide; subst; [rewrite Eo, Er; by destruct enc|by destruct (stateObjects s !! b)].
Qed.

Lemma finaliseObjects_ok del l : forall s, NoDup l -> trie_ok (trie s) -> Forall (writable s) l -> exists s', finaliseObjects db hash del l s = Ok s' /\ written del l s s'.
Proof using Hb.
  induction l as [|a l IH]; intros s Hn Ht Hw; cbn [finaliseObjects].
  { exists s. split; [done|]. constructor; try done. intros b. by destruct (stateObjects s !! b). }
  apply NoDup_cons in Hn as [Ha Hn]. apply Forall_cons in Hw as [Hwa Hw]. destruct (finaliseObject_ok del a s Ht Hwa) as (s1 & -> & [T1 O1 L1 J1 R1 G1 X1 V1]). cbn [outcome_bind].
  assert (forall b, b ∈ l -> b <> a) as Hne by (intros b Hin ->; done).
  assert (forall b, b ∈ l -> stateObjects s1 !! b = stateObjects s !! b) as Hsame by (intros b Hin; rewrite O1, decide_one, bool_decide_eq_false_2; auto).
  destruct (IH s1 Hn T1) as (s2 & -> & [T2 O2 L2 J2 R2 G2 X2 V2]).
  { apply Forall_forall. intros b Hin. rewrite Forall_forall in Hw. intros o. rewrite Hsame by done. by apply Hw. }
  exists s2. split; [done|]. constructor; [done| | |congruence|congruence|destruct G1, G2; split; congruence|destruct X1 as (? & ? & ?), X2 as (? & ? & ?); split_and!; congruence|congruence];
    intros b; rewrite decide_cons; rewrite ?O2, ?L2, ?L1; (case_bool_decide as Hin; [rewrite orb_true_r|rewrite orb_false_r]); rewrite ?decide_one.
  - by rewrite Hsame.
  - by rewrite O1, decide_one.
  - rewrite Hsame by done. rewrite bool_decide_eq_false_2 by auto. by destruct (stateObjects s !! b).
  - rewrite O1, decide_one. case_bool_decide; by destruct (stateObjects s !! b).
Qed.

(** * Finalising *)

Definition isDirty s (a : bytes) : bool := bool_decide (is_Some (j_dirties (sjournal s) !! a)).

(** Who is gone at the end: suicides, and empty accounts that were touched. *)
Definition gone (del : bool) s (a : bytes) : bool := isDirty s a && (HasSuicided s a || (del && Empty s a)).

(** A world without some accounts, and without refund. *)
Definition cleared (g : bytes -> bool) (w : World) : World :=
  MkWorld (fun a => if g a then 0 else w_balance w a) (fun a => if g a then 0 else w_nonce w a) (fun a => if g a then [] else w_code w a)
    (fun a k => if g a then zeroHash else w_storage w a k) (fun a => if g a then false else w_suicided w a) 0 (fun a => if g a then false else w_exist w a).

Definition dirtyAddrs s : list bytes := map fst (map_to_list (j_dirties (sjournal s))).
Lemma elem_of_dirty s a : a ∈ dirtyAddrs s <-> is_Some (j_dirties (sjournal s) !! a).
Proof.
  unfold dirtyAddrs. rewrite list_elem_of_fmap. split.
  - intros ([b n] & -> & Hin). apply elem_of_map_to_list in Hin. by exists n.
  - intros [n Hn]. exists (a, n). split; [done|]. by apply elem_of_map_to_list.
Qed.

(** A dirty object is alive. *)
Lemma dirty_live s a o : sdb_ok db hash s -> is_Some (j_dirties (sjournal s) !! a) -> stateObjects s !! a = Some o -> so_deleted o = false /\ getStateObject hash s a = Some o.
Proof.
  intros Hok [n Hn] Ho. unfold getStateObject. rewrite Ho. destruct (so_deleted o) eqn:D; [|done]. destruct (kp_dead _ _ (so_kept _ _ _ Hok) _ _ Ho D). congruence.
Qed.

Lemma dirty_writable s : sdb_ok db hash s -> (forall a, GetBalance s a < 2 ^ 256) -> Forall (writable s) (dirtyAddrs s).
Proof.
  intros Hok Hbal. apply Forall_forall. intros a Ha%elem_of_dirty o Ho. destruct (dirty_live s a o Hok Ha Ho) as [_ Hg]. destruct (so_live _ _ _ Hok _ _ Hg) as [? _].
  split_and!; [done|by apply (kp_tidy _ _ (so_kept _ _ _ Hok))|]. specialize (Hbal a). cbn in Hbal. unfold sGetBalance in Hbal. by rewrite Hg in Hbal.
Qed.

(** The objects after finalising show what they did, unless they are gone. *)
Lemma get_finalised del s s1 a : sdb_ok db hash s -> written del (dirtyAddrs s) s s1 ->
  if gone del s a then getStateObject hash s1 a = None else option_Forall2 (obj_eq db hash) (getStateObject hash s1 a) (getStateObject hash s a).
Proof using Hb.
  intros Hok [_ Ho Hl _ _ _ _ _]. pose proof (so_kept _ _ _ Hok) as Hk. unfold gone, isDirty. specialize (Ho a). specialize (Hl a).
  rewrite (bool_decide_ext (a ∈ dirtyAddrs s) (is_Some (j_dirties (sjournal s) !! a))) in Ho, Hl by apply elem_of_dirty.
  assert (forall x : option (stateObject T), option_Forall2 (obj_eq db hash) x x) as Hrefl by (intros [o|]; constructor; by destruct o).
  case_bool_decide as Hd; cbn [andb]; [|unfold getStateObject; rewrite Ho, Hl; destruct (stateObjects s !! a) as [o|]; [destruct (so_deleted o)|]; apply Hrefl].
  destruct (stateObjects s !! a) as [o|] eqn:Eo; cbn [fmap option_fmap option_map] in Ho.
  - destruct (dirty_live s a o Hok Hd Eo) as [D Hg]. cbn [HasSuicided Empty final_StateDB SDB_StateDB]. unfold sHasSuicided, sEmpty. rewrite Hg. fold (removed del o).
    unfold getStateObject. rewrite Ho. unfold settled_object. destruct (removed del o) eqn:Er; [done|]. change (so_deleted (updateRoot db o)) with (so_deleted o). rewrite D.
    constructor. apply (updateRoot_ok a); [by apply (kp_tidy _ _ Hk)|]. by apply (so_live _ _ _ Hok) in Hg as [? _].
  - assert (getStateObject hash s1 a = None) as Hg1 by (unfold getStateObject; by rewrite Ho, Hl, (kp_found _ _ Hk a Hd Eo)).
    assert (getStateObject hash s a = None) as Hg by (unfold getStateObject; by rewrite Eo, (kp_found _ _ Hk a Hd Eo)). destruct (_ || _); [done|]. rewrite Hg1, Hg. constructor.
Qed.

(** What finalising does: the accounts that are gone disappear from the world and from the trie,
    nothing else is changed, no suicide is left, the refund is spent, and for every account that
    was dirty the trie holds what the database shows, with the root of a storage trie in which
    every slot is the one the database shows. *)
Record finalised (del : bool) s s' : Prop := {
  fn_ok : sdb_ok db hash s';
  fn_world : world_eq (world s') (cleared (gone del s) (world s));
  fn_suicided a : HasSuicided s' a = false;
  fn_stored a : isDirty s a = true ->
    match loadAccount (trie s') a with
    | Some acc => Exist s' a = true /\ a_Balance acc = GetBalance s' a /\ a_Nonce acc = GetNonce s' a /\ a_CodeHash acc = GetCodeHash s' a /\
        exists o t, stateObjects s' !! a = Some o /\ so_trie o = Some t /\ a_Root acc = trie_Hash t /\ forall k, trieSlot t k = GetState s' a k
    | None => Exist s' a = false
    end;
  fn_logs : logs s' = logs s;
  fn_tx : thash s' = thash s /\ bhash s' = bhash s /\ txIndex s' = txIndex s;
  fn_clean : validRevisions s' = [] /\ j_dirties (sjournal s') = ∅ }.

Lemma cleared_kept del s s1 : sdb_ok db hash s -> written del (dirtyAddrs s) s s1 -> kept db (clearJournalAndRefund s1).
Proof using Hb.
  intros Hok [Ht Ho Hl _ _ _ _ _]. destruct (so_kept _ _ _ Hok) as [Kt Ko Kd Km Kc Kf Ke].
  assert (forall a o, stateObjects s1 !! a = Some o -> exists o0, stateObjects s !! a = Some o0 /\ o = if bool_decide (a ∈ dirtyAddrs s) then settled_object del o0 else o0) as Hob.
  { intros a o. rewrite Ho. case_bool_decide; [|by eauto]. intros (o0 & -> & ->)%fmap_Some. by exists o0. }
  constructor; cbn; try done.
  - intros a o Hin. destruct (Hob a o Hin) as (o0 & H0 & ->). case_bool_decide as Hd; [|by apply Ko]. unfold settled_object. destruct (removed del o0); [by apply (Ko a o0)|].
    apply updateRoot_ok; [by apply Ko|]. apply elem_of_dirty in Hd. destruct (dirty_live s a o0 Hok Hd H0) as [_ Hg]. by apply (so_live _ _ _ Hok) in Hg as [? _].
  - intros a o Hin D. split; [|apply lookup_empty]. destruct (Hob a o Hin) as (o0 & H0 & ->). rewrite Hl, H0. case_bool_decide as Hd; [|by apply (Kd a o0)].
    unfold settled_object in D. destruct (removed del o0); [done|]. apply elem_of_dirty in Hd. destruct (dirty_live s a o0 Hok Hd H0) as [D' _].
    change (so_deleted o0 = true) in D. congruence.
  - intros a o Hin S. left. destruct (Hob a o Hin) as (o0 & H0 & ->). case_bool_decide as Hd.
    + unfold settled_object in *. destruct (removed del o0) eqn:Er; [done|]. change (so_suicided o0 = true) in S. unfold removed in Er. by rewrite S in Er.
    + destruct (Km a o0 H0 S) as [?|(p & b & Hm)]; [done|]. destruct Hd. apply elem_of_dirty. specialize (Kc a).
      assert (0 < mentions a (j_entries (sjournal s))) as Hpos; [|destruct (j_dirties (sjournal s) !! a); [done|cbn in Kc; lia]].
      unfold mentions. assert (suicideChange a p b ∈ filter (fun e => dirtied e = Some a) (j_entries (sjournal s))) as Hf by (by apply list_elem_of_filter).
      destruct (filter _ _) as [|e0 es0]; [by apply elem_of_nil in Hf|]. rewrite zlen_cons. pose proof (zlen_nonneg es0). lia.
  - intros a [n Hn]. by rewrite lookup_empty in Hn.
Qed.

Lemma cleared_ok del s s1 : sdb_ok db hash s -> (forall a, GetBalance s a < 2 ^ 256) -> written del (dirtyAddrs s) s s1 -> sdb_ok db hash (clearJournalAndRefund s1).
Proof using Hb.
  intros Hok Hbal Hw. pose proof (fun a => get_finalised del s s1 a Hok Hw) as Hg. pose proof Hw as [Ht Ho Hl _ _ [Hlg Hls] _ _]. destruct (so_logs _ _ _ Hok) as (? & ? & _). constructor.
  - intros a o. change (getStateObject hash (clearJournalAndRefund s1) a) with (getStateObject hash s1 a). intros E. specialize (Hg a). destruct (gone del s a); [congruence|].
    rewrite E in Hg. inversion Hg as [? o0 Heq E1 E2|]; subst. symmetry in E2. destruct (so_live _ _ _ Hok _ _ E2) as [Ho0 Ha]. symmetry in Heq.
    split; [by eapply obj_ok_eq|]. by rewrite <- (oe_address _ _ _ _ Heq).
  - intros a acc. change (trie (clearJournalAndRefund s1)) with (trie s1). rewrite Hl. destruct (stateObjects s !! a) as [o|] eqn:Eo; [|apply Hok]. case_bool_decide as Hd; [|apply Hok].
    destruct (removed del o); [done|]. intros [= <-]. apply stored_ok. pose proof (dirty_writable s Hok Hbal) as Hwr. rewrite Forall_forall in Hwr.
    destruct (Hwr a Hd o Eo) as (Ho' & Hti & Hb'). destruct (updateRoot_ok a o Hti Ho') as (_ & _ & Hr & _). destruct Ho'. by split_and!; [|split|..].
  - by eapply cleared_kept.
  - cbn. rewrite Hlg, Hls. by split_and!.
  - split; intros; cbn in *; by rewrite lookup_nil in *.
Qed.

Lemma Finalise_ok del s : sdb_ok db hash s -> (forall a, GetBalance s a < 2 ^ 256) -> exists s', Finalise db hash del s = Ok s' /\ finalised del s s'.
Proof using Hb.
  intros Hok Hbal. unfold Finalise. fold (dirtyAddrs s). destruct (finaliseObjects_ok del (dirtyAddrs s) s) as (s1 & -> & Hw).
  { unfold dirtyAddrs. apply NoDup_fst_map_to_list. }
  { apply (kp_trie _ _ (so_kept _ _ _ Hok)). }
  { by apply dirty_writable. }
  cbn [outcome_bind]. eexists. split; [reflexivity|]. pose proof (cleared_ok del s s1 Hok Hbal Hw) as Hok'. pose proof (cleared_kept del s s1 Hok Hw) as Hk'.
  pose proof (fun a => get_finalised del s s1 a Hok Hw) as Hg. set (s' := clearJournalAndRefund s1) in *.
  assert (forall a, getStateObject hash s' a = getStateObject hash s1 a) as Hgs by done. pose proof Hw as [_ Ho Hl _ _ [Hlg _] Htx _]. constructor; try done.
  - split; [constructor; [..|done]|]; intros a; intros; cbn; unfold sGetBalance, sGetNonce, sGetCode, sGetState, sHasSuicided, sExist; rewrite Hgs; specialize (Hg a);
      (destruct (gone del s a); [by rewrite Hg|]); destruct (getStateObject hash s1 a), (getStateObject hash s a); inversion Hg as [? ? []|]; by subst.
  - intros a. cbn. unfold sHasSuicided. destruct (getStateObject hash s' a) as [o|] eqn:E; [|done]. destruct (so_suicided o) eqn:Es; [|done].
    destruct (get_tidy _ _ _ _ _ Hk' E) as [_ Hm]. destruct (Hm Es) as (p & b & Hin). by apply elem_of_nil in Hin.
  - intros a Hd. unfold isDirty in Hd. apply bool_decide_eq_true in Hd. specialize (Hl a). change (trie s') with (trie s1). specialize (Ho a).
    rewrite (bool_decide_eq_true_2 (a ∈ dirtyAddrs s)) in Ho, Hl by by apply elem_of_dirty. cbn. unfold sExist, sGetBalance, sGetNonce, sGetCodeHash, sGetState. rewrite Hgs.
    destruct (stateObjects s !! a) as [o|] eqn:Eo; cbn in Ho; rewrite Hl; unfold getStateObject; rewrite Ho.
    + unfold settled_object. destruct (dirty_live s a o Hok Hd Eo) as [D Hgo]. destruct (removed del o); [by rewrite bool_decide_eq_true_2|]. change (so_deleted (updateRoot db o)) with (so_deleted o). rewrite D.
      apply (so_live _ _ _ Hok) in Hgo as [Hoo _]. destruct (updateRoot_ok a o (kp_tidy _ _ (so_kept _ _ _ Hok) _ _ Eo) Hoo) as (Heq & _ & _ & t & Et & Er & Hs).
      rewrite bool_decide_eq_false_2 by done. split_and!; [done..| |]; [symmetry; apply BytesToHash_id; apply Hoo|]. exists (updateRoot db o), t. split_and!; [done..|]. intros k. rewrite Hs. symmetry. apply Heq.
    + rewrite Hl, (kp_found _ _ (so_kept _ _ _ Hok) a Hd Eo). done.
Qed.

(** C22. The end of a transaction: finalising a well-formed database in which no account holds
    more than a word never fails.  Suicided accounts and, from EIP 158 on, touched empty
    accounts disappear with all they held; no suicide and no refund is left, every other
    account is unchanged; and the trie holds, for every account the transaction touched,
    the balance, nonce and code hash the database shows, and the root hash of the account's
    storage trie, to which every slot the transaction wrote has been written, so that it
    holds the storage the database shows. *)
Theorem finalise_settles del s : sdb_ok db hash s -> (forall a, GetBalance s a < 2 ^ 256) -> exists s', Finalise db hash del s = Ok s' /\ finalised del s s'.
Proof using Hb. apply Finalise_ok. Qed.
End final.

(** * Example *)

Module FinalSample.
(** The contract has destroyed itself. *)
Definition endState : SDB (gmap bytes bytes) := fst (Suicide contract sampleState).

Lemma endState_world : sdb_ok sampleDatabase idealHash endState /\ forall a, GetBalance endState a < 2 ^ 256.
Proof.
  destruct (Suicide_ok sampleState contract sampleState_ok) as (H1 & W & _). split; [exact H1|]. intros a. pose proof (sa_balance _ _ W a) as E. assert (GetBalance sampleState a <= 1000) as Eb by (rewrite sampleState_balance; case_bool_decide; lia).
  change (GetBalance endState a = upd contract 0 (GetBalance sampleState) a) in E. rewrite E. unfold upd. case_bool_decide; lia.
Qed.

Lemma finalise_settles_witness : gone sampleDatabase idealHash true endState contract = true /\
  exists s', Finalise sampleDatabase idealHash true endState = Ok s' /\ finalised sampleDatabase idealHash true endState s'.
Proof. split; [vm_compute; reflexivity|]. apply (finalise_settles sampleDatabase idealHash sample_backing true endState); apply endState_world. Defined.
End FinalSample.
