(* ===== verification/Transition.v ===== *)
(** Applying a message to the state ([src/core/state_transition.go], [gaspool.go]): the sender
    buys gas, the machine runs, unused gas is returned and the miner is paid.

    Errors that make a block invalid are returned with the state they leave; failures of the
    machine are part of a valid result. *)

From stdpp Require Import base numbers list gmap.
From S2P Require Import Prelude.
From S2P Require Import CommonMath.
From S2P Require Import Params.
From S2P Require Import VmData.
From S2P Require Import VmAnalysis.
From S2P Require Import VmState.
From S2P Require Import VmInterp.
From S2P Require Import VmWorld.
From S2P Require Import VmSafe.
From S2P Require Import VmMachine.
From S2P Require Import State.
From S2P Require Import StateLaws.
From S2P Require Import Sample.
Local Open Scope Z_scope.
Local Open Scope go_scope.

Inductive tx_error := ErrNonceTooHigh | ErrNonceTooLow | errInsufficientBalanceForGas | ErrGasLimitReached | TxVm (e : vm_error).

Record Message := MkMessage {
  msg_From : bytes; msg_To : option bytes; msg_GasPrice : Z; msg_Gas : Z; msg_Value : Z;
  msg_Nonce : Z; msg_CheckNonce : bool; msg_Data : bytes }.

(** * Intrinsic gas *)

Definition nonZeroBytes (data : bytes) : Z := foldl (fun nz byt => if byt =? 0 then nz else u64 (nz + 1)) 0 data.

Definition IntrinsicGas (data : bytes) (contractCreation homestead : bool) : outcome vm_error Z :=
  let gas := if contractCreation && homestead then TxGasContractCreation else TxGas in
  if zlen data >? 0 then
    let nz := nonZeroBytes data in
    if u64 (MaxUint64 - gas) / TxDataNonZeroGas <? nz then Err ErrOutOfGas
    else
      let gas := u64 (gas + u64 (nz * TxDataNonZeroGas)) in
      let z := u64 (u64 (zlen data) - nz) in
      if u64 (MaxUint64 - gas) / TxDataZeroGas <? z then Err ErrOutOfGas
      else Ok (u64 (gas + u64 (z * TxDataZeroGas)))
  else Ok gas.

(** * The gas pool of a block *)

Definition AddGas {E} (amount gp : Z) : outcome E Z :=
  if gp >? u64 (MaxUint64 - amount) then Panic else Ok (u64 (gp + amount)).
Definition SubGas (amount gp : Z) : outcome tx_error Z :=
  if gp <? amount then Err ErrGasLimitReached else Ok (u64 (gp - amount)).

(** * The transition *)

Record StateTransition (DB : Type) := MkST { st_gp : Z; st_gas : Z; st_initialGas : Z; st_evm : EVM DB }.
Arguments MkST {DB}.
Arguments st_gp {DB}.
Arguments st_gas {DB}.
Arguments st_initialGas {DB}.
Arguments st_evm {DB}.

Section transition.
Context {DB : Type} `{HS : StateDB DB} (env : Env) (msg : Message).
Implicit Types st : StateTransition DB.

Definition st_state st : DB := evm_StateDB (st_evm st).
Definition st_with_state st (db : DB) : StateTransition DB := MkST (st_gp st) (st_gas st) (st_initialGas st) (set_StateDB (st_evm st) db).

Definition NewStateTransition (evm : EVM DB) (gp : Z) : StateTransition DB := MkST gp 0 0 evm.

Definition useGas (amount : Z) st : outcome vm_error (StateTransition DB) :=
  if st_gas st <? amount then Err ErrOutOfGas
  else Ok (MkST (st_gp st) (u64 (st_gas st - amount)) (st_initialGas st) (st_evm st)).

Definition buyGas st : outcome tx_error (StateTransition DB) :=
  let mgval := msg_Gas msg * msg_GasPrice msg in
  if GetBalance (st_state st) (msg_From msg) <? mgval then Err errInsufficientBalanceForGas
  else
    let! gp := SubGas (msg_Gas msg) (st_gp st) in
    let st := MkST gp (u64 (st_gas st + msg_Gas msg)) (msg_Gas msg) (st_evm st) in
    Ok (st_with_state st (SubBalance (msg_From msg) mgval (st_state st))).

Definition preCheck st : outcome tx_error (StateTransition DB) :=
  let nonce := GetNonce (st_state st) (msg_From msg) in
  if msg_CheckNonce msg && (nonce <? msg_Nonce msg) then Err ErrNonceTooHigh
  else if msg_CheckNonce msg && (nonce >? msg_Nonce msg) then Err ErrNonceTooLow
  else buyGas st.

Definition gasUsed st : Z := u64 (st_initialGas st - st_gas st).

Definition refundGas {E} st : outcome E (StateTransition DB) :=
  let refund := gasUsed st / 2 in
  let refund := if refund >? GetRefund (st_state st) then GetRefund (st_state st) else refund in
  let gas := u64 (st_gas st + refund) in
  let db := AddBalance (msg_From msg) (gas * msg_GasPrice msg) (st_state st) in
  let! gp := AddGas gas (st_gp st) in
  Ok (MkST gp gas (st_initialGas st) (set_StateDB (st_evm st) db)).

(** The creation or call itself. *)
Definition execute {E} (fuel : nat) st : outcome E (StateTransition DB * (bytes * option vm_error)) :=
  let sender := RefAccount (msg_From msg) in
  let run := Run env fuel in
  let r :=
    match msg_To msg with
    | None =>
        let! (evm, (_, r)) := Create env run sender (msg_Data msg) (st_gas st) (msg_Value msg) (st_evm st) in Ok (evm, r)
    | Some to =>
        let st := st_with_state st (SetNonce (msg_From msg) (u64 (GetNonce (st_state st) (msg_From msg) + 1)) (st_state st)) in
        Call env run sender to (msg_Data msg) (st_gas st) (msg_Value msg) (st_evm st)
    end in
  match r with
  | Ok (evm, (ret, gas, vmerr)) => Ok (MkST (st_gp st) gas (st_initialGas st) evm, (ret, vmerr))
  | Err e => match e with end
  | Panic => Panic
  | NoFuel => NoFuel
  end.

Definition isNone {A} (o : option A) : bool := match o with None => true | Some _ => false end.

(** The data returned, the gas used and whether the machine failed. *)
Definition TransitionDb (fuel : nat) st : outcome (tx_error * StateTransition DB) (StateTransition DB * (bytes * Z * bool)) :=
  match preCheck st with
  | Err e => Err (e, st)
  | Panic => Panic
  | NoFuel => NoFuel
  | Ok st =>
      match (let! gas := IntrinsicGas (msg_Data msg) (isNone (msg_To msg)) (e_IsHomestead env) in useGas gas st) with
      | Err e => Err (TxVm e, st)
      | Panic => Panic
      | NoFuel => NoFuel
      | Ok st =>
          let! (st, (ret, vmerr)) := execute fuel st in
          if bool_decide (vmerr = Some ErrInsufficientBalance) then Err (TxVm ErrInsufficientBalance, st)
          else
            let! st := refundGas st in
            let st := st_with_state st (AddBalance (Coinbase env) (gasUsed st * msg_GasPrice msg) (st_state st)) in
            Ok (st, (ret, gasUsed st, negb (isNone vmerr)))
      end
  end.
End transition.

Definition ApplyMessage {DB} `{StateDB DB} (env : Env) (fuel : nat) (evm : EVM DB) (msg : Message) (gp : Z) :
    outcome (tx_error * StateTransition DB) (StateTransition DB * (bytes * Z * bool)) :=
  TransitionDb env msg fuel (NewStateTransition evm gp).

(** * What intrinsic gas is *)

Definition nonzeros (data : bytes) : Z := zlen (filter (fun b => b <> 0) data).
Definition baseGas (contractCreation homestead : bool) : Z := if contractCreation && homestead then TxGasContractCreation else TxGas.

Lemma nonzeros_bound data : 0 <= nonzeros data <= zlen data.
Proof. unfold nonzeros, zlen. pose proof (length_filter (fun b => b <> 0) data). lia. Qed.

Lemma nonzeros_snoc data b : nonzeros (data ++ [b]) = nonzeros data + if b =? 0 then 0 else 1.
Proof.
  unfold nonzeros. rewrite filter_app, zlen_app. destruct (Z.eqb_spec b 0) as [->|Hb]; [rewrite filter_cons_False by lia|rewrite filter_cons_True by done]; by rewrite filter_nil.
Qed.

Lemma nonZeroBytes_spec data : zlen data < 2 ^ 64 -> nonZeroBytes data = nonzeros data.
Proof.
  unfold nonZeroBytes. induction data as [|b data IH] using rev_ind; [done|]. rewrite foldl_app, nonzeros_snoc, zlen_app. intros Hl. cbn in *. change (zlen [b]) with 1 in Hl.
  rewrite IH by lia. pose proof (nonzeros_bound data). destruct (b =? 0); [lia|]. apply u64_small. unfold is_u64. lia.
Qed.

(** The gas a transaction pays before anything runs is the base price plus 68 for every
    nonzero byte of data and 4 for every zero byte, and it is an error exactly when that
    number does not fit 64 bits: no intermediate computation wraps around. *)
Theorem intrinsic_gas data contractCreation homestead : zlen data < 2 ^ 64 ->
  let gas := baseGas contractCreation homestead + 68 * nonzeros data + 4 * (zlen data - nonzeros data) in
  IntrinsicGas data contractCreation homestead = if gas <=? MaxUint64 then Ok gas else Err ErrOutOfGas.
Proof.
  intros Hl gas. subst gas. pose proof (nonzeros_bound data) as Hn. unfold IntrinsicGas. fold (baseGas contractCreation homestead).
  assert (0 <= baseGas contractCreation homestead <= 53000) as Hb by (unfold baseGas, TxGasContractCreation, TxGas; destruct (_ && _); lia).
  set (base := baseGas _ _) in *. set (nz := nonzeros data) in *. rewrite Z.gtb_ltb. unfold MaxUint64 in *. destruct (Z.ltb_spec 0 (zlen data)).
  2:{ replace (base + 68 * nz + 4 * (zlen data - nz)) with base by lia. by rewrite (proj2 (Z.leb_le _ _)) by lia. }
  rewrite nonZeroBytes_spec by done. fold nz. unfold TxDataNonZeroGas, TxDataZeroGas. rewrite (u64_small (2 ^ 64 - 1 - base)) by (unfold is_u64; lia).
  destruct (Z.ltb_spec ((2 ^ 64 - 1 - base) / 68) nz) as [Hlt|Hge].
  { rewrite (proj2 (Z.leb_gt _ _)); [done|]. pose proof (Z.mul_succ_div_gt (2 ^ 64 - 1 - base) 68). lia. }
  pose proof (Z.mul_div_le (2 ^ 64 - 1 - base) 68 ltac:(lia)). assert (is_u64 (nz * 68) /\ is_u64 (base + nz * 68)) as [? ?] by (unfold is_u64; lia).
  rewrite (u64_small (nz * 68)), (u64_small (base + nz * 68)) by done. rewrite (u64_small (zlen data)) by (unfold is_u64; lia). rewrite (u64_small (zlen data - nz)) by (unfold is_u64; lia).
  rewrite u64_small by (unfold is_u64 in *; lia). destruct (Z.ltb_spec ((2 ^ 64 - 1 - (base + nz * 68)) / 4) (zlen data - nz)) as [Hlt|Hle].
  { rewrite (proj2 (Z.leb_gt _ _)); [done|]. pose proof (Z.mul_succ_div_gt (2 ^ 64 - 1 - (base + nz * 68)) 4). lia. }
  pose proof (Z.mul_div_le (2 ^ 64 - 1 - (base + nz * 68)) 4 ltac:(lia)). rewrite (proj2 (Z.leb_le _ _)) by lia.
  rewrite (u64_small ((zlen data - nz) * 4)), u64_small by (unfold is_u64; lia). f_equal. lia.
Qed.

Lemma intrinsic_gas_witness : IntrinsicGas [1; 0; 2] false true = Ok 21140.
Proof. rewrite (intrinsic_gas [1; 0; 2] false true ltac:(done)). reflexivity. Defined.

(** * Settling *)

(** [back] is returned to the sender and [fee] paid to the miner. *)
Definition paid (from miner : bytes) (back fee : Z) (w : World) : World :=
  let w := set_balance from (w_balance w from + back) w in set_balance miner (w_balance w miner + fee) w.

#[export] Instance paid_proper from miner back fee : Proper (same_accounts ==> same_accounts) (paid from miner back fee).
Proof.
  intros w w' Hw. unfold paid. cbv zeta. rewrite (sa_balance _ _ Hw from). assert (same_accounts (set_balance from (w_balance w' from + back) w) (set_balance from (w_balance w' from + back) w')) as H by by rewrite Hw.
  by rewrite (sa_balance _ _ H miner), H.
Qed.

(** Taking an advance and returning the rest is paying the difference. *)
Lemma paid_advance from miner nonce total fee w :
  same_accounts (paid from miner (total - fee) fee (set_nonce from nonce (set_balance from (w_balance w from - total) w)))
    (paid from miner (- fee) fee (set_nonce from nonce w)).
Proof. constructor; try done. intros a. cbn. unfold upd. repeat case_bool_decide; subst; try done; lia. Qed.

Section settling.
Context {DB : Type} `{HS : StateDB DB} (env : Env) {L : StateDBLaws DB (Keccak256 env)} (Henv : env_ok env) (msg : Message).
Implicit Types st : StateTransition DB.

Record msg_ok : Prop := {
  mo_from : digits_ok (msg_From msg);
  mo_to to : msg_To msg = Some to -> digits_ok to;
  mo_data : slice_ok (msg_Data msg);
  mo_gas : is_u64 (msg_Gas msg);
  mo_price : 0 <= msg_GasPrice msg;
  mo_value : 0 <= msg_Value msg }.

Context (Hmsg : msg_ok).

(** A transition in the outermost frame. *)
Record st_ok st : Prop := {
  to_evm : evm_ok env (st_evm st);
  to_mode : ~ static env (st_evm st);
  to_gas : is_u64 (st_gas st) }.

(** Changing the state from outside. *)
Lemma st_changes st db w : st_ok st -> evolves (st_state st) db w -> st_ok (st_with_state st db) /\ same_accounts (world (st_state (st_with_state st db))) w.
Proof.
  intros [He Hm Hg] (Hok & Hw & _). split; [|done]. constructor; [destruct He; by constructor|done|done].
Qed.

Definition advance : Z := msg_Gas msg * msg_GasPrice msg.

Lemma buyGas_ok st : st_ok st -> is_u64 (st_gp st) -> st_gas st = 0 ->
  match preCheck msg st with
  | Ok st' => st_ok st' /\ st_gp st' = st_gp st - msg_Gas msg /\ msg_Gas msg <= st_gp st /\ st_gas st' = msg_Gas msg /\ st_initialGas st' = msg_Gas msg /\
      evm_depth (st_evm st') = evm_depth (st_evm st) /\ 0 <= advance <= GetBalance (st_state st) (msg_From msg) /\
      same_accounts (world (st_state st')) (set_balance (msg_From msg) (GetBalance (st_state st) (msg_From msg) - advance) (world (st_state st)))
  | Err e => e <> TxVm ErrInsufficientBalance
  | _ => False
  end.
Proof using Hmsg.
  intros Hst Hgp H0. destruct (mo_gas Hmsg), Hgp. pose proof (mo_price Hmsg). unfold preCheck. destruct (_ && _); [done|]. destruct (_ && _); [done|]. unfold buyGas. fold advance.
  destruct (Z.ltb_spec (GetBalance (st_state st) (msg_From msg)) advance); [done|]. unfold SubGas. destruct (Z.ltb_spec (st_gp st) (msg_Gas msg)); [done|]. cbn [outcome_bind].
  rewrite H0, Z.add_0_l, !u64_small by (unfold is_u64; lia). set (st1 := MkST _ _ _ _). assert (st_ok st1) as Hst1 by (destruct Hst; by constructor).
  assert (0 <= advance <= GetBalance (st_state st1) (msg_From msg)) as Hadv by (split; [unfold advance; nia|done]).
  destruct (st_changes st1 _ _ Hst1 (SubBalance_ok (st_state st1) (msg_From msg) advance (eo_db _ _ (to_evm _ Hst1)) Hadv)) as [Hok Hw].
  destruct Hadv. by split_and!.
Qed.

(** What the machine leaves of the world when it fails: only the nonce is advanced.  Before
    Homestead a creation could keep more. *)
Definition reverts_all : Prop := msg_To msg <> None \/ e_IsHomestead env = true.

(** The nonce of the sender advanced, and what is left when the machine answers that the money for
    the value is not there: a call has advanced the nonce by then, a creation has only where its
    own look at the balance found the money. *)
Definition advanced (w : World) : World := set_nonce (msg_From msg) (u64 (w_nonce w (msg_From msg) + 1)) w.
Definition refused (w : World) : World :=
  match msg_To msg with
  | Some _ => advanced w
  | None => if msg_Value msg <=? w_balance w (msg_From msg) then advanced w else w
  end.

Lemma refused_same w w' : same_accounts w w' -> same_accounts (refused w) (refused w').
Proof using Type.
  intros Hw. unfold refused, advanced. rewrite (sa_balance _ _ Hw), (sa_nonce _ _ Hw). assert (forall n, same_accounts (set_nonce (msg_From msg) n w) (set_nonce (msg_From msg) n w')) as Hn by (intros n; by rewrite Hw).
  destruct (msg_To msg); [apply Hn|]. by destruct (_ <=? _).
Qed.

Lemma Call_advanced fuel to st : msg_To msg = Some to -> st_ok st -> st_gas st < Z.of_nat fuel ->
  exists st' ret vmerr, execute (E := tx_error * StateTransition DB) env msg fuel st = Ok (st', (ret, vmerr)) /\ st_ok st' /\ 0 <= st_gas st' <= st_gas st /\
    st_gp st' = st_gp st /\ st_initialGas st' = st_initialGas st /\ no_mint (world (st_state st)) (world (st_state st')) /\
    (vmerr <> None -> same_accounts (world (st_state st')) (set_nonce (msg_From msg) (u64 (GetNonce (st_state st) (msg_From msg) + 1)) (world (st_state st)))).
Proof using Henv Hmsg.
  intros Hto Hst Hf. unfold execute. rewrite Hto. cbv zeta.
  destruct (st_changes st _ _ Hst (SetNonce_ok (st_state st) (msg_From msg) _ (eo_db _ _ (to_evm _ Hst)) (u64_range (GetNonce (st_state st) (msg_From msg) + 1)))) as [H1 Hw1].
  set (st1 := st_with_state st _) in *. pose proof H1 as [He Hm Hg].
  destruct (Call_ok env Henv (Z.of_nat fuel) (Run env fuel) (Run_ok env Henv fuel) (RefAccount (msg_From msg)) to (msg_Data msg) (st_gas st1) (msg_Value msg) (st_evm st1))
    as (e' & ret & left & err & -> & Hs & Hr & Hl & Hw); try apply Hmsg; try done; [by split; [apply Hmsg|]|].
  change (st_gas st1) with (st_gas st) in Hl. eexists _, _, _. split; [done|]. destruct Hs as [Hok _ Hro _ _ Hfu]. cbn [st_gas st_gp st_initialGas]. split_and!; try lia; try done.
  - constructor; [done| |]; cbn; [unfold static in *; by rewrite Hro|]. destruct Hg. unfold is_u64. cbn in *. lia.
  - eapply no_mint_trans; [|exact Hfu]. apply no_mint_le. intros a. by rewrite (sa_balance _ _ Hw1).
  - intros Hne. etrans; [apply world_eq_same, Hw, Hne|exact Hw1].
Qed.

Lemma Create_advanced fuel st : msg_To msg = None -> st_ok st -> st_gas st < Z.of_nat fuel ->
  exists st' ret vmerr, execute (E := tx_error * StateTransition DB) env msg fuel st = Ok (st', (ret, vmerr)) /\ st_ok st' /\ 0 <= st_gas st' <= st_gas st /\
    st_gp st' = st_gp st /\ st_initialGas st' = st_initialGas st /\ no_mint (world (st_state st)) (world (st_state st')) /\
    (vmerr <> None -> vmerr <> Some ErrInsufficientBalance -> e_IsHomestead env = true -> evm_depth (st_evm st) <= CallCreateDepth ->
      same_accounts (world (st_state st')) (set_nonce (msg_From msg) (u64 (GetNonce (st_state st) (msg_From msg) + 1)) (world (st_state st)))) /\
    (vmerr = Some ErrInsufficientBalance -> same_accounts (world (st_state st')) (refused (world (st_state st)))).
Proof using Henv Hmsg.
  intros Hto Hst Hf. unfold execute. rewrite Hto. cbv zeta. pose proof Hst as [He Hm Hg].
  pose proof (fun H => Create_ok env Henv (Z.of_nat fuel) (Run env fuel) (Run_ok env Henv fuel) (RefAccount (msg_From msg)) (msg_Data msg) (st_gas st) (msg_Value msg) (st_evm st)
    H He (mo_data Hmsg) Hg Hf (mo_value Hmsg) Hm) as Hc. destruct Hc as (e' & addr & ret & left & err & E & Hs & _ & _ & Hl & Hu); [by split; [apply Hmsg|]|].
  rewrite E. cbn [outcome_bind]. eexists _, _, _. split; [done|]. destruct Hs as [Hok _ Hro _ _ Hfu]. cbn [st_gas st_gp st_initialGas]. split_and!; try lia; try done.
  - constructor; [done| |]; cbn; [unfold static in *; by rewrite Hro|]. destruct Hg. unfold is_u64. lia.
  - intros Hne Hnb Hh Hd. specialize (Hu (conj Hne (or_introl Hh))). unfold create_undone in Hu. rewrite (proj2 (Z.leb_le _ _) Hd) in Hu.
    cbn [ref_Address andb] in Hu. destruct (Z.leb_spec (msg_Value msg) (GetBalance (evm_StateDB (st_evm st)) (msg_From msg))); [done|].
    destruct Hnb. unfold Create in E. rewrite Z.gtb_ltb, (proj2 (Z.ltb_ge _ _) Hd) in E. unfold CanTransfer in E. cbn [ref_Address] in E.
    rewrite Z.geb_leb, (proj2 (Z.leb_gt _ _)) in E by done. by injection E.
  - intros ->. assert (undone env (Some ErrInsufficientBalance)) as Hun by (split; [done|by right]). specialize (Hu Hun). unfold create_undone in Hu. unfold refused, advanced. rewrite Hto. cbn [ref_Address w_balance w_nonce world] in *.
    destruct (Z.leb_spec (evm_depth (st_evm st)) CallCreateDepth) as [Hd|Hd]; [by destruct (_ <=? _)|]. unfold Create in E. rewrite Z.gtb_ltb, (proj2 (Z.ltb_lt _ _) Hd) in E. by injection E.
Qed.

Lemma execute_ok fuel st : st_ok st -> st_gas st < Z.of_nat fuel ->
  exists st' ret vmerr, execute (E := tx_error * StateTransition DB) env msg fuel st = Ok (st', (ret, vmerr)) /\ st_ok st' /\ 0 <= st_gas st' <= st_gas st /\
    st_gp st' = st_gp st /\ st_initialGas st' = st_initialGas st /\ no_mint (world (st_state st)) (world (st_state st')) /\
    (vmerr <> None -> vmerr <> Some ErrInsufficientBalance -> reverts_all -> evm_depth (st_evm st) <= CallCreateDepth ->
      same_accounts (world (st_state st')) (set_nonce (msg_From msg) (u64 (GetNonce (st_state st) (msg_From msg) + 1)) (world (st_state st)))) /\
    (vmerr = Some ErrInsufficientBalance -> same_accounts (world (st_state st')) (refused (world (st_state st)))).
Proof using Henv Hmsg.
  intros Hst Hf. destruct (msg_To msg) as [to|] eqn:Hto.
  - destruct (Call_advanced fuel to st Hto Hst Hf) as (st' & ret & err & ? & ? & ? & ? & ? & ? & Hr). exists st', ret, err. do 6 (split; [done|]). split; [auto|]. unfold refused. rewrite Hto. intros ->. by apply Hr.
  - destruct (Create_advanced fuel st Hto Hst Hf) as (st' & ret & err & ? & ? & ? & ? & ? & ? & ? & ?). exists st', ret, err. do 6 (split; [done|]).
    split; [|done]. intros ? ? [|]; [done|]. auto.
Qed.

(** Refund and payment. *)
Lemma settle_ok st : st_ok st -> is_u64 (st_initialGas st) -> st_gas st <= st_initialGas st -> 0 <= st_gp st -> st_gp st + st_initialGas st <= MaxUint64 ->
  let spent := st_initialGas st - st_gas st in
  let used := spent - Z.min (spent / 2) (GetRefund (st_state st)) in
  exists st', refundGas (E := tx_error * StateTransition DB) msg st = Ok st' /\ gasUsed st' = used /\ 0 <= used <= spent /\
    let st'' := st_with_state st' (AddBalance (Coinbase env) (gasUsed st' * msg_GasPrice msg) (st_state st')) in
    st_ok st'' /\ st_gp st'' = st_gp st + st_initialGas st - used /\
    same_accounts (world (st_state st'')) (paid (msg_From msg) (Coinbase env) ((st_initialGas st - used) * msg_GasPrice msg) (used * msg_GasPrice msg) (world (st_state st))).
Proof using Hmsg.
  intros Hst [Hi1 Hi2] Hle Hgp Hmax spent used. pose proof Hst as [He Hm [Hg1 Hg2]]. pose proof (mo_price Hmsg) as Hp. destruct (GetRefund_ok _ (eo_db _ _ He)) as [Hr1 Hr2].
  unfold MaxUint64 in *. assert (gasUsed st = spent) as Hu by (apply u64_small; unfold is_u64; lia).
  pose proof (Z.div_pos spent 2 ltac:(lia) ltac:(lia)) as Hd1. pose proof (Z.mul_div_le spent 2 ltac:(lia)) as Hd2.
  unfold refundGas. rewrite Hu. change (st_state st) with (evm_StateDB (st_evm st)) in *. set (R := Z.min (spent / 2) (GetRefund (evm_StateDB (st_evm st)))) in *.
  replace (if spent / 2 >? GetRefund (evm_StateDB (st_evm st)) then GetRefund (evm_StateDB (st_evm st)) else spent / 2) with R
    by (rewrite Z.gtb_ltb; destruct (Z.ltb_spec (GetRefund (evm_StateDB (st_evm st))) (spent / 2)); lia).
  cbv zeta. rewrite (u64_small (st_gas st + R)) by (unfold is_u64; lia). unfold AddGas. rewrite (u64_small (MaxUint64 - _)) by (unfold is_u64, MaxUint64; lia).
  rewrite Z.gtb_ltb, (proj2 (Z.ltb_ge _ _)) by (unfold MaxUint64; lia). cbn [outcome_bind]. rewrite u64_small by (unfold is_u64; lia). eexists. split; [done|].
  set (st1 := MkST _ _ _ _). assert (gasUsed st1 = used) as -> by (unfold gasUsed; cbn; rewrite u64_small; [lia|unfold is_u64; lia]). split; [done|]. split; [lia|].
  assert (AddBalance_at : forall a x st, st_ok st -> 0 <= x -> st_ok (st_with_state st (AddBalance a x (st_state st))) /\
    same_accounts (world (st_state (st_with_state st (AddBalance a x (st_state st))))) (set_balance a (w_balance (world (st_state st)) a + x) (world (st_state st)))).
  { intros a x st0 H0 Hx. apply st_changes; [done|]. by apply AddBalance_ok; [apply H0|]. }
  destruct (AddBalance_at (msg_From msg) ((st_gas st + R) * msg_GasPrice msg) st Hst ltac:(nia)) as [Hok1 Hw1].
  assert (st_ok st1) as Hst1 by (destruct Hok1; constructor; [done|done|unfold is_u64; cbn; lia]).
  destruct (AddBalance_at (Coinbase env) (used * msg_GasPrice msg) st1 Hst1 ltac:(nia)) as [Hok2 Hw2]. split; [done|]. split; [cbn; lia|].
  etrans; [exact Hw2|]. unfold paid. cbv zeta. replace (st_initialGas st - used) with (st_gas st + R) by lia. change (st_state st1) with (st_state (st_with_state st (AddBalance (msg_From msg) ((st_gas st + R) * msg_GasPrice msg) (st_state st)))).
  by rewrite (sa_balance _ _ Hw1), Hw1.
Qed.

(** What a message does, from the transition [st2] that has bought and paid gas over the
    execution to the end. *)
Record settles (fuel : nat) (e : EVM DB) (gp : Z) (st' : StateTransition DB) (ret : bytes) (used : Z) (failed : bool)
    (igas : Z) (st2 st3 : StateTransition DB) (vmerr : option vm_error) : Prop := {
  sl_intrinsic : IntrinsicGas (msg_Data msg) (isNone (msg_To msg)) (e_IsHomestead env) = Ok igas;
  sl_before : st_gas st2 = msg_Gas msg - igas /\ evm_depth (st_evm st2) = evm_depth e /\
    same_accounts (world (st_state st2)) (set_balance (msg_From msg) (GetBalance (evm_StateDB e) (msg_From msg) - advance) (world (evm_StateDB e)));
  sl_executed : execute (E := tx_error * StateTransition DB) env msg fuel st2 = Ok (st3, (ret, vmerr)) /\ 0 <= st_gas st3 <= st_gas st2;
  sl_failed : failed = negb (isNone vmerr) /\ vmerr <> Some ErrInsufficientBalance;
  sl_reverted : vmerr <> None -> reverts_all -> evm_depth e <= CallCreateDepth ->
    same_accounts (world (st_state st3)) (set_nonce (msg_From msg) (u64 (GetNonce (st_state st2) (msg_From msg) + 1)) (world (st_state st2)));
  sl_used : used = (msg_Gas msg - st_gas st3) - Z.min ((msg_Gas msg - st_gas st3) / 2) (GetRefund (st_state st3));
  sl_bounds : igas <= 2 * used /\ 0 <= used <= msg_Gas msg /\ st_gp st' = gp - used;
  sl_after : evm_ok env (st_evm st') /\
    same_accounts (world (st_state st'))
      (paid (msg_From msg) (Coinbase env) ((msg_Gas msg - used) * msg_GasPrice msg) (used * msg_GasPrice msg) (world (st_state st3)));
  sl_funds : no_mint (world (evm_StateDB e)) (world (st_state st'));
  sl_pool : msg_Gas msg <= gp }.

(** What an invalid message leaves: nothing has happened, or the gas has been bought, of the
    sender and of the block, and nothing else, but that a call whose value is not there has
    advanced the nonce. *)
Definition bought (w : World) : World := set_balance (msg_From msg) (w_balance w (msg_From msg) - advance) w.
Definition rejected (e : EVM DB) (gp : Z) (err : tx_error) st' : Prop :=
  match err with
  | TxVm err =>
      evm_ok env (st_evm st') /\ st_gp st' = gp - msg_Gas msg /\ advance <= GetBalance (evm_StateDB e) (msg_From msg) /\
      (err = ErrOutOfGas /\ same_accounts (world (st_state st')) (bought (world (evm_StateDB e))) \/
       err = ErrInsufficientBalance /\ same_accounts (world (st_state st')) (refused (bought (world (evm_StateDB e)))))
  | _ => st' = NewStateTransition e gp
  end /\
  no_mint (world (evm_StateDB e)) (world (st_state st')).

(** Buying the gas, executing and paying it back moves money and makes none. *)
Lemma paid_mints_nothing a b adv back fee w0 w1 w2 : 0 <= back -> 0 <= fee -> adv = back + fee -> adv <= w_balance w0 a ->
  same_accounts w1 (set_balance a (w_balance w0 a - adv) w0) -> no_mint w1 w2 -> no_mint w0 (paid a b back fee w2).
Proof.
  intros Hb Hc Ha Hle Hw Hm M Hf. replace M with (M - adv + back + fee) by lia. unfold paid. apply (funds_add _ b); [|done]. apply funds_add; [|done].
  apply Hm, (no_mint_same _ _ (symmetry Hw)), funds_sub; [done|lia].
Qed.

Lemma bought_mints_nothing a adv w0 w1 : 0 <= adv <= w_balance w0 a -> same_accounts w1 (set_balance a (w_balance w0 a - adv) w0) -> no_mint w0 w1.
Proof. intros Ha Hw. apply no_mint_le. intros b. rewrite (sa_balance _ _ Hw). cbn. unfold upd. case_bool_decide; subst; lia. Qed.

Lemma intrinsic_bound data cc hs : match IntrinsicGas data cc hs with Ok igas => is_u64 igas | Err e => e = ErrOutOfGas | _ => False end.
Proof.
  unfold IntrinsicGas. destruct (zlen data >? 0); [|destruct (_ && _); by unfold is_u64, TxGas, TxGasContractCreation].
  cbv zeta. destruct (_ <? nonZeroBytes data); [done|]. destruct (_ / TxDataZeroGas <? _); [done|]. apply u64_range.
Qed.

Lemma ApplyMessage_ok fuel e gp : evm_ok env e -> ~ static env e -> is_u64 gp -> msg_Gas msg < Z.of_nat fuel ->
  match ApplyMessage env fuel e msg gp with
  | Ok (st', (ret, used, failed)) => exists igas st2 st3 vmerr, settles fuel e gp st' ret used failed igas st2 st3 vmerr
  | Err (err, st') => rejected e gp err st'
  | _ => False
  end.
Proof using Henv Hmsg.
  intros He Hm Hgp Hf. unfold ApplyMessage, TransitionDb. set (st := NewStateTransition e gp). assert (st_ok st) as Hst by (constructor; [done|done|by unfold is_u64]).
  pose proof (buyGas_ok st Hst Hgp eq_refl) as Hb. unfold preCheck in *. destruct (_ && _); [done|]. destruct (_ && _); [done|]. unfold buyGas in *. fold advance in *.
  destruct (_ <? advance); [done|]. destruct (SubGas _ _) as [gp'|err| |] eqn:Esub; cbn [outcome_bind] in *; try done.
  2:{ unfold SubGas in Esub. by destruct (_ <? _); simplify_eq. }
  set (st1 := st_with_state _ _) in *. destruct Hb as (Hst1 & Hgp1 & Hle & Hg1 & Hi1 & Hd1 & Hadv & Hw1).
  assert (no_mint (world (evm_StateDB e)) (world (st_state st1))) as Hbuy by (apply bought_mints_nothing with (1 := Hadv); done). destruct Hgp as [Hgp0 Hgp2], (mo_gas Hmsg) as [Hmg0 Hmg].
  pose proof (intrinsic_bound (msg_Data msg) (isNone (msg_To msg)) (e_IsHomestead env)) as Hib.
  destruct (IntrinsicGas _ _ _) as [igas|err| |] eqn:Ei; cbn [outcome_bind]; [|subst err; by split; [split_and!; [apply Hst1|done|apply Hadv|by left]|]|done..].
  destruct Hib as [Hig Hig2]. unfold useGas. destruct (Z.ltb_spec (st_gas st1) igas) as [Hlt|Hge]; [by split; [split_and!; [apply Hst1|done|apply Hadv|by left]|]|].
  set (st2 := MkST _ _ _ _). assert (st_gas st2 = msg_Gas msg - igas) as Hg2 by (cbn [st_gas st2]; rewrite Hg1; apply u64_small; unfold is_u64; lia).
  assert (st_ok st2) as Hst2 by (destruct Hst1; constructor; [done|done|rewrite Hg2; unfold is_u64; lia]).
  destruct (execute_ok fuel st2 Hst2 ltac:(lia)) as (st3 & ret & vmerr & Ex & Hst3 & Hg3 & Hgp3 & Hi3 & Hmint & Hrv & Href). rewrite Ex. cbn [outcome_bind].
  change (st_gp st2) with (st_gp st1) in Hgp3. change (st_initialGas st2) with (st_initialGas st1) in Hi3. change (st_gp st) with gp in *.
  case_bool_decide as Hnb; [split; [split_and!; [apply Hst3|congruence|apply Hadv|right]|by eapply no_mint_trans]|].
  { split; [done|]. etrans; [by apply Href|]. apply refused_same, Hw1. }
 
  destruct (settle_ok st3 Hst3) as (st4 & Er & Hu & Hub & Hok & Hgp5 & Hw5); [rewrite Hi3, Hi1; split; lia|lia|lia|unfold MaxUint64; lia|]. rewrite Er. cbn [outcome_bind].
  rewrite Hu in *. rewrite Hi3, Hi1 in *. cbv zeta in *. set (used := msg_Gas msg - st_gas st3 - Z.min ((msg_Gas msg - st_gas st3) / 2) (GetRefund (st_state st3))) in *.
  change (gasUsed (st_with_state st4 _)) with (gasUsed st4). rewrite Hu. exists igas, st2, st3, vmerr. constructor; try done.
  - intros. apply Hrv; done.
  - split; [|split; [lia|]]; [|rewrite Hgp5; lia]. pose proof (Z.mul_div_le (msg_Gas msg - st_gas st3) 2 ltac:(lia)). lia.
  - split; [apply Hok|done].
  - eapply no_mint_trans; [|apply (no_mint_same _ _ (symmetry Hw5))]. apply paid_mints_nothing with (4 := proj2 Hadv) (5 := Hw1) (6 := Hmint); [apply Z.mul_nonneg_nonneg; [lia|apply Hmsg]..|unfold advance; lia].
Qed.

(** C6. Applying a message to a well-formed state always returns.  A message with a wrong
    nonce, without the money for its gas, or over the gas limit of the block changes nothing;
    one whose gas does not cover its data has its gas bought, and nothing else changes; one whose
    value is not there has its gas bought and, if it is a call, the nonce of its sender
    advanced, and nothing else changes.  Otherwise the machine runs on what is left of the gas; at most half of
    what was used is refunded, the sender gets back what was not used, the miner gets the
    price of the rest, and the gas pool of the block shrinks by exactly the gas used. *)
Theorem transition_settles fuel e gp : evm_ok env e -> ~ static env e -> is_u64 gp -> msg_Gas msg < Z.of_nat fuel ->
  match ApplyMessage env fuel e msg gp with
  | Ok (st', (ret, used, failed)) => exists igas st2 st3 vmerr, settles fuel e gp st' ret used failed igas st2 st3 vmerr
  | Err (err, st') => rejected e gp err st'
  | _ => False
  end.
Proof using Henv Hmsg. apply ApplyMessage_ok. Qed.

(** C23. A transaction that fails in the machine has the price of its gas moved from the sender to
    the miner and the nonce of the sender advanced, and changes nothing else: no other
    balance, nonce, code, storage, suicide mark or refund.  This holds of calls and, from
    Homestead on, of creations, where the machine is not nested too deeply to begin with;
    before Homestead a creation that cannot pay for storing its code keeps what it did. *)
Theorem failed_transaction_pays fuel e gp st' ret used : evm_ok env e -> ~ static env e -> is_u64 gp -> msg_Gas msg < Z.of_nat fuel ->
  evm_depth e <= CallCreateDepth -> reverts_all ->
  ApplyMessage env fuel e msg gp = Ok (st', (ret, used, true)) ->
  same_accounts (world (st_state st'))
    (paid (msg_From msg) (Coinbase env) (- (used * msg_GasPrice msg)) (used * msg_GasPrice msg)
      (set_nonce (msg_From msg) (u64 (GetNonce (evm_StateDB e) (msg_From msg) + 1)) (world (evm_StateDB e)))).
Proof using Henv Hmsg.
  intros He Hm Hgp Hf Hd Hall E. pose proof (ApplyMessage_ok fuel e gp He Hm Hgp Hf) as H. rewrite E in H. destruct H as (igas & st2 & st3 & vmerr & [S1 (_ & Hd2 & S2) S3 [S4 _] S5 S6 S7 [_ S8]]).
  assert (vmerr <> None) as Hne by (intros ->; done). specialize (S5 Hne Hall Hd). pose proof (sa_nonce _ _ S2 (msg_From msg)) as Hn. cbn in Hn. rewrite S2, Hn in S5.
  rewrite S8, S5. rewrite Z.mul_sub_distr_r.
  exact (paid_advance _ _ _ advance (used * msg_GasPrice msg) (world (evm_StateDB e))).
Qed.
(** C7. Money is never made by a message: whatever the machine ran, with its calls, creations,
    transfers and suicides, and whether it succeeded, failed or was rejected, no set of
    accounts holds more after it than all the accounts could hold before it, the payment
    for the gas included. *)
Theorem supply_conserved fuel e gp : evm_ok env e -> ~ static env e -> is_u64 gp -> msg_Gas msg < Z.of_nat fuel ->
  match ApplyMessage env fuel e msg gp with
  | Ok (st', _) | Err (_, st') => forall M, funds (world (evm_StateDB e)) M -> funds (world (st_state st')) M
  | _ => False
  end.
Proof using Henv Hmsg.
  intros He Hm Hgp Hf. pose proof (ApplyMessage_ok fuel e gp He Hm Hgp Hf) as H. destruct (ApplyMessage _ _ _ _ _) as [[st' [[ret used] failed]]|[err st']| |]; [|apply H|done..].
  destruct H as (igas & st2 & st3 & vmerr & H). apply H.
Qed.
End settling.

(** * Examples *)

Module TxSample.
(** A user with money for gas calls the contract with too little gas for what it stores. *)
Definition richEVM : EVM (SDB (gmap bytes bytes)) := set_StateDB sampleEVM (AddBalance user 100000 sampleState).
Definition sampleMsg : Message := MkMessage user (Some contract) 1 21100 0 0 true [].
Definition sampleFuel : nat := Z.to_nat 21101.

Lemma user_digits : digits_ok user.
Proof. apply digits_ok_app; [apply digits_ok_zeros|]. by constructor. Qed.

Lemma sampleMsg_ok : msg_ok sampleMsg.
Proof.
  constructor; try done; [apply user_digits| |apply slice_ok_nil]. intros to [= <-]. apply digits_ok_app; [apply digits_ok_zeros|]. by constructor.
Qed.

Lemma richEVM_ok : evm_ok sampleEnv richEVM.
Proof.
  destruct sampleEVM_ok. constructor; try done. apply (AddBalance_ok sampleState user 100000); [apply sampleState_ok|lia].
Qed.

Lemma rich_mode : ~ static sampleEnv richEVM.
Proof. by intros []. Qed.
Lemma sample_fuel : msg_Gas sampleMsg < Z.of_nat sampleFuel.
Proof. unfold sampleFuel. rewrite Z2Nat.id by lia. done. Qed.
Lemma sample_pool : is_u64 30000.
Proof. done. Qed.
Lemma sample_depth : evm_depth richEVM <= CallCreateDepth.
Proof. done. Qed.
Lemma sample_call : reverts_all sampleEnv sampleMsg.
Proof. by left. Qed.

Lemma transition_settles_witness :
  match ApplyMessage sampleEnv sampleFuel richEVM sampleMsg 30000 with
  | Ok (st', (ret, used, failed)) => exists igas st2 st3 vmerr, settles sampleEnv sampleMsg sampleFuel richEVM 30000 st' ret used failed igas st2 st3 vmerr
  | Err (err, st') => rejected sampleEnv sampleMsg richEVM 30000 err st'
  | _ => False
  end.
Proof. exact (transition_settles sampleEnv sampleEnv_ok sampleMsg sampleMsg_ok sampleFuel richEVM 30000 richEVM_ok rich_mode sample_pool sample_fuel). Defined.

Lemma supply_conserved_witness :
  match ApplyMessage sampleEnv sampleFuel richEVM sampleMsg 30000 with
  | Ok (st', _) | Err (_, st') => forall M, funds (world (evm_StateDB richEVM)) M -> funds (world (st_state st')) M
  | _ => False
  end.
Proof. exact (supply_conserved sampleEnv sampleEnv_ok sampleMsg sampleMsg_ok sampleFuel richEVM 30000 richEVM_ok rich_mode sample_pool sample_fuel). Defined.

Definition fails {A B C E} (r : outcome E (A * (B * C * bool))) : bool := match r with Ok (_, (_, b)) => b | _ => false end.
Lemma sample_fails : fails (ApplyMessage sampleEnv sampleFuel richEVM sampleMsg 30000) = true.
Proof. vm_compute. reflexivity. Qed.

Lemma fails_ok {A B C E} (r : outcome E (A * (B * C * bool))) : fails r = true -> exists a b c, r = Ok (a, (b, c, true)).
Proof. destruct r as [[a [[b c] []]]| | |]; cbn; intros H; try discriminate H. by exists a, b, c. Qed.

Lemma failed_transaction_pays_witness : exists st' ret used,
  ApplyMessage sampleEnv sampleFuel richEVM sampleMsg 30000 = Ok (st', (ret, used, true)) /\
  same_accounts (world (st_state st'))
    (paid user (Coinbase sampleEnv) (- (used * 1)) (used * 1) (set_nonce user (u64 (GetNonce (evm_StateDB richEVM) user + 1)) (world (evm_StateDB richEVM)))).
Proof.
  destruct (fails_ok _ sample_fails) as (st' & ret & used & E). exists st', ret, used. split; [exact E|].
  exact (failed_transaction_pays sampleEnv sampleEnv_ok sampleMsg sampleMsg_ok sampleFuel richEVM 30000 st' ret used
    richEVM_ok rich_mode sample_pool sample_fuel sample_depth sample_call E).
Defined.
End TxSample.
