(* ===== verification/Types.v ===== *)
(** Headers, receipts and bloom filters ([src/core/types/block.go], [receipt.go],
    [bloom9.go]).  The hash function is a parameter. *)

From stdpp Require Import base numbers list.
From S2P Require Import Prelude.
From S2P Require Import CommonMath.
From S2P Require Import RlpEncode.
From S2P Require Import VmState.
From S2P Require Import State.
Local Open Scope Z_scope.
Local Open Scope go_scope.

(** * block.go *)

Record Header := MkHeader {
  h_ParentHash : bytes; h_UncleHash : bytes; h_Coinbase : bytes; h_Root : bytes; h_TxHash : bytes; h_ReceiptHash : bytes;
  h_Bloom : bytes; h_Difficulty : Z; h_Number : Z; h_GasLimit : Z; h_GasUsed : Z; h_Time : Z; h_Extra : bytes;
  h_MixDigest : bytes; h_Nonce : bytes }.

(** The fields that are sealed. *)
Definition header_body (h : Header) : list rval :=
  [RByteArray (h_ParentHash h); RByteArray (h_UncleHash h); RByteArray (h_Coinbase h); RByteArray (h_Root h); RByteArray (h_TxHash h);
   RByteArray (h_ReceiptHash h); RByteArray (h_Bloom h); RBigIntPtr (Some (h_Difficulty h)); RBigIntPtr (Some (h_Number h)); RUint (h_GasLimit h);
   RUint (h_GasUsed h); RBigIntPtr (Some (h_Time h)); RBytes (h_Extra h)].
Definition header_rval (h : Header) : rval := RPtr (RStruct (header_body h ++ [RByteArray (h_MixDigest h); RByteArray (h_Nonce h)])).

(** A block: its header and uncles; transactions are elsewhere. *)
Record Block := MkBlock { b_header : Header; b_uncles : list Header }.

Section hashes.
Context (sha : bytes -> bytes).

(** Nothing is written when encoding fails. *)
Definition rlpHash (v : rval) : bytes := sha match Encode (EncBuf [] [] 0) v with Ok b => b | _ => [] end.
Definition Header_Hash (h : Header) : bytes := rlpHash (header_rval h).
Definition HashNoNonce (h : Header) : bytes := rlpHash (RSlice false (map (fun v => RInterface (Some v)) (header_body h))).
Definition CalcUncleHash (uncles : list Header) : bytes := rlpHash (RSlice false (map header_rval uncles)).
Definition EmptyUncleHash : bytes := CalcUncleHash [].
Definition Block_Hash (b : Block) : bytes := Header_Hash (b_header b).

(** * bloom9.go *)

Definition BloomByteLength : Z := 256.

(** [BytesToBloom]: into a zero array. *)
Definition BytesToBloom (b : bytes) : outcome Empty_set bytes :=
  if BloomByteLength <? zlen b then Panic else Ok (replicate (Z.to_nat (BloomByteLength - zlen b)) 0 ++ b).

(** Bits [i] of the filter: eleven bits of each of the first three pairs of bytes. *)
Definition bloomBit (b : bytes) (i : nat) : outcome Empty_set Z :=
  let! lo := must (b !! (i + 1)%nat) in
  let! hi := must (b !! i) in
  Ok (Z.land (u64 (lo + u64 (Z.shiftl hi 8))) 2047).

Definition bloom9 (b : bytes) : outcome Empty_set Z :=
  let b := sha b in
  let! b0 := bloomBit b 0 in
  let! b1 := bloomBit b 2 in
  let! b2 := bloomBit b 4 in
  Ok (Z.lor (Z.lor (Z.lor 0 (Z.shiftl 1 b0)) (Z.shiftl 1 b1)) (Z.shiftl 1 b2)).

Fixpoint bloomAll (bs : list bytes) (bin : Z) : outcome Empty_set Z :=
  match bs with
  | [] => Ok bin
  | b :: bs => let! r := bloom9 b in bloomAll bs (Z.lor bin r)
  end.

Fixpoint LogsBloom_loop (logs : list Log) (bin : Z) : outcome Empty_set Z :=
  match logs with
  | [] => Ok bin
  | log :: logs => let! bin := bloomAll (l_Address log :: l_Topics log) bin in LogsBloom_loop logs bin
  end.
Definition LogsBloom (logs : list Log) : outcome Empty_set Z := LogsBloom_loop logs 0.

(** [CreateBloom], of the logs of each receipt. *)
Fixpoint CreateBloom_loop (receipts : list (list Log)) (bin : Z) : outcome Empty_set Z :=
  match receipts with
  | [] => Ok bin
  | logs :: receipts => let! r := LogsBloom logs in CreateBloom_loop receipts (Z.lor bin r)
  end.
Definition CreateBloom (receipts : list (list Log)) : outcome Empty_set bytes :=
  let! bin := CreateBloom_loop receipts 0 in BytesToBloom (big_bytes bin).

Definition BloomLookup (bin topic : bytes) : outcome Empty_set bool :=
  let bloom := be_val bin in
  let! cmp := bloom9 topic in
  Ok (Z.land bloom cmp =? cmp).

(** [Bloom.Add] and [Bloom.Test] take numbers, whose bytes have no leading zeros. *)
Definition Bloom_Add (d : Z) (b : bytes) : outcome Empty_set bytes :=
  let! r := bloom9 (big_bytes d) in
  let bin := big_bytes (Z.lor (be_val b) r) in
  if zlen b <? zlen bin then Panic else Ok (take (length b - length bin) b ++ bin).
Definition Bloom_Test (test : Z) (b : bytes) : outcome Empty_set bool := BloomLookup b (big_bytes test).
Definition Bloom_TestBytes (test : bytes) (b : bytes) : outcome Empty_set bool := Bloom_Test (be_val test) b.
End hashes.

(** * receipt.go *)

Record Receipt := MkReceipt {
  rc_PostState : bytes; rc_Status : Z; rc_CumulativeGasUsed : Z; rc_Bloom : bytes; rc_Logs : list StateLog;
  rc_TxHash : bytes; rc_ContractAddress : bytes; rc_GasUsed : Z }.

Definition NewReceipt (root : bytes) (failed : bool) (cumulativeGasUsed : Z) : Receipt :=
  MkReceipt root (if failed then 0 else 1) cumulativeGasUsed (replicate 256 0) [] (replicate HashLength 0) (replicate AddressLength 0) 0.

(** The consensus encoding: a receipt without a state root says whether it failed. *)
Definition statusEncoding (r : Receipt) : bytes :=
  if bool_decide (rc_PostState r = []) then if rc_Status r =? 0 then [] else [1] else rc_PostState r.
Definition log_rval (l : Log) : rval := REncoder [RStruct [RByteArray (l_Address l); RSlice false (map RByteArray (l_Topics l)); RBytes (l_Data l)]] false.
Definition receipt_rval (r : Receipt) : rval :=
  REncoder [RPtr (RStruct [RBytes (statusEncoding r); RUint (rc_CumulativeGasUsed r); RByteArray (rc_Bloom r);
                           RSlice false (map (fun l => log_rval (sl_log l)) (rc_Logs r))])] false.

(** * Bloom filters have no false negatives *)

Section bloom.
Context (sha : bytes -> bytes) (hash_len : forall b, length (sha b) = 32%nat).

(** The bits of [r] are in [bin]. *)
Definition within (r bin : Z) : Prop := Z.lor bin r = bin.
Definition filter_ok (bin : Z) : Prop := 0 <= bin < 2 ^ 2048.

Lemma within_lor_l r bin s : within r bin -> within r (Z.lor bin s).
Proof. unfold within. intros H. rewrite Z.lor_comm, Z.lor_assoc, (Z.lor_comm r), H. done. Qed.
Lemma within_lor_r r bin : within r (Z.lor bin r).
Proof. unfold within. by rewrite <- Z.lor_assoc, Z.lor_diag. Qed.
Lemma within_land r bin : within r bin -> Z.land bin r = r.
Proof. unfold within. intros <-. rewrite Z.land_comm. apply Z.bits_inj'. intros n Hn. rewrite Z.land_spec, Z.lor_spec. by destruct (Z.testbit r n), (Z.testbit bin n). Qed.

Lemma lor_bound n a b : 0 <= n -> 0 <= a < 2 ^ n -> 0 <= b < 2 ^ n -> 0 <= Z.lor a b < 2 ^ n.
Proof.
  intros Hn Ha Hb. rewrite <- (Z.mod_small a (2 ^ n)), <- (Z.mod_small b (2 ^ n)), <- !Z.land_ones by lia.
  rewrite <- Z.land_lor_distr_l, Z.land_ones by lia. apply Z.mod_pos_bound. lia.
Qed.

Lemma bloomBit_ok b i : (i + 1 < length b)%nat -> exists x, bloomBit b i = Ok x /\ 0 <= x < 2048.
Proof.
  intros Hi. unfold bloomBit. destruct (lookup_lt_is_Some_2 b (i + 1)%nat Hi) as [lo ->]. destruct (lookup_lt_is_Some_2 b i ltac:(lia)) as [hi ->]. cbn [must outcome_bind].
  eexists. split; [done|]. change 2047 with (Z.ones 11). rewrite Z.land_ones by lia. apply Z.mod_pos_bound. lia.
Qed.

Lemma shift_bit x : 0 <= x < 2048 -> filter_ok (Z.shiftl 1 x).
Proof. intros Hx. unfold filter_ok. rewrite Z.shiftl_1_l. split; [apply Z.pow_nonneg; lia|apply Z.pow_lt_mono_r; lia]. Qed.

Lemma filter_lor a b : filter_ok a -> filter_ok b -> filter_ok (Z.lor a b).
Proof. apply lor_bound. lia. Qed.

Lemma bloom9_ok b : exists r, bloom9 sha b = Ok r /\ filter_ok r.
Proof using hash_len.
  unfold bloom9. destruct (bloomBit_ok (sha b) 0) as (x & -> & Hx); [rewrite hash_len; lia|]. destruct (bloomBit_ok (sha b) 2) as (y & -> & Hy); [rewrite hash_len; lia|].
  destruct (bloomBit_ok (sha b) 4) as (z & -> & Hz); [rewrite hash_len; lia|]. cbn [outcome_bind]. eexists. split; [done|]. by repeat apply filter_lor; try apply shift_bit.
Qed.

(** What a filter claims. *)
Definition has (bin : Z) (b : bytes) : Prop := exists r, bloom9 sha b = Ok r /\ within r bin.

Lemma has_lor bin s b : has bin b -> has (Z.lor bin s) b.
Proof. intros (r & E & H). exists r. split; [done|by apply within_lor_l]. Qed.
Lemma has_lor_r bin s b : has s b -> has (Z.lor bin s) b.
Proof. rewrite Z.lor_comm. apply has_lor. Qed.

Lemma bloomAll_ok bs : forall bin, filter_ok bin -> exists bin', bloomAll sha bs bin = Ok bin' /\ filter_ok bin' /\
  (forall b, has bin b -> has bin' b) /\ forall b, b ∈ bs -> has bin' b.
Proof using hash_len.
  induction bs as [|b bs IH]; intros bin Hb; cbn [bloomAll]; [exists bin; split_and!; [done..|]; by intros b []%elem_of_nil|].
  destruct (bloom9_ok b) as (r & E & Hr). rewrite E. cbn [outcome_bind]. destruct (IH (Z.lor bin r)) as (bin' & -> & H1 & H2 & H3); [by apply filter_lor|].
  exists bin'. split_and!; [done|done|auto using has_lor|]. intros c [->|Hc]%elem_of_cons; [|auto]. apply H2, has_lor_r. exists r. split; [done|]. unfold within. apply Z.lor_diag.
Qed.

(** The strings of a log: its address and topics. *)
Definition log_keys (l : Log) : list bytes := l_Address l :: l_Topics l.

Lemma LogsBloom_loop_ok logs : forall bin, filter_ok bin -> exists bin', LogsBloom_loop sha logs bin = Ok bin' /\ filter_ok bin' /\
  (forall b, has bin b -> has bin' b) /\ forall l b, l ∈ logs -> b ∈ log_keys l -> has bin' b.
Proof using hash_len.
  induction logs as [|l logs IH]; intros bin Hb; cbn [LogsBloom_loop]; [exists bin; split_and!; [done..|]; by intros l b []%elem_of_nil|].
  destruct (bloomAll_ok (l_Address l :: l_Topics l) bin Hb) as (bin1 & -> & F1 & K1 & A1). cbn [outcome_bind].
  destruct (IH bin1 F1) as (bin2 & -> & F2 & K2 & A2). exists bin2. split_and!; [done|done|auto|]. intros l' b [->|Hl]%elem_of_cons Hk; eauto.
Qed.

Lemma CreateBloom_loop_ok rs : forall bin, filter_ok bin -> exists bin', CreateBloom_loop sha rs bin = Ok bin' /\ filter_ok bin' /\
  (forall b, has bin b -> has bin' b) /\ forall logs l b, logs ∈ rs -> l ∈ logs -> b ∈ log_keys l -> has bin' b.
Proof using hash_len.
  induction rs as [|logs rs IH]; intros bin Hb; cbn [CreateBloom_loop]; [exists bin; split_and!; [done..|]; by intros r l b []%elem_of_nil|].
  destruct (LogsBloom_loop_ok logs 0) as (r & E & F1 & _ & A1); [done|]. unfold LogsBloom. rewrite E. cbn [outcome_bind].
  destruct (IH (Z.lor bin r)) as (bin2 & -> & F2 & K2 & A2); [by apply filter_lor|]. exists bin2. split_and!; [done|done|auto using has_lor|].
  intros logs' l b [->|Hl]%elem_of_cons Hin Hk; [eapply K2, has_lor_r; eauto|eauto].
Qed.

Lemma be_val_zeros n : be_val (replicate n 0) = 0.
Proof. induction n as [|n IH]; [done|]. cbn [replicate]. rewrite be_val_cons, IH. lia. Qed.

Lemma BytesToBloom_ok bin : filter_ok bin -> exists f, BytesToBloom (big_bytes bin) = Ok f /\ length f = 256%nat /\ be_val f = bin.
Proof.
  intros [H0 H1]. unfold BytesToBloom, BloomByteLength. assert (0 <= zlen (big_bytes bin) <= 256) as Hl.
  { split; [apply zlen_nonneg|]. rewrite zlen_big_bytes. unfold byte_len. rewrite Z2Nat.id; [|apply Z.div_pos; [|lia]].
    - apply Z.lt_succ_r, Z.div_lt_upper_bound; [lia|]. unfold bitlen. destruct (Z.eqb_spec bin 0); [lia|]. rewrite Z.abs_eq by lia.
      assert (Z.log2 bin < 2048) by (apply Z.log2_lt_pow2; lia). lia.
    - unfold bitlen. destruct (bin =? 0); [lia|]. pose proof (Z.log2_nonneg (Z.abs bin)). lia. }
  rewrite (proj2 (Z.ltb_ge _ _)) by lia. eexists. split; [done|]. split; [rewrite length_app, length_replicate; unfold zlen in *; lia|].
  rewrite be_val_app, be_val_big_bytes, be_val_zeros by done. lia.
Qed.

Lemma CreateBloom_has receipts : exists f, CreateBloom sha receipts = Ok f /\ length f = 256%nat /\
  forall logs l b, logs ∈ receipts -> l ∈ logs -> b ∈ log_keys l -> BloomLookup sha f b = Ok true.
Proof using hash_len.
  destruct (CreateBloom_loop_ok receipts 0) as (bin & E & F & _ & A); [done|]. unfold CreateBloom. rewrite E. cbn [outcome_bind].
  destruct (BytesToBloom_ok bin F) as (f & -> & Hl & Hv). exists f. split_and!; [done|done|]. intros logs l b H1 H2 H3. destruct (A logs l b H1 H2 H3) as (r & Er & Hr).
  unfold BloomLookup. rewrite Er, Hv. cbn [outcome_bind]. by rewrite within_land, Z.eqb_refl.
Qed.

(** The bloom filter of a block has no false negatives: creating it does not fail, and
    looking up the address or any topic of any log of any receipt answers that it may be
    there. *)
Theorem bloom_no_false_negatives receipts : exists f, CreateBloom sha receipts = Ok f /\ length f = 256%nat /\
  forall logs l b, logs ∈ receipts -> l ∈ logs -> b ∈ log_keys l -> BloomLookup sha f b = Ok true.
Proof using hash_len. apply CreateBloom_has. Qed.
End bloom.

(** ** Examples *)

(** A hash that shows the first byte of its argument. *)
Definition firstByte (b : bytes) : bytes := replicate 6 (u8 (default 0 (head b))) ++ replicate 26 0.
Lemma firstByte_len b : length (firstByte b) = 32%nat.
Proof. done. Qed.

Lemma bloom_no_false_negatives_witness : exists f, CreateBloom firstByte [[MkLog [0; 7] [[9]] [] 0]] = Ok f /\ BloomLookup firstByte f [0; 7] = Ok true.
Proof.
  destruct (bloom_no_false_negatives firstByte firstByte_len [[MkLog [0; 7] [[9]] [] 0]]) as (f & E & _ & H).
  exists f. split; [exact E|]. eapply H; by left.
Defined.

(** Testing bytes goes through a number, which loses leading zeros: a string that begins with
    a zero byte is hashed differently when it is looked up and may not be found. *)
Lemma TestBytes_misses : exists f, CreateBloom firstByte [[MkLog [0; 7] [] [] 0]] = Ok f /\ Bloom_TestBytes firstByte [0; 7] f = Ok false.
Proof. exists (replicate 255 0 ++ [1]). split; vm_compute; reflexivity. Qed.
