(* ===== verification/Transactions.v ===== *)
(** Transactions and their signatures ([src/core/types/transaction.go],
    [transaction_signing.go]) and the checks of [src/crypto/crypto.go] they use.

    The curve (recovering a public key, signing with a private one) and the hash are
    parameters.  Of the caches of a transaction, the one for the sender is part of the
    model, since what it answers depends on the signer that filled it; those for the hash and
    the size are not: they hold what would be computed again. *)

From stdpp Require Import base numbers list.
From S2P Require Import Prelude.
From S2P Require Import CommonMath.
From S2P Require Import Params.
From S2P Require Import RlpEncode.
From S2P Require Import RlpStream.
From S2P Require Import RlpTyped.
From S2P Require Import VmWorld.
From S2P Require Import Types.
From S2P Require Import Sample.
From S2P Require Import Transition.
Local Open Scope Z_scope.
Local Open Scope go_scope.

(** * crypto.go *)

Definition secp256k1N : Z := 0xfffffffffffffffffffffffffffffffebaaedce6af48a03bbfd25e8cd0364141.
Definition secp256k1halfN : Z := secp256k1N / 2.

Definition ValidateSignatureValues (v r s : Z) (homestead : bool) : bool :=
  if (r <? 1) || (s <? 1) then false
  else if homestead && (secp256k1halfN <? s) then false
  else (r <? secp256k1N) && (s <? secp256k1N) && ((v =? 0) || (v =? 1)).

(** * transaction.go *)

Record txdata := MkTxData {
  tx_AccountNonce : Z; tx_Price : Z; tx_GasLimit : Z; tx_Recipient : option bytes; tx_Amount : Z; tx_Payload : bytes;
  tx_V : Z; tx_R : Z; tx_S : Z }.

Definition recipient_rval (r : option bytes) : rval := match r with Some a => RPtr (RByteArray a) | None => RNilPtrByteArray end.
(** The fields that every signer hashes, then the signature. *)
Definition txdata_body (d : txdata) : list rval :=
  [RUint (tx_AccountNonce d); RBigIntPtr (Some (tx_Price d)); RUint (tx_GasLimit d); recipient_rval (tx_Recipient d);
   RBigIntPtr (Some (tx_Amount d)); RBytes (tx_Payload d)].
Definition txdata_rval (d : txdata) : rval :=
  RStruct (txdata_body d ++ [RBigIntPtr (Some (tx_V d)); RBigIntPtr (Some (tx_R d)); RBigIntPtr (Some (tx_S d))]).

(** [DecodeRLP] *)
Definition txdataType : rtype :=
  TStruct [TUint 64; TPtr false TBigInt; TUint 64; TPtr true (TByteArray 20); TPtr false TBigInt; TByteSlice;
           TPtr false TBigInt; TPtr false TBigInt; TPtr false TBigInt].
Definition toTx (v : dval) : option txdata :=
  match v with
  | DStruct [DUint nonce; DPtr (Some (DUint price)); DUint gas; DPtr to; DPtr (Some (DUint amount)); DBytes payload;
             DPtr (Some (DUint v)); DPtr (Some (DUint r)); DPtr (Some (DUint s))] =>
      match to with
      | Some (DBytes a) => Some (MkTxData nonce price gas (Some a) amount payload v r s)
      | Some _ => None
      | None => Some (MkTxData nonce price gas None amount payload v r s)
      end
  | _ => None
  end.
Definition tx_DecodeRLP (enc : bytes) : option txdata :=
  match DecodeBytes (makeDecoder (S (length enc)) txdataType) enc with Ok v => toTx v | _ => None end.
Definition tx_EncodeRLP (d : txdata) : outcome enc_error bytes := EncodeToBytes (EncBuf [] [] 0) (REncoder [RPtr (txdata_rval d)] false).

Definition newTransaction (nonce : Z) (to : option bytes) (amount : option Z) (gasLimit : Z) (gasPrice : option Z) (data : bytes) : txdata :=
  MkTxData nonce (default 0 gasPrice) gasLimit to (default 0 amount) data 0 0 0.

Definition isProtectedV (V : Z) : bool := if bitlen V <=? 8 then negb (u64 V =? 27) && negb (u64 V =? 28) else true.

(** Amount plus the price of all the gas. *)
Definition Cost (d : txdata) : Z := tx_Price d * tx_GasLimit d + tx_Amount d.

(** * transaction_signing.go *)

Definition deriveChainId (v : Z) : Z :=
  if bitlen v <=? 64 then
    let v := u64 v in
    if (v =? 27) || (v =? 28) then 0 else u64 (v - 35) / 2
  else (v - 35) / 2.

Definition tx_ChainId (d : txdata) : Z := deriveChainId (tx_V d).
Definition Protected (d : txdata) : bool := isProtectedV (tx_V d).

Inductive Signer := FrontierSigner | HomesteadSigner | EIP155Signer (chainId chainIdMul : Z).

Definition NewEIP155Signer (chainId : option Z) : Signer := let c := default 0 chainId in EIP155Signer c (c * 2).

Definition MakeSigner (config : ChainConfig) (blockNumber : option Z) : Signer :=
  if IsEIP155 config blockNumber then NewEIP155Signer (ChainId config)
  else if IsHomestead config blockNumber then HomesteadSigner
  else FrontierSigner.

(** [deriveSigner] guesses from the signature. *)
Definition deriveSigner (V : Z) : Signer :=
  if negb (V =? 0) && isProtectedV V then NewEIP155Signer (Some (deriveChainId V)) else HomesteadSigner.

Definition Signer_Equal (s s2 : Signer) : bool :=
  match s, s2 with
  | FrontierSigner, FrontierSigner | HomesteadSigner, HomesteadSigner => true
  | EIP155Signer c _, EIP155Signer c2 _ => c2 =? c
  | _, _ => false
  end.

Inductive sig_error := ErrInvalidSig | ErrInvalidChainId | errRecover | errPublicKey | errSign.

(** A transaction and the cache of its sender. *)
Record Transaction := MkTransaction { tx_data : txdata; tx_from : option (Signer * bytes) }.

Section signing.
Context (sha : bytes -> bytes).
(** [secp256k1.RecoverPubkey] and [secp256k1.Sign]. *)
Context (Ecrecover : bytes -> bytes -> option bytes).
Context {key : Type} (secp256k1Sign : bytes -> key -> option bytes).

Definition tx_Hash (d : txdata) : bytes := rlpHash sha (REncoder [RPtr (txdata_rval d)] false).

(** What is signed. *)
Definition Signer_Hash (s : Signer) (d : txdata) : bytes :=
  rlpHash sha (RSlice false (map (fun v => RInterface (Some v))
    (txdata_body d ++ match s with EIP155Signer chainId _ => [RBigIntPtr (Some chainId); RUint 0; RUint 0] | _ => [] end))).

(** [copy(sig[end-len(b):end], b)] *)
Definition sigWord (x : Z) : outcome sig_error bytes :=
  let b := big_bytes x in if (32 <? zlen b) then Panic else Ok (replicate (32 - length b) 0 ++ b).

Definition recoverPlain (sighash : bytes) (R S Vb : Z) (homestead : bool) : outcome sig_error bytes :=
  if 8 <? bitlen Vb then Err ErrInvalidSig
  else
    let V := u8 (u64 (u64 Vb - 27)) in
    if negb (ValidateSignatureValues V R S homestead) then Err ErrInvalidSig
    else
      let! r := sigWord R in
      let! s := sigWord S in
      match Ecrecover sighash (r ++ s ++ [V]) with
      | None => Err errRecover
      | Some [] => Err errPublicKey
      | Some (b :: pub) => if negb (b =? 4) then Err errPublicKey else Ok (gocopy (replicate AddressLength 0) (drop 12 (sha pub)))
      end.

Definition Signer_Sender (s : Signer) (d : txdata) : outcome sig_error bytes :=
  match s with
  | FrontierSigner => recoverPlain (Signer_Hash FrontierSigner d) (tx_R d) (tx_S d) (tx_V d) false
  | HomesteadSigner => recoverPlain (Signer_Hash HomesteadSigner d) (tx_R d) (tx_S d) (tx_V d) true
  | EIP155Signer chainId chainIdMul =>
      if negb (Protected d) then recoverPlain (Signer_Hash HomesteadSigner d) (tx_R d) (tx_S d) (tx_V d) true
      else if negb (tx_ChainId d =? chainId) then Err ErrInvalidChainId
      else recoverPlain (Signer_Hash s d) (tx_R d) (tx_S d) (tx_V d - chainIdMul - 8) true
  end.

(** [Sender], through the cache. *)
Definition Sender (signer : Signer) (tx : Transaction) : outcome sig_error (Transaction * bytes) :=
  let derive :=
    let! addr := Signer_Sender signer (tx_data tx) in
    Ok (MkTransaction (tx_data tx) (Some (signer, addr)), addr) in
  match tx_from tx with
  | Some (s, from) => if Signer_Equal s signer then Ok (tx, from) else derive
  | None => derive
  end.

Definition SignatureValues (s : Signer) (sig : bytes) : outcome sig_error (Z * Z * Z) :=
  if negb (zlen sig =? 65) then Panic
  else
    let! v := must (zget sig 64) in
    let R := be_val (take 32 sig) in
    let S := be_val (take 32 (drop 32 sig)) in
    match s with
    | EIP155Signer chainId chainIdMul => Ok (R, S, if chainId =? 0 then u8 (v + 27) else u8 (v + 35) + chainIdMul)
    | _ => Ok (R, S, u8 (v + 27))
    end.

Definition WithSignature (s : Signer) (sig : bytes) (tx : Transaction) : outcome sig_error Transaction :=
  let! (r, s, v) := SignatureValues s sig in
  let d := tx_data tx in
  Ok (MkTransaction (MkTxData (tx_AccountNonce d) (tx_Price d) (tx_GasLimit d) (tx_Recipient d) (tx_Amount d) (tx_Payload d) v r s) None).

(** [crypto.Sign] *)
Definition Sign (hash : bytes) (prv : key) : outcome sig_error bytes :=
  if negb (zlen hash =? 32) then Err errSign else match secp256k1Sign hash prv with Some sig => Ok sig | None => Err errSign end.

Definition SignTx (tx : Transaction) (s : Signer) (prv : key) : outcome sig_error Transaction :=
  let! sig := Sign (Signer_Hash s (tx_data tx)) prv in WithSignature s sig tx.

(** The message the state transition runs; its nonce is always checked. *)
Definition AsMessage (s : Signer) (tx : Transaction) : outcome sig_error (Transaction * Message) :=
  let! (tx, from) := Sender s tx in
  let d := tx_data tx in
  Ok (tx, MkMessage from (tx_Recipient d) (tx_Price d) (tx_GasLimit d) (tx_Amount d) (tx_AccountNonce d) true (tx_Payload d)).
End signing.

(** * Signing and recovering *)

(** A word written with 32 bytes is read back. *)
Lemma sigWord_be_val b : length b = 32%nat -> bytes_ok b -> sigWord (be_val b) = Ok b.
Proof.
  intros Hl Hb. pose proof (be_val_bound b Hb) as Hv. unfold zlen in Hv. rewrite Hl in Hv. unfold sigWord.
  assert (zlen (big_bytes (be_val b)) <= 32) as Hz by (apply byte_len_bits; [lia|]; change (8 * 32) with 256; change (256 ^ Z.of_nat 32) with (2 ^ 256) in Hv; lia).
  rewrite (proj2 (Z.ltb_ge _ _)) by lia. f_equal. unfold zlen in Hz. apply be_val_inj.
  - apply Forall_app. split; [by apply Forall_replicate|apply big_bytes_ok].
  - done.
  - rewrite length_app, length_replicate. lia.
  - rewrite be_val_app, be_val_big_bytes, be_val_zeros by lia. lia.
Qed.

(** What is documented of the curve: a signature has 65 bytes, R, S and V, where S is in the
    lower half, and the key it was made with is recovered from it. *)
Record curve_ok {key} (Ecrecover : bytes -> bytes -> option bytes) (secp256k1Sign : bytes -> key -> option bytes) (pub : key -> bytes) : Prop := {
  sign_shape h k sig : secp256k1Sign h k = Some sig -> exists r s v, sig = r ++ s ++ [v] /\ length r = 32%nat /\ length s = 32%nat /\
    bytes_ok r /\ bytes_ok s /\ 1 <= be_val r < secp256k1N /\ 1 <= be_val s <= secp256k1halfN /\ (v = 0 \/ v = 1);
  sign_recovers h k sig : secp256k1Sign h k = Some sig -> Ecrecover h sig = Some (4 :: pub k) }.

Section recovering.
Context (sha : bytes -> bytes) (Ecrecover : bytes -> bytes -> option bytes) {key : Type} (secp256k1Sign : bytes -> key -> option bytes) (pub : key -> bytes).
Context (Hcurve : curve_ok Ecrecover secp256k1Sign pub).

(** [crypto.PubkeyToAddress] *)
Definition keyAddress (k : key) : bytes := gocopy (replicate AddressLength 0) (drop 12 (sha (pub k))).

(** A chain has a positive identifier, and the signer was made for it. *)
Definition signer_ok (s : Signer) : Prop := match s with EIP155Signer c m => 0 < c /\ m = c * 2 | _ => True end.

(** How V carries the recovery bit and the chain. *)
Definition V_of (s : Signer) (v : Z) : Z := match s with EIP155Signer c _ => v + 35 + 2 * c | _ => v + 27 end.

Lemma SignTx_signs tx s k tx' : signer_ok s -> SignTx sha secp256k1Sign tx s k = Ok tx' ->
  exists r t v, length r = 32%nat /\ length t = 32%nat /\ bytes_ok r /\ bytes_ok t /\ 1 <= be_val r < secp256k1N /\ 1 <= be_val t <= secp256k1halfN /\ (v = 0 \/ v = 1) /\
    Ecrecover (Signer_Hash sha s (tx_data tx)) (r ++ t ++ [v]) = Some (4 :: pub k) /\
    tx_from tx' = None /\ tx_R (tx_data tx') = be_val r /\ tx_S (tx_data tx') = be_val t /\ tx_V (tx_data tx') = V_of s v /\
    txdata_body (tx_data tx') = txdata_body (tx_data tx).
Proof using Hcurve.
  intros Hs. unfold SignTx, Sign. destruct (negb _); [done|]. destruct (secp256k1Sign _ k) as [sig|] eqn:E; [|done]. cbn [outcome_bind].
  destruct (sign_shape _ _ _ Hcurve _ _ _ E) as (r & t & v & -> & Hr & Ht & Br & Bt & Rr & Rt & Hv). pose proof (sign_recovers _ _ _ Hcurve _ _ _ E) as Hrec.
  unfold WithSignature, SignatureValues. assert (zlen (r ++ t ++ [v]) = 65) as -> by (unfold zlen; rewrite !length_app, Hr, Ht; done). cbn [negb].
  assert (zget (r ++ t ++ [v]) 64 = Some v) as ->.
  { unfold zget. cbn [Z.leb]. rewrite lookup_app_r, lookup_app_r by (rewrite ?Hr, ?Ht; lia). by rewrite Hr, Ht. }
  cbn [must outcome_bind]. rewrite (take_app_length' r) by done. rewrite (drop_app_length' r) by done. rewrite (take_app_length' t) by done.
  intros H. exists r, t, v. assert (u8 (v + 27) = v + 27 /\ u8 (v + 35) = v + 35) as [E1 E2] by (by destruct Hv as [-> | ->]).
  destruct s as [| |c m]; cbn in H; [injection H as <-; cbn; by rewrite E1..|]. destruct Hs as [Hc ->]. rewrite (proj2 (Z.eqb_neq _ _)) in H by lia. injection H as <-. cbn. rewrite E2.
  destruct Rr, Rt. split_and!; done || lia.
Qed.

Lemma recoverPlain_sig h r t v k : length r = 32%nat -> length t = 32%nat -> bytes_ok r -> bytes_ok t -> 1 <= be_val r < secp256k1N -> 1 <= be_val t <= secp256k1halfN ->
  (v = 0 \/ v = 1) -> Ecrecover h (r ++ t ++ [v]) = Some (4 :: pub k) -> forall hs, recoverPlain sha Ecrecover h (be_val r) (be_val t) (v + 27) hs = Ok (keyAddress k).
Proof.
  intros Hr Ht Br Bt Rr Rt Hv Hrec hs. unfold recoverPlain. assert (8 <? bitlen (v + 27) = false) as -> by (by destruct Hv as [-> | ->]).
  assert (u8 (u64 (u64 (v + 27) - 27)) = v) as -> by (by destruct Hv as [-> | ->]). assert (secp256k1halfN < secp256k1N) by done.
  assert (ValidateSignatureValues v (be_val r) (be_val t) hs = true) as ->.
  { unfold ValidateSignatureValues. rewrite !(proj2 (Z.ltb_ge _ _)) by lia. rewrite andb_false_r. rewrite !(proj2 (Z.ltb_lt _ _)) by lia. by destruct Hv as [-> | ->]. }
  cbn [negb]. rewrite !sigWord_be_val by done. cbn [outcome_bind]. by rewrite Hrec.
Qed.

Lemma Signer_Hash_body s d d' : txdata_body d = txdata_body d' -> Signer_Hash sha s d = Signer_Hash sha s d'.
Proof. intros E. unfold Signer_Hash. by rewrite E. Qed.

(** The V of a chain is protected and names the chain. *)
Lemma chain_V c v : 0 < c -> (v = 0 \/ v = 1) -> isProtectedV (v + 35 + 2 * c) = true /\ deriveChainId (v + 35 + 2 * c) = c.
Proof.
  intros Hc Hv. split.
  - unfold isProtectedV. destruct (Z.leb_spec (bitlen (v + 35 + 2 * c)) 8) as [Hl|]; [|done]. apply bitlen_le in Hl; [|lia..]. rewrite u64_small by (unfold is_u64; lia).
    by rewrite !(proj2 (Z.eqb_neq _ _)) by lia.
  - assert ((v + 35 + 2 * c - 35) / 2 = c) as E by (Z.to_euclidean_division_equations; lia). unfold deriveChainId. destruct (Z.leb_spec (bitlen (v + 35 + 2 * c)) 64) as [Hl|]; [|done].
    apply bitlen_le in Hl; [|lia..]. rewrite (u64_small (v + 35 + 2 * c)) by (unfold is_u64; lia). rewrite !(proj2 (Z.eqb_neq _ _)) by lia. cbn [orb]. by rewrite u64_small by (unfold is_u64; lia).
Qed.

(** Without a chain, such a V is no recovery bit. *)
Lemma chain_V_plain h R S c v hs : 0 < c -> (v = 0 \/ v = 1) -> recoverPlain sha Ecrecover h R S (v + 35 + 2 * c) hs = Err ErrInvalidSig.
Proof.
  intros Hc Hv. unfold recoverPlain. destruct (Z.ltb_spec 8 (bitlen (v + 35 + 2 * c))) as [|Hl]; [done|]. apply bitlen_le in Hl; [|lia..].
  rewrite (u64_small (v + 35 + 2 * c)), (u64_small (v + 35 + 2 * c - 27)) by (unfold is_u64; lia). unfold u8. rewrite Z.mod_small by lia.
  unfold ValidateSignatureValues. rewrite !(proj2 (Z.eqb_neq _ _)) by lia. cbn [orb]. rewrite andb_false_r. by destruct ((R <? 1) || (S <? 1)), (hs && (secp256k1halfN <? S)).
Qed.

Lemma plain_V v : v = 0 \/ v = 1 -> isProtectedV (v + 27) = false.
Proof. by intros [-> | ->]. Qed.

(** Who accepts what was signed for whom: transactions without a chain are accepted
    everywhere, others by the signer of their chain only. *)
Definition accepts (s s' : Signer) : Prop := match s with EIP155Signer _ _ => s' = s | _ => True end.

(** C21. A signed transaction is attributed to its signer, on its chain: whichever of the
    three kinds of signer made the signature, recovering the sender with a signer that
    accepts it gives the address of the key.  A transaction signed for a chain is
    rejected by the signer of any other chain and by the signers without a chain: it cannot
    be replayed. *)
Theorem sender_recovered tx s k tx' s' : signer_ok s -> signer_ok s' -> SignTx sha secp256k1Sign tx s k = Ok tx' ->
  (accepts s s' -> Sender sha Ecrecover s' tx' = Ok (MkTransaction (tx_data tx') (Some (s', keyAddress k)), keyAddress k)) /\
  (~ accepts s s' -> exists err, Sender sha Ecrecover s' tx' = Err err).
Proof using Hcurve.
  intros Hs Hs' E. destruct (SignTx_signs tx s k tx' Hs E) as (r & t & v & Hr & Ht & Br & Bt & Rr & Rt & Hv & Hrec & Hf & ER & ES & EV & Eb).
  pose proof (recoverPlain_sig _ r t v k Hr Ht Br Bt Rr Rt Hv Hrec) as Hrp. unfold Sender. rewrite Hf. unfold Signer_Sender, Protected, tx_ChainId. rewrite ER, ES, EV.
  assert (forall s2, Signer_Hash sha s2 (tx_data tx') = Signer_Hash sha s2 (tx_data tx)) as Hh by (intros; by apply Signer_Hash_body). destruct s as [| |c m]; cbn [V_of accepts] in *.
  1,2: (split; [intros _|done]); rewrite plain_V by done; destruct s'; cbn [negb]; rewrite Hh; by rewrite Hrp.
  destruct Hs as [Hc ->]. destruct (chain_V c v Hc Hv) as [-> ->]. split.
  - intros ->. cbn [negb]. rewrite Z.eqb_refl. cbn [negb]. replace (v + 35 + 2 * c - c * 2 - 8) with (v + 27) by lia. by rewrite Hh, Hrp.
  - intros Hne. destruct s' as [| |c' m']; cbn [negb]; [rewrite chain_V_plain by done; by eexists..|]. destruct Hs' as [_ ->].
    rewrite (proj2 (Z.eqb_neq _ _)) by (intros ->; done). by eexists.
Qed.
End recovering.

(** * The cache *)

Lemma recoverPlain_fuel sha Ecrecover h R S V hs : recoverPlain sha Ecrecover h R S V hs <> NoFuel.
Proof.
  unfold recoverPlain, sigWord. destruct (8 <? _); [done|]. destruct (negb _); [done|]. destruct (32 <? _); [done|]. cbn [outcome_bind]. destruct (32 <? _); [done|]. cbn [outcome_bind].
  destruct (Ecrecover _ _) as [[|b pub]|]; [done| |done]. by destruct (negb _).
Qed.
Lemma Signer_Sender_fuel sha Ecrecover s d : Signer_Sender sha Ecrecover s d <> NoFuel.
Proof. destruct s; cbn; [apply recoverPlain_fuel..|]. destruct (negb _); [apply recoverPlain_fuel|]. destruct (negb _); [done|apply recoverPlain_fuel]. Qed.

(** The cache holds what its signer derives. *)
Definition cache_ok sha Ecrecover (tx : Transaction) : Prop :=
  forall s from, tx_from tx = Some (s, from) -> signer_ok s /\ Signer_Sender sha Ecrecover s (tx_data tx) = Ok from.

Lemma Signer_Equal_eq s s' : signer_ok s -> signer_ok s' -> Signer_Equal s s' = true -> s = s'.
Proof. destruct s, s'; cbn; try done. intros [_ ->] [_ ->] E. apply Z.eqb_eq in E. by subst. Qed.

(** Asking through the cache gives what asking the signer gives, and the cache stays right. *)
Lemma Sender_cached sha Ecrecover s tx : signer_ok s -> cache_ok sha Ecrecover tx ->
  match Sender sha Ecrecover s tx with
  | Ok (tx', a) => Signer_Sender sha Ecrecover s (tx_data tx) = Ok a /\ tx_data tx' = tx_data tx /\ cache_ok sha Ecrecover tx'
  | Err e => Signer_Sender sha Ecrecover s (tx_data tx) = Err e
  | Panic => Signer_Sender sha Ecrecover s (tx_data tx) = Panic
  | NoFuel => False
  end.
Proof.
  intros Hs Hc. unfold Sender.
  assert (Hd : match (let! addr := Signer_Sender sha Ecrecover s (tx_data tx) in Ok (MkTransaction (tx_data tx) (Some (s, addr)), addr)) with
    | Ok (tx', a) => Signer_Sender sha Ecrecover s (tx_data tx) = Ok a /\ tx_data tx' = tx_data tx /\ cache_ok sha Ecrecover tx'
    | Err e => Signer_Sender sha Ecrecover s (tx_data tx) = Err e
    | Panic => Signer_Sender sha Ecrecover s (tx_data tx) = Panic
    | NoFuel => Signer_Sender sha Ecrecover s (tx_data tx) = NoFuel
    end).
  { destruct (Signer_Sender sha Ecrecover s (tx_data tx)) as [a|e| |] eqn:E; cbn [outcome_bind]; try done. split_and!; [done|done|]. by intros s0 f [= <- <-]. }
  assert (Signer_Sender sha Ecrecover s (tx_data tx) <> NoFuel) as Hn by apply Signer_Sender_fuel.
  destruct (tx_from tx) as [[s0 from]|] eqn:Ef; [destruct (Signer_Equal s0 s) eqn:Eq|].
  - destruct (Hc s0 from Ef) as [Hs0 E]. by rewrite (Signer_Equal_eq s0 s) in E.
  - by destruct (let! addr := _ in _) as [[]| | |].
  - by destruct (let! addr := _ in _) as [[]| | |].
Qed.

(** * Encoding *)

Definition txdata_ok (d : txdata) : Prop :=
  is_u64 (tx_AccountNonce d) /\ is_u64 (tx_GasLimit d) /\ (forall a, tx_Recipient d = Some a -> length a = AddressLength /\ bytes_ok a) /\
  is_word (tx_Price d) /\ is_word (tx_Amount d) /\ (bytes_ok (tx_Payload d) /\ zlen (tx_Payload d) < 2 ^ 60) /\ is_word (tx_V d) /\ is_word (tx_R d) /\ is_word (tx_S d).

Lemma word_string x : is_word x -> zlen (rlp_string (big_bytes x)) <= 41.
Proof.
  intros [H0 H1]. assert (zlen (big_bytes x) <= 32) by (apply byte_len_bits; [lia|]; change (8 * 32) with 256; lia). pose proof (rlp_string_len (big_bytes x)). lia.
Qed.

Lemma is_u64_word x : is_u64 x -> is_word x.
Proof. unfold is_u64, is_word. lia. Qed.

Definition recipient_string (r : option bytes) : bytes := match r with Some a => rlp_string a | None => rlp_string [] end.

Lemma rlp_big_word x : is_word x -> rlp_big x = Ok (rlp_string (big_bytes x)).
Proof. intros [H _]. unfold rlp_big. by rewrite (proj2 (Z.ltb_ge _ _)). Qed.

Lemma txdata_spec d : txdata_ok d -> exists b, rlp_spec (txdata_rval d) = Ok b /\ zlen b < 2 ^ 61.
Proof.
  destruct d as [nonce price gas to amount payload v r s]. intros (Hn & Hg & Hto & Hp & Ha & [Hb Hl] & Hv & Hr & Hs). cbn in *. rewrite !rlp_big_word by done.
  assert (rlp_spec (recipient_rval to) = Ok (recipient_string to)) as -> by by destruct to. cbn [outcome_bind]. eexists. split; [reflexivity|].
  pose proof (word_string nonce (is_u64_word _ Hn)). pose proof (word_string gas (is_u64_word _ Hg)). pose proof (word_string price Hp). pose proof (word_string amount Ha).
  pose proof (word_string v Hv). pose proof (word_string r Hr). pose proof (word_string s Hs). pose proof (rlp_string_len payload).
  assert (zlen (recipient_string to) <= 29).
  { destruct to as [a|]; [|done]. destruct (Hto a eq_refl) as [Hla _]. pose proof (rlp_string_len a) as Hx. assert (zlen a = 20) as E by (unfold zlen; by rewrite Hla). rewrite E in Hx. cbn. lia. }
  match goal with |- zlen (rlp_list ?p) < _ => assert (zlen p <= zlen payload + 400) by (rewrite !zlen_app; change (zlen []) with 0; lia); pose proof (rlp_list_len p) end. lia.
Qed.

Definition tx_dval (d : txdata) : dval :=
  DStruct [DUint (tx_AccountNonce d); DPtr (Some (DUint (tx_Price d))); DUint (tx_GasLimit d); DPtr (DBytes <$> tx_Recipient d); DPtr (Some (DUint (tx_Amount d)));
    DBytes (tx_Payload d); DPtr (Some (DUint (tx_V d))); DPtr (Some (DUint (tx_R d))); DPtr (Some (DUint (tx_S d)))].
Lemma toTx_dval d : toTx (tx_dval d) = Some d.
Proof. by destruct d as [? ? ? [] ? ? ? ? ?]. Qed.

Lemma recipient_written to : (forall a, to = Some a -> length a = AddressLength /\ bytes_ok a) -> written (TPtr true (TByteArray 20)) (DPtr (DBytes <$> to)) (recipient_rval to).
Proof.
  intros Hto. apply held_encodes. destruct to as [a|]; [|done]. destruct (Hto a eq_refl) as [Hla Hba]. assert (zlen a = 20) as Hz by (unfold zlen; by rewrite Hla).
  cbn. split_and!; try done; intros [= E]; apply (f_equal zlen) in E; pose proof (rlp_string_len a); rewrite Hz in *; change (zlen [_]) with 1 in E; lia.
Qed.

Lemma tx_written d : txdata_ok d -> written txdataType (tx_dval d) (txdata_rval d).
Proof.
  intros ([? ?] & [? ?] & Hto & [? ?] & [? ?] & [? _] & [? ?] & [? ?] & [? ?]). apply written_struct. cbn [fields_held app txdata_body].
  split_and!; try (by apply written_big); try (by apply held_encodes); try done. by apply recipient_written.
Qed.

(** A transaction read back from its encoding is the transaction that was written,
    whether it calls an account or creates a contract: encoding succeeds and decoding gives
    all nine fields back. *)
Theorem transaction_roundtrip d : txdata_ok d -> exists enc, tx_EncodeRLP d = Ok enc /\ tx_DecodeRLP enc = Some d.
Proof.
  intros Hd. destruct (txdata_spec d Hd) as (b & Hb & Hlen).
  destruct (written_roundtrip (EncBuf [] [] 0) txdataType _ _ eq_refl (written_encoder _ _ (RPtr (txdata_rval d)) (tx_written d Hd))) as (enc & E & _ & _ & _ & D).
  - intros bs. cbn [rlp_spec spec_all]. rewrite Hb. cbn. rewrite app_nil_r. intros [= <-]. lia.
  - exists enc. split; [exact E|]. unfold tx_DecodeRLP. by rewrite D, toTx_dval.
Qed.

(** * Examples *)

Module SignSample.
(** A curve on which a signature shows the key and a tag of the hash. *)
Definition tag (h : bytes) : Z := 1 + foldr Z.add 0 h mod 2 ^ 64.
Definition toySign (h : bytes) (k : Z) : option bytes :=
  if (0 <=? k) && (k <? 256) then Some (be_fixed 32 (k + 1) ++ be_fixed 32 (tag h) ++ [0]) else None.
Definition toyRecover (h sig : bytes) : option bytes :=
  if be_val (take 32 (drop 32 sig)) =? tag h then Some [4; be_val (take 32 sig) - 1] else None.
Definition toyPub (k : Z) : bytes := [k].

Lemma toy_fixed x : 0 <= x < 2 ^ 66 -> length (be_fixed 32 x) = 32%nat /\ bytes_ok (be_fixed 32 x) /\ be_val (be_fixed 32 x) = x.
Proof. intros Hx. split_and!; [apply length_be_fixed|apply be_fixed_ok|]. rewrite be_val_fixed. apply Z.mod_small. change (256 ^ Z.of_nat 32) with (2 ^ 256). lia. Qed.

Lemma tag_bound h : 1 <= tag h <= 2 ^ 64.
Proof. unfold tag. pose proof (Z.mod_pos_bound (foldr Z.add 0 h) (2 ^ 64)). lia. Qed.

Lemma toyRecover_parts h r s v : length r = 32%nat -> length s = 32%nat -> toyRecover h (r ++ s ++ [v]) = if be_val s =? tag h then Some [4; be_val r - 1] else None.
Proof. intros Hr Hs. unfold toyRecover. by rewrite (drop_app_length' r), (take_app_length' s), (take_app_length' r) by done. Qed.

Lemma toy_curve : curve_ok toyRecover toySign toyPub.
Proof.
  constructor; intros h k sig; unfold toySign; destruct (Z.leb_spec 0 k), (Z.ltb_spec k 256); cbn [andb]; try done; intros E; assert (sig = be_fixed 32 (k + 1) ++ be_fixed 32 (tag h) ++ [0]) as -> by congruence; pose proof (tag_bound h) as Ht;
    destruct (toy_fixed (k + 1) ltac:(lia)) as (L1 & B1 & V1), (toy_fixed (tag h) ltac:(lia)) as (L2 & B2 & V2).
  - exists (be_fixed 32 (k + 1)), (be_fixed 32 (tag h)), 0. assert (2 ^ 64 < secp256k1halfN /\ 2 ^ 64 < secp256k1N) as [? ?] by done. rewrite V1, V2. split; [reflexivity|]. do 4 (split; [assumption|]). do 2 (split; [lia|]). by left.
  - rewrite toyRecover_parts, V1, V2, Z.eqb_refl by done. f_equal. unfold toyPub. do 2 f_equal. lia.
Qed.

Definition plainTx : Transaction := MkTransaction (newTransaction 3 (Some (replicate 20 7)) (Some 1000) 21000 (Some 2) [1; 0; 255]) None.
Definition sign (s : Signer) : outcome sig_error Transaction := SignTx idealHash toySign plainTx s 5.
Definition chain (c : Z) : Signer := NewEIP155Signer (Some c).

(** Signed for chain 4, accepted there and rejected on chain 9. *)
Lemma sender_recovered_witness : exists tx, sign (chain 4) = Ok tx /\
  Sender idealHash toyRecover (chain 4) tx = Ok (MkTransaction (tx_data tx) (Some (chain 4, keyAddress idealHash toyPub 5)), keyAddress idealHash toyPub 5) /\
  exists err, Sender idealHash toyRecover (chain 9) tx = Err err.
Proof.
  destruct (sign (chain 4)) as [tx| | |] eqn:E; [|vm_compute in E; discriminate E..]. exists tx. split; [reflexivity|].
  pose proof (sender_recovered idealHash toyRecover toySign toyPub toy_curve plainTx (chain 4) 5 tx) as H.
  split; [apply (H (chain 4)); [by split|by split|exact E|reflexivity]|]. apply (H (chain 9)); [by split|by split|exact E|]. intros [=].
Defined.

Lemma transaction_roundtrip_witness : exists enc, tx_EncodeRLP (tx_data plainTx) = Ok enc /\ tx_DecodeRLP enc = Some (tx_data plainTx).
Proof.
  apply transaction_roundtrip. split_and!; try done; [|by repeat constructor]. intros a [= <-]. split; [reflexivity|]. by repeat constructor.
Defined.

(** The signer of chain 0, which a configuration without an identifier gets, signs the hash
    with the chain in it but recovers from the hash without: its own signatures are
    attributed to nobody. *)
Lemma chain_zero_unrecovered : exists tx err, sign (NewEIP155Signer None) = Ok tx /\ Sender idealHash toyRecover (NewEIP155Signer None) tx = Err err.
Proof. do 2 eexists. split; [vm_compute; reflexivity|vm_compute; reflexivity]. Qed.
End SignSample.
