(* ===== verification/Blocks.v ===== *)
(** Blocks ([src/core/types/block.go], [derive_sha.go]): how a block is encoded, how its header
    commits to its transactions and uncles, and what its hash identifies. *)

From stdpp Require Import base numbers list gmap.
From S2P Require Import Prelude.
From S2P Require Import CommonMath.
From S2P Require Import RlpEncode.
From S2P Require Import RlpRaw.
From S2P Require Import RlpStream.
From S2P Require Import RlpTyped.
From S2P Require Import VmData.
From S2P Require Import VmState.
From S2P Require Import State.
From S2P Require Import Types.
From S2P Require Import Transactions.
From S2P Require Import TrieEncoding.
From S2P Require Import TrieTree.
From S2P Require Import TrieStore.
From S2P Require Import TrieOps.
From S2P Require Import TrieMap.
From S2P Require Import TrieHasher.
From S2P Require Import TrieProof.
Local Open Scope Z_scope.
Local Open Scope go_scope.

(** * block.go *)

(** A block with its transactions. *)
Record FullBlock := MkFullBlock { fb_block : Block; fb_transactions : list Transaction }.
Abbreviation fb_header b := (b_header (fb_block b)).
Abbreviation fb_uncles b := (b_uncles (fb_block b)).

(** The type [Header], as the decoder sees it. *)
Definition headerType : rtype :=
  TStruct [TByteArray 32; TByteArray 32; TByteArray 20; TByteArray 32; TByteArray 32; TByteArray 32; TByteArray 256; TPtr false TBigInt; TPtr false TBigInt;
           TUint 64; TUint 64; TPtr false TBigInt; TByteSlice; TByteArray 32; TByteArray 8].
Definition toHeader (v : dval) : option Header :=
  match v with
  | DStruct [DBytes parent; DBytes uncle; DBytes coinbase; DBytes root; DBytes tx; DBytes receipt; DBytes bloom; DPtr (Some (DUint difficulty)); DPtr (Some (DUint number));
             DUint gasLimit; DUint gasUsed; DPtr (Some (DUint time)); DBytes extra; DBytes mix; DBytes nonce] =>
      Some (MkHeader parent uncle coinbase root tx receipt bloom difficulty number gasLimit gasUsed time extra mix nonce)
  | _ => None
  end.

(** [extblock]; a transaction is read into its data. *)
Definition extblockType : rtype := TStruct [TPtr false headerType; TSlice false (TPtr false txdataType); TSlice false (TPtr false headerType)].
Definition fromPtr {A} (f : dval -> option A) (v : dval) : option A := match v with DPtr (Some v) => f v | _ => None end.
Definition toBlock (v : dval) : option FullBlock :=
  match v with
  | DStruct [header; DList txs; DList uncles] =>
      header ← fromPtr toHeader header;
      txs ← mapM (fromPtr toTx) txs;
      uncles ← mapM (fromPtr toHeader) uncles;
      Some (MkFullBlock (MkBlock header uncles) (map (fun d => MkTransaction d None) txs))
  | _ => None
  end.

Definition tx_rval (tx : Transaction) : rval := REncoder [RPtr (txdata_rval (tx_data tx))] false.
Definition block_rval (b : FullBlock) : rval :=
  REncoder [RStruct [header_rval (fb_header b); RSlice false (map tx_rval (fb_transactions b)); RSlice false (map header_rval (fb_uncles b))]] false.
Definition block_EncodeRLP (b : FullBlock) : outcome enc_error bytes := EncodeToBytes (EncBuf [] [] 0) (block_rval b).
Definition block_DecodeRLP (enc : bytes) : option FullBlock :=
  match DecodeBytes (makeDecoder (S (length enc)) extblockType) enc with Ok v => toBlock v | _ => None end.

(** * derive_sha.go *)

(** [GetRlp] of transactions drops the error, that of receipts panics. *)
Definition tx_GetRlp (tx : Transaction) : bytes := match EncodeToBytes (EncBuf [] [] 0) (tx_rval tx) with Ok enc => enc | _ => [] end.
Definition receipt_GetRlp (r : Receipt) : outcome Empty_set bytes := match EncodeToBytes (EncBuf [] [] 0) (receipt_rval r) with Ok enc => Ok enc | _ => Panic end.
Fixpoint getRlps (rs : list Receipt) : outcome Empty_set (list bytes) :=
  match rs with
  | [] => Ok []
  | r :: rs => let! enc := receipt_GetRlp r in let! encs := getRlps rs in Ok (enc :: encs)
  end.

Section derive.
Context (sha : bytes -> bytes).

Definition newTrie : Trie := MkTrie None (replicate HashLength 0) 0 0.
Definition indexKey (i : nat) : bytes := match Encode (EncBuf [] [] 0) (RUint (Z.of_nat i)) with Ok b => b | _ => [] end.

(** [Update] logs the error of [TryUpdate]; the trie has no database. *)
Fixpoint deriveTrie (i : nat) (list : list bytes) (t : Trie) : outcome Empty_set Trie :=
  match list with
  | [] => Ok t
  | item :: list =>
      match TryUpdate (fun _ => None) (indexKey i) item t with
      | Ok t => deriveTrie (S i) list t
      | Err _ => deriveTrie (S i) list t
      | Panic => Panic
      | NoFuel => NoFuel
      end
  end.
Definition DeriveSha (list : list bytes) : outcome Empty_set bytes :=
  let! trie := deriveTrie 0 list newTrie in
  let! (h, _) := Hash sha trie in
  Ok h.

(** * Assembling a block *)

Definition EmptyRootHash : bytes := emptyRoot.

Definition with_roots (h : Header) (txHash receiptHash bloom uncleHash : bytes) : Header :=
  MkHeader (h_ParentHash h) uncleHash (h_Coinbase h) (h_Root h) txHash receiptHash bloom (h_Difficulty h) (h_Number h) (h_GasLimit h) (h_GasUsed h) (h_Time h) (h_Extra h)
    (h_MixDigest h) (h_Nonce h).

Definition receiptLogs (receipts : list Receipt) : list (list Log) := map (fun r => map sl_log (rc_Logs r)) receipts.

Definition NewBlock (header : Header) (txs : list Transaction) (uncles : list Header) (receipts : list Receipt) : outcome Empty_set FullBlock :=
  let! txHash := match txs with [] => Ok EmptyRootHash | _ => DeriveSha (map tx_GetRlp txs) end in
  let! (receiptHash, bloom) :=
    match receipts with
    | [] => Ok (EmptyRootHash, h_Bloom header)
    | _ =>
        let! encs := getRlps receipts in
        let! h := DeriveSha encs in
        let! bloom := CreateBloom sha (receiptLogs receipts) in
        Ok (h, bloom)
    end in
  let uncleHash := match uncles with [] => EmptyUncleHash sha | _ => CalcUncleHash sha uncles end in
  Ok (MkFullBlock (MkBlock (with_roots header txHash receiptHash bloom uncleHash) uncles) txs).

Definition WithSeal (b : FullBlock) (header : Header) : FullBlock := MkFullBlock (MkBlock header (fb_uncles b)) (fb_transactions b).
Definition WithBody (b : FullBlock) (txs : list Transaction) (uncles : list Header) : FullBlock := MkFullBlock (MkBlock (fb_header b) uncles) txs.
End derive.

(** * Encoding *)

Record header_ok (h : Header) : Prop := {
  ho_parent : length (h_ParentHash h) = HashLength /\ bytes_ok (h_ParentHash h);
  ho_uncle : length (h_UncleHash h) = HashLength /\ bytes_ok (h_UncleHash h);
  ho_coinbase : length (h_Coinbase h) = AddressLength /\ bytes_ok (h_Coinbase h);
  ho_root : length (h_Root h) = HashLength /\ bytes_ok (h_Root h);
  ho_tx : length (h_TxHash h) = HashLength /\ bytes_ok (h_TxHash h);
  ho_receipt : length (h_ReceiptHash h) = HashLength /\ bytes_ok (h_ReceiptHash h);
  ho_bloom : length (h_Bloom h) = 256%nat /\ bytes_ok (h_Bloom h);
  ho_big : 0 <= h_Difficulty h /\ 0 <= h_Number h /\ 0 <= h_Time h;
  ho_gas : is_u64 (h_GasLimit h) /\ is_u64 (h_GasUsed h);
  ho_extra : bytes_ok (h_Extra h);
  ho_mix : length (h_MixDigest h) = HashLength /\ bytes_ok (h_MixDigest h);
  ho_nonce : length (h_Nonce h) = 8%nat /\ bytes_ok (h_Nonce h) }.

Record block_ok (b : FullBlock) : Prop := {
  bo_header : header_ok (fb_header b);
  bo_uncles : Forall header_ok (fb_uncles b);
  bo_transactions : Forall (fun tx => txdata_ok (tx_data tx)) (fb_transactions b);
  (** The block fits into a slice. *)
  bo_size : forall enc, rlp_spec (block_rval b) = Ok enc -> zlen enc < 2 ^ 60 }.

(** A transaction as it is received: nobody has recovered its sender yet. *)
Definition received (tx : Transaction) : Transaction := MkTransaction (tx_data tx) None.

Definition header_dval (h : Header) : dval :=
  DStruct [DBytes (h_ParentHash h); DBytes (h_UncleHash h); DBytes (h_Coinbase h); DBytes (h_Root h); DBytes (h_TxHash h); DBytes (h_ReceiptHash h); DBytes (h_Bloom h);
    DPtr (Some (DUint (h_Difficulty h))); DPtr (Some (DUint (h_Number h))); DUint (h_GasLimit h); DUint (h_GasUsed h); DPtr (Some (DUint (h_Time h))); DBytes (h_Extra h);
    DBytes (h_MixDigest h); DBytes (h_Nonce h)].
Lemma toHeader_dval h : toHeader (header_dval h) = Some h.
Proof. by destruct h. Qed.

Lemma written_array n b : length b = Z.to_nat n -> 0 <= n -> bytes_ok b -> written (TByteArray n) (DBytes b) (RByteArray b).
Proof. intros Hl Hn Hb. apply held_encodes. cbn. split_and!; [done|unfold zlen; lia|done]. Qed.
Lemma written_u64 i : is_u64 i -> written (TUint 64) (DUint i) (RUint i).
Proof. intros [? ?]. by apply held_encodes. Qed.

Lemma header_written h : header_ok h -> written headerType (header_dval h) (header_rval h).
Proof.
  intros [[] [] [] [] [] [] [] (? & ? & ?) [] ? [] []]. apply written_struct. cbn [fields_held app header_body].
  split_and!; try (by apply written_array); try (by apply written_big); try (by apply written_u64); [|done]. by apply held_encodes.
Qed.

Lemma headers_written hs : Forall header_ok hs -> written (TSlice false (TPtr false headerType)) (DList (map (fun h => DPtr (Some (header_dval h))) hs)) (RSlice false (map header_rval hs)).
Proof. intros Hs. apply written_slice. induction Hs; constructor; [by apply header_written|done]. Qed.

Lemma tx_rval_written tx : txdata_ok (tx_data tx) -> written (TPtr false txdataType) (DPtr (Some (tx_dval (tx_data tx)))) (tx_rval tx).
Proof. intros Ht. by apply written_encoder, tx_written. Qed.

Definition block_dval (b : FullBlock) : dval :=
  DStruct [DPtr (Some (header_dval (fb_header b))); DList (map (fun tx => DPtr (Some (tx_dval (tx_data tx)))) (fb_transactions b));
           DList (map (fun h => DPtr (Some (header_dval h))) (fb_uncles b))].

Lemma block_written b : block_ok b -> written extblockType (block_dval b) (block_rval b).
Proof.
  intros [Hh Hu Ht _]. apply written_encoder, written_struct. cbn [fields_held]. split_and!; [by apply header_written| |by apply headers_written|done].
  apply written_slice. induction Ht; constructor; [by apply tx_rval_written|done].
Qed.

Lemma mapM_dval {A B} (f : dval -> option B) (g : A -> dval) (h : A -> B) l : (forall x, f (g x) = Some (h x)) -> mapM (fromPtr f) (map (fun x => DPtr (Some (g x))) l) = Some (map h l).
Proof. intros E. induction l as [|x l IH]; [done|]. cbn. rewrite E. cbn. by rewrite IH. Qed.

Lemma toBlock_dval b : toBlock (block_dval b) = Some (MkFullBlock (fb_block b) (map received (fb_transactions b))).
Proof.
  cbn [toBlock block_dval fromPtr]. rewrite toHeader_dval. cbn [mbind option_bind]. rewrite (mapM_dval toTx (fun tx => tx_dval (tx_data tx)) tx_data) by (intros; apply toTx_dval).
  cbn [mbind option_bind]. rewrite (mapM_dval toHeader header_dval id) by apply toHeader_dval. cbn [mbind option_bind]. rewrite map_id, map_map. by destruct b as [[]].
Qed.

(** C37. A block read back from its encoding is the block that was written: encoding
    succeeds, and decoding gives the header, the transactions in their order (without
    the senders cached in them) and the uncles. *)
Theorem block_roundtrip b : block_ok b -> exists enc, block_EncodeRLP b = Ok enc /\
  block_DecodeRLP enc = Some (MkFullBlock (fb_block b) (map received (fb_transactions b))).
Proof.
  intros Hb. destruct (written_roundtrip (EncBuf [] [] 0) extblockType _ _ eq_refl (block_written b Hb)) as (enc & E & _ & _ & _ & D).
  - intros bs Hs%(bo_size _ Hb). lia.
  - exists enc. split; [exact E|]. unfold block_DecodeRLP. by rewrite D, toBlock_dval.
Qed.

(** * Roots of lists *)

Lemma indexKey_eq i : Z.of_nat i < 2 ^ 64 -> indexKey i = rlp_string (big_bytes (Z.of_nat i)).
Proof.
  intros Hi. unfold indexKey. rewrite (Encode_ok _ _ (rlp_string (big_bytes (Z.of_nat i)))); [done| |done|].
  - cbn. rewrite (proj2 (Z.leb_le _ _)), (proj2 (Z.ltb_lt _ _)) by lia. done.
  - pose proof (word_string (Z.of_nat i)) as Hw. unfold is_word in Hw. lia.
Qed.

Lemma indexKey_ok i : Z.of_nat i < 2 ^ 64 -> key_ok 9 (indexKey i).
Proof.
  intros Hi. rewrite indexKey_eq by done. assert (zlen (big_bytes (Z.of_nat i)) <= 8) by (rewrite zlen_big_bytes; apply byte_len_u64; unfold is_u64; lia).
  split; [apply rlp_string_bytes; [apply big_bytes_ok|lia]|]. unfold rlp_string, rlp_head. rewrite (proj2 (Z.ltb_lt _ _)) by lia. unfold zlen in *.
  destruct (big_bytes (Z.of_nat i)) as [|x [|y l]]; [cbn; lia|case_match; cbn; lia|rewrite length_app; cbn in *; lia].
Qed.

Lemma indexKey_inj i j : Z.of_nat i < 2 ^ 64 -> Z.of_nat j < 2 ^ 64 -> indexKey i = indexKey j -> i = j.
Proof.
  intros Hi Hj E. rewrite !indexKey_eq in E by done.
  assert (forall k, Z.of_nat k < 2 ^ 64 -> written (TUint 64) (DUint (Z.of_nat k)) (RUint (Z.of_nat k))) as Hw by (intros k Hk; apply written_u64; unfold is_u64; lia).
  assert (forall k, Z.of_nat k < 2 ^ 64 -> DecodeBytes (makeDecoder (S (length (rlp_string (big_bytes (Z.of_nat k))))) (TUint 64)) (rlp_string (big_bytes (Z.of_nat k))) = Ok (DUint (Z.of_nat k))) as Hd.
  { intros k Hk. destruct (written_roundtrip (EncBuf [] [] 0) (TUint 64) _ _ eq_refl (Hw k Hk)) as (b & _ & _ & [= <-] & _ & D); [|exact D].
    intros bs [= <-]. pose proof (word_string (Z.of_nat k)) as Hx. unfold is_word in Hx. lia. }
  pose proof (Hd i Hi) as Di. rewrite E, (Hd j Hj) in Di. injection Di. lia.
Qed.

Section roots.
Context (sha : bytes -> bytes) (hash_len : forall b, length (sha b) = 32%nat) (hash_ok : forall b, bytes_ok (sha b)).

(** The trie holds the items under their indices. *)
Definition indexes (o : option tree) (items : list bytes) : Prop := forall i, Z.of_nat i < 2 ^ 64 -> content o (indexKey i) = items !! i.
Definition items_ok (items : list bytes) : Prop := Forall value_ok items /\ zlen items < 2 ^ 63.

Lemma deriveTrie_ok items : forall before t o, Forall value_ok items -> Z.of_nat (length before + length items) < 2 ^ 64 ->
  is_trie sha (fun _ => None) 9 t o -> indexes o before ->
  exists t' o', deriveTrie (length before) items t = Ok t' /\ is_trie sha (fun _ => None) 9 t' o' /\ indexes o' (before ++ items).
Proof using hash_len hash_ok.
  induction items as [|x items IH]; intros before t o Hv Hl Ht Hi; cbn [deriveTrie].
  - exists t, o. by rewrite app_nil_r.
  - apply Forall_cons in Hv as [(Hx & Hxb & Hxl) Hv]. cbn [length] in Hl.
    destruct (TryUpdate_ok sha hash_len hash_ok (fun _ => None) 9 ltac:(done) (indexKey (length before)) x t o (indexKey_ok (length before) ltac:(lia)) Hxb Hxl Ht) as (t1 & o1 & -> & Ht1 & Hc).
    destruct (IH (before ++ [x]) t1 o1 Hv) as (t' & o' & E & Ht' & Hi'); [rewrite length_app; cbn; lia|done| |].
    + intros i Hib. rewrite Hc by by apply indexKey_ok. case_bool_decide as Ex; [done|]. case_bool_decide as Ek.
      * apply indexKey_inj in Ek as ->; [|lia..]. by rewrite lookup_app_r, Nat.sub_diag by lia.
      * rewrite Hi by done. assert (i <> length before) by congruence. destruct (decide (i < length before)%nat); [by rewrite lookup_app_l by done|].
        rewrite lookup_ge_None_2, lookup_ge_None_2; [done|rewrite length_app; cbn; lia|lia].
    + exists t', o'. rewrite length_app, Nat.add_1_r in E. rewrite <- app_assoc in Hi'. done.
Qed.

Lemma DeriveSha_ok items : items_ok items -> exists t o, deriveTrie 0 items newTrie = Ok t /\ is_trie sha (fun _ => None) 9 t o /\ indexes o items /\ DeriveSha sha items = Ok (rootHash sha o).
Proof using hash_len hash_ok.
  intros [Hv Hl]. destruct (deriveTrie_ok items [] newTrie None Hv) as (t & o & E & Ht & Hi); [unfold zlen in Hl; cbn; lia|by repeat constructor|by intros i _|].
  exists t, o. split_and!; [done..|]. unfold DeriveSha. change 0%nat with (length (@nil bytes)). rewrite E. cbn [outcome_bind].
  by destruct (Hash_ok sha hash_len hash_ok 9 ltac:(done) _ t o Ht) as (t' & -> & _).
Qed.

(** The strings that are hashed to make the root of a list: the nodes of its trie. *)
Definition hashed (items : list bytes) (b : bytes) : Prop :=
  exists t u w, deriveTrie 0 items newTrie = Ok t /\ is_trie sha (fun _ => None) 9 t (Some u) /\ subtree w u /\ b = tenc sha w.

(** No two of the strings in use have the same hash. *)
Definition collision_free (P : bytes -> Prop) : Prop := forall a b, P a -> P b -> sha a = sha b -> a = b.

Lemma roots_bind (P : bytes -> Prop) l1 l2 h : collision_free P -> P [128] -> sha [128] = emptyRoot -> (forall b, hashed l1 b \/ hashed l2 b -> P b) ->
  items_ok l1 -> items_ok l2 -> DeriveSha sha l1 = Ok h -> DeriveSha sha l2 = Ok h -> l1 = l2.
Proof using hash_len hash_ok.
  intros HP HPe He HH H1 H2 E1 E2. destruct (DeriveSha_ok l1 H1) as (t1 & o1 & D1 & T1 & I1 & R1), (DeriveSha_ok l2 H2) as (t2 & o2 & D2 & T2 & I2 & R2).
  rewrite R1 in E1. rewrite R2 in E2. injection E1 as E1. injection E2 as E2.
  assert (forall key, key_ok 9 key -> content o1 key = content o2 key) as Hc.
  { apply (rootHash_binds sha hash_len hash_ok P HP HPe He 9 ltac:(done) _ _ t1 t2 o1 o2 T1 T2); [| |congruence].
    - intros u -> w Hw. apply HH. left. by exists t1, u, w.
    - intros u -> w Hw. apply HH. right. by exists t2, u, w. }
  destruct H1 as [_ H1], H2 as [_ H2]. unfold zlen in *. apply list_eq. intros i. destruct (decide (Z.of_nat i < 2 ^ 63)).
  - rewrite <- I1, <- I2 by lia. apply Hc, indexKey_ok. lia.
  - by rewrite !lookup_ge_None_2 by lia.
Qed.
End roots.

(** * What a block's hash identifies *)

Lemma spec_all_parts {A} (f : A -> rval) l : Forall (fun x => exists b, rlp_spec (f x) = Ok b) l ->
  exists bs, Forall2 (fun x b => rlp_spec (f x) = Ok b) l bs /\ spec_all rlp_spec (map f l) = Ok (concat bs).
Proof. induction 1 as [|x l [b Hb] _ (bs & H1 & H2)]; [by exists []|]. exists (b :: bs). split; [by constructor|]. cbn. rewrite Hb. cbn. by rewrite H2. Qed.

Lemma written_spec t v rv : written t v rv -> exists b, rlp_spec rv = Ok b.
Proof. intros (b & Hb & _). by exists b. Qed.

(** The encodings of the parts are shorter than that of the block. *)
Lemma block_parts b : block_ok b -> exists eh encs eus,
  rlp_spec (header_rval (fb_header b)) = Ok eh /\ Forall2 (fun tx e => rlp_spec (tx_rval tx) = Ok e) (fb_transactions b) encs /\
  rlp_spec (RSlice false (map header_rval (fb_uncles b))) = Ok eus /\ zlen eh + zlen (concat encs) + zlen eus < 2 ^ 60.
Proof.
  intros [Hh Hu Ht Hs]. destruct (written_spec _ _ _ (header_written _ Hh)) as [eh Eh]. destruct (written_spec _ _ _ (headers_written _ Hu)) as [eus Eu].
  destruct (spec_all_parts tx_rval (fb_transactions b)) as (encs & F & Et). { eapply Forall_impl; [exact Ht|]. intros tx Htx. by eapply written_spec, tx_rval_written. }
  exists eh, encs, eus. split_and!; [done..|]. specialize (Hs (rlp_list (eh ++ rlp_list (concat encs) ++ eus))). 
  pose proof (zlen_rlp_list_ge (concat encs)). pose proof (zlen_rlp_list_ge (eh ++ rlp_list (concat encs) ++ eus)) as Hg. rewrite !zlen_app in Hg.
  enough (zlen (rlp_list (eh ++ rlp_list (concat encs) ++ eus)) < 2 ^ 60) by lia. apply Hs. unfold block_rval.
  cbn [rlp_spec spec_all] in Eu |- *. rewrite Eh. cbn [outcome_bind]. rewrite Et. cbn [outcome_bind].
  destruct (spec_all rlp_spec (map header_rval (fb_uncles b))); [|done..]. injection Eu as <-. cbn. by rewrite !app_nil_r.
Qed.

Lemma tx_GetRlp_spec tx e : txdata_ok (tx_data tx) -> rlp_spec (tx_rval tx) = Ok e -> zlen e < 2 ^ 60 -> tx_GetRlp tx = e /\ value_ok e.
Proof.
  intros Ht He Hl. pose proof (tx_rval_written tx Ht) as Hw. destruct (written_roundtrip (EncBuf [] [] 0) (TPtr false txdataType) _ _ eq_refl Hw) as (b & E & _ & Hb & Hbo & _).
  { intros bs. rewrite He. intros [= <-]. lia. } rewrite He in Hb. injection Hb as <-. unfold tx_GetRlp. rewrite E. split; [done|]. split_and!; [|done..].
  intros ->. destruct Hw as (bs & E1 & _ & H3). rewrite E1 in He. injection He as ->. destruct (proj2 (H3 ltac:(done))) as (p & _ & Hp). pose proof (rlp_list_pos p) as Hpos. rewrite <- Hp in Hpos. done.
Qed.

Lemma block_items b : block_ok b -> items_ok (map tx_GetRlp (fb_transactions b)).
Proof.
  intros Hb. destruct (block_parts b Hb) as (eh & encs & eus & _ & F & _ & Hl). pose proof (zlen_nonneg eh). pose proof (zlen_nonneg eus). pose proof (bo_transactions _ Hb) as Ht.
  assert (Forall value_ok (map tx_GetRlp (fb_transactions b)) /\ zlen (map tx_GetRlp (fb_transactions b)) <= zlen (concat encs)) as [? ?]; [|split; [done|lia]].
  assert (zlen (concat encs) < 2 ^ 60) as Hc by lia. clear Hl. induction F as [|tx e txs encs He _ IH]; [by split; [constructor|]|]. apply Forall_cons in Ht as [Htx Ht].
  cbn [concat map] in *. rewrite zlen_app in *. pose proof (zlen_nonneg e). pose proof (zlen_nonneg (concat encs)). destruct (tx_GetRlp_spec tx e Htx He ltac:(lia)) as [-> Hv].
  destruct IH as [I1 I2]; [done|lia|]. split; [by constructor|]. rewrite zlen_cons. destruct Hv as (Hne & _). destruct e; [done|]. rewrite zlen_cons. pose proof (zlen_nonneg e). lia.
Qed.

Lemma same_encodings txs1 txs2 : Forall (fun tx => txdata_ok (tx_data tx)) txs1 -> Forall (fun tx => txdata_ok (tx_data tx)) txs2 ->
  map tx_GetRlp txs1 = map tx_GetRlp txs2 -> map tx_data txs1 = map tx_data txs2.
Proof.
  intros H1. revert txs2. induction H1 as [|tx txs1 Htx _ IH]; intros [|tx2 txs2] H2 E; try done. apply Forall_cons in H2 as [Htx2 H2]. injection E as Ee E. cbn. f_equal; [|by apply IH].
  assert (forall tx, txdata_ok (tx_data tx) -> rlp_spec (tx_rval tx) = Ok (tx_GetRlp tx) /\ zlen (tx_GetRlp tx) < 2 ^ 64) as Hg.
  { clear. intros tx Ht. destruct (txdata_spec _ Ht) as (b & Hb & Hl). destruct (written_roundtrip (EncBuf [] [] 0) (TPtr false txdataType) _ _ eq_refl (tx_rval_written tx Ht)) as (e & E & _ & He & _).
    - intros bs. cbn [rlp_spec spec_all tx_rval]. rewrite Hb. cbn. rewrite app_nil_r. intros [= <-]. lia.
    - unfold tx_GetRlp. rewrite E. split; [done|]. cbn [rlp_spec spec_all tx_rval] in He. rewrite Hb in He. cbn in He. rewrite app_nil_r in He. injection He as <-. lia. }
  destruct (Hg tx Htx) as [G1 L1], (Hg tx2 Htx2) as [G2 _]. rewrite <- Ee in G2.
  pose proof (written_inj (TPtr false txdataType) _ _ _ _ _ eq_refl (tx_rval_written _ Htx) (tx_rval_written _ Htx2) G1 G2 L1) as Hv.
  apply (f_equal (fromPtr toTx)) in Hv. cbn [fromPtr] in Hv. rewrite !toTx_dval in Hv. by injection Hv.
Qed.

Section identity.
Context (sha : bytes -> bytes) (hash_len : forall b, length (sha b) = 32%nat) (hash_ok : forall b, bytes_ok (sha b)).

(** The strings that are hashed to make a block's hash and the roots in its header. *)
Inductive block_string (b : FullBlock) : bytes -> Prop :=
  | bs_empty : block_string b [128]
  | bs_header e : rlp_spec (header_rval (fb_header b)) = Ok e -> block_string b e
  | bs_uncles e : rlp_spec (RSlice false (map header_rval (fb_uncles b))) = Ok e -> block_string b e
  | bs_node e : hashed sha (map tx_GetRlp (fb_transactions b)) e -> block_string b e.

(** The header names the block's uncles and transactions. *)
Definition commits (b : FullBlock) : Prop :=
  CalcUncleHash sha (fb_uncles b) = h_UncleHash (fb_header b) /\ DeriveSha sha (map tx_GetRlp (fb_transactions b)) = Ok (h_TxHash (fb_header b)).

Lemma rlpHash_inj (P : bytes -> Prop) t v1 v2 r1 r2 e1 e2 : collision_free sha P -> type_ok t = true -> written t v1 r1 -> written t v2 r2 ->
  rlp_spec r1 = Ok e1 -> rlp_spec r2 = Ok e2 -> P e1 -> P e2 -> zlen e1 < 2 ^ 64 -> zlen e2 < 2 ^ 64 -> rlpHash sha r1 = rlpHash sha r2 -> v1 = v2.
Proof.
  intros HP Ht W1 W2 E1 E2 P1 P2 L1 L2. assert (forall v r e, written t v r -> rlp_spec r = Ok e -> zlen e < 2 ^ 64 -> rlpHash sha r = sha e) as Hr.
  { clear. intros v r e (b & _ & Hok & _) He Hl. unfold rlpHash. by rewrite (Encode_ok _ r e Hok He Hl). }
  rewrite (Hr v1 r1 e1), (Hr v2 r2 e2) by done. intros <-%HP; [|done..]. by eapply (written_inj t v1 v2 r1 r2 e1).
Qed.

Lemma headers_inj hs1 hs2 : map (fun h => DPtr (Some (header_dval h))) hs1 = map (fun h => DPtr (Some (header_dval h))) hs2 -> hs1 = hs2.
Proof.
  intros E%(f_equal (mapM (fromPtr toHeader))). rewrite !(mapM_dval toHeader header_dval id) in E by apply toHeader_dval. injection E. by rewrite !map_id.
Qed.

Lemma hash_identifies (P : bytes -> Prop) b1 b2 : collision_free sha P -> sha [128] = emptyRoot -> (forall e, block_string b1 e \/ block_string b2 e -> P e) ->
  block_ok b1 -> block_ok b2 -> commits b1 -> commits b2 -> Block_Hash sha (fb_block b1) = Block_Hash sha (fb_block b2) ->
  fb_block b1 = fb_block b2 /\ map tx_data (fb_transactions b1) = map tx_data (fb_transactions b2).
Proof using hash_len hash_ok.
  intros HP He HH B1 B2 [U1 T1] [U2 T2] Hhash. destruct (block_parts b1 B1) as (eh1 & encs1 & eu1 & Eh1 & _ & Eu1 & L1), (block_parts b2 B2) as (eh2 & encs2 & eu2 & Eh2 & _ & Eu2 & L2).
  pose proof (zlen_nonneg eh1). pose proof (zlen_nonneg eu1). pose proof (zlen_nonneg eh2). pose proof (zlen_nonneg eu2). pose proof (zlen_nonneg (concat encs1)). pose proof (zlen_nonneg (concat encs2)).
  assert (fb_header b1 = fb_header b2) as E.
  { apply (inj Some). rewrite <- !toHeader_dval. f_equal.
    apply (rlpHash_inj P headerType _ _ _ _ eh1 eh2 HP eq_refl (header_written _ (bo_header _ B1)) (header_written _ (bo_header _ B2)) Eh1 Eh2); [apply HH; left; by constructor 2|apply HH; right; by constructor 2|lia..|done]. }
  rewrite <- E in U2, T2. split.
  - assert (fb_uncles b1 = fb_uncles b2) as E'; [|by destruct b1 as [[]], b2 as [[]]; cbn in *; subst]. apply headers_inj.
    pose proof (rlpHash_inj P (TSlice false (TPtr false headerType)) _ _ _ _ eu1 eu2 HP eq_refl (headers_written _ (bo_uncles _ B1)) (headers_written _ (bo_uncles _ B2)) Eu1 Eu2) as Hu.
    assert (forall a b, DList a = DList b -> a = b) as HD by (by intros a b [= ->]). apply HD, Hu; [apply HH; left; by constructor 3|apply HH; right; by constructor 3|lia..|]. by rewrite <- U1 in U2.
  - apply same_encodings; [apply B1|apply B2|].
    apply (roots_bind sha hash_len hash_ok P _ _ (h_TxHash (fb_header b1)) HP); [apply HH; left; constructor|done| |by apply block_items|by apply block_items|done..].
    intros e [H'|H']; apply HH; [left|right]; by constructor 4.
Qed.
End identity.
