(* ===== verification/Consensus.v ===== *)
(** The rules of proof-of-work consensus ([src/consensus/eaiash/consensus.go],
    [src/consensus/misc]): difficulty, validity of headers and uncles, rewards.

    The clock, the chain and the proof-of-work function are parameters. *)

From stdpp Require Import base numbers list gmap.
From S2P Require Import Prelude.
From S2P Require Import CommonMath.
From S2P Require Import Params.
From S2P Require Import VmState.
From S2P Require Import VmWorld.
From S2P Require Import State.
From S2P Require Import StateLaws.
From S2P Require Import Sample.
From S2P Require Import Types.
Local Open Scope Z_scope.
Local Open Scope go_scope.

(** * Difficulty *)

Definition expDiffPeriod : Z := 100000.

(** The bomb. *)
Definition addBomb (periodCount x : Z) : Z := if 1 <? periodCount then x + 2 ^ (periodCount - 2) else x.

(** [Div] of big integers is Euclidean, like [/] for positive divisors. *)
Definition calcDifficultyByzantium (emptyUncleHash : bytes) (time : Z) (parent : Header) : Z :=
  let x := (time - h_Time parent) / 9 in
  let x := if bool_decide (h_UncleHash parent = emptyUncleHash) then 1 - x else 2 - x in
  let x := if x <? -99 then -99 else x in
  let y := h_Difficulty parent / DifficultyBoundDivisor in
  let x := h_Difficulty parent + y * x in
  let x := if x <? MinimumDifficulty then MinimumDifficulty else x in
  let fakeBlockNumber := if 2999999 <=? h_Number parent then h_Number parent - 2999999 else 0 in
  addBomb (fakeBlockNumber / expDiffPeriod) x.

Definition calcDifficultyHomestead (time : Z) (parent : Header) : Z :=
  let x := 1 - (time - h_Time parent) / 10 in
  let x := if x <? -99 then -99 else x in
  let y := h_Difficulty parent / DifficultyBoundDivisor in
  let x := h_Difficulty parent + y * x in
  let x := if x <? MinimumDifficulty then MinimumDifficulty else x in
  addBomb ((h_Number parent + 1) / expDiffPeriod) x.

Definition calcDifficultyFrontier (time : Z) (parent : Header) : Z :=
  let adjust := h_Difficulty parent / DifficultyBoundDivisor in
  let diff := if time - h_Time parent <? DurationLimit then h_Difficulty parent + adjust else h_Difficulty parent - adjust in
  let diff := if diff <? MinimumDifficulty then MinimumDifficulty else diff in
  let periodCount := (h_Number parent + 1) / expDiffPeriod in
  if 1 <? periodCount then BigMax (diff + 2 ^ (periodCount - 2)) MinimumDifficulty else diff.

Definition CalcDifficulty (emptyUncleHash : bytes) (config : ChainConfig) (time : Z) (parent : Header) : Z :=
  let next := h_Number parent + 1 in
  if IsByzantium config (Some next) then calcDifficultyByzantium emptyUncleHash time parent
  else if IsHomestead config (Some next) then calcDifficultyHomestead time parent
  else calcDifficultyFrontier time parent.

(** * misc *)

Definition DAOForkExtraRange : Z := 10.
(** "dao-hard-fork" *)
Definition DAOForkBlockExtra : bytes := [100; 97; 111; 45; 104; 97; 114; 100; 45; 102; 111; 114; 107].

Inductive header_error :=
| errExtraTooLong | errLargeBlockTime | ErrFutureBlock | errZeroBlockTime | errDifficulty (have want : Z) | errGasLimitCap | errGasUsed
| errGasLimit | ErrInvalidNumber | errInvalidDifficulty | errInvalidMixDigest | errInvalidPoW | ErrBadProDAOExtra | ErrBadNoDAOExtra | errForkHash
| ErrUnknownAncestor | errTooManyUncles | errDuplicateUncle | errUncleIsAncestor | errDanglingUncle.

Definition VerifyDAOHeaderExtraData (config : ChainConfig) (header : Header) : option header_error :=
  match DAOForkBlock config with
  | None => None
  | Some fork =>
      if (h_Number header <? fork) || (fork + DAOForkExtraRange <=? h_Number header) then None
      else if DAOForkSupport config then
        if negb (bool_decide (h_Extra header = DAOForkBlockExtra)) then Some ErrBadProDAOExtra else None
      else if bool_decide (h_Extra header = DAOForkBlockExtra) then Some ErrBadNoDAOExtra else None
  end.

Definition ApplyDAOHardFork {DB} `{StateDB DB} (setBalance : bytes -> Z -> DB -> DB) (refundContract : bytes) (drainList : list bytes) (db : DB) : DB :=
  let db := if negb (Exist db refundContract) then CreateAccount refundContract db else db in
  foldl (fun db addr => setBalance addr 0 (AddBalance refundContract (GetBalance db addr) db)) db drainList.

(** * Headers *)

Inductive Mode := ModeNormal | ModeShared | ModeTest | ModeFake | ModeFullFake.
Definition isFake (m : Mode) : bool := match m with ModeFake | ModeFullFake => true | _ => false end.
Definition isFullFake (m : Mode) : bool := match m with ModeFullFake => true | _ => false end.

Definition maxUint256 : Z := 2 ^ 256.
Definition allowedFutureBlockTime : Z := 15.

Section engine.
Context (sha : bytes -> bytes) (config : ChainConfig) (mode : Mode) (fakeFail : Z) (now : Z).
(** [hashimotoLight] for a block number, sealing hash and nonce: the mix digest and the result. *)
Context (hashimoto : Z -> bytes -> Z -> bytes * bytes).
Context (GetHeader : bytes -> Z -> option Header) (GetBlock : bytes -> Z -> option Block).

Definition VerifyForkHashes (header : Header) (uncle : bool) : option header_error :=
  if uncle then None
  else
    match EIP150Block config with
    | Some n =>
        if (n =? h_Number header) && negb (bool_decide (EIP150Hash config = replicate HashLength 0)) && negb (bool_decide (EIP150Hash config = Header_Hash sha header))
        then Some errForkHash else None
    | None => None
    end.

(** Without a shared engine to delegate to. *)
Definition VerifySeal (header : Header) : option header_error :=
  if isFake mode then if fakeFail =? u64 (h_Number header) then Some errInvalidPoW else None
  else if h_Difficulty header <=? 0 then Some errInvalidDifficulty
  else
    let (digest, result) := hashimoto (u64 (h_Number header)) (HashNoNonce sha header) (be_val (h_Nonce header)) in
    if negb (bool_decide (h_MixDigest header = digest)) then Some errInvalidMixDigest
    else if maxUint256 / h_Difficulty header <? be_val result then Some errInvalidPoW
    else None.

Definition orElse (a b : option header_error) : option header_error := match a with Some e => Some e | None => b end.

Definition verifyHeader (header parent : Header) (uncle seal : bool) : option header_error :=
  if MaximumExtraDataSize <? u64 (zlen (h_Extra header)) then Some errExtraTooLong
  else if uncle && (2 ^ 256 - 1 <? h_Time header) then Some errLargeBlockTime
  else if negb uncle && (now + allowedFutureBlockTime <? h_Time header) then Some ErrFutureBlock
  else if h_Time header <=? h_Time parent then Some errZeroBlockTime
  else
    let expected := CalcDifficulty (EmptyUncleHash sha) config (u64 (h_Time header)) parent in
    if negb (expected =? h_Difficulty header) then Some (errDifficulty (h_Difficulty header) expected)
    else if 0x7fffffffffffffff <? h_GasLimit header then Some errGasLimitCap
    else if h_GasLimit header <? h_GasUsed header then Some errGasUsed
    else
      let diff := i64 (i64 (h_GasLimit parent) - i64 (h_GasLimit header)) in
      let diff := if diff <? 0 then i64 (diff * -1) else diff in
      let limit := h_GasLimit parent / GasLimitBoundDivisor in
      if (limit <=? u64 diff) || (h_GasLimit header <? MinGasLimit) then Some errGasLimit
      else if negb (h_Number header - h_Number parent =? 1) then Some ErrInvalidNumber
      else
        orElse (if seal then VerifySeal header else None)
          (orElse (VerifyDAOHeaderExtraData config header) (VerifyForkHashes header uncle)).

Definition VerifyHeader (header : Header) (seal : bool) : option header_error :=
  if isFullFake mode then None
  else
    let number := u64 (h_Number header) in
    match GetHeader (Header_Hash sha header) number with
    | Some _ => None
    | None =>
        match GetHeader (h_ParentHash header) (u64 (number - 1)) with
        | None => Some ErrUnknownAncestor
        | Some parent => verifyHeader header parent false seal
        end
    end.

(** The verdict on one header of a batch. *)
Definition verifyHeaderWorker (headers : list Header) (seals : list bool) (index : nat) : outcome header_error unit :=
  let! header := must (headers !! index) in
  let! seal := must (seals !! index) in
  let! parent :=
    match index with
    | O => Ok (GetHeader (h_ParentHash header) (u64 (u64 (h_Number header) - 1)))
    | S i => let! prev := must (headers !! i) in Ok (if bool_decide (Header_Hash sha prev = h_ParentHash header) then Some prev else None)
    end in
  match parent with
  | None => Err ErrUnknownAncestor
  | Some parent =>
      match GetHeader (Header_Hash sha header) (u64 (h_Number header)) with
      | Some _ => Ok tt
      | None => match verifyHeader header parent false seal with Some e => Err e | None => Ok tt end
      end
  end.

(** * Uncles *)

Definition maxUncles : Z := 2.

(** Ancestors and their uncles, most recent first. *)
Fixpoint gather (n : nat) (parent : bytes) (number : Z) (uncles : gset bytes) (ancestors : gmap bytes Header) : gset bytes * gmap bytes Header :=
  match n with
  | O => (uncles, ancestors)
  | S n =>
      match GetBlock parent number with
      | None => (uncles, ancestors)
      | Some ancestor =>
          gather n (h_ParentHash (b_header ancestor)) (u64 (number - 1))
            (foldl (fun us uncle => us ∪ {[Header_Hash sha uncle]}) uncles (b_uncles ancestor))
            (<[Block_Hash sha ancestor := b_header ancestor]> ancestors)
      end
  end.

Fixpoint verifyUncles (block : Block) (ancestors : gmap bytes Header) (us : list Header) (uncles : gset bytes) : option header_error :=
  match us with
  | [] => None
  | uncle :: us =>
      let hash := Header_Hash sha uncle in
      if bool_decide (hash ∈ uncles) then Some errDuplicateUncle
      else
        let uncles := uncles ∪ {[hash]} in
        if bool_decide (is_Some (ancestors !! hash)) then Some errUncleIsAncestor
        else
          match ancestors !! h_ParentHash uncle with
          | None => Some errDanglingUncle
          | Some parent =>
              if bool_decide (h_ParentHash uncle = h_ParentHash (b_header block)) then Some errDanglingUncle
              else orElse (verifyHeader uncle parent true true) (verifyUncles block ancestors us uncles)
          end
  end.

Definition VerifyUncles (block : Block) : option header_error :=
  if isFullFake mode then None
  else if maxUncles <? zlen (b_uncles block) then Some errTooManyUncles
  else
    let (uncles, ancestors) := gather 7 (h_ParentHash (b_header block)) (u64 (u64 (h_Number (b_header block)) - 1)) ∅ ∅ in
    let ancestors := <[Block_Hash sha block := b_header block]> ancestors in
    verifyUncles block ancestors (b_uncles block) (uncles ∪ {[Block_Hash sha block]}).

(** [Prepare] *)
Definition Prepare (header : Header) : outcome header_error Z :=
  match GetHeader (h_ParentHash header) (u64 (u64 (h_Number header) - 1)) with
  | None => Err ErrUnknownAncestor
  | Some parent => Ok (CalcDifficulty (EmptyUncleHash sha) config (u64 (h_Time header)) parent)
  end.
End engine.

(** * Rewards *)

Definition FrontierBlockReward : Z := 5 * 10 ^ 18.
Definition ByzantiumBlockReward : Z := 3 * 10 ^ 18.

Fixpoint rewardUncles {DB} `{StateDB DB} (header : Header) (blockReward : Z) (uncles : list Header) (reward : Z) (db : DB) : DB * Z :=
  match uncles with
  | [] => (db, reward)
  | uncle :: uncles =>
      let r := (h_Number uncle + 8 - h_Number header) * blockReward / 8 in
      let db := AddBalance (h_Coinbase uncle) r db in
      rewardUncles header blockReward uncles (reward + blockReward / 32) db
  end.

Definition accumulateRewards {DB} `{StateDB DB} (config : ChainConfig) (header : Header) (uncles : list Header) (db : DB) : DB :=
  let blockReward := if IsByzantium config (Some (h_Number header)) then ByzantiumBlockReward else FrontierBlockReward in
  let (db, reward) := rewardUncles header blockReward uncles blockReward db in
  AddBalance (h_Coinbase header) reward db.

(** * Difficulty adjusts within bounds *)

(** What the bomb adds, and the number of the period it goes by. *)
Definition bomb (config : ChainConfig) (parent : Header) : Z :=
  let n := h_Number parent in
  let period := (if IsByzantium config (Some (n + 1)) then Z.max 0 (n - 2999999) else n + 1) / expDiffPeriod in
  if 1 <? period then 2 ^ (period - 2) else 0.

(** The sensitivity of a rule: how many 2048ths of the parent's difficulty to add. *)
Definition sensitivity (emptyUncleHash : bytes) (config : ChainConfig) (time : Z) (parent : Header) : Z :=
  let dt := time - h_Time parent in
  if IsByzantium config (Some (h_Number parent + 1)) then Z.max (-99) ((if bool_decide (h_UncleHash parent = emptyUncleHash) then 1 else 2) - dt / 9)
  else if IsHomestead config (Some (h_Number parent + 1)) then Z.max (-99) (1 - dt / 10)
  else if dt <? 13 then 1 else -1.

Lemma bomb_nonneg config parent : 0 <= bomb config parent.
Proof. unfold bomb. cbv zeta. case_match; [apply Z.pow_nonneg|]; lia. Qed.

Lemma addBomb_add p x : addBomb p x = x + (if 1 <? p then 2 ^ (p - 2) else 0).
Proof. unfold addBomb. destruct (1 <? p); lia. Qed.

Lemma if_lt_max a b : (if a <? b then b else a) = Z.max b a.
Proof. destruct (Z.ltb_spec a b); lia. Qed.

(** All three rules are one formula. *)
Lemma CalcDifficulty_formula empty config time parent :
  CalcDifficulty empty config time parent
  = Z.max MinimumDifficulty (h_Difficulty parent + h_Difficulty parent / 2048 * sensitivity empty config time parent) + bomb config parent.
Proof.
  unfold CalcDifficulty, sensitivity, bomb. cbv zeta. destruct (IsByzantium config _) eqn:EB; [|destruct (IsHomestead config _) eqn:EH].
  - unfold calcDifficultyByzantium. cbv zeta. rewrite addBomb_add, !if_lt_max. f_equal; [by destruct (bool_decide _)|].
    replace (if 2999999 <=? h_Number parent then h_Number parent - 2999999 else 0) with (Z.max 0 (h_Number parent - 2999999)); [done|]. case_match; lia.
  - unfold calcDifficultyHomestead. cbv zeta. by rewrite addBomb_add, !if_lt_max.
  - unfold calcDifficultyFrontier, BigMax. cbv zeta. rewrite !if_lt_max. change DifficultyBoundDivisor with 2048. change DurationLimit with 13.
    set (y := h_Difficulty parent / 2048). set (p := (h_Number parent + 1) / expDiffPeriod).
    assert (0 <= 2 ^ (p - 2)) by (apply Z.pow_nonneg; lia). destruct (_ <? 13), (1 <? p); lia.
Qed.

Lemma sensitivity_range empty config time parent : -99 <= sensitivity empty config time parent /\ (h_Time parent <= time -> sensitivity empty config time parent <= 2).
Proof. unfold sensitivity. cbv zeta. repeat case_match; split; intros; try lia; assert (0 <= (time - h_Time parent) / 9) by (apply Z.div_pos; lia); assert (0 <= (time - h_Time parent) / 10) by (apply Z.div_pos; lia); lia. Qed.

Lemma sensitivity_antitone empty config t1 t2 parent : t1 <= t2 -> sensitivity empty config t2 parent <= sensitivity empty config t1 parent.
Proof.
  intros Ht. unfold sensitivity. cbv zeta. pose proof (Z.div_le_mono (t1 - h_Time parent) (t2 - h_Time parent) 9 ltac:(lia) ltac:(lia)).
  pose proof (Z.div_le_mono (t1 - h_Time parent) (t2 - h_Time parent) 10 ltac:(lia) ltac:(lia)).
  destruct (IsByzantium _ _); [lia|]. destruct (IsHomestead _ _); [lia|]. destruct (Z.ltb_spec (t1 - h_Time parent) 13), (Z.ltb_spec (t2 - h_Time parent) 13); lia.
Qed.

Lemma sensitivity_fast empty config time parent : 0 <= time - h_Time parent < 9 -> 1 <= sensitivity empty config time parent.
Proof. intros Ht. unfold sensitivity. cbv zeta. rewrite !Z.div_small by lia. destruct (Z.ltb_spec (time - h_Time parent) 13); repeat case_match; lia. Qed.

Lemma sensitivity_slow empty config time parent : 18 <= time - h_Time parent -> sensitivity empty config time parent <= 0.
Proof.
  intros Ht. unfold sensitivity. cbv zeta. pose proof (Z.div_le_mono 18 (time - h_Time parent) 9 ltac:(lia) ltac:(lia)) as H9. pose proof (Z.div_le_mono 18 (time - h_Time parent) 10 ltac:(lia) ltac:(lia)) as H10.
  change (18 / 9) with 2 in H9. change (18 / 10) with 1 in H10. destruct (Z.ltb_spec (time - h_Time parent) 13); repeat case_match; lia.
Qed.

(** C36. Under every fork's rule, the difficulty of a block is at least the
    minimum plus the bomb; it moves by at most 2/2048ths of the parent's up and
    99/2048ths down; the later the block, the lower its difficulty; and it rises
    when the block comes within nine seconds, and does not when it takes eighteen. *)
Theorem difficulty_adjusts empty config parent time :
  0 <= h_Difficulty parent ->
  let D := h_Difficulty parent in let b := bomb config parent in let CD := CalcDifficulty empty config in
  0 <= b /\ MinimumDifficulty + b <= CD time parent /\ D - 99 * (D / 2048) + b <= CD time parent /\
  (h_Time parent <= time -> MinimumDifficulty <= D -> CD time parent <= D + 2 * (D / 2048) + b) /\
  (forall time', time <= time' -> CD time' parent <= CD time parent) /\
  (0 <= time - h_Time parent < 9 -> D + D / 2048 + b <= CD time parent) /\
  (18 <= time - h_Time parent -> CD time parent <= Z.max MinimumDifficulty D + b).
Proof.
  intros HD. cbv zeta. assert (Hy : 0 <= h_Difficulty parent / 2048) by (apply Z.div_pos; lia). pose proof (bomb_nonneg config parent).
  rewrite (CalcDifficulty_formula empty config time). destruct (sensitivity_range empty config time parent) as [Hs1 Hs2].
  repeat match goal with |- _ /\ _ => split end; [lia|lia|nia| | | |].
  - intros Ht Hm. specialize (Hs2 Ht). nia.
  - intros t' Ht. rewrite CalcDifficulty_formula. pose proof (sensitivity_antitone empty config _ _ parent Ht). nia.
  - intros Ht. pose proof (sensitivity_fast empty config time parent Ht). nia.
  - intros Ht. pose proof (sensitivity_slow empty config time parent Ht). nia.
Qed.

(** * Which headers are accepted *)

Lemma orElse_None a b : orElse a b = None <-> a = None /\ b = None.
Proof. destruct a; naive_solver. Qed.

Lemma verifyHeader_number sha config mode fakeFail now hashimoto header parent uncle seal :
  verifyHeader sha config mode fakeFail now hashimoto header parent uncle seal = None -> h_Number header = h_Number parent + 1.
Proof. unfold verifyHeader. cbv zeta. intros H. repeat case_match; try done; rewrite ?negb_false_iff in *; lia. Qed.

Section header_rules.
Context (sha : bytes -> bytes) (config : ChainConfig) (mode : Mode) (fakeFail : Z) (now : Z).
Context (hashimoto : Z -> bytes -> Z -> bytes * bytes).

(** The proof of work: the digest recorded, and a result times the difficulty within [2^256]. *)
Definition seal_valid (header : Header) : Prop :=
  if isFake mode then fakeFail <> u64 (h_Number header)
  else 0 < h_Difficulty header /\
    let work := hashimoto (u64 (h_Number header)) (HashNoNonce sha header) (be_val (h_Nonce header)) in
    h_MixDigest header = fst work /\ be_val (snd work) * h_Difficulty header <= 2 ^ 256.

(** In the ten blocks from the DAO fork on, the extra data tells the sides apart. *)
Definition dao_valid (header : Header) : Prop :=
  forall fork, DAOForkBlock config = Some fork -> fork <= h_Number header < fork + 10 ->
    (DAOForkSupport config = true <-> h_Extra header = DAOForkBlockExtra).

(** The block of the gas reprice fork is the one configured, if one is. *)
Definition fork_valid (header : Header) : Prop :=
  EIP150Block config = Some (h_Number header) -> EIP150Hash config <> replicate HashLength 0 -> Header_Hash sha header = EIP150Hash config.

Record header_valid (header parent : Header) (uncle seal : bool) : Prop := {
  hv_extra : zlen (h_Extra header) <= 32;
  hv_time : h_Time parent < h_Time header <= if uncle then 2 ^ 256 - 1 else now + 15;
  hv_difficulty : h_Difficulty header = CalcDifficulty (EmptyUncleHash sha) config (u64 (h_Time header)) parent;
  hv_gasUsed : h_GasUsed header <= h_GasLimit header;
  hv_gasLimit : 5000 <= h_GasLimit header < 2 ^ 63 /\ Z.abs (h_GasLimit header - h_GasLimit parent) < h_GasLimit parent / 1024;
  hv_number : h_Number header = h_Number parent + 1;
  hv_seal : seal = true -> seal_valid header;
  hv_dao : dao_valid header;
  hv_fork : uncle = false -> fork_valid header }.

Lemma VerifySeal_spec header : VerifySeal sha mode fakeFail hashimoto header = None <-> seal_valid header.
Proof.
  unfold VerifySeal, seal_valid. destruct (isFake mode).
  - destruct (Z.eqb_spec fakeFail (u64 (h_Number header))); naive_solver.
  - destruct (Z.leb_spec (h_Difficulty header) 0) as [|HD]; [split; [done|lia]|]. destruct (hashimoto _ _ _) as [digest result] eqn:E. cbn [fst snd].
    case_bool_decide as Hd; cbn [negb]; [|naive_solver]. unfold maxUint256.
    assert (Hq : be_val result * h_Difficulty header <= 2 ^ 256 <-> be_val result <= 2 ^ 256 / h_Difficulty header).
    { split; intros Hr; [apply Z.div_le_lower_bound; lia|]. pose proof (Z.mul_div_le (2 ^ 256) (h_Difficulty header) HD). nia. }
    destruct (Z.ltb_spec (2 ^ 256 / h_Difficulty header) (be_val result)); split; try done; [intros (_ & _ & ?%Hq); lia|]. intros _. split; [lia|]. split; [done|]. by apply Hq.
Qed.

Lemma VerifyDAO_spec header : VerifyDAOHeaderExtraData config header = None <-> dao_valid header.
Proof.
  unfold VerifyDAOHeaderExtraData, dao_valid. destruct (DAOForkBlock config) as [fork|]; [|naive_solver]. change DAOForkExtraRange with 10.
  destruct (Z.ltb_spec (h_Number header) fork), (Z.leb_spec (fork + 10) (h_Number header)); cbn; try (split; [intros _ f [= <-]; lia|done]).
  destruct (DAOForkSupport config); case_bool_decide as Hx; cbn; (split; [try done; intros _ f [= <-] _; naive_solver|]);
    intros Hf; specialize (Hf fork eq_refl ltac:(lia)); naive_solver.
Qed.

Lemma VerifyForkHashes_spec header uncle : VerifyForkHashes sha config header uncle = None <-> (uncle = false -> fork_valid header).
Proof.
  unfold VerifyForkHashes, fork_valid. destruct uncle; [naive_solver|]. destruct (EIP150Block config) as [n|]; [|naive_solver].
  destruct (Z.eqb_spec n (h_Number header)); case_bool_decide; case_bool_decide; cbn; naive_solver.
Qed.

(** The signed difference of two limits below [2^63] is their difference. *)
Lemma gas_difference p h : 0 <= p < 2 ^ 63 -> 0 <= h < 2 ^ 63 ->
  u64 (let diff := i64 (i64 p - i64 h) in if diff <? 0 then i64 (diff * -1) else diff) = Z.abs (h - p).
Proof.
  intros Hp Hh. assert (Hi : forall x, - 2 ^ 63 <= x < 2 ^ 63 -> i64 x = x) by apply i64_small.
  cbv zeta. rewrite !Hi by (rewrite ?Hi by lia; lia). destruct (Z.ltb_spec (p - h) 0); rewrite ?Hi by lia; rewrite u64_small; unfold is_u64; lia.
Qed.

(** C33. A header is accepted exactly when it satisfies the rules of block validity:
    bounded extra data, a time after the parent's and not in the future, the
    computed difficulty, gas within the limit, a limit that moved by less than a
    1024th, the next number, a proof of work that meets the difficulty, and the
    marks of the forks. *)
Theorem header_accepted header parent uncle seal :
  zlen (h_Extra header) < 2 ^ 64 -> is_u64 (h_GasLimit header) -> 0 <= h_GasLimit parent < 2 ^ 63 ->
  verifyHeader sha config mode fakeFail now hashimoto header parent uncle seal = None <-> header_valid header parent uncle seal.
Proof.
  intros Hx Hg Hp. unfold verifyHeader. rewrite u64_small by (unfold is_u64, zlen in *; lia). change MaximumExtraDataSize with 32.
  destruct (Z.ltb_spec 32 (zlen (h_Extra header))); [split; [done|intros []; lia]|].
  destruct (uncle && _) eqn:E1; [split; [done|intros [? Ht]; destruct uncle; [cbn in E1; apply Z.ltb_lt in E1; lia|done]]|].
  destruct (negb uncle && _) eqn:E2; [split; [done|intros [? Ht]; destruct uncle; [done|cbn in E2; apply Z.ltb_lt in E2; unfold allowedFutureBlockTime in E2; lia]]|].
  destruct (Z.leb_spec (h_Time header) (h_Time parent)); [split; [done|intros []; lia]|]. cbv zeta.
  destruct (Z.eqb_spec (CalcDifficulty (EmptyUncleHash sha) config (u64 (h_Time header)) parent) (h_Difficulty header)) as [HD|HD]; cbn [negb]; [|split; [done|intros []; congruence]].
  destruct (Z.ltb_spec 0x7fffffffffffffff (h_GasLimit header)); [split; [done|intros []; lia]|].
  destruct (Z.ltb_spec (h_GasLimit header) (h_GasUsed header)); [split; [done|intros []; lia]|].
  rewrite gas_difference by (unfold is_u64 in Hg; lia). change GasLimitBoundDivisor with 1024. change MinGasLimit with 5000.
  destruct (Z.leb_spec (h_GasLimit parent / 1024) (Z.abs (h_GasLimit header - h_GasLimit parent))); cbn [orb]; [split; [done|intros []; lia]|].
  destruct (Z.ltb_spec (h_GasLimit header) 5000); [split; [done|intros []; lia]|].
  destruct (Z.eqb_spec (h_Number header - h_Number parent) 1); cbn [negb]; [|split; [done|intros []; lia]].
  rewrite !orElse_None, VerifyDAO_spec, VerifyForkHashes_spec. split.
  - intros (Hs & Hd & Hf). constructor; try done; try lia; [|by intros ->; apply VerifySeal_spec].
    destruct uncle; cbn in E1, E2; [apply Z.ltb_ge in E1; lia|apply Z.ltb_ge in E2; unfold allowedFutureBlockTime in E2; lia].
  - intros []. split_and!; try done. destruct seal; [by apply VerifySeal_spec, hv_seal0|done].
Qed.
End header_rules.

(** * Which uncles are accepted *)

Section uncle_rules.
Context (sha : bytes -> bytes) (config : ChainConfig) (mode : Mode) (fakeFail : Z) (now : Z).
Context (hashimoto : Z -> bytes -> Z -> bytes * bytes).
Context (GetBlock : bytes -> Z -> option Block).

(** What the chain answers: the block with that hash and number. *)
Definition chain_ok : Prop :=
  forall h n b, GetBlock h n = Some b -> Block_Hash sha b = h /\ h_Number (b_header b) = n /\ 0 <= n < 2 ^ 63 /\ forall n' b', GetBlock h n' = Some b' -> b' = b.

(** The ancestor [d] generations above a block's parent. *)
Fixpoint ancestor (d : nat) (parent : bytes) (number : Z) : option Block :=
  match GetBlock parent number, d with
  | None, _ => None
  | Some b, O => Some b
  | Some b, S d => ancestor d (h_ParentHash (b_header b)) (u64 (number - 1))
  end.

Definition ancestorOf (block : Block) (d : nat) : option Block := ancestor d (h_ParentHash (b_header block)) (u64 (u64 (h_Number (b_header block)) - 1)).

Lemma ancestor_number d parent number b : chain_ok -> is_u64 number -> ancestor d parent number = Some b ->
  h_Number (b_header b) = number - Z.of_nat d /\ GetBlock (Block_Hash sha b) (number - Z.of_nat d) = Some b.
Proof.
  intros Hc. revert parent number. induction d as [|d IH]; intros parent number Hn; cbn [ancestor]; destruct (GetBlock parent number) as [a|] eqn:E; try done.
  - intros [= <-]. destruct (Hc _ _ _ E) as (-> & ? & _). by rewrite Z.sub_0_r.
  - intros Ha. destruct (Hc _ _ _ E) as (_ & Hnum & Hb & _). destruct (decide (number = 0)) as [->|Hz].
    + change (u64 (0 - 1)) with (2 ^ 64 - 1) in Ha. destruct d; cbn [ancestor] in Ha; (destruct (GetBlock _ (2 ^ 64 - 1)) eqn:E'; [|done]); apply Hc in E'; lia.
    + rewrite u64_small in Ha by (unfold is_u64 in *; lia). apply IH in Ha; [|unfold is_u64 in *; lia]. by replace (number - Z.of_nat (S d)) with (number - 1 - Z.of_nat d) by lia.
Qed.

(** The gathered sets are the last ancestors, and their uncles. *)
Lemma gather_uncles n parent number us an h :
  h ∈ (gather sha GetBlock n parent number us an).1 <->
  h ∈ us \/ exists d b, (d < n)%nat /\ ancestor d parent number = Some b /\ h ∈ map (Header_Hash sha) (b_uncles b).
Proof.
  revert parent number us an. induction n as [|n IH]; intros parent number us an; cbn [gather]; [cbn; naive_solver lia|].
  destruct (GetBlock parent number) as [a|] eqn:E.
  - rewrite IH. assert (Hf : h ∈ foldl (fun us uncle => us ∪ {[Header_Hash sha uncle]}) us (b_uncles a) <-> h ∈ us \/ h ∈ map (Header_Hash sha) (b_uncles a)).
    { clear. generalize (b_uncles a) as l. intros l. revert us. induction l as [|u l IH]; intros us; cbn; [set_solver|]. rewrite IH. set_solver. }
    rewrite Hf. split.
    + intros [[?|?]|(d & b & ? & ? & ?)]; [by left|right; exists O, a; cbn; rewrite E; split_and!; [lia|done..]|right; exists (S d), b; cbn; rewrite E; split_and!; [lia|done..]].
    + intros [?|(d & b & Hd & Ha & ?)]; [by left; left|]. destruct d as [|d]; cbn in Ha; rewrite E in Ha; [injection Ha as ->; by left; right|]. right. exists d, b. split_and!; [lia|done..].
  - cbn. split; [by left|]. intros [?|(d & b & _ & Ha & _)]; [done|]. destruct d; cbn in Ha; by rewrite E in Ha.
Qed.

Lemma gather_ancestors n parent number us an h : chain_ok -> (forall x, an !! h = Some x -> exists m b, GetBlock h m = Some b /\ x = b_header b) ->
  forall x, (gather sha GetBlock n parent number us an).2 !! h = Some x <->
  an !! h = Some x \/ exists d b, (d < n)%nat /\ ancestor d parent number = Some b /\ Block_Hash sha b = h /\ x = b_header b.
Proof.
  intros Hc. revert parent number us an. induction n as [|n IH]; intros parent number us an Han x; cbn [gather]; [cbn; naive_solver lia|].
  destruct (GetBlock parent number) as [a|] eqn:E.
  - destruct (Hc _ _ _ E) as (Hh & _ & _ & Hu). rewrite IH.
    2: { intros y. destruct (decide (Block_Hash sha a = h)) as [<-|]; [rewrite lookup_insert_eq|rewrite lookup_insert_ne by done; eauto]. intros [= <-]. exists number, a. by rewrite Hh. }
    split.
    + intros [Hl|(d & b & ? & ? & ? & ?)]; [|right; exists (S d), b; cbn; rewrite E; split_and!; [lia|done..]].
      destruct (decide (Block_Hash sha a = h)) as [<-|]; [rewrite lookup_insert_eq in Hl|rewrite lookup_insert_ne in Hl by done; by left].
      right. exists O, a. cbn. rewrite E. split_and!; [lia|done..|congruence].
    + intros [Hl|(d & b & Hd & Ha & <- & ->)].
      * left. destruct (decide (Block_Hash sha a = h)) as [<-|]; [|by rewrite lookup_insert_ne]. rewrite lookup_insert_eq. destruct (Han _ Hl) as (m & b & Hb & ->). rewrite Hh in Hb. by rewrite (Hu _ _ Hb).
      * destruct d as [|d]; cbn in Ha; rewrite E in Ha; [injection Ha as ->; left; apply lookup_insert_eq|]. right. exists d, b. split_and!; [lia|done..].
  - cbn. split; [by left|]. intros [?|(d & b & _ & Ha & _)]; [done|]. destruct d; cbn in Ha; by rewrite E in Ha.
Qed.

(** Each uncle passes against the sets collected. *)
Lemma verifyUncles_spec block an us seen :
  verifyUncles sha config mode fakeFail now hashimoto block an us seen = None <->
  NoDup (map (Header_Hash sha) us) /\ Forall (fun u => Header_Hash sha u ∉ seen /\ an !! Header_Hash sha u = None /\ h_ParentHash u <> h_ParentHash (b_header block) /\
    exists p, an !! h_ParentHash u = Some p /\ verifyHeader sha config mode fakeFail now hashimoto u p true true = None) us.
Proof.
  revert seen. induction us as [|u us IH]; intros seen; cbn [verifyUncles map]; [split; [intros _; split; constructor|done]|]. rewrite NoDup_cons, Forall_cons.
  case_bool_decide as H1; [naive_solver|]. destruct (an !! Header_Hash sha u) eqn:E; [rewrite bool_decide_eq_true_2 by eauto; naive_solver|]. rewrite bool_decide_eq_false_2 by (by intros []).
  destruct (an !! h_ParentHash u) as [p|] eqn:Ep; [|naive_solver]. case_bool_decide as H2; [naive_solver|]. rewrite orElse_None, IH.
  assert (Hs : forall x, Header_Hash sha x ∉ seen ∪ {[Header_Hash sha u]} <-> Header_Hash sha x ∉ seen /\ Header_Hash sha x <> Header_Hash sha u) by set_solver.
  split.
  - intros (Hv & Hd & Hf). split_and!; try done; [|naive_solver|].
    + rewrite list_elem_of_fmap. intros (x & Hx & Hin). rewrite Forall_forall in Hf. apply (proj1 (Hs _) (proj1 (Hf x Hin))). done.
    + eapply Forall_impl; [exact Hf|]. cbn. intros x (?%Hs & ?). naive_solver.
  - intros ((Hn & Hd) & (_ & _ & _ & p' & [= <-] & Hv) & Hf). split_and!; try done. apply Forall_forall. intros x Hx. rewrite Forall_forall in Hf. destruct (Hf x Hx) as (? & ?).
    split; [|done]. apply Hs. split; [done|]. intros Heq. apply Hn. rewrite list_elem_of_fmap. eauto.
Qed.

(** An uncle is new, and a valid child of a recent ancestor other than the parent. *)
Definition uncle_valid (block : Block) (u : Header) : Prop :=
  Header_Hash sha u <> Block_Hash sha block /\
  (forall d a, (d < 7)%nat -> ancestorOf block d = Some a -> Header_Hash sha u <> Block_Hash sha a /\ Header_Hash sha u ∉ map (Header_Hash sha) (b_uncles a)) /\
  exists d a, (1 <= d < 7)%nat /\ ancestorOf block d = Some a /\ h_ParentHash u = Block_Hash sha a /\
    h_Number (b_header a) = h_Number (b_header block) - 1 - Z.of_nat d /\ verifyHeader sha config mode fakeFail now hashimoto u (b_header a) true true = None.

Lemma uncle_ok (block : Block) (A : gmap bytes Header) (U : gset bytes) (u : Header) : chain_ok -> 1 <= h_Number (b_header block) < 2 ^ 63 -> h_ParentHash u <> Block_Hash sha block ->
  (forall h, h ∈ U <-> h ∈ (∅ : gset bytes) \/ exists d b, (d < 7)%nat /\ ancestorOf block d = Some b /\ h ∈ map (Header_Hash sha) (b_uncles b)) ->
  (forall h x, A !! h = Some x <-> (∅ : gmap bytes Header) !! h = Some x \/ exists d b, (d < 7)%nat /\ ancestorOf block d = Some b /\ Block_Hash sha b = h /\ x = b_header b) ->
  (Header_Hash sha u ∉ U ∪ {[Block_Hash sha block]} /\ <[Block_Hash sha block := b_header block]> A !! Header_Hash sha u = None /\ h_ParentHash u <> h_ParentHash (b_header block) /\
    exists p, <[Block_Hash sha block := b_header block]> A !! h_ParentHash u = Some p /\ verifyHeader sha config mode fakeFail now hashimoto u p true true = None)
  <-> uncle_valid block u.
Proof.
  intros Hc Hn Hcy HU HA. unfold uncle_valid. rewrite lookup_insert_None, not_elem_of_union, not_elem_of_singleton. setoid_rewrite (lookup_insert_ne _ (Block_Hash sha block)); [|done].
  assert (Hnum : forall d b, ancestorOf block d = Some b -> h_Number (b_header b) = h_Number (b_header block) - 1 - Z.of_nat d /\ GetBlock (Block_Hash sha b) (h_Number (b_header block) - 1 - Z.of_nat d) = Some b).
  { intros d b Ha. unfold ancestorOf in Ha. rewrite (u64_small (h_Number (b_header block))), u64_small in Ha by (unfold is_u64; lia). apply ancestor_number in Ha; [done|done|unfold is_u64; lia]. }
  assert (H0 : forall b, ancestorOf block 0 = Some b -> Block_Hash sha b = h_ParentHash (b_header block)).
  { unfold ancestorOf. cbn. intros b. destruct (GetBlock _ _) eqn:E; [|done]. intros [= <-]. by apply Hc in E as [? _]. }
  split.
  - intros ((HnU & Hb) & (HnA & _) & Hp & p & Hl & Hv). split_and!; [done| |].
    + intros d a Hd Ha. split; [|intros Hin; apply HnU, HU; right; eauto]. intros Heq. assert (A !! Header_Hash sha u = Some (b_header a)) as Hs by (apply HA; right; by exists d, a). by rewrite HnA in Hs.
    + apply HA in Hl as [Hl|(d & a & Hd & Ha & Hh & ->)]; [by rewrite lookup_empty in Hl|]. exists d, a. split_and!; try done; [|by apply Hnum]. destruct d; [|lia]. apply H0 in Ha. congruence.
  - intros (Hb & Hall & d & a & Hd & Ha & Hh & Hm & Hv). split_and!; try done.
    + intros [?|(e & b & He & Hbn & Hin)]%HU; [set_solver|]. by destruct (Hall _ _ He Hbn).
    + destruct (A !! Header_Hash sha u) eqn:E; [|done]. apply HA in E as [E|(e & b & He & Hbn & Hin & _)]; [by rewrite lookup_empty in E|]. by destruct (Hall _ _ He Hbn).
    + rewrite Hh. destruct (Hnum _ _ Ha) as [_ Hg]. intros Heq. destruct (Hc _ _ _ Hg) as (_ & Hna & _). unfold ancestorOf in Ha.
      assert (exists b, ancestorOf block 0 = Some b) as [b Hb0] by (unfold ancestorOf; destruct d; [lia|]; cbn in *; destruct (GetBlock (h_ParentHash (b_header block)) _); [eauto|done]).
      destruct (Hnum _ _ Hb0) as [Hnb Hgb]. rewrite (H0 _ Hb0), <- Heq in Hgb. destruct (Hc _ _ _ Hg) as (_ & _ & _ & Hu). rewrite (Hu _ _ Hgb) in Hnb. lia.
    + exists (b_header a). split; [|done]. apply HA. right. exists d, a. split_and!; [lia|done..].
Qed.

Lemma VerifyUncles_spec block : chain_ok -> isFullFake mode = false -> 1 <= h_Number (b_header block) < 2 ^ 63 ->
  Forall (fun u => h_ParentHash u <> Block_Hash sha block) (b_uncles block) ->
  VerifyUncles sha config mode fakeFail now hashimoto GetBlock block = None <->
  zlen (b_uncles block) <= 2 /\ NoDup (map (Header_Hash sha) (b_uncles block)) /\ Forall (uncle_valid block) (b_uncles block).
Proof.
  intros Hc Hm Hn Hcy. unfold VerifyUncles. rewrite Hm. change maxUncles with 2. destruct (Z.ltb_spec 2 (zlen (b_uncles block))); [split; [done|lia]|].
  pose proof (gather_uncles 7 (h_ParentHash (b_header block)) (u64 (u64 (h_Number (b_header block)) - 1)) ∅ ∅) as HU.
  pose proof (fun h => gather_ancestors 7 (h_ParentHash (b_header block)) (u64 (u64 (h_Number (b_header block)) - 1)) ∅ ∅ h Hc ltac:(by intros x ?%lookup_empty_Some)) as HA.
  destruct (gather _ _ _ _ _ _ _) as [U A]. cbn [fst snd] in HU, HA. rewrite verifyUncles_spec. split.
  - intros [Hd Hf]. split_and!; try done. apply Forall_forall. intros u Hu. rewrite Forall_forall in Hf, Hcy. apply (uncle_ok block A U); auto.
  - intros (_ & Hd & Hf). split; [done|]. apply Forall_forall. intros u Hu. rewrite Forall_forall in Hf, Hcy. apply (uncle_ok block A U); auto.
Qed.

(** The uncles of a block are accepted exactly when there are at most two, they
    are distinct, none is the block, an ancestor or an uncle of one of the last
    seven ancestors, and each is a valid child of the second to the seventh of
    those ancestors.  No uncle names the block that includes it as its parent:
    the hash of the block covers them. *)
Theorem uncles_accepted block : chain_ok -> isFullFake mode = false -> 1 <= h_Number (b_header block) < 2 ^ 63 ->
  Forall (fun u => h_ParentHash u <> Block_Hash sha block) (b_uncles block) ->
  VerifyUncles sha config mode fakeFail now hashimoto GetBlock block = None <->
  zlen (b_uncles block) <= 2 /\ NoDup (map (Header_Hash sha) (b_uncles block)) /\ Forall (uncle_valid block) (b_uncles block).
Proof. apply VerifyUncles_spec. Qed.
End uncle_rules.

(** * What is paid *)

(** A world with more on some balances. *)
Definition credit (f : bytes -> Z) (w : World) : World :=
  MkWorld (fun a => w_balance w a + f a) (w_nonce w) (w_code w) (w_storage w) (w_suicided w) (w_refund w) (w_exist w).
Definition to (a : bytes) (x : Z) : bytes -> Z := fun b => if bool_decide (b = a) then x else 0.

Definition blockReward (config : ChainConfig) (header : Header) : Z :=
  if IsByzantium config (Some (h_Number header)) then 3 * 10 ^ 18 else 5 * 10 ^ 18.

(** An eighth less than the full reward for every generation an uncle is late. *)
Definition uncleShares (R : Z) (header : Header) (uncles : list Header) (a : bytes) : Z :=
  foldr (fun u s => to (h_Coinbase u) ((8 - (h_Number header - h_Number u)) * R / 8) a + s) 0 uncles.
Definition minerShare (R : Z) (uncles : list Header) : Z := R + zlen uncles * (R / 32).

Section rewards.
Context {DB : Type} `{HDB : StateDB DB} (hash : bytes -> bytes) `{!StateDBLaws DB hash}.

Lemma AddBalance_credit (db : DB) a x : db_ok db -> 0 <= x -> db_ok (AddBalance a x db) /\ same_accounts (world (AddBalance a x db)) (credit (to a x) (world db)).
Proof.
  intros Hok Hx. destruct (AddBalance_ok db a x Hok Hx) as (Hok' & Hs & _). split; [done|]. rewrite Hs. constructor; try done.
  intros b. cbn. unfold upd, to. case_bool_decide; subst; lia.
Qed.

Lemma credit_credit f g h w w' : same_accounts w' (credit f w) -> (forall a, f a + g a = h a) -> same_accounts (credit g w') (credit h w).
Proof. intros [] Hh. constructor; try done. intros a. cbn. rewrite <- Hh, sa_balance. cbn. lia. Qed.

Lemma rewardUncles_ok header R uncles reward (db : DB) : 0 <= R -> db_ok db -> Forall (fun u => h_Number header - h_Number u <= 8) uncles ->
  let (db', reward') := rewardUncles header R uncles reward db in
  db_ok db' /\ same_accounts (world db') (credit (uncleShares R header uncles) (world db)) /\ reward' = reward + zlen uncles * (R / 32).
Proof.
  intros HR. revert reward db. induction uncles as [|u uncles IH]; intros reward db Hok Hn; cbn [rewardUncles].
  - split; [done|]. split; [|unfold zlen; cbn; lia]. constructor; try done. intros a. cbn. lia.
  - apply Forall_cons_1 in Hn as [Hu Hn]. replace (h_Number u + 8 - h_Number header) with (8 - (h_Number header - h_Number u)) by lia.
    destruct (AddBalance_credit db (h_Coinbase u) ((8 - (h_Number header - h_Number u)) * R / 8) Hok) as [Hok' Hs]; [apply Z.div_pos; nia|].
    specialize (IH (reward + R / 32) _ Hok' Hn). destruct (rewardUncles _ _ _ _ _) as [db' reward']. destruct IH as (? & Hs' & ->). split; [done|].
    split; [|rewrite zlen_cons; lia]. rewrite Hs'. eapply credit_credit; [exact Hs|done].
Qed.

Lemma accumulateRewards_ok config header uncles (db : DB) : db_ok db -> Forall (fun u => h_Number header - h_Number u <= 8) uncles ->
  let R := blockReward config header in let db' := accumulateRewards config header uncles db in
  db_ok db' /\ same_accounts (world db') (credit (fun a => uncleShares R header uncles a + to (h_Coinbase header) (minerShare R uncles) a) (world db)).
Proof.
  intros Hok Hn. cbv zeta. unfold accumulateRewards. change (if IsByzantium config (Some (h_Number header)) then ByzantiumBlockReward else FrontierBlockReward) with (blockReward config header).
  assert (0 <= blockReward config header) as HR by (unfold blockReward; case_match; lia).
  pose proof (rewardUncles_ok header (blockReward config header) uncles (blockReward config header) db HR Hok Hn) as Hr. destruct (rewardUncles _ _ _ _ _) as [db' reward]. destruct Hr as (Hok' & Hs & ->).
  destruct (AddBalance_credit db' (h_Coinbase header) (minerShare (blockReward config header) uncles) Hok') as [? Hs'].
  { unfold minerShare. assert (0 <= blockReward config header / 32) by (apply Z.div_pos; lia). unfold zlen. nia. }
  split; [done|]. rewrite Hs'. by eapply credit_credit; [exact Hs|].
Qed.

(** C34. When the uncles of a block were accepted, paying its rewards credits the
    miner with the block reward and a 32nd of it for each uncle, the miner of each
    uncle with the reward less an eighth for each of the one to six generations
    it is late, and changes nothing else of any account. *)
Theorem rewards_paid sha config mode fakeFail now hashimoto GetBlock block (db : DB) :
  chain_ok sha GetBlock -> isFullFake mode = false -> 1 <= h_Number (b_header block) < 2 ^ 63 -> Forall (fun u => h_ParentHash u <> Block_Hash sha block) (b_uncles block) ->
  VerifyUncles sha config mode fakeFail now hashimoto GetBlock block = None -> db_ok db ->
  let header := b_header block in let uncles := b_uncles block in let R := blockReward config header in let db' := accumulateRewards config header uncles db in
  zlen uncles <= 2 /\ Forall (fun u => 1 <= h_Number header - h_Number u <= 6) uncles /\ db_ok db' /\
  same_accounts (world db') (credit (fun a => uncleShares R header uncles a + to (h_Coinbase header) (minerShare R uncles) a) (world db)).
Proof.
  intros Hc Hm Hn Hcy Hv Hok. cbv zeta. apply VerifyUncles_spec in Hv as (Hl & _ & Hf); [|done..].
  assert (Hd : Forall (fun u => 1 <= h_Number (b_header block) - h_Number u <= 6) (b_uncles block)).
  { eapply Forall_impl; [exact Hf|]. intros u (_ & _ & d & a & Hd & _ & _ & Ha & Hu). apply verifyHeader_number in Hu. lia. }
  split_and!; [done..| |]; apply accumulateRewards_ok; try done; (eapply Forall_impl; [exact Hd|]); cbn; lia.
Qed.
End rewards.

(** * A short chain *)

Module ChainSample.

(** Hashes that are injective, and a chain given by its blocks. *)
Definition plainHash (b : bytes) : bytes := b.
Definition listed (blocks : list Block) (h : bytes) (n : Z) : option Block :=
  head (filter (fun b => Block_Hash plainHash b = h /\ h_Number (b_header b) = n) blocks).

Lemma listed_ok blocks : NoDup (map (Block_Hash plainHash) blocks) -> Forall (fun b => 0 <= h_Number (b_header b) < 2 ^ 63) blocks -> chain_ok plainHash (listed blocks).
Proof.
  intros Hd Hr. assert (Hl : forall h n b, listed blocks h n = Some b -> b ∈ blocks /\ Block_Hash plainHash b = h /\ h_Number (b_header b) = n).
  { intros h n b. unfold listed. destruct (filter _ blocks) as [|x l] eqn:E; [done|]. intros [= ->].
    assert (b ∈ filter (fun b => Block_Hash plainHash b = h /\ h_Number (b_header b) = n) blocks) as ?%list_elem_of_filter by (rewrite E; left). tauto. }
  intros h n b Hb. destruct (Hl _ _ _ Hb) as (Hin & Hh & Hn). rewrite Forall_forall in Hr. split_and!; [done..|rewrite <- Hn; by apply Hr|rewrite <- Hn; by apply Hr|].
  intros n' b' (Hin' & Hh' & _)%Hl. clear Hl Hr Hb. induction blocks as [|x l IH]; [by apply not_elem_of_nil in Hin|]. cbn in Hd. apply NoDup_cons in Hd as [Hx Hd].
  apply elem_of_cons in Hin as [->|Hin], Hin' as [->|Hin']; [done| | |by apply IH]; exfalso; apply Hx, list_elem_of_fmap; [exists b'|exists b]; split; congruence.
Qed.

Definition child (parent : Header) (dt : Z) (miner : Z) : Header :=
  let time := h_Time parent + dt in
  MkHeader (Header_Hash plainHash parent) (EmptyUncleHash plainHash) [miner] [] [] [] [] (CalcDifficulty (EmptyUncleHash plainHash) sampleConfig time parent)
    (h_Number parent + 1) 1000000 21000 time [] [] [].

Definition genesis : Header := MkHeader [] (EmptyUncleHash plainHash) [] [] [] [] [] 131072 0 1000000 0 0 [] [] [].
Definition first : Header := child genesis 10 1.
Definition second : Header := child first 10 2.
Definition uncle : Header := child first 13 3.
Definition third : Header := child second 10 4.
Definition chain : list Block := [MkBlock genesis []; MkBlock first []; MkBlock second []].
Definition block3 : Block := MkBlock third [uncle].

Lemma chain_fine : chain_ok plainHash (listed chain).
Proof. apply listed_ok; [apply (bool_decide_unpack _); vm_compute; exact I|]. repeat (apply Forall_cons_2; [split; vm_compute; congruence|]). apply Forall_nil_2. Qed.

Definition noWork : Z -> bytes -> Z -> bytes * bytes := fun _ _ _ => ([], []).

Lemma block3_uncles : VerifyUncles plainHash sampleConfig ModeFake 0 1000 noWork (listed chain) block3 = None.
Proof. vm_compute. reflexivity. Qed.
Lemma block3_number : 1 <= h_Number (b_header block3) < 2 ^ 63.
Proof. split; vm_compute; congruence. Qed.
Lemma block3_acyclic : Forall (fun u => h_ParentHash u <> Block_Hash plainHash block3) (b_uncles block3).
Proof. apply Forall_cons_2; [|apply Forall_nil_2]. apply (bool_decide_unpack _). vm_compute. exact I. Qed.

Lemma difficulty_adjusts_witness :
  0 <= h_Difficulty genesis /\ CalcDifficulty [] sampleConfig 30 genesis <= CalcDifficulty [] sampleConfig 3 genesis.
Proof.
  assert (H : 0 <= h_Difficulty genesis) by (vm_compute; congruence). split; [exact H|].
  destruct (difficulty_adjusts [] sampleConfig genesis 3 H) as (_ & _ & _ & _ & Ha & _). apply Ha. lia.
Defined.

Lemma header_accepted_witness : header_valid plainHash sampleConfig ModeFake 0 1000 noWork second first false true.
Proof.
  apply (header_accepted plainHash sampleConfig ModeFake 0 1000 noWork second first false true); [vm_compute; reflexivity|split; vm_compute; congruence|split; vm_compute; congruence|vm_compute; reflexivity].
Defined.

Lemma uncles_accepted_witness : Forall (uncle_valid plainHash sampleConfig ModeFake 0 1000 noWork (listed chain) block3) (b_uncles block3).
Proof. apply (uncles_accepted plainHash sampleConfig ModeFake 0 1000 noWork (listed chain) block3 chain_fine eq_refl block3_number block3_acyclic). exact block3_uncles. Defined.

Lemma rewards_paid_witness : db_ok (accumulateRewards sampleConfig third [uncle] sampleState).
Proof.
  apply (rewards_paid (Keccak256 sampleEnv) plainHash sampleConfig ModeFake 0 1000 noWork (listed chain) block3 sampleState chain_fine eq_refl block3_number block3_acyclic block3_uncles sampleState_ok).
Defined.

End ChainSample.
