(* ===== verification/HeaderBatch.v ===== *)
(** Verification of a batch of headers ([VerifyHeaders] of
    [src/consensus/eaiash/consensus.go]): a coordinator, its workers and the
    channels between them, as a step relation over every interleaving. *)

From stdpp Require Import base numbers list relations.
From S2P Require Import Prelude.
From S2P Require Import Params.
From S2P Require Import Sample.
From S2P Require Import Types.
From S2P Require Import Consensus.
Local Open Scope nat_scope.

(** Where the coordinator is: in its select, in the loop that sends results out,
    or returned, at the end or because the caller aborted. *)
Inductive Coordinator := Selecting | Draining | Finished | Aborted.

(** The slice of verdicts starts as nils. *)
Notation verdict := (option header_error).

Record BatchState := MkBatchState {
  in_ : nat; out : nat; checked : list bool; errors : list verdict;
  verifying : list nat; (** received by a worker, not verified *)
  reporting : list nat; (** verified by a worker, not yet in [done] *)
  done_ : list nat; errorsOut : list verdict; coordinator : Coordinator }.

Section batch.
(** The verdict on each header, and the number of workers. *)
Context (verdicts : list verdict) (workers : nat).
Let n : nat := length verdicts.

Inductive batchStep : BatchState -> BatchState -> Prop :=
(** [inputs <- in], an idle worker receives *)
| step_send b : coordinator b = Selecting -> in_ b < n -> length (verifying b) + length (reporting b) < workers ->
    batchStep b (MkBatchState (S (in_ b)) (out b) (checked b) (errors b) (in_ b :: verifying b) (reporting b) (done_ b) (errorsOut b) Selecting)
(** [errors[index] = verifyHeaderWorker(...)] *)
| step_verify b i l1 l2 v : verifying b = l1 ++ i :: l2 -> verdicts !! i = Some v ->
    batchStep b (MkBatchState (in_ b) (out b) (checked b) (<[i := v]> (errors b)) (l1 ++ l2) (i :: reporting b) (done_ b) (errorsOut b) (coordinator b))
(** [done <- index], a channel that holds [workers] *)
| step_report b i l1 l2 : reporting b = l1 ++ i :: l2 -> length (done_ b) < workers ->
    batchStep b (MkBatchState (in_ b) (out b) (checked b) (errors b) (verifying b) (l1 ++ l2) (done_ b ++ [i]) (errorsOut b) (coordinator b))
(** [index := <-done] *)
| step_receive b i l : coordinator b = Selecting -> done_ b = i :: l ->
    batchStep b (MkBatchState (in_ b) (out b) (<[i := true]> (checked b)) (errors b) (verifying b) (reporting b) l (errorsOut b) Draining)
(** [errorsOut <- errors[out]], and return after the last *)
| step_emit b v : coordinator b = Draining -> checked b !! out b = Some true -> errors b !! out b = Some v ->
    batchStep b (if out b =? n - 1
            then MkBatchState (in_ b) (out b) (checked b) (errors b) (verifying b) (reporting b) (done_ b) (errorsOut b ++ [v]) Finished
            else MkBatchState (in_ b) (S (out b)) (checked b) (errors b) (verifying b) (reporting b) (done_ b) (errorsOut b ++ [v]) Draining)
(** [checked[out]] is false *)
| step_select b : coordinator b = Draining -> checked b !! out b = Some false ->
    batchStep b (MkBatchState (in_ b) (out b) (checked b) (errors b) (verifying b) (reporting b) (done_ b) (errorsOut b) Selecting).

(** The caller closes [abort]. *)
Inductive abort : BatchState -> BatchState -> Prop :=
| abort_now b : coordinator b = Selecting ->
    abort b (MkBatchState (in_ b) (out b) (checked b) (errors b) (verifying b) (reporting b) (done_ b) (errorsOut b) Aborted).

Definition start : BatchState := MkBatchState 0 0 (replicate n false) (replicate n None) [] [] [] [] Selecting.

(** * The invariant *)

(** The indices that are with the workers or in a channel. *)
Definition afloat (b : BatchState) : list nat := verifying b ++ reporting b ++ done_ b.

Record batch_inv (b : BatchState) : Prop := {
  bi_in : in_ b <= n;
  bi_checked : length (checked b) = n;
  bi_errors : length (errors b) = n;
  bi_afloat : NoDup (afloat b);
  bi_where i : i ∈ afloat b -> i < in_ b /\ checked b !! i = Some false;
  bi_sent i : i < in_ b -> i ∈ afloat b \/ checked b !! i = Some true;
  bi_unsent i : in_ b <= i -> i < n -> checked b !! i = Some false;
  bi_verified i : i ∈ reporting b ++ done_ b \/ checked b !! i = Some true -> errors b !! i = verdicts !! i;
  bi_prefix : errorsOut b = take (length (errorsOut b)) verdicts;
  bi_live : match coordinator b with
            | Selecting => length (errorsOut b) = out b /\ out b < n /\ checked b !! out b = Some false
            | Draining => length (errorsOut b) = out b /\ out b < n
            | Finished => length (errorsOut b) = n
            | Aborted => True
            end }.

Lemma start_inv : 0 < n -> batch_inv start.
Proof.
  intros Hn. assert (Hf : forall i, i < n -> replicate n false !! i = Some false) by (intros; by apply lookup_replicate_2).
  constructor; cbn; rewrite ?length_replicate; try done; try lia; try (intros i Hi; set_solver); [apply NoDup_nil_2| |split_and!; auto].
  intros i [?|[? _]%lookup_replicate]; [set_solver|done].
Qed.

(** Moving an index between the places it can be. *)
Lemma afloat_verify (l1 l2 : list nat) i r d : (l1 ++ i :: l2) ++ r ++ d ≡ₚ (l1 ++ l2) ++ (i :: r) ++ d.
Proof. solve_Permutation. Qed.
Lemma afloat_report (v l1 l2 : list nat) i d : v ++ (l1 ++ i :: l2) ++ d ≡ₚ v ++ (l1 ++ l2) ++ d ++ [i].
Proof. solve_Permutation. Qed.
Lemma afloat_receive (v r : list nat) i l : v ++ r ++ i :: l ≡ₚ i :: v ++ r ++ l.
Proof. solve_Permutation. Qed.

Lemma send_inv b b' : batch_inv b -> coordinator b = Selecting -> in_ b < n ->
  b' = MkBatchState (S (in_ b)) (out b) (checked b) (errors b) (in_ b :: verifying b) (reporting b) (done_ b) (errorsOut b) Selecting -> batch_inv b'.
Proof.
  intros [] Hc Hi ->. rewrite Hc in *. unfold afloat in *. constructor; cbn; try done; try lia.
  - apply NoDup_cons. split; [|done]. intros Hin. destruct (bi_where0 _ Hin). lia.
  - intros i [->|Hin]%elem_of_cons; [split; [lia|by apply bi_unsent0]|]. destruct (bi_where0 _ Hin). split; [lia|done].
  - intros i Hl. destruct (decide (i = in_ b)) as [->|]; [left; left|]. destruct (bi_sent0 i ltac:(lia)); [left; by right|by right].
  - intros i ? ?. apply bi_unsent0; lia.
Qed.

Lemma verify_inv b i l1 l2 v : batch_inv b -> verifying b = l1 ++ i :: l2 -> verdicts !! i = Some v ->
  batch_inv (MkBatchState (in_ b) (out b) (checked b) (<[i := v]> (errors b)) (l1 ++ l2) (i :: reporting b) (done_ b) (errorsOut b) (coordinator b)).
Proof.
  intros [] Hv Hi. unfold afloat in *. rewrite Hv in *. assert (Hp := afloat_verify l1 l2 i (reporting b) (done_ b)).
  assert (Hin : i < n) by (by apply lookup_lt_Some in Hi).
  constructor; unfold afloat; cbn [verifying reporting done_ in_ out checked errors errorsOut coordinator]; try done; try (setoid_rewrite <- Hp; done).
  - by rewrite length_insert.
  - intros j Hj. destruct (decide (j = i)) as [->|Hne]; [rewrite list_lookup_insert_eq by lia; done|rewrite list_lookup_insert_ne by done]. apply bi_verified0. set_solver.
Qed.

Lemma report_inv b i l1 l2 : batch_inv b -> reporting b = l1 ++ i :: l2 ->
  batch_inv (MkBatchState (in_ b) (out b) (checked b) (errors b) (verifying b) (l1 ++ l2) (done_ b ++ [i]) (errorsOut b) (coordinator b)).
Proof.
  intros [] Hr. unfold afloat in *. rewrite Hr in *. assert (Hp := afloat_report (verifying b) l1 l2 i (done_ b)).
  constructor; unfold afloat; cbn [verifying reporting done_ in_ out checked errors errorsOut coordinator]; try done; try (setoid_rewrite <- Hp; done).
  intros j Hj. apply bi_verified0. set_solver.
Qed.

Lemma receive_inv b i l : batch_inv b -> coordinator b = Selecting -> done_ b = i :: l ->
  batch_inv (MkBatchState (in_ b) (out b) (<[i := true]> (checked b)) (errors b) (verifying b) (reporting b) l (errorsOut b) Draining).
Proof.
  intros [] Hc Hd. unfold afloat in *. rewrite Hd, Hc in *. assert (Hp := afloat_receive (verifying b) (reporting b) i l).
  setoid_rewrite Hp in bi_afloat0. setoid_rewrite Hp in bi_where0. setoid_rewrite Hp in bi_sent0. apply NoDup_cons in bi_afloat0 as [Hn Hnd].
  assert (Hi : i < in_ b /\ checked b !! i = Some false) by (apply bi_where0; left). assert (Hlt : i < length (checked b)) by lia.
  constructor; unfold afloat; cbn [verifying reporting done_ in_ out checked errors errorsOut coordinator]; try done; try lia.
  - by rewrite length_insert.
  - intros j Hj. assert (j <> i) by (intros ->; done). rewrite list_lookup_insert_ne by done. apply bi_where0. by right.
  - intros j Hj. destruct (decide (j = i)) as [->|]; [right; by apply list_lookup_insert_eq|]. rewrite list_lookup_insert_ne by done. destruct (bi_sent0 j Hj) as [[->|]%elem_of_cons|]; auto; done.
  - intros j ? ?. rewrite list_lookup_insert_ne by lia. auto.
  - intros j Hj. destruct (decide (j = i)) as [->|]; [apply bi_verified0; left; set_solver|]. rewrite list_lookup_insert_ne in Hj by done. apply bi_verified0. set_solver.
Qed.

Lemma emit_inv b v : batch_inv b -> coordinator b = Draining -> checked b !! out b = Some true -> errors b !! out b = Some v ->
  batch_inv (if out b =? n - 1
            then MkBatchState (in_ b) (out b) (checked b) (errors b) (verifying b) (reporting b) (done_ b) (errorsOut b ++ [v]) Finished
            else MkBatchState (in_ b) (S (out b)) (checked b) (errors b) (verifying b) (reporting b) (done_ b) (errorsOut b ++ [v]) Draining).
Proof.
  intros [] Hc Hk He. rewrite Hc in *. destruct bi_live0 as [Hl Hlt]. assert (Hv : verdicts !! out b = Some v) by (rewrite <- He; symmetry; auto).
  assert (Hpre : errorsOut b ++ [v] = take (length (errorsOut b ++ [v])) verdicts).
  { rewrite length_app, Hl. cbn. rewrite Nat.add_1_r, (take_S_r _ _ _ Hv), <- Hl. by f_equal. }
  destruct (Nat.eqb_spec (out b) (n - 1)); constructor; cbn; try done; rewrite ?length_app; cbn; lia.
Qed.

Lemma step_inv b b' : batch_inv b -> batchStep b b' -> batch_inv b'.
Proof.
  intros Hi Hs. destruct Hs as [b Hc Hin Hw|b i l1 l2 v Hv Hd|b i l1 l2 Hr Hl|b i l Hc Hd|b v Hc Hk He|b Hc Hk].
  - by eapply send_inv.
  - by apply verify_inv.
  - by apply report_inv.
  - by apply receive_inv.
  - by apply emit_inv.
  - destruct Hi. rewrite Hc in *. constructor; cbn; try done. naive_solver.
Qed.

Lemma abort_inv b b' : batch_inv b -> abort b b' -> batch_inv b'.
Proof. intros Hi Ha. destruct Ha. destruct Hi. by constructor. Qed.

(** * Progress *)

(** The most steps still to come. *)
Definition todo (b : BatchState) : nat :=
  5 * (n - in_ b) + 4 * length (verifying b) + 3 * length (reporting b) + 2 * length (done_ b) + (n - length (errorsOut b)) + match coordinator b with Draining => 1 | _ => 0 end.

Lemma step_todo b b' : batch_inv b -> batchStep b b' -> todo b' < todo b.
Proof.
  intros Hi Hs. destruct Hs as [b Hc Hin Hw|b i l1 l2 v Hv Hd|b i l1 l2 Hr Hl|b i l Hc Hd|b v Hc Hk He|b Hc Hk]; destruct Hi; unfold todo; cbn [in_ out verifying reporting done_ errorsOut coordinator].
  - rewrite Hc. cbn. lia.
  - rewrite Hv, !length_app. cbn. lia.
  - rewrite Hr, !length_app. cbn. lia.
  - rewrite Hc, Hd. cbn. lia.
  - rewrite Hc in *. destruct (_ =? _); cbn; rewrite length_app; cbn; lia.
  - rewrite Hc. cbn. lia.
Qed.

Lemma steps_todo k b b' : batch_inv b -> nsteps batchStep k b b' -> k + todo b' <= todo b /\ batch_inv b'.
Proof. intros Hi H. induction H as [|k b b1 b' Hs Hr IH]; [split; [lia|done]|]. pose proof (step_todo _ _ Hi Hs). destruct (IH (step_inv _ _ Hi Hs)). split; [lia|done]. Qed.

Lemma can_step b : 0 < workers -> batch_inv b -> coordinator b = Selecting \/ coordinator b = Draining -> exists b', batchStep b b'.
Proof.
  intros Hw [] [Hc|Hc]; rewrite Hc in *.
  - destruct bi_live0 as (Hl & Hlt & Hk). destruct (done_ b) as [|i l] eqn:Ed; [|eexists; by eapply step_receive].
    destruct (verifying b) as [|i l] eqn:Ev.
    + destruct (reporting b) as [|i l] eqn:Er; [|eexists; eapply (step_report b i []); [done|rewrite Ed; cbn; lia]].
      unfold afloat in *. rewrite Ev, Er, Ed in *. destruct (decide (out b < in_ b)) as [Ho|Ho]; [destruct (bi_sent0 _ Ho); [set_solver|congruence]|].
      eexists. eapply step_send; [done|lia|rewrite Ev, Er; cbn; lia].
    + assert (Hi : i < in_ b) by (apply bi_where0; unfold afloat; rewrite Ev; left). destruct (lookup_lt_is_Some_2 verdicts i ltac:(unfold n in *; lia)) as [v Hv]. eexists. by eapply (step_verify b i []).
  - destruct bi_live0 as [Hl Hlt]. destruct (lookup_lt_is_Some_2 (checked b) (out b) ltac:(lia)) as [[] Hk]; [|eexists; by apply step_select].
    destruct (lookup_lt_is_Some_2 (errors b) (out b) ltac:(lia)) as [v Hv]. eexists. by eapply step_emit.
Qed.
End batch.

(** * VerifyHeaders *)

Section verifyHeaders.
Context (sha : bytes -> bytes) (config : ChainConfig) (mode : Mode) (fakeFail : Z) (now : Z).
Context (hashimoto : Z -> bytes -> Z -> bytes * bytes) (GetHeader : bytes -> Z -> option Header).
(** [runtime.GOMAXPROCS(0)] *)
Context (threads : nat) (headers : list Header) (seals : list bool).

Definition worker (index : nat) : outcome header_error unit := verifyHeaderWorker sha config mode fakeFail now hashimoto GetHeader headers seals index.
Definition asError (r : outcome header_error unit) : verdict := match r with Err e => Some e | _ => None end.
Definition batchVerdicts : list verdict := map (fun i => asError (worker i)) (seq 0 (length headers)).
Definition workers : nat := if length headers <? threads then length headers else threads.

Definition VerifyHeaders : BatchState :=
  if isFullFake mode || (length headers =? 0) then MkBatchState 0 0 [] [] [] [] [] (replicate (length headers) None) Finished
  else start batchVerdicts.

Notation batch_step := (batchStep batchVerdicts workers).

Lemma VerifyHeaders_inv : isFullFake mode = false -> headers <> [] -> VerifyHeaders = start batchVerdicts /\ batch_inv batchVerdicts VerifyHeaders.
Proof.
  intros Hm Hh. unfold VerifyHeaders. rewrite Hm. destruct headers as [|h hs] eqn:E; [done|]. cbn [orb length Nat.eqb]. split; [done|]. apply start_inv.
  unfold batchVerdicts. rewrite length_map, length_seq, E. cbn. lia.
Qed.

Lemma runs_inv b b' : batch_inv batchVerdicts b -> rtc (fun x y => batch_step x y \/ abort x y) b b' -> batch_inv batchVerdicts b'.
Proof. intros Hi H. induction H as [|b b1 b' [Hs|Ha] _ IH]; [done|..]; apply IH; [by eapply step_inv|by eapply abort_inv]. Qed.

Lemma batchVerdicts_lookup i v : batchVerdicts !! i = Some v -> i < length headers /\ v = asError (worker i).
Proof. unfold batchVerdicts. rewrite list_lookup_fmap, fmap_Some. intros (j & [Hj Hlt]%lookup_seq & ->). cbn in Hj. by subst. Qed.

Lemma worker_returns i : length headers <= length seals -> i < length headers -> match worker i with Ok _ | Err _ => True | _ => False end.
Proof.
  intros Hs Hi. unfold worker, verifyHeaderWorker. destruct (lookup_lt_is_Some_2 headers i Hi) as [h Hh]. destruct (lookup_lt_is_Some_2 seals i ltac:(lia)) as [s' Hs'].
  rewrite Hh, Hs'. cbn [must outcome_bind]. destruct i as [|i]; cbn [outcome_bind]; [repeat case_match; done|].
  destruct (lookup_lt_is_Some_2 headers i ltac:(lia)) as [p ->]. cbn [must outcome_bind]. repeat case_match; done.
Qed.

(** A run in full fake mode, or of no headers, is over at once. *)
Lemma over_stays b b' : coordinator b = Finished -> verifying b = [] -> reporting b = [] -> ~ (batch_step b b' \/ abort b b').
Proof. intros Hc Hv Hr [Hs|Ha]; [|inversion Ha; congruence]. inversion Hs; try congruence; match goal with H : _ = ?l ++ _ |- _ => rewrite ?Hv, ?Hr in H; by destruct l end. Qed.

Lemma VerifyHeaders_final b : isFullFake mode = true \/ headers = [] -> ~ (batch_step VerifyHeaders b \/ abort VerifyHeaders b).
Proof. intros Ho. apply over_stays; unfold VerifyHeaders; (destruct Ho as [-> | ->]; [done|]; cbn; by rewrite orb_true_r). Qed.

Lemma VerifyHeaders_over b : isFullFake mode = true \/ headers = [] -> rtc (fun x y => batch_step x y \/ abort x y) VerifyHeaders b -> b = VerifyHeaders.
Proof. intros Ho Hr. inversion Hr as [|? b1 ? Hs]; subst; [done|]. by apply VerifyHeaders_final in Hs. Qed.

(** C35. However the coordinator and its workers interleave, and whenever the caller
    aborts, the results sent are the verdicts on the headers, each once and in the
    order of the headers: never the nil an unverified entry starts with. *)
Theorem batch_in_order b i v : isFullFake mode = false -> length headers <= length seals -> rtc (fun x y => batch_step x y \/ abort x y) VerifyHeaders b ->
  errorsOut b !! i = Some v -> i < length headers /\ match worker i with Ok _ => v = None | Err e => v = Some e | _ => False end.
Proof.
  intros Hm Hs Hr Hv. destruct (decide (headers = [])) as [Hh|Hh].
  - apply VerifyHeaders_over in Hr; [|by right]. subst b. unfold VerifyHeaders in Hv. rewrite Hh in Hv. cbn in Hv. by rewrite orb_true_r in Hv.
  - destruct (VerifyHeaders_inv Hm Hh) as [_ Hi]. apply (runs_inv _ _ Hi) in Hr as []. rewrite bi_prefix0 in Hv. apply lookup_take_Some in Hv as [[Hlt ->]%batchVerdicts_lookup _].
    split; [done|]. pose proof (worker_returns i Hs Hlt). by destruct (worker i).
Qed.

(** Unless it is aborted, a batch completes: no run takes more than six steps
    per header, and a run that cannot go on has sent a result for every header. *)
Theorem batch_completes b : 0 < threads ->
  (forall k, nsteps batch_step k VerifyHeaders b -> k <= 6 * length headers) /\
  (rtc batch_step VerifyHeaders b -> (exists b', batch_step b b') \/ length (errorsOut b) = length headers).
Proof.
  intros Ht. assert (Hn : length batchVerdicts = length headers) by (unfold batchVerdicts; by rewrite length_map, length_seq).
  destruct (decide (isFullFake mode = true \/ headers = [])) as [Ho|Ho].
  - split.
    + intros k Hk. inversion Hk as [|k' ? b1 ? Hs]; subst; [lia|]. exfalso. by apply (VerifyHeaders_final b1 Ho); left.
    + intros Hr. right. inversion Hr as [|? b1 ? Hs]; subst; [|exfalso; by apply (VerifyHeaders_final b1 Ho); left].
      unfold VerifyHeaders. destruct Ho as [-> | ->]; cbn; [|rewrite orb_true_r]; by rewrite ?length_replicate.
  - destruct (VerifyHeaders_inv) as [Hst Hi]; [by destruct (isFullFake mode); tauto|tauto|]. split.
    + intros k Hk. apply steps_todo in Hk as [Hk _]; [|done]. rewrite Hst in Hk. unfold todo, start in Hk. cbn in Hk. rewrite Hn in Hk. lia.
    + intros Hr. assert (batch_inv batchVerdicts b /\ coordinator b <> Aborted) as [Hb Hna].
      { clear - Hr Hi Hst. assert (coordinator VerifyHeaders <> Aborted) as Hc by by rewrite Hst.
        clear Hst. induction Hr as [|x y z Hs _ IH]; [done|]. apply IH; [by eapply step_inv|]. destruct Hs; cbn; try done. by destruct (_ =? _). }
      assert (Hw : 0 < workers) by (unfold workers; destruct (Nat.ltb_spec (length headers) threads); [|lia]; destruct headers; [tauto|cbn; lia]).
      destruct (coordinator b) eqn:Ec; [left; by apply (can_step batchVerdicts); auto..|right|done]. destruct Hb. by rewrite Ec, Hn in bi_live0.
Qed.
End verifyHeaders.

(** * An aborted batch can leave a worker behind *)

(** The channel [done] holds a result, its one worker another, and the coordinator
    that would receive them is gone. *)
Lemma abort_leaks_worker v0 v1 : exists b,
  rtc (fun x y => batchStep [v0; v1] 1 x y \/ abort x y) (start [v0; v1]) b /\ coordinator b = Aborted /\ reporting b = [1] /\ forall b', ~ batchStep [v0; v1] 1 b b'.
Proof.
  pose (st i e v r d c := MkBatchState i 0 [false; false] e v r d [] c).
  exists (st 2 [v0; v1] [] [1] [0] Aborted). split_and!; [|reflexivity|reflexivity|].
  - apply (rtc_l _ _ (st 1 [None; None] [0] [] [] Selecting)); [left; apply (step_send _ _ (start [v0; v1])); cbn; [reflexivity|lia|lia]|].
    apply (rtc_l _ _ (st 1 [v0; None] [] [0] [] Selecting)); [left; apply (step_verify _ _ (st 1 [None; None] [0] [] [] Selecting) 0 [] []); reflexivity|].
    apply (rtc_l _ _ (st 1 [v0; None] [] [] [0] Selecting)); [left; apply (step_report _ _ (st 1 [v0; None] [] [0] [] Selecting) 0 [] []); cbn; [reflexivity|lia]|].
    apply (rtc_l _ _ (st 2 [v0; None] [1] [] [0] Selecting)); [left; apply (step_send _ _ (st 1 [v0; None] [] [] [0] Selecting)); cbn; [reflexivity|lia|lia]|].
    apply (rtc_l _ _ (st 2 [v0; v1] [] [1] [0] Selecting)); [left; apply (step_verify _ _ (st 2 [v0; None] [1] [] [0] Selecting) 1 [] []); reflexivity|].
    apply rtc_once. right. apply (abort_now (st 2 [v0; v1] [] [1] [0] Selecting)). reflexivity.
  - intros b' Hs. inversion Hs as [b Hc|b i l1 l2 v Hv|b i l1 l2 Hr Hl|b i l Hc|b v Hc|b Hc]; subst b; try discriminate Hc; [destruct l1; discriminate Hv|cbn in Hl; lia].
Qed.

Module BatchSample.
Import ChainSample.

Definition knownHeader (h : bytes) (n : Z) : option Header := if bool_decide (h = Header_Hash plainHash genesis /\ n = 0%Z) then Some genesis else None.
Notation one := (VerifyHeaders plainHash sampleConfig ModeFake 0 1000 noWork knownHeader [first] [true]).
Notation one_step := (batchStep (batchVerdicts plainHash sampleConfig ModeFake 0 1000 noWork knownHeader [first] [true]) (workers 4 [first])).

Lemma one_verdict : batchVerdicts plainHash sampleConfig ModeFake 0 1000 noWork knownHeader [first] [true] = [None].
Proof. vm_compute. reflexivity. Qed.

Definition emitted : BatchState := MkBatchState 1 0 [true] [None] [] [] [] [None] Finished.

Lemma one_run : rtc (fun x y => one_step x y \/ abort x y) one emitted.
Proof.
  rewrite one_verdict. change one with (start [None]). pose (st k e v r d c := MkBatchState 1 0 [k] [e] v r d [] c).
  apply (rtc_l _ _ (st false None [0] [] [] Selecting)); [left; apply (step_send _ _ (start [None])); cbn; [reflexivity|lia|lia]|].
  apply (rtc_l _ _ (st false None [] [0] [] Selecting)); [left; apply (step_verify _ _ (st false None [0] [] [] Selecting) 0 [] [] None); reflexivity|].
  apply (rtc_l _ _ (st false None [] [] [0] Selecting)); [left; apply (step_report _ _ (st false None [] [0] [] Selecting) 0 [] []); cbn; [reflexivity|lia]|].
  apply (rtc_l _ _ (st true None [] [] [] Draining)); [left; apply (step_receive _ _ (st false None [] [] [0] Selecting) 0 []); reflexivity|].
  apply rtc_once. left. apply (step_emit [None] 1 (st true None [] [] [] Draining) None); reflexivity.
Qed.

Lemma batch_in_order_witness : worker plainHash sampleConfig ModeFake 0 1000 noWork knownHeader [first] [true] 0 = Ok tt.
Proof.
  destruct (batch_in_order plainHash sampleConfig ModeFake 0 1000 noWork knownHeader 4 [first] [true] emitted 0 None eq_refl (le_n 1) one_run eq_refl) as [_ H].
  destruct (worker _ _ _ _ _ _ _ _ _ _) as [[]| | |]; [reflexivity|discriminate H|destruct H|destruct H].
Defined.

Lemma batch_completes_witness : 0 < 4 /\ ((exists b', one_step one b') \/ length (errorsOut one) = length [first]).
Proof.
  assert (H : 0 < 4) by lia. split; [exact H|].
  apply (proj2 (batch_completes plainHash sampleConfig ModeFake 0 1000 noWork knownHeader 4 [first] [true] one H)). apply rtc_refl.
Defined.
End BatchSample.
