(* ===== verification/Processor.v ===== *)
(** Processing a block ([src/core/state_processor.go], [src/core/evm.go]): its transactions are
    applied one after the other, each leaving a receipt, and the consensus engine closes
    the block.

    The engine is an interface; proof of work and proof of authority are two
    implementations.  Headers of ancestors come from the chain, a parameter. *)

From stdpp Require Import base numbers list gmap.
From S2P Require Import Prelude.
From S2P Require Import CommonMath.
From S2P Require Import Params.
From S2P Require Import RlpEncode.
From S2P Require Import VmData.
From S2P Require Import VmAnalysis.
From S2P Require Import VmState.
From S2P Require Import VmInterp.
From S2P Require Import VmWorld.
From S2P Require Import VmSafe.
From S2P Require Import VmMachine.
From S2P Require Import State.
From S2P Require Import StateLaws.
From S2P Require Import Sample.
From S2P Require Import StateFinal.
From S2P Require Import Transition.
From S2P Require Import Types.
From S2P Require Import Transactions.
From S2P Require Import Blocks.
From S2P Require Import Consensus.
Local Open Scope Z_scope.
Local Open Scope go_scope.

(** * evm.go: hashes of ancestors *)

Section ancestors.
Context (GetHeader : bytes -> Z -> option Header) (ref : Header).

Definition prevNumber (h : Header) : Z := u64 (u64 (h_Number h) - 1).

(** The loop of the function [GetHashFn] returns, from a header on; the cache is filled on the
    way. *)
Fixpoint walkHash (fuel : nat) (header : option Header) (n : Z) (cache : gmap Z bytes) : outcome Empty_set (gmap Z bytes * bytes) :=
  match header with
  | None => Ok (cache, zeroHash)
  | Some header =>
      match fuel with
      | O => NoFuel
      | S fuel =>
          let cache := <[prevNumber header := h_ParentHash header]> cache in
          if n =? prevNumber header then Ok (cache, h_ParentHash header)
          else walkHash fuel (GetHeader (h_ParentHash header) (prevNumber header)) n cache
      end
  end.

(** One call of that function; the cache is [nil] before the first. *)
Definition GetHashFn (fuel : nat) (n : Z) (cache : option (gmap Z bytes)) : outcome Empty_set (gmap Z bytes * bytes) :=
  let cache := match cache with None => {[prevNumber ref := h_ParentHash ref]} | Some cache => cache end in
  match cache !! n with
  | Some hash => Ok (cache, hash)
  | None => walkHash fuel (GetHeader (h_ParentHash ref) (prevNumber ref)) n cache
  end.
End ancestors.

(** * The engine *)

Record Engine (DB : Type) := MkEngine {
  en_Author : Header -> option bytes;
  en_Finalize : ChainConfig -> Header -> list Header -> DB -> outcome enc_error DB }.
Arguments MkEngine {DB}.
Arguments en_Author {DB}.
Arguments en_Finalize {DB}.

Inductive process_error := ErrSignature (e : sig_error) | ErrTransition (e : tx_error).

(** What the machine is given besides the block: options, hash, precompiled contracts, and the
    abort flag. *)
Record VmSetup := MkVmSetup {
  vs_NoRecursion : bool; vs_EnablePreimageRecording : bool;
  vs_Homestead : bytes -> option PrecompiledContract; vs_Byzantium : bytes -> option PrecompiledContract; vs_aborted : nat -> bool }.

Section processor.
Context {T : Type} `{HT : Trie T} (db : Database T) (hash : bytes -> bytes) (config : ChainConfig) (setup : VmSetup) (engine : Engine (SDB T)).
Context (Ecrecover : bytes -> bytes -> option bytes) (GetHash : Header -> Z -> bytes).
(** The accounts of the DAO and the one they are moved to. *)
Context (DAORefundContract : bytes) (DAODrainList : list bytes).
#[local] Instance processor_StateDB : StateDB (SDB T) := SDB_StateDB db hash.

(** [NewEVMContext] and [vm.NewEVM] *)
Definition NewEVMContext (msg : Message) (header : Header) (author : option bytes) : Env :=
  let beneficiary := match author with Some a => a | None => default (replicate AddressLength 0) (en_Author engine header) end in
  MkEnv (GetHash header) (msg_From msg) (msg_GasPrice msg) beneficiary (h_GasLimit header) (h_Number header) (h_Time header) (h_Difficulty header)
    config (vs_NoRecursion setup) (vs_EnablePreimageRecording setup) hash (vs_Homestead setup) (vs_Byzantium setup) (vs_aborted setup).

(** Gas pool, state and gas used so far. *)
Record Progress := MkProgress { pr_gp : Z; pr_db : SDB T; pr_usedGas : Z }.

(** An encoder that fails is a panic. *)
Definition orPanic {E A} (o : outcome enc_error A) : outcome E A := match o with Ok a => Ok a | NoFuel => NoFuel | _ => Panic end.
Definition bloomOf {E} (o : outcome Empty_set bytes) : outcome E bytes := match o with Ok b => Ok b | NoFuel => NoFuel | _ => Panic end.

(** What follows a message that was applied: the state is finalised and a receipt written. *)
Definition finishTransaction (header : Header) (tx : Transaction) (msg : Message) (env : Env) (st : StateTransition (SDB T)) (gas : Z) (failed : bool) (usedGas : Z) :
    outcome process_error (Progress * Receipt * Z) :=
  let num := Some (h_Number header) in
  let! (s, root) :=
    if IsByzantium config num then let! s := orPanic (Finalise db hash true (st_state st)) in Ok (s, [])
    else orPanic (IntermediateRoot db hash (IsEIP158 config num) (st_state st)) in
  let usedGas := u64 (usedGas + gas) in
  let r := NewReceipt root failed usedGas in
  let txHash := tx_Hash hash (tx_data tx) in
  let addr := match msg_To msg with None => CreateAddress env (Origin env) (tx_AccountNonce (tx_data tx)) | Some _ => rc_ContractAddress r end in
  let logs := sGetLogs s txHash in
  let! bloom := bloomOf (CreateBloom hash [map sl_log logs]) in
  Ok (MkProgress (st_gp st) s usedGas, MkReceipt (rc_PostState r) (rc_Status r) (rc_CumulativeGasUsed r) bloom logs txHash addr gas, gas).

Definition ApplyTransaction (author : option bytes) (header : Header) (tx : Transaction) (p : Progress) : outcome process_error (Progress * Receipt * Z) :=
  match AsMessage hash Ecrecover (MakeSigner config (Some (h_Number header))) tx with
  | Err e => Err (ErrSignature e)
  | Panic => Panic
  | NoFuel => NoFuel
  | Ok (_, msg) =>
      let env := NewEVMContext msg header author in
      let fuel := S (Z.to_nat (msg_Gas msg)) in
      match ApplyMessage env fuel (NewEVM (pr_db p)) msg (pr_gp p) with
      | Err (e, _) => Err (ErrTransition e)
      | Panic => Panic
      | NoFuel => NoFuel
      | Ok (st, (_, gas, failed)) => finishTransaction header tx msg env st gas failed (pr_usedGas p)
      end
  end.

(** The loop of [Process], from transaction [i] on. *)
Fixpoint applyTransactions (blockHash : bytes) (header : Header) (txs : list Transaction) (i : Z) (p : Progress) : outcome process_error (Progress * list Receipt) :=
  match txs with
  | [] => Ok (p, [])
  | tx :: txs =>
      let p := MkProgress (pr_gp p) (State.Prepare (tx_Hash hash (tx_data tx)) blockHash i (pr_db p)) (pr_usedGas p) in
      let! (p, receipt, _) := ApplyTransaction None header tx p in
      let! (p, receipts) := applyTransactions blockHash header txs (i + 1) p in
      Ok (p, receipt :: receipts)
  end.

(** The state, the receipts, all logs, and the gas used. *)
Definition Process (block : FullBlock) (s : SDB T) : outcome process_error (SDB T * (list Receipt * list StateLog * Z)) :=
  let header := b_header (fb_block block) in
  let! gp := AddGas (h_GasLimit header) 0 in
  let s :=
    if DAOForkSupport config && bool_decide (DAOForkBlock config = Some (h_Number header))
    then ApplyDAOHardFork (sSetBalance hash) DAORefundContract DAODrainList s else s in
  let! (p, receipts) := applyTransactions (Block_Hash hash (fb_block block)) header (fb_transactions block) 0 (MkProgress gp s 0) in
  let! s := orPanic (en_Finalize engine config header (b_uncles (fb_block block)) (pr_db p)) in
  Ok (s, (receipts, concat (map rc_Logs receipts), pr_usedGas p)).
End processor.

(** ** Implementations *)

Section engines.
Context {T : Type} `{HT : Trie T} (db : Database T) (hash : bytes -> bytes).
#[local] Instance engine_StateDB : StateDB (SDB T) := SDB_StateDB db hash.

(** Proof of work pays rewards, proof of authority does not. *)
Definition eaiash_Finalize (config : ChainConfig) (header : Header) (uncles : list Header) (s : SDB T) : outcome enc_error (SDB T) :=
  let s := accumulateRewards config header uncles s in
  let! (s, _) := IntermediateRoot db hash (IsEIP158 config (Some (h_Number header))) s in Ok s.
Definition eaiash : Engine (SDB T) := MkEngine (fun header => Some (h_Coinbase header)) eaiash_Finalize.

Definition clique_Finalize (config : ChainConfig) (header : Header) (uncles : list Header) (s : SDB T) : outcome enc_error (SDB T) :=
  let! (s, _) := IntermediateRoot db hash (IsEIP158 config (Some (h_Number header))) s in Ok s.
Definition clique (recover : Header -> option bytes) : Engine (SDB T) := MkEngine recover clique_Finalize.
End engines.

(** * Hashes of ancestors *)

Section hashes.
Context (GetHeader : bytes -> Z -> option Header) (ref : Header).

(** Headers are kept under their numbers. *)
Context (Hchain : forall h n x, GetHeader h n = Some x -> h_Number x = n /\ 0 <= n < 2 ^ 63) (Href : 1 <= h_Number ref < 2 ^ 63).

(** The header [k] generations up. *)
Fixpoint up (k : nat) : option Header :=
  match k with O => Some ref | S k => h ← up k; GetHeader (h_ParentHash h) (prevNumber h) end.

(** The hash of the ancestor with number [n]: its child names it. *)
Definition ancestorHash (n : Z) : bytes :=
  match up (Z.to_nat (h_Number ref - 1 - n)) with Some h => h_ParentHash h | None => zeroHash end.

(** Calling the function again and again, with the cache it keeps. *)
Fixpoint callAll (fuel : nat) (ns : list Z) (cache : option (gmap Z bytes)) : outcome Empty_set (list bytes) :=
  match ns with
  | [] => Ok []
  | n :: ns =>
      let! (cache, h) := GetHashFn GetHeader ref fuel n cache in
      let! hs := callAll fuel ns (Some cache) in
      Ok (h :: hs)
  end.

Lemma prevNumber_pos h : 1 <= h_Number h < 2 ^ 63 -> prevNumber h = h_Number h - 1.
Proof. intros Hh. unfold prevNumber. rewrite (u64_small (h_Number h)), u64_small by (unfold is_u64; lia). done. Qed.

Lemma up_number k h : up k = Some h -> h_Number h = h_Number ref - Z.of_nat k /\ 0 <= h_Number h < 2 ^ 63.
Proof using Hchain Href.
  revert h. induction k as [|k IH]; intros h; cbn [up]; [intros [= <-]; lia|]. destruct (up k) as [h0|] eqn:E; [|done]. cbn. intros Hg. destruct (IH h0 eq_refl) as [E0 B0]. apply Hchain in Hg as [Hn Hb].
  destruct (Z.eq_dec (h_Number h0) 0) as [Hz|Hz]; [exfalso; unfold prevNumber in Hb; rewrite Hz in Hb; destruct Hb as [_ Hb]; by vm_compute in Hb|]. rewrite prevNumber_pos in Hn by lia. lia.
Qed.

Definition entries_right (c : gmap Z bytes) : Prop :=
  is_Some (c !! prevNumber ref) /\ forall m h, c !! m = Some h -> 0 <= m < h_Number ref -> h = ancestorHash m.

Lemma entries_insert c k h : entries_right c -> up k = Some h -> entries_right (<[prevNumber h := h_ParentHash h]> c).
Proof using Hchain Href.
  intros [Hp Hc] Hk. split; [destruct (decide (prevNumber ref = prevNumber h)) as [->|]; [rewrite lookup_insert_eq; by eexists|by rewrite lookup_insert_ne]|]. intros m x. destruct (up_number k h Hk) as [En Bn]. destruct (decide (m = prevNumber h)) as [->|]; [rewrite lookup_insert_eq; intros [= <-]|rewrite lookup_insert_ne by done; apply Hc]. intros Hm.
  destruct (Z.eq_dec (h_Number h) 0) as [Hz|Hz]; [exfalso; unfold prevNumber in Hm; rewrite Hz in Hm; vm_compute (u64 _) in Hm; lia|]. rewrite prevNumber_pos in * by lia.
  unfold ancestorHash. replace (Z.to_nat (h_Number ref - 1 - (h_Number h - 1))) with k by lia. by rewrite Hk.
Qed.

Lemma up_None k j : up k = None -> (k <= j)%nat -> up j = None.
Proof. intros Hk. induction 1 as [|j _ IH]; [done|]. cbn [up]. by rewrite IH. Qed.

Lemma walkHash_ok fuel : forall k n c, 0 <= n < h_Number ref - Z.of_nat k -> entries_right c -> h_Number ref < Z.of_nat (k + fuel) ->
  exists c', walkHash GetHeader fuel (up k) n c = Ok (c', ancestorHash n) /\ entries_right c'.
Proof using Hchain Href.
  induction fuel as [|fuel IH]; intros k n c Hn Hc Hf; [lia|]. destruct (up k) as [h|] eqn:Ek; cbn [walkHash].
  - destruct (up_number k h Ek) as [En Bn]. pose proof (entries_insert c k h Hc Ek) as Hc'. assert (1 <= h_Number h < 2 ^ 63) as Hh by lia. destruct (Z.eqb_spec n (prevNumber h)) as [E|E].
    + eexists. split; [|exact Hc']. do 2 f_equal. rewrite prevNumber_pos in E by done. unfold ancestorHash. replace (Z.to_nat (h_Number ref - 1 - n)) with k by lia. by rewrite Ek.
    + rewrite prevNumber_pos in E by done. destruct (IH (S k) n _ ltac:(lia) Hc' ltac:(lia)) as (c' & E' & Hc2). cbn [up] in E'. rewrite Ek in E'. cbn in E'. by exists c'.
  - exists c. split; [|done]. do 2 f_equal. unfold ancestorHash. rewrite (up_None k _ Ek); [done|lia].
Qed.

Lemma GetHashFn_ok fuel n cache : 0 <= n < h_Number ref -> h_Number ref < Z.of_nat fuel -> (forall c, cache = Some c -> entries_right c) ->
  exists c, GetHashFn GetHeader ref fuel n cache = Ok (c, ancestorHash n) /\ entries_right c.
Proof using Hchain Href.
  intros Hn Hf Hc. unfold GetHashFn. set (c := match cache with None => _ | Some c => c end).
  assert (entries_right c) as Hcr.
  { subst c. destruct cache as [c|]; [by apply Hc|]. split; [rewrite lookup_singleton_eq; by eexists|]. intros m h [<- <-]%lookup_singleton_Some Hm. rewrite prevNumber_pos in * by lia.
    unfold ancestorHash. by replace (Z.to_nat (h_Number ref - 1 - (h_Number ref - 1))) with 0%nat by lia. }
  destruct (c !! n) as [h|] eqn:E; [exists c; by rewrite (proj2 Hcr n h E Hn)|]. assert (n <> h_Number ref - 1) as Hne.
  { intros ->. destruct Hcr as [[x Hx] _]. rewrite prevNumber_pos in Hx by lia. congruence. }
  exact (walkHash_ok fuel 1 n c ltac:(lia) Hcr ltac:(lia)).
Qed.

(** The function that answers [BLOCKHASH] returns, for any sequence of calls with numbers below
    the block's own, the hashes of the ancestors with these numbers: the cache it keeps
    between calls never changes an answer, and every call ends. *)
Theorem ancestor_hashes fuel ns : h_Number ref < Z.of_nat fuel -> Forall (fun n => 0 <= n < h_Number ref) ns ->
  callAll fuel ns None = Ok (ancestorHash <$> ns).
Proof using Hchain Href.
  intros Hf Hns. assert (forall c, @None (gmap Z bytes) = Some c -> entries_right c) as Hc by done. revert Hc. generalize (@None (gmap Z bytes)).
  induction Hns as [|n ns Hn _ IH]; intros cache Hc; [done|]. cbn [callAll]. destruct (GetHashFn_ok fuel n cache Hn Hf Hc) as (c & -> & Hr). cbn. by rewrite (IH (Some c)) by (by intros ? [= <-]).
Qed.
End hashes.

(** * Money through a block *)

Lemma funds_balance w M a : funds w M -> w_balance w a <= M.
Proof. intros Hf. specialize (Hf [a] (NoDup_singleton a)). cbn in Hf. lia. Qed.

Lemma cleared_mints_nothing g w : (forall a, 0 <= w_balance w a) -> no_mint w (cleared g w).
Proof. intros H. apply no_mint_le. intros a. cbn. destruct (g a); [apply H|done]. Qed.

(** What the rewards of a block add up to. *)
Definition minted (config : ChainConfig) (header : Header) (uncles : list Header) : Z :=
  let R := blockReward config header in foldr (fun u s => (8 - (h_Number header - h_Number u)) * R / 8 + s) (minerShare R uncles) uncles.

Section rewards.
Context {DB : Type} `{HDB : StateDB DB} (hash : bytes -> bytes) `{!StateDBLaws DB hash}.

Lemma AddBalance_funds (db : DB) a x M : db_ok db -> 0 <= x -> funds (world db) M -> db_ok (AddBalance a x db) /\ funds (world (AddBalance a x db)) (M + x).
Proof.
  intros Hok Hx Hf. destruct (AddBalance_ok db a x Hok Hx) as (Hok' & Hw & _). split; [done|]. apply (no_mint_same _ _ (symmetry Hw)). by apply (funds_add (world db)).
Qed.

Lemma rewardUncles_funds header R uncles reward (db : DB) M : 0 <= R -> db_ok db -> Forall (fun u => h_Number header - h_Number u <= 8) uncles -> funds (world db) M ->
  let (db', reward') := rewardUncles header R uncles reward db in
  db_ok db' /\ reward' = reward + zlen uncles * (R / 32) /\ funds (world db') (M + foldr (fun u s => (8 - (h_Number header - h_Number u)) * R / 8 + s) 0 uncles).
Proof.
  intros HR. revert reward db M. induction uncles as [|u uncles IH]; intros reward db M Hok Hn Hf; cbn [rewardUncles foldr].
  - split_and!; [done|unfold zlen; cbn; lia|]. by rewrite Z.add_0_r.
  - apply Forall_cons_1 in Hn as [Hu Hn]. replace (h_Number u + 8 - h_Number header) with (8 - (h_Number header - h_Number u)) by lia.
    destruct (AddBalance_funds db (h_Coinbase u) ((8 - (h_Number header - h_Number u)) * R / 8) M Hok) as [Hok' Hf']; [apply Z.div_pos; nia|done|].
    specialize (IH (reward + R / 32) _ _ Hok' Hn Hf'). destruct (rewardUncles _ _ _ _ _) as [db' reward']. destruct IH as (? & -> & Hf2). split_and!; [done|rewrite zlen_cons; lia|]. by rewrite Z.add_assoc.
Qed.

Lemma accumulateRewards_funds config header uncles (db : DB) M : db_ok db -> Forall (fun u => h_Number header - h_Number u <= 8) uncles -> funds (world db) M ->
  db_ok (accumulateRewards config header uncles db) /\ funds (world (accumulateRewards config header uncles db)) (M + minted config header uncles).
Proof.
  intros Hok Hn Hf. unfold accumulateRewards. change (if IsByzantium config (Some (h_Number header)) then ByzantiumBlockReward else FrontierBlockReward) with (blockReward config header).
  assert (0 <= blockReward config header) as HR by (unfold blockReward; case_match; lia).
  pose proof (rewardUncles_funds header (blockReward config header) uncles (blockReward config header) db M HR Hok Hn Hf) as Hr. destruct (rewardUncles _ _ _ _ _) as [db' reward]. destruct Hr as (Hok' & -> & Hf').
  edestruct (fun Hx => AddBalance_funds db' (h_Coinbase header) (minerShare (blockReward config header) uncles) _ Hok' Hx Hf') as [? Hf2].
  { unfold minerShare. assert (0 <= blockReward config header / 32) by (apply Z.div_pos; lia). unfold zlen. nia. }
  split; [done|]. replace (M + minted config header uncles) with (M + foldr (fun u s => (8 - (h_Number header - h_Number u)) * blockReward config header / 8 + s) 0 uncles + minerShare (blockReward config header) uncles); [done|].
  unfold minted. cbv zeta. generalize (minerShare (blockReward config header) uncles). clear. induction uncles as [|u uncles IH]; intros x; cbn; [lia|]. specialize (IH x). lia.
Qed.
End rewards.

(** * The engine's contract *)

Section contract.
Context {T : Type} `{HT : Trie T} `{!TrieLaws T} (db : Database T) (hash : bytes -> bytes) (Hb : backing_ok db hash).
#[local] Instance contract_StateDB : StateDB (SDB T) := SDB_StateDB db hash.
#[local] Instance contract_laws : StateDBLaws (SDB T) hash := SDB_StateDBLaws db hash Hb.
Implicit Types s : SDB T.

(** Of which blocks the engine closes, and how much it mints. *)
Class EngineLaws (engine : Engine (SDB T)) := {
  el_fine : Header -> list Header -> Prop;
  el_minted : ChainConfig -> Header -> list Header -> Z;
  el_author header a : en_Author engine header = Some a -> digits_ok (h_Coinbase header) -> digits_ok a;
  el_Finalize config header uncles s M : sdb_ok db hash s -> el_fine header uncles -> funds (world s) M -> M + el_minted config header uncles < 2 ^ 256 ->
    exists s', en_Finalize engine config header uncles s = Ok s' /\ sdb_ok db hash s' /\ funds (world s') (M + el_minted config header uncles) }.

Lemma IntermediateRoot_ok del s M : sdb_ok db hash s -> funds (world s) M -> M < 2 ^ 256 ->
  exists s', Finalise db hash del s = Ok s' /\ finalised db hash del s s' /\ funds (world s') M.
Proof.
  intros Hok Hf HM. destruct (Finalise_ok db hash Hb del s Hok) as (s' & E & Hfin).
  { intros a. pose proof (funds_balance (world s) M a Hf) as H. cbn in *. lia. }
  exists s'. split_and!; [done|done|]. destruct (fn_world _ _ _ _ _ Hfin) as [Hw _]. apply (no_mint_same _ _ (symmetry Hw)). apply cleared_mints_nothing; [|done].
  intros a. by apply (GetBalance_ok s a).
Qed.

#[local] Instance eaiash_laws : EngineLaws (eaiash db hash).
Proof.
  refine {| el_fine := fun header uncles => Forall (fun u => h_Number header - h_Number u <= 8) uncles; el_minted := minted |}.
  - by intros header a [= <-].
  - intros config header uncles s M Hok Hn Hf HM. cbn [en_Finalize eaiash]. unfold eaiash_Finalize, IntermediateRoot. change (engine_StateDB db hash) with contract_StateDB.
    destruct (accumulateRewards_funds hash (StateDBLaws0 := contract_laws) config header uncles s M Hok Hn Hf) as [Hok' Hf'].
    destruct (IntermediateRoot_ok (IsEIP158 config (Some (h_Number header))) _ _ Hok' Hf' HM) as (s' & -> & Hfin & Hf2). exists s'. split_and!; [done|apply Hfin|done].
Defined.

#[local] Instance clique_laws recover : (forall header a, recover header = Some a -> digits_ok a) -> EngineLaws (clique db hash recover).
Proof.
  intros Hr. refine {| el_fine := fun _ _ => True; el_minted := fun _ _ _ => 0 |}.
  - intros header a E _. by eapply Hr.
  - intros config header uncles s M Hok _ Hf HM. rewrite Z.add_0_r in *. cbn [en_Finalize clique]. unfold clique_Finalize, IntermediateRoot.
    destruct (IntermediateRoot_ok (IsEIP158 config (Some (h_Number header))) s M Hok Hf HM) as (s' & -> & Hfin & Hf2). exists s'. split_and!; [done|apply Hfin|done].
Defined.
End contract.
Arguments el_fine {T HT TrieLaws0} db hash engine {EngineLaws} header uncles.
Arguments el_minted {T HT TrieLaws0} db hash engine {EngineLaws} config header uncles.

(** * Messages *)

Definition tx_ok (tx : Transaction) : Prop := txdata_ok (tx_data tx) /\ forall s a, tx_from tx = Some (s, a) -> digits_ok a.

Lemma sigWord_ok x : 0 <= x < 2 ^ 256 -> exists b, sigWord x = Ok b.
Proof.
  intros Hx. unfold sigWord. assert (zlen (big_bytes x) <= 32) by (apply RlpStream.byte_len_bits; [lia|]; change (8 * 32) with 256; lia). rewrite (proj2 (Z.ltb_ge _ _)) by lia. by eexists.
Qed.

Lemma recoverPlain_digits hash Ecrecover h R S V hs : (forall b, digits_ok (hash b)) ->
  match recoverPlain hash Ecrecover h R S V hs with Ok a => digits_ok a | Err _ => True | _ => False end.
Proof.
  intros Hh. unfold recoverPlain. destruct (8 <? _); [done|]. destruct (ValidateSignatureValues _ R S hs) eqn:E; cbn [negb]; [|done].
  unfold ValidateSignatureValues in E. destruct (Z.ltb_spec R 1), (Z.ltb_spec S 1); cbn [orb] in E; try done. destruct (_ && _); [done|]. rewrite !andb_true_iff, !Z.ltb_lt in E. destruct E as [[HR HS] _].
  assert (secp256k1N < 2 ^ 256) by done. destruct (sigWord_ok R ltac:(lia)) as [r ->]. destruct (sigWord_ok S ltac:(lia)) as [s ->]. cbn [outcome_bind].
  destruct (Ecrecover _ _) as [[|b pub]|]; [done| |done]. destruct (negb _); [done|]. unfold gocopy. apply digits_ok_app; [|apply Forall_drop, digits_ok_zeros]. by apply Forall_take, Forall_drop, Hh.
Qed.

Lemma Signer_Sender_digits hash Ecrecover s d : (forall b, digits_ok (hash b)) ->
  match Signer_Sender hash Ecrecover s d with Ok a => digits_ok a | Err _ => True | _ => False end.
Proof. intros Hh. destruct s; cbn; [by apply recoverPlain_digits..|]. destruct (negb _); [by apply recoverPlain_digits|]. destruct (negb _); [done|by apply recoverPlain_digits]. Qed.

Lemma AsMessage_ok hash Ecrecover s tx : (forall b, digits_ok (hash b)) -> tx_ok tx ->
  match AsMessage hash Ecrecover s tx with Ok (_, msg) => msg_ok msg /\ msg_Gas msg = tx_GasLimit (tx_data tx) | Err _ => True | _ => False end.
Proof.
  intros Hh [(Hn & Hg & Hto & [? _] & [? _] & [Hp Hl] & _) Hf]. unfold AsMessage.
  assert (match Sender hash Ecrecover s tx with Ok (tx', a) => tx_data tx' = tx_data tx /\ digits_ok a | Err _ => True | _ => False end) as Hs.
  { unfold Sender. pose proof (Signer_Sender_digits hash Ecrecover s (tx_data tx) Hh) as Hd.
    destruct (tx_from tx) as [[s0 from]|]; [destruct (Signer_Equal s0 s); [by split; [|eapply Hf]|]|]; by destruct (Signer_Sender hash Ecrecover s (tx_data tx)). }
  destruct (Sender hash Ecrecover s tx) as [[tx' a]| | |]; cbn [outcome_bind]; try done. destruct Hs as [E Ha]. rewrite E. split; [|done].
  constructor; cbn; try done; [|split; [done|lia]]. intros to Hto'. by apply bytes_digits, (Hto to).
Qed.

(** * A block *)

Section processing.
Context {T : Type} `{HT : Trie T} `{!TrieLaws T} (db : Database T) (hash : bytes -> bytes) (Hb : backing_ok db hash).
#[local] Instance processing_StateDB : StateDB (SDB T) := SDB_StateDB db hash.
#[local] Instance processing_laws : StateDBLaws (SDB T) hash := SDB_StateDBLaws db hash Hb.
Context (config : ChainConfig) (setup : VmSetup) (engine : Engine (SDB T)) {HE : EngineLaws db hash engine}.
Context (Ecrecover : bytes -> bytes -> option bytes) (GetHash : Header -> Z -> bytes) (DAORefundContract : bytes) (DAODrainList : list bytes).
Implicit Types s : SDB T.

Record setup_ok : Prop := {
  su_digits b : digits_ok (hash b);
  su_GetHash h n : digits_ok (GetHash h n);
  su_gas a p b : vs_Homestead setup a = Some p \/ vs_Byzantium setup a = Some p -> 0 <= pc_RequiredGas p b;
  su_run a p b r : vs_Homestead setup a = Some p \/ vs_Byzantium setup a = Some p -> pc_Run p b = Some r -> slice_ok r }.
Context (Hsu : setup_ok).

Abbreviation context := (NewEVMContext hash config setup engine GetHash).

Lemma context_ok msg header : msg_ok msg -> digits_ok (h_Coinbase header) -> env_ok (context msg header None).
Proof using Hb HE Hsu.
  intros Hm Hc. destruct Hsu as [H1 H2 H3 H4]. constructor; cbn; try done.
  - apply (bk_free _ _ Hb).
  - apply Hm.
  - destruct (en_Author engine header) as [a|] eqn:E; [exact (el_author db hash header a E Hc)|exact (digits_ok_zeros AddressLength)].
  - apply Hm.
  - intros a p b. unfold precompiles. cbn. destruct (e_IsByzantium _); eauto.
  - intros a p b r. unfold precompiles. cbn. destruct (e_IsByzantium _); eauto.
Qed.

(** What a transaction does to the progress through the block, and the receipt it leaves. *)
Record applied (p : Progress) (tx : Transaction) (p' : Progress) (r : Receipt) (gas : Z) : Prop := {
  ap_ok : sdb_ok db hash (pr_db p');
  ap_funds M : funds (world (pr_db p)) M -> funds (world (pr_db p')) M;
  ap_gas : 0 <= gas <= tx_GasLimit (tx_data tx);
  ap_pool : pr_gp p' = pr_gp p - gas /\ pr_usedGas p' = pr_usedGas p + gas;
  ap_receipt : rc_GasUsed r = gas /\ rc_CumulativeGasUsed r = pr_usedGas p' /\ rc_TxHash r = tx_Hash hash (tx_data tx);
  ap_logs : rc_Logs r = sGetLogs (pr_db p') (rc_TxHash r);
  ap_bloom l b : l ∈ rc_Logs r -> b ∈ log_keys (sl_log l) -> BloomLookup hash (rc_Bloom r) b = Ok true }.

(** The pool and the gas used make up the gas limit of the block. *)
Record progress_ok (L : Z) (p : Progress) (M : Z) : Prop := {
  po_db : sdb_ok db hash (pr_db p);
  po_funds : funds (world (pr_db p)) M;
  po_gas : 0 <= pr_gp p /\ 0 <= pr_usedGas p /\ pr_gp p + pr_usedGas p = L }.

Lemma finishTransaction_ok header tx msg env (st : StateTransition (SDB T)) gas failed used M : sdb_ok db hash (st_state st) -> funds (world (st_state st)) M -> M < 2 ^ 256 -> is_u64 (used + gas) ->
  exists p' r, finishTransaction db hash config header tx msg env st gas failed used = Ok (p', r, gas) /\ sdb_ok db hash (pr_db p') /\ no_mint (world (st_state st)) (world (pr_db p')) /\
    pr_gp p' = st_gp st /\ pr_usedGas p' = used + gas /\ rc_GasUsed r = gas /\ rc_CumulativeGasUsed r = used + gas /\ rc_TxHash r = tx_Hash hash (tx_data tx) /\
    rc_Logs r = sGetLogs (pr_db p') (rc_TxHash r) /\ forall l b, l ∈ rc_Logs r -> b ∈ log_keys (sl_log l) -> BloomLookup hash (rc_Bloom r) b = Ok true.
Proof using Hb.
  intros Hok Hf HM Hu. unfold finishTransaction. cbv zeta. set (num := Some (h_Number header)).
  assert (exists del s' root, (if IsByzantium config num then let! s := orPanic (Finalise db hash true (st_state st)) in Ok (s, []) else orPanic (IntermediateRoot db hash (IsEIP158 config num) (st_state st)))
    = @Ok process_error _ (s', root) /\ finalised db hash del (st_state st) s') as (del & s' & root & -> & Hfin).
  { unfold IntermediateRoot. destruct (IsByzantium config num); [destruct (IntermediateRoot_ok db hash Hb true _ M Hok Hf HM) as (s' & -> & Hfin & _)|
      destruct (IntermediateRoot_ok db hash Hb (IsEIP158 config num) _ M Hok Hf HM) as (s' & -> & Hfin & _)]; cbn; by eexists _, s', _. }
  cbn [outcome_bind]. destruct (CreateBloom_has hash (bk_len _ _ Hb) [map sl_log (sGetLogs s' (tx_Hash hash (tx_data tx)))]) as (bloom & -> & _ & Hbl). cbn [bloomOf outcome_bind].
  rewrite (u64_small (used + gas)) by done. eexists _, _. split; [reflexivity|]. cbn. split_and!; try done; [apply Hfin| |].
  - destruct (fn_world _ _ _ _ _ Hfin) as [Hw _]. eapply no_mint_trans; [|apply (no_mint_same _ _ (symmetry Hw))]. apply cleared_mints_nothing. intros a. by apply (GetBalance_ok (st_state st) a).
  - intros l b Hl Hk. eapply Hbl; [by left| |done]. by apply list_elem_of_fmap_2.
Qed.

Lemma ApplyTransaction_ok header tx p L M : progress_ok L p M -> M < 2 ^ 256 -> L < 2 ^ 64 -> tx_ok tx -> digits_ok (h_Coinbase header) ->
  match ApplyTransaction db hash config setup engine Ecrecover GetHash None header tx p with
  | Ok (p', r, gas) => applied p tx p' r gas /\ progress_ok L p' M
  | Err _ => True
  | _ => False
  end.
Proof using Hb HE Hsu.
  intros [Hok Hf (Hg1 & Hg2 & Hg3)] HM HL Htx Hc. unfold ApplyTransaction. pose proof (AsMessage_ok hash Ecrecover (MakeSigner config (Some (h_Number header))) tx (su_digits Hsu) Htx) as Hm.
  destruct (AsMessage _ _ _ _) as [[tx' msg]| | |]; [|done..]. destruct Hm as [Hm Hmg]. set (env := context msg header None). pose proof (context_ok msg header Hm Hc) as Henv.
  destruct (mo_gas _ Hm) as [Hmg0 Hmg1].
  assert (evm_ok env (L := processing_laws) (NewEVM (pr_db p))) as Hevm by (constructor; [exact Hok|apply dests_ok_empty|apply slice_ok_nil]).
  assert (is_u64 (pr_gp p) /\ msg_Gas msg < Z.of_nat (S (Z.to_nat (msg_Gas msg)))) as [Hu Hfu0] by (unfold is_u64; lia).
  pose proof (ApplyMessage_ok env (L := processing_laws) Henv msg Hm _ (NewEVM (pr_db p)) (pr_gp p) Hevm ltac:(by intros []) Hu Hfu0) as HA.
  change (processor_StateDB db hash) with processing_StateDB. destruct (ApplyMessage env _ _ msg (pr_gp p)) as [[st' [[ret gas] failed]]|[e st']| |]; [|done..].
  destruct HA as (igas & st2 & st3 & vmerr & Hs). destruct (sl_bounds _ _ _ _ _ _ _ _ _ _ _ _ _ Hs) as (_ & Hgas & Hgp). destruct (sl_after _ _ _ _ _ _ _ _ _ _ _ _ _ Hs) as [Hev _].
  pose proof (sl_funds _ _ _ _ _ _ _ _ _ _ _ _ _ Hs) as Hfu. pose proof (sl_pool _ _ _ _ _ _ _ _ _ _ _ _ _ Hs) as Hpool.
  destruct (finishTransaction_ok header tx msg env st' gas failed (pr_usedGas p) M) as (p' & r & E & Hok' & Hmint & E1 & E2 & E3 & E4 & E5 & E6 & E7); [apply Hev|by apply Hfu|done|unfold is_u64; lia|].
  rewrite E. split.
  - constructor; [done| |lia|lia|by rewrite E2|done|done]. intros M' HM'. by apply Hmint, Hfu.
  - constructor; [done|by apply Hmint, Hfu|]. lia.
Qed.

(** The receipts of a block add up: each counts the gas used up to and with its transaction. *)
Fixpoint tally (used : Z) (rs : list Receipt) (total : Z) : Prop :=
  match rs with
  | [] => total = used
  | r :: rs => 0 <= rc_GasUsed r /\ rc_CumulativeGasUsed r = used + rc_GasUsed r /\ tally (rc_CumulativeGasUsed r) rs total
  end.

(** A filter without false negatives. *)
Definition bloom_covers (r : Receipt) : Prop := forall l b, l ∈ rc_Logs r -> b ∈ log_keys (sl_log l) -> BloomLookup hash (rc_Bloom r) b = Ok true.

Lemma Prepare_ok th bh i s : sdb_ok db hash s -> sdb_ok db hash (State.Prepare th bh i s).
Proof. intros [Hl Hs Hk Hlog Hrv]. constructor; try done. - by apply (kept_ext db s). - by destruct Hrv. Qed.

Lemma applyTransactions_ok blockHash header L M : M < 2 ^ 256 -> L < 2 ^ 64 -> digits_ok (h_Coinbase header) -> forall txs i p, progress_ok L p M -> Forall tx_ok txs ->
  match applyTransactions db hash config setup engine Ecrecover GetHash blockHash header txs i p with
  | Ok (p', rs) => progress_ok L p' M /\ map rc_TxHash rs = map (fun tx => tx_Hash hash (tx_data tx)) txs /\ tally (pr_usedGas p) rs (pr_usedGas p') /\ Forall bloom_covers rs
  | Err _ => True
  | _ => False
  end.
Proof using Hb HE Hsu.
  intros HM HL Hc. induction txs as [|tx txs IH]; intros i p Hp Htx; cbn [applyTransactions]; [by split_and!|].
  apply Forall_cons in Htx as [Htx Htxs]. set (p0 := MkProgress _ _ _). assert (progress_ok L p0 M) as Hp0 by (destruct Hp; constructor; [by apply Prepare_ok|done|done]).
  pose proof (ApplyTransaction_ok header tx p0 L M Hp0 HM HL Htx Hc) as HA. destruct (ApplyTransaction _ _ _ _ _ _ _ _ _ _ p0) as [[[p1 r] gas]| | |]; cbn [outcome_bind]; try done.
  destruct HA as [[_ _ Hgas [_ Hu] (Hr1 & Hr2 & Hr3) _ Hbl] Hp1]. specialize (IH (i + 1) p1 Hp1 Htxs). destruct (applyTransactions _ _ _ _ _ _ _ _ _ _ _ p1) as [[p' rs]| | |]; cbn [outcome_bind]; try done.
  destruct IH as (H1 & H2 & H3 & H4). cbn [map tally]. rewrite Hr3, H2. change (pr_usedGas p0) with (pr_usedGas p) in Hu. split_and!; [done|done|lia|lia|by rewrite Hr2|by constructor].
Qed.

(** The fork that moved the DAO's money mints nothing. *)
Lemma ApplyDAOHardFork_ok s : sdb_ok db hash s -> sdb_ok db hash (ApplyDAOHardFork (sSetBalance hash) DAORefundContract DAODrainList s) /\
  no_mint (world s) (world (ApplyDAOHardFork (sSetBalance hash) DAORefundContract DAODrainList s)).
Proof using Hb.
  intros Hok. unfold ApplyDAOHardFork. set (s0 := if negb _ then _ else _). assert (sdb_ok db hash s0 /\ no_mint (world s) (world s0)) as [Hok0 Hm0].
  { subst s0. destruct (negb _); [|done]. destruct (@CreateAccount_ok _ _ _ processing_laws s DAORefundContract Hok) as (H1 & Hw & _). split; [exact H1|]. apply no_mint_le. intros a. by rewrite (sa_balance _ _ Hw). }
  assert (forall l s1, sdb_ok db hash s1 -> no_mint (world s) (world s1) ->
    let s2 := foldl (fun db0 addr => sSetBalance hash addr 0 (AddBalance DAORefundContract (GetBalance db0 addr) db0)) s1 l in sdb_ok db hash s2 /\ no_mint (world s) (world s2)) as Hloop; [|by apply Hloop].
  clear - Hb. induction l as [|a l IH]; intros s1 Hok Hm; cbn [foldl]; [done|]. pose proof (@GetBalance_ok _ _ _ processing_laws s1 a Hok) as Ha.
  destruct (@AddBalance_ok _ _ _ processing_laws s1 DAORefundContract (GetBalance s1 a) Hok Ha) as (Hok2 & Hw2 & _). set (s2 := AddBalance DAORefundContract (GetBalance s1 a) s1) in *.
  destruct (sSetBalance_ok db hash Hb s2 a 0 Hok2 ltac:(lia)) as (Hok3 & Hw3 & _). apply IH; [exact Hok3|]. eapply no_mint_trans; [exact Hm|]. eapply no_mint_trans; [exact (no_mint_give (world s1) a DAORefundContract Ha)|].
  apply no_mint_le. intros b. rewrite (sa_balance _ _ Hw3). cbn. unfold upd. case_bool_decide; [done|]. pose proof (sa_balance _ _ Hw2 b) as E. cbn in E. rewrite E. unfold upd. done.
Qed.

Lemma Process_ok block s M : let header := b_header (fb_block block) in let uncles := b_uncles (fb_block block) in
  sdb_ok db hash s -> funds (world s) M -> M + Z.max 0 (el_minted db hash engine config header uncles) < 2 ^ 256 -> el_fine db hash engine header uncles ->
  is_u64 (h_GasLimit header) -> digits_ok (h_Coinbase header) -> Forall tx_ok (fb_transactions block) ->
  match Process db hash config setup engine Ecrecover GetHash DAORefundContract DAODrainList block s with
  | Ok (s', (receipts, logs, used)) =>
      sdb_ok db hash s' /\ funds (world s') (M + el_minted db hash engine config header uncles) /\
      map rc_TxHash receipts = map (fun tx => tx_Hash hash (tx_data tx)) (fb_transactions block) /\ tally 0 receipts used /\ 0 <= used <= h_GasLimit header /\
      Forall bloom_covers receipts /\ logs = concat (map rc_Logs receipts)
  | Err _ => True
  | _ => False
  end.
Proof using Hb HE Hsu.
  intros header uncles Hok Hf HM Hfine [HL0 HL] Hc Htx. unfold Process, AddGas. fold header uncles. unfold MaxUint64. rewrite (u64_small (2 ^ 64 - 1 - _)) by (unfold is_u64; lia).
  rewrite Z.gtb_ltb, (proj2 (Z.ltb_ge _ _)) by lia. cbn [outcome_bind]. rewrite Z.add_0_l, u64_small by (unfold is_u64; lia).
  change (processor_StateDB db hash) with processing_StateDB. set (s1 := if _ && _ then _ else _). assert (sdb_ok db hash s1 /\ no_mint (world s) (world s1)) as [Hok1 Hm1].
  { subst s1. destruct (_ && _); [by apply ApplyDAOHardFork_ok|done]. }
  pose proof (applyTransactions_ok (Block_Hash hash (fb_block block)) header (h_GasLimit header) M ltac:(lia) HL Hc (fb_transactions block) 0 (MkProgress (h_GasLimit header) s1 0)) as HA.
  specialize (HA ltac:(constructor; [done|by apply Hm1|cbn; lia]) Htx). destruct (applyTransactions _ _ _ _ _ _ _ _ _ _ _ _) as [[p rs]| | |]; cbn [outcome_bind]; try done.
  destruct HA as ([Hok2 Hf2 (H1 & H2 & H3)] & HT1 & HT2 & HT3). destruct (el_Finalize db hash config header uncles (pr_db p) M Hok2 Hfine Hf2 ltac:(lia)) as (s' & -> & Hok' & Hf').
  cbn [orPanic outcome_bind]. cbn [pr_usedGas] in HT2. split_and!; try done; lia.
Qed.
(** C2. Processing a block of well-formed transactions on a well-formed state always returns: an
    error, when a signature, a nonce or the means of a sender do not allow a transaction, or
    the new state with one receipt for each transaction.  The receipts name their
    transactions and count the gas used so far, which adds up to the gas used in the
    block and stays within its gas limit; their filters have no false negatives.  And no
    account and no set of accounts holds more afterwards than all could hold before and the
    engine has minted. *)
Theorem block_processed block s M : let header := b_header (fb_block block) in let uncles := b_uncles (fb_block block) in
  sdb_ok db hash s -> funds (world s) M -> M + Z.max 0 (el_minted db hash engine config header uncles) < 2 ^ 256 -> el_fine db hash engine header uncles ->
  is_u64 (h_GasLimit header) -> digits_ok (h_Coinbase header) -> Forall tx_ok (fb_transactions block) ->
  match Process db hash config setup engine Ecrecover GetHash DAORefundContract DAODrainList block s with
  | Ok (s', (receipts, logs, used)) =>
      sdb_ok db hash s' /\ funds (world s') (M + el_minted db hash engine config header uncles) /\
      map rc_TxHash receipts = map (fun tx => tx_Hash hash (tx_data tx)) (fb_transactions block) /\ tally 0 receipts used /\ 0 <= used <= h_GasLimit header /\
      Forall bloom_covers receipts /\ logs = concat (map rc_Logs receipts)
  | Err _ => True
  | _ => False
  end.
Proof using Hb HE Hsu. apply Process_ok. Qed.
End processing.

(** * Example *)

Module BlockSample.
Import SignSample.
(** One transaction calls the contract, which stores a value. *)
Definition payer : bytes := keyAddress idealHash toyPub 5.
Definition blockState : SDB (gmap bytes bytes) := AddBalance payer 100000 sampleState.
Definition callTx : Transaction := MkTransaction (newTransaction 0 (Some contract) (Some 10) 60000 (Some 1) []) None.
Definition signedTx : Transaction := match SignTx idealHash toySign callTx (MakeSigner sampleConfig (Some 1)) 5 with Ok tx => tx | _ => callTx end.
Definition header : Header := MkHeader [] [] user [] [] [] [] 131072 1 1000000 0 10 [] [] [].
Definition block : FullBlock := MkFullBlock (MkBlock header []) [signedTx].
Definition setup : VmSetup := MkVmSetup false false (fun _ => None) (fun _ => None) (fun _ => false).
Definition noHash : Header -> Z -> bytes := fun _ _ => zeroHash.
Definition ran := Process sampleDatabase idealHash sampleConfig setup (eaiash sampleDatabase idealHash) toyRecover noHash [] [] block blockState.

Lemma setup_fine : setup_ok idealHash setup noHash.
Proof. constructor; [apply idealHash_digits|intros; apply digits_ok_zeros|by intros a p b [|]|by intros a p b r [|]]. Qed.

Lemma blockState_fine : sdb_ok sampleDatabase idealHash blockState /\ funds (world blockState) 101000.
Proof.
  assert (funds (world (newState (∅ : gmap bytes bytes))) 0) as H0.
  { intros l _. induction l as [|a l IH]; [done|]. cbn [holdings foldr] in *. fold (holdings (world (newState (∅ : gmap bytes bytes))) l) in *.
    assert (w_balance (world (newState (∅ : gmap bytes bytes))) a = 0) as ->; [|lia]. cbn. unfold sGetBalance, getStateObject, loadAccount. cbn. by rewrite !lookup_empty. }
  destruct (AddBalance_funds _ (newState ∅) user 1000 0 newState_fine ltac:(lia) H0) as [H1 F1]. destruct (SetCode_ok _ contract contractCode H1 contractCode_ok) as (_ & W2 & _).
  apply (AddBalance_funds _ sampleState payer 100000 1000 sampleState_ok ltac:(lia)). by apply (no_mint_same _ _ (symmetry W2)).
Qed.

Lemma signedTx_ok : tx_ok signedTx.
Proof.
  assert (tx_from signedTx = None /\ txdata_ok (tx_data signedTx)) as [E H]; [|by split; [|rewrite E]]. split; [vm_compute; reflexivity|].
  assert (tx_data signedTx = MkTxData 0 1 60000 (Some contract) 10 [] (tx_V (tx_data signedTx)) (tx_R (tx_data signedTx)) (tx_S (tx_data signedTx))) as -> by (vm_compute; reflexivity).
  unfold txdata_ok, is_u64, is_word. cbn [tx_AccountNonce tx_GasLimit tx_Recipient tx_Price tx_Amount tx_Payload tx_V tx_R tx_S].
  split_and!; try (vm_compute; done || discriminate); try apply Forall_nil_2. intros a [= <-]. split; [reflexivity|]. by repeat constructor.
Qed.

(** Two generations above the block; the older one is the first of the chain. *)
Definition numbered (n : Z) (parent : bytes) : Header := MkHeader parent [] [] [] [] [] [] 0 n 0 0 0 [] [] [].
Definition ancestors (h : bytes) (n : Z) : option Header := if n =? 1 then Some (numbered 1 [10]) else if n =? 0 then Some (numbered 0 []) else None.

Lemma ancestor_hashes_witness : callAll ancestors (numbered 2 [11]) 3 [0; 1; 0] None = Ok [[10]; [11]; [10]].
Proof.
  apply (ancestor_hashes ancestors (numbered 2 [11])); [|cbn; lia|cbn; lia|repeat constructor; cbn; lia].
  intros h n x. unfold ancestors. destruct (Z.eqb_spec n 1) as [->|]; [by intros [= <-]|]. destruct (Z.eqb_spec n 0) as [->|]; [by intros [= <-]|done].
Defined.

Definition succeeds {E A} (r : outcome E A) : bool := match r with Ok _ => true | _ => false end.

Lemma block_processed_witness : succeeds ran = true /\
  match ran with
  | Ok (s', (receipts, logs, used)) =>
      sdb_ok sampleDatabase idealHash s' /\ funds (world s') (101000 + minted sampleConfig header []) /\
      map rc_TxHash receipts = [tx_Hash idealHash (tx_data signedTx)] /\ tally 0 receipts used /\ 0 <= used <= 1000000 /\ Forall (bloom_covers idealHash) receipts /\ logs = concat (map rc_Logs receipts)
  | Err _ => True
  | _ => False
  end.
Proof.
  split; [vm_compute; reflexivity|].
  apply (block_processed sampleDatabase idealHash sample_backing sampleConfig setup (eaiash sampleDatabase idealHash) (HE := eaiash_laws sampleDatabase idealHash sample_backing) toyRecover noHash [] [] setup_fine block blockState 101000);
    [apply blockState_fine|apply blockState_fine|vm_compute; reflexivity|apply Forall_nil_2|split; vm_compute; done || discriminate|apply TxSample.user_digits|apply Forall_singleton, signedTx_ok].
Defined.
End BlockSample.
