(* ===== verification/Validator.v ===== *)
(** Validating blocks ([src/core/block_validator.go]): the body before the block is processed, the
    state after, and the gas limit a miner proposes. *)

From stdpp Require Import base numbers list gmap.
From S2P Require Import Prelude.
From S2P Require Import CommonMath.
From S2P Require Import Params.
From S2P Require Import RlpEncode.
From S2P Require Import VmData.
From S2P Require Import VmState.
From S2P Require Import VmWorld.
From S2P Require Import TrieEncoding.
From S2P Require Import TrieTree.
From S2P Require Import TrieStore.
From S2P Require Import TrieNode.
From S2P Require Import TrieOps.
From S2P Require Import TrieMap.
From S2P Require Import TrieHasher.
From S2P Require Import State.
From S2P Require Import StateLaws.
From S2P Require Import Sample.
From S2P Require Import StateFinal.
From S2P Require Import Transition.
From S2P Require Import Types.
From S2P Require Import Transactions.
From S2P Require Import Blocks.
From S2P Require Import Consensus.
From S2P Require Import Processor.
Local Open Scope Z_scope.
Local Open Scope go_scope.

Inductive body_error := ErrKnownBlock | ErrNoAncestor | ErrPrunedAncestor | ErrUncles (e : header_error) | ErrUncleRoot | ErrTxRoot.
Inductive state_error := ErrGasUsed | ErrBloom | ErrReceiptRoot | ErrStateRoot.

(** A computation that has no errors of its own. *)
Definition infallible {E A} (o : outcome Empty_set A) : outcome E A := map_err (fun e : Empty_set => match e with end) o.

Section validator.
Context {T : Type} `{HT : State.Trie T} (db : State.Database T) (hash : bytes -> bytes) (config : ChainConfig).
(** What the chain has, and the engine's check of uncles. *)
Context (HasBlockAndState HasBlock : bytes -> Z -> bool) (VerifyUncles : Block -> option header_error).

Definition NumberU64 (block : FullBlock) : Z := u64 (h_Number (fb_header block)).

Definition ValidateBody (block : FullBlock) : outcome body_error unit :=
  let header := fb_header block in
  let parentNumber := u64 (NumberU64 block - 1) in
  if HasBlockAndState (Block_Hash hash (fb_block block)) (NumberU64 block) then Err ErrKnownBlock
  else if negb (HasBlockAndState (h_ParentHash header) parentNumber) then
    Err (if negb (HasBlock (h_ParentHash header) parentNumber) then ErrNoAncestor else ErrPrunedAncestor)
  else match VerifyUncles (fb_block block) with
  | Some e => Err (ErrUncles e)
  | None =>
      if negb (bool_decide (CalcUncleHash hash (fb_uncles block) = h_UncleHash header)) then Err ErrUncleRoot
      else
        let! h := infallible (DeriveSha hash (map tx_GetRlp (fb_transactions block))) in
        if negb (bool_decide (h = h_TxHash header)) then Err ErrTxRoot else Ok tt
  end.

(** The state is finalised again for its root. *)
Definition ValidateState (block : FullBlock) (s : SDB T) (receipts : list Receipt) (usedGas : Z) : outcome state_error (SDB T) :=
  let header := fb_header block in
  if negb (h_GasUsed header =? usedGas) then Err ErrGasUsed
  else
    let! rbloom := infallible (CreateBloom hash (receiptLogs receipts)) in
    if negb (bool_decide (rbloom = h_Bloom header)) then Err ErrBloom
    else
      let! receiptSha := infallible (let! encs := getRlps receipts in DeriveSha hash encs) in
      if negb (bool_decide (receiptSha = h_ReceiptHash header)) then Err ErrReceiptRoot
      else
        let! (s, root) := orPanic (IntermediateRoot db hash (IsEIP158 config (Some (h_Number header))) s) in
        if negb (bool_decide (h_Root header = root)) then Err ErrStateRoot else Ok s.
End validator.

(** [TargetGasLimit] is a variable of the miner. *)
Definition CalcGasLimit (TargetGasLimit : Z) (parent : Header) : Z :=
  let contrib := u64 (h_GasUsed parent + h_GasUsed parent / 2) / GasLimitBoundDivisor in
  let decay := u64 (h_GasLimit parent / GasLimitBoundDivisor - 1) in
  let limit := u64 (u64 (h_GasLimit parent - decay) + contrib) in
  let limit := if limit <? MinGasLimit then MinGasLimit else limit in
  if limit <? TargetGasLimit then
    let limit := u64 (h_GasLimit parent + decay) in
    if TargetGasLimit <? limit then TargetGasLimit else limit
  else limit.

(** * The gas limit *)

(** The gas limit a miner proposes is one that validation accepts: at least the
    minimum, less than a 1024th away from the parent's.  A target that is
    further up than the limit may move is approached as fast as validation allows. *)
Theorem gas_limit_proposed target parent : 5120 <= h_GasLimit parent < 2 ^ 62 -> 0 <= h_GasUsed parent <= h_GasLimit parent -> 0 <= target ->
  let limit := CalcGasLimit target parent in
  5000 <= limit < 2 ^ 63 /\ Z.abs (limit - h_GasLimit parent) < h_GasLimit parent / 1024 /\
  (h_GasLimit parent + h_GasLimit parent / 1024 <= target -> limit = h_GasLimit parent + h_GasLimit parent / 1024 - 1).
Proof.
  intros HL HU Ht. unfold CalcGasLimit. cbv zeta. change GasLimitBoundDivisor with 1024. change MinGasLimit with 5000.
  generalize dependent (h_GasUsed parent). generalize dependent (h_GasLimit parent). intros L HL U HU.
  assert (0 <= U / 2 <= U /\ 0 <= L / 1024 <= L / 4 /\ 0 <= (U + U / 2) / 1024 <= U) as (? & ? & ?) by (Z.to_euclidean_division_equations; lia).
  assert (5 <= L / 1024 /\ 1024 * (L / 1024) <= L < 1024 * (L / 1024) + 1024) as [Hq HLq] by (Z.to_euclidean_division_equations; lia).
  assert (1024 * ((U + U / 2) / 1024) <= U + U / 2) as Hc by (Z.to_euclidean_division_equations; lia).
  assert (L / 4 <= L) by (Z.to_euclidean_division_equations; lia).
  rewrite (u64_small (U + U / 2)), (u64_small (L / 1024 - 1)), (u64_small (L - (L / 1024 - 1))), (u64_small (L - _ + _)), (u64_small (L + _)) by (unfold is_u64; lia).
  assert (2 * (U / 2) <= U) by (Z.to_euclidean_division_equations; lia).
  set (q := L / 1024) in *. set (c := (U + U / 2) / 1024) in *.
  destruct (Z.ltb_spec (L - (q - 1) + c) 5000); [destruct (Z.ltb_spec 5000 target)|destruct (Z.ltb_spec (L - (q - 1) + c) target)]; try destruct (Z.ltb_spec target (L + (q - 1))); lia.
Qed.

(** Below that, the limit of a full block is raised by a 1024th, which validation rejects. *)
Lemma full_block_refused : let parent := MkHeader [] [] [] [] [] [] [] 0 0 5000 5000 0 [] [] [] in
  let limit := CalcGasLimit 5000 parent in ~ Z.abs (limit - h_GasLimit parent) < h_GasLimit parent / 1024.
Proof. vm_compute. done. Qed.

(** * What validation establishes *)

Section body.
Context (hash : bytes -> bytes) (HasBlockAndState HasBlock : bytes -> Z -> bool) (VerifyUncles : Block -> option header_error).

Lemma ValidateBody_commits block : ValidateBody hash HasBlockAndState HasBlock VerifyUncles block = Ok tt -> commits hash block.
Proof.
  unfold ValidateBody. destruct (HasBlockAndState _ _); [done|]. destruct (negb _); [done|]. destruct (VerifyUncles _); [done|].
  case_bool_decide as Hu; [cbn [negb]|done]. unfold commits. destruct (DeriveSha _ _) as [h| | |]; cbn; try done. case_bool_decide as Ht; [|done]. by rewrite Ht.
Qed.

(** A block that was put together by [NewBlock] is never refused for its roots. *)
Lemma NewBlock_commits header txs uncles receipts block : NewBlock hash header txs uncles receipts = Ok block -> commits hash block.
Proof.
  unfold NewBlock, commits. intros E. assert (match txs with [] => Ok EmptyRootHash | _ => DeriveSha hash (map tx_GetRlp txs) end = DeriveSha hash (map tx_GetRlp txs)) as Et by by destruct txs.
  rewrite Et in E. destruct (DeriveSha hash (map tx_GetRlp txs)) as [th| | |] eqn:Ed; cbn in E; try done.
  destruct (match receipts with [] => _ | _ => _ end) as [[rh bloom]| | |]; cbn in E; try done. injection E as <-. cbn. split; [by destruct uncles|done].
Qed.
End body.

Section identity.
Context (hash : bytes -> bytes) (hash_len : forall b, length (hash b) = 32%nat) (hash_ok : forall b, bytes_ok (hash b)) (hash_empty : hash [128] = emptyRoot).

(** C20. The hash of a block identifies all of it: of two blocks with the same hash whose bodies
    validation has accepted, on whatever chains, the headers are the same, the uncles
    are the same and the transactions are the same, in the same order.  No two of the
    strings that are hashed on the way (the two headers, the two lists of uncles and
    the nodes of the two transaction tries) have the same hash. *)
Theorem block_hash_identifies b1 b2 has1 has2 hasb1 hasb2 uncles1 uncles2 : collision_free hash (fun e => block_string hash b1 e \/ block_string hash b2 e) -> block_ok b1 -> block_ok b2 ->
  ValidateBody hash has1 hasb1 uncles1 b1 = Ok tt -> ValidateBody hash has2 hasb2 uncles2 b2 = Ok tt ->
  Block_Hash hash (fb_block b1) = Block_Hash hash (fb_block b2) ->
  fb_block b1 = fb_block b2 /\ map tx_data (fb_transactions b1) = map tx_data (fb_transactions b2).
Proof using hash_len hash_ok hash_empty.
  intros Hc H1 H2 V1%ValidateBody_commits V2%ValidateBody_commits. by apply (hash_identifies hash hash_len hash_ok _ b1 b2 Hc hash_empty (fun e H => H)).
Qed.
End identity.

(** * Accepted blocks *)

Section accepted.
Context {T : Type} `{HT : State.Trie T} `{!TrieLaws T} (db : State.Database T) (hash : bytes -> bytes) (Hb : backing_ok db hash).
#[local] Instance accepted_StateDB : StateDB (SDB T) := SDB_StateDB db hash.
Context (config : ChainConfig) (setup : VmSetup) (engine : Engine (SDB T)) {HE : EngineLaws db hash engine}.
Context (Ecrecover : bytes -> bytes -> option bytes) (GetHash : Header -> Z -> bytes) (DAORefundContract : bytes) (DAODrainList : list bytes).
Context (Hsu : setup_ok hash setup GetHash).

Lemma ValidateState_spec block s receipts used s' : ValidateState db hash config block s receipts used = Ok s' ->
  h_GasUsed (fb_header block) = used /\ CreateBloom hash (receiptLogs receipts) = Ok (h_Bloom (fb_header block)) /\
  (exists encs, getRlps receipts = Ok encs /\ DeriveSha hash encs = Ok (h_ReceiptHash (fb_header block))) /\
  IntermediateRoot db hash (IsEIP158 config (Some (h_Number (fb_header block)))) s = Ok (s', h_Root (fb_header block)).
Proof.
  unfold ValidateState. destruct (Z.eqb_spec (h_GasUsed (fb_header block)) used) as [->|]; cbn [negb]; [|done].
  destruct (CreateBloom _ _) as [bloom| | |]; cbn [infallible map_err outcome_bind]; try done. case_bool_decide as E1; cbn [negb]; [|done]. subst bloom.
  destruct (getRlps receipts) as [encs| | |]; cbn [infallible map_err outcome_bind]; try done. destruct (DeriveSha hash encs) as [rs| | |] eqn:Ed; cbn [infallible map_err outcome_bind]; try done.
  case_bool_decide as E2; cbn [negb]; [|done]. subst rs. destruct (IntermediateRoot _ _ _ _) as [[s1 root]| | |]; cbn [orPanic outcome_bind]; try done.
  case_bool_decide as E3; cbn [negb]; [|done]. subst root. intros [= <-]. split_and!; try done. by exists encs.
Qed.

Lemma logs_of_receipts receipts l : l ∈ concat (map rc_Logs receipts) -> exists logs, logs ∈ receiptLogs receipts /\ sl_log l ∈ logs.
Proof.
  intros Hl. apply list_elem_of_In, in_concat in Hl as (ls & Hls%list_elem_of_In & Hl%list_elem_of_In). apply list_elem_of_fmap in Hls as (r & -> & Hr).
  exists (map sl_log (rc_Logs r)). split; [unfold receiptLogs; by apply (list_elem_of_fmap_2 (fun r => map sl_log (rc_Logs r)))|by apply list_elem_of_fmap_2].
Qed.

(** C19. What the header of an accepted block says is true: when a block was processed and
    its state validated, the state it leaves is well-formed and has the root the
    header names; the gas the header says was used is what the receipts add up to, within
    the limit; whoever looks up the address or a topic of any log of the block in the
    header's filter finds it; the receipts hash to the root in the header; and no set of
    accounts holds more than before and the engine has minted. *)
Theorem accepted_block block s M s' receipts logs used s'' : let header := fb_header block in let uncles := fb_uncles block in
  sdb_ok db hash s -> funds (world s) M -> M + Z.max 0 (el_minted db hash engine config header uncles) < 2 ^ 256 -> el_fine db hash engine header uncles ->
  is_u64 (h_GasLimit header) -> digits_ok (h_Coinbase header) -> Forall tx_ok (fb_transactions block) ->
  Process db hash config setup engine Ecrecover GetHash DAORefundContract DAODrainList block s = Ok (s', (receipts, logs, used)) ->
  ValidateState db hash config block s' receipts used = Ok s'' ->
  sdb_ok db hash s'' /\ trie_Hash (trie s'') = h_Root header /\ funds (world s'') (M + el_minted db hash engine config header uncles) /\
  tally 0 receipts (h_GasUsed header) /\ h_GasUsed header <= h_GasLimit header /\
  (forall l b, l ∈ logs -> b ∈ log_keys (sl_log l) -> BloomLookup hash (h_Bloom header) b = Ok true) /\
  exists encs, getRlps receipts = Ok encs /\ DeriveSha hash encs = Ok (h_ReceiptHash header).
Proof using Hb HE Hsu.
  intros header uncles Hok Hf HM Hfine HL Hc Htx Hp (Hg & Hbl & Hr & Hi)%ValidateState_spec. fold header in Hg, Hbl, Hr, Hi.
  pose proof (Process_ok db hash Hb config setup engine Ecrecover GetHash DAORefundContract DAODrainList Hsu block s M Hok Hf HM Hfine HL Hc Htx) as HP. rewrite Hp in HP.
  destruct HP as (Hok' & Hf' & _ & Ht & Hu & _ & ->). fold header uncles in Hf', Hu.
  destruct (IntermediateRoot_ok db hash Hb (IsEIP158 config (Some (h_Number header))) s' (M + el_minted db hash engine config header uncles) Hok' Hf' ltac:(lia)) as (s2 & E2 & Hfin & Hmint).
  unfold IntermediateRoot in Hi. rewrite E2 in Hi. injection Hi as -> Hroot. rewrite Hg. split_and!; [apply Hfin|done|done|done|lia| |done].
  intros l b Hl Hk. apply logs_of_receipts in Hl as (ls & Hls & Hl). destruct (CreateBloom_has hash (bk_len _ _ Hb) (receiptLogs receipts)) as (f & E & _ & Hhas).
  rewrite Hbl in E. injection E as <-. by eapply Hhas.
Qed.
End accepted.

(** * Examples *)

Module BodySample.
Definition tx : txdata := MkTxData 3 1 21000 (Some (replicate 20 7)) 1000 [] 28 5 6.
Definition root : bytes := match DeriveSha shortHash [tx_GetRlp (MkTransaction tx None)] with Ok h => h | _ => [] end.
Definition header : Header :=
  MkHeader (replicate 32 9) (EmptyUncleHash shortHash) (replicate 20 0) (replicate 32 8) root (replicate 32 0) (replicate 256 0) 131072 1 1000000 21000 10 [] (replicate 32 0) (replicate 8 0).
(** As received, and after its sender was recovered. *)
Definition fresh : FullBlock := MkFullBlock (MkBlock header []) [MkTransaction tx None].
Definition handled : FullBlock := MkFullBlock (MkBlock header []) [MkTransaction tx (Some (HomesteadSigner, replicate 20 4))].
Definition hasParent (h : bytes) (n : Z) : bool := n =? 0.

Lemma tx_fine : txdata_ok tx.
Proof.
  unfold txdata_ok, is_u64, is_word. cbn. split_and!; try lia; try (by apply Forall_nil_2); try done. intros a [= <-]. split; [done|]. by repeat constructor.
Qed.

Definition checked (n : nat) (b : bytes) : bool := (length b =? n)%nat && forallb (fun x => (0 <=? x) && (x <? 256)) b.
Lemma checked_ok n b : checked n b = true -> length b = n /\ bytes_ok b.
Proof.
  unfold checked. rewrite andb_true_iff, Nat.eqb_eq. intros [Hl Hb]. split; [done|]. apply Forall_forall. rewrite forallb_forall in Hb. intros x Hx%list_elem_of_In%Hb. unfold is_byte. lia.
Qed.

Lemma header_fine : header_ok header.
Proof. constructor; try (apply checked_ok; vm_compute; reflexivity); unfold is_u64; cbn; try lia. apply Forall_nil_2. Qed.

Definition blockSize (b : FullBlock) : option Z := match rlp_spec (block_rval b) with Ok e => Some (zlen e) | _ => None end.
Lemma blockSize_ok b n : blockSize b = Some n -> n < 2 ^ 60 -> forall enc, rlp_spec (block_rval b) = Ok enc -> zlen enc < 2 ^ 60.
Proof. unfold blockSize. intros E Hn enc He. rewrite He in E. by injection E as ->. Qed.

Lemma fresh_fine : block_ok fresh.
Proof.
  constructor; [apply header_fine|apply Forall_nil_2|apply Forall_singleton, tx_fine|]. eapply blockSize_ok; [vm_compute; reflexivity|lia].
Qed.
Lemma handled_fine : block_ok handled.
Proof.
  constructor; [apply header_fine|apply Forall_nil_2|apply Forall_singleton, tx_fine|]. eapply blockSize_ok; [vm_compute; reflexivity|lia].
Qed.

(** The strings of both blocks: three, with different hashes. *)
Definition txEnc : bytes := tx_GetRlp (MkTransaction tx None).
Definition leafNode : tree := Ext (keybytesToHex (indexKey 0)) (Leaf txEnc).
Definition headerEnc : bytes := match rlp_spec (header_rval header) with Ok e => e | _ => [] end.
Definition strings : list bytes := [[128]; headerEnc; [192]; tenc shortHash leafNode].

Lemma nodes_known e : hashed shortHash [txEnc] e -> e = tenc shortHash leafNode.
Proof.
  intros (t & u & w & Et & [Hr _ _] & Hw & ->). assert (t_root t = Some (shortNode (keybytesToHex (indexKey 0)) (Some (valueNode txEnc)) (newFlag 0))) as Er.
  { vm_compute in Et. injection Et as <-. vm_compute. reflexivity. }
  rewrite Er in Hr. inversion Hr as [? ? H1|]; subst. inversion H1 as [|? ? ? ? ? H2| |]; subst. inversion H2; subst. f_equal.
  inversion Hw as [|? ? ? Hl|]; subst; [done|]. exfalso. inversion Hl as [? Hnl| |]; subst. by apply Hnl.
Qed.

Lemma strings_known b e : fb_block b = fb_block fresh -> map tx_GetRlp (fb_transactions b) = [txEnc] -> block_string shortHash b e -> e ∈ strings.
Proof.
  intros Eb Et [|e' He|e' He|e' He]; [by left|rewrite Eb in He|rewrite Eb in He|rewrite Et in He].
  - assert (e' = headerEnc) as -> by (unfold headerEnc; change (fb_header fresh) with header in He; by rewrite He). right. by left.
  - injection He as <-. right. right. by left.
  - apply nodes_known in He as ->. do 3 right. by left.
Qed.

Lemma strings_free : collision_free shortHash (fun e => block_string shortHash fresh e \/ block_string shortHash handled e).
Proof.
  assert (NoDup (map shortHash strings)) as Hn by (apply (bool_decide_unpack (NoDup (map shortHash strings))); vm_compute; exact I).
  intros a b Ha Hb E. assert (a ∈ strings) as [i Hi]%list_elem_of_lookup by (destruct Ha as [Ha|Ha]; eapply strings_known; [..|exact Ha]; done).
  assert (b ∈ strings) as [j Hj]%list_elem_of_lookup by (destruct Hb as [Hb|Hb]; eapply strings_known; [..|exact Hb]; done).
  assert (i = j) as ->; [|congruence]. eapply (NoDup_lookup _ i j (shortHash a) Hn); rewrite list_lookup_fmap; [by rewrite Hi|by rewrite Hj, E].
Qed.

Lemma block_hash_identifies_witness : fb_block fresh = fb_block handled /\ map tx_data (fb_transactions fresh) = map tx_data (fb_transactions handled).
Proof.
  apply (block_hash_identifies shortHash shortHash_len shortHash_ok eq_refl fresh handled hasParent hasParent hasParent hasParent (fun _ => None) (fun _ => None) strings_free fresh_fine handled_fine);
    vm_compute; reflexivity.
Defined.

Lemma gas_limit_proposed_witness : CalcGasLimit 8000000 header = 1000975.
Proof. destruct (gas_limit_proposed 8000000 header) as (_ & _ & H); cbn; try lia. rewrite H; [reflexivity|vm_compute; discriminate]. Defined.

Lemma block_roundtrip_witness : exists enc, block_EncodeRLP handled = Ok enc /\ block_DecodeRLP enc = Some fresh.
Proof. apply (block_roundtrip handled handled_fine). Defined.
End BodySample.

Module AcceptedSample.
Import Transactions.SignSample.
Import BlockSample.
(** The block of one call again, with the header that its processing gives. *)
Definition results : bytes * bytes * bytes * Z :=
  match Process sampleDatabase idealHash sampleConfig setup (eaiash sampleDatabase idealHash) toyRecover noHash [] [] block blockState with
  | Ok (s, (receipts, _, used)) =>
      match CreateBloom idealHash (receiptLogs receipts), (let! encs := getRlps receipts in DeriveSha idealHash encs), IntermediateRoot sampleDatabase idealHash (IsEIP158 sampleConfig (Some 1)) s with
      | Ok bloom, Ok receiptSha, Ok (_, root) => (root, receiptSha, bloom, used)
      | _, _, _ => ([], [], [], 0)
      end
  | _ => ([], [], [], 0)
  end.
Definition accepted : FullBlock :=
  MkFullBlock (MkBlock (MkHeader [] [] user results.1.1.1 [] results.1.1.2 results.1.2 131072 1 1000000 results.2 10 [] [] []) []) [signedTx].
Definition processed := Process sampleDatabase idealHash sampleConfig setup (eaiash sampleDatabase idealHash) toyRecover noHash [] [] accepted blockState.
Definition validated := match processed with Ok (s, (receipts, _, used)) => succeeds (ValidateState sampleDatabase idealHash sampleConfig accepted s receipts used) | _ => false end.

Lemma accepted_block_witness : validated = true /\ exists s' receipts logs used s'', processed = Ok (s', (receipts, logs, used)) /\
  ValidateState sampleDatabase idealHash sampleConfig accepted s' receipts used = Ok s'' /\ trie_Hash (trie s'') = h_Root (fb_header accepted) /\ tally 0 receipts (h_GasUsed (fb_header accepted)).
Proof.
  assert (validated = true) as Hv by (vm_compute; reflexivity). split; [exact Hv|]. unfold validated in Hv. destruct processed as [[s' [[receipts logs] used]]| | |] eqn:Ep; [|discriminate Hv..].
  destruct (ValidateState _ _ _ _ _ _ _) as [s''| | |] eqn:Ev; [|discriminate Hv..]. unfold processed in Ep. exists s', receipts, logs, used, s''.
  destruct (accepted_block sampleDatabase idealHash sample_backing sampleConfig setup (eaiash sampleDatabase idealHash) (HE := eaiash_laws sampleDatabase idealHash sample_backing) toyRecover noHash [] []
    setup_fine accepted blockState 101000 s' receipts logs used s'') as (_ & Hr & _ & Ht & _);
    [apply blockState_fine|apply blockState_fine|vm_compute; reflexivity|apply Forall_nil_2|split; vm_compute; done || discriminate|apply TxSample.user_digits|apply Forall_singleton, signedTx_ok|exact Ep|exact Ev|].
  split_and!; [reflexivity|exact Ev|exact Hr|exact Ht].
Defined.
End AcceptedSample.
