(* ===== verification/Heap.v ===== *)
(** The binary heap of Go's [container/heap], which the transaction pool and the transaction order of a
    block are built on: its operations on the slice behind it, and that they keep
    the heap and its elements. *)

From stdpp Require Import base numbers list.
From S2P Require Import Prelude.

Section heap.
Context {A : Type} (less : A -> A -> bool).
Implicit Types (l : list A) (i j k n : nat).

Definition par (k : nat) : nat := ((k - 1) / 2)%nat.
Definition swap (i j : nat) (l : list A) : list A := match l !! i, l !! j with Some x, Some y => <[i := y]> (<[j := x]> l) | _, _ => l end.
Definition lessAt (l : list A) (i j : nat) : bool := match l !! i, l !! j with Some x, Some y => less x y | _, _ => false end.

(** [up] and [down]; every round halves or doubles the index, so that the index and the length are fuel enough. *)
Fixpoint up_loop (fuel j : nat) (l : list A) : list A :=
  match fuel with
  | O => l
  | S fuel => if (par j =? j)%nat || negb (lessAt l j (par j)) then l else up_loop fuel (par j) (swap (par j) j l)
  end.
Definition up (j : nat) (l : list A) : list A := up_loop (S j) j l.
Definition child (i n : nat) (l : list A) : nat := let j1 := (2 * i + 1)%nat in if (S j1 <? n)%nat && lessAt l (S j1) j1 then S j1 else j1.
Fixpoint down_loop (fuel i n : nat) (l : list A) : nat * list A :=
  match fuel with
  | O => (i, l)
  | S fuel =>
      if (n <=? 2 * i + 1)%nat then (i, l)
      else let j := child i n l in if negb (lessAt l j i) then (i, l) else down_loop fuel j n (swap i j l)
  end.
(** Whether the element moved, and the slice afterwards. *)
Definition down (i0 n : nat) (l : list A) : bool * list A := let (i, l) := down_loop n i0 n l in ((i0 <? i)%nat, l).

Fixpoint init_loop (i n : nat) (l : list A) : list A := match i with O => l | S i => init_loop i n (down i n l).2 end.
Definition heap_Init (l : list A) : list A := init_loop (length l / 2) (length l) l.
Definition heap_Push (x : A) (l : list A) : list A := up (length l) (l ++ [x]).
(** The last element of the slice is what [Pop] of the underlying type takes off; an empty slice panics. *)
Definition takeLast (l : list A) : option (A * list A) := let n := (length l - 1)%nat in x ← l !! n; Some (x, take n l).
Definition heap_Pop (l : list A) : option (A * list A) := let n := (length l - 1)%nat in takeLast (down 0 n (swap 0 n l)).2.
Definition heap_Remove (i : nat) (l : list A) : option (A * list A) :=
  let n := (length l - 1)%nat in
  takeLast (if (n =? i)%nat then l else let (moved, l) := down i n (swap i n l) in if moved then l else up i l).
Definition heap_Fix (i : nat) (l : list A) : list A := let (moved, l') := down i (length l) l in if moved then l' else up i l'.

(** * What they keep *)

(** A parent is not greater than its children. *)
Definition leAt l i j : Prop := forall x y, l !! i = Some x -> l !! j = Some y -> less y x = false.
Definition heap_ok l : Prop := forall k, (0 < k)%nat -> leAt l (par k) k.

Context (Hasym : forall x y, less x y = true -> less y x = false) (Htrans : forall x y z, less y x = false -> less z y = false -> less z x = false).

Lemma leAt_trans l i j k : (j < length l)%nat -> leAt l i j -> leAt l j k -> leAt l i k.
Proof using Htrans. intros Hj H1 H2 x z Hx Hz. destruct (lookup_lt_is_Some_2 l j Hj) as [y Hy]. by apply (Htrans x y z); [apply H1|apply H2]. Qed.
Lemma leAt_refl l i : leAt l i i.
Proof using Hasym. intros x y -> [= <-]. destruct (less x x) eqn:E; [|done]. rewrite <- E. by apply Hasym. Qed.
Lemma lessAt_false l i j : lessAt l i j = false -> leAt l j i.
Proof. unfold lessAt. intros H x y Hx Hy. by rewrite Hx, Hy in H. Qed.
Lemma lessAt_true l i j : lessAt l i j = true -> leAt l i j /\ (i < length l)%nat /\ (j < length l)%nat.
Proof using Hasym.
  unfold lessAt. destruct (l !! i) as [x|] eqn:Ex, (l !! j) as [y|] eqn:Ey; try done. intros H. split_and!; [|by eapply lookup_lt_Some..]. intros x' y'. rewrite Ex, Ey. intros [= <-] [= <-]. by apply Hasym.
Qed.

Lemma par_lt k : (0 < k)%nat -> (par k < k)%nat.
Proof. intros H. unfold par. apply Nat.Div0.div_lt_upper_bound. lia. Qed.
Lemma par_spec k i : (0 < k)%nat -> par k = i <-> k = (2 * i + 1)%nat \/ k = (2 * i + 2)%nat.
Proof. intros H. unfold par. pose proof (Nat.div_mod_eq (k - 1) 2). pose proof (Nat.mod_upper_bound (k - 1) 2). lia. Qed.

Lemma swap_length i j l : length (swap i j l) = length l.
Proof. unfold swap. destruct (l !! i), (l !! j); [by rewrite !length_insert|done..]. Qed.
Lemma swap_lookup i j l k : (i < length l)%nat -> (j < length l)%nat -> swap i j l !! k = if decide (k = i) then l !! j else if decide (k = j) then l !! i else l !! k.
Proof.
  intros Hi Hj. unfold swap. destruct (lookup_lt_is_Some_2 l i Hi) as [x Ex], (lookup_lt_is_Some_2 l j Hj) as [y Ey]. rewrite Ex, Ey.
  destruct (decide (k = i)) as [->|Hki]; [by rewrite list_lookup_insert_eq by (rewrite length_insert; lia)|]. rewrite list_lookup_insert_ne by done.
  destruct (decide (k = j)) as [->|Hkj]; [by rewrite list_lookup_insert_eq|]. by rewrite list_lookup_insert_ne.
Qed.
Lemma swap_perm i j l : swap i j l ≡ₚ l.
Proof.
  unfold swap. destruct (l !! i) as [x|] eqn:Ex; [|done]. destruct (l !! j) as [y|] eqn:Ey; [|done]. assert (swap i j l = <[i:=y]> (<[j:=x]> l)) as <- by (unfold swap; by rewrite Ex, Ey).
  pose proof (lookup_lt_Some _ _ _ Ex) as Hi. pose proof (lookup_lt_Some _ _ _ Ey) as Hj. apply Permutation_inj. split; [apply swap_length|].
  exists (fun k => if decide (k = i) then j else if decide (k = j) then i else k). split.
  - intros a b. repeat case_decide; congruence.
  - intros k. rewrite swap_lookup by done. by repeat case_decide.
Qed.
Lemma swap_leAt i j l a b : (i < length l)%nat -> (j < length l)%nat ->
  leAt (swap i j l) a b <-> leAt l (if decide (a = i) then j else if decide (a = j) then i else a) (if decide (b = i) then j else if decide (b = j) then i else b).
Proof. intros Hi Hj. unfold leAt. rewrite !swap_lookup by done. by repeat case_decide. Qed.

(** A heap from [lo] to [n], but for the element at [i]; the children of [i] are not smaller than its parent. *)
Record hole lo n i l : Prop := {
  ho_rest : forall k, (0 < k < n)%nat -> (lo <= par k)%nat -> k <> i -> par k <> i -> leAt l (par k) k;
  ho_over : forall k, (0 < k < n)%nat -> par k = i -> (0 < i)%nat -> (lo <= par i)%nat -> leAt l (par i) k }.

Lemma up_loop_ok fuel : forall j n l, (j < fuel)%nat -> (n <= length l)%nat -> (j < n)%nat -> hole 0 n j l -> (forall k, (0 < k < n)%nat -> par k = j -> leAt l j k) ->
  let l' := up_loop fuel j l in l' ≡ₚ l /\ (forall k, (0 < k < n)%nat -> leAt l' (par k) k) /\ forall k, (n <= k)%nat -> l' !! k = l !! k.
Proof using Htrans Hasym.
  induction fuel as [|fuel IH]; intros j n l Hf Hn Hj Hh Hc; [lia|]. cbn [up_loop]. destruct (Nat.eqb_spec (par j) j) as [E|Hne]; cbn [orb].
  { split_and!; [done| |done]. intros k Hk. destruct (decide (k = j)) as [->|]; [rewrite E; apply leAt_refl|]. destruct (decide (par k = j)) as [Ep|]; [rewrite Ep; by apply Hc|]. apply Hh; lia || done. }
  assert (0 < j)%nat as Hj0 by (destruct j; [done|lia]). pose proof (par_lt j Hj0) as Hp. destruct (lessAt l j (par j)) eqn:E; cbn [negb].
  2:{ apply lessAt_false in E. split_and!; [done| |done]. intros k Hk. destruct (decide (k = j)) as [->|]; [done|]. destruct (decide (par k = j)) as [Ep|]; [rewrite Ep; by apply Hc|]. apply Hh; lia || done. }
  apply lessAt_true in E as (Hle & _ & _). assert (par j < length l)%nat as Hpl by lia. assert (j < length l)%nat as Hjl by lia.
  destruct (IH (par j) n (swap (par j) j l)) as (Hperm & Hok & Hout); [lia|by rewrite swap_length|lia| | |].
  - split.
    + intros k Hk _ Hk1 Hk2. rewrite swap_leAt by done. rewrite (decide_False (P := par k = par j)), (decide_False (P := k = par j)) by done.
      destruct (decide (k = j)) as [->|]; [done|]. destruct (decide (par k = j)) as [Ep|]; [by apply Hh; [..|lia]|]. apply Hh; lia || done.
    + intros k Hk Ek Hj1 _. rewrite swap_leAt by done. pose proof (par_lt _ Hj1) as Hpp. rewrite (decide_False (P := par (par j) = par j)), (decide_False (P := par (par j) = j)), (decide_False (P := k = par j)) by (lia || (pose proof (par_lt k); lia)).
      assert (leAt l (par (par j)) (par j)) as Hpar by (apply Hh; lia). destruct (decide (k = j)) as [->|Hkj]; [done|]. apply (leAt_trans l _ (par j)); [done|done|]. rewrite <- Ek. apply Hh; [lia..|]. intros Ej. rewrite Ek in Ej. lia.
  - intros k Hk Ek. rewrite swap_leAt by done. rewrite decide_True by done. pose proof (par_lt k ltac:(lia)). rewrite (decide_False (P := k = par j)) by lia. destruct (decide (k = j)) as [->|Hkj]; [done|].
    apply (leAt_trans l _ (par j)); [done|done|]. rewrite <- Ek. apply Hh; [lia..|]. intros Ej. rewrite Ek in Ej. lia.
  - split_and!; [rewrite Hperm; apply swap_perm|done|]. intros k Hk. rewrite Hout by done. rewrite swap_lookup, !decide_False by lia. done.
Qed.

(** The smaller child. *)
Lemma child_spec i n l : (2 * i + 1 < n)%nat -> (n <= length l)%nat ->
  let j := child i n l in (0 < j < n)%nat /\ par j = i /\ forall k, (0 < k < n)%nat -> par k = i -> leAt l j k.
Proof using Hasym.
  intros H Hn. unfold child. set (j1 := (2 * i + 1)%nat). assert (par j1 = i) as E1 by (apply par_spec; lia). assert (par (S j1) = i) as E2 by (apply par_spec; lia).
  destruct (Nat.ltb_spec (S j1) n) as [H2|H2]; cbn [andb].
  - destruct (lessAt l (S j1) j1) eqn:E; split_and!; try lia; try done; intros k Hk [->| ->]%par_spec; try lia; fold j1; replace (2 * i + 2)%nat with (S j1) by lia; try apply leAt_refl.
    + by apply lessAt_true in E as [H' _].
    + by apply lessAt_false.
  - split_and!; [lia..|done|]. intros k Hk [->| ->]%par_spec; [apply leAt_refl|lia..].
Qed.

Lemma down_loop_ok fuel : forall lo i n l, (n <= i + fuel)%nat -> (n <= length l)%nat -> (lo <= i)%nat -> hole lo n i l -> ((0 < i)%nat -> (lo <= par i)%nat -> (i < n)%nat -> leAt l (par i) i) ->
  let '(i', l') := down_loop fuel i n l in l' ≡ₚ l /\ (i <= i')%nat /\ (i' = i -> l' = l /\ forall k, (0 < k < n)%nat -> par k = i -> leAt l i k) /\
    (forall k, (0 < k < n)%nat -> (lo <= par k)%nat -> leAt l' (par k) k) /\ forall k, (n <= k)%nat \/ (k < i)%nat -> l' !! k = l !! k.
Proof using Htrans Hasym.
  induction fuel as [|fuel IH]; intros lo i n l Hf Hn Hlo Hh Hp; cbn [down_loop].
  { split_and!; [done|done|..|done]; [split; [done|]; intros k Hk Ek; pose proof (par_lt k); lia|]. intros k Hk Hlk. pose proof (par_lt k ltac:(lia)). apply Hh; lia. }
  destruct (Nat.leb_spec n (2 * i + 1)) as [Hb|Hb].
  { assert (forall k, (0 < k < n)%nat -> par k <> i) as Hno by (intros k Hk [E|E]%par_spec; lia). split_and!; [done|done|..|done]; [split; [done|]; intros k Hk Ek; by destruct (Hno k)|].
    intros k Hk Hlk. destruct (decide (k = i)) as [->|]; [apply Hp; lia|]. apply Hh; [done..|by apply Hno]. }
  destruct (child_spec i n l Hb Hn) as (Hj & Ej & Hmin). set (j := child i n l) in *. destruct (lessAt l j i) eqn:E; cbn [negb].
  2:{ apply lessAt_false in E. assert (forall k, (0 < k < n)%nat -> par k = i -> leAt l i k) as Hc by (intros k Hk Ek; apply (leAt_trans l _ j); [lia|done|by apply Hmin]). split_and!; [done|done|..|done]; [done|].
    intros k Hk Hlk. destruct (decide (par k = i)) as [Ek|]; [rewrite Ek; by apply Hc|]. destruct (decide (k = i)) as [->|]; [apply Hp; lia|]. by apply Hh. }
  apply lessAt_true in E as (Hle & _ & _). pose proof (par_lt j ltac:(lia)) as Hij. rewrite Ej in Hij. assert (i < length l)%nat as Hil by lia. assert (j < length l)%nat as Hjl by lia.
  specialize (IH lo j n (swap i j l)). destruct (down_loop fuel j n (swap i j l)) as [i' l']. destruct IH as (Hperm & Hi' & _ & Hok & Hout); [lia|by rewrite swap_length|lia| | |].
  - split.
    + intros k Hk Hlk Hkj Hpj. rewrite swap_leAt by done. rewrite (decide_False (P := k = j)), (decide_False (P := par k = j)) by done. destruct (decide (k = i)) as [->|Hki].
      * pose proof (par_lt i ltac:(lia)). rewrite (decide_False (P := par i = i)) by lia. apply Hh; [lia|done|lia|done].
      * destruct (decide (par k = i)) as [Ek|]; [by apply Hmin|]. by apply Hh.
    + intros k Hk Ek Hj0 Hlj. rewrite Ej in *. rewrite swap_leAt by done. rewrite (decide_True (P := i = i)) by done. pose proof (par_lt k ltac:(lia)). rewrite (decide_False (P := k = i)), (decide_False (P := k = j)) by lia. rewrite <- Ek. apply Hh; lia.
  - intros _ Hlj _. rewrite Ej in *. rewrite swap_leAt by done. rewrite (decide_True (P := i = i)), (decide_False (P := j = i)), (decide_True (P := j = j)) by lia. done.
  - split_and!; [rewrite Hperm; apply swap_perm|lia|lia|done|]. intros k Hk. rewrite Hout by lia. rewrite swap_lookup, !decide_False by lia. done.
Qed.

(** * The operations *)

Lemma down_ok lo i n l : (n <= length l)%nat -> (lo <= i)%nat -> hole lo n i l -> ((0 < i)%nat -> (lo <= par i)%nat -> (i < n)%nat -> leAt l (par i) i) ->
  (down i n l).2 ≡ₚ l /\ (forall k, (0 < k < n)%nat -> (lo <= par k)%nat -> leAt (down i n l).2 (par k) k) /\ forall k, (n <= k)%nat -> (down i n l).2 !! k = l !! k.
Proof using Htrans Hasym.
  intros Hn Hlo Hh Hp. unfold down. pose proof (down_loop_ok n lo i n l ltac:(lia) Hn Hlo Hh Hp) as H. destruct (down_loop n i n l) as [i' l']. destruct H as (H1 & _ & _ & H2 & H3). split_and!; [done..|]. intros k Hk. apply H3. by left.
Qed.

Lemma heap_ok_take n l : (forall k, (0 < k < n)%nat -> leAt l (par k) k) -> heap_ok (take n l).
Proof.
  intros H k Hk x y. rewrite !lookup_take_Some. intros [Hx _] [Hy Hlt]. by apply (H k).
Qed.
Lemma heap_ok_all l : (forall k, (0 < k < length l)%nat -> leAt l (par k) k) -> heap_ok l.
Proof. intros H. rewrite <- (firstn_all l). by apply heap_ok_take. Qed.
Lemma heap_root l x y : heap_ok l -> l !! 0%nat = Some x -> y ∈ l -> less y x = false.
Proof using Htrans Hasym.
  intros Hh Hx [k Hk]%list_elem_of_lookup_1. revert y Hk. induction k as [k IH] using lt_wf_ind. intros y Hy. destruct (decide (k = 0%nat)) as [->|Hk]; [exact (leAt_refl l 0 x y Hx Hy)|].
  pose proof (par_lt k ltac:(lia)) as Hp. destruct (lookup_lt_is_Some_2 l (par k)) as [z Hz]; [apply lookup_lt_Some in Hy; lia|]. apply (Htrans x z y); [by apply (IH (par k))|]. by apply (Hh k); [lia|..].
Qed.

Lemma init_loop_ok i : forall n l, n = length l -> (forall k, (0 < k < n)%nat -> (i <= par k)%nat -> leAt l (par k) k) -> init_loop i n l ≡ₚ l /\ heap_ok (init_loop i n l).
Proof using Htrans Hasym.
  induction i as [|i IH]; intros n l -> H; cbn [init_loop]; [split; [done|]; apply heap_ok_all; intros k Hk; apply H; lia|].
  destruct (down_ok i i (length l) l) as (H1 & H2 & _); [done|done| |intros H0 Hi; pose proof (par_lt i H0); lia|].
  { split; [intros k Hk Hi Hki Hpi; apply H; lia|intros k Hk _ H0 Hi; pose proof (par_lt i H0); lia]. }
  destruct (IH (length l) (down i (length l) l).2) as [H3 H4]; [by rewrite H1|done|]. split; [by rewrite H3|done].
Qed.
Lemma heap_Init_ok l : heap_Init l ≡ₚ l /\ heap_ok (heap_Init l).
Proof using Htrans Hasym.
  apply init_loop_ok; [done|]. intros k Hk Hp. pose proof (proj1 (par_spec k (par k) ltac:(lia)) eq_refl). pose proof (Nat.div_mod_eq (length l) 2). pose proof (Nat.mod_upper_bound (length l) 2). lia.
Qed.

Lemma heap_Push_ok x l : heap_ok l -> heap_Push x l ≡ₚ x :: l /\ heap_ok (heap_Push x l).
Proof using Htrans Hasym.
  intros Hh. unfold heap_Push, up. destruct (up_loop_ok (S (length l)) (length l) (S (length l)) (l ++ [x])) as (H1 & H2 & _); [lia|rewrite length_app; cbn; lia|lia| | |].
  - split; [|intros k Hk Ek; pose proof (par_lt k ltac:(lia)); lia]. intros k Hk _ Hne _ y z. pose proof (par_lt k ltac:(lia)). rewrite !lookup_app_l by lia. apply (Hh k). lia.
  - intros k Hk Ek. pose proof (par_lt k ltac:(lia)). lia.
  - split; [rewrite H1; by rewrite Permutation_app_comm|]. apply heap_ok_all. intros k Hk. rewrite H1, length_app in Hk. cbn in Hk. apply H2. lia.
Qed.

Lemma takeLast_ok l x : l !! (length l - 1)%nat = Some x -> takeLast l = Some (x, take (length l - 1) l) /\ l ≡ₚ x :: take (length l - 1) l.
Proof.
  intros H. unfold takeLast. rewrite H. split; [done|]. rewrite <- (take_drop (length l - 1) l) at 1. assert (drop (length l - 1) l = [x]) as ->.
  { rewrite (drop_S _ _ _ H), drop_ge; [done|]. apply lookup_lt_Some in H. lia. }
  by rewrite Permutation_app_comm.
Qed.

Lemma heap_Pop_ok l x : heap_ok l -> l !! 0%nat = Some x -> exists l', heap_Pop l = Some (x, l') /\ l ≡ₚ x :: l' /\ heap_ok l' /\ forall y, y ∈ l' -> less y x = false.
Proof using Htrans Hasym.
  intros Hh Hx. pose proof (lookup_lt_Some _ _ _ Hx) as Hl. unfold heap_Pop. set (n := (length l - 1)%nat).
  destruct (down_ok 0 0 n (swap 0 n l)) as (H1 & H2 & H3); [rewrite swap_length; lia|done| |lia|].
  { split; [|lia]. intros k Hk _ Hk0 Hp0. rewrite swap_leAt by lia. pose proof (par_lt k ltac:(lia)). rewrite !decide_False by lia. apply Hh. lia. }
  assert (length (down 0 n (swap 0 n l)).2 = length l) as El by (by rewrite H1, swap_length).
  assert ((down 0 n (swap 0 n l)).2 !! (length (down 0 n (swap 0 n l)).2 - 1)%nat = Some x) as Ex.
  { rewrite El. fold n. rewrite H3 by done. rewrite swap_lookup by lia. case_decide as E; [by rewrite E|]. by rewrite decide_True. }
  destruct (takeLast_ok _ _ Ex) as [Et Ep]. rewrite El in Et, Ep. fold n in Et, Ep. eexists. split; [exact Et|]. assert (l ≡ₚ x :: take n (down 0 n (swap 0 n l)).2) as Hperm by by rewrite <- Ep, H1, swap_perm.
  split_and!; [done|apply heap_ok_take; intros k Hk; apply H2; lia|]. intros y Hy. apply (heap_root l); [done|done|]. rewrite Hperm. by right.
Qed.

(** Putting the element at [i] where it belongs, when only it may be out of place: one that is smaller than
    its parent does not move down. *)
Lemma down_stays i n l : (n <= length l)%nat -> (0 < i < n)%nat -> hole 0 n i l -> leAt l i (par i) -> down_loop n i n l = (i, l).
Proof using Htrans Hasym.
  intros Hn Hi Hh Hle. destruct n as [|n]; [lia|]. cbn [down_loop]. set (m := S n) in *. destruct (Nat.leb_spec m (2 * i + 1)) as [Hb|Hb]; [done|]. destruct (child_spec i m l Hb Hn) as (Hj & Ej & _). set (j := child i m l) in *.
  destruct (lessAt l j i) eqn:E; [exfalso|done]. pose proof (par_lt i ltac:(lia)). assert (leAt l i j) as Hij by (apply (leAt_trans l _ (par i)); [lia|done|]; apply (ho_over _ _ _ _ Hh); lia).
  unfold lessAt in E. destruct (l !! j) as [x|] eqn:Ex, (l !! i) as [y|] eqn:Ey; try done. by rewrite (Hij y x) in E.
Qed.
Lemma heap_settle_ok i n l : (n <= length l)%nat -> (i < n)%nat -> hole 0 n i l ->
  let r := (let (moved, l') := down i n l in if moved then l' else up i l') in r ≡ₚ l /\ (forall k, (0 < k < n)%nat -> leAt r (par k) k) /\ forall k, (n <= k)%nat -> r !! k = l !! k.
Proof using Htrans Hasym.
  intros Hn Hi Hh. assert ((forall k, (0 < k < n)%nat -> par k = i -> leAt l i k) -> up i l ≡ₚ l /\ (forall k, (0 < k < n)%nat -> leAt (up i l) (par k) k) /\ forall k, (n <= k)%nat -> up i l !! k = l !! k) as Hup by (intros Hc; apply (up_loop_ok (S i) i n l); [lia|done..]).
  unfold down. destruct (decide (0 < i)%nat) as [Hi0|Hi0]; [destruct (lessAt l i (par i)) eqn:E|].
  - apply lessAt_true in E as (Hle & _). rewrite down_stays by (done || lia). rewrite Nat.ltb_irrefl. apply Hup. intros k Hk Ek. pose proof (par_lt i Hi0). apply (leAt_trans l _ (par i)); [lia|done|]. apply (ho_over _ _ _ _ Hh); lia.
  - apply lessAt_false in E. pose proof (down_loop_ok n 0 i n l ltac:(lia) Hn ltac:(lia) Hh ltac:(done)) as H. destruct (down_loop n i n l) as [i' l']. destruct H as (H1 & H2 & H3 & H4 & H5).
    destruct (Nat.ltb_spec i i'); [split_and!; [done|intros k Hk; apply H4; lia|intros k Hk; apply H5; by left]|]. destruct H3 as [-> Hc]; [lia|]. by apply Hup.
  - pose proof (down_loop_ok n 0 i n l ltac:(lia) Hn ltac:(lia) Hh ltac:(lia)) as H. destruct (down_loop n i n l) as [i' l']. destruct H as (H1 & H2 & H3 & H4 & H5).
    destruct (Nat.ltb_spec i i'); [split_and!; [done|intros k Hk; apply H4; lia|intros k Hk; apply H5; by left]|]. destruct H3 as [-> Hc]; [lia|]. by apply Hup.
Qed.

Lemma heap_Remove_ok i l x : heap_ok l -> l !! i = Some x -> exists l', heap_Remove i l = Some (x, l') /\ l ≡ₚ x :: l' /\ heap_ok l'.
Proof using Htrans Hasym.
  intros Hh Hx. pose proof (lookup_lt_Some _ _ _ Hx) as Hl. unfold heap_Remove. set (n := (length l - 1)%nat). destruct (Nat.eqb_spec n i) as [<-|Hne].
  { destruct (takeLast_ok l x Hx) as [E Hp]. eexists. split; [exact E|]. split; [done|]. apply heap_ok_take. intros k Hk. apply Hh. lia. }
  destruct (heap_settle_ok i n (swap i n l)) as (H1 & H2 & H3); [rewrite swap_length; lia|lia| |].
  { split.
    - intros k Hk _ Hki Hpi. rewrite swap_leAt by lia. pose proof (par_lt k ltac:(lia)). rewrite !decide_False by lia. apply Hh. lia.
    - intros k Hk Ek Hi0 _. rewrite swap_leAt by lia. pose proof (par_lt i Hi0). pose proof (par_lt k ltac:(lia)). rewrite !decide_False by lia. apply (leAt_trans l _ i); [lia|by apply Hh|]. rewrite <- Ek. apply Hh. lia. }
  set (r := let (moved, l') := down i n (swap i n l) in if moved then l' else up i l') in *. assert (length r = length l) as El by by rewrite H1, swap_length.
  assert (r !! (length r - 1)%nat = Some x) as Ex by (rewrite El; fold n; rewrite H3, swap_lookup, decide_False, decide_True by lia; done).
  destruct (takeLast_ok r x Ex) as [E Hp]. rewrite El in E, Hp. fold n in E, Hp. eexists. split; [exact E|]. split; [by rewrite <- Hp, H1, swap_perm|by apply heap_ok_take].
Qed.

Lemma heap_Fix_ok i l x : heap_ok l -> (i < length l)%nat -> heap_Fix i (<[i := x]> l) ≡ₚ <[i := x]> l /\ heap_ok (heap_Fix i (<[i := x]> l)).
Proof using Htrans Hasym.
  intros Hh Hi. unfold heap_Fix. set (l1 := <[i := x]> l). assert (length l1 = length l) as El by apply length_insert. destruct (heap_settle_ok i (length l1) l1) as (H1 & H2 & _); [done|lia| |].
  { split.
    - intros k Hk _ Hki Hpi a b. unfold l1. rewrite !list_lookup_insert_ne by done. apply Hh. lia.
    - intros k Hk Ek Hi0 _ a b. pose proof (par_lt i Hi0). pose proof (par_lt k ltac:(lia)). unfold l1. rewrite !list_lookup_insert_ne by lia. apply (leAt_trans l _ i); [lia|by apply Hh|]. rewrite <- Ek. apply Hh. lia. }
  split; [done|]. apply heap_ok_all. intros k Hk. rewrite H1 in Hk. by apply H2.
Qed.
End heap.
