(* ===== verification/TxList.v ===== *)
(** The lists of transactions the pool keeps for every account (core/tx_list.go): the map sorted by nonce with its
    heap and its cache, and the list with its caps.  The sorted map refines a sorted list. *)

From stdpp Require Import base numbers list gmap sorting.
From S2P Require Import Prelude.
From S2P Require Import CommonMath.
From S2P Require Import Params.
From S2P Require Import Transactions.
From S2P Require Import Heap.
Local Open Scope Z_scope.

Abbreviation nonce tx := (tx_AccountNonce (tx_data tx)).
Abbreviation price tx := (tx_Price (tx_data tx)).
Abbreviation gas tx := (tx_GasLimit (tx_data tx)).
Abbreviation cost tx := (Cost (tx_data tx)).

Record txSortedMap := MkSortedMap { items : gmap Z Transaction; index : list Z; cache : option (list Transaction) }.
Definition byNonce (a b : Transaction) : Prop := nonce a <= nonce b.
#[export] Instance byNonce_dec a b : Decision (byNonce a b).
Proof. unfold byNonce. apply _. Defined.

Record txList := MkTxList { strict : bool; txs : txSortedMap; costcap : Z; gascap : Z }.

Section sorted_map.
(** The order in which a map is ranged over is not determined; every order is one of its entries. *)
Context (enum : gmap Z Transaction -> list (Z * Transaction)).

Definition newTxSortedMap : txSortedMap := MkSortedMap ∅ [] None.
Definition sm_Get (n : Z) (m : txSortedMap) : option Transaction := items m !! n.
Definition sm_Put (tx : Transaction) (m : txSortedMap) : txSortedMap :=
  let index := match items m !! nonce tx with None => heap_Push Z.ltb (nonce tx) (index m) | Some _ => index m end in
  MkSortedMap (<[nonce tx := tx]> (items m)) index None.

(** The loop of [Forward].  The nonces of the index are those of the map, so that each finds its transaction. *)
Fixpoint forward (fuel : nat) (threshold : Z) (items : gmap Z Transaction) (index : list Z) (removed : list Transaction) : gmap Z Transaction * list Z * list Transaction :=
  match fuel, index with
  | S fuel, first :: _ =>
      if first <? threshold then
        match heap_Pop Z.ltb index with
        | Some (n, index) => forward fuel threshold (delete n items) index (removed ++ option_list (items !! n))
        | None => (items, index, removed)
        end
      else (items, index, removed)
  | _, _ => (items, index, removed)
  end.
Definition sm_Forward (threshold : Z) (m : txSortedMap) : txSortedMap * list Transaction :=
  let '(items, index, removed) := forward (length (index m)) threshold (items m) (index m) [] in
  (MkSortedMap items index (drop (length removed) <$> cache m), removed).

Definition sm_Filter (f : Transaction -> bool) (m : txSortedMap) : txSortedMap * list Transaction :=
  let removed := map snd (filter (fun e => f e.2 = true) (enum (items m))) in
  let items' := filter (fun e => f e.2 = false) (items m) in
  match removed with
  | [] => (MkSortedMap items' (index m) (cache m), [])
  | _ => (MkSortedMap items' (heap_Init Z.ltb (map fst (enum items'))) None, removed)
  end.

(** The loop of [Cap] over the sorted index: [size] counts down to the threshold. *)
Fixpoint dropTop (k : nat) (threshold : nat) (index : list Z) (items : gmap Z Transaction) : gmap Z Transaction * list Transaction :=
  match k with
  | O => (items, [])
  | S k =>
      match index !! (threshold + k)%nat with
      | Some n => let (items', drops) := dropTop k threshold index (delete n items) in (items', option_list (items !! n) ++ drops)
      | None => (items, [])
      end
  end.
Definition sm_Cap (threshold : nat) (m : txSortedMap) : txSortedMap * list Transaction :=
  if (size (items m) <=? threshold)%nat then (m, [])
  else
    let index := merge_sort Z.le (index m) in
    let (items, drops) := dropTop (size (items m) - threshold) threshold index (items m) in
    (MkSortedMap items (heap_Init Z.ltb (take threshold index)) ((fun c => take (length c - length drops) c) <$> cache m), drops).

Fixpoint position (n : Z) (l : list Z) : option nat := match l with [] => None | x :: l => if x =? n then Some O else S <$> position n l end.
Definition sm_Remove (n : Z) (m : txSortedMap) : txSortedMap * bool :=
  match items m !! n with
  | None => (m, false)
  | Some _ =>
      let index := match position n (index m) with Some i => match heap_Remove Z.ltb i (index m) with Some (_, index) => index | None => index m end | None => index m end in
      (MkSortedMap (delete n (items m)) index None, true)
  end.

Fixpoint ready (fuel : nat) (next : Z) (items : gmap Z Transaction) (index : list Z) (acc : list Transaction) : gmap Z Transaction * list Z * list Transaction :=
  match fuel, index with
  | S fuel, first :: _ =>
      if first =? next then
        match heap_Pop Z.ltb index with
        | Some (_, index) => ready fuel (u64 (next + 1)) (delete next items) index (acc ++ option_list (items !! next))
        | None => (items, index, acc)
        end
      else (items, index, acc)
  | _, _ => (items, index, acc)
  end.
Definition sm_Ready (start : Z) (m : txSortedMap) : txSortedMap * list Transaction :=
  match index m with
  | [] => (m, [])
  | first :: _ =>
      if start <? first then (m, [])
      else let '(items, index, acc) := ready (length (index m)) first (items m) (index m) [] in (MkSortedMap items index None, acc)
  end.

Definition sm_Len (m : txSortedMap) : nat := size (items m).
Definition sm_Flatten (m : txSortedMap) : txSortedMap * list Transaction :=
  let c := match cache m with Some c => c | None => merge_sort byNonce (map snd (enum (items m))) end in
  (MkSortedMap (items m) (index m) (Some c), c).

(** * The list *)

Definition newTxList (s : bool) : txList := MkTxList s newTxSortedMap 0 0.
Definition with_txs (l : txList) (m : txSortedMap) : txList := MkTxList (strict l) m (costcap l) (gascap l).
Definition Overlaps (tx : Transaction) (l : txList) : bool := bool_decide (is_Some (sm_Get (nonce tx) (txs l))).
(** A bump in percent, read as a signed integer. *)
Definition bumped (old bump : Z) : Z := (old * i64 (100 + i64 bump)) / 100.
Definition list_Add (tx : Transaction) (priceBump : Z) (l : txList) : txList * (bool * option Transaction) :=
  let old := sm_Get (nonce tx) (txs l) in
  if match old with Some o => (price tx <=? price o) || (price tx <? bumped (price o) priceBump) | None => false end then (l, (false, None))
  else (MkTxList (strict l) (sm_Put tx (txs l)) (Z.max (costcap l) (cost tx)) (Z.max (gascap l) (gas tx)), (true, old)).
Definition list_Forward (threshold : Z) (l : txList) : txList * list Transaction := let (m, removed) := sm_Forward threshold (txs l) in (with_txs l m, removed).
Definition list_Filter (costLimit gasLimit : Z) (l : txList) : txList * (list Transaction * list Transaction) :=
  if (costcap l <=? costLimit) && (gascap l <=? gasLimit) then (l, ([], []))
  else
    let (m, removed) := sm_Filter (fun tx => (costLimit <? cost tx) || (gasLimit <? gas tx)) (txs l) in
    let (m, invalids) :=
      match removed with
      | [] => (m, [])
      | _ => if strict l then let lowest := foldl (fun low tx => if nonce tx <? low then nonce tx else low) (2 ^ 64 - 1) removed in sm_Filter (fun tx => lowest <? nonce tx) m else (m, [])
      end in
    (MkTxList (strict l) m costLimit gasLimit, (removed, invalids)).
Definition list_Cap (threshold : nat) (l : txList) : txList * list Transaction := let (m, drops) := sm_Cap threshold (txs l) in (with_txs l m, drops).
Definition list_Remove (tx : Transaction) (l : txList) : txList * (bool * list Transaction) :=
  let n := nonce tx in
  match sm_Remove n (txs l) with
  | (_, false) => (l, (false, []))
  | (m, true) =>
      if strict l then let (m, invalids) := sm_Filter (fun tx => n <? nonce tx) m in (with_txs l m, (true, invalids))
      else (with_txs l m, (true, []))
  end.
Definition list_Ready (start : Z) (l : txList) : txList * list Transaction := let (m, acc) := sm_Ready start (txs l) in (with_txs l m, acc).
Definition list_Len (l : txList) : nat := sm_Len (txs l).
Definition list_Empty (l : txList) : bool := (list_Len l =? 0)%nat.
Definition list_Flatten (l : txList) : txList * list Transaction := let (m, c) := sm_Flatten (txs l) in (with_txs l m, c).
End sorted_map.

(** * The sorted map is a sorted list *)

Definition tx_lt (a b : Transaction) : Prop := nonce a < nonce b.
Record repr (m : txSortedMap) (L : list Transaction) : Prop := {
  r_sorted : StronglySorted tx_lt L;
  r_items : forall n tx, items m !! n = Some tx <-> tx ∈ L /\ nonce tx = n;
  r_heap : heap_ok Z.ltb (index m);
  r_index : index m ≡ₚ map (fun tx => nonce tx) L;
  r_cache : forall c, cache m = Some c -> c = L }.

Lemma ltb_asym x y : (x <? y) = true -> (y <? x) = false.
Proof. rewrite Z.ltb_lt, Z.ltb_ge. lia. Qed.
Lemma ltb_trans x y z : (y <? x) = false -> (z <? y) = false -> (z <? x) = false.
Proof. rewrite !Z.ltb_ge. lia. Qed.

(** A strictly sorted list is determined by its elements. *)
Lemma sorted_unique L1 : forall L2, StronglySorted tx_lt L1 -> StronglySorted tx_lt L2 -> (forall tx, tx ∈ L1 <-> tx ∈ L2) -> L1 = L2.
Proof.
  assert (forall x y L, Forall (tx_lt x) L -> y ∈ L -> nonce x < nonce y) as Hlt by (intros x y L HF Hy; by apply (proj1 (Forall_forall _ _) HF y)).
  induction L1 as [|x L1 IH]; intros [|y L2] H1 H2 E; [done|exfalso; apply (not_elem_of_nil y), E; by left|exfalso; apply (not_elem_of_nil x), E; by left|].
  apply StronglySorted_inv in H1 as [H1 F1], H2 as [H2 F2]. assert (x = y) as ->.
  { pose proof (proj1 (E x) ltac:(by left)) as Hx. pose proof (proj2 (E y) ltac:(by left)) as Hy. apply elem_of_cons in Hx as [|Hx]; [done|]. apply elem_of_cons in Hy as [|Hy]; [done|]. pose proof (Hlt _ _ _ F1 Hy). pose proof (Hlt _ _ _ F2 Hx). lia. }
  f_equal. apply IH; [done..|]. intros tx. specialize (E tx). rewrite !elem_of_cons in E. split; intros Htx.
  - destruct (proj1 E (or_intror Htx)) as [->|]; [|done]. pose proof (Hlt _ _ _ F1 Htx). lia.
  - destruct (proj2 E (or_intror Htx)) as [->|]; [|done]. pose proof (Hlt _ _ _ F2 Htx). lia.
Qed.
Lemma sorted_nodup L : StronglySorted tx_lt L -> NoDup (map (fun tx => nonce tx) L).
Proof.
  induction 1 as [|x L H IH HF]; [by constructor|]. cbn. constructor; [|done]. intros (y & E & Hy)%list_elem_of_fmap. pose proof (proj1 (Forall_forall _ _) HF y Hy) as Hlt. unfold tx_lt in Hlt. lia.
Qed.
Lemma sorted_same_nonce L a b : StronglySorted tx_lt L -> a ∈ L -> b ∈ L -> nonce a = nonce b -> a = b.
Proof.
  induction 1 as [|x L H IH HF]; [by intros ?%elem_of_nil|]. rewrite !elem_of_cons. assert (forall y, y ∈ L -> nonce x < nonce y) as Hlt by (intros y Hy; by apply (proj1 (Forall_forall _ _) HF y)).
  intros [->|Ha] [->|Hb] E; [done|specialize (Hlt _ Hb); lia|specialize (Hlt _ Ha); lia|by apply IH].
Qed.
Lemma sorted_filter (P : Transaction -> Prop) `{forall x, Decision (P x)} L : StronglySorted tx_lt L -> StronglySorted tx_lt (filter P L).
Proof.
  induction 1 as [|x L HS IH HF]; [constructor|]. rewrite filter_cons. case_decide; [|done]. constructor; [done|]. apply Forall_forall. intros y [_ Hy]%list_elem_of_filter. by apply (proj1 (Forall_forall _ _) HF y).
Qed.

Lemma nonce_in (L : list Transaction) t : t ∈ L -> nonce t ∈ map (fun t => nonce t) L.
Proof. intros H. apply list_elem_of_fmap. by exists t. Qed.
Lemma filter_keeps_all {A} (P : A -> Prop) `{forall x, Decision (P x)} (l : list A) : (forall x, x ∈ l -> P x) -> filter P l = l.
Proof. induction l as [|x l IH]; intros H'; [done|]. rewrite filter_cons, decide_True by (apply H'; by left). f_equal. apply IH. intros y Hy. apply H'. by right. Qed.
Lemma filter_keeps_none {A} (P : A -> Prop) `{forall x, Decision (P x)} (l : list A) : (forall x, x ∈ l -> ~ P x) -> filter P l = [].
Proof. induction l as [|x l IH]; intros H'; [done|]. rewrite filter_cons, decide_False by (apply H'; by left). apply IH. intros y Hy. apply H'. by right. Qed.

Section repr.
Context (m : txSortedMap) (L : list Transaction) (Hm : repr m L).

Lemma repr_entries : map_to_list (items m) ≡ₚ map (fun tx => (nonce tx, tx)) L.
Proof using Hm.
  apply NoDup_Permutation; [apply NoDup_map_to_list| |].
  - apply (NoDup_fmap_1 fst). rewrite <- list_fmap_compose. by apply sorted_nodup, Hm.
  - intros [n tx]. rewrite elem_of_map_to_list, (r_items _ _ Hm), list_elem_of_fmap. split; [intros [H <-]; by exists tx|by intros (tx' & [= -> ->] & H)].
Qed.
Lemma repr_size : size (items m) = length L.
Proof using Hm. rewrite <- length_map_to_list, repr_entries. by rewrite length_map. Qed.
Lemma repr_lookup tx : tx ∈ L -> items m !! nonce tx = Some tx.
Proof using Hm. intros H. by apply (r_items _ _ Hm). Qed.
Lemma repr_head : match L with [] => index m = [] | tx :: _ => exists r, index m = nonce tx :: r end.
Proof using Hm.
  pose proof (r_index _ _ Hm) as Hi. pose proof (r_sorted _ _ Hm) as Hs. destruct L as [|tx L']; [by apply Permutation_nil_r in Hi|]. destruct (index m) as [|x r] eqn:E; [by apply Permutation_nil_l in Hi|]. exists r. f_equal.
  apply StronglySorted_inv in Hs as [_ HF]. pose proof (r_heap _ _ Hm) as Hh. rewrite E in Hh.
  assert (nonce tx ∈ x :: r) as H1 by (rewrite Hi; by left). pose proof (heap_root Z.ltb ltb_asym ltb_trans (x :: r) x (nonce tx) Hh eq_refl H1) as Hle. apply Z.ltb_ge in Hle.
  assert (x ∈ map (fun tx => nonce tx) (tx :: L')) as H2 by (rewrite <- Hi; by left). cbn in H2. apply elem_of_cons in H2 as [|H2]; [done|]. apply list_elem_of_fmap in H2 as (y & -> & Hy). pose proof (proj1 (Forall_forall _ _) HF y Hy) as Hlt. unfold tx_lt in Hlt. lia.
Qed.
End repr.

(** Taking off the first. *)
Lemma repr_pop m tx L : repr m (tx :: L) -> exists index', heap_Pop Z.ltb (index m) = Some (nonce tx, index') /\ items m !! nonce tx = Some tx /\ repr (MkSortedMap (delete (nonce tx) (items m)) index' None) L.
Proof.
  intros Hm. destruct (repr_head _ _ Hm) as [r E]. destruct (heap_Pop_ok Z.ltb ltb_asym ltb_trans (index m) (nonce tx) (r_heap _ _ Hm)) as (index' & -> & Hp & Hh & _); [by rewrite E|]. pose proof (r_sorted _ _ Hm) as Hs.
  exists index'. split; [done|]. split; [apply (repr_lookup _ _ Hm); by left|]. apply StronglySorted_inv in Hs as [Hs HF]. split; [done| |done| |done]; cbn [items index].
  - intros n t. rewrite lookup_delete_Some, (r_items _ _ Hm), elem_of_cons. split.
    + intros (Hn & [->|Ht] & <-); [done|by split].
    + intros [Ht <-]. split_and!; [|by right|done]. pose proof (proj1 (Forall_forall _ _) HF t Ht) as Hlt. unfold tx_lt in Hlt. lia.
  - apply (Permutation_cons_inv (a := nonce tx)). rewrite <- Hp. apply Hm.
Qed.

(** The same without a cache, or with the one that is right. *)
Lemma repr_cache m L c : repr m L -> c = None \/ c = Some L -> repr (MkSortedMap (items m) (index m) c) L.
Proof. intros [H1 H2 H3 H4 H5] Hc. split; try done. cbn. intros c' ->. destruct Hc as [|[= ->]]; done. Qed.

Lemma forward_ok threshold L : forall fuel m acc, (length L <= fuel)%nat -> repr m L -> exists items' index', forward fuel threshold (items m) (index m) acc = (items', index', acc ++ filter (fun tx => nonce tx < threshold) L) /\
  repr (MkSortedMap items' index' None) (filter (fun tx => threshold <= nonce tx) L).
Proof.
  induction L as [|tx L IH]; intros fuel m acc Hf Hm.
  { pose proof (repr_head _ _ Hm) as E. cbn in E. exists (items m), (index m). rewrite E. destruct fuel; cbn; rewrite app_nil_r; (split; [done|]); rewrite <- E; by apply (repr_cache m []); [|left]. }
  destruct fuel as [|fuel]; [cbn in Hf; lia|]. destruct (repr_head _ _ Hm) as [r E]. destruct (repr_pop _ _ _ Hm) as (index' & Epop & El & Hm'). rewrite E in Epop |- *. cbn [forward]. pose proof (r_sorted _ _ Hm) as Hs. apply StronglySorted_inv in Hs as [Hs HF].
  destruct (Z.ltb_spec (nonce tx) threshold) as [Hlt|Hge].
  - rewrite Epop, El. change (option_list (Some tx)) with [tx]. destruct (IH fuel _ (acc ++ [tx]) ltac:(cbn in Hf; lia) Hm') as (items' & index'' & E' & Hr). cbn [items index] in E'. rewrite E'. exists items', index''. rewrite !filter_cons, decide_True, (decide_False (P := threshold <= _)) by lia. by rewrite <- app_assoc.
  - assert (forall t, t ∈ tx :: L -> threshold <= nonce t) as Hall by (intros t [->|Ht]%elem_of_cons; [done|]; pose proof (proj1 (Forall_forall _ _) HF t Ht) as Hlt; unfold tx_lt in Hlt; lia).
    exists (items m), (nonce tx :: r). rewrite filter_keeps_none, filter_keeps_all, app_nil_r by (intros t Ht; pose proof (Hall t Ht); lia). split; [done|]. rewrite <- E. by apply (repr_cache m); [|left].
Qed.

Lemma filter_split_lt threshold L : StronglySorted tx_lt L -> L = filter (fun tx => nonce tx < threshold) L ++ filter (fun tx => threshold <= nonce tx) L.
Proof.
  induction 1 as [|tx L Hs IH HF]; [done|]. rewrite !filter_cons. destruct (decide (nonce tx < threshold)) as [Hlt|Hge]; [rewrite decide_False by lia; cbn; by f_equal|].
  rewrite decide_True by lia. assert (forall t, t ∈ L -> threshold <= nonce t) as Hall by (intros t Ht; pose proof (proj1 (Forall_forall _ _) HF t Ht) as Hlt; unfold tx_lt in Hlt; lia).
  rewrite filter_keeps_none, filter_keeps_all by (intros t Ht; pose proof (Hall t Ht); lia). done.
Qed.

Lemma sm_Forward_ok threshold m L : repr m L -> (sm_Forward threshold m).2 = filter (fun tx => nonce tx < threshold) L /\ repr (sm_Forward threshold m).1 (filter (fun tx => threshold <= nonce tx) L).
Proof.
  intros Hm. unfold sm_Forward. destruct (forward_ok threshold L (length (index m)) m []) as (items' & index' & -> & Hr); [by rewrite (r_index _ _ Hm), length_map|done|]. cbn [fst snd app]. split; [done|].
  apply (repr_cache _ _ _ Hr). destruct (cache m) as [c|] eqn:E; [right|by left]. rewrite (r_cache _ _ Hm c E). cbn. f_equal. rewrite (filter_split_lt threshold L) at 2 by apply Hm. by rewrite drop_app_length.
Qed.

Section ranging.
Context (enum : gmap Z Transaction -> list (Z * Transaction)) (Henum : forall g, enum g ≡ₚ map_to_list g).

(** A filter that takes nothing leaves everything; otherwise index and cache are made anew. *)
Lemma sm_Filter_ok f m L : repr m L -> (sm_Filter enum f m).2 ≡ₚ filter (fun tx => f tx = true) L /\ repr (sm_Filter enum f m).1 (filter (fun tx => f tx = false) L).
Proof using Henum.
  intros Hm. assert (map snd (filter (fun e => f e.2 = true) (enum (items m))) ≡ₚ filter (fun tx => f tx = true) L) as Hrem.
  { rewrite (Henum (items m)), (repr_entries _ _ Hm). clear. induction L as [|tx L IH]; [done|]. cbn [map]. rewrite !filter_cons. cbn [snd]. case_decide; [cbn [map snd]; by constructor|done]. }
  set (items' := filter (fun e => f e.2 = false) (items m)). assert (forall n tx, items' !! n = Some tx <-> tx ∈ filter (fun tx => f tx = false) L /\ nonce tx = n) as Hitems.
  { intros n tx. unfold items'. rewrite map_lookup_filter_Some, (r_items _ _ Hm), list_elem_of_filter. cbn. tauto. }
  pose proof (sorted_filter (fun tx => f tx = false) L (r_sorted _ _ Hm)) as Hs. unfold sm_Filter. fold items'. destruct (map snd _) as [|t ts]; cbn [fst snd].
  - apply Permutation_nil_l in Hrem. rewrite <- Hrem. split; [done|]. assert (filter (fun tx => f tx = false) L = L) as E.
    { apply filter_keeps_all. intros tx Htx. destruct (f tx) eqn:Ef; [|done]. exfalso. apply (not_elem_of_nil tx). rewrite Hrem. by apply list_elem_of_filter. }
    rewrite E in *. destruct Hm as [_ _ H3 H4 H5]. by split.
  - split; [done|]. destruct (heap_Init_ok Z.ltb ltb_asym ltb_trans (map fst (enum items'))) as [Hp Hh]. split; cbn [items index cache]; [done|done|done| |done].
    rewrite Hp, (Henum items'). apply NoDup_Permutation; [apply NoDup_fst_map_to_list|by apply sorted_nodup|]. intros n. rewrite !list_elem_of_fmap. split.
    + intros ([n' tx] & -> & [Htx <-]%elem_of_map_to_list%Hitems). by exists tx.
    + intros (tx & -> & Htx). exists (nonce tx, tx). split; [done|]. by apply elem_of_map_to_list, Hitems.
Qed.

Lemma sm_Flatten_ok m L : repr m L -> (sm_Flatten enum m).2 = L /\ repr (sm_Flatten enum m).1 L.
Proof using Henum.
  intros Hm. unfold sm_Flatten. assert (match cache m with Some c => c | None => merge_sort byNonce (map snd (enum (items m))) end = L) as ->; [|split; [done|]; by apply (repr_cache m); [|right]].
  destruct (cache m) as [c|] eqn:E; [by apply (r_cache _ _ Hm)|]. set (l := map snd _). assert (l ≡ₚ L) as Hl.
  { unfold l. rewrite (Henum (items m)), (repr_entries _ _ Hm), map_map. cbn. by rewrite map_id. }
  assert (Transitive byNonce) as Htr by (intros a b c; unfold byNonce; lia). assert (Total byNonce) as Hto by (intros a b; unfold byNonce; lia).
  pose proof (StronglySorted_merge_sort byNonce l) as Hs. assert (merge_sort byNonce l ≡ₚ L) as Hp by (etrans; [apply merge_sort_Permutation|done]).
  apply sorted_unique; [|apply Hm|intros tx; by rewrite Hp]. assert (NoDup (map (fun tx => nonce tx) (merge_sort byNonce l))) as Hnd by (rewrite Hp; by apply sorted_nodup, Hm).
  clear -Hs Hnd. induction Hs as [|x l' Hs IH HF]; [constructor|]. apply NoDup_cons in Hnd as [Hx Hnd]. constructor; [by apply IH|]. apply Forall_forall. intros y Hy. pose proof (proj1 (Forall_forall _ _) HF y Hy) as Hle. unfold byNonce, tx_lt in *.
  assert (nonce x <> nonce y) by (intros E; apply Hx; rewrite E; by apply nonce_in). lia.
Qed.
End ranging.

(** Replacing in, or inserting into, the sorted list. *)
Definition put (tx : Transaction) (L : list Transaction) : list Transaction := filter (fun t => nonce t < nonce tx) L ++ tx :: filter (fun t => nonce tx < nonce t) L.
Lemma elem_of_put tx L t : t ∈ put tx L <-> t = tx \/ (t ∈ L /\ nonce t <> nonce tx).
Proof. unfold put. rewrite elem_of_app, elem_of_cons, !list_elem_of_filter. split; [intros [[H1 H2]|[->|[H1 H2]]]; [right; split; [done|lia]|by left|right; split; [done|lia]]|]. intros [->|[H1 H2]]; [by right; left|]. destruct (Z.lt_total (nonce t) (nonce tx)) as [|[|]]; [by left|done|by right; right]. Qed.
Lemma sorted_app L1 L2 : StronglySorted tx_lt L1 -> StronglySorted tx_lt L2 -> (forall a b, a ∈ L1 -> b ∈ L2 -> nonce a < nonce b) -> StronglySorted tx_lt (L1 ++ L2).
Proof.
  induction 1 as [|x L Hs IH HF]; intros H2 Hlt; [done|]. cbn. constructor; [apply IH; [done|]; intros a b Ha Hb; apply Hlt; [by right|done]|]. apply Forall_app. split; [done|]. apply Forall_forall. intros b Hb. apply Hlt; [by left|done].
Qed.
Lemma sorted_put tx L : StronglySorted tx_lt L -> StronglySorted tx_lt (put tx L).
Proof.
  intros Hs. apply sorted_app; [by apply sorted_filter| |].
  - constructor; [by apply sorted_filter|]. apply Forall_forall. by intros t [Ht _]%list_elem_of_filter.
  - intros a b [Ha _]%list_elem_of_filter [->|[Hb _]%list_elem_of_filter]%elem_of_cons; lia.
Qed.

Lemma sm_Put_ok tx m L : repr m L -> repr (sm_Put tx m) (put tx L).
Proof.
  intros Hm. pose proof (sorted_put tx L (r_sorted _ _ Hm)) as Hs. assert (forall n t, <[nonce tx := tx]> (items m) !! n = Some t <-> t ∈ put tx L /\ nonce t = n) as Hitems.
  { intros n t. rewrite lookup_insert_Some, (r_items _ _ Hm), elem_of_put. split; [intros [[<- <-]|(Hn & Ht & <-)]; [by split; [left|]|split; [right; split; [done|congruence]|done]]|]. intros [[->|[Ht Hne]] <-]; [by left|by right]. }
  unfold sm_Put. assert (forall n, n ∈ map (fun t => nonce t) (put tx L) <-> n = nonce tx \/ n ∈ map (fun t => nonce t) L) as Hn.
  { intros n. rewrite !list_elem_of_fmap. split; [intros (t & -> & [->|[Ht _]]%elem_of_put); [by left|right; by exists t]|]. intros [->|(t & -> & Ht)]; [exists tx; split; [done|]; apply elem_of_put; by left|].
    destruct (decide (nonce t = nonce tx)) as [E|E]; [exists tx; split; [done|]; apply elem_of_put; by left|exists t; split; [done|]; apply elem_of_put; by right]. }
  pose proof (sorted_nodup _ Hs) as Hnd. pose proof (sorted_nodup _ (r_sorted _ _ Hm)) as Hnd0. destruct (items m !! nonce tx) as [old|] eqn:E.
  - split; cbn [items index cache]; [done|done|apply Hm| |done]. rewrite (r_index _ _ Hm). apply NoDup_Permutation; [done..|]. intros n. rewrite Hn. apply (r_items _ _ Hm) in E as [Ho Eo]. split; [by right|]. intros [->|]; [|done]. rewrite <- Eo. by apply nonce_in.
  - destruct (heap_Push_ok Z.ltb ltb_asym ltb_trans (nonce tx) (index m) (r_heap _ _ Hm)) as [Hp Hh]. split; cbn [items index cache]; [done|done|done| |done]. rewrite Hp, (r_index _ _ Hm).
    apply NoDup_Permutation; [|done|intros n; by rewrite Hn, elem_of_cons]. apply NoDup_cons. split; [|done]. intros (t & Et & Ht)%list_elem_of_fmap. apply (repr_lookup _ _ Hm) in Ht. rewrite <- Et in Ht. congruence.
Qed.

Lemma position_ok n l : n ∈ l -> exists i, position n l = Some i /\ l !! i = Some n.
Proof. induction l as [|x l IH]; [by intros ?%elem_of_nil|]. cbn. intros Hn. destruct (Z.eqb_spec x n) as [->|Hne]; [by exists O|]. apply elem_of_cons in Hn as [|Hn]; [done|]. destruct (IH Hn) as (i & -> & Hi). by exists (S i). Qed.
Lemma sm_Remove_ok n m L : repr m L -> (sm_Remove n m).2 = bool_decide (n ∈ map (fun t => nonce t) L) /\ repr (sm_Remove n m).1 (filter (fun t => nonce t <> n) L).
Proof.
  intros Hm. unfold sm_Remove. destruct (items m !! n) as [t|] eqn:E; cbn [fst snd].
  - apply (r_items _ _ Hm) in E as [Ht <-]. assert (nonce t ∈ map (fun t => nonce t) L) as Hn by by apply nonce_in. split; [by rewrite bool_decide_eq_true_2|].
    destruct (position_ok (nonce t) (index m)) as (i & -> & Hi); [by rewrite (r_index _ _ Hm)|]. destruct (heap_Remove_ok Z.ltb ltb_asym ltb_trans i (index m) _ (r_heap _ _ Hm) Hi) as (index' & -> & Hp & Hh).
    split; cbn [items index cache]; [by apply sorted_filter, Hm| |done| |done].
    + intros k x. rewrite lookup_delete_Some, (r_items _ _ Hm), list_elem_of_filter. split; [intros (H1 & H2 & <-)|intros [[H1 H2] <-]]; split_and!; congruence || done.
    + rewrite (r_index _ _ Hm) in Hp. pose proof (sorted_nodup _ (r_sorted _ _ Hm)) as Hnd. rewrite Hp in Hnd. apply NoDup_cons in Hnd as [Hnot Hnd]. apply NoDup_Permutation; [done|by apply sorted_nodup, sorted_filter, Hm|].
      intros k. assert (k ∈ nonce t :: index' <-> k ∈ map (fun t => nonce t) L) as Hk by by rewrite Hp. rewrite elem_of_cons in Hk. rewrite list_elem_of_fmap. split.
      * intros Hki. pose proof (proj1 Hk (or_intror Hki)) as (x & -> & Hx)%list_elem_of_fmap. exists x. split; [done|]. apply list_elem_of_filter. split; [by intros Ex; rewrite Ex in Hki|done].
      * intros (x & -> & [Hne Hx]%list_elem_of_filter). destruct (proj2 Hk (nonce_in _ _ Hx)) as [|]; done.
  - assert (n ∉ map (fun t => nonce t) L) as Hn by (intros (t & -> & Ht)%list_elem_of_fmap; rewrite (repr_lookup _ _ Hm _ Ht) in E; done). split; [by rewrite bool_decide_eq_false_2|].
    rewrite filter_keeps_all; [done|]. intros t Ht Et. apply Hn. rewrite <- Et. by apply nonce_in.
Qed.

(** The transactions of consecutive nonces at the front. *)
Fixpoint consecutive (next : Z) (L : list Transaction) : list Transaction := match L with tx :: L => if nonce tx =? next then tx :: consecutive (u64 (next + 1)) L else [] | [] => [] end.
Definition readyOf (start : Z) (L : list Transaction) : list Transaction := match L with [] => [] | tx :: _ => if start <? nonce tx then [] else consecutive (nonce tx) L end.

Lemma ready_loop_ok L : forall fuel next m acc, (length L <= fuel)%nat -> repr m L -> exists items' index', ready fuel next (items m) (index m) acc = (items', index', acc ++ consecutive next L) /\
  repr (MkSortedMap items' index' None) (drop (length (consecutive next L)) L).
Proof.
  induction L as [|tx L IH]; intros fuel next m acc Hf Hm.
  { pose proof (repr_head _ _ Hm) as E. cbn in E. exists (items m), (index m). rewrite E. destruct fuel; cbn; rewrite app_nil_r; (split; [done|]); rewrite <- E; by apply (repr_cache m []); [|left]. }
  destruct fuel as [|fuel]; [cbn in Hf; lia|]. destruct (repr_head _ _ Hm) as [r E]. destruct (repr_pop _ _ _ Hm) as (index' & Epop & El & Hm'). rewrite E in Epop |- *. cbn [ready consecutive]. destruct (Z.eqb_spec (nonce tx) next) as [<-|Hne].
  - rewrite Epop, El. change (option_list (Some tx)) with [tx]. destruct (IH fuel (u64 (nonce tx + 1)) _ (acc ++ [tx]) ltac:(cbn in Hf; lia) Hm') as (items' & index'' & E' & Hr). cbn [items index] in E'. rewrite E'. exists items', index''. by rewrite <- app_assoc.
  - exists (items m), (nonce tx :: r). rewrite app_nil_r. split; [done|]. rewrite <- E. by apply (repr_cache m); [|left].
Qed.
Lemma sm_Ready_ok start m L : repr m L -> (sm_Ready start m).2 = readyOf start L /\ repr (sm_Ready start m).1 (drop (length (readyOf start L)) L).
Proof.
  intros Hm. unfold sm_Ready, readyOf. pose proof (repr_head _ _ Hm) as Hh. destruct L as [|tx L]; [by rewrite Hh|]. destruct Hh as [r E]. pose proof (r_index _ _ Hm) as Hi. rewrite E. destruct (start <? nonce tx); [by split|]. rewrite <- E.
  destruct (ready_loop_ok (tx :: L) (length (index m)) (nonce tx) m []) as (items' & index' & -> & Hr); [by rewrite Hi, length_map|done|]. done.
Qed.

Lemma sort_index m L : repr m L -> merge_sort Z.le (index m) = map (fun t => nonce t) L.
Proof.
  intros Hm. apply (StronglySorted_unique Z.le); [apply StronglySorted_merge_sort; apply _| |by rewrite merge_sort_Permutation, (r_index _ _ Hm)].
  pose proof (r_sorted _ _ Hm) as Hs. clear Hm. induction Hs as [|x L Hs IH HF]; [constructor|]. cbn [map]. constructor; [done|]. apply Forall_fmap. eapply Forall_impl; [exact HF|]. unfold tx_lt. cbn. lia.
Qed.
Lemma dropTop_ok D : forall A R items, (forall t, t ∈ D -> items !! nonce t = Some t) -> NoDup (map (fun t => nonce t) D) ->
  exists items', dropTop (length D) (length A) (map (fun t => nonce t) (A ++ D ++ R)) items = (items', reverse D) /\ forall n t, items' !! n = Some t <-> items !! n = Some t /\ n ∉ map (fun t => nonce t) D.
Proof.
  induction D as [|x D IH] using rev_ind; intros A R items HD Hnd; [exists items; split; [done|]; intros n t; split; [intros H; split; [done|apply not_elem_of_nil]|by intros [? _]]|].
  rewrite length_app, Nat.add_1_r. cbn [dropTop]. assert (map (fun t => nonce t) (A ++ (D ++ [x]) ++ R) !! (length A + length D)%nat = Some (nonce x)) as ->.
  { rewrite <- app_assoc, app_assoc. rewrite <- length_app, map_app. rewrite lookup_app_r by (rewrite length_map; lia). by rewrite length_map, Nat.sub_diag. }
  rewrite (HD x) by (apply elem_of_app; right; by left). rewrite map_app in Hnd. apply NoDup_app in Hnd as (Hnd & Hdis & _).
  assert (nonce x ∉ map (fun t => nonce t) D) as Hx by (intros Hin; apply (Hdis _ Hin); cbn; by left).
  destruct (IH A ([x] ++ R) (delete (nonce x) items)) as (items' & E & Hit); [|done|].
  { intros t Ht. rewrite lookup_delete_ne; [apply HD, elem_of_app; by left|]. intros Et. apply Hx. rewrite Et. by apply nonce_in. }
  rewrite <- (app_assoc D). rewrite E. exists items'. split; [by rewrite reverse_snoc|]. intros n t. rewrite Hit, lookup_delete_Some, map_app, elem_of_app. cbn [map]. rewrite list_elem_of_singleton. naive_solver.
Qed.

Lemma sm_Cap_ok k m L : repr m L -> (sm_Cap k m).2 = reverse (drop k L) /\ repr (sm_Cap k m).1 (take k L).
Proof.
  intros Hm. unfold sm_Cap. rewrite (repr_size _ _ Hm), (sort_index _ _ Hm). destruct (Nat.leb_spec (length L) k) as [Hle|Hlt]; [rewrite drop_ge, take_ge by done; by split|].
  pose proof (r_sorted _ _ Hm) as Hs. pose proof (sorted_nodup _ Hs) as Hnd. assert (length (take k L) = k) as Ek by (rewrite length_take; lia).
  assert (forall t, t ∈ drop k L -> items m !! nonce t = Some t) as HD by (intros t Ht; apply (repr_lookup _ _ Hm); rewrite <- (take_drop k L); apply elem_of_app; by right).
  rewrite <- (take_drop k L), map_app in Hnd. apply NoDup_app in Hnd as (Hnd1 & Hdis & Hnd2).
  destruct (dropTop_ok (drop k L) (take k L) [] (items m) HD Hnd2) as (items' & E & Hit). rewrite Ek, app_nil_r, take_drop, length_drop in E. rewrite E. cbn [fst snd]. split; [done|].
  destruct (heap_Init_ok Z.ltb ltb_asym ltb_trans (take k (map (fun t => nonce t) L))) as [Hp Hh]. split; cbn [items index cache]; [| |done| |].
  - rewrite <- (take_drop k L) in Hs. clear -Hs. induction (take k L) as [|x A IH]; [constructor|]. cbn in Hs. apply StronglySorted_inv in Hs as [Hs HF]. constructor; [by apply IH|]. by apply Forall_app in HF as [HF _].
  - intros n t. rewrite Hit, (r_items _ _ Hm). rewrite <- (take_drop k L) at 1. rewrite elem_of_app. split.
    + intros [[[Ht|Ht] <-] Hn]; [done|]. exfalso. apply Hn. by apply nonce_in.
    + intros [Ht <-]. split; [split; [by left|done]|]. apply Hdis. by apply nonce_in.
  - by rewrite Hp, firstn_map.
  - intros c. destruct (cache m) as [c'|] eqn:Ec; [|done]. intros [= <-]. rewrite (r_cache _ _ Hm c' Ec), length_reverse, length_drop. f_equal. lia.
Qed.

(** * Any sequence of operations *)

Inductive smOp := OpPut (tx : Transaction) | OpGet (n : Z) | OpForward (t : Z) | OpFilter (f : Transaction -> bool) | OpCap (k : nat) | OpRemove (n : Z) | OpReady (s : Z) | OpLen | OpFlatten.
Inductive smRes := Done | One (t : option Transaction) | Many (l : list Transaction) | Flag (b : bool) | Count (n : nat).
Definition smExec (enum : gmap Z Transaction -> list (Z * Transaction)) (op : smOp) (m : txSortedMap) : txSortedMap * smRes :=
  match op with
  | OpPut tx => (sm_Put tx m, Done)
  | OpGet n => (m, One (sm_Get n m))
  | OpForward t => let (m, l) := sm_Forward t m in (m, Many l)
  | OpFilter f => let (m, l) := sm_Filter enum f m in (m, Many l)
  | OpCap k => let (m, l) := sm_Cap k m in (m, Many l)
  | OpRemove n => let (m, b) := sm_Remove n m in (m, Flag b)
  | OpReady s => let (m, l) := sm_Ready s m in (m, Many l)
  | OpLen => (m, Count (sm_Len m))
  | OpFlatten => let (m, l) := sm_Flatten enum m in (m, Many l)
  end.
(** What they mean for a sorted list. *)
Definition listExec (op : smOp) (L : list Transaction) : list Transaction * smRes :=
  match op with
  | OpPut tx => (put tx L, Done)
  | OpGet n => (L, One (head (filter (fun t => nonce t = n) L)))
  | OpForward t => (filter (fun tx => t <= nonce tx) L, Many (filter (fun tx => nonce tx < t) L))
  | OpFilter f => (filter (fun tx => f tx = false) L, Many (filter (fun tx => f tx = true) L))
  | OpCap k => (take k L, Many (reverse (drop k L)))
  | OpRemove n => (filter (fun t => nonce t <> n) L, Flag (bool_decide (n ∈ map (fun t => nonce t) L)))
  | OpReady s => (drop (length (readyOf s L)) L, Many (readyOf s L))
  | OpLen => (L, Count (length L))
  | OpFlatten => (L, Many L)
  end.
(** A filter hands out what it removed in any order. *)
Definition agree (op : smOp) (r r' : smRes) : Prop := match op, r, r' with OpFilter _, Many l, Many l' => l ≡ₚ l' | _, _, _ => r = r' end.
Fixpoint runWith {A} (exec : smOp -> A -> A * smRes) (ops : list smOp) (a : A) : A * list smRes := match ops with [] => (a, []) | op :: ops => let (a, r) := exec op a in let (a, rs) := runWith exec ops a in (a, r :: rs) end.

Lemma repr_new : repr newTxSortedMap [].
Proof. split; try done; [constructor|]. intros n tx. split; [done|]. by intros [?%elem_of_nil _]. Qed.
Lemma repr_get m L n : repr m L -> sm_Get n m = head (filter (fun t => nonce t = n) L).
Proof.
  intros Hm. unfold sm_Get. destruct (filter (fun t => nonce t = n) L) as [|t l] eqn:E; cbn [head].
  - apply eq_None_not_Some. intros [t [Ht Hn]%(r_items _ _ Hm)]. apply (not_elem_of_nil t). rewrite <- E. by apply list_elem_of_filter.
  - apply (r_items _ _ Hm). assert (t ∈ t :: l) as Ht by by left. rewrite <- E in Ht. apply list_elem_of_filter in Ht as [Hn Ht]. done.
Qed.

Section runs.
Context (enum : gmap Z Transaction -> list (Z * Transaction)) (Henum : forall g, enum g ≡ₚ map_to_list g).
Lemma smExec_ok op m L : repr m L -> repr (smExec enum op m).1 (listExec op L).1 /\ agree op (smExec enum op m).2 (listExec op L).2.
Proof using Henum.
  intros Hm. destruct op as [tx|n|t|f|k|n|s| |]; cbn [smExec listExec agree].
  - split; [by apply sm_Put_ok|done].
  - split; [done|]. cbn. by rewrite (repr_get m L).
  - destruct (sm_Forward_ok t m L Hm) as [H1 H2]. destruct (sm_Forward t m); cbn [fst snd] in *. by rewrite H1.
  - destruct (sm_Filter_ok enum Henum f m L Hm) as [H1 H2]. by destruct (sm_Filter enum f m).
  - destruct (sm_Cap_ok k m L Hm) as [H1 H2]. destruct (sm_Cap k m); cbn [fst snd] in *. by rewrite H1.
  - destruct (sm_Remove_ok n m L Hm) as [H1 H2]. destruct (sm_Remove n m); cbn [fst snd] in *. by rewrite H1.
  - destruct (sm_Ready_ok s m L Hm) as [H1 H2]. destruct (sm_Ready s m); cbn [fst snd] in *. by rewrite H1.
  - split; [done|]. cbn. unfold sm_Len. by rewrite (repr_size _ _ Hm).
  - destruct (sm_Flatten_ok enum Henum m L Hm) as [H1 H2]. destruct (sm_Flatten enum m); cbn [fst snd] in *. by rewrite H1.
Qed.
Lemma runWith_ok ops : forall m L, repr m L -> repr (runWith (smExec enum) ops m).1 (runWith listExec ops L).1 /\ Forall3 agree ops (runWith (smExec enum) ops m).2 (runWith listExec ops L).2.
Proof using Henum.
  induction ops as [|op ops IH]; intros m L Hm; cbn [runWith]; [split; [done|constructor]|]. destruct (smExec_ok op m L Hm) as [H1 H2]. destruct (smExec enum op m) as [m' r], (listExec op L) as [L' r']. cbn in H1, H2.
  destruct (IH m' L' H1) as [H3 H4]. destruct (runWith _ ops m') as [m'' rs], (runWith _ ops L') as [L'' rs']. split; [done|by constructor].
Qed.

(** C26. The map of transactions by nonce, with its heap of nonces and its cache of the sorted list, is a
    sorted list: whatever operations are done to a new one, in any order and in whatever order its
    hash map is ranged over, each answers what it answers for the list, a filter up to the order. *)
Theorem sorted_map_refines ops : repr (runWith (smExec enum) ops newTxSortedMap).1 (runWith listExec ops []).1 /\
  Forall3 agree ops (runWith (smExec enum) ops newTxSortedMap).2 (runWith listExec ops []).2.
Proof using Henum. apply runWith_ok, repr_new. Qed.
End runs.

(** * The list of an account *)

(** The nonces follow each other without a gap. *)
Definition gapless (L : list Transaction) : Prop := forall k a b, L !! k = Some a -> L !! S k = Some b -> nonce b = nonce a + 1.
Lemma gapless_middle A M C : gapless (A ++ M ++ C) -> gapless M.
Proof.
  intros H k a b Ha Hb. apply (H (length A + k)%nat).
  - rewrite lookup_app_r by lia. replace (length A + k - length A)%nat with k by lia. by apply lookup_app_l_Some.
  - rewrite lookup_app_r by lia. replace (S (length A + k) - length A)%nat with (S k) by lia. by apply lookup_app_l_Some.
Qed.
Lemma gapless_take k L : gapless L -> gapless (take k L).
Proof. intros H. apply (gapless_middle [] _ (drop k L)). cbn. by rewrite take_drop. Qed.
Lemma gapless_drop k L : gapless L -> gapless (drop k L).
Proof. intros H. apply (gapless_middle (take k L) _ []). by rewrite app_nil_r, take_drop. Qed.

(** The transactions before the first that is not all right. *)
Fixpoint prefix_of (ok : Transaction -> bool) (L : list Transaction) : list Transaction := match L with [] => [] | tx :: L => if ok tx then tx :: prefix_of ok L else [] end.
Lemma prefix_of_take ok L : prefix_of ok L = take (length (prefix_of ok L)) L.
Proof. induction L as [|x L IH]; [done|]. cbn. destruct (ok x); [|done]. cbn. by f_equal. Qed.
(** Cutting a sorted list off at its first bad transaction. *)
Lemma prefix_of_split ok L : StronglySorted tx_lt L -> match filter (fun tx => ok tx = false) L with
  | [] => prefix_of ok L = L
  | x :: _ => filter (fun tx => nonce tx <= nonce x) (filter (fun tx => ok tx = true) L) = prefix_of ok L /\ Forall (fun t => nonce x <= nonce t) (filter (fun tx => ok tx = false) L) end.
Proof.
  induction 1 as [|y L Hs IH HF]; [done|]. assert (forall t, t ∈ L -> nonce y < nonce t) as Hlt by (intros t Ht; by apply (proj1 (Forall_forall _ _) HF t)).
  rewrite !(filter_cons (fun tx => ok tx = false)), (filter_cons (fun tx => ok tx = true)). cbn [prefix_of]. destruct (ok y) eqn:E.
  - rewrite (decide_False (P := true = false)), (decide_True (P := true = true)) by done. destruct (filter (fun tx => ok tx = false) L) as [|x l] eqn:Ef; [by rewrite IH|]. destruct IH as [IH1 IH2]. split; [|done].
    assert (x ∈ L) as Hx by (assert (x ∈ x :: l) as Hx by (by left); rewrite <- Ef in Hx; by apply list_elem_of_filter in Hx as [_ Hx]). rewrite filter_cons, decide_True by (specialize (Hlt x Hx); lia). by f_equal.
  - rewrite (decide_True (P := false = false)), (decide_False (P := false = true)) by done. split.
    + apply filter_keeps_none. intros t [_ Ht]%list_elem_of_filter. specialize (Hlt t Ht). lia.
    + constructor; [lia|]. apply Forall_forall. intros t [_ Ht]%list_elem_of_filter. specialize (Hlt t Ht). lia.
Qed.

Record list_ok (l : txList) (L : list Transaction) : Prop := {
  l_repr : repr (txs l) L;
  l_nonces : Forall (fun t => is_u64 (nonce t)) L;
  l_caps : Forall (fun t => cost t <= costcap l /\ gas t <= gascap l) L;
  l_gapless : strict l = true -> gapless L }.

(** [list_ok] of a part of the list, under the same caps. *)
Lemma list_ok_part l m L L' : list_ok l L -> repr m L' -> (forall t, t ∈ L' -> t ∈ L) -> (strict l = true -> gapless L') -> list_ok (with_txs l m) L'.
Proof. intros [H1 H2 H3 H4] Hm Hsub Hg. split; [done|..|done]; apply Forall_forall; intros t Ht; [by apply (proj1 (Forall_forall _ _) H2), Hsub|by apply (proj1 (Forall_forall _ _) H3 t), Hsub]. Qed.
Lemma new_list_ok s : list_ok (newTxList s) [].
Proof. split; [apply repr_new|by constructor..|]. by intros _ k a b. Qed.

Lemma list_Forward_ok t l L : list_ok l L -> (list_Forward t l).2 = filter (fun tx => nonce tx < t) L /\ list_ok (list_Forward t l).1 (filter (fun tx => t <= nonce tx) L).
Proof.
  intros Hl. unfold list_Forward. destruct (sm_Forward_ok t _ _ (l_repr _ _ Hl)) as [H1 H2]. destruct (sm_Forward t (txs l)) as [m r]. cbn in *. split; [done|]. apply (list_ok_part l m L); [done|done|by intros x [_ ?]%list_elem_of_filter|].
  intros Hs. pose proof (l_gapless _ _ Hl Hs) as Hg. rewrite (filter_split_lt t L) in Hg by apply Hl. apply (gapless_middle (filter (fun tx => nonce tx < t) L) _ []). by rewrite app_nil_r.
Qed.
Lemma list_Cap_ok k l L : list_ok l L -> (list_Cap k l).2 = reverse (drop k L) /\ list_ok (list_Cap k l).1 (take k L).
Proof.
  intros Hl. unfold list_Cap. destruct (sm_Cap_ok k _ _ (l_repr _ _ Hl)) as [H1 H2]. destruct (sm_Cap k (txs l)) as [m r]. cbn in *. split; [done|]. apply (list_ok_part l m L); [done|done| |intros Hs; apply gapless_take; by apply Hl].
  intros t Ht. rewrite <- (take_drop k L). apply elem_of_app. by left.
Qed.
Lemma list_Ready_ok s l L : list_ok l L -> (list_Ready s l).2 = readyOf s L /\ list_ok (list_Ready s l).1 (drop (length (readyOf s L)) L).
Proof.
  intros Hl. unfold list_Ready. destruct (sm_Ready_ok s _ _ (l_repr _ _ Hl)) as [H1 H2]. destruct (sm_Ready s (txs l)) as [m r]. cbn in *. split; [done|]. set (k := length (readyOf s L)) in *. apply (list_ok_part l m L); [done|done| |intros Hs; apply gapless_drop; by apply Hl].
  intros t Ht. rewrite <- (take_drop k L). apply elem_of_app. by right.
Qed.

Section listing.
Context (enum : gmap Z Transaction -> list (Z * Transaction)) (Henum : forall g, enum g ≡ₚ map_to_list g).

Lemma list_Flatten_ok l L : list_ok l L -> (list_Flatten enum l).2 = L /\ list_ok (list_Flatten enum l).1 L.
Proof using Henum. intros Hl. unfold list_Flatten. destruct (sm_Flatten_ok enum Henum _ _ (l_repr _ _ Hl)) as [H1 H2]. destruct (sm_Flatten enum (txs l)) as [m r]. cbn in *. split; [done|]. by apply (list_ok_part l m L); [..|apply Hl]. Qed.

(** The lowest nonce of what was removed. *)
Lemma lowest_ok removed x low : nonce x <= low -> x ∈ removed -> Forall (fun t => nonce x <= nonce t) removed -> foldl (fun low tx => if nonce tx <? low then nonce tx else low) low removed = nonce x.
Proof.
  revert low. induction removed as [|y l IH]; intros low Hlow Hx HF; [by apply elem_of_nil in Hx|]. apply Forall_cons in HF as [Hy HF]. cbn [foldl]. apply elem_of_cons in Hx as [->|Hx].
  - assert (forall low, nonce y <= low -> foldl (fun low tx => if nonce tx <? low then nonce tx else low) (nonce y) l = nonce y) as Hmin.
    { intros _ _. clear IH. induction l as [|z l IHl]; [done|]. apply Forall_cons in HF as [Hz HF]. cbn. rewrite (proj2 (Z.ltb_ge _ _)) by done. by apply IHl. }
    destruct (Z.ltb_spec (nonce y) low); [by apply (Hmin low)|]. replace low with (nonce y) by lia. by apply (Hmin low).
  - apply IH; [|done|done]. destruct (nonce y <? low); lia.
Qed.

Lemma filter_partition (f : Transaction -> bool) L : L ≡ₚ filter (fun t => f t = false) L ++ filter (fun t => f t = true) L.
Proof.
  induction L as [|x L IH]; [done|]. rewrite !filter_cons. destruct (f x); [rewrite decide_False, decide_True by done; rewrite <- Permutation_middle; by constructor|]. rewrite decide_True, decide_False by done. cbn. by constructor.
Qed.

(** What an account can pay for and what fits into a block. *)
Definition affordable (costLimit gasLimit : Z) (tx : Transaction) : bool := (cost tx <=? costLimit) && (gas tx <=? gasLimit).
(** What is left: in a strict list everything up to the first transaction that is not affordable. *)
Definition kept (s : bool) (costLimit gasLimit : Z) (L : list Transaction) : list Transaction :=
  if s then prefix_of (affordable costLimit gasLimit) L else filter (fun t => affordable costLimit gasLimit t = true) L.
Lemma over_affordable c g tx : ((c <? cost tx) || (g <? gas tx)) = negb (affordable c g tx).
Proof. unfold affordable. destruct (Z.ltb_spec c (cost tx)), (Z.leb_spec (cost tx) c), (Z.ltb_spec g (gas tx)), (Z.leb_spec (gas tx) g); try done; lia. Qed.
Lemma kept_affordable s c g L t : t ∈ kept s c g L -> t ∈ L /\ affordable c g t = true.
Proof.
  unfold kept. destruct s; [|intros [H1 H2]%list_elem_of_filter; done]. induction L as [|x L IH]; [by intros ?%elem_of_nil|]. cbn. destruct (affordable c g x) eqn:E; [|by intros ?%elem_of_nil].
  intros [->|Ht]%elem_of_cons; [by split; [left|]|]. destruct (IH Ht) as [H1 H2]. by split; [right|].
Qed.

(** The steps of [Filter], when the caps do not spare them. *)
Lemma filtered_ok c g l L : list_ok l L -> let (m, removed) := sm_Filter enum (fun tx => (c <? cost tx) || (g <? gas tx)) (txs l) in
  removed ≡ₚ filter (fun t => affordable c g t = false) L /\ repr m (filter (fun t => affordable c g t = true) L).
Proof using Henum.
  intros Hl. destruct (sm_Filter_ok enum Henum (fun tx => (c <? cost tx) || (g <? gas tx)) _ _ (l_repr _ _ Hl)) as [H1 H2]. destruct (sm_Filter enum _ _) as [m removed]. cbn in H1, H2. split.
  - rewrite H1. erewrite list_filter_iff; [done|]. intros t. cbn. rewrite over_affordable. by rewrite negb_true_iff.
  - erewrite list_filter_iff; [exact H2|]. intros t. cbn. rewrite over_affordable. by rewrite negb_false_iff.
Qed.
Lemma all_affordable c g l L : list_ok l L -> costcap l <= c -> gascap l <= g -> forall t, t ∈ L -> affordable c g t = true.
Proof. intros Hl Hc Hg t Ht. destruct (proj1 (Forall_forall _ _) (l_caps _ _ Hl) t Ht) as [H1 H2]. unfold affordable. apply andb_true_iff. split; apply Z.leb_le; lia. Qed.
Lemma kept_all s c g L : (forall t, t ∈ L -> affordable c g t = true) -> kept s c g L = L.
Proof.
  intros H. unfold kept. destruct s; [|by apply filter_keeps_all]. induction L as [|x L IH]; [done|]. cbn. rewrite H by (by left). f_equal. apply IH. intros t Ht. apply H. by right.
Qed.
Lemma kept_ok l m c g L : list_ok l L -> repr m (kept (strict l) c g L) -> list_ok (MkTxList (strict l) m c g) (kept (strict l) c g L).
Proof.
  intros Hl Hm. split; cbn [txs strict costcap gascap]; [done|..].
  - apply Forall_forall. intros t [Ht _]%kept_affordable. by apply (proj1 (Forall_forall _ _) (l_nonces _ _ Hl)).
  - apply Forall_forall. intros t [_ Ht]%kept_affordable. unfold affordable in Ht. apply andb_true_iff in Ht as [H1%Z.leb_le H2%Z.leb_le]. done.
  - intros Hs. unfold kept. rewrite Hs, prefix_of_take. apply gapless_take. by apply Hl.
Qed.

Lemma list_Filter_ok c g l L : list_ok l L -> let '(l', (removed, invalids)) := list_Filter enum c g l in
  removed ≡ₚ filter (fun t => affordable c g t = false) L /\ L ≡ₚ kept (strict l) c g L ++ removed ++ invalids /\ list_ok l' (kept (strict l) c g L).
Proof using Henum.
  intros Hl. unfold list_Filter. destruct ((costcap l <=? c) && (gascap l <=? g)) eqn:E.
  { apply andb_true_iff in E as [Hc%Z.leb_le Hg%Z.leb_le]. pose proof (all_affordable c g l L Hl Hc Hg) as Hall. rewrite kept_all by done. rewrite filter_keeps_none by (intros t Ht; by rewrite Hall). by rewrite app_nil_r. }
  pose proof (filtered_ok c g l L Hl) as Hf. destruct (sm_Filter enum _ _) as [m removed]. destruct Hf as [Hrem Hm]. pose proof (filter_partition (affordable c g) L) as Hpart. rewrite Permutation_app_comm in Hpart.
  pose proof (prefix_of_split (affordable c g) L (r_sorted _ _ (l_repr _ _ Hl))) as Hsplit. destruct removed as [|r removed].
  { apply Permutation_nil_l in Hrem. assert (forall t, t ∈ L -> affordable c g t = true) as Hall.
    { intros t Ht. destruct (affordable c g t) eqn:Et; [done|]. exfalso. apply (not_elem_of_nil t). rewrite Hrem. by apply list_elem_of_filter. }
    rewrite <- Hrem. rewrite filter_keeps_all in Hm by done. split; [done|]. split; [by rewrite kept_all, app_nil_r|]. apply kept_ok; [done|]. by rewrite kept_all. }
  destruct (strict l) eqn:Es.
  2:{ rewrite app_nil_r. split; [done|]. split; [by rewrite Hrem|]. rewrite <- Es. apply kept_ok; [done|]. by rewrite Es. }
  destruct (filter (fun t => affordable c g t = false) L) as [|x bad] eqn:Eb; [by apply Permutation_nil_r in Hrem|]. destruct Hsplit as [Hsplit Hmin]. assert (x ∈ L) as HxL by (assert (x ∈ x :: bad) as Hx by (by left); rewrite <- Eb in Hx; by apply list_elem_of_filter in Hx as [_ Hx]).
  rewrite (lowest_ok (r :: removed) x); [|pose proof (proj1 (Forall_forall _ _) (l_nonces _ _ Hl) x HxL) as [_ H64]; lia|rewrite Hrem; by left|by rewrite Hrem].
  destruct (sm_Filter_ok enum Henum (fun tx => nonce x <? nonce tx) m _ Hm) as [Hinv Hm2]. destruct (sm_Filter enum _ m) as [m2 invalids]. cbn [fst snd] in Hinv, Hm2.
  assert (filter (fun tx => (nonce x <? nonce tx) = false) (filter (fun t => affordable c g t = true) L) = prefix_of (affordable c g) L) as Epre by (rewrite <- Hsplit; apply list_filter_iff; intros t; apply Z.ltb_ge).
  rewrite Epre in Hm2. split; [done|]. split; [|rewrite <- Es; apply kept_ok; [done|]; by rewrite Es].
  rewrite Hpart at 1. rewrite (filter_partition (fun tx => nonce x <? nonce tx) (filter (fun t => affordable c g t = true) L)), Epre, <- Hinv, <- Hrem. unfold kept. by rewrite <- app_assoc, (Permutation_app_comm invalids).
Qed.

Lemma list_Remove_ok tx l L : list_ok l L -> let '(l', (found, invalids)) := list_Remove enum tx l in
  found = bool_decide (nonce tx ∈ map (fun t => nonce t) L) /\
  (if found then invalids ≡ₚ (if strict l then filter (fun t => nonce tx < nonce t) L else []) /\ list_ok l' (if strict l then filter (fun t => nonce t < nonce tx) L else filter (fun t => nonce t <> nonce tx) L) else invalids = [] /\ l' = l).
Proof using Henum.
  intros Hl. unfold list_Remove. destruct (sm_Remove_ok (nonce tx) _ _ (l_repr _ _ Hl)) as [Hb Hm]. destruct (sm_Remove _ _) as [m found]. cbn [fst snd] in Hb, Hm. destruct found; [|done]. destruct (strict l) eqn:Es.
  2:{ split; [done|]. split; [done|]. apply (list_ok_part l m L); [done|done|by intros t [_ ?]%list_elem_of_filter|by rewrite Es]. }
  destruct (sm_Filter_ok enum Henum (fun t => nonce tx <? nonce t) m _ Hm) as [Hi Hm2]. destruct (sm_Filter enum _ m) as [m2 invalids]. cbn [fst snd] in Hi, Hm2. split; [done|]. rewrite list_filter_filter in Hi, Hm2. split.
  - rewrite Hi. erewrite list_filter_iff; [done|]. intros t. cbn. rewrite Z.ltb_lt. split; [by intros [? _]|]. intros H. split; [done|lia].
  - erewrite (list_filter_iff _ (fun t => nonce t < nonce tx)) in Hm2; [|intros t; cbn; rewrite Z.ltb_ge; lia]. apply (list_ok_part l m2 L); [done|done|by intros t [_ ?]%list_elem_of_filter|]. intros _. pose proof (l_gapless _ _ Hl Es) as Hg. rewrite (filter_split_lt (nonce tx) L) in Hg by apply Hl.
    by apply (gapless_middle [] _ (filter (fun t => nonce tx <= nonce t) L)).
Qed.

(** The nonces of a sorted list, and a transaction that replaces one or comes right after the last. *)
Lemma nonces_sorted L : StronglySorted tx_lt L -> StronglySorted Z.le (map (fun t => nonce t) L).
Proof. induction 1 as [|x L Hs IH HF]; [constructor|]. cbn [map]. constructor; [done|]. apply Forall_fmap. eapply Forall_impl; [exact HF|]. unfold tx_lt. cbn. lia. Qed.
Lemma gapless_nonces L L' : map (fun t => nonce t) L = map (fun t => nonce t) L' -> gapless L -> gapless L'.
Proof.
  intros E Hg k a b Ha Hb. assert (forall i t, L' !! i = Some t -> exists t', L !! i = Some t' /\ nonce t' = nonce t) as Hsame.
  { intros i t Hi. assert (map (fun t => nonce t) L' !! i = Some (nonce t)) as Hn by by rewrite list_lookup_fmap, Hi. rewrite <- E, list_lookup_fmap in Hn. destruct (L !! i) as [t'|]; [|done]. injection Hn as Hn. by exists t'. }
  destruct (Hsame _ _ Ha) as (a' & Ha' & <-), (Hsame _ _ Hb) as (b' & Hb' & <-). by apply (Hg k).
Qed.
Lemma put_replaces tx L : StronglySorted tx_lt L -> nonce tx ∈ map (fun t => nonce t) L -> map (fun t => nonce t) (put tx L) = map (fun t => nonce t) L.
Proof.
  intros Hs Hn. pose proof (sorted_put tx L Hs) as Hsp. apply (StronglySorted_unique Z.le); [by apply nonces_sorted..|]. apply NoDup_Permutation; [by apply sorted_nodup..|]. intros n. split.
  - intros (t & -> & [->|[Ht _]]%elem_of_put)%list_elem_of_fmap; [done|by apply nonce_in].
  - intros (t & -> & Ht)%list_elem_of_fmap. destruct (decide (nonce t = nonce tx)) as [E|E]; [rewrite E|]; apply nonce_in, elem_of_put; [by left|by right].
Qed.
Lemma put_follows tx L : (forall t, t ∈ L -> nonce t < nonce tx) -> put tx L = L ++ [tx].
Proof. intros H. unfold put. rewrite filter_keeps_all, filter_keeps_none; [done|intros t Ht; specialize (H t Ht); lia|done]. Qed.
Lemma sorted_last L t : StronglySorted tx_lt L -> last L = Some t -> forall x, x ∈ L -> nonce x <= nonce t.
Proof.
  induction 1 as [|y L Hs IH HF]; [done|]. destruct L as [|z L]; [intros [= ->] x; rewrite list_elem_of_singleton; intros ->; lia|]. rewrite last_cons_cons. intros Hl x [->|Hx]%elem_of_cons; [|by apply IH].
  pose proof (proj1 (Forall_forall _ _) HF z ltac:(by left)) as Hlt. unfold tx_lt in Hlt. specialize (IH Hl z ltac:(by left)). lia.
Qed.
Lemma gapless_snoc tx L : gapless L -> match last L with Some t => nonce tx = nonce t + 1 | None => True end -> gapless (L ++ [tx]).
Proof.
  intros Hg Hl k a b Ha Hb. destruct (decide (S k < length L)%nat) as [Hk|Hk]; [rewrite !lookup_app_l in Ha, Hb by lia; by apply (Hg k)|].
  rewrite lookup_app_r in Hb by lia. apply list_lookup_singleton_Some in Hb as [Hk' ->]. rewrite lookup_app_l in Ha by lia. assert (last L = Some a) as Ea by (rewrite last_lookup; replace (pred (length L)) with k by lia; done). by rewrite Ea in Hl.
Qed.

(** A transaction that leaves no gap: the list is not strict, or has the nonce, or it is the next. *)
Definition fits (tx : Transaction) (l : txList) : Prop :=
  strict l = true -> Overlaps tx l = true \/ match last (list_Flatten enum l).2 with Some t => nonce tx = nonce t + 1 | None => True end.
Lemma list_Add_ok tx bump l L : list_ok l L -> is_u64 (nonce tx) -> fits tx l ->
  let better := match head (filter (fun t => nonce t = nonce tx) L) with Some o => price o < price tx /\ bumped (price o) bump <= price tx | None => True end in
  let '(l', (added, old)) := list_Add tx bump l in (added = true <-> better) /\ list_ok l' (if added then put tx L else L) /\ (added = true -> old = head (filter (fun t => nonce t = nonce tx) L)).
Proof using Henum.
  intros Hl H64 Hfit better. unfold list_Add. rewrite (repr_get _ _ (nonce tx) (l_repr _ _ Hl)). fold better. set (old := head _) in *.
  assert ((match old with Some o => (price tx <=? price o) || (price tx <? bumped (price o) bump) | None => false end = false) <-> better) as Hbetter.
  { unfold better. destruct old as [o|]; [|done]. rewrite orb_false_iff, Z.leb_gt, Z.ltb_ge. done. }
  destruct (match old with Some o => _ | None => false end) eqn:E; [split; [split; [done|]; intros H; by apply Hbetter in H|]; by split|]. split; [split; [intros _; by apply Hbetter|done]|]. split; [|done].
  pose proof (r_sorted _ _ (l_repr _ _ Hl)) as Hs. split; cbn [txs strict costcap gascap].
  - by apply sm_Put_ok, Hl.
  - apply Forall_forall. intros t [->|[Ht _]]%elem_of_put; [done|]. by apply (proj1 (Forall_forall _ _) (l_nonces _ _ Hl)).
  - apply Forall_forall. intros t [->|[Ht _]]%elem_of_put; [lia|]. pose proof (proj1 (Forall_forall _ _) (l_caps _ _ Hl) t Ht) as [H1 H2]. lia.
  - intros Hstrict. pose proof (l_gapless _ _ Hl Hstrict) as Hg. destruct (Hfit Hstrict) as [Ho|Hnext].
    + apply bool_decide_eq_true in Ho as [t [Ht Hn]%(r_items _ _ (l_repr _ _ Hl))]. apply (gapless_nonces L); [|done]. symmetry. apply put_replaces; [done|]. rewrite <- Hn. by apply nonce_in.
    + rewrite (proj1 (list_Flatten_ok l L Hl)) in Hnext. rewrite put_follows; [by apply gapless_snoc|]. intros t Ht. destruct (last L) as [z|] eqn:Ez; [|apply last_None in Ez as ->; by apply elem_of_nil in Ht]. pose proof (sorted_last _ _ Hs Ez t Ht). lia.
Qed.

(** What the pool does to the list of an account. *)
Inductive listStep (l : txList) : txList -> Prop :=
| step_Add tx bump : is_u64 (nonce tx) -> fits tx l -> listStep l (list_Add tx bump l).1
| step_Forward t : listStep l (list_Forward t l).1
| step_Filter c g : listStep l (list_Filter enum c g l).1
| step_Cap k : listStep l (list_Cap k l).1
| step_Remove tx : listStep l (list_Remove enum tx l).1
| step_Ready s : listStep l (list_Ready s l).1
| step_Flatten : listStep l (list_Flatten enum l).1.

Lemma listStep_ok l l' L : listStep l l' -> list_ok l L -> exists L', list_ok l' L'.
Proof using Henum.
  intros [tx bump H64 Hf|t|c g|k|tx|s|] Hl.
  - pose proof (list_Add_ok tx bump l L Hl H64 Hf) as H. destruct (list_Add _ _ _) as [l1 [added old]]. destruct H as (_ & H & _). by eexists.
  - eexists. by apply list_Forward_ok.
  - pose proof (list_Filter_ok c g l L Hl) as H. destruct (list_Filter _ _ _ _) as [l1 [removed invalids]]. destruct H as (_ & _ & H). by eexists.
  - eexists. by apply list_Cap_ok.
  - pose proof (list_Remove_ok tx l L Hl) as H. destruct (list_Remove _ _ _) as [l1 [[] invalids]]; destruct H as [_ [_ H]]; [by eexists|]. exists L. cbn. by rewrite H.
  - eexists. by apply list_Ready_ok.
  - eexists. by apply list_Flatten_ok.
Qed.
Lemma reachable_ok s l : rtc listStep (newTxList s) l -> exists L, list_ok l L.
Proof using Henum. intros H. assert (forall l0, rtc listStep l0 l -> (exists L, list_ok l0 L) -> exists L, list_ok l L) as Hind; [|apply (Hind _ H); exists []; apply new_list_ok]. clear H. induction 1 as [l0|l0 l1 l2 Hstep _ IH]; [done|]. intros [L HL]. apply IH. by apply (listStep_ok l0 l1 L). Qed.

(** What a client sees of the list. *)
Record well_formed (l : txList) : Prop := {
  wf_sorted : StronglySorted tx_lt (list_Flatten enum l).2;
  wf_found : forall n tx, sm_Get n (txs l) = Some tx <-> tx ∈ (list_Flatten enum l).2 /\ nonce tx = n;
  wf_count : list_Len l = length (list_Flatten enum l).2;
  wf_caps : Forall (fun t => cost t <= costcap l /\ gas t <= gascap l) (list_Flatten enum l).2;
  wf_gapless : strict l = true -> gapless (list_Flatten enum l).2 }.

(** C25. Whatever is done to the list of an account, its transactions come sorted by nonce and each is found under
    its nonce and no other, they are as many as it says, none costs or burns more than the caps, and a
    strict list has no gap, as long as what was added to it left none. *)
Theorem account_list_well_formed s l : rtc listStep (newTxList s) l -> well_formed l.
Proof using Henum.
  intros H. destruct (reachable_ok s l H) as [L Hl]. pose proof (proj1 (list_Flatten_ok l L Hl)) as E. destruct Hl as [H1 H2 H3 H4]. split; rewrite E; [apply H1|apply H1| |done|done]. unfold list_Len, sm_Len. by rewrite (repr_size _ _ H1).
Qed.

(** C28. Filtering by what an account can pay and a block can hold, for which the caps are consulted first, removes exactly the
    transactions that are over the limits.  What is left is all affordable: of a strict list the
    transactions before the first that is not, of another all that are; the
    rest of what was there is handed out as invalid. *)
Theorem unaffordable_filtered s l c g : rtc listStep (newTxList s) l -> let '(l', (removed, invalids)) := list_Filter enum c g l in let L := (list_Flatten enum l).2 in
  removed ≡ₚ filter (fun t => affordable c g t = false) L /\ (list_Flatten enum l').2 = kept (strict l) c g L /\ L ≡ₚ (list_Flatten enum l').2 ++ removed ++ invalids.
Proof using Henum.
  intros H. destruct (reachable_ok s l H) as [L Hl]. pose proof (list_Filter_ok c g l L Hl) as Hf. destruct (list_Filter _ _ _ _) as [l' [removed invalids]]. destruct Hf as (H1 & H2 & H3).
  cbn zeta. rewrite (proj1 (list_Flatten_ok l L Hl)), (proj1 (list_Flatten_ok l' _ H3)). done.
Qed.
End listing.

Module ListSample.
Definition tx (n p g : Z) : Transaction := MkTransaction (MkTxData n p g None 0 [] 0 0 0) None.
Definition enum (g : gmap Z Transaction) : list (Z * Transaction) := map_to_list g.
Definition first : txList := (list_Add (tx 7 1 100) 10 (newTxList true)).1.
Definition second : txList := (list_Add (tx 8 5 100) 10 first).1.

Lemma sorted_map_refines_witness : Forall3 agree [OpPut (tx 3 1 1); OpPut (tx 1 1 1); OpFlatten; OpReady 2] (runWith (smExec enum) [OpPut (tx 3 1 1); OpPut (tx 1 1 1); OpFlatten; OpReady 2] newTxSortedMap).2 [Done; Done; Many [tx 1 1 1; tx 3 1 1]; Many [tx 1 1 1]].
Proof. exact (proj2 (sorted_map_refines enum (fun g => reflexivity _) [OpPut (tx 3 1 1); OpPut (tx 1 1 1); OpFlatten; OpReady 2])). Defined.
Lemma second_reached : rtc (listStep enum) (newTxList true) second.
Proof.
  eapply rtc_l; [apply (step_Add enum _ (tx 7 1 100) 10); [done|by right]|]. eapply rtc_l; [|apply rtc_refl]. apply (step_Add enum _ (tx 8 5 100) 10); [done|]. right. vm_compute. reflexivity.
Qed.
Lemma account_list_well_formed_witness : well_formed enum second.
Proof. exact (account_list_well_formed enum (fun g => reflexivity _) true second second_reached). Defined.
Lemma unaffordable_filtered_witness : (list_Filter enum 200 100 second).2.1 ≡ₚ [tx 8 5 100] /\ (list_Flatten enum (list_Filter enum 200 100 second).1).2 = [tx 7 1 100].
Proof. pose proof (unaffordable_filtered enum (fun g => reflexivity _) true second 200 100 second_reached) as (H1 & H2 & _). split; [exact H1|exact H2]. Defined.
End ListSample.
