(* ===== verification/TxOrder.v ===== *)
(** Transactions by price: the order in which a block takes them, honouring the nonces of every account
    (core/types/transaction.go), and the heap from which the pool drops the cheapest (core/tx_list.go). *)

From stdpp Require Import base numbers list gmap sorting.
From S2P Require Import Prelude.
From S2P Require Import CommonMath.
From S2P Require Import Params.
From S2P Require Import Transactions.
From S2P Require Import Heap.
From S2P Require Import TxList.
Local Open Scope Z_scope.
Local Open Scope go_scope.

(** * The order of a block *)

(** [TxByPrice]: the dearer comes first. *)
Definition dearer (a b : Transaction) : bool := price b <? price a.
Record TransactionsByPriceAndNonce := MkByPrice { accTxs : gmap bytes (list Transaction); heads : list Transaction }.

Section order.
(** [Sender] with the signer of the set; the zero address when it fails. *)
Context (sender : Transaction -> bytes).
Implicit Types (t : TransactionsByPriceAndNonce).

(** The loop over the accounts; a list without transactions has no first. *)
Fixpoint collectHeads (l : list (bytes * list Transaction)) (m : gmap bytes (list Transaction)) (hs : list Transaction) : outcome Empty_set (gmap bytes (list Transaction) * list Transaction) :=
  match l with
  | [] => Ok (m, hs)
  | (_, []) :: _ => Panic
  | (from, tx :: rest) :: l =>
      let acc := sender tx in
      let m := <[acc := rest]> m in
      collectHeads l (if bool_decide (from = acc) then m else delete from m) (hs ++ [tx])
  end.
Definition NewTransactionsByPriceAndNonce (enum : gmap bytes (list Transaction) -> list (bytes * list Transaction)) (txs : gmap bytes (list Transaction)) : outcome Empty_set TransactionsByPriceAndNonce :=
  let! (m, hs) := collectHeads (enum txs) txs [] in
  Ok (MkByPrice m (heap_Init dearer hs)).
Definition Peek t : option Transaction := heads t !! 0%nat.
Definition popHead (hs : list Transaction) : outcome Empty_set (list Transaction) := let! (_, hs) := must (heap_Pop dearer hs) in Ok hs.
Definition Shift t : outcome Empty_set TransactionsByPriceAndNonce :=
  let! first := must (heads t !! 0%nat) in
  let acc := sender first in
  match accTxs t !! acc with
  | Some (tx :: rest) => Ok (MkByPrice (<[acc := rest]> (accTxs t)) (heap_Fix dearer 0 (<[0%nat := tx]> (heads t))))
  | _ => let! hs := popHead (heads t) in Ok (MkByPrice (accTxs t) hs)
  end.
Definition set_Pop t : outcome Empty_set TransactionsByPriceAndNonce := let! hs := popHead (heads t) in Ok (MkByPrice (accTxs t) hs).

(** What a miner gets who takes every transaction. *)
Fixpoint drain (fuel : nat) t : outcome Empty_set (list Transaction) :=
  match Peek t with
  | None => Ok []
  | Some tx => match fuel with O => NoFuel | S fuel => let! t := Shift t in let! l := drain fuel t in Ok (tx :: l) end
  end.

(** ** A queue for every account *)

Lemma dearer_asym a b : dearer a b = true -> dearer b a = false.
Proof. unfold dearer. rewrite Z.ltb_lt, Z.ltb_ge. lia. Qed.
Lemma dearer_trans a b c : dearer b a = false -> dearer c b = false -> dearer c a = false.
Proof. unfold dearer. rewrite !Z.ltb_ge. lia. Qed.

(** The queues: first the head of the account, then the rest of its transactions. *)
Record queues t (Q : gmap bytes (list Transaction)) : Prop := {
  q_heap : heap_ok dearer (heads t);
  q_nodup : NoDup (map (fun tx => sender tx) (heads t));
  q_dom : forall a, is_Some (Q !! a) -> a ∈ map (fun tx => sender tx) (heads t);
  q_queue : forall tx, tx ∈ heads t -> exists rest, Q !! sender tx = Some (tx :: rest) /\ default [] (accTxs t !! sender tx) = rest;
  q_sender : forall a l, Q !! a = Some l -> Forall (fun tx => sender tx = a) l }.

Definition best (Q : gmap bytes (list Transaction)) (tx : Transaction) : Prop := forall a u l, Q !! a = Some (u :: l) -> price u <= price tx.
(** Taking the first transaction of an account off. *)
Definition advance (a : bytes) (Q : gmap bytes (list Transaction)) : gmap bytes (list Transaction) :=
  match Q !! a with Some (_ :: (u :: l)) => <[a := u :: l]> Q | _ => delete a Q end.

Section queues.
Context t Q (Hq : queues t Q).
Lemma head_of_account a l : Q !! a = Some l -> exists tx, tx ∈ heads t /\ sender tx = a /\ exists rest, l = tx :: rest.
Proof using Hq.
  intros E. pose proof (q_dom _ _ Hq a ltac:(by eexists)) as Ha. apply list_elem_of_fmap in Ha as (tx & -> & Ht). destruct (q_queue _ _ Hq tx Ht) as (rest & E' & _). rewrite E in E'. injection E' as ->. by exists tx; eauto.
Qed.
Lemma Peek_ok : match Peek t with
  | None => Q = ∅
  | Some tx => best Q tx /\ exists rest, Q !! sender tx = Some (tx :: rest) end.
Proof using Hq.
  unfold Peek. destruct (heads t !! 0%nat) as [tx|] eqn:E.
  - split; [|destruct (q_queue _ _ Hq tx) as (rest & H & _); [by apply list_elem_of_lookup_2 with 0%nat|by exists rest]]. intros a u l Hu. destruct (head_of_account a _ Hu) as (x & Hx & _ & r & [= -> ->]).
    pose proof (heap_root dearer dearer_asym dearer_trans _ tx x (q_heap _ _ Hq) E Hx) as H. unfold dearer in H. by apply Z.ltb_ge.
  - apply map_empty. intros a. apply eq_None_not_Some. intros [l Hl]. destruct (head_of_account a l Hl) as (x & Hx & _). destruct (heads t); [by apply elem_of_nil in Hx|done].
Qed.

Lemma popHead_ok tx : Peek t = Some tx -> exists hs, popHead (heads t) = Ok hs /\ heads t ≡ₚ tx :: hs /\ heap_ok dearer hs.
Proof using Hq. intros E. unfold popHead. destruct (heap_Pop_ok dearer dearer_asym dearer_trans (heads t) tx (q_heap _ _ Hq) E) as (hs & -> & Hp & Hh & _). by exists hs. Qed.
(** Without the account of the best head. *)
Lemma dropped_ok tx hs m : Peek t = Some tx -> heads t ≡ₚ tx :: hs -> heap_ok dearer hs -> m = accTxs t -> queues (MkByPrice m hs) (delete (sender tx) Q).
Proof using Hq.
  intros E Hp Hh ->. pose proof (q_nodup _ _ Hq) as Hnd. rewrite Hp in Hnd. apply NoDup_cons in Hnd as [Hnot Hnd]. split; cbn [heads accTxs]; [done|done|..].
  - intros a [l [Hne Hl]%lookup_delete_Some]. pose proof (q_dom _ _ Hq a ltac:(by eexists)) as Ha. rewrite Hp in Ha. cbn [map] in Ha. apply elem_of_cons in Ha as [->|]; done.
  - intros x Hx. destruct (q_queue _ _ Hq x) as (rest & H1 & H2); [rewrite Hp; by right|]. exists rest. split; [|done]. rewrite lookup_delete_ne; [done|]. intros Es. apply Hnot. rewrite Es. apply list_elem_of_fmap. by exists x.
  - intros a l [_ Hl]%lookup_delete_Some. by apply (q_sender _ _ Hq).
Qed.
Lemma Shift_ok tx : Peek t = Some tx -> exists t', Shift t = Ok t' /\ queues t' (advance (sender tx) Q).
Proof using Hq.
  intros E. unfold Shift, advance. pose proof E as E'. unfold Peek in E'. rewrite E'. cbn [must outcome_bind]. assert (tx ∈ heads t) as Hin by by apply list_elem_of_lookup_2 with 0%nat. destruct (q_queue _ _ Hq tx Hin) as (rest & HQ & Hrest). rewrite HQ.
  assert (rest = [] -> exists t', (let! hs := popHead (heads t) in Ok (MkByPrice (accTxs t) hs)) = Ok t' /\ queues t' (delete (sender tx) Q)) as Hdrop.
  { intros _. destruct (popHead_ok tx E) as (hs & -> & Hp & Hh). eexists. split; [done|]. by apply (dropped_ok tx). }
  destruct (accTxs t !! sender tx) as [[|u r]|] eqn:Ea; cbn in Hrest; subst rest; [by apply Hdrop| |by apply Hdrop]. eexists. split; [done|]. destruct (heads t) as [|tx' hs] eqn:Eh; [done|]. injection E' as ->. cbn [insert list_insert].
  pose proof (q_sender _ _ Hq _ _ HQ) as Hs. apply Forall_cons in Hs as [_ Hs]. pose proof Hs as Hs'. apply Forall_cons in Hs' as [Hu _].
  pose proof (q_heap _ _ Hq) as Hh. rewrite Eh in Hh. destruct (heap_Fix_ok dearer dearer_asym dearer_trans 0 (tx :: hs) u Hh ltac:(cbn; lia)) as [Hp Hh']. change (<[0%nat := u]> (tx :: hs)) with (u :: hs) in Hp, Hh'.
  pose proof (q_nodup _ _ Hq) as Hnd. rewrite Eh in Hnd. cbn [map] in Hnd. split; cbn [heads accTxs]; [done|..].
  - rewrite Hp. cbn [map]. by rewrite Hu.
  - intros a Ha. rewrite Hp. cbn [map]. rewrite Hu. pose proof (q_dom _ _ Hq a) as Hd. rewrite Eh in Hd. apply Hd. destruct (decide (a = sender tx)) as [->|]; [by eexists|]. by rewrite lookup_insert_ne in Ha.
  - apply NoDup_cons in Hnd as [Hnot _]. intros x Hx. rewrite Hp in Hx. apply elem_of_cons in Hx as [->|Hx]; [rewrite Hu; exists r; by rewrite !lookup_insert_eq|].
    assert (sender tx <> sender x) as Hne by (intros Es; apply Hnot; rewrite Es; apply list_elem_of_fmap; by exists x). rewrite !lookup_insert_ne by done. apply (q_queue _ _ Hq). rewrite Eh. by right.
  - intros a l [[<- <-]|[_ Hl]]%lookup_insert_Some; [done|by apply (q_sender _ _ Hq)].
Qed.
Lemma set_Pop_ok tx : Peek t = Some tx -> exists t', set_Pop t = Ok t' /\ queues t' (delete (sender tx) Q).
Proof using Hq. intros E. unfold set_Pop. destruct (popHead_ok tx E) as (hs & -> & Hp & Hh). eexists. split; [done|]. by apply (dropped_ok tx). Qed.
End queues.

(** ** The whole order *)

(** Every transaction taken is the dearest of the first ones of all accounts. *)
Inductive greedy : gmap bytes (list Transaction) -> list Transaction -> Prop :=
| greedy_nil : greedy ∅ []
| greedy_cons Q tx rest out : Q !! sender tx = Some (tx :: rest) -> best Q tx -> greedy (advance (sender tx) Q) out -> greedy Q (tx :: out).
Definition total (Q : gmap bytes (list Transaction)) : nat := length (concat (map_to_list Q).*2).

Lemma total_delete Q a l : Q !! a = Some l -> total Q = (length l + total (delete a Q))%nat.
Proof. intros E. unfold total. rewrite <- (insert_delete_id Q a l E) at 1. rewrite map_to_list_insert by apply lookup_delete_eq. cbn. by rewrite length_app. Qed.
Lemma total_advance Q tx rest : Q !! sender tx = Some (tx :: rest) -> total Q = S (total (advance (sender tx) Q)).
Proof.
  intros E. rewrite (total_delete Q _ _ E). unfold advance. rewrite E. destruct rest as [|u l]; [done|]. rewrite (total_delete (<[sender tx := u :: l]> Q) (sender tx) (u :: l)) by apply lookup_insert_eq. by rewrite delete_insert_eq.
Qed.
Lemma advance_lookup Q a tx rest b : Q !! a = Some (tx :: rest) -> default [] (advance a Q !! b) = if decide (b = a) then rest else default [] (Q !! b).
Proof.
  intros E. unfold advance. rewrite E. destruct rest as [|u l], (decide (b = a)) as [->|Hne].
  - by rewrite lookup_delete_eq.
  - by rewrite lookup_delete_ne.
  - by rewrite lookup_insert_eq.
  - by rewrite lookup_insert_ne.
Qed.
Lemma greedy_accounts Q out : greedy Q out -> forall a, filter (fun tx => sender tx = a) out = default [] (Q !! a).
Proof.
  induction 1 as [|Q tx rest out E _ _ IH]; intros a; [by rewrite lookup_empty|]. rewrite filter_cons, IH, (advance_lookup _ _ _ _ a E). destruct (decide (sender tx = a)) as [<-|Hne]; [by rewrite decide_True, E|by rewrite decide_False].
Qed.

Lemma drain_ok fuel : forall t Q, queues t Q -> (total Q <= fuel)%nat -> exists out, drain fuel t = Ok out /\ greedy Q out.
Proof.
  induction fuel as [|fuel IH]; intros t Q Hq Hf; pose proof (Peek_ok t Q Hq) as Hp; cbn [drain]; destruct (Peek t) as [tx|] eqn:E; try (exists []; subst Q; split; [done|constructor]); destruct Hp as [Hb [rest HQ]]; pose proof (total_advance Q tx rest HQ); [lia|].
  destruct (Shift_ok t Q Hq tx E) as (t' & -> & Hq'). cbn [outcome_bind]. destruct (IH t' _ Hq' ltac:(lia)) as (out & -> & Hg). exists (tx :: out). split; [done|]. by apply (greedy_cons Q tx rest).
Qed.

(** Every account has transactions, its own. *)
Definition accounts_ok (txs : gmap bytes (list Transaction)) : Prop := forall a l, txs !! a = Some l -> l <> [] /\ Forall (fun tx => sender tx = a) l.

Lemma collectHeads_ok l : forall m hs, NoDup l.*1 -> (forall a q, (a, q) ∈ l -> q <> [] /\ Forall (fun tx => sender tx = a) q) ->
  exists m' firsts, collectHeads l m hs = Ok (m', hs ++ firsts) /\ map (fun tx => sender tx) firsts = l.*1 /\ (forall a, a ∉ l.*1 -> m' !! a = m !! a) /\
    forall tx, tx ∈ firsts -> exists rest, (sender tx, tx :: rest) ∈ l /\ m' !! sender tx = Some rest.
Proof.
  induction l as [|[a q] l IH]; intros m hs Hnd Hok; [exists m, []; rewrite app_nil_r; split_and!; [done..|]; by intros tx ?%elem_of_nil|]. cbn [fmap list_fmap fst] in Hnd. apply NoDup_cons in Hnd as [Hnot Hnd].
  destruct (Hok a q ltac:(by left)) as [Hne Hs]. destruct q as [|tx rest]; [done|]. apply Forall_cons in Hs as [Hs _]. cbn [collectHeads]. rewrite Hs, bool_decide_eq_true_2 by done.
  destruct (IH (<[a := rest]> m) (hs ++ [tx]) Hnd) as (m' & firsts & -> & Hf & Hm & Hin); [intros b q Hb; apply Hok; by right|]. exists m', (tx :: firsts). split_and!.
  - by rewrite <- app_assoc.
  - cbn. by rewrite Hs, Hf.
  - intros b Hb. cbn in Hb. apply not_elem_of_cons in Hb as [Hba Hb]. by rewrite Hm, lookup_insert_ne.
  - intros x [->|Hx]%elem_of_cons; [exists rest; rewrite Hs; split; [by left|]; by rewrite Hm, lookup_insert_eq|]. destruct (Hin x Hx) as (r & H1 & H2). exists r. split; [by right|done].
Qed.
Lemma NewByPrice_ok (enum : gmap bytes (list Transaction) -> list (bytes * list Transaction)) txs : enum txs ≡ₚ map_to_list txs -> accounts_ok txs ->
  exists t, NewTransactionsByPriceAndNonce enum txs = Ok t /\ queues t txs.
Proof.
  intros He Hok. unfold NewTransactionsByPriceAndNonce. assert (NoDup (enum txs).*1) as Hnd by (rewrite He; apply NoDup_fst_map_to_list). assert (forall a q, (a, q) ∈ enum txs <-> txs !! a = Some q) as Hin by (intros a q; by rewrite He, elem_of_map_to_list).
  destruct (collectHeads_ok (enum txs) txs [] Hnd) as (m & firsts & -> & Hf & _ & Hq); [intros a q Ha; by apply Hok, Hin|]. cbn [outcome_bind app]. eexists. split; [done|]. destruct (heap_Init_ok dearer dearer_asym dearer_trans firsts) as [Hp Hh]. split; cbn [heads accTxs].
  - done.
  - by rewrite Hp, Hf.
  - intros a [l Hl]. rewrite Hp, Hf. apply list_elem_of_fmap. exists (a, l). split; [done|]. by apply Hin.
  - intros tx Htx. rewrite Hp in Htx. destruct (Hq tx Htx) as (rest & H1 & H2). exists rest. split; [by apply Hin|by rewrite H2].
  - intros a l Hl. by apply Hok.
Qed.

(** C24. The transactions of a block are taken by price and nonce: the set can be built from non-empty lists of every
    account's own transactions, and taking one after the other ends, gives every account's
    transactions in the order of its list, and takes each time the dearest of the next transactions
    of all accounts. *)
Theorem price_order_honours_nonces (enum : gmap bytes (list Transaction) -> list (bytes * list Transaction)) txs : enum txs ≡ₚ map_to_list txs -> accounts_ok txs ->
  exists t out, NewTransactionsByPriceAndNonce enum txs = Ok t /\ drain (total txs) t = Ok out /\ greedy txs out /\ forall a, filter (fun tx => sender tx = a) out = default [] (txs !! a).
Proof.
  intros He Hok. destruct (NewByPrice_ok enum txs He Hok) as (t & E & Hq). destruct (drain_ok (total txs) t txs Hq ltac:(done)) as (out & Ed & Hg). exists t, out. split_and!; [done..|]. by apply greedy_accounts.
Qed.
End order.

(** * The prices of the pool *)

(** [priceHeap]: the cheaper comes first, of two at one price the one with the higher nonce. *)
Definition cheaper (a b : Transaction) : bool := if price a <? price b then true else if price b <? price a then false else nonce b <? nonce a.
Record txPricedList := MkPriced { pl_items : list Transaction; stales : Z }.
Definition newTxPricedList : txPricedList := MkPriced [] 0.

Section priced.
(** The hash of a transaction, whether its sender is local, and the transactions of the pool, which the list shares with it. *)
Context (hashOf : Transaction -> bytes) (isLocal : Transaction -> bool) (all : gmap bytes Transaction).
Implicit Types (l : txPricedList).
Definition known (tx : Transaction) : bool := bool_decide (is_Some (all !! hashOf tx)).

Definition pl_Put (tx : Transaction) l : txPricedList := MkPriced (heap_Push cheaper tx (pl_items l)) (stales l).
(** The pool's map is ranged over in some order. *)
Definition pl_Removed (enumAll : gmap bytes Transaction -> list (bytes * Transaction)) l : txPricedList :=
  let stales := stales l + 1 in
  if stales <=? Z.of_nat (length (pl_items l)) / 4 then MkPriced (pl_items l) stales
  else MkPriced (heap_Init cheaper (map snd (enumAll all))) 0.

(** The loops of [Cap] and [Discard]: what is popped is stale, or too dear to go on, or kept because it is local, or dropped. *)
Fixpoint capLoop (fuel : nat) (threshold : Z) (items : list Transaction) (stales : Z) (drop save : list Transaction) : list Transaction * Z * list Transaction * list Transaction :=
  match fuel with
  | O => (items, stales, drop, save)
  | S fuel =>
      match heap_Pop cheaper items with
      | None => (items, stales, drop, save)
      | Some (tx, items) =>
          if negb (known tx) then capLoop fuel threshold items (stales - 1) drop save
          else if threshold <=? price tx then (items, stales, drop, save ++ [tx])
          else if isLocal tx then capLoop fuel threshold items stales drop (save ++ [tx])
          else capLoop fuel threshold items stales (drop ++ [tx]) save
      end
  end.
Definition pushAll (save items : list Transaction) : list Transaction := foldl (fun items tx => heap_Push cheaper tx items) items save.
Definition pl_Cap (threshold : Z) l : txPricedList * list Transaction :=
  let '(items, stales, drop, save) := capLoop (length (pl_items l)) threshold (pl_items l) (stales l) [] [] in
  (MkPriced (pushAll save items) stales, drop).

Fixpoint dropStale (fuel : nat) (items : list Transaction) (stales : Z) : list Transaction * Z :=
  match fuel, items with
  | S fuel, head :: _ => if known head then (items, stales) else match heap_Pop cheaper items with Some (_, items) => dropStale fuel items (stales - 1) | None => (items, stales) end
  | _, _ => (items, stales)
  end.
Definition Underpriced (tx : Transaction) l : txPricedList * bool :=
  if isLocal tx then (l, false)
  else
    let (items, stales) := dropStale (length (pl_items l)) (pl_items l) (stales l) in
    (MkPriced items stales, match items with [] => false | cheapest :: _ => price tx <=? price cheapest end).

Fixpoint discardLoop (fuel : nat) (count : nat) (items : list Transaction) (stales : Z) (drop save : list Transaction) : list Transaction * Z * list Transaction * list Transaction :=
  match fuel, count with
  | S fuel, S count' =>
      match heap_Pop cheaper items with
      | None => (items, stales, drop, save)
      | Some (tx, items) =>
          if negb (known tx) then discardLoop fuel count items (stales - 1) drop save
          else if isLocal tx then discardLoop fuel count items stales drop (save ++ [tx])
          else discardLoop fuel count' items stales (drop ++ [tx]) save
      end
  | _, _ => (items, stales, drop, save)
  end.
Definition Discard (count : nat) l : txPricedList * list Transaction :=
  let '(items, stales, drop, save) := discardLoop (length (pl_items l)) count (pl_items l) (stales l) [] [] in
  (MkPriced (pushAll save items) stales, drop).

Lemma cheaper_asym a b : cheaper a b = true -> cheaper b a = false.
Proof. unfold cheaper. destruct (Z.ltb_spec (price a) (price b)), (Z.ltb_spec (price b) (price a)); try done; lia. Qed.
Lemma cheaper_false a b : cheaper a b = false <-> price b < price a \/ (price a = price b /\ nonce a <= nonce b).
Proof. unfold cheaper. destruct (Z.ltb_spec (price a) (price b)); [split; [done|lia]|]. destruct (Z.ltb_spec (price b) (price a)); [split; [by left|done]|]. rewrite Z.ltb_ge. lia. Qed.
Lemma cheaper_trans a b c : cheaper b a = false -> cheaper c b = false -> cheaper c a = false.
Proof. rewrite !cheaper_false. lia. Qed.

Abbreviation heaped l := (heap_ok cheaper (pl_items l)).
Definition remote (tx : Transaction) : Prop := known tx = true /\ isLocal tx = false.

Lemma pop_cheapest items : heap_ok cheaper items -> match heap_Pop cheaper items with None => items = [] | Some (tx, items') => items ≡ₚ tx :: items' /\ heap_ok cheaper items' /\ forall x, x ∈ items' -> cheaper x tx = false end.
Proof.
  intros Hh. destruct (items !! 0%nat) as [tx|] eqn:E; [destruct (heap_Pop_ok cheaper cheaper_asym cheaper_trans items tx Hh E) as (items' & -> & H); done|]. by destruct items.
Qed.
Lemma pushAll_ok save : forall items, heap_ok cheaper items -> pushAll save items ≡ₚ save ++ items /\ heap_ok cheaper (pushAll save items).
Proof.
  induction save as [|x save IH]; intros items Hh; [done|]. cbn. destruct (heap_Push_ok cheaper cheaper_asym cheaper_trans x items Hh) as [Hp Hh']. destruct (IH _ Hh') as [H1 H2]. split; [|done]. unfold pushAll in H1. rewrite H1, Hp. by rewrite Permutation_middle.
Qed.
Lemma pl_Put_ok tx l : heaped l -> pl_items (pl_Put tx l) ≡ₚ tx :: pl_items l /\ heaped (pl_Put tx l).
Proof. intros Hh. exact (heap_Push_ok cheaper cheaper_asym cheaper_trans tx (pl_items l) Hh). Qed.
(** When many prices are stale the heap is made anew from the pool. *)
Lemma pl_Removed_ok (enumAll : gmap bytes Transaction -> list (bytes * Transaction)) l : heaped l -> enumAll all ≡ₚ map_to_list all ->
  heaped (pl_Removed enumAll l) /\ (pl_items (pl_Removed enumAll l) = pl_items l \/ pl_items (pl_Removed enumAll l) ≡ₚ map snd (map_to_list all) /\ stales (pl_Removed enumAll l) = 0).
Proof.
  intros Hh He. unfold pl_Removed. destruct (_ <=? _); [by split; [|left]|]. destruct (heap_Init_ok cheaper cheaper_asym cheaper_trans (map snd (enumAll all))) as [Hp Hi]. split; [done|]. right. split; [|done]. cbn. by rewrite Hp, He.
Qed.

(** What a loop took out: dropped, saved and stale. *)
Record taken (items items' D S' Z' : list Transaction) : Prop := {
  tk_split : items ≡ₚ D ++ S' ++ Z' ++ items';
  tk_heap : heap_ok cheaper items';
  tk_drop : Forall remote D;
  tk_stale : Forall (fun x => known x = false) Z' }.

Lemma taken_stale items tx items1 items' D S' Z' : items ≡ₚ tx :: items1 -> known tx = false -> taken items1 items' D S' Z' -> taken items items' D S' (tx :: Z').
Proof. intros Hp Hk [H1 H2 H3 H4]. split; [|done|done|by constructor]. rewrite Hp, H1. cbn. by rewrite !Permutation_middle. Qed.
Lemma taken_saved items tx items1 items' D S' Z' : items ≡ₚ tx :: items1 -> taken items1 items' D S' Z' -> taken items items' D (tx :: S') Z'.
Proof. intros Hp [H1 H2 H3 H4]. split; [|done..]. rewrite Hp, H1. cbn. by rewrite Permutation_middle. Qed.
Lemma taken_dropped items tx items1 items' D S' Z' : items ≡ₚ tx :: items1 -> remote tx -> taken items1 items' D S' Z' -> taken items items' (tx :: D) S' Z'.
Proof. intros Hp Hr [H1 H2 H3 H4]. split; [|done|by constructor|done]. by rewrite Hp, H1. Qed.
Lemma taken_none items : heap_ok cheaper items -> taken items items [] [] [].
Proof. done. Qed.

Lemma discardLoop_ok fuel : forall count items st drop save, (length items <= fuel)%nat -> heap_ok cheaper items ->
  exists items' D S' Z', discardLoop fuel count items st drop save = (items', st - Z.of_nat (length Z'), drop ++ D, save ++ S') /\ taken items items' D S' Z' /\ Forall (fun x => isLocal x = true) S' /\
    (forall d x, d ∈ D -> x ∈ items' -> cheaper x d = false) /\ (length D <= count)%nat /\ (length D = count \/ items' = []).
Proof.
  induction fuel as [|fuel IH]; intros count items st drop save Hf Hh.
  { destruct items; [|cbn in Hf; lia]. exists [], [], [], []. cbn. rewrite !app_nil_r, Z.sub_0_r. split_and!; [done|by apply taken_none|done|by intros ? ? ?%elem_of_nil|lia|by right]. }
  cbn [discardLoop]. destruct count as [|count]; [exists items, [], [], []; cbn; rewrite !app_nil_r, Z.sub_0_r; split_and!; [done|by apply taken_none|done|by intros ? ? ?%elem_of_nil|lia|by left]|].
  pose proof (pop_cheapest items Hh) as Hpop. destruct (heap_Pop cheaper items) as [[tx items1]|]; [|subst items; exists [], [], [], []; cbn; rewrite !app_nil_r, Z.sub_0_r; split_and!; [done|by apply taken_none|done|by intros ? ? ?%elem_of_nil|lia|by right]].
  destruct Hpop as (Hp & Hh1 & Hmin). assert (length items1 <= fuel)%nat as Hl by (rewrite Hp in Hf; cbn in Hf; lia). destruct (known tx) eqn:Ek; cbn [negb]; [destruct (isLocal tx) eqn:El|].
  - destruct (IH (S count) items1 st drop (save ++ [tx]) Hl Hh1) as (items' & D & S' & Z' & -> & Ht & HS & HD & Hc). exists items', D, (tx :: S'), Z'. rewrite <- app_assoc. split_and!; [done|by apply (taken_saved _ tx items1)|by constructor|done|apply Hc..].
  - destruct (IH count items1 st (drop ++ [tx]) save Hl Hh1) as (items' & D & S' & Z' & -> & Ht & HS & HD & Hc & Hc'). exists items', (tx :: D), S', Z'. rewrite <- app_assoc. split_and!; [done|by apply (taken_dropped _ tx items1)|done| |cbn; lia|cbn; destruct Hc'; [left; lia|by right]].
    intros d x [->|Hd]%elem_of_cons Hx; [|by apply HD]. apply Hmin. rewrite (tk_split _ _ _ _ _ Ht), !elem_of_app. tauto.
  - destruct (IH (S count) items1 (st - 1) drop save Hl Hh1) as (items' & D & S' & Z' & -> & Ht & HS & HD & Hc). exists items', D, S', (tx :: Z'). split_and!; [f_equal; f_equal; f_equal; cbn; lia|by apply (taken_stale _ tx items1)|done|done|apply Hc..].
Qed.

(** C29. When the pool is over its size it discards transactions that are known, not local and the cheapest: no remote
    transaction it keeps is cheaper than one it discards, and it discards as many as asked for
    or all there are.  Otherwise only stale entries leave the heap of prices, and they are
    no longer counted. *)
Theorem cheapest_discarded count l : heaped l -> let (l', drop) := Discard count l in
  heaped l' /\ Forall remote drop /\ (forall d x, d ∈ drop -> x ∈ pl_items l' -> remote x -> cheaper x d = false) /\ (length drop <= count)%nat /\ (length drop = count \/ forall x, x ∈ pl_items l' -> ~ remote x) /\
  exists Z', pl_items l ≡ₚ drop ++ Z' ++ pl_items l' /\ Forall (fun x => known x = false) Z' /\ stales l' = stales l - Z.of_nat (length Z').
Proof.
  intros Hh. unfold Discard. destruct (discardLoop_ok (length (pl_items l)) count (pl_items l) (stales l) [] [] ltac:(done) Hh) as (items' & D & S' & Z' & -> & Ht & HS & HD & Hc & Hc'). cbn [app pl_items stales].
  destruct (pushAll_ok S' items' (tk_heap _ _ _ _ _ Ht)) as [Hp Hh']. assert (forall x, x ∈ pushAll S' items' -> remote x -> x ∈ items') as Hr.
  { intros x Hx [_ Hl]. rewrite Hp in Hx. apply elem_of_app in Hx as [Hx|]; [|done]. pose proof (proj1 (Forall_forall _ _) HS x Hx) as HSx. cbn in HSx. congruence. }
  split_and!; [done|apply Ht|intros d x Hd Hx Hrx; by apply HD, Hr|done|destruct Hc' as [|He]; [by left|right; intros x Hx Hrx; pose proof (Hr x Hx Hrx) as Hn; rewrite He in Hn; by apply elem_of_nil in Hn]|].
  exists Z'. split_and!; [|apply Ht|done]. rewrite (tk_split _ _ _ _ _ Ht), Hp. f_equiv. by rewrite Permutation_app_swap_app.
Qed.

Lemma capLoop_ok threshold fuel : forall items st drop save, (length items <= fuel)%nat -> heap_ok cheaper items ->
  exists items' D S' Z', capLoop fuel threshold items st drop save = (items', st - Z.of_nat (length Z'), drop ++ D, save ++ S') /\ taken items items' D S' Z' /\ Forall (fun x => isLocal x = true \/ threshold <= price x) S' /\
    Forall (fun d => price d < threshold) D /\ forall x, x ∈ items' -> threshold <= price x.
Proof.
  induction fuel as [|fuel IH]; intros items st drop save Hf Hh; cbn [capLoop].
  { destruct items; [|cbn in Hf; lia]. exists [], [], [], []. cbn. rewrite !app_nil_r, Z.sub_0_r. split_and!; [done|by apply taken_none|done|done|by intros ? ?%elem_of_nil]. }
  pose proof (pop_cheapest items Hh) as Hpop. destruct (heap_Pop cheaper items) as [[tx items1]|]; [|subst items; exists [], [], [], []; cbn; rewrite !app_nil_r, Z.sub_0_r; split_and!; [done|by apply taken_none|done|done|by intros ? ?%elem_of_nil]].
  destruct Hpop as (Hp & Hh1 & Hmin). assert (length items1 <= fuel)%nat as Hl by (rewrite Hp in Hf; cbn in Hf; lia). destruct (known tx) eqn:Ek; cbn [negb]; [destruct (Z.leb_spec threshold (price tx)) as [Ht|Ht]; [|destruct (isLocal tx) eqn:El]|].
  - exists items1, [], [tx], []. cbn. rewrite app_nil_r, Z.sub_0_r. split_and!; [done|by split|by constructor; [right|]|done|]. intros x Hx. specialize (Hmin x Hx). apply cheaper_false in Hmin. lia.
  - destruct (IH items1 st drop (save ++ [tx]) Hl Hh1) as (items' & D & S' & Z' & -> & Htk & HS & HD). exists items', D, (tx :: S'), Z'. rewrite <- app_assoc. split_and!; [done|by apply (taken_saved _ tx items1)|by constructor; [left|]|apply HD..].
  - destruct (IH items1 st (drop ++ [tx]) save Hl Hh1) as (items' & D & S' & Z' & -> & Htk & HS & HD & Hc). exists items', (tx :: D), S', Z'. rewrite <- app_assoc. split_and!; [done|by apply (taken_dropped _ tx items1)|done|by constructor|done].
  - destruct (IH items1 (st - 1) drop save Hl Hh1) as (items' & D & S' & Z' & -> & Htk & HS & HD). exists items', D, S', (tx :: Z'). split_and!; [f_equal; f_equal; f_equal; cbn; lia|by apply (taken_stale _ tx items1)|done|apply HD..].
Qed.
(** Raising the price limit drops exactly the remote transactions below it. *)
Lemma pl_Cap_ok threshold l : heaped l -> let (l', drop) := pl_Cap threshold l in
  heaped l' /\ Forall remote drop /\ Forall (fun d => price d < threshold) drop /\ (forall x, x ∈ pl_items l' -> remote x -> threshold <= price x) /\
  exists Z', pl_items l ≡ₚ drop ++ Z' ++ pl_items l' /\ Forall (fun x => known x = false) Z' /\ stales l' = stales l - Z.of_nat (length Z').
Proof.
  intros Hh. unfold pl_Cap. destruct (capLoop_ok threshold (length (pl_items l)) (pl_items l) (stales l) [] [] ltac:(done) Hh) as (items' & D & S' & Z' & -> & Ht & HS & HD & Hc). cbn [app pl_items stales].
  destruct (pushAll_ok S' items' (tk_heap _ _ _ _ _ Ht)) as [Hp Hh']. split_and!; [done|apply Ht|done| |].
  - intros x Hx [_ Hl]. rewrite Hp in Hx. apply elem_of_app in Hx as [Hx|]; [|by apply Hc]. pose proof (proj1 (Forall_forall _ _) HS x Hx) as [HSx|]; [congruence|done].
  - exists Z'. split_and!; [|apply Ht|done]. rewrite (tk_split _ _ _ _ _ Ht), Hp. f_equiv. by rewrite Permutation_app_swap_app.
Qed.

Lemma dropStale_ok fuel : forall items st, (length items <= fuel)%nat -> heap_ok cheaper items ->
  exists items' Z', dropStale fuel items st = (items', st - Z.of_nat (length Z')) /\ items ≡ₚ Z' ++ items' /\ heap_ok cheaper items' /\ Forall (fun x => known x = false) Z' /\ match items' with [] => True | x :: _ => known x = true end.
Proof.
  induction fuel as [|fuel IH]; intros items st Hf Hh; cbn [dropStale].
  { destruct items; [|cbn in Hf; lia]. exists [], []. cbn. by rewrite Z.sub_0_r. }
  destruct items as [|head items]; [exists [], []; cbn; by rewrite Z.sub_0_r|]. destruct (known head) eqn:Ek; [exists (head :: items), []; cbn; by rewrite Z.sub_0_r|].
  destruct (heap_Pop_ok cheaper cheaper_asym cheaper_trans (head :: items) head Hh eq_refl) as (items1 & -> & Hp & Hh1 & _). destruct (IH items1 (st - 1)) as (items' & Z' & -> & H1 & H2 & H3 & H4); [apply Permutation_length in Hp; cbn in Hp, Hf; lia|done|].
  exists items', (head :: Z'). split_and!; [f_equal; cbn; lia|by rewrite Hp, H1|done|by constructor|done].
Qed.
(** A remote transaction is underpriced when no known one is cheaper. *)
Lemma Underpriced_ok tx l : heaped l -> let (l', b) := Underpriced tx l in heaped l' /\ (b = true <-> isLocal tx = false /\ (exists x, x ∈ pl_items l /\ known x = true) /\ forall x, x ∈ pl_items l -> known x = true -> price tx <= price x).
Proof.
  intros Hh. unfold Underpriced. destruct (isLocal tx); [split; [done|]; split; [done|by intros [? _]]|]. destruct (dropStale_ok (length (pl_items l)) (pl_items l) (stales l) ltac:(done) Hh) as (items' & Z' & -> & Hp & Hh' & HZ & Hk). split; [done|].
  assert (forall x, x ∈ pl_items l -> known x = true -> x ∈ items') as Hin. { intros x Hx Hkx. rewrite Hp in Hx. apply elem_of_app in Hx as [Hx|]; [|done]. pose proof (proj1 (Forall_forall _ _) HZ x Hx) as HZx. cbn in HZx. congruence. }
  destruct items' as [|c items']; [split; [done|]; intros (_ & (x & Hx & Hkx) & _); specialize (Hin x Hx Hkx); by apply elem_of_nil in Hin|]. rewrite Z.leb_le. assert (c ∈ pl_items l) as Hc by (rewrite Hp; apply elem_of_app; right; by left). split.
  - intros Hle. split_and!; [done|by exists c|]. intros x Hx Hkx. specialize (Hin x Hx Hkx). pose proof (heap_root cheaper cheaper_asym cheaper_trans _ c x Hh' eq_refl Hin) as Hr. apply cheaper_false in Hr. lia.
  - intros (_ & _ & Hall). by apply Hall.
Qed.
End priced.

Module OrderSample.
Import ListSample.
(** Two accounts, told apart by the gas of their transactions. *)
Definition sender (t : Transaction) : bytes := [gas t].
Definition txs : gmap bytes (list Transaction) := {[ [1] := [tx 0 5 1; tx 1 9 1]; [2] := [tx 0 7 2] ]}.
Lemma price_order_honours_nonces_witness : exists t, NewTransactionsByPriceAndNonce sender map_to_list txs = Ok t /\ drain sender 3 t = Ok [tx 0 7 2; tx 0 5 1; tx 1 9 1].
Proof.
  destruct (price_order_honours_nonces sender map_to_list txs (reflexivity _)) as (t & out & Et & Ed & _ & _).
  - intros a l Hl. unfold txs in Hl. rewrite lookup_insert_Some, lookup_singleton_Some in Hl. destruct Hl as [[<- <-]|[_ [<- <-]]]; (split; [done|]); by repeat constructor.
  - exists t. split; [exact Et|]. vm_compute in Et. injection Et as <-. vm_compute. reflexivity.
Defined.

(** A pool of a local and two remote transactions. *)
Definition hashOf (t : Transaction) : bytes := [price t].
Definition isLocal (t : Transaction) : bool := gas t =? 1.
Definition pool : gmap bytes Transaction := {[ [5] := tx 0 5 1; [7] := tx 0 7 2; [9] := tx 0 9 2 ]}.
Definition priced : txPricedList := pl_Put (tx 0 7 2) (pl_Put (tx 0 5 1) (pl_Put (tx 0 3 2) (pl_Put (tx 0 9 2) newTxPricedList))).
Lemma cheapest_discarded_witness : (Discard hashOf isLocal pool 1 priced).2 = [tx 0 7 2] /\ heap_ok cheaper (pl_items (Discard hashOf isLocal pool 1 priced).1).
Proof.
  pose proof (cheapest_discarded hashOf isLocal pool 1 priced) as H. assert (heap_ok cheaper (pl_items priced)) as Hh by (do 4 apply pl_Put_ok; by intros k Hk x y).
  specialize (H Hh). split; [vm_compute; reflexivity|]. destruct (Discard hashOf isLocal pool 1 priced) as [l' drop]. exact (proj1 H).
Defined.
End OrderSample.
