(* ===== verification/Lru.v ===== *)
(** The cache of least recently used entries that the chain keeps in front of its database
    ([src/vendor/github.com/hashicorp/golang-lru/simplelru/lru.go]).

    The list is in the order of use, the last used entry first; the map beside it in the
    code finds the same entries. *)

From stdpp Require Import base list.

Record Lru (K V : Type) := MkLru { lru_size : nat; lru_items : list (K * V) }.
Arguments MkLru {K V}.
Arguments lru_size {K V}.
Arguments lru_items {K V}.

Section lru.
Context {K V : Type} `{EqDecision K}.
Implicit Types (c : Lru K V) (k : K) (v : V).

Fixpoint find (k : K) (l : list (K * V)) : option V :=
  match l with [] => None | (k', v) :: l => if decide (k' = k) then Some v else find k l end.
Definition without (k : K) (l : list (K * V)) : list (K * V) := filter (fun e => e.1 <> k) l.

Definition NewLRU (size : nat) : Lru K V := MkLru size [].
Definition lru_Contains (k : K) (c : Lru K V) : bool := bool_decide (is_Some (find k (lru_items c))).
Definition lru_Get (k : K) (c : Lru K V) : Lru K V * option V :=
  match find k (lru_items c) with
  | Some v => (MkLru (lru_size c) ((k, v) :: without k (lru_items c)), Some v)
  | None => (c, None)
  end.
Definition removeOldest (l : list (K * V)) : list (K * V) := take (length l - 1) l.
Definition lru_Add (k : K) (v : V) (c : Lru K V) : Lru K V :=
  if lru_Contains k c then MkLru (lru_size c) ((k, v) :: without k (lru_items c))
  else
    let l := (k, v) :: lru_items c in
    MkLru (lru_size c) (if (lru_size c <? length l)%nat then removeOldest l else l).
Definition lru_Remove (k : K) (c : Lru K V) : Lru K V := MkLru (lru_size c) (without k (lru_items c)).
Definition lru_Purge (c : Lru K V) : Lru K V := MkLru (lru_size c) [].

(** * Well-formed caches *)

Record lru_ok (c : Lru K V) : Prop := {
  lo_size : (1 <= lru_size c)%nat;
  lo_bound : (length (lru_items c) <= lru_size c)%nat;
  lo_keys : NoDup (map fst (lru_items c)) }.

Lemma find_elem k v l : find k l = Some v -> (k, v) ∈ l.
Proof. induction l as [|[k' v'] l IH]; [done|]. cbn. destruct (decide (k' = k)) as [->|]; [intros [= ->]; by left|]. right. auto. Qed.
Lemma find_None k l : find k l = None <-> k ∉ map fst l.
Proof.
  induction l as [|[k' v'] l IH]; cbn; [split; [by intros _ ?%not_elem_of_nil|done]|]. rewrite not_elem_of_cons. destruct (decide (k' = k)) as [->|]; [split; [done|by intros [? _]]|]. rewrite IH. naive_solver.
Qed.
Lemma find_without k k' l : find k' (without k l) = if decide (k = k') then None else find k' l.
Proof.
  unfold without. induction l as [|[k0 v0] l IH]; [by destruct (decide _)|]. rewrite filter_cons. cbn. destruct (decide (k0 <> k)) as [Hne|He].
  - cbn. rewrite IH. destruct (decide (k0 = k')) as [->|]; [by rewrite decide_False|done].
  - apply dec_stable in He as ->. rewrite IH. destruct (decide (k = k')); [done|done].
Qed.
Lemma without_keys k l : NoDup (map fst l) -> NoDup (map fst (without k l)) /\ k ∉ map fst (without k l) /\ (length (without k l) <= length l)%nat.
Proof.
  intros Hd. split_and!; [|apply find_None; rewrite find_without; by rewrite decide_True|apply length_filter].
  induction l as [|[k0 v0] l IH]; [done|]. unfold without in *. rewrite filter_cons. cbn in Hd. apply NoDup_cons in Hd as [Hn Hd]. destruct (decide _); cbn; [|by apply IH].
  apply NoDup_cons. split; [|by apply IH]. intros ([? v] & -> & Hx)%list_elem_of_fmap. apply list_elem_of_filter in Hx as [_ Hx]. apply Hn. by apply (list_elem_of_fmap_2 fst) in Hx.
Qed.

Lemma find_take n k v l : find k (take n l) = Some v -> find k l = Some v.
Proof. revert n. induction l as [|[k' v'] l IH]; intros [|n]; try done. cbn. destruct (decide (k' = k)); [done|apply IH]. Qed.

(** * What a cache may be asked *)

(** The cache holds only what is true. *)
Definition coherent (f : K -> option V) (c : Lru K V) : Prop := forall k v, find k (lru_items c) = Some v -> f k = Some v.

Lemma coherent_mono f g c : coherent f c -> (forall k v, f k = Some v -> g k = Some v) -> coherent g c.
Proof. intros Hc Hfg k v Hk. by apply Hfg, Hc. Qed.

Lemma Get_coherent f k c : coherent f c -> coherent f (lru_Get k c).1 /\ forall v, (lru_Get k c).2 = Some v -> f k = Some v.
Proof.
  intros Hc. unfold lru_Get. destruct (find k (lru_items c)) as [v|] eqn:E; cbn; [|done]. split; [|intros ? [= <-]; by apply Hc].
  intros k' v'. cbn. destruct (decide (k = k')) as [<-|Hne]; [intros [= <-]; by apply Hc|]. rewrite find_without, decide_False by done. apply Hc.
Qed.

Lemma Add_coherent f k v c : coherent f c -> f k = Some v -> coherent f (lru_Add k v c).
Proof.
  intros Hc Hf. unfold lru_Add. destruct (lru_Contains k c).
  - intros k' v'. cbn. destruct (decide (k = k')) as [<-|Hne]; [by intros [= <-]|]. rewrite find_without, decide_False by done. apply Hc.
  - assert (forall k' v', find k' ((k, v) :: lru_items c) = Some v' -> f k' = Some v') as Hx. { intros k' v'. cbn. destruct (decide (k = k')) as [<-|]; [by intros [= <-]|apply Hc]. }
    intros k' v'. cbn [lru_items]. destruct (_ <? _)%nat; [intros H%find_take; by apply Hx|apply Hx].
Qed.

Lemma Remove_coherent f k c : coherent f c -> coherent f (lru_Remove k c).
Proof. intros Hc k' v'. cbn. rewrite find_without. destruct (decide (k = k')); [done|apply Hc]. Qed.
Lemma Purge_coherent f c : coherent f (lru_Purge c).
Proof. by intros k v. Qed.
Lemma Contains_coherent f k c : coherent f c -> lru_Contains k c = true -> is_Some (f k).
Proof. intros Hc [v Hv]%bool_decide_eq_true. exists v. by apply Hc. Qed.

(** An entry that was just added is there, and the bound on the size is kept. *)
Lemma Add_ok k v c : lru_ok c -> lru_ok (lru_Add k v c) /\ find k (lru_items (lru_Add k v c)) = Some v.
Proof.
  intros [Hs Hb Hd]. unfold lru_Add. destruct (lru_Contains k c) eqn:Ec.
  - apply bool_decide_eq_true in Ec. cbn. rewrite decide_True by done. split; [|done]. destruct (without_keys k _ Hd) as (H1 & H2 & H3). constructor; cbn; [done| |by apply NoDup_cons].
    enough (length (without k (lru_items c)) < length (lru_items c))%nat by lia. destruct Ec as [w Hw%find_elem]. unfold without.
    clear -Hw. induction (lru_items c) as [|[k0 v0] l IH]; [by apply elem_of_nil in Hw|]. rewrite filter_cons. cbn. destruct (decide (k0 <> k)) as [Hne|He]; [|pose proof (length_filter (fun e => e.1 <> k) l); lia].
    apply elem_of_cons in Hw as [[= <- _]|Hw]; [done|]. cbn. specialize (IH Hw). lia.
  - apply bool_decide_eq_false, eq_None_not_Some, find_None in Ec. cbn [lru_items lru_size]. assert (NoDup (map fst ((k, v) :: lru_items c))) as Hd' by by apply NoDup_cons.
    destruct (Nat.ltb_spec (lru_size c) (length ((k, v) :: lru_items c))) as [Hlt|Hge]; cbn [length] in *.
    + unfold removeOldest. cbn [length]. rewrite Nat.sub_succ, Nat.sub_0_r. split; [constructor; cbn [lru_items lru_size]; [done|rewrite length_take; cbn; lia|]|].
      * rewrite <- firstn_map. by eapply sublist_NoDup, sublist_take.
      * destruct (length (lru_items c)) as [|m] eqn:El; [lia|]. cbn. by rewrite decide_True.
    + split; [by constructor|]. cbn. by rewrite decide_True.
Qed.

Lemma Get_ok k c : lru_ok c -> lru_ok (lru_Get k c).1.
Proof.
  intros Hc. unfold lru_Get. destruct (find k (lru_items c)) as [v|] eqn:E; [|done]. cbn. assert (lru_Contains k c = true) as Ek by (apply bool_decide_eq_true; by exists v).
  pose proof (proj1 (Add_ok k v c Hc)) as H. unfold lru_Add in H. by rewrite Ek in H.
Qed.
End lru.
