(* ===== verification/ChainDB.v ===== *)
(** The chain in the key-value store ([src/core/rawdb], [src/eaidb/memory_database.go]), and receipts
    as they are stored ([src/core/types/receipt.go], [log.go]).

    The store is a map from keys to values; it does not fail.  A value that cannot be
    encoded ends the process, which is a panic here. *)

From stdpp Require Import base numbers list gmap.
From S2P Require Import Prelude.
From S2P Require Import CommonMath.
From S2P Require Import RlpEncode.
From S2P Require Import RlpRaw.
From S2P Require Import RlpStream.
From S2P Require Import RlpTyped.
From S2P Require Import VmData.
From S2P Require Import VmState.
From S2P Require Import VmWorld.
From S2P Require Import State.
From S2P Require Import Types.
From S2P Require Import Transactions.
From S2P Require Import Blocks.
From S2P Require Import TrieHasher.
From S2P Require Import Validator.
Local Open Scope Z_scope.
Local Open Scope go_scope.

(** * schema.go *)

(** What is stored: hashes by number, headers, total difficulties, numbers by hash, bodies,
    receipts, where transactions are, and the three heads. *)
Inductive Key :=
  | CanonicalKey (number : Z) | HeaderKey (number : Z) (hash : bytes) | TdKey (number : Z) (hash : bytes) | NumberKey (hash : bytes)
  | BodyKey (number : Z) (hash : bytes) | ReceiptsKey (number : Z) (hash : bytes) | LookupKey (hash : bytes)
  | HeadHeaderKey | HeadBlockKey | HeadFastBlockKey.
#[export] Instance Key_EqDecision : EqDecision Key.
Proof. solve_decision. Defined.

Definition encodeBlockNumber (number : Z) : bytes := be_fixed 8 number.

Definition headerPrefix : bytes := [104].
Definition headerTDSuffix : bytes := [116].
Definition headerHashSuffix : bytes := [110].
Definition headerNumberPrefix : bytes := [72].
Definition blockBodyPrefix : bytes := [98].
Definition blockReceiptsPrefix : bytes := [114].
Definition txLookupPrefix : bytes := [108].
(** LastHeader, LastBlock and LastFast *)
Definition headHeaderKey : bytes := [76; 97; 115; 116; 72; 101; 97; 100; 101; 114].
Definition headBlockKey : bytes := [76; 97; 115; 116; 66; 108; 111; 99; 107].
Definition headFastBlockKey : bytes := [76; 97; 115; 116; 70; 97; 115; 116].

Definition schema (k : Key) : bytes :=
  match k with
  | CanonicalKey number => headerPrefix ++ encodeBlockNumber number ++ headerHashSuffix
  | HeaderKey number hash => headerPrefix ++ encodeBlockNumber number ++ hash
  | TdKey number hash => headerPrefix ++ encodeBlockNumber number ++ hash ++ headerTDSuffix
  | NumberKey hash => headerNumberPrefix ++ hash
  | BodyKey number hash => blockBodyPrefix ++ encodeBlockNumber number ++ hash
  | ReceiptsKey number hash => blockReceiptsPrefix ++ encodeBlockNumber number ++ hash
  | LookupKey hash => txLookupPrefix ++ hash
  | HeadHeaderKey => headHeaderKey
  | HeadBlockKey => headBlockKey
  | HeadFastBlockKey => headFastBlockKey
  end.

(** * memory_database.go *)

Abbreviation KV := (gmap bytes bytes).
(** The callers drop the error that a key is not there. *)
Definition Get (db : KV) (k : Key) : bytes := default [] (db !! schema k).
Definition Has (db : KV) (k : Key) : bool := bool_decide (is_Some (db !! schema k)).
Definition Put (k : Key) (v : bytes) (db : KV) : KV := <[schema k := v]> db.
Definition Delete (k : Key) (db : KV) : KV := base.delete (schema k) db.

(** [rlp.Decode] from a reader: what follows the value is left unread. *)
Definition Decode {A} (dec : SM A) (b : bytes) : outcome rlp_error A := snd (dec (NewStream b 0)).
Definition encodeOrExit (v : rval) : outcome Empty_set bytes := match EncodeToBytes (EncBuf [] [] 0) v with Ok enc => Ok enc | _ => Panic end.

(** * accessors_chain.go *)

Definition hashOr (data : bytes) : bytes := if zlen data =? 0 then zeroHash else BytesToHash data.

Definition ReadCanonicalHash (db : KV) (number : Z) : bytes := hashOr (Get db (CanonicalKey number)).
Definition WriteCanonicalHash (hash : bytes) (number : Z) (db : KV) : KV := Put (CanonicalKey number) hash db.
Definition DeleteCanonicalHash (number : Z) (db : KV) : KV := Delete (CanonicalKey number) db.

Definition ReadHeaderNumber (db : KV) (hash : bytes) : option Z :=
  let data := Get db (NumberKey hash) in if negb (zlen data =? 8) then None else Some (be_val data).

Definition ReadHeadHeaderHash (db : KV) : bytes := hashOr (Get db HeadHeaderKey).
Definition WriteHeadHeaderHash (hash : bytes) (db : KV) : KV := Put HeadHeaderKey hash db.
Definition ReadHeadBlockHash (db : KV) : bytes := hashOr (Get db HeadBlockKey).
Definition WriteHeadBlockHash (hash : bytes) (db : KV) : KV := Put HeadBlockKey hash db.
Definition ReadHeadFastBlockHash (db : KV) : bytes := hashOr (Get db HeadFastBlockKey).
Definition WriteHeadFastBlockHash (hash : bytes) (db : KV) : KV := Put HeadFastBlockKey hash db.

(** A value that does not decode is reported and counts as missing. *)
Definition readValue {A} (t : rtype) (f : dval -> option A) (data : bytes) : option A :=
  if zlen data =? 0 then None else match Decode (makeDecoder (S (length data)) t) data with Ok v => f v | _ => None end.
Definition toInt (v : dval) : option Z := match v with DUint i => Some i | _ => None end.

Definition HasHeader (db : KV) (hash : bytes) (number : Z) : bool := Has db (HeaderKey number hash).
Definition ReadHeader (db : KV) (hash : bytes) (number : Z) : option Header := readValue headerType toHeader (Get db (HeaderKey number hash)).

Section hashing.
Context (sha : bytes -> bytes).
Definition WriteHeader (header : Header) (db : KV) : outcome Empty_set KV :=
  let hash := Header_Hash sha header in
  let number := u64 (h_Number header) in
  let db := Put (NumberKey hash) (encodeBlockNumber number) db in
  let! data := encodeOrExit (header_rval header) in
  Ok (Put (HeaderKey number hash) data db).
End hashing.
Definition DeleteHeader (hash : bytes) (number : Z) (db : KV) : KV := Delete (NumberKey hash) (Delete (HeaderKey number hash) db).

Record Body := MkBody { bd_Transactions : list Transaction; bd_Uncles : list Header }.
Definition bodyType : rtype := TStruct [TSlice false (TPtr false txdataType); TSlice false (TPtr false headerType)].
Definition toBody (v : dval) : option Body :=
  match v with
  | DStruct [DList txs; DList uncles] =>
      txs ← mapM (fromPtr toTx) txs;
      uncles ← mapM (fromPtr toHeader) uncles;
      Some (MkBody (map (fun d => MkTransaction d None) txs) uncles)
  | _ => None
  end.
Definition body_rval (b : Body) : rval := RPtr (RStruct [RSlice false (map tx_rval (bd_Transactions b)); RSlice false (map header_rval (bd_Uncles b))]).

Definition HasBody (db : KV) (hash : bytes) (number : Z) : bool := Has db (BodyKey number hash).
Definition ReadBody (db : KV) (hash : bytes) (number : Z) : option Body := readValue bodyType toBody (Get db (BodyKey number hash)).
Definition WriteBody (hash : bytes) (number : Z) (body : Body) (db : KV) : outcome Empty_set KV :=
  let! data := encodeOrExit (body_rval body) in
  Ok (Put (BodyKey number hash) data db).
Definition DeleteBody (hash : bytes) (number : Z) (db : KV) : KV := Delete (BodyKey number hash) db.

Definition ReadTd (db : KV) (hash : bytes) (number : Z) : option Z := readValue TBigInt toInt (Get db (TdKey number hash)).
Definition WriteTd (hash : bytes) (number td : Z) (db : KV) : outcome Empty_set KV :=
  let! data := encodeOrExit (RBigIntPtr (Some td)) in
  Ok (Put (TdKey number hash) data db).
Definition DeleteTd (hash : bytes) (number : Z) (db : KV) : KV := Delete (TdKey number hash) db.

(** ** Receipts in their storage form *)

Definition storageLogType : rtype := TStruct [TByteArray 20; TSlice false (TByteArray 32); TByteSlice; TUint 64; TByteArray 32; TUint 64; TByteArray 32; TUint 64].
Definition storageReceiptType : rtype := TStruct [TByteSlice; TUint 64; TByteArray 256; TByteArray 32; TByteArray 20; TSlice false (TPtr false storageLogType); TUint 64].

Definition storageLog_rval (l : StateLog) : rval :=
  REncoder [RStruct [RByteArray (l_Address (sl_log l)); RSlice false (map RByteArray (l_Topics (sl_log l))); RBytes (l_Data (sl_log l)); RUint (l_BlockNumber (sl_log l));
                     RByteArray (sl_TxHash l); RUint (sl_TxIndex l); RByteArray (sl_BlockHash l); RUint (sl_Index l)]] false.
Definition storageReceipt_rval (r : Receipt) : rval :=
  REncoder [RPtr (RStruct [RBytes (statusEncoding r); RUint (rc_CumulativeGasUsed r); RByteArray (rc_Bloom r); RByteArray (rc_TxHash r); RByteArray (rc_ContractAddress r);
                           RSlice false (map storageLog_rval (rc_Logs r)); RUint (rc_GasUsed r)])] false.

Definition toBytes (v : dval) : option bytes := match v with DBytes b => Some b | _ => None end.
Definition toStorageLog (v : dval) : option StateLog :=
  match v with
  | DStruct [DBytes address; DList topics; DBytes data; DUint blockNumber; DBytes txHash; DUint txIndex; DBytes blockHash; DUint index] =>
      topics ← mapM toBytes topics;
      Some (MkStateLog (MkLog address topics data blockNumber) txHash blockHash txIndex index)
  | _ => None
  end.

(** [setStatus]: the state root of a receipt, and its status. *)
Definition setStatus (postStateOrStatus : bytes) : option (bytes * Z) :=
  if bool_decide (postStateOrStatus = [1]) then Some ([], 1)
  else if bool_decide (postStateOrStatus = []) then Some ([], 0)
  else if zlen postStateOrStatus =? 32 then Some (postStateOrStatus, 0)
  else None.
Definition toStorageReceipt (v : dval) : option Receipt :=
  match v with
  | DStruct [DBytes status; DUint cumulative; DBytes bloom; DBytes txHash; DBytes address; DList logs; DUint gas] =>
      '(root, status) ← setStatus status;
      logs ← mapM (fromPtr toStorageLog) logs;
      Some (MkReceipt root status cumulative bloom logs txHash address gas)
  | _ => None
  end.

Definition ReadReceipts (db : KV) (hash : bytes) (number : Z) : option (list Receipt) :=
  let data := Get db (ReceiptsKey number hash) in
  if zlen data =? 0 then None
  else match DecodeBytes (makeDecoder (S (length data)) (TSlice false (TPtr false storageReceiptType))) data with
  | Ok (DList vs) => mapM (fromPtr toStorageReceipt) vs
  | _ => None
  end.
Definition WriteReceipts (hash : bytes) (number : Z) (receipts : list Receipt) (db : KV) : outcome Empty_set KV :=
  let! data := encodeOrExit (RSlice false (map storageReceipt_rval receipts)) in
  Ok (Put (ReceiptsKey number hash) data db).
Definition DeleteReceipts (hash : bytes) (number : Z) (db : KV) : KV := Delete (ReceiptsKey number hash) db.

(** ** Blocks *)

Definition ReadBlock (db : KV) (hash : bytes) (number : Z) : option FullBlock :=
  header ← ReadHeader db hash number;
  body ← ReadBody db hash number;
  Some (MkFullBlock (MkBlock header (bd_Uncles body)) (bd_Transactions body)).
Definition blockBody (b : FullBlock) : Body := MkBody (fb_transactions b) (fb_uncles b).
Definition WriteBlock (sha : bytes -> bytes) (block : FullBlock) (db : KV) : outcome Empty_set KV :=
  let! db := WriteBody (Block_Hash sha (fb_block block)) (u64 (h_Number (fb_header block))) (blockBody block) db in
  WriteHeader sha (fb_header block) db.
Definition DeleteBlock (hash : bytes) (number : Z) (db : KV) : KV :=
  DeleteTd hash number (DeleteBody hash number (DeleteHeader hash number (DeleteReceipts hash number db))).

(** [FindCommonAncestor]: the loops on [a], on [b], then on both. *)
Fixpoint liftTo (db : KV) (fuel : nat) (a : Header) (bn : Z) : outcome Empty_set (option Header) :=
  match fuel with
  | O => NoFuel
  | S fuel =>
      if bn <? u64 (h_Number a) then
        match ReadHeader db (h_ParentHash a) (u64 (u64 (h_Number a) - 1)) with
        | None => Ok None
        | Some a => liftTo db fuel a bn
        end
      else Ok (Some a)
  end.
Fixpoint meet (sha : bytes -> bytes) (db : KV) (fuel : nat) (a b : Header) : outcome Empty_set (option Header) :=
  match fuel with
  | O => NoFuel
  | S fuel =>
      if bool_decide (Header_Hash sha a = Header_Hash sha b) then Ok (Some a)
      else match ReadHeader db (h_ParentHash a) (u64 (u64 (h_Number a) - 1)), ReadHeader db (h_ParentHash b) (u64 (u64 (h_Number b) - 1)) with
      | Some a, Some b => meet sha db fuel a b
      | _, _ => Ok None
      end
  end.
Definition FindCommonAncestor (sha : bytes -> bytes) (db : KV) (fuel : nat) (a b : Header) : outcome Empty_set (option Header) :=
  let! a := liftTo db fuel a (u64 (h_Number b)) in
  match a with
  | None => Ok None
  | Some a =>
      let! b := liftTo db fuel b (u64 (h_Number a)) in
      match b with None => Ok None | Some b => meet sha db fuel a b end
  end.

(** * accessors_indexes.go *)

Record TxLookupEntry := MkTxLookupEntry { BlockHash : bytes; BlockIndex : Z; Index : Z }.
Definition lookupType : rtype := TStruct [TByteArray 32; TUint 64; TUint 64].
Definition toLookup (v : dval) : option TxLookupEntry :=
  match v with DStruct [DBytes h; DUint n; DUint i] => Some (MkTxLookupEntry h n i) | _ => None end.

Definition ReadTxLookupEntry (db : KV) (hash : bytes) : bytes * Z * Z :=
  let data := Get db (LookupKey hash) in
  match (if zlen data =? 0 then None else match DecodeBytes (makeDecoder (S (length data)) lookupType) data with Ok v => toLookup v | _ => None end) with
  | None => (zeroHash, 0, 0)
  | Some e => (BlockHash e, BlockIndex e, Index e)
  end.

(** The loop of [WriteTxLookupEntries], from transaction [i] on. *)
Fixpoint writeEntries (sha : bytes -> bytes) (hash : bytes) (number : Z) (i : Z) (txs : list Transaction) (db : KV) : outcome Empty_set KV :=
  match txs with
  | [] => Ok db
  | tx :: txs =>
      let! data := encodeOrExit (RStruct [RByteArray hash; RUint number; RUint i]) in
      writeEntries sha hash number (i + 1) txs (Put (LookupKey (tx_Hash sha (tx_data tx))) data db)
  end.
Definition WriteTxLookupEntries (sha : bytes -> bytes) (block : FullBlock) (db : KV) : outcome Empty_set KV :=
  writeEntries sha (Block_Hash sha (fb_block block)) (u64 (h_Number (fb_header block))) 0 (fb_transactions block) db.
Definition DeleteTxLookupEntry (hash : bytes) (db : KV) : KV := Delete (LookupKey hash) db.

(** The entry of a list at a stored index: the length is compared with the index as a signed
    integer, so that an index of 2^63 or more passes and the access panics. *)
Definition entryAt {A} (l : list A) (i : Z) : outcome Empty_set (option A) :=
  if zlen l <=? i64 i then Ok None else let! x := must (zget l i) in Ok (Some x).

Definition ReadTransaction (db : KV) (hash : bytes) : outcome Empty_set (option (Transaction * (bytes * Z * Z))) :=
  let '(blockHash, blockNumber, txIndex) := ReadTxLookupEntry db hash in
  if bool_decide (blockHash = zeroHash) then Ok None
  else
    match ReadBody db blockHash blockNumber with
    | None => Ok None
    | Some body => let! tx := entryAt (bd_Transactions body) txIndex in Ok ((fun tx => (tx, (blockHash, blockNumber, txIndex))) <$> tx)
    end.
Definition ReadReceipt (db : KV) (hash : bytes) : outcome Empty_set (option (Receipt * (bytes * Z * Z))) :=
  let '(blockHash, blockNumber, receiptIndex) := ReadTxLookupEntry db hash in
  if bool_decide (blockHash = zeroHash) then Ok None
  else
    let! receipt := entryAt (default [] (ReadReceipts db blockHash blockNumber)) receiptIndex in
    Ok ((fun receipt => (receipt, (blockHash, blockNumber, receiptIndex))) <$> receipt).

(** * Keys do not clash *)

Definition is_hash32 (h : bytes) : Prop := length h = HashLength.
Definition key_wf (k : Key) : Prop :=
  match k with
  | CanonicalKey n => is_u64 n
  | HeaderKey n h | TdKey n h | BodyKey n h | ReceiptsKey n h => is_u64 n /\ is_hash32 h
  | NumberKey h | LookupKey h => is_hash32 h
  | _ => True
  end.

Lemma encodeBlockNumber_inj m n : is_u64 m -> is_u64 n -> encodeBlockNumber m = encodeBlockNumber n -> m = n.
Proof.
  intros Hm Hn E%(f_equal be_val). unfold encodeBlockNumber in E. rewrite !be_val_fixed in E. change (256 ^ Z.of_nat 8) with (2 ^ 64) in E.
  by rewrite !Z.mod_small in E by done.
Qed.

Lemma length_encodeBlockNumber n : length (encodeBlockNumber n) = 8%nat.
Proof. apply length_be_fixed. Qed.

(** Number and hash can be read off a key. *)
Lemma number_hash_inj (p : bytes) m n (h h' : bytes) : is_u64 m -> is_u64 n -> p ++ encodeBlockNumber m ++ h = p ++ encodeBlockNumber n ++ h' -> m = n /\ h = h'.
Proof.
  intros Hm Hn E%app_inv_head. apply app_inj_1 in E as [E1 E2]; [|by rewrite !length_encodeBlockNumber]. by apply encodeBlockNumber_inj in E1.
Qed.

Lemma schema_inj k k' : key_wf k -> key_wf k' -> schema k = schema k' -> k = k'.
Proof.
  assert (forall n (h s : bytes), is_hash32 h -> length (headerPrefix ++ encodeBlockNumber n ++ h ++ s) = (41 + length s)%nat) as Hlen.
  { intros n h s Hh. rewrite !length_app, length_encodeBlockNumber. unfold is_hash32, HashLength in Hh. cbn. lia. }
  assert (forall n, length (headerPrefix ++ encodeBlockNumber n ++ headerHashSuffix) = 10%nat) as Hcan by (intros; by rewrite !length_app, length_encodeBlockNumber).
  intros Hk Hk' E. assert (length (schema k) = length (schema k')) as El by by rewrite E.
  destruct k as [n|n h|n h|h|n h|n h|h| | |], k' as [n'|n' h'|n' h'|h'|n' h'|n' h'|h'| | |]; cbn [schema key_wf] in *; try (by discriminate E); try done.
  all: repeat match goal with H : _ /\ _ |- _ => destruct H end.
  all: try (by apply (app_inv_head [_]) in E; subst).
  all: try (apply number_hash_inj in E as [-> ?]; [|done..]; by subst).
  all: try (by rewrite <- (app_nil_r h), !Hlen, Hcan in El by done); try (by rewrite <- (app_nil_r h'), !Hlen, ?Hcan in El by done).
  all: try (by rewrite !Hlen, Hcan in El by done).
  - rewrite <- (app_nil_r h), !Hlen in El by done. cbn in El. lia.
  - apply number_hash_inj in E as [-> E]; [|done..]. by apply app_inv_tail in E as ->.
Qed.

Lemma Get_Put k v db k' : key_wf k -> key_wf k' -> Get (Put k v db) k' = if decide (k = k') then v else Get db k'.
Proof.
  intros Hk Hk'. unfold Get, Put. destruct (decide (k = k')) as [->|Hne]; [by rewrite lookup_insert_eq|]. rewrite lookup_insert_ne; [done|]. intros E. by apply Hne, schema_inj.
Qed.
Lemma Get_Delete k db k' : key_wf k -> key_wf k' -> Get (Delete k db) k' = if decide (k = k') then [] else Get db k'.
Proof.
  intros Hk Hk'. unfold Get, Delete. destruct (decide (k = k')) as [->|Hne]; [by rewrite lookup_delete_eq|]. rewrite lookup_delete_ne; [done|]. intros E. by apply Hne, schema_inj.
Qed.
Lemma Has_Put k v db k' : key_wf k -> key_wf k' -> Has (Put k v db) k' = if decide (k = k') then true else Has db k'.
Proof.
  intros Hk Hk'. unfold Has, Put. destruct (decide (k = k')) as [->|Hne]; [rewrite lookup_insert_eq; by apply bool_decide_eq_true_2|].
  rewrite lookup_insert_ne; [done|]. intros E. by apply Hne, schema_inj.
Qed.

(** ** What each read sees of a write *)

Lemma Has_Delete k db k' : key_wf k -> key_wf k' -> Has (Delete k db) k' = if decide (k = k') then false else Has db k'.
Proof.
  intros Hk Hk'. unfold Has, Delete. destruct (decide (k = k')) as [<-|N].
  - rewrite lookup_delete_eq. apply bool_decide_eq_false_2. by intros [? ?].
  - by rewrite lookup_delete_ne by (intros E; by apply N, schema_inj).
Qed.
Lemma read_Put {A} (f : bytes -> A) k v db k' : key_wf k -> key_wf k' -> f (Get (Put k v db) k') = if decide (k = k') then f v else f (Get db k').
Proof. intros Hk Hk'. rewrite Get_Put by done. by destruct (decide _). Qed.
Lemma read_Delete {A} (f : bytes -> A) k db k' : key_wf k -> key_wf k' -> f (Get (Delete k db) k') = if decide (k = k') then f [] else f (Get db k').
Proof. intros Hk Hk'. rewrite Get_Delete by done. by destruct (decide _). Qed.

Lemma hashOr_id h : is_hash32 h -> hashOr h = h.
Proof. intros Hh. unfold hashOr, zlen. rewrite Hh. cbn. by apply BytesToHash_id. Qed.
Lemma hashOr_32 data : is_hash32 (hashOr data).
Proof.
  unfold hashOr, is_hash32. destruct (zlen data =? 0); [done|]. apply length_SetBytes.
Qed.

Section reads.
Implicit Types (db : KV) (k : Key) (v h : bytes) (n m : Z).

Lemma ReadCanonicalHash_Put k v db n : key_wf k -> is_u64 n -> ReadCanonicalHash (Put k v db) n = if decide (k = CanonicalKey n) then hashOr v else ReadCanonicalHash db n.
Proof. intros Hk Hn. by apply (read_Put hashOr). Qed.
Lemma ReadCanonicalHash_Delete k db n : key_wf k -> is_u64 n -> ReadCanonicalHash (Delete k db) n = if decide (k = CanonicalKey n) then zeroHash else ReadCanonicalHash db n.
Proof. intros Hk Hn. by apply (read_Delete hashOr). Qed.
Lemma ReadHeader_Put k v db h n : key_wf k -> is_hash32 h -> is_u64 n ->
  ReadHeader (Put k v db) h n = if decide (k = HeaderKey n h) then readValue headerType toHeader v else ReadHeader db h n.
Proof. intros Hk Hh Hn. by apply (read_Put (readValue headerType toHeader)). Qed.
Lemma ReadHeader_Delete k db h n : key_wf k -> is_hash32 h -> is_u64 n -> ReadHeader (Delete k db) h n = if decide (k = HeaderKey n h) then None else ReadHeader db h n.
Proof. intros Hk Hh Hn. by apply (read_Delete (readValue headerType toHeader)). Qed.
Lemma ReadTd_Put k v db h n : key_wf k -> is_hash32 h -> is_u64 n -> ReadTd (Put k v db) h n = if decide (k = TdKey n h) then readValue TBigInt toInt v else ReadTd db h n.
Proof. intros Hk Hh Hn. by apply (read_Put (readValue TBigInt toInt)). Qed.
Lemma ReadTd_Delete k db h n : key_wf k -> is_hash32 h -> is_u64 n -> ReadTd (Delete k db) h n = if decide (k = TdKey n h) then None else ReadTd db h n.
Proof. intros Hk Hh Hn. by apply (read_Delete (readValue TBigInt toInt)). Qed.
Lemma ReadHeaderNumber_Put k v db h : key_wf k -> is_hash32 h ->
  ReadHeaderNumber (Put k v db) h = if decide (k = NumberKey h) then if negb (zlen v =? 8) then None else Some (be_val v) else ReadHeaderNumber db h.
Proof. intros Hk Hh. by apply (read_Put (fun data => if negb (zlen data =? 8) then None else Some (be_val data))). Qed.
Lemma ReadHeaderNumber_Delete k db h : key_wf k -> is_hash32 h -> ReadHeaderNumber (Delete k db) h = if decide (k = NumberKey h) then None else ReadHeaderNumber db h.
Proof. intros Hk Hh. by apply (read_Delete (fun data => if negb (zlen data =? 8) then None else Some (be_val data))). Qed.
Lemma ReadBody_Put k v db h n : key_wf k -> is_hash32 h -> is_u64 n -> ReadBody (Put k v db) h n = if decide (k = BodyKey n h) then readValue bodyType toBody v else ReadBody db h n.
Proof. intros Hk Hh Hn. by apply (read_Put (readValue bodyType toBody)). Qed.
Lemma ReadBody_Delete k db h n : key_wf k -> is_hash32 h -> is_u64 n -> ReadBody (Delete k db) h n = if decide (k = BodyKey n h) then None else ReadBody db h n.
Proof. intros Hk Hh Hn. by apply (read_Delete (readValue bodyType toBody)). Qed.
End reads.

(** ** What was written is read back *)

Lemma Decode_DecodeBytes {A} (dec : SM A) b v : DecodeBytes dec b = Ok v -> Decode dec b = Ok v.
Proof.
  assert (NewStream b 0 = NewStream b (u64 (zlen b))) as E by (unfold NewStream; cbn; by destruct (u64 (zlen b) >? 0)).
  unfold DecodeBytes, Decode. rewrite E. destruct (dec _) as [s [w| | |]]; try done. by destruct (zlen (s_r s) >? 0).
Qed.

Lemma written_read t v rv : type_ok t = true -> written t v rv -> (forall b, rlp_spec rv = Ok b -> zlen b < 2 ^ 64) ->
  exists b, encodeOrExit rv = Ok b /\ rlp_spec rv = Ok b /\ b <> [] /\ DecodeBytes (makeDecoder (S (length b)) t) b = Ok v /\ forall A (f : dval -> option A), readValue t f b = f v.
Proof.
  intros Ht Hw Hs. destruct (written_roundtrip (EncBuf [] [] 0) t v rv Ht Hw Hs) as (b & E & _ & Er & _ & D). exists b.
  assert (b <> []) as Hb.
  { intros ->. destruct Hw as (b' & E1 & _ & H3). rewrite Er in E1. injection E1 as <-. destruct (H3 ltac:(done)) as [_ Htyped].
    destruct (makeDecoder_good 1 t ltac:(lia)) as [Hg _]. pose proof (good_pos _ _ _ (Hg Ht) _ _ Htyped) as Hp. by cbn in Hp. }
  unfold encodeOrExit. rewrite E. split_and!; try done. intros A f. unfold readValue. destruct (Z.eqb_spec (zlen b) 0) as [Hz|_]; [by destruct b|].
  by rewrite (Decode_DecodeBytes _ _ _ D).
Qed.

Section stored.
Context (sha : bytes -> bytes) (hash_len : forall b, length (sha b) = 32%nat).

Lemma Header_Hash_32 h : is_hash32 (Header_Hash sha h).
Proof using hash_len. apply hash_len. Qed.

(** A header that can be stored: its encoding fits a slice and its number 64 bits. *)
Definition storable_header (h : Header) : Prop := header_ok h /\ is_u64 (h_Number h) /\ forall b, rlp_spec (header_rval h) = Ok b -> zlen b < 2 ^ 64.

Lemma WriteHeader_ok h db : storable_header h -> exists data, WriteHeader sha h db = Ok (Put (HeaderKey (h_Number h) (Header_Hash sha h)) data (Put (NumberKey (Header_Hash sha h)) (encodeBlockNumber (h_Number h)) db)) /\
  readValue headerType toHeader data = Some h.
Proof.
  intros (Hh & Hn & Hs). destruct (written_read headerType _ _ eq_refl (header_written h Hh) Hs) as (data & E & _ & _ & _ & Hr). exists data.
  unfold WriteHeader. rewrite E, u64_small by done. split; [done|]. by rewrite Hr, toHeader_dval.
Qed.

Lemma WriteTd_ok h n td db : 0 <= td -> (forall b, rlp_spec (RBigIntPtr (Some td)) = Ok b -> zlen b < 2 ^ 64) ->
  exists data, WriteTd h n td db = Ok (Put (TdKey n h) data db) /\ readValue TBigInt toInt data = Some td.
Proof.
  intros Ht Hs. assert (written TBigInt (DUint td) (RBigIntPtr (Some td))) as Hw by by apply written_big.
  destruct (written_read TBigInt _ _ eq_refl Hw Hs) as (data & E & _ & _ & _ & Hr). exists data. unfold WriteTd. rewrite E. split; [done|]. by rewrite Hr.
Qed.

Definition body_dval (b : Body) : dval :=
  DStruct [DList (map (fun tx => DPtr (Some (tx_dval (tx_data tx)))) (bd_Transactions b)); DList (map (fun h => DPtr (Some (header_dval h))) (bd_Uncles b))].

Lemma toBody_dval b : toBody (body_dval b) = Some (MkBody (map received (bd_Transactions b)) (bd_Uncles b)).
Proof.
  cbn [toBody body_dval]. rewrite (mapM_dval toTx (fun tx => tx_dval (tx_data tx)) tx_data) by (intros; apply toTx_dval).
  cbn [mbind option_bind]. rewrite (mapM_dval toHeader header_dval id) by apply toHeader_dval. cbn [mbind option_bind]. by rewrite map_id, map_map.
Qed.

Lemma txs_written txs : Forall (fun tx => txdata_ok (tx_data tx)) txs ->
  written (TSlice false (TPtr false txdataType)) (DList (map (fun tx => DPtr (Some (tx_dval (tx_data tx)))) txs)) (RSlice false (map tx_rval txs)).
Proof. intros Ht. apply written_slice. induction Ht; constructor; [by apply tx_rval_written|done]. Qed.

(** The body of a block is shorter than the block. *)
Lemma body_written b : block_ok b -> written bodyType (body_dval (blockBody b)) (body_rval (blockBody b)) /\ forall e, rlp_spec (body_rval (blockBody b)) = Ok e -> zlen e < 2 ^ 64.
Proof.
  intros Hb. split.
  - apply written_struct. cbn [fields_held]. split_and!; [apply txs_written, Hb|apply headers_written, Hb|done].
  - destruct (block_parts b Hb) as (eh & encs & eus & _ & F & Eu & Hl). pose proof (zlen_nonneg eh). intros e. unfold body_rval. cbn [rlp_spec spec_all blockBody bd_Transactions bd_Uncles] in *.
    destruct (spec_all_parts tx_rval (fb_transactions b)) as (encs' & F' & Et). { clear -F. induction F; constructor; eauto. }
    assert (encs' = encs) as -> by (clear -F F'; revert encs' F'; induction F as [|? ? ? ? H1 ? IH]; intros ? F'; inversion F' as [|? ? ? ? H2 H3]; subst; [done|]; f_equal; [congruence|by apply IH]).
    rewrite Et. cbn [outcome_bind]. destruct (spec_all rlp_spec (map header_rval _)) as [p| | |]; [|done..]. injection Eu as <-. cbn. rewrite app_nil_r. intros [= <-].
    pose proof (rlp_list_len (concat encs)). pose proof (zlen_nonneg (concat encs)). pose proof (zlen_nonneg (rlp_list p)).
    assert (zlen (rlp_list (concat encs) ++ rlp_list p) < 2 ^ 61) as Hx by (rewrite zlen_app; lia). pose proof (rlp_list_len (rlp_list (concat encs) ++ rlp_list p)). lia.
Qed.
End stored.

(** ** Receipts *)

Definition is_hash_ok (h : bytes) : Prop := length h = HashLength /\ bytes_ok h.

Record log_storable (l : StateLog) : Prop := {
  ls_address : length (l_Address (sl_log l)) = AddressLength /\ bytes_ok (l_Address (sl_log l));
  ls_topics : Forall is_hash_ok (l_Topics (sl_log l));
  ls_data : bytes_ok (l_Data (sl_log l));
  ls_hashes : is_hash_ok (sl_TxHash l) /\ is_hash_ok (sl_BlockHash l);
  ls_numbers : is_u64 (l_BlockNumber (sl_log l)) /\ is_u64 (sl_TxIndex l) /\ is_u64 (sl_Index l) }.

Record receipt_storable (r : Receipt) : Prop := {
  rs_state : rc_PostState r = [] \/ is_hash_ok (rc_PostState r);
  rs_status : rc_Status r = 0 \/ rc_Status r = 1;
  rs_gas : is_u64 (rc_CumulativeGasUsed r) /\ is_u64 (rc_GasUsed r);
  rs_bloom : length (rc_Bloom r) = 256%nat /\ bytes_ok (rc_Bloom r);
  rs_tx : is_hash_ok (rc_TxHash r);
  rs_address : length (rc_ContractAddress r) = AddressLength /\ bytes_ok (rc_ContractAddress r);
  rs_logs : Forall log_storable (rc_Logs r) }.

(** What is left of a receipt: the status of one with a state root is not stored. *)
Definition stored_form (r : Receipt) : Receipt :=
  MkReceipt (rc_PostState r) (if bool_decide (rc_PostState r = []) then rc_Status r else 0) (rc_CumulativeGasUsed r) (rc_Bloom r) (rc_Logs r) (rc_TxHash r) (rc_ContractAddress r) (rc_GasUsed r).

Definition storageLog_dval (l : StateLog) : dval :=
  DStruct [DBytes (l_Address (sl_log l)); DList (map DBytes (l_Topics (sl_log l))); DBytes (l_Data (sl_log l)); DUint (l_BlockNumber (sl_log l)); DBytes (sl_TxHash l); DUint (sl_TxIndex l);
    DBytes (sl_BlockHash l); DUint (sl_Index l)].
Definition storageReceipt_dval (r : Receipt) : dval :=
  DStruct [DBytes (statusEncoding r); DUint (rc_CumulativeGasUsed r); DBytes (rc_Bloom r); DBytes (rc_TxHash r); DBytes (rc_ContractAddress r);
    DList (map (fun l => DPtr (Some (storageLog_dval l))) (rc_Logs r)); DUint (rc_GasUsed r)].

Lemma written_bytes b : bytes_ok b -> written TByteSlice (DBytes b) (RBytes b).
Proof. intros Hb. by apply held_encodes. Qed.
Lemma written_hash h : is_hash_ok h -> written (TByteArray 32) (DBytes h) (RByteArray h).
Proof. intros [Hl Hb]. by apply written_array. Qed.

Lemma storageLog_written l : log_storable l -> written storageLogType (storageLog_dval l) (storageLog_rval l).
Proof.
  intros [[Ha1 Ha2] Ht Hd [H1 H2] (N1 & N2 & N3)]. apply written_encoder, written_struct. cbn [fields_held].
  split_and!; try (by apply written_u64); try (by apply written_hash); [by apply written_array| |by apply written_bytes|done].
  apply written_slice. induction Ht; constructor; [by apply written_hash|done].
Qed.

Lemma statusEncoding_ok r : receipt_storable r -> bytes_ok (statusEncoding r) /\ setStatus (statusEncoding r) = Some (rc_PostState r, if bool_decide (rc_PostState r = []) then rc_Status r else 0).
Proof.
  intros [Hs Hst _ _ _ _ _]. unfold statusEncoding. destruct (decide (rc_PostState r = [])) as [E|E].
  - rewrite E. cbn [bool_decide]. rewrite bool_decide_eq_true_2 by done. destruct Hst as [-> | ->]; by split; [repeat constructor|].
  - rewrite !(bool_decide_eq_false_2 (rc_PostState r = [])) by done. destruct Hs as [|[Hl Hb]]; [done|]. split; [done|]. unfold setStatus.
    rewrite !bool_decide_eq_false_2; [|done|intros E'; rewrite E' in Hl; by cbn in Hl]. unfold zlen. by rewrite Hl.
Qed.

Lemma storageReceipt_written r : receipt_storable r -> written storageReceiptType (storageReceipt_dval r) (storageReceipt_rval r).
Proof.
  intros Hr. destruct (statusEncoding_ok r Hr) as [Hs _]. destruct Hr as [_ _ [G1 G2] [B1 B2] Ht [A1 A2] Hl]. apply written_encoder, written_ptr, written_struct. cbn [fields_held].
  split_and!; try (by apply written_u64); try (by apply written_array); [by apply written_bytes|by apply written_hash| |done].
  apply written_slice. induction Hl; constructor; [by apply written_ptr, storageLog_written|done].
Qed.

Lemma mapM_bytes l : mapM toBytes (map DBytes l) = Some l.
Proof. induction l as [|b l IH]; [done|]. cbn. by rewrite IH. Qed.
Lemma toStorageLog_dval l : toStorageLog (storageLog_dval l) = Some l.
Proof. destruct l as [[a t d n] h b i j]. cbn [toStorageLog storageLog_dval sl_log l_Topics]. by rewrite mapM_bytes. Qed.
Lemma toStorageReceipt_dval r : receipt_storable r -> toStorageReceipt (storageReceipt_dval r) = Some (stored_form r).
Proof.
  intros Hr. destruct (statusEncoding_ok r Hr) as [_ Hs]. cbn [toStorageReceipt storageReceipt_dval]. rewrite Hs. cbn [mbind option_bind].
  rewrite (mapM_dval toStorageLog storageLog_dval id) by apply toStorageLog_dval. cbn. by rewrite map_id.
Qed.

Definition receipts_storable (rs : list Receipt) : Prop := Forall receipt_storable rs /\ forall b, rlp_spec (RSlice false (map storageReceipt_rval rs)) = Ok b -> zlen b < 2 ^ 64.

Lemma WriteReceipts_ok h n rs db : receipts_storable rs -> exists data, WriteReceipts h n rs db = Ok (Put (ReceiptsKey n h) data db) /\
  forall db', Get db' (ReceiptsKey n h) = data -> ReadReceipts db' h n = Some (map stored_form rs).
Proof.
  intros [Hr Hs]. assert (written (TSlice false (TPtr false storageReceiptType)) (DList (map (fun r => DPtr (Some (storageReceipt_dval r))) rs)) (RSlice false (map storageReceipt_rval rs))) as Hw.
  { apply written_slice. clear Hs. induction Hr; constructor; [by apply storageReceipt_written|done]. }
  destruct (written_read (TSlice false (TPtr false storageReceiptType)) _ _ eq_refl Hw Hs) as (data & E & _ & Hne & Hd & _). exists data. unfold WriteReceipts. rewrite E. split; [done|].
  intros db' Eg. unfold ReadReceipts. rewrite Eg. destruct (Z.eqb_spec (zlen data) 0); [by destruct data|]. rewrite Hd. clear -Hr.
  induction Hr as [|r rs Hr _ IH]; [done|]. cbn [map mapM fromPtr]. rewrite toStorageReceipt_dval by done. cbn [mbind option_bind]. by rewrite IH.
Qed.

(** * Finding what was stored *)

Section finding.
Context (sha : bytes -> bytes) (hash_len : forall b, length (sha b) = 32%nat) (hash_ok : forall b, bytes_ok (sha b)).
Abbreviation txHash tx := (tx_Hash sha (tx_data tx)).

Lemma lookup_written h n i : is_hash_ok h -> is_u64 n -> is_u64 i -> exists data, encodeOrExit (RStruct [RByteArray h; RUint n; RUint i]) = Ok data /\
  forall th db, Get db (LookupKey th) = data -> ReadTxLookupEntry db th = (h, n, i).
Proof.
  intros Hh Hn Hi. assert (written lookupType (DStruct [DBytes h; DUint n; DUint i]) (RStruct [RByteArray h; RUint n; RUint i])) as Hw.
  { apply written_struct. cbn [fields_held]. split_and!; [by apply written_hash|by apply written_u64|by apply written_u64|done]. }
  destruct (written_read lookupType _ _ eq_refl Hw) as (data & E & _ & Hne & Hd & _).
  - intros b. cbn. intros [= <-]. pose proof (word_string n (is_u64_word n Hn)). pose proof (word_string i (is_u64_word i Hi)).
    assert (zlen h = 32) as Hz by (unfold zlen; by rewrite (proj1 Hh)). pose proof (rlp_string_len h) as Hs. rewrite Hz in Hs.
    match goal with |- zlen (rlp_list ?p) < _ => assert (zlen p <= 200) by (rewrite !zlen_app; change (zlen []) with 0; lia); pose proof (rlp_list_len p) end. lia.
  - exists data. split; [done|]. intros th db Eg. unfold ReadTxLookupEntry. rewrite Eg. destruct (Z.eqb_spec (zlen data) 0); [by destruct data|]. by rewrite Hd.
Qed.

Lemma txHash_wf tx : key_wf (LookupKey (txHash tx)).
Proof using hash_len. apply hash_len. Qed.

Lemma writeEntries_ok h n txs : is_hash_ok h -> is_u64 n -> forall i db, 0 <= i -> i + zlen txs < 2 ^ 64 -> NoDup (map (fun tx => txHash tx) txs) ->
  exists db', writeEntries sha h n i txs db = Ok db' /\
    (forall k, key_wf k -> (forall tx, tx ∈ txs -> k <> LookupKey (txHash tx)) -> Get db' k = Get db k) /\
    forall j tx, txs !! j = Some tx -> ReadTxLookupEntry db' (txHash tx) = (h, n, i + Z.of_nat j).
Proof using hash_len.
  intros Hh Hn. induction txs as [|tx txs IH]; intros i db Hi Hl Hd; cbn [writeEntries].
  - exists db. split_and!; [done..|]. by intros j tx Hj.
  - rewrite zlen_cons in Hl. pose proof (zlen_nonneg txs). apply NoDup_cons in Hd as [Hnin Hd]. destruct (lookup_written h n i Hh Hn ltac:(unfold is_u64; lia)) as (data & -> & Hr). cbn [outcome_bind].
    destruct (IH (i + 1) (Put (LookupKey (txHash tx)) data db) ltac:(lia) ltac:(lia) Hd) as (db' & -> & Hf & He). exists db'. split_and!; [done| |].
    + intros k Hk Hne. rewrite Hf; [|done|intros tx' Htx'; apply Hne; by right]. rewrite Get_Put by (done || apply txHash_wf). rewrite decide_False; [done|]. intros <-. by eapply Hne; [left|].
    + intros [|j] tx' Hj; cbn in Hj.
      * injection Hj as <-. rewrite Z.add_0_r. apply Hr. rewrite Hf; [|apply txHash_wf|intros tx' Htx' [= E]; apply Hnin; rewrite E; by apply (list_elem_of_fmap_2 (fun tx => txHash tx))].
        rewrite Get_Put by apply txHash_wf. by rewrite decide_True.
      * rewrite (He j tx' Hj). f_equal. lia.
Qed.

Lemma entryAt_ok {A} (l : list A) i x : zlen l < 2 ^ 63 -> l !! i = Some x -> entryAt l (Z.of_nat i) = Ok (Some x).
Proof.
  intros Hl Hi. pose proof (lookup_lt_Some _ _ _ Hi) as Hlt. unfold entryAt, zlen in *. assert (i64 (Z.of_nat i) = Z.of_nat i) as -> by (apply i64_small; lia).
  rewrite (proj2 (Z.leb_gt _ _)) by lia. unfold zget. by rewrite (proj2 (Z.leb_le _ _)), Nat2Z.id, Hi by lia.
Qed.

(** Everything that is written when a block joins the chain. *)
Definition storeBlock (block : FullBlock) (receipts : list Receipt) (db : KV) : outcome Empty_set KV :=
  let! db := WriteBlock sha block db in
  let! db := WriteReceipts (Block_Hash sha (fb_block block)) (u64 (h_Number (fb_header block))) receipts db in
  WriteTxLookupEntries sha block db.

(** The keys under which a block is stored. *)
Definition block_key (block : FullBlock) (k : Key) : Prop :=
  let h := Block_Hash sha (fb_block block) in let n := h_Number (fb_header block) in
  k = BodyKey n h \/ k = NumberKey h \/ k = HeaderKey n h \/ k = ReceiptsKey n h \/ exists tx, tx ∈ fb_transactions block /\ k = LookupKey (txHash tx).

Lemma WriteBlock_ok block db : block_ok block -> is_u64 (h_Number (fb_header block)) -> let h := Block_Hash sha (fb_block block) in let n := h_Number (fb_header block) in
  exists header body, WriteBlock sha block db = Ok (Put (HeaderKey n h) header (Put (NumberKey h) (encodeBlockNumber n) (Put (BodyKey n h) body db))) /\
    readValue headerType toHeader header = Some (fb_header block) /\ readValue bodyType toBody body = Some (MkBody (map received (fb_transactions block)) (fb_uncles block)).
Proof.
  intros Hb Hn h n. destruct (body_written block Hb) as [Hw Hs]. destruct (written_read bodyType _ _ eq_refl Hw Hs) as (body & E & _ & _ & _ & Hr).
  destruct (block_parts block Hb) as (eh & encs & eus & Eh & _ & _ & Hl). pose proof (zlen_nonneg eus). pose proof (zlen_nonneg (concat encs)).
  assert (storable_header (fb_header block)) as Hst by (split_and!; [apply Hb|done|intros b Hb'; assert (b = eh) as -> by congruence; lia]).
  destruct (WriteHeader_ok sha (fb_header block) (Put (BodyKey n h) body db) Hst) as (header & E2 & Hr2). exists header, body.
  unfold WriteBlock, WriteBody. rewrite E, u64_small by done. cbn [outcome_bind]. split_and!; [exact E2|done|]. by rewrite Hr, toBody_dval.
Qed.

Lemma block_hash_wf block : is_hash32 (Block_Hash sha (fb_block block)).
Proof using hash_len. apply hash_len. Qed.

(** C27. What is stored of a block is found again: after a block, its receipts and its index
    were written, reading it by hash and number gives the block; each of its transactions is
    found by its hash, with the hash and number of the block and its position, and so is its
    receipt; and what is stored of any other block is as it was.  Keys of different
    kinds never clash. *)
Theorem stored_block_found block receipts db : block_ok block -> is_u64 (h_Number (fb_header block)) -> receipts_storable receipts -> length receipts = length (fb_transactions block) ->
  NoDup (map (fun tx => txHash tx) (fb_transactions block)) -> Block_Hash sha (fb_block block) <> zeroHash ->
  let h := Block_Hash sha (fb_block block) in let n := h_Number (fb_header block) in
  exists db', storeBlock block receipts db = Ok db' /\
    ReadBlock db' h n = Some (MkFullBlock (fb_block block) (map received (fb_transactions block))) /\ ReadHeaderNumber db' h = Some n /\ ReadReceipts db' h n = Some (map stored_form receipts) /\
    (forall i tx r, fb_transactions block !! i = Some tx -> receipts !! i = Some r ->
      ReadTransaction db' (txHash tx) = Ok (Some (received tx, (h, n, Z.of_nat i))) /\ ReadReceipt db' (txHash tx) = Ok (Some (stored_form r, (h, n, Z.of_nat i)))) /\
    forall k, key_wf k -> ~ block_key block k -> Get db' k = Get db k.
Proof using hash_len hash_ok.
  intros Hb Hn Hrs Hlen Hnd Hz h n. pose proof (block_hash_wf block) as Hh. fold h in Hh, Hz. assert (is_hash_ok h) as Hho by (split; [done|apply hash_ok]).
  destruct (WriteBlock_ok block db Hb Hn) as (header & body & E1 & R1 & R2). fold h n in E1. set (db1 := Put (HeaderKey n h) header _) in *.
  destruct (WriteReceipts_ok h n receipts db1 Hrs) as (rdata & E2 & R3). set (db2 := Put (ReceiptsKey n h) rdata db1) in *.
  assert (0 + zlen (fb_transactions block) < 2 ^ 64) as Hl. { destruct (block_items block Hb) as [_ Hl]. unfold zlen in *. rewrite length_map in Hl. lia. }
  destruct (writeEntries_ok h n (fb_transactions block) Hho Hn 0 db2 ltac:(lia) Hl Hnd) as (db' & E3 & F3 & R4). exists db'.
  assert (forall k, key_wf k -> (forall th, k <> LookupKey th) -> Get db' k = Get db2 k) as F by (intros k Hk Hne; apply F3; [done|by intros tx _]).
  assert (ReadHeader db' h n = Some (fb_header block)) as RH.
  { unfold ReadHeader. rewrite F by done. subst db2 db1. rewrite !Get_Put by done. by rewrite decide_False, decide_True by done. }
  assert (ReadBody db' h n = Some (MkBody (map received (fb_transactions block)) (fb_uncles block))) as RB.
  { unfold ReadBody. rewrite F by done. subst db2 db1. rewrite !Get_Put by done. by rewrite !decide_False, decide_True by done. }
  assert (ReadReceipts db' h n = Some (map stored_form receipts)) as RR by (apply R3; rewrite F by done; subst db2; rewrite Get_Put by done; by rewrite decide_True).
  split_and!.
  - unfold storeBlock. rewrite u64_small by done. fold h n. rewrite E1. cbn [outcome_bind]. fold db1. rewrite E2. cbn [outcome_bind]. unfold WriteTxLookupEntries. rewrite u64_small by done. exact E3.
  - unfold ReadBlock. rewrite RH. cbn [mbind option_bind]. rewrite RB. cbn. by destruct block as [[]].
  - unfold ReadHeaderNumber. rewrite F by done. subst db2 db1. rewrite !Get_Put by done. rewrite !decide_False, decide_True by done. unfold zlen. rewrite length_encodeBlockNumber. change (negb (Z.of_nat 8 =? 8)) with false. cbv iota.
    unfold encodeBlockNumber. rewrite be_val_fixed. change (256 ^ Z.of_nat 8) with (2 ^ 64). by rewrite Z.mod_small.
  - done.
  - intros i tx r Hi Hr. pose proof (R4 i tx Hi) as RL. rewrite Z.add_0_l in RL. unfold ReadTransaction, ReadReceipt. rewrite !RL. rewrite !bool_decide_eq_false_2 by done. rewrite RB, RR. cbn [bd_Transactions from_option]. unfold id.
    assert (zlen (fb_transactions block) < 2 ^ 63) as Hl63 by (destruct (block_items block Hb) as [_ Hl']; unfold zlen in *; rewrite length_map in Hl'; lia).
    rewrite (entryAt_ok (map received _) i (received tx)) by (unfold zlen in *; rewrite ?list_lookup_fmap, ?length_map, ?Hi; done).
    rewrite (entryAt_ok (map stored_form _) i (stored_form r)) by (unfold zlen in *; rewrite ?list_lookup_fmap, ?length_map, ?Hr, ?Hlen; done). done.
  - intros k Hk Hnot. rewrite F3; [|done|intros tx Htx ->; apply Hnot; do 4 right; by exists tx]. subst db2 db1. rewrite !Get_Put by done. unfold block_key in Hnot. fold h n in Hnot.
    rewrite !decide_False by naive_solver. done.
Qed.
End finding.

(** * Example *)

Module StoreSample.
Import Validator.BodySample.
Definition log : StateLog := MkStateLog (MkLog (replicate 20 7) [replicate 32 5] [1; 2] 1) (replicate 32 6) (replicate 32 3) 0 0.
Definition receipt : Receipt := MkReceipt [] 1 21000 (replicate 256 0) [log] (replicate 32 6) (replicate 20 0) 21000.

Definition fits (rs : list Receipt) : bool := match rlp_spec (RSlice false (map storageReceipt_rval rs)) with Ok b => zlen b <? 2 ^ 64 | _ => true end.
Lemma fits_ok rs : fits rs = true -> forall b, rlp_spec (RSlice false (map storageReceipt_rval rs)) = Ok b -> zlen b < 2 ^ 64.
Proof. unfold fits. intros H b E. rewrite E in H. by apply Z.ltb_lt. Qed.

Lemma receipts_fine : receipts_storable [receipt].
Proof.
  split; [|apply fits_ok; vm_compute; reflexivity]. apply Forall_singleton. constructor; [by left|by right|unfold is_u64; cbn; lia|apply checked_ok; vm_compute; reflexivity..|]. apply Forall_singleton.
  constructor; [apply checked_ok; vm_compute; reflexivity|apply Forall_singleton, checked_ok; vm_compute; reflexivity|by repeat constructor|split; apply checked_ok; vm_compute; reflexivity|unfold is_u64; cbn; lia].
Qed.

Lemma stored_block_found_witness : exists db', storeBlock shortHash handled [receipt] ∅ = Ok db' /\
  ReadBlock db' (Block_Hash shortHash (fb_block handled)) 1 = Some fresh /\ ReadReceipts db' (Block_Hash shortHash (fb_block handled)) 1 = Some [receipt].
Proof.
  destruct (stored_block_found shortHash shortHash_len shortHash_ok handled [receipt] ∅ handled_fine) as (db' & E & Rb & _ & Rr & _);
    [unfold is_u64; cbn; lia|exact receipts_fine|reflexivity|apply NoDup_singleton|vm_compute; discriminate|]. exists db'. split_and!; [exact E|exact Rb|exact Rr].
Defined.
End StoreSample.
