(* ===== verification/HeaderChain.v ===== *)
(** The chain of headers ([src/core/headerchain.go]) over its database and its caches: which headers
    are known, which of them are canonical, and which one is the head.

    The coin that breaks a tie between heads is an argument; so is what the engine says of
    headers that are verified. *)

From stdpp Require Import base numbers list gmap.
From S2P Require Import Prelude.
From S2P Require Import CommonMath.
From S2P Require Import RlpEncode.
From S2P Require Import RlpRaw.
From S2P Require Import RlpStream.
From S2P Require Import RlpTyped.
From S2P Require Import VmData.
From S2P Require Import VmWorld.
From S2P Require Import Types.
From S2P Require Import Transactions.
From S2P Require Import Blocks.
From S2P Require Import Lru.
From S2P Require Import ChainDB.
Local Open Scope Z_scope.
Local Open Scope go_scope.

Record HeaderChain := MkHeaderChain {
  chainDb : KV; genesisHeader : Header; currentHeader : Header; currentHeaderHash : bytes;
  headerCache : Lru bytes Header; tdCache : Lru bytes Z; numberCache : Lru bytes Z }.

Definition with_db (hc : HeaderChain) (db : KV) : HeaderChain :=
  MkHeaderChain db (genesisHeader hc) (currentHeader hc) (currentHeaderHash hc) (headerCache hc) (tdCache hc) (numberCache hc).
Definition with_headerCache (hc : HeaderChain) (c : Lru bytes Header) : HeaderChain :=
  MkHeaderChain (chainDb hc) (genesisHeader hc) (currentHeader hc) (currentHeaderHash hc) c (tdCache hc) (numberCache hc).
Definition with_tdCache (hc : HeaderChain) (c : Lru bytes Z) : HeaderChain :=
  MkHeaderChain (chainDb hc) (genesisHeader hc) (currentHeader hc) (currentHeaderHash hc) (headerCache hc) c (numberCache hc).
Definition with_numberCache (hc : HeaderChain) (c : Lru bytes Z) : HeaderChain :=
  MkHeaderChain (chainDb hc) (genesisHeader hc) (currentHeader hc) (currentHeaderHash hc) (headerCache hc) (tdCache hc) c.
Definition with_current (hc : HeaderChain) (h : Header) (hash : bytes) : HeaderChain :=
  MkHeaderChain (chainDb hc) (genesisHeader hc) h hash (headerCache hc) (tdCache hc) (numberCache hc).

Inductive WriteStatus := NonStatTy | CanonStatTy | SideStatTy.
Inductive chain_error := ErrNoGenesis | ErrUnknownParent | ErrNotContiguous (i : nat) | ErrBlacklistedHash | ErrAborted | ErrVerify.

(** * Reading through the caches *)

Definition cachedRead {V} (c : Lru bytes V) (key : bytes) (read : option V) : Lru bytes V * option V :=
  match lru_Get key c with
  | (c, Some v) => (c, Some v)
  | (c, None) => match read with Some v => (lru_Add key v c, Some v) | None => (c, None) end
  end.

Definition GetBlockNumber (hash : bytes) (hc : HeaderChain) : HeaderChain * option Z :=
  let (c, r) := cachedRead (numberCache hc) hash (ReadHeaderNumber (chainDb hc) hash) in (with_numberCache hc c, r).
Definition GetTd (hash : bytes) (number : Z) (hc : HeaderChain) : HeaderChain * option Z :=
  let (c, r) := cachedRead (tdCache hc) hash (ReadTd (chainDb hc) hash number) in (with_tdCache hc c, r).
Definition GetHeader (hash : bytes) (number : Z) (hc : HeaderChain) : HeaderChain * option Header :=
  let (c, r) := cachedRead (headerCache hc) hash (ReadHeader (chainDb hc) hash number) in (with_headerCache hc c, r).

Definition GetTdByHash (hash : bytes) (hc : HeaderChain) : HeaderChain * option Z :=
  match GetBlockNumber hash hc with (hc, Some number) => GetTd hash number hc | (hc, None) => (hc, None) end.
Definition GetHeaderByHash (hash : bytes) (hc : HeaderChain) : HeaderChain * option Header :=
  match GetBlockNumber hash hc with (hc, Some number) => GetHeader hash number hc | (hc, None) => (hc, None) end.
Definition GetHeaderByNumber (number : Z) (hc : HeaderChain) : HeaderChain * option Header :=
  let hash := ReadCanonicalHash (chainDb hc) number in
  if bool_decide (hash = zeroHash) then (hc, None) else GetHeader hash number hc.
Definition hc_HasHeader (hash : bytes) (number : Z) (hc : HeaderChain) : bool :=
  lru_Contains hash (numberCache hc) || lru_Contains hash (headerCache hc) || HasHeader (chainDb hc) hash number.

Definition hc_WriteTd (hash : bytes) (number td : Z) (hc : HeaderChain) : outcome Empty_set HeaderChain :=
  let! db := WriteTd hash number td (chainDb hc) in
  Ok (with_tdCache (with_db hc db) (lru_Add hash td (tdCache hc))).

Definition number64 (h : Header) : Z := u64 (h_Number h).
Definition parent64 (h : Header) : Z := u64 (number64 h - 1).

(** [GetBlockHashesFromHash]: the loop, from a header on. *)
Fixpoint hashesFrom (max : nat) (header : Header) (hc : HeaderChain) : HeaderChain * list bytes :=
  match max with
  | O => (hc, [])
  | S max =>
      let next := h_ParentHash header in
      match GetHeader next (parent64 header) hc with
      | (hc, None) => (hc, [])
      | (hc, Some header) => if h_Number header =? 0 then (hc, [next]) else let (hc, l) := hashesFrom max header hc in (hc, next :: l)
      end
  end.
Definition GetBlockHashesFromHash (hash : bytes) (max : nat) (hc : HeaderChain) : HeaderChain * option (list bytes) :=
  match GetHeaderByHash hash hc with
  | (hc, None) => (hc, None)
  | (hc, Some header) => let (hc, l) := hashesFrom max header hc in (hc, Some l)
  end.

(** * Writing headers *)

(** The canonical numbers above the new head are deleted. *)
Fixpoint deleteAbove (fuel : nat) (i : Z) (db : KV) : outcome Empty_set KV :=
  match fuel with
  | O => NoFuel
  | S fuel => if bool_decide (ReadCanonicalHash db i = zeroHash) then Ok db else deleteAbove fuel (u64 (i + 1)) (DeleteCanonicalHash i db)
  end.

(** The stale ones below it are overwritten, down to the first that is right. *)
Fixpoint overwrite (fuel : nat) (headHash : bytes) (headNumber : Z) (headHeader : option Header) (hc : HeaderChain) : outcome Empty_set HeaderChain :=
  if bool_decide (ReadCanonicalHash (chainDb hc) headNumber = headHash) then Ok hc
  else match fuel with
  | O => NoFuel
  | S fuel =>
      let hc := with_db hc (WriteCanonicalHash headHash headNumber (chainDb hc)) in
      let! h := must headHeader in
      let (hc, next) := GetHeader (h_ParentHash h) (parent64 h) hc in
      overwrite fuel (h_ParentHash h) (parent64 h) next hc
  end.

Section chain.
Context (sha : bytes -> bytes).

(** The head moves to [header]. *)
Definition setHeadHeader (fuel : nat) (header : Header) (hc : HeaderChain) : outcome Empty_set HeaderChain :=
  let hash := Header_Hash sha header in
  let number := number64 header in
  let! db := deleteAbove fuel (u64 (number + 1)) (chainDb hc) in
  let hc := with_db hc db in
  let (hc, head) := GetHeader (h_ParentHash header) (parent64 header) hc in
  let! hc := overwrite fuel (h_ParentHash header) (parent64 header) head hc in
  let hc := with_db hc (WriteHeadHeaderHash hash (WriteCanonicalHash hash number (chainDb hc))) in
  Ok (with_current hc header hash).

Definition hc_WriteHeader (fuel : nat) (coin : bool) (header : Header) (hc : HeaderChain) : outcome Empty_set (HeaderChain * (chain_error + WriteStatus)) :=
  let hash := Header_Hash sha header in
  let number := number64 header in
  match GetTd (h_ParentHash header) (u64 (number - 1)) hc with
  | (hc, None) => Ok (hc, inl ErrUnknownParent)
  | (hc, Some ptd) =>
      let (hc, localTd) := GetTd (currentHeaderHash hc) (number64 (currentHeader hc)) hc in
      let externTd := h_Difficulty header + ptd in
      let! hc := hc_WriteTd hash number externTd hc in
      let! db := WriteHeader sha header (chainDb hc) in
      let hc := with_db hc db in
      let! localTd := must localTd in
      let! (hc, status) :=
        if (localTd <? externTd) || ((externTd =? localTd) && coin)
        then let! hc := setHeadHeader fuel header hc in Ok (hc, CanonStatTy)
        else Ok (hc, SideStatTy) in
      let hc := with_headerCache hc (lru_Add hash header (headerCache hc)) in
      let hc := with_numberCache hc (lru_Add hash number (numberCache hc)) in
      Ok (hc, inr status)
  end.

(** [InsertHeaderChain]: headers that are known are skipped; [interrupted i] says whether the
    node is shutting down before header [i].  The report at the end looks at the last header, so
    an empty chain panics. *)
Fixpoint InsertHeaderChain (fuel : nat) (interrupted : nat -> bool) (coins : nat -> bool) (i : nat) (chain : list Header) (hc : HeaderChain) :
    outcome Empty_set (HeaderChain * (nat * option chain_error)) :=
  match chain with
  | [] => match i with O => Panic | _ => Ok (hc, (0%nat, None)) end
  | header :: chain =>
      if interrupted i then Ok (hc, (i, Some ErrAborted))
      else if hc_HasHeader (Header_Hash sha header) (number64 header) hc then InsertHeaderChain fuel interrupted coins (S i) chain hc
      else
        let! (hc, r) := hc_WriteHeader fuel (coins i) header hc in
        match r with
        | inl e => Ok (hc, (i, Some e))
        | inr _ => InsertHeaderChain fuel interrupted coins (S i) chain hc
        end
  end.

(** [ValidateHeaderChain]: first the headers must be linked. *)
Fixpoint linked (i : nat) (prev : Header) (chain : list Header) : option chain_error :=
  match chain with
  | [] => None
  | h :: chain =>
      if negb (number64 h =? u64 (number64 prev + 1)) || negb (bool_decide (h_ParentHash h = Header_Hash sha prev)) then Some (ErrNotContiguous i)
      else linked (S i) h chain
  end.
(** Which seals are verified: one in each run of [checkFreq], chosen at random, and the last. *)
Fixpoint chooseSeals (rand : nat -> nat) (checkFreq : nat) (k : nat) (i : nat) (seals : list bool) : list bool :=
  match k with
  | O => seals
  | S k =>
      let index := (i * checkFreq + rand i)%nat in
      let index := if (length seals <=? index)%nat then (length seals - 1)%nat else index in
      chooseSeals rand checkFreq k (S i) (<[index := true]> seals)
  end.
Definition sealsOf (rand : nat -> nat) (checkFreq : nat) (n : nat) : outcome Empty_set (list bool) :=
  match checkFreq, n with
  | O, _ | _, O => Panic
  | _, _ => let seals := chooseSeals rand checkFreq (n / checkFreq) 0 (replicate n false) in Ok (<[(n - 1)%nat := true]> seals)
  end.
(** The results of the verifier are awaited one by one. *)
Fixpoint awaitResults (interrupted : nat -> bool) (BadHashes : bytes -> bool) (results : nat -> bool) (i : nat) (chain : list Header) : nat * option chain_error :=
  match chain with
  | [] => (0%nat, None)
  | h :: chain =>
      if interrupted i then (0%nat, Some ErrAborted)
      else if BadHashes (Header_Hash sha h) then (i, Some ErrBlacklistedHash)
      else if negb (results i) then (i, Some ErrVerify)
      else awaitResults interrupted BadHashes results (S i) chain
  end.
Definition ValidateHeaderChain (rand : nat -> nat) (interrupted : nat -> bool) (BadHashes : bytes -> bool) (VerifyHeaders : list Header -> list bool -> nat -> bool) (checkFreq : nat) (chain : list Header) :
    outcome Empty_set (nat * option chain_error) :=
  match (match chain with [] => None | h :: chain => linked 1 h chain end) with
  | Some e => Ok (0%nat, Some e)
  | None =>
      let! seals := sealsOf rand checkFreq (length chain) in
      Ok (awaitResults interrupted BadHashes (VerifyHeaders chain seals) 0 chain)
  end.

(** * Opening and rewinding *)

Definition headerCacheLimit : nat := 512.
Definition tdCacheLimit : nat := 1024.
Definition numberCacheLimit : nat := 2048.

(** The field before it is set. *)
Definition noHeader : Header := MkHeader [] [] [] [] [] [] [] 0 0 0 0 0 [] [] [].

(** [NewHeaderChain]: the head is the one of the last block, or the genesis. *)
Definition NewHeaderChain (db : KV) : HeaderChain + chain_error :=
  let blank := MkHeaderChain db noHeader noHeader zeroHash (NewLRU headerCacheLimit) (NewLRU tdCacheLimit) (NewLRU numberCacheLimit) in
  match GetHeaderByNumber 0 blank with
  | (_, None) => inr ErrNoGenesis
  | (hc, Some genesis) =>
      let hc := MkHeaderChain db genesis genesis zeroHash (headerCache hc) (tdCache hc) (numberCache hc) in
      let head := ReadHeadBlockHash db in
      let (hc, current) := if bool_decide (head = zeroHash) then (hc, None) else GetHeaderByHash head hc in
      let current := default genesis current in
      inl (with_current hc current (Header_Hash sha current))
  end.

Definition SetCurrentHeader (head : Header) (hc : HeaderChain) : HeaderChain :=
  with_current (with_db hc (WriteHeadHeaderHash (Header_Hash sha head) (chainDb hc))) head (Header_Hash sha head).

(** The headers above [head] go, one after the other; [None] when the parent of one is missing. *)
Fixpoint rewind (fuel : nat) (head : Z) (delFn : bytes -> Z -> KV -> KV) (hdr : Header) (hc : HeaderChain) : outcome Empty_set (HeaderChain * option Header) :=
  if negb (head <? number64 hdr) then Ok (hc, Some hdr)
  else match fuel with
  | O => NoFuel
  | S fuel =>
      let hash := Header_Hash sha hdr in
      let num := number64 hdr in
      let hc := with_db hc (DeleteTd hash num (DeleteHeader hash num (delFn hash num (chainDb hc)))) in
      match GetHeader (h_ParentHash hdr) (parent64 hdr) hc with
      | (hc, None) => Ok (hc, None)
      | (hc, Some parent) => rewind fuel head delFn parent hc
      end
  end.
(** Canonical numbers from [height] down. *)
Fixpoint unnumber (k : nat) (height : Z) (db : KV) : KV :=
  match k with O => db | S k => unnumber k (height - 1) (DeleteCanonicalHash height db) end.

Definition hc_SetHead (fuel : nat) (head : Z) (delFn : bytes -> Z -> KV -> KV) (hc : HeaderChain) : outcome Empty_set HeaderChain :=
  let height := number64 (currentHeader hc) in
  let! (hc, current) := rewind fuel head delFn (currentHeader hc) hc in
  let hc := with_db hc (unnumber (Z.to_nat (height - head)) height (chainDb hc)) in
  let hc := with_headerCache hc (lru_Purge (headerCache hc)) in
  let hc := with_tdCache hc (lru_Purge (tdCache hc)) in
  let hc := with_numberCache hc (lru_Purge (numberCache hc)) in
  let current := default (genesisHeader hc) current in
  let hash := Header_Hash sha current in
  Ok (with_db (with_current hc current hash) (WriteHeadHeaderHash hash (chainDb hc))).
End chain.

(** * The tree of known headers *)

(** What the chain stands for: the headers that are known, by hash, each with its total
    difficulty. *)
Abbreviation Tree := (gmap bytes (Header * Z)).

(** The [k]-th ancestor of a header. *)
Fixpoint ascend (T : Tree) (k : nat) (h : bytes) : option bytes :=
  match k with
  | O => Some h
  | S k => match T !! h with Some (x, _) => ascend T k (h_ParentHash x) | None => None end
  end.
(** The hash at height [n] on the chain that ends with [h] at height [top]. *)
Definition hashAt (T : Tree) (h : bytes) (top n : Z) : bytes :=
  if n <=? top then default zeroHash (ascend T (Z.to_nat (top - n)) h) else zeroHash.

Section tree.
Context (sha : bytes -> bytes).

Record entry_ok (T : Tree) (root h : bytes) (x : Header) (d : Z) : Prop := {
  e_hash : Header_Hash sha x = h;
  e_storable : storable_header x;
  e_zero : h <> zeroHash;
  e_last : h_Number x < 2 ^ 64 - 1;
  e_parent : (h = root /\ h_Number x = 0) \/
    exists p dp, T !! h_ParentHash x = Some (p, dp) /\ h_Number x = h_Number p + 1 /\ d = h_Difficulty x + dp }.

(** Every header but the genesis has its parent, one below, in the tree. *)
Record tree_ok (T : Tree) (root : bytes) : Prop := {
  t_root : is_Some (T !! root);
  t_entry : forall h x d, T !! h = Some (x, d) -> entry_ok T root h x d }.

(** The database holds the headers of the tree, and no other. *)
Definition at_number {A : Type} (T : Tree) (f : Header * Z -> A) (h : bytes) (n : Z) : option A :=
  match T !! h with Some e => if h_Number e.1 =? n then Some (f e) else None | None => None end.
Record db_holds (T : Tree) (db : KV) : Prop := {
  d_number : forall h, is_hash32 h -> ReadHeaderNumber db h = (h_Number ∘ fst) <$> T !! h;
  d_header : forall h n, is_hash32 h -> is_u64 n -> ReadHeader db h n = at_number T fst h n;
  d_td : forall h n, is_hash32 h -> is_u64 n -> ReadTd db h n = at_number T snd h n;
  d_has : forall h n, is_hash32 h -> is_u64 n -> HasHeader db h n = bool_decide (is_Some (at_number T fst h n)) }.

(** So do the caches, as far as they go. *)
Record stored (T : Tree) (hc : HeaderChain) : Prop := {
  s_db : db_holds T (chainDb hc);
  s_headers : coherent (fun h => fst <$> T !! h) (headerCache hc);
  s_tds : coherent (fun h => snd <$> T !! h) (tdCache hc);
  s_numbers : coherent (fun h => (h_Number ∘ fst) <$> T !! h) (numberCache hc) }.

(** The numbers are those of the ancestors of the head. *)
Record chain_ok (T : Tree) (hc : HeaderChain) : Prop := {
  c_tree : tree_ok T (Header_Hash sha (genesisHeader hc));
  c_stored : stored T hc;
  c_head : fst <$> T !! currentHeaderHash hc = Some (currentHeader hc);
  c_canon : forall n, is_u64 n -> ReadCanonicalHash (chainDb hc) n = hashAt T (currentHeaderHash hc) (h_Number (currentHeader hc)) n }.

(** A header that may come: it follows its parent when the tree has it, and its hash is its own. *)
Record admissible (T : Tree) (x : Header) : Prop := {
  a_storable : storable_header x;
  a_zero : Header_Hash sha x <> zeroHash;
  a_last : h_Number x < 2 ^ 64 - 1;
  a_own : forall y d, T !! Header_Hash sha x = Some (y, d) -> y = x;
  a_parent : forall p dp, T !! h_ParentHash x = Some (p, dp) -> h_Number x = h_Number p + 1 /\
    0 <= h_Difficulty x + dp /\ forall b, rlp_spec (RBigIntPtr (Some (h_Difficulty x + dp))) = Ok b -> zlen b < 2 ^ 64 }.

(** The specification: the tree grows by the header, and the head is the heavier one. *)
Definition grown (T : Tree) (x : Header) (dp : Z) : Tree := <[Header_Hash sha x := (x, h_Difficulty x + dp)]> T.
Definition wins (localTd externTd : Z) (coin : bool) : bool := (localTd <? externTd) || ((externTd =? localTd) && coin).
Definition tdOf (T : Tree) (h : bytes) : Z := default 0 (snd <$> T !! h).
Definition receive (T : Tree) (head : bytes) (coin : bool) (x : Header) : Tree * bytes * (chain_error + WriteStatus) :=
  match T !! h_ParentHash x with
  | None => (T, head, inl ErrUnknownParent)
  | Some (_, dp) =>
      if wins (tdOf T head) (h_Difficulty x + dp) coin then (grown T x dp, Header_Hash sha x, inr CanonStatTy) else (grown T x dp, head, inr SideStatTy)
  end.

(** ** Ancestors *)

Lemma ascend_mono T T' k h r : T ⊆ T' -> ascend T k h = Some r -> ascend T' k h = Some r.
Proof.
  intros S. revert h; induction k as [|k IH]; intros h; [done|]. cbn [ascend]. destruct (T !! h) as [[x d]|] eqn:E; [|done].
  rewrite (lookup_weaken _ _ _ _ E S). apply IH.
Qed.
Lemma ascend_add T j k h : ascend T (j + k) h = match ascend T j h with Some h' => ascend T k h' | None => None end.
Proof. revert h; induction j as [|j IH]; intros h; [done|]. cbn [ascend Nat.add]. destruct (T !! h) as [[x d]|]; [apply IH|done]. Qed.

Context (T : Tree) (root : bytes) (Hok : tree_ok T root).

Lemma entry_number h x d : T !! h = Some (x, d) -> 0 <= h_Number x < 2 ^ 64 - 1.
Proof using Hok. intros E. destruct (t_entry _ _ Hok _ _ _ E) as [_ (_ & [H0 _] & _) _ HL _]. lia. Qed.
Lemma entry_u64 h x d : T !! h = Some (x, d) -> is_u64 (h_Number x).
Proof using Hok. intros E. apply entry_number in E. unfold is_u64. lia. Qed.
Lemma entry_parent h x d : T !! h = Some (x, d) -> 0 < h_Number x -> exists p dp, T !! h_ParentHash x = Some (p, dp) /\ h_Number x = h_Number p + 1.
Proof using Hok. intros E N. destruct (t_entry _ _ Hok _ _ _ E) as [_ _ _ _ [[_ ?]|(p & dp & Hp & En & _)]]; [lia|]. by exists p, dp. Qed.
Lemma entry_base h x d : T !! h = Some (x, d) -> h_Number x = 0 -> h = root.
Proof using Hok.
  intros E N. destruct (t_entry _ _ Hok _ _ _ E) as [_ _ _ _ [[-> _]|(p & dp & Hp & En & _)]]; [done|]. apply entry_number in Hp. lia.
Qed.

Lemma ascend_ok k : forall h x d, T !! h = Some (x, d) -> Z.of_nat k <= h_Number x ->
  exists h' x' d', ascend T k h = Some h' /\ T !! h' = Some (x', d') /\ h_Number x' = h_Number x - Z.of_nat k.
Proof using Hok.
  induction k as [|k IH]; intros h x d E Hk.
  - exists h, x, d. split_and!; [done..|lia].
  - destruct (entry_parent _ _ _ E) as (p & dp & Hp & En); [lia|]. cbn [ascend]. rewrite E.
    destruct (IH _ _ _ Hp) as (h' & x' & d' & Ea & E' & En'); [lia|]. exists h', x', d'. split_and!; [done..|lia].
Qed.

Lemma hashAt_ok h x d n : T !! h = Some (x, d) -> 0 <= n <= h_Number x -> exists x' d', T !! hashAt T h (h_Number x) n = Some (x', d') /\ h_Number x' = n /\ hashAt T h (h_Number x) n <> zeroHash.
Proof using Hok.
  intros E Hn. destruct (ascend_ok (Z.to_nat (h_Number x - n)) _ _ _ E) as (h' & x' & d' & Ea & E' & En); [lia|].
  unfold hashAt. rewrite (proj2 (Z.leb_le _ _)), Ea by lia. cbn. exists x', d'. split_and!; [done|lia|]. apply (e_zero _ _ _ _ _ (t_entry _ _ Hok _ _ _ E')).
Qed.
Lemma hashAt_top h x d : T !! h = Some (x, d) -> hashAt T h (h_Number x) (h_Number x) = h.
Proof. intros _. unfold hashAt. by rewrite Z.leb_refl, Z.sub_diag. Qed.
Lemma hashAt_above h top n : top < n -> hashAt T h top n = zeroHash.
Proof. intros H. unfold hashAt. by rewrite (proj2 (Z.leb_gt _ _)). Qed.
Lemma hashAt_parent h x d n : T !! h = Some (x, d) -> 0 <= n < h_Number x -> hashAt T h (h_Number x) n = hashAt T (h_ParentHash x) (h_Number x - 1) n.
Proof.
  intros E Hn. unfold hashAt. rewrite !(proj2 (Z.leb_le _ _)) by lia. replace (Z.to_nat (h_Number x - n)) with (S (Z.to_nat (h_Number x - 1 - n))) by lia. cbn [ascend]. by rewrite E.
Qed.
(** The chain seen from one of its members. *)
Lemma hashAt_member h x d m n : T !! h = Some (x, d) -> 0 <= n <= m -> m <= h_Number x -> hashAt T (hashAt T h (h_Number x) m) m n = hashAt T h (h_Number x) n.
Proof using Hok.
  intros E Hn Hm. destruct (ascend_ok (Z.to_nat (h_Number x - m)) _ _ _ E) as (h' & x' & d' & Ea & E' & En); [lia|].
  unfold hashAt. rewrite !(proj2 (Z.leb_le _ _)), Ea by lia. cbn.
  replace (Z.to_nat (h_Number x - n)) with (Z.to_nat (h_Number x - m) + Z.to_nat (m - n))%nat by lia. by rewrite ascend_add, Ea.
Qed.
Lemma hashAt_mono T' h x d n : T ⊆ T' -> T !! h = Some (x, d) -> 0 <= n -> hashAt T' h (h_Number x) n = hashAt T h (h_Number x) n.
Proof using Hok.
  intros S E Hn. unfold hashAt. destruct (Z.leb_spec n (h_Number x)) as [Hl|]; [|done].
  destruct (ascend_ok (Z.to_nat (h_Number x - n)) _ _ _ E) as (h' & x' & d' & Ea & _); [lia|]. by rewrite Ea, (ascend_mono T T' _ _ _ S Ea).
Qed.
Lemma hashAt_base h x d : T !! h = Some (x, d) -> hashAt T h (h_Number x) 0 = root.
Proof using Hok.
  intros E. pose proof (entry_number _ _ _ E). destruct (hashAt_ok h x d 0 E) as (x' & d' & E' & En & _); [lia|]. by apply (entry_base _ _ _ E').
Qed.
End tree.

(** * The chain keeps the tree *)

(** Keys the tree does not look at. *)
Definition aside (k : Key) : Prop := match k with HeaderKey _ _ | TdKey _ _ | NumberKey _ => False | _ => True end.

Section keeping.
Context (sha : bytes -> bytes) (hash_len : forall b, length (sha b) = 32%nat).
Abbreviation hashOf := (Header_Hash sha).

Lemma db_holds_Put T k v db : key_wf k -> aside k -> db_holds T db -> db_holds T (Put k v db).
Proof.
  intros Hk Ha [Hn Hh Ht Hs]. split; intros.
  - rewrite ReadHeaderNumber_Put, decide_False by (done || by intros ->). auto.
  - rewrite ReadHeader_Put, decide_False by (done || by intros ->). auto.
  - rewrite ReadTd_Put, decide_False by (done || by intros ->). auto.
  - unfold HasHeader in *. rewrite Has_Put, decide_False by (done || by intros ->). auto.
Qed.
Lemma db_holds_Delete T k db : key_wf k -> aside k -> db_holds T db -> db_holds T (Delete k db).
Proof.
  intros Hk Ha [Hn Hh Ht Hs]. split; intros.
  - rewrite ReadHeaderNumber_Delete, decide_False by (done || by intros ->). auto.
  - rewrite ReadHeader_Delete, decide_False by (done || by intros ->). auto.
  - rewrite ReadTd_Delete, decide_False by (done || by intros ->). auto.
  - unfold HasHeader in *. rewrite Has_Delete, decide_False by (done || by intros ->). auto.
Qed.

(** ** Caches *)

Lemma cachedRead_ok {V} (f : bytes -> option V) (c : Lru bytes V) k read : coherent f c -> (read = f k \/ read = None /\ f k = None) ->
  coherent f (cachedRead c k read).1 /\ (cachedRead c k read).2 = f k.
Proof.
  intros Hc Hr. assert (read = f k) as -> by (destruct Hr as [|[-> ->]]; done). unfold cachedRead.
  pose proof (Get_coherent f k c Hc) as [H1 H2]. destruct (lru_Get k c) as [c' [v|]]; cbn in *.
  - by rewrite (H2 v).
  - destruct (f k) as [v|] eqn:E; [|done]. split; [|done]. by apply Add_coherent.
Qed.

(** What reading leaves as it was. *)
Definition same_chain (hc hc' : HeaderChain) : Prop :=
  chainDb hc' = chainDb hc /\ genesisHeader hc' = genesisHeader hc /\ currentHeader hc' = currentHeader hc /\ currentHeaderHash hc' = currentHeaderHash hc.

(** A header is asked for at its own number. *)
Definition right_number (T : Tree) (h : bytes) (n : Z) : Prop := forall x d, T !! h = Some (x, d) -> h_Number x = n.

Lemma at_number_right {A : Type} T (f : Header * Z -> A) h n : right_number T h n -> at_number T f h n = f <$> T !! h.
Proof. intros H. unfold at_number. destruct (T !! h) as [[x d]|] eqn:E; [|done]. cbn. by rewrite (H x d E), Z.eqb_refl. Qed.

(** Headers and total difficulties apart: one may be written before the other. *)
Record heads (T : Tree) (hc : HeaderChain) : Prop := {
  hd_number : forall h, is_hash32 h -> ReadHeaderNumber (chainDb hc) h = (h_Number ∘ fst) <$> T !! h;
  hd_header : forall h n, is_hash32 h -> is_u64 n -> ReadHeader (chainDb hc) h n = at_number T fst h n;
  hd_has : forall h n, is_hash32 h -> is_u64 n -> HasHeader (chainDb hc) h n = bool_decide (is_Some (at_number T fst h n));
  hd_headers : coherent (fun h => fst <$> T !! h) (headerCache hc);
  hd_numbers : coherent (fun h => (h_Number ∘ fst) <$> T !! h) (numberCache hc) }.
Record tds (T : Tree) (hc : HeaderChain) : Prop := {
  td_td : forall h n, is_hash32 h -> is_u64 n -> ReadTd (chainDb hc) h n = at_number T snd h n;
  td_tds : coherent (fun h => snd <$> T !! h) (tdCache hc) }.
Lemma stored_split T hc : stored T hc <-> heads T hc /\ tds T hc.
Proof. split; [intros [[H1 H2 H3 H4] H5 H6 H7]; by split; split|intros [[H1 H2 H3 H4 H5] [H6 H7]]; split; [by split|done..]]. Qed.

Lemma GetHeader_heads T hc h n : heads T hc -> is_hash32 h -> is_u64 n -> right_number T h n ->
  exists c, GetHeader h n hc = (with_headerCache hc c, fst <$> T !! h) /\ heads T (with_headerCache hc c).
Proof.
  intros [H1 H2 H3 H4 H5] H32 H64 Hr. unfold GetHeader.
  destruct (cachedRead_ok _ (headerCache hc) h (ReadHeader (chainDb hc) h n) H4) as [Hc Hv].
  { left. by rewrite H2, at_number_right. }
  destruct (cachedRead _ _ _) as [c r]. cbn in Hc, Hv. subst r. exists c. split; [done|]. by split.
Qed.
Lemma GetBlockNumber_heads T hc h : heads T hc -> is_hash32 h ->
  exists c, GetBlockNumber h hc = (with_numberCache hc c, (h_Number ∘ fst) <$> T !! h) /\ heads T (with_numberCache hc c).
Proof.
  intros [H1 H2 H3 H4 H5] H32. unfold GetBlockNumber.
  destruct (cachedRead_ok _ (numberCache hc) h (ReadHeaderNumber (chainDb hc) h) H5) as [Hc Hv].
  { left. by rewrite H1. }
  destruct (cachedRead _ _ _) as [c r]. cbn in Hc, Hv. subst r. exists c. split; [done|]. by split.
Qed.
Lemma GetTd_tds T hc h n : tds T hc -> is_hash32 h -> is_u64 n -> right_number T h n ->
  exists c, GetTd h n hc = (with_tdCache hc c, snd <$> T !! h) /\ tds T (with_tdCache hc c).
Proof.
  intros [H1 H2] H32 H64 Hr. unfold GetTd.
  destruct (cachedRead_ok _ (tdCache hc) h (ReadTd (chainDb hc) h n) H2) as [Hc Hv].
  { left. by rewrite H1, at_number_right. }
  destruct (cachedRead _ _ _) as [c r]. cbn in Hc, Hv. subst r. exists c. split; [done|]. by split.
Qed.

Lemma GetHeader_ok T hc h n : stored T hc -> is_hash32 h -> is_u64 n -> right_number T h n ->
  exists hc', GetHeader h n hc = (hc', fst <$> T !! h) /\ stored T hc' /\ same_chain hc hc'.
Proof.
  intros [Hh [Ht1 Ht2]]%stored_split H32 H64 Hr. destruct (GetHeader_heads T hc h n Hh H32 H64 Hr) as (c & -> & Hh').
  eexists. split; [done|]. split; [|done]. apply stored_split. split; [done|by split].
Qed.
Lemma GetTd_ok T hc h n : stored T hc -> is_hash32 h -> is_u64 n -> right_number T h n ->
  exists hc', GetTd h n hc = (hc', snd <$> T !! h) /\ stored T hc' /\ same_chain hc hc'.
Proof.
  intros [[H1 H2 H3 H4 H5] Ht]%stored_split H32 H64 Hr. destruct (GetTd_tds T hc h n Ht H32 H64 Hr) as (c & -> & Ht').
  eexists. split; [done|]. split; [|done]. apply stored_split. split; [by split|done].
Qed.
Lemma GetBlockNumber_ok T hc h : stored T hc -> is_hash32 h ->
  exists hc', GetBlockNumber h hc = (hc', (h_Number ∘ fst) <$> T !! h) /\ stored T hc' /\ same_chain hc hc'.
Proof.
  intros [Hh [Ht1 Ht2]]%stored_split H32. destruct (GetBlockNumber_heads T hc h Hh H32) as (c & -> & Hh').
  eexists. split; [done|]. split; [|done]. apply stored_split. split; [done|by split].
Qed.

Lemma hc_HasHeader_ok T hc h n : stored T hc -> is_hash32 h -> is_u64 n -> right_number T h n -> hc_HasHeader h n hc = bool_decide (is_Some (T !! h)).
Proof.
  intros [Hdb Hh Ht Hn] H32 H64 Hr. unfold hc_HasHeader. rewrite (d_has _ _ Hdb), at_number_right by done.
  destruct (lru_Contains h (numberCache hc)) eqn:E1; cbn.
  { symmetry. apply bool_decide_eq_true_2. destruct (Contains_coherent _ _ _ Hn E1) as [v Hv]. cbn in Hv. by destruct (T !! h). }
  destruct (lru_Contains h (headerCache hc)) eqn:E2; cbn.
  { symmetry. apply bool_decide_eq_true_2. destruct (Contains_coherent _ _ _ Hh E2) as [v Hv]. cbn in Hv. by destruct (T !! h). }
  apply bool_decide_ext, fmap_is_Some.
Qed.

(** ** A new entry *)

Lemma number_read n : is_u64 n -> (if negb (zlen (encodeBlockNumber n) =? 8) then None else Some (be_val (encodeBlockNumber n))) = Some n.
Proof.
  intros Hn. unfold zlen. rewrite length_encodeBlockNumber. change (negb (Z.of_nat 8 =? 8)) with false. cbv iota. f_equal. unfold encodeBlockNumber. rewrite be_val_fixed. by apply Z.mod_small.
Qed.
Lemma parent_32 x : storable_header x -> is_hash32 (h_ParentHash x).
Proof. intros [H _]. apply (ho_parent _ H). Qed.
Lemma parent64_ok x p : is_u64 (h_Number x) -> is_u64 (h_Number p) -> h_Number x = h_Number p + 1 -> parent64 x = h_Number p.
Proof. intros Hx Hp E. unfold parent64, number64. rewrite (u64_small (h_Number x)) by done. replace (h_Number x - 1) with (h_Number p) by lia. by apply u64_small. Qed.

Lemma grown_sub T root x p dp : tree_ok sha T root -> admissible sha T x -> T !! h_ParentHash x = Some (p, dp) -> T ⊆ grown sha T x dp.
Proof.
  intros Hok Ha Hp. destruct (T !! hashOf x) as [[y d]|] eqn:E.
  - pose proof (a_own _ _ _ Ha _ _ E) as ->. destruct (e_parent _ _ _ _ _ _ (t_entry _ _ _ Hok _ _ _ E)) as [[_ H0]|(p' & dp' & Hp' & _ & ->)].
    + destruct (a_parent _ _ _ Ha _ _ Hp) as [En _]. pose proof (entry_number _ _ _ Hok _ _ _ Hp). lia.
    + rewrite Hp in Hp'. injection Hp' as <- <-. unfold grown. by rewrite insert_id.
  - by apply insert_subseteq.
Qed.

Lemma tree_grown T root x p dp : tree_ok sha T root -> admissible sha T x -> T !! h_ParentHash x = Some (p, dp) -> tree_ok sha (grown sha T x dp) root.
Proof.
  intros Hok Ha Hp. pose proof (grown_sub _ _ _ _ _ Hok Ha Hp) as HS. destruct (a_parent _ _ _ Ha _ _ Hp) as (En & H0 & _).
  split; [destruct (t_root _ _ _ Hok) as [e He]; exists e; by apply (lookup_weaken _ _ _ _ He)|].
  intros h y d. unfold grown at 1. rewrite lookup_insert_Some. intros [[<- [= <- <-]]|[Hne E]].
  - destruct Ha as [A1 A2 A3 _ _]. split; [done..|]. right. exists p, dp. split; [by apply (lookup_weaken _ _ _ _ Hp)|done].
  - destruct (t_entry _ _ _ Hok _ _ _ E) as [E1 E2 E3 E4 E5]. split; [done..|]. destruct E5 as [?|(p' & dp' & Hp' & ?)]; [by left|right].
    exists p', dp'. split; [by apply (lookup_weaken _ _ _ _ Hp')|done].
Qed.

Lemma at_number_grown {A : Type} T (f : Header * Z -> A) x dp h n : admissible sha T x ->
  at_number (grown sha T x dp) f h n = if decide (hashOf x = h /\ h_Number x = n) then Some (f (x, h_Difficulty x + dp)) else at_number T f h n.
Proof.
  intros Ha. unfold at_number, grown. destruct (decide (hashOf x = h)) as [<-|Hne].
  - rewrite lookup_insert_eq. cbn. destruct (Z.eqb_spec (h_Number x) n) as [<-|Hn]; [by rewrite decide_True|]. rewrite decide_False by tauto.
    destruct (T !! hashOf x) as [[y d]|] eqn:E; [|done]. rewrite (a_own _ _ _ Ha _ _ E). cbn. by rewrite (proj2 (Z.eqb_neq _ _)).
  - by rewrite lookup_insert_ne, decide_False by tauto.
Qed.

Lemma db_grown T x dp db data tdata : admissible sha T x -> readValue headerType toHeader data = Some x -> readValue TBigInt toInt tdata = Some (h_Difficulty x + dp) -> db_holds T db ->
  db_holds (grown sha T x dp) (Put (HeaderKey (h_Number x) (hashOf x)) data (Put (NumberKey (hashOf x)) (encodeBlockNumber (h_Number x)) (Put (TdKey (h_Number x) (hashOf x)) tdata db))).
Proof using hash_len.
  intros Ha Hd Htd [Hn Hh Ht Hs]. pose proof (Header_Hash_32 sha hash_len x) as H32. destruct (a_storable _ _ _ Ha) as (_ & H64 & _). split.
  - intros h Hh32. rewrite ReadHeaderNumber_Put, decide_False, ReadHeaderNumber_Put by done. unfold grown. destruct (decide (hashOf x = h)) as [<-|Hne].
    + by rewrite decide_True, lookup_insert_eq, number_read by done.
    + by rewrite decide_False, ReadHeaderNumber_Put, decide_False, lookup_insert_ne, Hn by (done || congruence).
  - intros h n Hh32 Hn64. rewrite at_number_grown, ReadHeader_Put by done. destruct (decide (hashOf x = h /\ h_Number x = n)) as [[<- <-]|Hne].
    + by rewrite decide_True.
    + rewrite decide_False, !ReadHeader_Put, !decide_False by (done || intros [= <- <-]; by apply Hne). auto.
  - intros h n Hh32 Hn64. rewrite at_number_grown, ReadTd_Put, decide_False, ReadTd_Put, decide_False, ReadTd_Put by done. destruct (decide (hashOf x = h /\ h_Number x = n)) as [[<- <-]|Hne].
    + by rewrite decide_True.
    + rewrite decide_False by (intros [= <- <-]; by apply Hne). auto.
  - intros h n Hh32 Hn64. unfold HasHeader in *. rewrite at_number_grown, Has_Put by done. destruct (decide (hashOf x = h /\ h_Number x = n)) as [[<- <-]|Hne].
    + by rewrite decide_True.
    + rewrite decide_False, !Has_Put, !decide_False by (done || intros [= <- <-]; by apply Hne). auto.
Qed.

Lemma fmap_grown {A : Type} T root x p dp (f : Header * Z -> A) : tree_ok sha T root -> admissible sha T x -> T !! h_ParentHash x = Some (p, dp) ->
  forall h v, f <$> T !! h = Some v -> f <$> grown sha T x dp !! h = Some v.
Proof.
  intros Hok Ha Hp h v. destruct (T !! h) as [e|] eqn:E; [|done]. by rewrite (lookup_weaken _ _ _ _ E (grown_sub _ _ _ _ _ Hok Ha Hp)).
Qed.

(** The two writes every header gets. *)
Lemma stored_grown T root x p dp hc : tree_ok sha T root -> admissible sha T x -> T !! h_ParentHash x = Some (p, dp) -> stored T hc ->
  exists hc1 db, hc_WriteTd (hashOf x) (h_Number x) (h_Difficulty x + dp) hc = Ok hc1 /\ WriteHeader sha x (chainDb hc1) = Ok db /\ stored (grown sha T x dp) (with_db hc1 db) /\
    genesisHeader hc1 = genesisHeader hc /\ currentHeader hc1 = currentHeader hc /\ currentHeaderHash hc1 = currentHeaderHash hc /\
    forall n, is_u64 n -> ReadCanonicalHash db n = ReadCanonicalHash (chainDb hc) n.
Proof using hash_len.
  intros Hok Ha Hp [Hdb Hh Ht Hn]. destruct (a_parent _ _ _ Ha _ _ Hp) as (En & H0 & Hb). pose proof (Header_Hash_32 sha hash_len x) as H32.
  destruct (a_storable _ _ _ Ha) as (_ & H64 & _).
  destruct (WriteTd_ok (hashOf x) (h_Number x) (h_Difficulty x + dp) (chainDb hc) H0 Hb) as (tdata & Etd & Rtd).
  destruct (WriteHeader_ok sha x (Put (TdKey (h_Number x) (hashOf x)) tdata (chainDb hc)) (a_storable _ _ _ Ha)) as (data & Ed & Rd).
  eexists _, _. unfold hc_WriteTd. rewrite Etd. split; [done|]. cbn. split; [exact Ed|]. split; [|split_and!; [done..|]].
  - pose proof (fun A f => @fmap_grown A _ _ _ _ _ f Hok Ha Hp) as Hm. split; cbn.
    + by apply db_grown.
    + apply (coherent_mono _ _ _ Hh), Hm.
    + apply Add_coherent; [apply (coherent_mono _ _ _ Ht), Hm|]. unfold grown. by rewrite lookup_insert_eq.
    + apply (coherent_mono _ _ _ Hn), Hm.
  - intros n Hn64. by rewrite !ReadCanonicalHash_Put, !decide_False.
Qed.

(** ** The canonical numbers *)

Lemma stored_db T hc db : stored T hc -> db_holds T db -> stored T (with_db hc db).
Proof. by intros [H1 H2 H3 H4]. Qed.
Lemma stored_current T hc x h : stored T hc -> stored T (with_current hc x h).
Proof. by intros [H1 H2 H3 H4]. Qed.
Lemma stored_Put T hc k v : key_wf k -> aside k -> stored T hc -> stored T (with_db hc (Put k v (chainDb hc))).
Proof. intros Hk Ha [H1 H2 H3 H4]. split; [by apply db_holds_Put|done..]. Qed.

Lemma deleteAbove_ok T top fuel : forall i db, 0 <= i < 2 ^ 64 -> top < 2 ^ 64 - 1 -> (Z.to_nat (top + 1 - i) < fuel)%nat -> db_holds T db ->
  (forall n, is_u64 n -> i <= n -> ReadCanonicalHash db n = zeroHash <-> top < n) ->
  exists db', deleteAbove fuel i db = Ok db' /\ db_holds T db' /\ forall n, is_u64 n -> ReadCanonicalHash db' n = if i <=? n then zeroHash else ReadCanonicalHash db n.
Proof.
  induction fuel as [|fuel IH]; intros i db Hi Htop Hf Hdb Hc; [lia|]. cbn [deleteAbove]. assert (is_u64 i) as H64 by done. pose proof (Hc i H64 ltac:(lia)) as Hci.
  destruct (decide (ReadCanonicalHash db i = zeroHash)) as [E|E].
  - rewrite bool_decide_eq_true_2 by done. exists db. split_and!; [done..|]. intros n Hn. destruct (Z.leb_spec i n); [|done]. apply Hc; [done..|]. apply Hci in E. lia.
  - rewrite bool_decide_eq_false_2 by done. assert (i <= top) as Hle by (apply Z.nlt_ge; by intros ?%Hci). rewrite u64_small by (unfold is_u64; lia).
    destruct (IH (i + 1) (DeleteCanonicalHash i db)) as (db' & Ed & Hdb' & Hc'); [lia..| | |].
    + by apply db_holds_Delete.
    + intros n Hn Hin. unfold DeleteCanonicalHash. rewrite ReadCanonicalHash_Delete, decide_False by (done || intros [= <-]; lia). apply Hc; [done|lia].
    + exists db'. split_and!; [done..|]. intros n Hn. rewrite Hc' by done. unfold DeleteCanonicalHash. rewrite ReadCanonicalHash_Delete by done.
      destruct (Z.leb_spec i n), (Z.leb_spec (i + 1) n); try (done || lia); [rewrite decide_True; [done|f_equal; lia]|rewrite decide_False; [done|intros [= <-]; lia]].
Qed.

(** Numbers that lead down a chain of the tree wherever they name a known header. *)
Definition downward (T : Tree) (canon : Z -> bytes) (top : Z) : Prop :=
  forall m x d, 0 <= m <= top -> T !! canon m = Some (x, d) -> h_Number x = m /\ forall n, 0 <= n <= m -> canon n = hashAt T (canon m) m n.

Lemma overwrite_ok T root fuel : tree_ok sha T root -> forall hc h x d, stored T hc -> T !! h = Some (x, d) -> (Z.to_nat (h_Number x) < fuel)%nat ->
  ReadCanonicalHash (chainDb hc) 0 = root -> downward T (ReadCanonicalHash (chainDb hc)) (h_Number x) ->
  exists hc', overwrite fuel h (h_Number x) (Some x) hc = Ok hc' /\ stored T hc' /\
    genesisHeader hc' = genesisHeader hc /\ currentHeader hc' = currentHeader hc /\ currentHeaderHash hc' = currentHeaderHash hc /\
    forall n, is_u64 n -> ReadCanonicalHash (chainDb hc') n = if n <=? h_Number x then hashAt T h (h_Number x) n else ReadCanonicalHash (chainDb hc) n.
Proof using hash_len.
  intros Hok. induction fuel as [|fuel IH]; intros hc h x d Hs E Hf Hr Hd; [lia|]. cbn [overwrite]. pose proof (entry_number _ _ _ Hok _ _ _ E) as HN.
  pose proof (entry_u64 _ _ _ Hok _ _ _ E) as H64.
  destruct (decide (ReadCanonicalHash (chainDb hc) (h_Number x) = h)) as [Eh|Eh].
  - rewrite bool_decide_eq_true_2 by done. exists hc. split_and!; [done..|]. intros n Hn. destruct (Z.leb_spec n (h_Number x)); [|done].
    destruct (Hd (h_Number x) x d) as [_ Hdn]; [lia|by rewrite Eh|]. rewrite Hdn by (unfold is_u64 in Hn; lia). by rewrite Eh.
  - rewrite bool_decide_eq_false_2 by done. destruct (decide (h_Number x = 0)) as [E0|N0]; [exfalso; apply Eh; rewrite E0, Hr; by rewrite (entry_base _ _ _ Hok _ _ _ E)|].
    destruct (entry_parent _ _ _ Hok _ _ _ E) as (p & dp & Hp & En); [lia|]. cbn.
    pose proof (entry_u64 _ _ _ Hok _ _ _ Hp) as Hp64. rewrite (parent64_ok x p) by done.
    pose proof (stored_Put T hc (CanonicalKey (h_Number x)) h ltac:(done) ltac:(done) Hs) as Hs1. unfold WriteCanonicalHash.
    set (hc1 := with_db hc _) in *.
    destruct (GetHeader_ok T hc1 (h_ParentHash x) (h_Number p) Hs1) as (hc2 & -> & Hs2 & Hdb2 & Hg2 & Hc2 & Hh2).
    { apply parent_32, (e_storable _ _ _ _ _ _ (t_entry _ _ _ Hok _ _ _ E)). } { done. } { intros y d' Hy. by rewrite Hp in Hy; injection Hy as <- <-. }
    rewrite Hp. cbn [fmap option_fmap option_map fst].
    assert (forall n, is_u64 n -> ReadCanonicalHash (chainDb hc2) n = if decide (n = h_Number x) then h else ReadCanonicalHash (chainDb hc) n) as Hcn.
    { intros n Hn. rewrite Hdb2. unfold hc1. cbn [with_db chainDb]. rewrite ReadCanonicalHash_Put by done. destruct (decide (n = h_Number x)) as [->|Hne].
      - rewrite decide_True by done. apply hashOr_id. rewrite <- (e_hash _ _ _ _ _ _ (t_entry _ _ _ Hok _ _ _ E)). by apply Header_Hash_32.
      - by rewrite decide_False by congruence. }
    destruct (IH hc2 (h_ParentHash x) p dp Hs2 Hp) as (hc' & -> & Hs' & Hg' & Hc' & Hh' & Hcan'); [lia| | |].
    + rewrite Hcn, decide_False by (done || lia). done.
    + intros m y dy Hm. rewrite Hcn, decide_False by (unfold is_u64; lia). intros Hy. destruct (Hd m y dy) as [Hy1 Hy2]; [lia|done|]. split; [done|]. intros n Hn. rewrite Hcn, decide_False by (unfold is_u64; lia). auto.
    + exists hc'. rewrite Hg', Hc', Hh'. split_and!; [done..|]. intros n Hn. rewrite Hcan' by done.
      destruct (Z.leb_spec n (h_Number p)), (Z.leb_spec n (h_Number x)); try lia.
      * rewrite (hashAt_parent T h x d) by (done || unfold is_u64 in Hn; lia). by replace (h_Number x - 1) with (h_Number p) by lia.
      * rewrite Hcn by done. assert (n = h_Number x) as -> by lia. rewrite decide_True by done. by rewrite (hashAt_top T h x d).
      * rewrite Hcn by done. by rewrite decide_False by lia.
Qed.
Lemma downward_chain T root h x d canon top : tree_ok sha T root -> T !! h = Some (x, d) -> (forall n, 0 <= n <= top -> canon n = hashAt T h (h_Number x) n) -> downward T canon top.
Proof.
  intros Hok E Hc m y dy Hm Hy. destruct (decide (m <= h_Number x)) as [Hle|Hgt].
  - destruct (hashAt_ok _ _ _ Hok _ _ _ m E) as (x' & d' & E' & En & _); [lia|]. rewrite Hc, E' in Hy by lia. injection Hy as -> ->. split; [done|].
    intros n Hn. rewrite !Hc by lia. by rewrite (hashAt_member _ _ _ Hok _ _ _ _ _ E).
  - exfalso. rewrite Hc, hashAt_above in Hy by lia. by destruct (e_zero _ _ _ _ _ _ (t_entry _ _ _ Hok _ _ _ Hy)).
Qed.

Lemma setHeadHeader_ok T root fuel hc h y dy x d p dp : tree_ok sha T root -> stored T hc -> T !! h = Some (y, dy) ->
  (forall n, is_u64 n -> ReadCanonicalHash (chainDb hc) n = hashAt T h (h_Number y) n) ->
  T !! hashOf x = Some (x, d) -> T !! h_ParentHash x = Some (p, dp) -> h_Number x = h_Number p + 1 ->
  (Z.to_nat (h_Number y) < fuel)%nat -> (Z.to_nat (h_Number x) < fuel)%nat ->
  exists hc', setHeadHeader sha fuel x hc = Ok hc' /\ stored T hc' /\ genesisHeader hc' = genesisHeader hc /\ currentHeader hc' = x /\ currentHeaderHash hc' = hashOf x /\
    forall n, is_u64 n -> ReadCanonicalHash (chainDb hc') n = hashAt T (hashOf x) (h_Number x) n.
Proof using hash_len.
  intros Hok Hs Hh Hcan Hx Hp En Hf1 Hf2. pose proof (entry_number _ _ _ Hok _ _ _ Hh) as Ny. pose proof (entry_number _ _ _ Hok _ _ _ Hp) as Np.
  pose proof (entry_number _ _ _ Hok _ _ _ Hx) as Nx. pose proof (entry_u64 _ _ _ Hok _ _ _ Hx) as H64. pose proof (entry_u64 _ _ _ Hok _ _ _ Hp) as Hp64.
  pose proof (e_storable _ _ _ _ _ _ (t_entry _ _ _ Hok _ _ _ Hx)) as Hst.
  unfold setHeadHeader, number64. rewrite (parent64_ok x p), (u64_small (h_Number x)), u64_small by (done || unfold is_u64; lia).
  destruct (deleteAbove_ok T (h_Number y) fuel (h_Number x + 1) (chainDb hc)) as (db & -> & Hdb & Hc1); [lia..|apply Hs| |].
  { intros n Hn Hin. rewrite Hcan by done. split; [|apply hashAt_above]. intros E. apply Z.nle_gt. intros Hle.
    destruct (hashAt_ok _ _ _ Hok _ _ _ n Hh) as (? & ? & _ & _ & Hne); [unfold is_u64 in Hn; lia|done]. }
  cbn [outcome_bind]. assert (stored T (with_db hc db)) as Hs1 by by apply stored_db.
  destruct (GetHeader_ok T (with_db hc db) (h_ParentHash x) (h_Number p) Hs1) as (hc2 & -> & Hs2 & Hdb2 & Hg2 & _); [by apply parent_32|done| |].
  { intros z dz Hz. rewrite Hp in Hz. by injection Hz as <- <-. }
  rewrite Hp. cbn [fmap option_fmap option_map fst].
  assert (forall n, 0 <= n <= h_Number x -> ReadCanonicalHash (chainDb hc2) n = hashAt T h (h_Number y) n) as Hc2.
  { intros n Hn. rewrite Hdb2. cbn [with_db chainDb]. rewrite Hc1, (proj2 (Z.leb_gt _ _)) by (unfold is_u64; lia). apply Hcan. unfold is_u64; lia. }
  destruct (overwrite_ok T root fuel Hok hc2 _ _ _ Hs2 Hp) as (hc3 & -> & Hs3 & Hg3 & _ & _ & Hc3); [lia| | |].
  { rewrite Hc2 by lia. by rewrite (hashAt_base _ _ _ Hok _ _ _ Hh). } { apply (downward_chain _ _ _ _ _ _ _ Hok Hh). intros n Hn. apply Hc2. lia. }
  cbn [outcome_bind]. eexists. split; [done|]. split_and!; [|by cbn; rewrite Hg3, Hg2|done|done|].
  - apply stored_current, stored_db; [done|]. apply db_holds_Put; [done..|]. apply db_holds_Put; [done..|]. apply Hs3.
  - intros n Hn. cbn [with_current with_db chainDb]. unfold WriteHeadHeaderHash, WriteCanonicalHash. rewrite ReadCanonicalHash_Put, decide_False, ReadCanonicalHash_Put by done.
    destruct (decide (n = h_Number x)) as [->|Hne].
    { rewrite decide_True, (hashAt_top T _ x d) by done. by apply hashOr_id, Header_Hash_32. }
    rewrite decide_False, Hc3 by congruence. destruct (Z.leb_spec n (h_Number p)).
    + rewrite (hashAt_parent T _ x d) by (done || unfold is_u64 in Hn; lia). by replace (h_Number x - 1) with (h_Number p) by lia.
    + rewrite hashAt_above by lia. rewrite Hdb2. cbn [with_db chainDb]. rewrite Hc1, (proj2 (Z.leb_le _ _)) by (done || lia). done.
Qed.

(** ** Writing a header refines the growth of the tree *)

(** Enough for both loops: they go over the heights of the two heads. *)
Definition enough (fuel : nat) (hc : HeaderChain) (x : Header) : Prop := (Z.to_nat (h_Number (currentHeader hc)) < fuel)%nat /\ (Z.to_nat (h_Number x) < fuel)%nat.

Lemma chain_ok_same T hc hc' : chain_ok sha T hc -> same_chain hc hc' -> stored T hc' -> chain_ok sha T hc'.
Proof. intros [H1 H2 H3 H4] (E1 & E2 & E3 & E4) Hs. split; [by rewrite E2|done|by rewrite E4, E3|]. intros n Hn. rewrite E1, E3, E4. auto. Qed.

(** The caches learn the new header at the end. *)
Definition noted (hc : HeaderChain) (x : Header) : HeaderChain :=
  with_numberCache (with_headerCache hc (lru_Add (hashOf x) x (headerCache hc))) (lru_Add (hashOf x) (h_Number x) (numberCache hc)).
Lemma stored_noted T hc x d : stored T hc -> T !! hashOf x = Some (x, d) -> stored T (noted hc x).
Proof. intros [H1 H2 H3 H4] E. split; cbn; [done| |done|]; apply Add_coherent; (done || by rewrite E). Qed.

Lemma hc_WriteHeader_unknown T fuel coin x hc : chain_ok sha T hc -> admissible sha T x -> T !! h_ParentHash x = None ->
  exists hc', hc_WriteHeader sha fuel coin x hc = Ok (hc', inl ErrUnknownParent) /\ chain_ok sha T hc' /\ same_chain hc hc'.
Proof.
  intros Hc Ha Hp. unfold hc_WriteHeader. destruct (GetTd_ok T hc (h_ParentHash x) (u64 (number64 x - 1)) (c_stored _ _ _ Hc)) as (hc' & -> & Hs & Hsame).
  { apply parent_32, Ha. } { apply u64_range. } { intros y d Hy. by rewrite Hp in Hy. }
  rewrite Hp. exists hc'. split; [done|]. split; [|done]. by apply (chain_ok_same T hc).
Qed.

Lemma current_entry T hc : chain_ok sha T hc -> T !! currentHeaderHash hc = Some (currentHeader hc, tdOf T (currentHeaderHash hc)).
Proof. intros Hc. pose proof (c_head _ _ _ Hc) as H. unfold tdOf. destruct (T !! currentHeaderHash hc) as [[y dy]|]; [|done]. by injection H as ->. Qed.

Lemma hc_WriteHeader_ok T fuel coin x p dp hc : chain_ok sha T hc -> admissible sha T x -> enough fuel hc x -> T !! h_ParentHash x = Some (p, dp) ->
  let w := wins (tdOf T (currentHeaderHash hc)) (h_Difficulty x + dp) coin in
  exists hc', hc_WriteHeader sha fuel coin x hc = Ok (hc', inr (if w then CanonStatTy else SideStatTy)) /\ chain_ok sha (grown sha T x dp) hc' /\ genesisHeader hc' = genesisHeader hc /\
    currentHeaderHash hc' = (if w then hashOf x else currentHeaderHash hc) /\ currentHeader hc' = (if w then x else currentHeader hc).
Proof using hash_len.
  intros Hc Ha [Hf1 Hf2] Hp w. pose proof (c_tree _ _ _ Hc) as Hok. pose proof (current_entry _ _ Hc) as Hcur. destruct (a_parent _ _ _ Ha _ _ Hp) as (En & _).
  destruct (a_storable _ _ _ Ha) as (_ & H64 & _). pose proof (entry_u64 _ _ _ Hok _ _ _ Hp) as Hp64. pose proof (entry_u64 _ _ _ Hok _ _ _ Hcur) as Hc64.
  unfold hc_WriteHeader. change (u64 (number64 x - 1)) with (parent64 x). rewrite (parent64_ok x p) by done. unfold number64.
  destruct (GetTd_ok T hc (h_ParentHash x) (h_Number p) (c_stored _ _ _ Hc)) as (hc1 & -> & Hs1 & Hsame1); [apply parent_32, Ha|done| |].
  { intros y d Hy. rewrite Hp in Hy. by injection Hy as <- <-. }
  pose proof (chain_ok_same _ _ _ Hc Hsame1 Hs1) as Hc1. destruct Hsame1 as (Edb1 & Eg1 & Ec1 & Eh1). rewrite Hp, Ec1, Eh1, !(u64_small (h_Number _)) by done. cbn [fmap option_fmap option_map snd].
  destruct (GetTd_ok T hc1 (currentHeaderHash hc) (h_Number (currentHeader hc)) Hs1) as (hc2 & -> & Hs2 & Hsame2); [|done| |].
  { rewrite <- (e_hash _ _ _ _ _ _ (t_entry _ _ _ Hok _ _ _ Hcur)). by apply Header_Hash_32. } { intros y d Hy. rewrite Hcur in Hy. by injection Hy as <- <-. }
  destruct Hsame2 as (Edb2 & Eg2 & Ec2 & Eh2). rewrite Hcur. cbn [fmap option_fmap option_map snd].
  destruct (stored_grown T _ x p dp hc2 Hok Ha Hp Hs2) as (hc3 & db & -> & E3 & Hs3 & Eg3 & Ec3 & Eh3 & Hcan3). cbn [outcome_bind]. rewrite E3. cbn [outcome_bind must].
  pose proof (tree_grown _ _ _ _ _ Hok Ha Hp) as Hok'. pose proof (grown_sub _ _ _ _ _ Hok Ha Hp) as HS. set (T' := grown sha T x dp) in *.
  assert (T' !! hashOf x = Some (x, h_Difficulty x + dp)) as Hx by (unfold T', grown; by rewrite lookup_insert_eq).
  assert (forall n, is_u64 n -> ReadCanonicalHash db n = hashAt T' (currentHeaderHash hc) (h_Number (currentHeader hc)) n) as Hcan.
  { intros n Hn. rewrite Hcan3, Edb2, Edb1, (c_canon _ _ _ Hc) by done. symmetry. apply (hashAt_mono _ _ _ Hok _ _ _ _ _ HS Hcur). apply Hn. }
  fold (wins (tdOf T (currentHeaderHash hc)) (h_Difficulty x + dp) coin). fold w. destruct w.
  - destruct (setHeadHeader_ok T' _ fuel (with_db hc3 db) _ _ _ x _ p dp Hok' Hs3 (lookup_weaken _ _ _ _ Hcur HS) Hcan Hx (lookup_weaken _ _ _ _ Hp HS) En Hf1 Hf2) as (hc' & -> & Hs' & Eg' & Ec' & Eh' & Hcan').
    cbn [outcome_bind]. exists (noted hc' x). split; [done|]. split; [|by cbn; rewrite Eg'; cbn; rewrite Eg3, Eg2, Eg1].
    split; cbn; [rewrite Eg'; cbn; by rewrite Eg3, Eg2, Eg1|by apply (stored_noted T' _ x (h_Difficulty x + dp))|by rewrite Eh', Ec', Hx|by rewrite Eh', Ec'].
  - cbn [outcome_bind]. exists (noted (with_db hc3 db) x). split; [done|]. split; [|by cbn; rewrite Eg3, Eg2, Eg1, Ec3, Ec2, Ec1, Eh3, Eh2, Eh1].
    split; cbn; [by rewrite Eg3, Eg2, Eg1|by apply (stored_noted T' _ x (h_Difficulty x + dp))|rewrite Eh3, Eh2, Eh1, Ec3, Ec2, Ec1; by rewrite (lookup_weaken _ _ _ _ Hcur HS)|by rewrite Eh3, Eh2, Eh1, Ec3, Ec2, Ec1].
Qed.

(** C13. Writing a header does to the tree of known headers what the specification says: a header
    without known parent is refused and nothing changes; any other joins the tree with the
    total difficulty of its parent plus its own, and becomes the head exactly when that is more than
    the head has, or as much and the coin says so.  Afterwards the database and the caches hold
    the new tree, and the canonical hash of every number is the ancestor of the head at that
    height, none above it.  The loops end, and no read of a missing parent panics. *)
Theorem header_write_refines T fuel coin x hc : chain_ok sha T hc -> admissible sha T x -> enough fuel hc x ->
  let '(T', head, r) := receive sha T (currentHeaderHash hc) coin x in
  exists hc', hc_WriteHeader sha fuel coin x hc = Ok (hc', r) /\ chain_ok sha T' hc' /\ currentHeaderHash hc' = head /\ genesisHeader hc' = genesisHeader hc.
Proof using hash_len.
  intros Hc Ha Hf. unfold receive. destruct (T !! h_ParentHash x) as [[p dp]|] eqn:Hp.
  - destruct (hc_WriteHeader_ok T fuel coin x p dp hc Hc Ha Hf Hp) as (hc' & E & Hc' & Eg & Eh & _). by destruct (wins _ _ _); exists hc'.
  - destruct (hc_WriteHeader_unknown T fuel coin x hc Hc Ha Hp) as (hc' & E & Hc' & _ & Eg & _ & Eh). by exists hc'.
Qed.

(** A total difficulty of at most 320 bits can be stored. *)
Lemma td_fits d : 0 <= d < 2 ^ 320 -> forall b, rlp_spec (RBigIntPtr (Some d)) = Ok b -> zlen b < 2 ^ 64.
Proof.
  intros Hd b. cbn. unfold rlp_big. rewrite (proj2 (Z.ltb_ge _ _)) by lia. intros [= <-]. pose proof (proj1 (byte_len_bits d 40 ltac:(lia)) Hd) as [_ Hl].
  pose proof (rlp_string_len (big_bytes d)). lia.
Qed.
End keeping.

(** * Importing chains *)

Section importing.
Context (sha : bytes -> bytes) (hash_len : forall b, length (sha b) = 32%nat).
(** The headers there are: different ones have different hashes. *)
Context (P : Header -> Prop) (fuel : nat).
Record world : Prop := {
  w_inj : forall x y, P x -> P y -> Header_Hash sha x = Header_Hash sha y -> x = y;
  w_storable : forall x, P x -> storable_header x;
  w_zero : forall x, P x -> Header_Hash sha x <> zeroHash;
  w_difficulty : forall x, P x -> h_Difficulty x < 2 ^ 256;
  w_fuel : forall x, P x -> h_Number x < 2 ^ 64 - 1 /\ (Z.to_nat (h_Number x) < fuel)%nat }.
Context (Hw : world).
Abbreviation hashOf := (Header_Hash sha).

(** What holds of a chain at all times: no known header is heavier than the head. *)
Record sound (T : Tree) (hc : HeaderChain) : Prop := {
  so_chain : chain_ok sha T hc;
  so_world : forall h x d, T !! h = Some (x, d) -> P x /\ 0 <= d < (h_Number x + 1) * 2 ^ 256;
  so_genesis : P (genesisHeader hc);
  so_heaviest : forall h, tdOf T h <= tdOf T (currentHeaderHash hc) }.

Lemma sound_own T hc x y d : sound T hc -> P x -> T !! hashOf x = Some (y, d) -> y = x.
Proof using Hw. intros Hs Hx E. apply (w_inj Hw); [by apply (so_world _ _ Hs _ _ _ E)|done|]. apply (e_hash _ _ _ _ _ _ (t_entry _ _ _ (c_tree _ _ _ (so_chain _ _ Hs)) _ _ _ E)). Qed.

(** A header that follows one of the tree is admissible. *)
Lemma follows_admissible T hc prev d x : sound T hc -> P x -> T !! hashOf prev = Some (prev, d) -> h_ParentHash x = hashOf prev -> h_Number x = h_Number prev + 1 -> admissible sha T x.
Proof using Hw.
  intros Hs Hx Hp Eh En. split; [by apply (w_storable Hw)|by apply (w_zero Hw)|by apply (w_fuel Hw)|intros y dy; by apply (sound_own T hc)|].
  intros p dp. rewrite Eh, Hp. intros [= <- <-]. split; [done|]. destruct (so_world _ _ Hs _ _ _ Hp) as [Hpp Hd]. destruct (w_storable Hw x Hx) as (Hh & _). destruct (ho_big _ Hh) as (H0 & _).
  pose proof (w_difficulty Hw x Hx) as H1. pose proof (w_fuel Hw _ Hx) as [H2 _]. split; [lia|]. apply td_fits. nia.
Qed.

Lemma sound_grows T hc hc' coin x prev d : sound T hc -> P x -> T !! hashOf prev = Some (prev, d) -> h_ParentHash x = hashOf prev -> h_Number x = h_Number prev + 1 ->
  let w := wins (tdOf T (currentHeaderHash hc)) (h_Difficulty x + d) coin in
  chain_ok sha (grown sha T x d) hc' -> genesisHeader hc' = genesisHeader hc -> currentHeaderHash hc' = (if w then hashOf x else currentHeaderHash hc) -> sound (grown sha T x d) hc'.
Proof using Hw.
  intros Hs Hx Hp Eh En w Hc' Eg Ehead. pose proof (follows_admissible T hc prev d x Hs Hx Hp Eh En) as Ha. pose proof (c_tree _ _ _ (so_chain _ _ Hs)) as Hok. rewrite <- Eh in Hp.
  pose proof (grown_sub sha T _ x prev d Hok Ha Hp) as HS. split; [done| |rewrite Eg; apply Hs|].
  - intros h y dy. unfold grown. rewrite lookup_insert_Some. intros [[<- [= <- <-]]|[_ E]]; [|by apply (so_world _ _ Hs h)]. split; [done|].
    destruct (so_world _ _ Hs _ _ _ Hp) as [_ Hd]. pose proof (w_difficulty Hw x Hx). destruct (w_storable Hw x Hx) as (Hh & _). destruct (ho_big _ Hh) as (H0 & _). nia.
  - assert (forall h, tdOf (grown sha T x d) h = if decide (h = hashOf x) then h_Difficulty x + d else tdOf T h) as Ht.
    { intros h. unfold tdOf, grown. destruct (decide (h = hashOf x)) as [->|]; [by rewrite lookup_insert_eq|by rewrite lookup_insert_ne]. }
    assert (tdOf (grown sha T x d) (currentHeaderHash hc) = tdOf T (currentHeaderHash hc)) as Hcur.
    { unfold tdOf. pose proof (current_entry sha T hc (so_chain _ _ Hs)) as E. by rewrite E, (lookup_weaken _ _ _ _ E HS). }
    assert (tdOf (grown sha T x d) (hashOf x) = h_Difficulty x + d) as Hnew by (rewrite Ht; by case_decide).
    intros h. rewrite Ehead, (Ht h). pose proof (so_heaviest _ _ Hs h) as Hh. unfold w, wins. destruct (Z.ltb_spec (tdOf T (currentHeaderHash hc)) (h_Difficulty x + d)); cbn.
    + rewrite Hnew. case_decide; lia.
    + destruct (Z.eqb_spec (h_Difficulty x + d) (tdOf T (currentHeaderHash hc))); cbn; [destruct coin|]; rewrite ?Hcur, ?Hnew; case_decide; lia.
Qed.

Lemma linked_next i prev x l : P prev -> P x -> linked sha i prev (x :: l) = None -> h_ParentHash x = hashOf prev /\ h_Number x = h_Number prev + 1 /\ linked sha (S i) x l = None.
Proof using Hw.
  intros Hp Hx. cbn [linked]. destruct (w_fuel Hw _ Hp) as [Lp _]. destruct (w_storable Hw _ Hp) as (_ & Up & _). destruct (w_storable Hw _ Hx) as (_ & Ux & _). unfold number64, is_u64 in *.
  rewrite !(u64_small (h_Number _)), u64_small by (unfold is_u64; lia). destruct (Z.eqb_spec (h_Number x) (h_Number prev + 1)); cbn; [|done].
  case_bool_decide; cbn; [|done]. done.
Qed.

(** A linked chain on top of a known header goes in, up to where the node is told to stop. *)
Lemma InsertHeaderChain_ok interrupted coins l : forall i k T hc prev d, sound T hc -> T !! hashOf prev = Some (prev, d) -> Forall P l -> linked sha k prev l = None -> (l <> [] \/ i <> O) ->
  exists hc' r T', InsertHeaderChain sha fuel interrupted coins i l hc = Ok (hc', r) /\ sound T' hc' /\ T ⊆ T' /\ genesisHeader hc' = genesisHeader hc /\
    ((forall j, interrupted j = false) -> r = (0%nat, None) /\ Forall (fun x => fst <$> T' !! hashOf x = Some x) l).
Proof using Hw hash_len.
  induction l as [|x l IH]; intros i k T hc prev d Hs Hp Hl Hk Hi.
  { destruct i; [by destruct Hi|]. exists hc, (0%nat, None), T. done. }
  cbn [InsertHeaderChain]. apply Forall_cons in Hl as [Hx Hl]. destruct (so_world _ _ Hs _ _ _ Hp) as [Hpp _]. destruct (linked_next _ _ _ _ Hpp Hx Hk) as (Eh & En & Hk').
  destruct (interrupted i) eqn:Ei. { exists hc, (i, Some ErrAborted), T. split_and!; [done..|]. intros Hj. by rewrite Hj in Ei. }
  pose proof (follows_admissible T hc prev d x Hs Hx Hp Eh En) as Ha. destruct (w_storable Hw _ Hx) as (_ & Ux & _).
  unfold number64. rewrite u64_small, (hc_HasHeader_ok T) by (done || apply Hs || (by apply Header_Hash_32) || (intros y dy Hy; by rewrite (sound_own T hc x y dy Hs Hx Hy))).
  destruct (T !! hashOf x) as [[y dy]|] eqn:E.
  - rewrite bool_decide_eq_true_2 by done. pose proof (sound_own T hc x y dy Hs Hx E) as ->.
    destruct (IH (S i) (S k) T hc x dy Hs E Hl Hk') as (hc' & r & T' & E' & Hs' & HS & Eg & Hall); [by right|]. exists hc', r, T'. split_and!; [done..|]. intros Hj.
    destruct (Hall Hj) as [-> Hf]. split; [done|]. constructor; [|done]. by rewrite (lookup_weaken _ _ _ _ E HS).
  - rewrite bool_decide_eq_false_2 by (by intros [? ?]).
    pose proof (current_entry sha T hc (so_chain _ _ Hs)) as Hcur. destruct (so_world _ _ Hs _ _ _ Hcur) as [Hpc _]. assert (T !! h_ParentHash x = Some (prev, d)) as Hpar by by rewrite Eh.
    destruct (hc_WriteHeader_ok sha hash_len T fuel (coins i) x prev d hc (so_chain _ _ Hs) Ha) as (hc1 & -> & Hc1 & Eg1 & Ehead & _); [split; by apply (w_fuel Hw)|done|]. cbn [outcome_bind].
    pose proof (sound_grows T hc hc1 (coins i) x prev d Hs Hx Hp Eh En Hc1 Eg1 Ehead) as Hs1. assert (grown sha T x d !! hashOf x = Some (x, h_Difficulty x + d)) as E1 by (unfold grown; by rewrite lookup_insert_eq).
    destruct (IH (S i) (S k) _ hc1 x _ Hs1 E1 Hl Hk') as (hc' & r & T' & E' & Hs' & HS & Eg & Hall); [by right|]. exists hc', r, T'. split_and!; [done|done| |congruence|].
    + etrans; [|done]. apply (grown_sub sha T _ x prev d (c_tree _ _ _ (so_chain _ _ Hs)) Ha Hpar).
    + intros Hj. destruct (Hall Hj) as [-> Hf]. split; [done|]. constructor; [|done]. by rewrite (lookup_weaken _ _ _ _ E1 HS).
Qed.

(** What validation says: the headers are linked, none is banned, and each passed. *)
Lemma awaitResults_ok interrupted bad results l : forall i, awaitResults sha interrupted bad results i l = (0%nat, None) ->
  forall j x, l !! j = Some x -> bad (hashOf x) = false /\ results (i + j)%nat = true.
Proof.
  induction l as [|x l IH]; intros i H j y; [done|]. cbn [awaitResults] in H. destruct (interrupted i); [done|]. destruct (bad (hashOf x)) eqn:Eb; [done|]. destruct (results i) eqn:Er; cbn in H; [|done].
  destruct j as [|j]; cbn; [intros [= <-]; by rewrite Nat.add_0_r|]. intros Hj. rewrite Nat.add_succ_r. by apply (IH (S i) H).
Qed.
Lemma length_chooseSeals rand f k : forall i seals, length (chooseSeals rand f k i seals) = length seals.
Proof. induction k as [|k IH]; intros i seals; [done|]. cbn [chooseSeals]. by rewrite IH, length_insert. Qed.
Lemma sealsOf_ok rand f n seals : sealsOf rand f n = Ok seals -> length seals = n /\ last seals = Some true.
Proof.
  unfold sealsOf. destruct f as [|f], n as [|n]; try done. set (s := chooseSeals _ _ _ _ _).
  assert (length s = S n) as Hl by (unfold s; by rewrite length_chooseSeals, length_replicate). clearbody s. intros E. injection E as <-.
  rewrite length_insert, Hl. split; [done|]. rewrite last_lookup, length_insert, Hl. replace (Init.Nat.pred (S n)) with (S n - 1)%nat by lia. apply list_lookup_insert_eq. rewrite Hl. lia.
Qed.
Lemma ValidateHeaderChain_ok rand interrupted bad verify f x l : ValidateHeaderChain sha rand interrupted bad verify f (x :: l) = Ok (0%nat, None) ->
  linked sha 1 x l = None /\ exists seals, length seals = length (x :: l) /\ last seals = Some true /\ forall i y, (x :: l) !! i = Some y -> bad (hashOf y) = false /\ verify (x :: l) seals i = true.
Proof.
  unfold ValidateHeaderChain. destruct (linked sha 1 x l) eqn:El; [by intros [=]|]. intros (seals & Es & H)%outcome_bind_ok. split; [done|]. destruct (sealsOf_ok _ _ _ _ Es) as [Hn Hlast].
  exists seals. split_and!; [done..|]. intros i y Hi. refine (awaitResults_ok interrupted bad (verify (x :: l) seals) (x :: l) 0 _ i y Hi). congruence.
Qed.

(** A chain of headers that was validated is imported whole: its headers are linked, none is
    banned, each passed the engine's check, the seal of the last one included; and when its first
    header follows one that is known, all of them are known afterwards, along with
    all that were, the head is not lighter than any of them, and no call panics. *)
Theorem validated_headers_imported T hc p d x l rand interrupted bad verify f coins : sound T hc -> T !! hashOf p = Some (p, d) -> h_ParentHash x = hashOf p -> h_Number x = h_Number p + 1 -> Forall P (x :: l) ->
  ValidateHeaderChain sha rand interrupted bad verify f (x :: l) = Ok (0%nat, None) ->
  (exists seals, length seals = length (x :: l) /\ last seals = Some true /\ forall i y, (x :: l) !! i = Some y -> bad (hashOf y) = false /\ verify (x :: l) seals i = true) /\
  exists hc' T', InsertHeaderChain sha fuel (fun _ => false) coins 0 (x :: l) hc = Ok (hc', (0%nat, None)) /\ sound T' hc' /\ T ⊆ T' /\
    Forall (fun y => fst <$> T' !! hashOf y = Some y /\ tdOf T' (hashOf y) <= tdOf T' (currentHeaderHash hc')) (x :: l).
Proof using Hw hash_len.
  intros Hs Hp Eh En Hl (Hlink & Hseals)%ValidateHeaderChain_ok. split; [done|]. destruct (so_world _ _ Hs _ _ _ Hp) as [Hpp _]. pose proof Hl as [Hx _]%Forall_cons.
  assert (linked sha 0 p (x :: l) = None) as Hk.
  { cbn [linked]. destruct (w_fuel Hw _ Hpp) as [Lp _]. destruct (w_storable Hw _ Hpp) as (_ & Up & _). destruct (w_storable Hw _ Hx) as (_ & Ux & _). unfold number64, is_u64 in *.
    rewrite !(u64_small (h_Number _)), u64_small, En, Z.eqb_refl by (unfold is_u64; lia). by rewrite bool_decide_eq_true_2. }
  destruct (InsertHeaderChain_ok (fun _ => false) coins (x :: l) 0 0 T hc p d Hs Hp Hl Hk) as (hc' & r & T' & E & Hs' & HS & _ & Hall); [by left|].
  destruct (Hall (fun _ => eq_refl)) as [-> Hf]. exists hc', T'. split_and!; [done..|]. apply (Forall_impl _ _ _ Hf). intros y Hy. split; [done|]. apply (so_heaviest _ _ Hs').
Qed.

(** ** What a client sees *)

(** Of a chain that is sound: the headers by number up to the head form one chain, there is none
    above, and no header that can be looked up is heavier than the head. *)
Record canonical (hc : HeaderChain) : Prop := {
  k_head : (GetHeaderByNumber (h_Number (currentHeader hc)) hc).2 = Some (currentHeader hc);
  k_below : forall n, 0 <= n <= h_Number (currentHeader hc) -> exists x, (GetHeaderByNumber n hc).2 = Some x /\ h_Number x = n /\ (GetHeaderByHash (hashOf x) hc).2 = Some x;
  k_links : forall n x y, 0 <= n < h_Number (currentHeader hc) -> (GetHeaderByNumber n hc).2 = Some x -> (GetHeaderByNumber (n + 1) hc).2 = Some y -> h_ParentHash y = hashOf x;
  k_above : forall n, is_u64 n -> h_Number (currentHeader hc) < n -> (GetHeaderByNumber n hc).2 = None;
  k_root : (GetHeaderByNumber 0 hc).2 = Some (genesisHeader hc);
  k_heaviest : exists top, (GetTdByHash (hashOf (currentHeader hc)) hc).2 = Some top /\ forall x d, P x -> (GetTdByHash (hashOf x) hc).2 = Some d -> d <= top }.

Lemma GetHeaderByHash_ok T root hc h : tree_ok sha T root -> stored T hc -> is_hash32 h -> (GetHeaderByHash h hc).2 = fst <$> T !! h.
Proof.
  intros Hok Hs H32. unfold GetHeaderByHash. destruct (GetBlockNumber_ok T hc h Hs H32) as (hc1 & -> & Hs1 & _). destruct (T !! h) as [[x d]|] eqn:E; [|done]. cbn.
  destruct (GetHeader_ok T hc1 h (h_Number x) Hs1 H32) as (hc2 & -> & _); [by apply (entry_u64 _ _ _ Hok _ _ _ E)|intros y dy; rewrite E; by intros [= <- <-]|]. by rewrite E.
Qed.
Lemma GetTdByHash_ok T root hc h : tree_ok sha T root -> stored T hc -> is_hash32 h -> (GetTdByHash h hc).2 = snd <$> T !! h.
Proof.
  intros Hok Hs H32. unfold GetTdByHash. destruct (GetBlockNumber_ok T hc h Hs H32) as (hc1 & -> & Hs1 & _). destruct (T !! h) as [[x d]|] eqn:E; [|done]. cbn.
  destruct (GetTd_ok T hc1 h (h_Number x) Hs1 H32) as (hc2 & -> & _); [by apply (entry_u64 _ _ _ Hok _ _ _ E)|intros y dy; rewrite E; by intros [= <- <-]|]. by rewrite E.
Qed.
Lemma GetHeaderByNumber_ok T hc n : chain_ok sha T hc -> is_u64 n -> (GetHeaderByNumber n hc).2 =
  if n <=? h_Number (currentHeader hc) then fst <$> T !! hashAt T (currentHeaderHash hc) (h_Number (currentHeader hc)) n else None.
Proof using hash_len.
  intros Hc Hn. pose proof (c_tree _ _ _ Hc) as Hok. pose proof (current_entry sha T hc Hc) as Hcur. unfold GetHeaderByNumber. rewrite (c_canon _ _ _ Hc) by done. destruct (Z.leb_spec n (h_Number (currentHeader hc))).
  - destruct (hashAt_ok sha T _ Hok _ _ _ n Hcur) as (x & d & E & En & Hne); [unfold is_u64 in Hn; lia|]. rewrite bool_decide_eq_false_2 by done.
    destruct (GetHeader_ok T hc (hashAt T (currentHeaderHash hc) (h_Number (currentHeader hc)) n) n (c_stored _ _ _ Hc)) as (hc' & -> & _); [|done| |done].
    + rewrite <- (e_hash _ _ _ _ _ _ (t_entry _ _ _ Hok _ _ _ E)). by apply Header_Hash_32.
    + intros y dy. rewrite E. by intros [= <- <-].
  - rewrite hashAt_above by done. by rewrite bool_decide_eq_true_2.
Qed.

Lemma sound_canonical T hc : sound T hc -> canonical hc.
Proof using Hw hash_len.
  intros Hs. pose proof (so_chain _ _ Hs) as Hc. pose proof (c_tree _ _ _ Hc) as Hok. pose proof (current_entry sha T hc Hc) as Hcur. pose proof (entry_number _ _ _ Hok _ _ _ Hcur) as HN.
  pose proof (e_hash _ _ _ _ _ _ (t_entry _ _ _ Hok _ _ _ Hcur)) as Hh. destruct (so_world _ _ Hs _ _ _ Hcur) as [Hpc _].
  assert (forall n, 0 <= n <= h_Number (currentHeader hc) -> exists x d, (GetHeaderByNumber n hc).2 = Some x /\ h_Number x = n /\ T !! hashOf x = Some (x, d) /\ hashAt T (currentHeaderHash hc) (h_Number (currentHeader hc)) n = hashOf x) as Hat.
  { intros n Hn. rewrite (GetHeaderByNumber_ok T) by (done || unfold is_u64; lia). rewrite (proj2 (Z.leb_le _ _)) by lia.
    destruct (hashAt_ok sha T _ Hok _ _ _ n Hcur) as (x & d & E & En & Hne); [lia|]. rewrite E. exists x, d. pose proof (e_hash _ _ _ _ _ _ (t_entry _ _ _ Hok _ _ _ E)) as Ex. by rewrite Ex. }
  split.
  - rewrite (GetHeaderByNumber_ok T) by (done || unfold is_u64; lia). rewrite Z.leb_refl, (hashAt_top T _ _ _ Hcur). exact (c_head _ _ _ Hc).
  - intros n Hn. destruct (Hat n Hn) as (x & d & E & En & ET & _). exists x. split_and!; [done..|]. rewrite (GetHeaderByHash_ok T _ hc _ Hok (c_stored _ _ _ Hc)) by by apply Header_Hash_32. by rewrite ET.
  - intros n x y Hn. destruct (Hat n) as (x' & d & -> & En & ET & EA); [lia|]. intros [= ->]. destruct (Hat (n + 1)) as (y' & d' & -> & En' & ET' & EA'); [lia|]. intros [= ->].
    rewrite <- EA, <- (hashAt_member sha T _ Hok _ _ _ (n + 1) n Hcur), EA' by lia. rewrite <- En' at 1. rewrite (hashAt_parent T _ y d' n ET') by lia. replace (h_Number y - 1) with n by lia.
    unfold hashAt. by rewrite Z.leb_refl, Z.sub_diag.
  - intros n Hn Hgt. rewrite (GetHeaderByNumber_ok T), (proj2 (Z.leb_gt _ _)) by (done || lia). done.
  - destruct (Hat 0) as (x & d & -> & En & ET & EA); [lia|]. f_equal. destruct (so_world _ _ Hs _ _ _ ET) as [Hx _]. apply (w_inj Hw); [done|apply Hs|].
    rewrite <- EA. apply (hashAt_base sha T _ Hok _ _ _ Hcur).
  - exists (tdOf T (currentHeaderHash hc)). rewrite (GetTdByHash_ok T _ hc _ Hok (c_stored _ _ _ Hc)) by by apply Header_Hash_32. rewrite Hh, Hcur. split; [done|].
    intros x d Hx. rewrite (GetTdByHash_ok T _ hc _ Hok (c_stored _ _ _ Hc)) by by apply Header_Hash_32. intros E. pose proof (so_heaviest _ _ Hs (hashOf x)) as Hle. unfold tdOf at 1 in Hle. by rewrite E in Hle.
Qed.
End importing.

(** * Rewinding the head *)

Section rewinding.
Context (sha : bytes -> bytes) (hash_len : forall b, length (sha b) = 32%nat).
Abbreviation hashOf := (Header_Hash sha).

(** What is done for each header that goes touches neither headers nor numbers. *)
Definition quiet (delFn : bytes -> Z -> KV -> KV) : Prop := forall h n T db, is_hash32 h -> is_u64 n -> db_holds T db ->
  db_holds T (delFn h n db) /\ forall m, is_u64 m -> ReadCanonicalHash (delFn h n db) m = ReadCanonicalHash db m.

Lemma DeleteBody_quiet : quiet DeleteBody.
Proof. intros h n T db H32 H64 Hdb. split; [by apply db_holds_Delete|]. intros m Hm. unfold DeleteBody. by rewrite ReadCanonicalHash_Delete, decide_False. Qed.

Lemma db_removed T x d db : storable_header x -> T !! hashOf x = Some (x, d) -> db_holds T db ->
  let db' := DeleteTd (hashOf x) (h_Number x) (DeleteHeader (hashOf x) (h_Number x) db) in
  db_holds (base.delete (hashOf x) T) db' /\ forall m, is_u64 m -> ReadCanonicalHash db' m = ReadCanonicalHash db m.
Proof using hash_len.
  intros (_ & H64 & _) E [Hn Hh Ht Hs] db'. pose proof (Header_Hash_32 sha hash_len x) as H32. unfold db', DeleteTd, DeleteHeader.
  assert (forall (A : Type) (f : Header * Z -> A) h n, at_number (base.delete (hashOf x) T) f h n = if decide (hashOf x = h /\ h_Number x = n) then None else at_number T f h n) as Ha.
  { intros A f h n. unfold at_number. destruct (decide (hashOf x = h)) as [<-|Hne].
    - rewrite lookup_delete_eq, E. cbn. destruct (Z.eqb_spec (h_Number x) n) as [<-|]; [by rewrite decide_True|by rewrite decide_False by tauto].
    - by rewrite lookup_delete_ne, decide_False by tauto. }
  split; [|intros m Hm; by rewrite !ReadCanonicalHash_Delete, !decide_False]. split.
  - intros h Hh32. rewrite ReadHeaderNumber_Delete, decide_False, ReadHeaderNumber_Delete by done. destruct (decide (hashOf x = h)) as [<-|Hne].
    + by rewrite decide_True, lookup_delete_eq.
    + by rewrite decide_False, ReadHeaderNumber_Delete, decide_False, lookup_delete_ne, Hn by (done || congruence).
  - intros h n Hh32 Hn64. rewrite Ha, ReadHeader_Delete, decide_False, ReadHeader_Delete, decide_False, ReadHeader_Delete by done. destruct (decide (hashOf x = h /\ h_Number x = n)) as [[<- <-]|Hne].
    + by rewrite decide_True.
    + rewrite decide_False by (intros [= <- <-]; by apply Hne). auto.
  - intros h n Hh32 Hn64. rewrite Ha, ReadTd_Delete by done. destruct (decide (hashOf x = h /\ h_Number x = n)) as [[<- <-]|Hne].
    + by rewrite decide_True.
    + rewrite decide_False, !ReadTd_Delete, !decide_False by (done || intros [= <- <-]; by apply Hne). auto.
  - intros h n Hh32 Hn64. unfold HasHeader in *. rewrite Ha, Has_Delete, decide_False, Has_Delete, decide_False, Has_Delete by done. destruct (decide (hashOf x = h /\ h_Number x = n)) as [[<- <-]|Hne].
    + by rewrite decide_True.
    + rewrite decide_False by (intros [= <- <-]; by apply Hne). auto.
Qed.

Context (T : Tree) (root : bytes) (Hok : tree_ok sha T root) (delFn : bytes -> Z -> KV -> KV) (Hq : quiet delFn).

(** The tree without what was above height [m] on the chain that ends with [h]. *)
Definition without_top (S' S : Tree) (h : bytes) (top m : Z) : Prop :=
  (forall n, m < n <= top -> S' !! hashAt T h top n = None) /\ forall h', (forall n, m < n <= top -> h' <> hashAt T h top n) -> S' !! h' = S !! h'.

Lemma rewind_ok head fuel : 0 <= head -> forall hc S x d, T !! hashOf x = Some (x, d) -> (Z.to_nat (h_Number x) < fuel)%nat -> db_holds S (chainDb hc) -> coherent (fun h => fst <$> T !! h) (headerCache hc) ->
  (forall n, 0 <= n <= h_Number x -> S !! hashAt T (hashOf x) (h_Number x) n = T !! hashAt T (hashOf x) (h_Number x) n) ->
  let m := Z.min head (h_Number x) in
  exists hc' y dy S', rewind sha fuel head delFn x hc = Ok (hc', Some y) /\ T !! hashAt T (hashOf x) (h_Number x) m = Some (y, dy) /\ db_holds S' (chainDb hc') /\ without_top S' S (hashOf x) (h_Number x) m /\
    genesisHeader hc' = genesisHeader hc /\ forall n, is_u64 n -> ReadCanonicalHash (chainDb hc') n = ReadCanonicalHash (chainDb hc) n.
Proof using Hok Hq hash_len.
  intros Hhead. induction fuel as [|fuel IH]; intros hc S x d E Hf Hdb Hcc Hin m; [lia|]. pose proof (entry_number _ _ _ Hok _ _ _ E) as HN. pose proof (entry_u64 _ _ _ Hok _ _ _ E) as H64.
  cbn [rewind]. unfold number64. rewrite u64_small by done. destruct (Z.ltb_spec head (h_Number x)) as [Hlt|Hge]; cbn [negb].
  2:{ exists hc, x, d, S. unfold m. rewrite Z.min_r, (hashAt_top T _ _ _ E) by done. split_and!; [done..| |done|done]. split; [intros; lia|done]. }
  destruct (entry_parent _ _ _ Hok _ _ _ E) as (p & dp & Hp & En); [lia|]. pose proof (entry_u64 _ _ _ Hok _ _ _ Hp) as Hp64. rewrite (parent64_ok x p) by done.
  pose proof (e_hash _ _ _ _ _ _ (t_entry _ _ _ Hok _ _ _ Hp)) as Ehp. destruct (Hq (hashOf x) (h_Number x) S (chainDb hc)) as [Hdb1 Hcn1]; [by apply Header_Hash_32|done..|].
  assert (S !! hashOf x = Some (x, d)) as ES by (specialize (Hin (h_Number x) ltac:(lia)); rewrite (hashAt_top T _ _ _ E) in Hin; by rewrite Hin).
  destruct (db_removed S x d _ (e_storable _ _ _ _ _ _ (t_entry _ _ _ Hok _ _ _ E)) ES Hdb1) as [Hdb2 Hcn2]. set (db2 := DeleteTd _ _ _) in *.
  assert (hashOf x <> h_ParentHash x) as Hne by (intros Heq; rewrite <- Heq, E in Hp; injection Hp as <- _; lia).
  assert (forall n, 0 <= n < h_Number x -> hashAt T (hashOf x) (h_Number x) n <> hashOf x) as Hne'.
  { intros n Hn Heq. destruct (hashAt_ok _ _ _ Hok _ _ _ n E) as (z & dz & Ez & Enz & _); [lia|]. rewrite Heq, E in Ez. injection Ez as <- _. lia. }
  assert (forall n, 0 <= n < h_Number x -> hashAt T (hashOf x) (h_Number x) n = hashAt T (h_ParentHash x) (h_Number p) n) as Hpar.
  { intros n Hn. rewrite (hashAt_parent T _ x d n E) by lia. by replace (h_Number x - 1) with (h_Number p) by lia. }
  assert (ReadHeader db2 (h_ParentHash x) (h_Number p) = fst <$> T !! h_ParentHash x) as Hread.
  { rewrite (d_header _ _ Hdb2) by (done || rewrite <- Ehp; by apply Header_Hash_32). unfold at_number. rewrite lookup_delete_ne by done.
    specialize (Hin (h_Number p) ltac:(lia)). rewrite Hpar, (hashAt_top T _ _ _ Hp) in Hin by lia. rewrite Hin, Hp. cbn. by rewrite Z.eqb_refl. }
  unfold GetHeader. cbn [with_db headerCache chainDb]. rewrite Hread. destruct (cachedRead_ok (fun h => fst <$> T !! h) (headerCache hc) (h_ParentHash x) (fst <$> T !! h_ParentHash x) Hcc) as [Hcc' Hv]; [by left|].
  destruct (cachedRead _ _ _) as [c r]. cbn in Hcc', Hv. subst r. rewrite Hp. cbn [fmap option_fmap option_map fst]. rewrite <- Ehp in Hp, Hpar.
  destruct (IH (with_headerCache (with_db hc db2) c) (base.delete (hashOf x) S) p dp Hp) as (hc' & y & dy & S' & E' & Hy & Hdb' & [Hw1 Hw2] & Hg' & Hc'); [lia|done|done| |].
  { intros n Hn. rewrite <- Hpar by lia. rewrite lookup_delete_ne by (intros Heq; by apply (Hne' n ltac:(lia))). apply Hin. lia. }
  assert (m = head) as -> by (unfold m; lia). rewrite (Z.min_l head (h_Number p)) in Hy, Hw1, Hw2 by lia. exists hc', y, dy, S'. split_and!; [done|by rewrite Hpar by lia|done| |done|].
  - split.
    + intros n Hn. destruct (decide (n = h_Number x)) as [->|Hnn]; [|rewrite Hpar by lia; apply Hw1; lia]. rewrite (hashAt_top T _ _ _ E), Hw2, lookup_delete_eq; [done|].
      intros n Hn'. rewrite <- Hpar by lia. intros Heq. by apply (Hne' n ltac:(lia)).
    + intros h' Hh'. rewrite Hw2, lookup_delete_ne; [done| |].
      * intros Heq. apply (Hh' (h_Number x) ltac:(lia)). by rewrite (hashAt_top T _ _ _ E).
      * intros n Hn Heq. apply (Hh' n ltac:(lia)). by rewrite Hpar by lia.
  - intros n Hn. rewrite Hc' by done. cbn [with_headerCache with_db chainDb]. by rewrite Hcn2, Hcn1.
Qed.

Lemma unnumber_ok U k : forall height db, 0 <= height - Z.of_nat k -> height < 2 ^ 64 -> db_holds U db ->
  db_holds U (unnumber k height db) /\ forall n, is_u64 n -> ReadCanonicalHash (unnumber k height db) n = if (height - Z.of_nat k <? n) && (n <=? height) then zeroHash else ReadCanonicalHash db n.
Proof.
  induction k as [|k IH]; intros height db Hk Hh Hdb; cbn [unnumber].
  - split; [done|]. intros n Hn. by destruct (Z.ltb_spec (height - Z.of_nat 0) n), (Z.leb_spec n height); try lia.
  - assert (is_u64 height) as H64 by (unfold is_u64; lia). destruct (IH (height - 1) (DeleteCanonicalHash height db)) as [H1 H2]; [lia..|by apply db_holds_Delete|]. split; [done|]. intros n Hn.
    rewrite H2 by done. unfold DeleteCanonicalHash. rewrite ReadCanonicalHash_Delete by done. replace (height - 1 - Z.of_nat k) with (height - Z.of_nat (S k)) by lia.
    destruct (Z.ltb_spec (height - Z.of_nat (S k)) n), (Z.leb_spec n (height - 1)), (Z.leb_spec n height); cbn; try lia; try done;
      try (rewrite decide_False by (intros [= ->]; lia); done). rewrite decide_True; [done|f_equal; lia].
Qed.
End rewinding.

Section set_head.
Context (sha : bytes -> bytes) (hash_len : forall b, length (sha b) = 32%nat) (delFn : bytes -> Z -> KV -> KV) (Hq : quiet delFn).
Abbreviation hashOf := (Header_Hash sha).

(** Rewinding moves the head to its ancestor at the given height, or leaves it where it is when
    it is not above that.  The headers of the canonical chain above the new head are gone from the
    database and the caches, every other header stays, and the canonical numbers
    are those of the ancestors of the new head. *)
Theorem head_rewound T hc head fuel : chain_ok sha T hc -> 0 <= head -> (Z.to_nat (h_Number (currentHeader hc)) < fuel)%nat ->
  let h := currentHeaderHash hc in let top := h_Number (currentHeader hc) in let m := Z.min head top in
  exists hc' T', hc_SetHead sha fuel head delFn hc = Ok hc' /\ stored T' hc' /\ without_top T T' T h top m /\
    currentHeaderHash hc' = hashAt T h top m /\ fst <$> T !! hashAt T h top m = Some (currentHeader hc') /\ h_Number (currentHeader hc') = m /\
    forall n, is_u64 n -> ReadCanonicalHash (chainDb hc') n = if n <=? m then hashAt T h top n else zeroHash.
Proof using Hq hash_len.
  intros Hc Hhead Hf h top m. pose proof (c_tree _ _ _ Hc) as Hok. pose proof (current_entry _ _ _ Hc) as Hcur. pose proof (e_hash _ _ _ _ _ _ (t_entry _ _ _ Hok _ _ _ Hcur)) as Eh.
  pose proof (entry_number _ _ _ Hok _ _ _ Hcur) as HN. pose proof (entry_u64 _ _ _ Hok _ _ _ Hcur) as H64. fold top in HN, H64.
  unfold hc_SetHead, number64. rewrite u64_small by done. fold top.
  destruct (rewind_ok sha hash_len T _ Hok delFn Hq head fuel Hhead hc T (currentHeader hc) (tdOf T h)) as (hc1 & y & dy & T' & -> & Hy & Hdb1 & Hw & Hg1 & Hc1); [by rewrite Eh|done|apply Hc|apply Hc|done|].
  rewrite Eh in Hy, Hw. fold h top m in Hy, Hw. cbn [outcome_bind].
  destruct (hashAt_ok _ _ _ Hok _ _ _ m Hcur) as (y' & dy' & Hy' & Ny & _); [unfold m, top; lia|]. fold h top in Hy'. rewrite Hy in Hy'. injection Hy' as <- <-.
  destruct (unnumber_ok T' (Z.to_nat (top - head)) top (chainDb hc1)) as [Hdb2 Hc2]; [lia..|done|].
  pose proof (e_hash _ _ _ _ _ _ (t_entry _ _ _ Hok _ _ _ Hy)) as Ey. eexists _, T'. split; [done|]. split_and!; [|done|exact Ey|by rewrite Hy|done|].
  - split; [by apply (db_holds_Put T' HeadHeaderKey)|apply Purge_coherent..].
  - intros n Hn. cbn [with_db with_current with_numberCache with_tdCache with_headerCache chainDb]. unfold WriteHeadHeaderHash. rewrite ReadCanonicalHash_Put, decide_False, Hc2, Hc1, (c_canon _ _ _ Hc) by done.
    fold h top. destruct (Z.leb_spec n m); destruct (Z.ltb_spec (top - Z.of_nat (Z.to_nat (top - head))) n), (Z.leb_spec n top); cbn; try done; try (unfold m in *; lia). apply hashAt_above. lia.
Qed.

(** When no other known header is above the new head, every header still has its parent. *)
Lemma rewound_tree T T' root h x d m : tree_ok sha T root -> T !! h = Some (x, d) -> 0 <= m -> without_top T T' T h (h_Number x) m ->
  (forall k y dy, T !! k = Some (y, dy) -> m < h_Number y -> h_Number y <= h_Number x /\ k = hashAt T h (h_Number x) (h_Number y)) -> tree_ok sha T' root.
Proof.
  intros Hok E Hm [H1 H2] Hall. assert (forall k y dy, T' !! k = Some (y, dy) -> T !! k = Some (y, dy)) as Hback.
  { intros k y dy Hk. rewrite H2 in Hk; [done|]. intros n Hn ->. by rewrite H1 in Hk. }
  assert (forall k y dy, T !! k = Some (y, dy) -> h_Number y <= m -> T' !! k = Some (y, dy)) as Hkeep.
  { intros k y dy Hk Hle. rewrite H2; [done|]. intros n Hn ->. destruct (hashAt_ok _ _ _ Hok _ _ _ n E) as (z & dz & Ez & Nz & _); [lia|]. rewrite Hk in Ez. injection Ez as <- <-. lia. }
  split.
  - destruct (t_root _ _ _ Hok) as [[g dg] Hg]. exists (g, dg). apply Hkeep; [done|]. pose proof (entry_number _ _ _ Hok _ _ _ Hg).
    destruct (hashAt_ok _ _ _ Hok _ _ _ 0 Hg) as (z & dz & Ez & Nz & _); [lia|]. rewrite (hashAt_base _ _ _ Hok _ _ _ Hg), Hg in Ez. injection Ez as <- <-. lia.
  - intros k y dy Hk. pose proof (Hback _ _ _ Hk) as HTk. destruct (t_entry _ _ _ Hok _ _ _ HTk) as [E1 E2 E3 E4 E5]. split; [done..|]. destruct E5 as [?|(p & dp & Hp & En & Ed)]; [by left|right].
    exists p, dp. split_and!; [|done..]. apply Hkeep; [done|]. assert (h_Number y <= m) as Hle; [|lia]. apply Z.nlt_ge. intros Hlt. destruct (Hall _ _ _ HTk Hlt) as [Hle ->]. by rewrite H1 in Hk.
Qed.
End set_head.
