(* ===== verification/Genesis.v ===== *)
(** The genesis block and the chain that starts with it: [src/core/genesis.go]. *)

From stdpp Require Import base numbers list gmap.
From S2P Require Import Prelude.
From S2P Require Import CommonMath.
From S2P Require Import Params.
From S2P Require Import RlpEncode.
From S2P Require Import VmData.
From S2P Require Import VmState.
From S2P Require Import VmWorld.
From S2P Require Import State.
From S2P Require Import Sample.
From S2P Require Import Types.
From S2P Require Import Transactions.
From S2P Require Import Blocks.
From S2P Require Import TrieHasher.
From S2P Require Import Validator.
From S2P Require Import Lru.
From S2P Require Import ChainDB.
From S2P Require Import HeaderChain.
Local Open Scope Z_scope.
Local Open Scope go_scope.

Record GenesisAccount := MkGenesisAccount { ga_Code : bytes; ga_Storage : list (bytes * bytes); ga_Balance : Z; ga_Nonce : Z }.

(** The two maps are lists in the order in which they are gone through, which is any. *)
Record Genesis := MkGenesis {
  g_Nonce : Z; g_Timestamp : Z; g_ExtraData : bytes; g_GasLimit : Z; g_Difficulty : option Z; g_Mixhash : bytes; g_Coinbase : bytes;
  g_Alloc : list (bytes * GenesisAccount); g_Number : Z; g_GasUsed : Z; g_ParentHash : bytes }.

Section allocation.
Context {DB : Type} `{StateDB DB}.

Definition allocateSlot (addr : bytes) (slot : bytes * bytes) (s : DB) : DB := SetState addr slot.1 slot.2 s.
Definition allocate (a : bytes * GenesisAccount) (s : DB) : DB :=
  let (addr, account) := a in
  let s := AddBalance addr (ga_Balance account) s in
  let s := SetCode addr (ga_Code account) s in
  let s := SetNonce addr (ga_Nonce account) s in
  foldl (fun s slot => allocateSlot addr slot s) s (ga_Storage account).
Definition allocateAll (alloc : list (bytes * GenesisAccount)) (s : DB) : DB := foldl (fun s a => allocate a s) s alloc.
End allocation.

Inductive genesis_error := ErrGenesisNumber.

Section genesis.
Context {T : Type} `{State.Trie T} (db : State.Database T) (sha : bytes -> bytes).
#[local] Instance genesis_StateDB : StateDB (SDB T) := SDB_StateDB db sha.

(** [ToBlock]; committing the state to its own database is not part of the model. *)
Definition genesisHeaderOf (g : Genesis) (root : bytes) : Header :=
  MkHeader (g_ParentHash g) zeroHash (g_Coinbase g) root zeroHash zeroHash (replicate 256 0)
    (match g_Difficulty g with Some d => d | None => GenesisDifficulty end) (g_Number g) (if g_GasLimit g =? 0 then GenesisGasLimit else g_GasLimit g) (g_GasUsed g)
    (g_Timestamp g) (g_ExtraData g) (g_Mixhash g) (be_fixed 8 (g_Nonce g)).
Definition Genesis_ToBlock (g : Genesis) : outcome Empty_set FullBlock :=
  let statedb := allocateAll (g_Alloc g) (newState (EmptyTrie db)) in
  match IntermediateRoot db sha false statedb with
  | Ok (_, root) => NewBlock sha (genesisHeaderOf g root) [] [] []
  | _ => Panic
  end.

(** The writes of [Commit]; the configuration is stored apart. *)
Definition writeTdPtr (hash : bytes) (number : Z) (td : option Z) (kv : KV) : outcome Empty_set KV :=
  let! data := encodeOrExit (RBigIntPtr td) in Ok (Put (TdKey number hash) data kv).
Definition commitBlock (block : FullBlock) (difficulty : option Z) (kv : KV) : outcome Empty_set KV :=
  let hash := Block_Hash sha (fb_block block) in
  let number := u64 (h_Number (fb_header block)) in
  let! kv := writeTdPtr hash number difficulty kv in
  let! kv := WriteBlock sha block kv in
  let! kv := WriteReceipts hash number [] kv in
  Ok (WriteHeadHeaderHash hash (WriteHeadBlockHash hash (WriteCanonicalHash hash number kv))).
Definition Genesis_Commit (g : Genesis) (kv : KV) : outcome Empty_set (KV * (genesis_error + FullBlock)) :=
  let! block := Genesis_ToBlock g in
  if negb (h_Number (fb_header block) =? 0) then Ok (kv, inl ErrGenesisNumber)
  else let! kv := commitBlock block (g_Difficulty g) kv in Ok (kv, inr block).

(** The first part of [SetupGenesisBlock]: a database without genesis gets one; a nil block has no
    hash. *)
Definition setupGenesis (DefaultGenesisBlock : Genesis) (genesis : option Genesis) (kv : KV) : outcome Empty_set (KV * option bytes) :=
  let stored := ReadCanonicalHash kv 0 in
  if bool_decide (stored = zeroHash) then
    let! (kv, r) := Genesis_Commit (default DefaultGenesisBlock genesis) kv in
    match r with inr block => Ok (kv, Some (Block_Hash sha (fb_block block))) | inl _ => Panic end
  else match genesis with
  | Some g => let! block := Genesis_ToBlock g in if bool_decide (Block_Hash sha (fb_block block) = stored) then Ok (kv, Some stored) else Ok (kv, None)
  | None => Ok (kv, Some stored)
  end.
End genesis.

(** * What is allocated *)

Record account_wf (a : GenesisAccount) : Prop := {
  gw_balance : 0 <= ga_Balance a;
  gw_nonce : is_u64 (ga_Nonce a);
  gw_code : slice_ok (ga_Code a);
  gw_slots : Forall (fun s => is_hash s.1 /\ is_hash s.2) (ga_Storage a);
  gw_keys : NoDup (map fst (ga_Storage a)) }.

Section allocated.
Context {DB : Type} `{HS : StateDB DB} (hash : bytes -> bytes) `{!StateDBLaws DB hash}.

(** What an account was given, on top of what it had. *)
Definition given (a : GenesisAccount) (addr : bytes) (s s' : DB) : Prop :=
  GetBalance s' addr = GetBalance s addr + ga_Balance a /\ GetNonce s' addr = ga_Nonce a /\ GetCode s' addr = ga_Code a /\
  (forall k v, (k, v) ∈ ga_Storage a -> GetState s' addr k = v) /\ forall k, k ∉ map fst (ga_Storage a) -> GetState s' addr k = GetState s addr k.
Definition left_alone (addr : bytes) (s s' : DB) : Prop :=
  GetBalance s' addr = GetBalance s addr /\ GetNonce s' addr = GetNonce s addr /\ GetCode s' addr = GetCode s addr /\ forall k, GetState s' addr k = GetState s addr k.

Lemma slots_ok addr l : Forall (fun s => is_hash s.1 /\ is_hash s.2) l -> NoDup (map fst l) -> forall s : DB, db_ok s ->
  let s' := foldl (fun s slot => allocateSlot addr slot s) s l in
  db_ok s' /\ (forall b, GetBalance s' b = GetBalance s b /\ GetNonce s' b = GetNonce s b /\ GetCode s' b = GetCode s b) /\
  (forall b k, b <> addr -> GetState s' b k = GetState s b k) /\ (forall k v, (k, v) ∈ l -> GetState s' addr k = v) /\ forall k, k ∉ map fst l -> GetState s' addr k = GetState s addr k.
Proof.
  induction l as [|[k0 v0] l IH]; intros Hl Hnd s Hs s'; [split_and!; try done; by intros k v ?%not_elem_of_nil|].
  apply Forall_cons in Hl as [[Hk Hv] Hl]. cbn in Hnd. apply NoDup_cons in Hnd as [Hni Hnd].
  destruct (SetState_ok s addr k0 v0 Hs Hk Hv) as (Hs1 & Hw & _). set (s1 := SetState addr k0 v0 s) in *.
  destruct (IH Hl Hnd s1 Hs1) as (H1 & H2 & H3 & H4 & H5). change s' with (foldl (fun s slot => allocateSlot addr slot s) s1 l). set (s2 := foldl _ s1 l) in *. destruct Hw as [W1 W2 W3 W4 _ _]. cbn in W1, W2, W3, W4.
  assert (forall b k, GetState s1 b k = if decide (b = addr /\ k = k0) then v0 else GetState s b k) as W5.
  { intros b k. rewrite W4. unfold upd. destruct (decide (b = addr)) as [->|Hb]; [|rewrite bool_decide_eq_false_2, decide_False by tauto; done].
    rewrite bool_decide_eq_true_2 by done. destruct (decide (k = k0)) as [->|Hkk]; [by rewrite bool_decide_eq_true_2, decide_True|by rewrite bool_decide_eq_false_2, decide_False by tauto]. }
  split_and!; [done| | | |].
  - intros b. destruct (H2 b) as (-> & -> & ->). split_and!; [apply W1|apply W2|apply W3].
  - intros b k Hb. rewrite H3, W5, decide_False by tauto. done.
  - intros k v [[= -> ->]|Hin]%elem_of_cons; [|by apply H4]. rewrite H5, W5, decide_True by done. done.
  - intros k Hk'. cbn in Hk'. apply not_elem_of_cons in Hk' as [Hne Hni']. rewrite H5, W5, decide_False by tauto. done.
Qed.

Lemma allocate_ok addr a (s : DB) : account_wf a -> db_ok s -> db_ok (allocate (addr, a) s) /\ given a addr s (allocate (addr, a) s) /\ forall b, b <> addr -> left_alone b s (allocate (addr, a) s).
Proof.
  intros [H1 H2 H3 H4 H5] Hs. unfold allocate. destruct (AddBalance_ok s addr (ga_Balance a) Hs H1) as (Hs1 & W1 & _). set (s1 := AddBalance _ _ s) in *.
  destruct (SetCode_ok s1 addr (ga_Code a) Hs1 H3) as (Hs2 & W2 & _). set (s2 := SetCode _ _ s1) in *. destruct (SetNonce_ok s2 addr (ga_Nonce a) Hs2 H2) as (Hs3 & W3 & _). set (s3 := SetNonce _ _ s2) in *.
  destruct (slots_ok addr (ga_Storage a) H4 H5 s3 Hs3) as (Hs4 & F1 & F2 & F3 & F4). set (s4 := foldl _ s3 _) in *.
  destruct W1 as [A1 A2 A3 A4 _ _], W2 as [B1 B2 B3 B4 _ _], W3 as [C1 C2 C3 C4 _ _]. cbn in A1, A2, A3, A4, B1, B2, B3, B4, C1, C2, C3, C4. split; [done|]. split.
  - destruct (F1 addr) as (E1 & E2 & E3). split_and!.
    + by rewrite E1, C1, B1, A1, upd_eq.
    + by rewrite E2, C2, upd_eq.
    + by rewrite E3, C3, B3, upd_eq.
    + done.
    + intros k Hk. by rewrite F4, C4, B4, A4.
  - intros b Hb. destruct (F1 b) as (E1 & E2 & E3). split_and!.
    + by rewrite E1, C1, B1, A1, upd_ne.
    + by rewrite E2, C2, upd_ne, B2, A2.
    + by rewrite E3, C3, B3, upd_ne, A3.
    + intros k. by rewrite F2, C4, B4, A4.
Qed.

(** The state of the genesis block is what the specification allocates, in whatever order the
    maps are gone through: every account listed has its balance, nonce, code and storage, and
    every other account, and every other slot, is as in the empty state. *)
Theorem genesis_allocates alloc (s : DB) : db_ok s -> Forall (fun e => account_wf e.2) alloc -> NoDup (map fst alloc) ->
  let s' := allocateAll alloc s in
  db_ok s' /\ (forall addr a, (addr, a) ∈ alloc -> given a addr s s') /\ forall addr, addr ∉ map fst alloc -> left_alone addr s s'.
Proof.
  revert s. induction alloc as [|[addr a] alloc IH]; intros s Hs Hl Hnd s'; [split_and!; try done; by intros b a ?%not_elem_of_nil|].
  apply Forall_cons in Hl as [Ha Hl]. cbn in Hnd. apply NoDup_cons in Hnd as [Hni Hnd]. destruct (allocate_ok addr a s Ha Hs) as (Hs1 & G1 & L1). set (s1 := allocate (addr, a) s) in *.
  destruct (IH s1 Hs1 Hl Hnd) as (H1 & H2 & H3). change s' with (allocateAll alloc s1). set (s2 := allocateAll alloc s1) in *. split_and!; [done| |].
  - intros b c [[= -> ->]|Hin]%elem_of_cons.
    + destruct (H3 addr Hni) as (E1 & E2 & E3 & E4). destruct G1 as (F1 & F2 & F3 & F4 & F5). split_and!; [congruence..| |]; [intros k v Hkv; rewrite E4; by apply F4|intros k Hk; rewrite E4; by apply F5].
    + assert (b <> addr) as Hne by (intros ->; apply Hni, list_elem_of_fmap; by exists (addr, c)). destruct (H2 b c Hin) as (E1 & E2 & E3 & E4 & E5). destruct (L1 b Hne) as (F1 & F2 & F3 & F4).
      split_and!; [congruence..|done|]. intros k Hk. rewrite E5 by done. apply F4.
  - intros b Hb. cbn in Hb. apply not_elem_of_cons in Hb as [Hne Hni']. destruct (H3 b Hni') as (E1 & E2 & E3 & E4), (L1 b Hne) as (F1 & F2 & F3 & F4). split_and!; [congruence..|]. intros k. by rewrite E4, F4.
Qed.
End allocated.

(** * Opening the chain *)

Section opening.
Context (sha : bytes -> bytes) (hash_len : forall b, length (sha b) = 32%nat) (P : Header -> Prop) (fuel : nat) (Hw : world sha P fuel).
Abbreviation hashOf := (Header_Hash sha).

Lemma db_holds_empty : db_holds ∅ ∅.
Proof. by split. Qed.

Lemma writeTdPtr_ok h n d kv : 0 <= default 0 d < 2 ^ 256 -> exists data, writeTdPtr h n d kv = Ok (Put (TdKey n h) data kv) /\ readValue RlpStream.TBigInt toInt data = Some (default 0 d).
Proof.
  intros Hd. destruct d as [d|]; cbn in Hd |- *.
  - destruct (WriteTd_ok h n d kv) as (data & E & R); [lia|apply td_fits; lia|]. exists data. split; [exact E|exact R].
  - exists [128]. split; [done|]. by vm_compute.
Qed.

Lemma Put_comm (k k' : Key) (v v' : bytes) (kv : KV) : key_wf k -> key_wf k' -> k <> k' -> Put k v (Put k' v' kv) = Put k' v' (Put k v kv).
Proof. intros Hk Hk' Hne. unfold Put. apply insert_insert_ne. intros E. by apply Hne, schema_inj. Qed.

(** What [commitBlock] leaves in an empty database. *)
Lemma commitBlock_ok block d : block_ok block -> h_Number (fb_header block) = 0 -> P (fb_header block) -> 0 <= default 0 d < 2 ^ 256 ->
  let h := hashOf (fb_header block) in
  exists kv, commitBlock sha block d ∅ = Ok kv /\ db_holds {[h := (fb_header block, default 0 d)]} kv /\
    ReadHeadBlockHash kv = h /\ (forall n, is_u64 n -> ReadCanonicalHash kv n = if decide (n = 0) then h else zeroHash) /\
    ReadHeadHeaderHash kv = h /\ ReadHeadFastBlockHash kv = zeroHash /\ ReadBody kv h 0 = Some (MkBody (map received (fb_transactions block)) (fb_uncles block)).
Proof using hash_len Hw.
  intros Hb Hn HP Hd h. pose proof (Header_Hash_32 sha hash_len (fb_header block)) as H32. fold h in H32. assert (is_u64 0) as H0 by by unfold is_u64.
  unfold commitBlock. change (Block_Hash sha (fb_block block)) with h. rewrite Hn. change (u64 0) with 0.
  destruct (writeTdPtr_ok h 0 d ∅ Hd) as (tdata & -> & Rtd). cbn [outcome_bind].
  destruct (WriteBlock_ok sha block (Put (TdKey 0 h) tdata ∅) Hb) as (header & body & -> & Rh & Rb); [by rewrite Hn|]. change (Block_Hash sha (fb_block block)) with h. rewrite Hn. cbn [outcome_bind].
  destruct (WriteReceipts_ok h 0 [] (Put (HeaderKey 0 h) header (Put (NumberKey h) (encodeBlockNumber 0) (Put (BodyKey 0 h) body (Put (TdKey 0 h) tdata ∅))))) as (rdata & -> & _).
  { split; [by constructor|]. intros b [= <-]. done. }
  cbn [outcome_bind]. eexists. split; [done|]. split_and!.
  - apply db_holds_Put; [done..|]. apply db_holds_Put; [done..|]. apply db_holds_Put; [done..|]. apply db_holds_Put; [done..|].
    rewrite (Put_comm (BodyKey 0 h) (TdKey 0 h)) by done. set (dp := default 0 d - h_Difficulty (fb_header block)).
    assert (h_Difficulty (fb_header block) + dp = default 0 d) as Ed by (unfold dp; lia).
    pose proof (db_grown sha hash_len ∅ (fb_header block) dp (Put (BodyKey 0 h) body ∅) header tdata) as Hg. rewrite Hn in Hg. fold h in Hg. unfold grown in Hg. rewrite Ed in Hg. apply Hg; [|done|done|by apply db_holds_Put, db_holds_empty].
    split; [by apply (w_storable _ _ _ Hw)|by apply (w_zero _ _ _ Hw)|by rewrite Hn|done..].
  - unfold ReadHeadBlockHash, WriteHeadHeaderHash, WriteHeadBlockHash. rewrite !Get_Put by done. rewrite decide_False, decide_True by done. by apply hashOr_id.
  - intros n Hn64. unfold WriteHeadHeaderHash, WriteHeadBlockHash, WriteCanonicalHash. rewrite !ReadCanonicalHash_Put by done. rewrite !decide_False by done. destruct (decide (n = 0)) as [->|Hne].
    + rewrite decide_True by done. by apply hashOr_id.
    + by rewrite decide_False by congruence.
  - unfold ReadHeadHeaderHash, WriteHeadHeaderHash. rewrite Get_Put by done. rewrite decide_True by done. by apply hashOr_id.
  - unfold ReadHeadFastBlockHash, WriteHeadHeaderHash, WriteHeadBlockHash, WriteCanonicalHash. rewrite !Get_Put by done. by rewrite !decide_False by done.
  - unfold WriteHeadHeaderHash, WriteHeadBlockHash, WriteCanonicalHash. rewrite !ReadBody_Put by done. by rewrite !decide_False, decide_True by done.
Qed.

Lemma genesis_tree x d : P x -> h_Number x = 0 -> tree_ok sha {[hashOf x := (x, d)]} (hashOf x).
Proof using Hw.
  intros HP Hn. split; [by rewrite lookup_singleton_eq|]. intros h y dy [<- [= <- <-]]%lookup_singleton_Some.
  split; [done|by apply (w_storable _ _ _ Hw)|by apply (w_zero _ _ _ Hw)|by rewrite Hn|by left].
Qed.

(** A chain opened on a new genesis block. *)
Lemma NewHeaderChain_ok block d kv : block_ok block -> h_Number (fb_header block) = 0 -> P (fb_header block) -> 0 <= default 0 d < 2 ^ 256 ->
  commitBlock sha block d ∅ = Ok kv -> exists hc, NewHeaderChain sha kv = inl hc /\ sound sha P {[hashOf (fb_header block) := (fb_header block, default 0 d)]} hc /\ chainDb hc = kv.
Proof using hash_len Hw.
  intros Hb Hn HP Hd E. destruct (commitBlock_ok block d Hb Hn HP Hd) as (kv' & E' & Hdb & Hhead & Hcan & _). rewrite E in E'. injection E' as <-.
  set (g := fb_header block) in *. set (h := hashOf g) in *. set (T := {[h := (g, default 0 d)]}) in *. pose proof (genesis_tree g (default 0 d) HP Hn) as Hok. fold h T in Hok.
  assert (T !! h = Some (g, default 0 d)) as Eg by apply lookup_singleton_eq. pose proof (Header_Hash_32 sha hash_len g) as H32. fold h in H32. assert (is_u64 0) as H0 by by unfold is_u64.
  pose proof (w_zero _ _ _ Hw g HP) as Hz. fold h in Hz. assert (right_number T h 0) as Hr by (intros x dx; rewrite Eg; by intros [= <- <-]).
  unfold NewHeaderChain, GetHeaderByNumber. cbn [chainDb]. rewrite Hcan, decide_True, bool_decide_eq_false_2 by done.
  set (blank := MkHeaderChain _ _ _ _ _ _ _). assert (stored T blank) as Hs0 by (split; [exact Hdb|done..]).
  destruct (GetHeader_ok T blank h 0 Hs0 H32 H0 Hr) as (hc1 & -> & [S1 S2 S3 S4] & _). rewrite Eg. cbn [fmap option_fmap option_map fst].
  rewrite Hhead, bool_decide_eq_false_2 by done. set (hc2 := MkHeaderChain _ _ _ _ _ _ _). assert (stored T hc2) as Hs2 by (split; [exact Hdb|exact S2|exact S3|exact S4]).
  unfold GetHeaderByHash. destruct (GetBlockNumber_ok T hc2 h Hs2 H32) as (hc3 & -> & Hs3 & D3 & G3 & _). rewrite Eg. cbn [fmap option_fmap option_map compose fst]. rewrite Hn.
  destruct (GetHeader_ok T hc3 h 0 Hs3 H32 H0 Hr) as (hc4 & -> & Hs4 & D4 & G4 & _). rewrite Eg. cbn [fmap option_fmap option_map fst]. change (default g (Some g)) with g. fold h. eexists. split; [done|]. split; [|by cbn; rewrite D4, D3].
  assert (genesisHeader hc4 = g) as EG by by rewrite G4, G3. split.
  - split; cbn [with_current genesisHeader currentHeader currentHeaderHash chainDb]; [by rewrite EG|by apply stored_current|by rewrite Eg|].
    intros n Hn64. rewrite D4, D3. cbn [hc2 chainDb]. rewrite Hcan, Hn by done. fold h. destruct (decide (n = 0)) as [->|Hne]; [done|]. rewrite hashAt_above by (unfold is_u64 in Hn64; lia). done.
  - intros k x dx [<- [= <- <-]]%lookup_singleton_Some. rewrite Hn. split; [done|lia].
  - cbn. by rewrite EG.
  - intros k. cbn. fold h. unfold tdOf. rewrite Eg. destruct (decide (k = h)) as [->|Hne]; [by rewrite Eg|]. unfold T. rewrite lookup_singleton_ne by done. cbn. lia.
Qed.

(** ** Every chain that can arise *)

(** A chain is opened on a genesis block; then chains of headers are inserted that were validated
    and follow a header that is known, by a node that may be told to stop at any
    point. *)
Inductive reached (block : FullBlock) (d : option Z) : HeaderChain -> Prop :=
| reached_opened kv hc : commitBlock sha block d ∅ = Ok kv -> NewHeaderChain sha kv = inl hc -> reached block d hc
| reached_inserted hc hc' p x l k interrupted coins r : reached block d hc -> P p -> (GetHeaderByHash (hashOf p) hc).2 = Some p -> Forall P (x :: l) -> linked sha k p (x :: l) = None ->
    InsertHeaderChain sha fuel interrupted coins 0 (x :: l) hc = Ok (hc', r) -> reached block d hc'.

Lemma reached_sound block d hc : block_ok block -> h_Number (fb_header block) = 0 -> P (fb_header block) -> 0 <= default 0 d < 2 ^ 256 -> reached block d hc -> exists T, sound sha P T hc.
Proof using hash_len Hw.
  intros Hb Hn HP Hd. induction 1 as [kv hc E1 E2|hc hc' p x l k interrupted coins r _ [T Hs] Hp Hpar Hl Hk E].
  - destruct (NewHeaderChain_ok block d kv Hb Hn HP Hd E1) as (hc' & E' & Hs & _). rewrite E2 in E'. injection E' as <-. by eexists.
  - rewrite (GetHeaderByHash_ok sha T _ hc _ (c_tree _ _ _ (so_chain _ _ _ _ Hs)) (c_stored _ _ _ (so_chain _ _ _ _ Hs)) (Header_Hash_32 sha hash_len p)) in Hpar.
    destruct (T !! hashOf p) as [[y dy]|] eqn:Ep; [|done]. injection Hpar as ->.
    destruct (InsertHeaderChain_ok sha hash_len P fuel Hw interrupted coins (x :: l) 0 k T hc p dy Hs Ep Hl Hk) as (hc1 & r1 & T' & E' & Hs' & _); [by left|]. rewrite E in E'. injection E' as <- <-. by exists T'.
Qed.

(** C14. Whatever validated chains of headers a node has imported, and wherever it was stopped, the
    headers by number up to its head form one chain from the genesis block, each the parent of the
    next; there is none above; and no header it knows has more total difficulty than its
    head. *)
Theorem canonical_chain block d hc : block_ok block -> h_Number (fb_header block) = 0 -> P (fb_header block) -> 0 <= default 0 d < 2 ^ 256 -> reached block d hc -> canonical sha P hc.
Proof using hash_len Hw.
  intros Hb Hn HP Hd Hr. destruct (reached_sound block d hc Hb Hn HP Hd Hr) as [T Hs]. by apply (sound_canonical sha hash_len P fuel Hw T).
Qed.
End opening.

Module HeaderSample.
Import BodySample.
Abbreviation H := (Header_Hash shortHash).

(** A chain of three headers, and a fork of it after the second; each has a state of its own. *)
Definition next (parent : bytes) (number : Z) (state : Z) (extra : bytes) : Header :=
  MkHeader parent (EmptyUncleHash shortHash) (replicate 20 0) (replicate 32 state) emptyRoot emptyRoot (replicate 256 0) 131072 number 1000000 0 10 extra (replicate 32 0) (replicate 8 0).
Definition g : Header := next zeroHash 0 8 [].
Definition a1 : Header := next (H g) 1 9 [].
Definition a2 : Header := next (H a1) 2 10 [].
Definition b2 : Header := next (H a1) 2 11 [7; 7].
Definition b3 : Header := next (H b2) 3 12 [7; 7].
Definition headers : list Header := [g; a1; a2; b2; b3].
Definition known (x : Header) : Prop := x ∈ headers.

Definition sizeOf (x : Header) : option Z := match rlp_spec (header_rval x) with Ok e => Some (zlen e) | _ => None end.

Lemma next_fine p n s e : length p = 32%nat /\ bytes_ok p -> 0 <= n < 2 ^ 64 -> is_byte s -> bytes_ok e -> header_ok (next p n s e).
Proof. intros Hp Hn Hs He. constructor; cbn [next h_ParentHash h_Root]; try done; try (by split; [apply length_replicate|apply Forall_replicate]); try (apply checked_ok; vm_compute; reflexivity); unfold is_u64; cbn; lia. Qed.
Lemma headers_fine x : known x -> header_ok x /\ (exists s, sizeOf x = Some s /\ s < 2 ^ 64) /\ H x <> zeroHash /\ h_Difficulty x < 2 ^ 256 /\ 0 <= h_Number x < 10.
Proof.
  intros Hx. unfold known, headers in Hx. rewrite !elem_of_cons, elem_of_nil in Hx.
  destruct Hx as [->|[->|[->|[->|[->|[]]]]]]; (split; [apply next_fine; [by apply checked_ok|done|done|by repeat constructor]|]);
    (split_and!; [eexists; split; [vm_compute; reflexivity|done]|by vm_compute|done..]).
Qed.
Lemma sample_world fuel : (10 <= fuel)%nat -> world shortHash known fuel.
Proof.
  intros Hf. split.
  - assert (NoDup (map H headers)) as Hnd by (refine (bool_decide_eq_true_1 _ _); vm_compute; reflexivity). intros x y [i Hi]%list_elem_of_lookup [j Hj]%list_elem_of_lookup E.
    assert (i = j) as ->; [|congruence]. apply (NoDup_lookup _ _ _ (H x) Hnd); rewrite list_lookup_fmap; [by rewrite Hi|by rewrite Hj, E].
  - intros x Hx. destruct (headers_fine x Hx) as (Hok & (s & Es & Hs) & _ & _ & Hn). split; [done|]. split; [unfold is_u64; lia|]. unfold sizeOf in Es. intros b Eb. rewrite Eb in Es. injection Es as ->. done.
  - intros x Hx. apply (headers_fine x Hx).
  - intros x Hx. apply (headers_fine x Hx).
  - intros x Hx. destruct (headers_fine x Hx) as (_ & _ & _ & _ & Hn). lia.
Qed.

Definition block : FullBlock := MkFullBlock (MkBlock g []) [].
Lemma block_fine : block_ok block.
Proof.
  constructor; [apply (headers_fine g); by left|apply Forall_nil_2..|]. eapply blockSize_ok; [vm_compute; reflexivity|lia].
Qed.
Definition td : option Z := Some 131072.
Definition blank : HeaderChain := MkHeaderChain ∅ g g [] (NewLRU 0) (NewLRU 0) (NewLRU 0).
Definition fromOk {E A} (d : A) (o : outcome E A) : A := match o with Ok a => a | _ => d end.
Definition isOk {E A} (o : outcome E A) : bool := match o with Ok _ => true | _ => false end.
Lemma fromOk_ok {E A} (d : A) (o : outcome E A) : isOk o = true -> o = Ok (fromOk d o).
Proof. by destruct o. Qed.
Definition kv : KV := fromOk ∅ (commitBlock shortHash block td ∅).
Definition openOn (kv : KV) : HeaderChain := match NewHeaderChain shortHash kv with inl hc => hc | _ => blank end.
Definition opened : HeaderChain := openOn kv.
Definition inserting (l : list Header) (hc : HeaderChain) := InsertHeaderChain shortHash 10 (fun _ => false) (fun _ => false) 0 l hc.
Definition inserted (l : list Header) (hc : HeaderChain) : HeaderChain := (fromOk (blank, (0%nat, None)) (inserting l hc)).1.
Definition T0 : Tree := {[H (fb_header block) := (fb_header block, default 0 td)]}.

Lemma kv_ok : commitBlock shortHash block td ∅ = Ok kv.
Proof. apply fromOk_ok. vm_compute. reflexivity. Qed.
Lemma openOn_sound k : commitBlock shortHash block td ∅ = Ok k -> NewHeaderChain shortHash k = inl (openOn k) /\ sound shortHash known T0 (openOn k).
Proof.
  intros Hk. destruct (NewHeaderChain_ok shortHash shortHash_len known 10 (sample_world 10 ltac:(lia)) block td k block_fine eq_refl ltac:(by left) ltac:(cbn; lia) Hk) as (hc & E & Hs & _).
  unfold openOn. rewrite E. split; [reflexivity|exact Hs].
Qed.
Lemma opened_sound : NewHeaderChain shortHash kv = inl opened /\ sound shortHash known T0 opened.
Proof. exact (openOn_sound kv kv_ok). Qed.
Lemma T0_g : T0 !! H g = Some (g, 131072).
Proof. apply lookup_singleton_eq. Qed.

Lemma header_write_refines_witness : exists hc', hc_WriteHeader shortHash 10 false a1 opened = Ok (hc', inr CanonStatTy) /\ chain_ok shortHash (grown shortHash T0 a1 131072) hc' /\ currentHeaderHash hc' = H a1 /\ genesisHeader hc' = g.
Proof.
  assert (known a1) as Ha by (right; left).
  pose proof (header_write_refines shortHash shortHash_len T0 10 false a1 opened (so_chain _ _ _ _ (proj2 opened_sound))
    (follows_admissible shortHash known 10 (sample_world 10 ltac:(lia)) T0 opened g 131072 a1 (proj2 opened_sound) Ha T0_g eq_refl eq_refl)) as W.
  assert (receive shortHash T0 (currentHeaderHash opened) false a1 = (grown shortHash T0 a1 131072, H a1, inr CanonStatTy)) as E by (vm_compute; reflexivity). rewrite E in W.
  apply W. split; vm_compute; lia.
Defined.

Lemma validated_headers_imported_witness : exists hc' T', InsertHeaderChain shortHash 10 (fun _ => false) (fun _ => false) 0 [a1; a2] opened = Ok (hc', (0%nat, None)) /\ sound shortHash known T' hc' /\
  Forall (fun y => fst <$> T' !! H y = Some y /\ tdOf T' (H y) <= tdOf T' (currentHeaderHash hc')) [a1; a2].
Proof.
  destruct (validated_headers_imported shortHash shortHash_len known 10 (sample_world 10 ltac:(lia)) T0 opened g 131072 a1 [a2] (fun _ => 0%nat) (fun _ => false) (fun _ => false) (fun _ _ _ => true) 1 (fun _ => false)
    (proj2 opened_sound) T0_g eq_refl eq_refl ltac:(repeat constructor; vm_compute; repeat (try (by left); right)) ltac:(vm_compute; reflexivity)) as (_ & hc' & T' & E & Hs & _ & Hf).
  exists hc', T'. split; [exact E|split; [exact Hs|exact Hf]].
Defined.

Lemma inserted_reached : reached shortHash known 10 block td (inserted [a1; a2] opened).
Proof.
  apply (reached_inserted shortHash known 10 block td opened _ g a1 [a2] 0 (fun _ => false) (fun _ => false) (fromOk (blank, (0%nat, None)) (inserting [a1; a2] opened)).2).
  - exact (reached_opened _ _ _ _ _ kv _ kv_ok (proj1 opened_sound)).
  - by left.
  - vm_compute. reflexivity.
  - repeat constructor; by repeat (try (by left); right).
  - vm_compute. reflexivity.
  - unfold inserted. rewrite <- surjective_pairing. apply fromOk_ok. vm_compute. reflexivity.
Qed.
Lemma canonical_chain_witness : canonical shortHash known (inserted [a1; a2] opened).
Proof. exact (canonical_chain shortHash shortHash_len known 10 (sample_world 10 ltac:(lia)) block td _ block_fine eq_refl ltac:(by left) ltac:(cbn; lia) inserted_reached). Defined.

Lemma head_rewound_witness : exists hc', hc_SetHead shortHash 10 1 DeleteBody (inserted [a1; a2] opened) = Ok hc' /\ h_Number (currentHeader hc') = 1.
Proof.
  destruct (reached_sound shortHash shortHash_len known 10 (sample_world 10 ltac:(lia)) block td _ block_fine eq_refl ltac:(by left) ltac:(cbn; lia) inserted_reached) as [T Hs].
  destruct (head_rewound shortHash shortHash_len DeleteBody DeleteBody_quiet T (inserted [a1; a2] opened) 1 10 (so_chain _ _ _ _ Hs) ltac:(lia) ltac:(vm_compute; lia)) as (hc' & T' & E & _ & _ & _ & _ & En & _).
  exists hc'. split; [exact E|]. rewrite En. vm_compute. reflexivity.
Defined.

(** Rewinding leaves the headers of other forks in the database, also when their ancestors go.  A
    header that follows one of them is then accepted, and the search for the
    ancestors of the new head runs into the one that is missing. *)
Definition rewound : HeaderChain := match hc_SetHead shortHash 10 0 DeleteBody (inserted [b2] (inserted [a1; a2] opened)) with Ok hc => hc | _ => blank end.
Lemma dangling_fork_panics : currentHeader rewound = g /\ (GetHeaderByHash (H b2) rewound).2 = Some b2 /\ (GetHeaderByHash (H a1) rewound).2 = None /\ linked shortHash 0 b2 [b3] = None /\
  InsertHeaderChain shortHash 10 (fun _ => false) (fun _ => false) 0 [b3] rewound = Panic.
Proof. vm_compute. by split_and!. Qed.
End HeaderSample.

Module GenesisSample.
Definition rich : GenesisAccount := MkGenesisAccount [] [] 1000 0.
Definition program : GenesisAccount := MkGenesisAccount contractCode [(replicate 32 0, replicate 31 0 ++ [7])] 5 1.
Definition alloc : list (bytes * GenesisAccount) := [(user, rich); (contract, program)].

Lemma genesis_allocates_witness : let s' := allocateAll alloc (newState (∅ : gmap bytes bytes)) in
  db_ok s' /\ given program contract (newState ∅) s' /\ left_alone (replicate 20 9) (newState ∅) s'.
Proof.
  destruct (genesis_allocates (Keccak256 sampleEnv) alloc (newState (∅ : gmap bytes bytes)) newState_fine) as (H1 & H2 & H3).
  - repeat constructor; cbn; try done; try (by apply not_elem_of_nil); try (unfold is_hash; split; [done|]; by repeat constructor).
  - refine (bool_decide_eq_true_1 _ _). vm_compute. reflexivity.
  - split; [exact H1|]. split; [apply H2; right; left|]. apply H3. refine (bool_decide_eq_true_1 _ _). vm_compute. reflexivity.
Defined.

(** A specification that gives no difficulty: the header gets the default, the total difficulty is
    stored as zero. *)
Definition spec (number : Z) : Genesis := MkGenesis 0 0 [] 5000 None zeroHash (replicate 20 0) alloc number 0 zeroHash.
Lemma nil_difficulty : match Genesis_Commit sampleDatabase shortHash (spec 0) ∅ with
  | Ok (kv, inr block) => h_Difficulty (fb_header block) = GenesisDifficulty /\ ReadTd kv (Block_Hash shortHash (fb_block block)) 0 = Some 0
  | _ => False
  end.
Proof. vm_compute. by split. Qed.
(** One that asks for another number than zero is refused, and the caller then takes the hash of no block. *)
Lemma refused_genesis_panics : (exists kv, Genesis_Commit sampleDatabase shortHash (spec 1) ∅ = Ok (kv, inl ErrGenesisNumber)) /\ setupGenesis sampleDatabase shortHash (spec 0) (Some (spec 1)) ∅ = Panic.
Proof. split; [eexists|]; vm_compute; reflexivity. Qed.
End GenesisSample.
