(* ===== verification/BlockChain.v ===== *)
(** The chain of blocks ([src/core/blockchain.go]): blocks and their caches over the header chain,
    the head and how it moves, and the import of chains of blocks.

    The trie cache below the state, the processor, the validator's engine, the clock and the coin
    are arguments. *)

From stdpp Require Import base numbers list gmap.
From S2P Require Import Prelude.
From S2P Require Import CommonMath.
From S2P Require Import Params.
From S2P Require Import RlpEncode.
From S2P Require Import RlpRaw.
From S2P Require Import RlpStream.
From S2P Require Import RlpTyped.
From S2P Require Import VmData.
From S2P Require Import VmState.
From S2P Require Import VmWorld.
From S2P Require Import State.
From S2P Require Import Types.
From S2P Require Import Transactions.
From S2P Require Import Blocks.
From S2P Require Import Consensus.
From S2P Require Import Validator.
From S2P Require Import Lru.
From S2P Require Import ChainDB.
From S2P Require Import HeaderChain.
Local Open Scope Z_scope.
Local Open Scope go_scope.

(** What the chain uses of the state and the trie cache. *)
Record StateOps (SC St : Type) := MkStateOps {
  (** [state.New] *)
  openState : bytes -> SC -> option St;
  (** [StateDB.Commit] *)
  commitState : bool -> St -> SC -> option (bytes * SC);
  (** [triedb.Commit] *)
  commitTrie : bytes -> SC -> option SC;
  (** [triedb.Reference] and the queue of tries *)
  keepTrie : bytes -> Z -> SC -> SC;
  (** what is flushed and dropped when the trie of this header is the oldest to be kept *)
  collectTries : Header -> SC -> SC }.
Arguments openState {SC St}.
Arguments commitState {SC St}.
Arguments commitTrie {SC St}.
Arguments keepTrie {SC St}.
Arguments collectTries {SC St}.

Record BlockChain (SC : Type) := MkBlockChain {
  hc : HeaderChain; genesisBlock : FullBlock; currentBlock : FullBlock; currentFastBlock : FullBlock; stateCache : SC;
  bodyCache : Lru bytes Body; blockCache : Lru bytes FullBlock; futureBlocks : Lru bytes FullBlock; badBlocks : Lru bytes Header;
  (** how many coins were tossed *)
  tossed : nat }.
Arguments MkBlockChain {SC}.
Arguments hc {SC}.
Arguments genesisBlock {SC}.
Arguments currentBlock {SC}.
Arguments currentFastBlock {SC}.
Arguments stateCache {SC}.
Arguments bodyCache {SC}.
Arguments blockCache {SC}.
Arguments futureBlocks {SC}.
Arguments badBlocks {SC}.
Arguments tossed {SC}.

Definition bodyCacheLimit : nat := 256.
Definition blockCacheLimit : nat := 256.
Definition maxFutureBlocks : nat := 256.
Definition maxTimeFutureBlocks : Z := 30.
Definition badBlockLimit : nat := 10.
Definition triesInMemory : Z := 128.

Inductive import_error :=
| ErrNoParent | ErrStateCommit | ErrInvalidOldChain | ErrInvalidNewChain | ErrMissingState | ErrBlocksApart (i : nat) | ErrBanned | ErrTooFarInFuture | ErrRefused
| ErrProcess | ErrReceiptCount | ErrHeaderUnknown | ErrNoBlock.

Section blockchain.
Context {SC St : Type} (ops : StateOps SC St) (sha : bytes -> bytes).
Abbreviation BC := (BlockChain SC).
Implicit Types (bc : BC).

Definition with_hc bc (h : HeaderChain) : BC :=
  MkBlockChain h (genesisBlock bc) (currentBlock bc) (currentFastBlock bc) (stateCache bc) (bodyCache bc) (blockCache bc) (futureBlocks bc) (badBlocks bc) (tossed bc).
Definition with_genesis bc (b : FullBlock) : BC :=
  MkBlockChain (hc bc) b (currentBlock bc) (currentFastBlock bc) (stateCache bc) (bodyCache bc) (blockCache bc) (futureBlocks bc) (badBlocks bc) (tossed bc).
Definition with_head bc (b : FullBlock) : BC :=
  MkBlockChain (hc bc) (genesisBlock bc) b (currentFastBlock bc) (stateCache bc) (bodyCache bc) (blockCache bc) (futureBlocks bc) (badBlocks bc) (tossed bc).
Definition with_fast bc (b : FullBlock) : BC :=
  MkBlockChain (hc bc) (genesisBlock bc) (currentBlock bc) b (stateCache bc) (bodyCache bc) (blockCache bc) (futureBlocks bc) (badBlocks bc) (tossed bc).
Definition with_states bc (s : SC) : BC :=
  MkBlockChain (hc bc) (genesisBlock bc) (currentBlock bc) (currentFastBlock bc) s (bodyCache bc) (blockCache bc) (futureBlocks bc) (badBlocks bc) (tossed bc).
Definition with_bodies bc (c : Lru bytes Body) : BC :=
  MkBlockChain (hc bc) (genesisBlock bc) (currentBlock bc) (currentFastBlock bc) (stateCache bc) c (blockCache bc) (futureBlocks bc) (badBlocks bc) (tossed bc).
Definition with_blocks bc (c : Lru bytes FullBlock) : BC :=
  MkBlockChain (hc bc) (genesisBlock bc) (currentBlock bc) (currentFastBlock bc) (stateCache bc) (bodyCache bc) c (futureBlocks bc) (badBlocks bc) (tossed bc).
Definition with_future bc (c : Lru bytes FullBlock) : BC :=
  MkBlockChain (hc bc) (genesisBlock bc) (currentBlock bc) (currentFastBlock bc) (stateCache bc) (bodyCache bc) (blockCache bc) c (badBlocks bc) (tossed bc).
Definition with_bad bc (c : Lru bytes Header) : BC :=
  MkBlockChain (hc bc) (genesisBlock bc) (currentBlock bc) (currentFastBlock bc) (stateCache bc) (bodyCache bc) (blockCache bc) (futureBlocks bc) c (tossed bc).
Definition with_tossed bc (n : nat) : BC :=
  MkBlockChain (hc bc) (genesisBlock bc) (currentBlock bc) (currentFastBlock bc) (stateCache bc) (bodyCache bc) (blockCache bc) (futureBlocks bc) (badBlocks bc) n.
Definition bc_db bc : KV := chainDb (hc bc).
Definition on_db bc (db : KV) : BC := with_hc bc (with_db (hc bc) db).

Definition blockHash (b : FullBlock) : bytes := Block_Hash sha (fb_block b).
Definition parentHash (b : FullBlock) : bytes := h_ParentHash (fb_header b).
Definition parentNumber (b : FullBlock) : Z := u64 (NumberU64 b - 1).

(** * Reading *)

Definition GetBody (h : bytes) bc : BC * option Body :=
  match lru_Get h (bodyCache bc) with
  | (c, Some body) => (with_bodies bc c, Some body)
  | (c, None) =>
      let bc := with_bodies bc c in
      let (hc', number) := GetBlockNumber h (hc bc) in
      let bc := with_hc bc hc' in
      match number with
      | None => (bc, None)
      | Some number => match ReadBody (bc_db bc) h number with None => (bc, None) | Some body => (with_bodies bc (lru_Add h body (bodyCache bc)), Some body) end
      end
  end.
Definition HasBlock (h : bytes) (number : Z) bc : bool := lru_Contains h (blockCache bc) || HasBody (bc_db bc) h number.

(** A block that is read is cached under its own hash. *)
Definition GetBlock (h : bytes) (number : Z) bc : BC * option FullBlock :=
  match lru_Get h (blockCache bc) with
  | (c, Some b) => (with_blocks bc c, Some b)
  | (c, None) => match ReadBlock (bc_db bc) h number with None => (with_blocks bc c, None) | Some b => (with_blocks bc (lru_Add (blockHash b) b c), Some b) end
  end.
Definition HasState (root : bytes) bc : bool := bool_decide (is_Some (openState ops root (stateCache bc) : option St)) .
Definition HasBlockAndState (h : bytes) (number : Z) bc : BC * bool :=
  match GetBlock h number bc with (bc, None) => (bc, false) | (bc, Some b) => (bc, HasState (h_Root (fb_header b)) bc) end.
Definition GetBlockByHash (h : bytes) bc : BC * option FullBlock :=
  let (hc', number) := GetBlockNumber h (hc bc) in
  let bc := with_hc bc hc' in
  match number with None => (bc, None) | Some number => GetBlock h number bc end.
Definition GetBlockByNumber (number : Z) bc : BC * option FullBlock :=
  let h := ReadCanonicalHash (bc_db bc) number in
  if bool_decide (h = zeroHash) then (bc, None) else GetBlock h number bc.
Definition GetReceiptsByHash (h : bytes) bc : option (list Receipt) :=
  match ReadHeaderNumber (bc_db bc) h with None => None | Some number => ReadReceipts (bc_db bc) h number end.
Fixpoint blocksFrom (n : nat) (h : bytes) (number : Z) bc : BC * list FullBlock :=
  match n with
  | O => (bc, [])
  | S n => match GetBlock h number bc with
           | (bc, None) => (bc, [])
           | (bc, Some b) => let (bc, l) := blocksFrom n (parentHash b) (u64 (number - 1)) bc in (bc, b :: l)
           end
  end.
Definition GetBlocksFromHash (h : bytes) (n : nat) bc : BC * list FullBlock :=
  let (hc', number) := GetBlockNumber h (hc bc) in
  let bc := with_hc bc hc' in
  match number with None => (bc, []) | Some number => blocksFrom n h number bc end.
Fixpoint GetUnclesInChain (length : nat) (block : option FullBlock) bc : BC * list Header :=
  match length, block with
  | S length, Some b =>
      let (bc, parent) := GetBlock (parentHash b) (parentNumber b) bc in
      let (bc, l) := GetUnclesInChain length parent bc in (bc, fb_uncles b ++ l)
  | _, _ => (bc, [])
  end.
Definition bc_GetTd (h : bytes) (number : Z) bc : BC * option Z := let (hc', td) := GetTd h number (hc bc) in (with_hc bc hc', td).

(** * The head *)

(** [insert]: the block takes its number; the other heads follow when it was not there before. *)
Definition bc_insert (block : FullBlock) bc : BC :=
  let updateHeads := negb (bool_decide (ReadCanonicalHash (bc_db bc) (NumberU64 block) = blockHash block)) in
  let bc := on_db bc (WriteCanonicalHash (blockHash block) (NumberU64 block) (bc_db bc)) in
  let bc := on_db bc (WriteHeadBlockHash (blockHash block) (bc_db bc)) in
  let bc := with_head bc block in
  if updateHeads then
    let bc := with_hc bc (SetCurrentHeader sha (fb_header block) (hc bc)) in
    let bc := on_db bc (WriteHeadFastBlockHash (blockHash block) (bc_db bc)) in
    with_fast bc block
  else bc.

(** * Reorganisation *)

Definition TxDifference (a b : list Transaction) : list Transaction :=
  let remove := map (fun tx => tx_Hash sha (tx_data tx)) b in
  filter (fun tx => tx_Hash sha (tx_data tx) ∉ remove) a.

(** [collectLogs] *)
Definition collectLogs (h : bytes) bc : BC * list StateLog :=
  let (hc', number) := GetBlockNumber h (hc bc) in
  let bc := with_hc bc hc' in
  match number with
  | None => (bc, [])
  | Some number => (bc, concat (map rc_Logs (default [] (ReadReceipts (bc_db bc) h number))))
  end.

(** The higher chain is followed down to the height of the other; [collect] is set for the old one. *)
Fixpoint reduceTo (fuel : nat) (collect : bool) (n : Z) (b : FullBlock) (chain : list FullBlock) (logs : list StateLog) bc :
    outcome Empty_set (BC * option FullBlock * list FullBlock * list StateLog) :=
  if NumberU64 b =? n then Ok (bc, Some b, chain, logs)
  else match fuel with
  | O => NoFuel
  | S fuel =>
      let (bc, ls) := if collect then collectLogs (blockHash b) bc else (bc, []) in
      match GetBlock (parentHash b) (parentNumber b) bc with
      | (bc, None) => Ok (bc, None, chain ++ [b], logs ++ ls)
      | (bc, Some parent) => reduceTo fuel collect n parent (chain ++ [b]) (logs ++ ls) bc
      end
  end.
(** Then both, until they meet. *)
Fixpoint bc_meet (fuel : nat) (old new : FullBlock) (oldChain newChain : list FullBlock) (logs : list StateLog) bc :
    outcome Empty_set (BC * (import_error + list FullBlock * list FullBlock * list StateLog)) :=
  if bool_decide (blockHash old = blockHash new) then Ok (bc, inr (oldChain, newChain, logs))
  else match fuel with
  | O => NoFuel
  | S fuel =>
      let (bc, ls) := collectLogs (blockHash old) bc in
      let (bc, old') := GetBlock (parentHash old) (parentNumber old) bc in
      let (bc, new') := GetBlock (parentHash new) (parentNumber new) bc in
      match old', new' with
      | None, _ => Ok (bc, inl ErrInvalidOldChain)
      | _, None => Ok (bc, inl ErrInvalidNewChain)
      | Some old', Some new' => bc_meet fuel old' new' (oldChain ++ [old]) (newChain ++ [new]) (logs ++ ls) bc
      end
  end.

(** The blocks of the new chain, the lowest first. *)
Fixpoint insertAll (chain : list FullBlock) bc : outcome Empty_set BC :=
  match chain with
  | [] => Ok bc
  | b :: chain =>
      let bc := bc_insert b bc in
      let! db := WriteTxLookupEntries sha b (bc_db bc) in
      insertAll chain (on_db bc db)
  end.
Definition deleteEntries (txs : list Transaction) (db : KV) : KV := foldl (fun db tx => DeleteTxLookupEntry (tx_Hash sha (tx_data tx)) db) db txs.

(** The result is what is announced: the logs that no longer hold and the blocks that were left. *)
Definition reorg (fuel : nat) (oldBlock newBlock : FullBlock) bc : outcome Empty_set (BC * (import_error + list StateLog * list FullBlock)) :=
  let! (bc, oldBlock, newBlock, oldChain, newChain, logs) :=
    if NumberU64 newBlock <? NumberU64 oldBlock then
      let! (bc, old, oldChain, logs) := reduceTo fuel true (NumberU64 newBlock) oldBlock [] [] bc in
      Ok (bc, old, Some newBlock, oldChain, [], logs)
    else
      let! (bc, new, newChain, _) := reduceTo fuel false (NumberU64 oldBlock) newBlock [] [] bc in
      Ok (bc, Some oldBlock, new, [], newChain, []) in
  match oldBlock, newBlock with
  | None, _ => Ok (bc, inl ErrInvalidOldChain)
  | _, None => Ok (bc, inl ErrInvalidNewChain)
  | Some old, Some new =>
      let! (bc, r) := bc_meet fuel old new oldChain newChain logs bc in
      match r with
      | inl e => Ok (bc, inl e)
      | inr (oldChain, newChain, logs) =>
          let! bc := insertAll (reverse newChain) bc in
          let addedTxs := concat (map fb_transactions (reverse newChain)) in
          let deletedTxs := concat (map fb_transactions oldChain) in
          Ok (on_db bc (deleteEntries (TxDifference deletedTxs addedTxs) (bc_db bc)), inr (logs, oldChain))
      end
  end.

(** * Writing blocks *)

Context (config : ChainConfig) (archive : bool) (coin : nat -> bool).

Definition WriteBlockWithoutState (block : FullBlock) (td : Z) bc : outcome Empty_set BC :=
  let! hc' := hc_WriteTd (blockHash block) (NumberU64 block) td (hc bc) in
  let bc := with_hc bc hc' in
  let! db := WriteBlock sha block (bc_db bc) in
  Ok (on_db bc db).

(** The trie of the block's state is flushed, or kept in memory while old ones are collected. *)
Definition storeState (block : FullBlock) (root : bytes) (s : SC) bc : outcome Empty_set (BC * option import_error) :=
  if archive then match commitTrie ops root s with None => Ok (with_states bc s, Some ErrStateCommit) | Some s => Ok (with_states bc s, None) end
  else
    let bc := with_states bc (keepTrie ops root (NumberU64 block) s) in
    if triesInMemory <? NumberU64 block then
      let (hc', header) := GetHeaderByNumber (NumberU64 block - triesInMemory) (hc bc) in
      let bc := with_hc bc hc' in
      let! header := must header in
      Ok (with_states bc (collectTries ops header (stateCache bc)), None)
    else Ok (bc, None).

(** Is the new block the better head?  A tie goes to the lower block, then to the coin. *)
Definition better (block current : FullBlock) (externTd localTd : Z) bc : BC * bool :=
  if localTd <? externTd then (bc, true)
  else if negb (externTd =? localTd) then (bc, false)
  else if NumberU64 block <? NumberU64 current then (bc, true)
  else if NumberU64 block =? NumberU64 current then (with_tossed bc (S (tossed bc)), coin (tossed bc))
  else (bc, false).

(** The batch: the block, its receipts and, for a new head, where its transactions are. *)
Definition writeBatch (block : FullBlock) (receipts : list Receipt) (status : WriteStatus) (db : KV) : outcome Empty_set KV :=
  let! db := WriteBlock sha block db in
  let! db := WriteReceipts (blockHash block) (NumberU64 block) receipts db in
  match status with CanonStatTy => WriteTxLookupEntries sha block db | _ => Ok db end.

(** [WriteBlockWithState] from where the state is committed on. *)
Definition finishWrite (fuel : nat) (block : FullBlock) (receipts : list Receipt) (externTd : Z) (localTd : option Z) bc : outcome Empty_set (BC * (import_error + WriteStatus)) :=
  let! localTd := must localTd in
  let current := currentBlock bc in
  let (bc, reorganise) := better block current externTd localTd bc in
  let! (bc, r) :=
    if reorganise && negb (bool_decide (parentHash block = blockHash current)) then
      let! (bc, r) := reorg fuel current block bc in Ok (bc, match r with inl e => Some e | inr _ => None end)
    else Ok (bc, None) in
  match r with
  | Some e => Ok (bc, inl e)
  | None =>
      let status := if reorganise then CanonStatTy else SideStatTy in
      let! db := writeBatch block receipts status (bc_db bc) in
      let bc := on_db bc db in
      let bc := if reorganise then bc_insert block bc else bc in
      Ok (with_future bc (lru_Remove (blockHash block) (futureBlocks bc)), inr status)
  end.

Definition WriteBlockWithState (fuel : nat) (block : FullBlock) (receipts : list Receipt) (state : St) bc : outcome Empty_set (BC * (import_error + WriteStatus)) :=
  match bc_GetTd (parentHash block) (parentNumber block) bc with
  | (bc, None) => Ok (bc, inl ErrNoParent)
  | (bc, Some ptd) =>
      let (bc, localTd) := bc_GetTd (blockHash (currentBlock bc)) (NumberU64 (currentBlock bc)) bc in
      let externTd := h_Difficulty (fb_header block) + ptd in
      let! hc' := hc_WriteTd (blockHash block) (NumberU64 block) externTd (hc bc) in
      let bc := with_hc bc hc' in
      match commitState ops (IsEIP158 config (Some (h_Number (fb_header block)))) state (stateCache bc) with
      | None => Ok (bc, inl ErrStateCommit)
      | Some (root, s) =>
          let! (bc, e) := storeState block root s bc in
          match e with
          | Some e => Ok (bc, inl e)
          | None => finishWrite fuel block receipts externTd localTd bc
          end
      end
  end.

(** * Importing blocks *)

Context (BadHashes : bytes -> bool) (VerifyHeaders : list Header -> nat -> option header_error) (VerifyUncles : Block -> option header_error).
Context (Process : FullBlock -> St -> option (St * list Receipt * list StateLog * Z)) (ValidateState : FullBlock -> St -> list Receipt -> Z -> option St).
Context (now : Z) (interrupted : nat -> bool).

Inductive chainEvent := ChainEvent (block : FullBlock) (logs : list StateLog) | ChainSideEvent (block : FullBlock) | ChainHeadEvent (block : FullBlock).

Fixpoint linkedBlocks (i : nat) (prev : FullBlock) (chain : list FullBlock) : option import_error :=
  match chain with
  | [] => None
  | b :: chain => if negb (NumberU64 b =? u64 (NumberU64 prev + 1)) || negb (bool_decide (parentHash b = blockHash prev)) then Some (ErrBlocksApart i) else linkedBlocks (S i) b chain
  end.

(** What the verifier and [ValidateBody] say of a block. *)
Inductive verdict := Fine | KnownBlock | FutureBlock | UnknownAncestor | PrunedAncestor | Refused.
Definition ofHeader (e : header_error) : verdict := match e with ErrFutureBlock => FutureBlock | ErrUnknownAncestor => UnknownAncestor | _ => Refused end.
Definition ofBody (e : body_error) : verdict :=
  match e with ErrKnownBlock => KnownBlock | ErrNoAncestor => UnknownAncestor | ErrPrunedAncestor => PrunedAncestor | ErrUncles e => ofHeader e | _ => Refused end.

(** The reads of [ValidateBody] go through the caches. *)
Definition judge (result : option header_error) (block : FullBlock) bc : outcome Empty_set (BC * verdict) :=
  match result with
  | Some e => Ok (bc, ofHeader e)
  | None =>
      let (bc, known) := HasBlockAndState (blockHash block) (NumberU64 block) bc in
      let (bc, parent) := if known then (bc, false) else HasBlockAndState (parentHash block) (parentNumber block) bc in
      match ValidateBody sha (fun h n => if bool_decide (h = blockHash block) then known else parent) (fun h n => HasBlock h n bc) VerifyUncles block with
      | Ok _ => Ok (bc, Fine)
      | Err e => Ok (bc, ofBody e)
      | Panic => Panic
      | NoFuel => NoFuel
      end
  end.

(** The ancestors of a block down to one whose state is there. *)
Fixpoint withoutState (fuel : nat) (parent : option FullBlock) (winner : list FullBlock) bc : outcome Empty_set (BC * list FullBlock) :=
  let! p := must parent in
  if HasState (h_Root (fb_header p)) bc then Ok (bc, winner)
  else match fuel with
  | O => NoFuel
  | S fuel => let (bc, parent) := GetBlock (parentHash p) (parentNumber p) bc in withoutState fuel parent (p :: winner) bc
  end.

(** [reportBlock]: bad blocks are remembered. *)
Definition report (block : FullBlock) bc : BC := with_bad bc (lru_Add (Header_Hash sha (fb_header block)) (fb_header block) (badBlocks bc)).
(** A block that is not refused: its state is computed from its parent's, checked, and written. *)
Definition processBlock (fuel : nat) (prev : option FullBlock) (block : FullBlock) bc : outcome Empty_set (BC * (import_error + WriteStatus * list StateLog)) :=
  let (bc, parent) := match prev with None => GetBlock (parentHash block) (parentNumber block) bc | Some p => (bc, Some p) end in
  let! parent := must parent in
  match openState ops (h_Root (fb_header parent)) (stateCache bc) with
  | None => Ok (bc, inl ErrMissingState)
  | Some state =>
      match Process block state with
      | None => Ok (report block bc, inl ErrProcess)
      | Some (state, receipts, logs, usedGas) =>
          match ValidateState block state receipts usedGas with
          | None => Ok (report block bc, inl ErrProcess)
          | Some state =>
              let! (bc, r) := WriteBlockWithState fuel block receipts state bc in
              Ok (bc, match r with inl e => inl e | inr status => inr (status, logs) end)
          end
      end
  end.

Record imported := MkImported { i_index : nat; i_events : list chainEvent; i_logs : list StateLog; i_error : option import_error }.
Definition stopped (i : nat) (events : list chainEvent) (logs : list StateLog) (e : import_error) : imported := MkImported i events logs (Some e).

Definition queue (block : FullBlock) bc : BC := with_future bc (lru_Add (blockHash block) block (futureBlocks bc)).
(** The head is announced when the import moved it. *)
Definition finishImport (events : list chainEvent) (logs : list StateLog) (lastCanon : option FullBlock) bc : outcome Empty_set (BC * imported) :=
  let last := match lastCanon with Some b => if bool_decide (blockHash (currentBlock bc) = blockHash b) then [ChainHeadEvent b] else [] | None => [] end in
  Ok (bc, MkImported 0 (events ++ last) logs None).

(** A fork whose states are gone but which is heavier now: its blocks are imported first. *)
Definition importFork (recur : list FullBlock -> BC -> outcome Empty_set (BC * imported)) (fuel : nat) (block : FullBlock) bc : outcome Empty_set (BC * imported) :=
  let (bc, parent) := GetBlock (parentHash block) (parentNumber block) bc in
  let! (bc, winner) := withoutState fuel parent [] bc in
  recur winner bc.

(** The loop of [insertChain]: block [i] of the chain and those after it; [prev] is the one before. *)
Fixpoint import (recur : list FullBlock -> BC -> outcome Empty_set (BC * imported)) (fuel : nat) (results : nat -> option header_error)
    (i : nat) (prev : option FullBlock) (chain : list FullBlock) (events : list chainEvent) (logs : list StateLog) (lastCanon : option FullBlock) bc : outcome Empty_set (BC * imported) :=
  match chain with
  | [] => finishImport events logs lastCanon bc
  | block :: rest =>
      let next := import recur fuel results (S i) (Some block) rest in
      let process events logs bc :=
        let! (bc, r) := processBlock fuel prev block bc in
        match r with
        | inl e => Ok (bc, stopped i events logs e)
        | inr (CanonStatTy, ls) => next (events ++ [ChainEvent block ls]) (logs ++ ls) (Some block) bc
        | inr (_, _) => next (events ++ [ChainSideEvent block]) logs lastCanon bc
        end in
      if interrupted i then finishImport events logs lastCanon bc
      else if BadHashes (blockHash block) then Ok (report block bc, stopped i events logs ErrBanned)
      else
        let! (bc, v) := judge (results i) block bc in
        match v with
        | Fine => process events logs bc
        | KnownBlock => if NumberU64 block <=? NumberU64 (currentBlock bc) then next events logs lastCanon bc else process events logs bc
        | FutureBlock =>
            if now + maxTimeFutureBlocks <? h_Time (fb_header block) then Ok (bc, stopped i events logs ErrTooFarInFuture)
            else next events logs lastCanon (queue block bc)
        | UnknownAncestor =>
            if lru_Contains (parentHash block) (futureBlocks bc) then next events logs lastCanon (queue block bc)
            else Ok (report block bc, stopped i events logs ErrRefused)
        | PrunedAncestor =>
            let (bc, localTd) := bc_GetTd (blockHash (currentBlock bc)) (NumberU64 (currentBlock bc)) bc in
            let (bc, ptd) := bc_GetTd (parentHash block) (parentNumber block) bc in
            let! ptd := must ptd in
            let! localTd := must localTd in
            let externTd := ptd + h_Difficulty (fb_header block) in
            if externTd <? localTd then
              let! bc := WriteBlockWithoutState block externTd bc in
              next events logs lastCanon bc
            else
              let! (bc, r) := importFork recur fuel block bc in
              match i_error r with
              | Some e => Ok (bc, stopped i (i_events r) (i_logs r) e)
              | None => process (i_events r) (i_logs r) bc
              end
        | Refused => Ok (report block bc, stopped i events logs ErrRefused)
        end
  end.

(** [insertChain]; [depth] bounds the imports of forks inside imports. *)
Fixpoint insertChain (depth fuel : nat) (chain : list FullBlock) bc : outcome Empty_set (BC * imported) :=
  match depth with
  | O => NoFuel
  | S depth =>
      match (match chain with [] => None | b :: chain => linkedBlocks 1 b chain end) with
      | Some e => Ok (bc, stopped 0 [] [] e)
      | None => import (insertChain depth fuel) fuel (VerifyHeaders (map (fun b => fb_header b) chain)) 0 None chain [] [] None bc
      end
  end.

(** * Rewinding, opening and fast synchronisation *)

(** [Rollback]: heads that are among the given hashes, the last first, move to their parents. *)
Definition rollbackOne (h : bytes) bc : outcome Empty_set BC :=
  let x := currentHeader (hc bc) in
  let! bc :=
    if bool_decide (Header_Hash sha x = h) then
      let (hc', parent) := GetHeader (h_ParentHash x) (parent64 x) (hc bc) in
      let! parent := must parent in Ok (with_hc bc (SetCurrentHeader sha parent hc'))
    else Ok bc in
  let fast := currentFastBlock bc in
  let! bc :=
    if bool_decide (blockHash fast = h) then
      let (bc, b) := GetBlock (parentHash fast) (parentNumber fast) bc in
      let! b := must b in let bc := with_fast bc b in Ok (on_db bc (WriteHeadFastBlockHash (blockHash b) (bc_db bc)))
    else Ok bc in
  let current := currentBlock bc in
  if bool_decide (blockHash current = h) then
    let (bc, b) := GetBlock (parentHash current) (parentNumber current) bc in
    let! b := must b in let bc := with_head bc b in Ok (on_db bc (WriteHeadBlockHash (blockHash b) (bc_db bc)))
  else Ok bc.
Fixpoint rollbackAll (chain : list bytes) bc : outcome Empty_set BC := match chain with [] => Ok bc | h :: chain => let! bc := rollbackOne h bc in rollbackAll chain bc end.
Definition Rollback (chain : list bytes) bc : outcome Empty_set BC := rollbackAll (reverse chain) bc.

(** [repair]: from a block down to one whose state is there. *)
Fixpoint repair (fuel : nat) (head : option FullBlock) bc : outcome Empty_set (BC * FullBlock) :=
  let! b := must head in
  if HasState (h_Root (fb_header b)) bc then Ok (bc, b)
  else match fuel with O => NoFuel | S fuel => let (bc, parent) := GetBlock (parentHash b) (parentNumber b) bc in repair fuel parent bc end.

(** [SetHead] of the block chain; [load] reads the heads back. *)
Definition bc_SetHead (fuel : nat) (load : BC -> outcome Empty_set BC) (head : Z) bc : outcome Empty_set BC :=
  let! hc' := hc_SetHead sha fuel head DeleteBody (hc bc) in
  let bc := with_hc bc hc' in
  let x := currentHeader (hc bc) in
  let bc := with_future (with_blocks (with_bodies bc (lru_Purge (bodyCache bc))) (lru_Purge (blockCache bc))) (lru_Purge (futureBlocks bc)) in
  let (bc, current) := if number64 x <? NumberU64 (currentBlock bc) then GetBlock (Header_Hash sha x) (number64 x) bc else (bc, Some (currentBlock bc)) in
  let current := match current with Some b => if HasState (h_Root (fb_header b)) bc then b else genesisBlock bc | None => genesisBlock bc end in
  let (bc, fast) := if number64 x <? NumberU64 (currentFastBlock bc) then GetBlock (Header_Hash sha x) (number64 x) bc else (bc, Some (currentFastBlock bc)) in
  let fast := default (genesisBlock bc) fast in
  let bc := with_fast (with_head bc current) fast in
  let bc := on_db bc (WriteHeadFastBlockHash (blockHash fast) (WriteHeadBlockHash (blockHash current) (bc_db bc))) in
  load bc.

(** [ResetWithGenesisBlock], after the chain was rewound. *)
Definition restart (genesis : FullBlock) bc : outcome Empty_set BC :=
  let! hc' := hc_WriteTd (blockHash genesis) (NumberU64 genesis) (h_Difficulty (fb_header genesis)) (hc bc) in
  let bc := with_hc bc hc' in
  let! db := WriteBlock sha genesis (bc_db bc) in
  let bc := on_db bc db in
  let bc := bc_insert genesis (with_genesis bc genesis) in
  let bc := with_head bc genesis in
  let hc' := hc bc in
  let hc' := MkHeaderChain (chainDb hc') (fb_header genesis) (currentHeader hc') (currentHeaderHash hc') (headerCache hc') (tdCache hc') (numberCache hc') in
  Ok (with_fast (with_hc bc (SetCurrentHeader sha (fb_header genesis) hc')) genesis).

(** The end of [loadLastState], once the head block is known. *)
Definition restoreHeads (current : FullBlock) bc : BC :=
  let bc := with_head bc current in
  let head := ReadHeadHeaderHash (bc_db bc) in
  let (hc', header) := if bool_decide (head = zeroHash) then (hc bc, None) else GetHeaderByHash head (hc bc) in
  let bc := with_hc bc (SetCurrentHeader sha (default (fb_header current) header) hc') in
  let bc := with_fast bc current in
  let fastHead := ReadHeadFastBlockHash (bc_db bc) in
  let (bc, fast) := if bool_decide (fastHead = zeroHash) then (bc, None) else GetBlockByHash fastHead bc in
  with_fast bc (default current fast).

(** [loadLastState]; [started] says whether a head was ever set.  Without one, rewinding
    fails: there is no current block to compare with. *)
Fixpoint loadLastState (depth fuel : nat) (started : bool) bc : outcome Empty_set BC :=
  match depth with
  | O => NoFuel
  | S depth =>
      let reset bc := if started then let! bc := bc_SetHead fuel (loadLastState depth fuel true) 0 bc in restart (genesisBlock bc) bc else Panic in
      let head := ReadHeadBlockHash (bc_db bc) in
      if bool_decide (head = zeroHash) then reset bc
      else match GetBlockByHash head bc with
      | (bc, None) => reset bc
      | (bc, Some current) => let! (bc, current) := repair fuel (Some current) bc in Ok (restoreHeads current bc)
      end
  end.
Definition SetHead (depth fuel : nat) (head : Z) bc : outcome Empty_set BC := bc_SetHead fuel (loadLastState depth fuel true) head bc.
Definition Reset (depth fuel : nat) bc : outcome Empty_set BC := let! bc := SetHead depth fuel 0 bc in restart (genesisBlock bc) bc.

(** Banned headers that are canonical are rewound; [bad] are the hashes of [BadHashes]. *)
Fixpoint dropBad (depth fuel : nat) (bad : list bytes) bc : outcome Empty_set BC :=
  match bad with
  | [] => Ok bc
  | h :: bad =>
      let (hc', header) := GetHeaderByHash h (hc bc) in
      let bc := with_hc bc hc' in
      match header with
      | None => dropBad depth fuel bad bc
      | Some x =>
          let (hc', byNumber) := GetHeaderByNumber (number64 x) (hc bc) in
          let bc := with_hc bc hc' in
          match byNumber with
          | Some y => if bool_decide (Header_Hash sha y = Header_Hash sha x) then let! bc := SetHead depth fuel (parent64 x) bc in dropBad depth fuel bad bc else dropBad depth fuel bad bc
          | None => dropBad depth fuel bad bc
          end
      end
  end.

(** [NewBlockChain] *)
Definition NewBlockChain (depth fuel : nat) (bad : list bytes) (db : KV) (states : SC) : outcome Empty_set (BC + chain_error) :=
  match NewHeaderChain sha db with
  | inr e => Ok (inr e)
  | inl h =>
      let nothing := MkFullBlock (MkBlock noHeader []) [] in
      let bc := MkBlockChain h nothing nothing nothing states (NewLRU bodyCacheLimit) (NewLRU blockCacheLimit) (NewLRU maxFutureBlocks) (NewLRU badBlockLimit) 0 in
      match GetBlockByNumber 0 bc with
      | (_, None) => Ok (inr ErrNoGenesis)
      | (bc, Some genesis) =>
          let! bc := loadLastState depth fuel false (with_genesis bc genesis) in
          let! bc := dropBad depth fuel bad bc in
          Ok (inl bc)
      end
  end.

Definition FastSyncCommitHead (h : bytes) bc : BC * option import_error :=
  match GetBlockByHash h bc with
  | (bc, None) => (bc, Some ErrNoBlock)
  | (bc, Some b) => if HasState (h_Root (fb_header b)) bc then (with_head bc b, None) else (bc, Some ErrMissingState)
  end.
End blockchain.
