(* ===== verification/BlockChainLaws.v ===== *)
(** The chain of blocks keeps its head the heaviest block it knows, and the canonical numbers up to
    the head its ancestors: what [BlockChain.v] defines, against the tree of known blocks. *)

From stdpp Require Import base numbers list gmap.
From S2P Require Import Prelude.
From S2P Require Import CommonMath.
From S2P Require Import Params.
From S2P Require Import RlpEncode.
From S2P Require Import RlpRaw.
From S2P Require Import RlpStream.
From S2P Require Import RlpTyped.
From S2P Require Import VmData.
From S2P Require Import VmWorld.
From S2P Require Import State.
From S2P Require Import Types.
From S2P Require Import Transactions.
From S2P Require Import Blocks.
From S2P Require Import Validator.
From S2P Require Import Lru.
From S2P Require Import ChainDB.
From S2P Require Import HeaderChain.
From S2P Require Import BlockChain.
Local Open Scope Z_scope.
Local Open Scope go_scope.

(** * The tree of known blocks *)

(** As they are read back, by hash, with their total difficulties. *)
Abbreviation BTree := (gmap bytes (FullBlock * Z)).
Definition headersOf (B : BTree) : Tree := (fun e => (fb_header e.1, e.2)) <$> B.
Definition strip (b : FullBlock) : FullBlock := MkFullBlock (fb_block b) (map received (fb_transactions b)).

Lemma headersOf_Some (B : BTree) h b d : B !! h = Some (b, d) -> headersOf B !! h = Some (fb_header b, d).
Proof. intros E. unfold headersOf. by rewrite lookup_fmap, E. Qed.
Lemma headersOf_inv (B : BTree) h x d : headersOf B !! h = Some (x, d) -> exists b, B !! h = Some (b, d) /\ x = fb_header b.
Proof. unfold headersOf. rewrite lookup_fmap. destruct (B !! h) as [[b d']|]; [|done]. intros [= <- <-]. by exists b. Qed.

Section reading.
Context {SC : Type} (sha : bytes -> bytes) (hash_len : forall b, length (sha b) = 32%nat).
Implicit Types (bc : BlockChain SC) (B : BTree).
Abbreviation hashOf := (blockHash sha).

Record holds B bc : Prop := {
  ho_heads : heads (headersOf B) (hc bc);
  ho_bodies : forall h b d, is_hash32 h -> is_u64 (h_Number (fb_header b)) -> B !! h = Some (b, d) -> ReadBody (bc_db bc) h (h_Number (fb_header b)) = Some (blockBody b);
  ho_blocks : coherent (fun h => fst <$> B !! h) (blockCache bc) }.

(** What reading leaves as it was. *)
Record same_bc bc bc' : Prop := {
  sb_chain : same_chain (hc bc) (hc bc');
  sb_tds : tdCache (hc bc') = tdCache (hc bc);
  sb_genesis : genesisBlock bc' = genesisBlock bc;
  sb_current : currentBlock bc' = currentBlock bc;
  sb_fast : currentFastBlock bc' = currentFastBlock bc;
  sb_future : futureBlocks bc' = futureBlocks bc;
  sb_states : stateCache bc' = stateCache bc }.
#[export] Instance same_bc_refl : Reflexive same_bc.
Proof. intros bc. by split. Qed.
#[export] Instance same_bc_trans : Transitive same_bc.
Proof. intros x y z [(A1 & A2 & A3 & A4) B1 C1 D1 E1 F1 G1] [(A1' & A2' & A3' & A4') B2 C2 D2 E2 F2 G2]. split; unfold same_chain; try congruence. split_and!; congruence. Qed.

Context (B : BTree) (root : bytes) (Hok : tree_ok sha (headersOf B) root).

Lemma block_32 b : is_hash32 (hashOf b).
Proof using hash_len. apply hash_len. Qed.
Lemma entry_hash h b d : B !! h = Some (b, d) -> hashOf b = h.
Proof using Hok. intros E%headersOf_Some. apply (e_hash _ _ _ _ _ _ (t_entry _ _ _ Hok _ _ _ E)). Qed.
Lemma entry_storable h b d : B !! h = Some (b, d) -> storable_header (fb_header b).
Proof using Hok. intros E%headersOf_Some. apply (e_storable _ _ _ _ _ _ (t_entry _ _ _ Hok _ _ _ E)). Qed.
Lemma entry_bound h b d : B !! h = Some (b, d) -> 0 <= h_Number (fb_header b) < 2 ^ 64 - 1.
Proof using Hok. intros E%headersOf_Some. apply (entry_number _ _ _ Hok _ _ _ E). Qed.
Lemma NumberU64_small b : is_u64 (h_Number (fb_header b)) -> NumberU64 b = h_Number (fb_header b).
Proof. apply u64_small. Qed.
Lemma entry_NumberU64 h b d : B !! h = Some (b, d) -> NumberU64 b = h_Number (fb_header b).
Proof using Hok. intros E%entry_bound. apply NumberU64_small. unfold is_u64. lia. Qed.

Lemma ReadBlock_ok bc h n : holds B bc -> is_hash32 h -> is_u64 n -> right_number (headersOf B) h n -> ReadBlock (bc_db bc) h n = fst <$> B !! h.
Proof.
  intros [Hh Hb _] H32 H64 Hr. unfold ReadBlock. rewrite (hd_header _ _ Hh) by done. rewrite at_number_right by done.
  destruct (B !! h) as [[b d]|] eqn:E; unfold headersOf; rewrite lookup_fmap, E; [|done]. cbn. rewrite <- (Hr _ _ (headersOf_Some _ _ _ _ E)).
  rewrite (Hb _ _ _ H32) by (done || by rewrite (Hr _ _ (headersOf_Some _ _ _ _ E))). cbn. by destruct b as [[]].
Qed.

Lemma GetBlock_ok bc h n : holds B bc -> is_hash32 h -> is_u64 n -> right_number (headersOf B) h n ->
  exists bc', GetBlock sha h n bc = (bc', fst <$> B !! h) /\ holds B bc' /\ same_bc bc bc'.
Proof using Hok.
  intros Hh H32 H64 Hr. pose proof (ho_blocks _ _ Hh) as Hc. unfold GetBlock. pose proof (Get_coherent _ h _ Hc) as [H1 H2]. destruct (lru_Get h (blockCache bc)) as [c [b|]]; cbn in H1, H2.
  - rewrite (H2 b eq_refl). eexists. split; [done|]. split; [|done]. by destruct Hh; split.
  - rewrite ReadBlock_ok by done. destruct (B !! h) as [[b d]|] eqn:E; cbn.
    + eexists. split; [done|]. split; [|done]. destruct Hh as [A1 A2 _]. split; [done..|]. apply Add_coherent; [done|]. by rewrite (entry_hash _ _ _ E), E.
    + eexists. split; [done|]. split; [|done]. by destruct Hh; split.
Qed.

Lemma collectLogs_ok bc h : holds B bc -> is_hash32 h -> exists bc' ls, collectLogs h bc = (bc', ls) /\ holds B bc' /\ same_bc bc bc'.
Proof.
  intros [A1 A2 A3] H32. unfold collectLogs. destruct (GetBlockNumber_heads _ _ h A1 H32) as (c & -> & A1'). destruct (B !! h) as [[b d]|] eqn:E; unfold headersOf; rewrite lookup_fmap, E; cbn;
    (eexists _, _; split; [done|]; split; [|done]); by split.
Qed.
End reading.

(** * What writes touch *)

(** [db'] comes from [db] by writing and deleting under keys of one kind. *)
Inductive touched (Q : Key -> Prop) (db : KV) : KV -> Prop :=
| touched_refl : touched Q db db
| touched_put db' k v : touched Q db db' -> key_wf k -> Q k -> touched Q db (Put k v db')
| touched_delete db' k : touched Q db db' -> key_wf k -> Q k -> touched Q db (Delete k db').

Section touching.
Implicit Types (Q : Key -> Prop) (db : KV) (k : Key).

Lemma touched_trans Q db1 db2 db3 : touched Q db1 db2 -> touched Q db2 db3 -> touched Q db1 db3.
Proof. intros H12. induction 1; [done|by apply touched_put|by apply touched_delete]. Qed.
Lemma touched_impl Q Q' db db' : (forall k, Q k -> Q' k) -> touched Q db db' -> touched Q' db db'.
Proof. intros Hi. induction 1; [apply touched_refl|apply touched_put; auto|apply touched_delete; auto]. Qed.
Lemma touched_reads Q db db' k : touched Q db db' -> key_wf k -> ~ Q k -> Get db' k = Get db k /\ Has db' k = Has db k.
Proof.
  intros Ht Hk Hn. induction Ht as [|db' k' v _ [IH1 IH2] Hk' HQ|db' k' _ [IH1 IH2] Hk' HQ]; [done|..].
  - by rewrite Get_Put, Has_Put, !decide_False by (done || by intros ->).
  - by rewrite Get_Delete, Has_Delete, !decide_False by (done || by intros ->).
Qed.

(** Numbers, heads and where transactions are. *)
Definition positional k : Prop := match k with CanonicalKey _ | HeadHeaderKey | HeadBlockKey | HeadFastBlockKey | LookupKey _ => True | _ => False end.
Definition isLookup k : Prop := match k with LookupKey _ => True | _ => False end.
Definition isTd k : Prop := match k with TdKey _ _ => True | _ => False end.
Lemma isLookup_positional k : isLookup k -> positional k.
Proof. by destruct k. Qed.

Lemma canonical_touched Q db db' n : touched Q db db' -> is_u64 n -> (forall m, ~ Q (CanonicalKey m)) -> ReadCanonicalHash db' n = ReadCanonicalHash db n.
Proof. intros Ht Hn HQ. unfold ReadCanonicalHash. by destruct (touched_reads Q db db' (CanonicalKey n) Ht Hn (HQ n)) as [-> _]. Qed.

Lemma heads_touched Q T hc db : (forall h, ~ Q (NumberKey h)) -> (forall n h, ~ Q (HeaderKey n h)) -> heads T hc -> touched Q (chainDb hc) db -> heads T (with_db hc db).
Proof.
  intros HQ1 HQ2 [H1 H2 H3 H4 H5] Ht. split; [..|done|done]; cbn [with_db chainDb].
  - intros h Hh. unfold ReadHeaderNumber. destruct (touched_reads _ _ _ (NumberKey h) Ht Hh) as [-> _]; [done|]. by apply H1.
  - intros h n Hh Hn. unfold ReadHeader. destruct (touched_reads _ _ _ (HeaderKey n h) Ht) as [-> _]; [done..|]. by apply H2.
  - intros h n Hh Hn. unfold HasHeader. destruct (touched_reads _ _ _ (HeaderKey n h) Ht) as [_ ->]; [done..|]. by apply H3.
Qed.
Lemma tds_touched Q T hc db : (forall n h, ~ Q (TdKey n h)) -> tds T hc -> touched Q (chainDb hc) db -> tds T (with_db hc db).
Proof.
  intros HQ [H1 H2] Ht. split; [|done]. intros h n Hh Hn. cbn [with_db chainDb]. unfold ReadTd. destruct (touched_reads _ _ _ (TdKey n h) Ht) as [-> _]; [done..|]. by apply H1.
Qed.

Lemma writeEntries_touched sha h n txs : (forall b, length (sha b) = 32%nat) -> forall i db db', writeEntries sha h n i txs db = Ok db' -> touched isLookup db db'.
Proof.
  intros Hlen. induction txs as [|tx txs IH]; intros i db db'; cbn [writeEntries]; [intros [= <-]; apply touched_refl|].
  intros (data & _ & H)%outcome_bind_ok. apply IH in H. refine (touched_trans _ _ _ _ _ H). apply touched_put; [apply touched_refl|by apply txHash_wf|done].
Qed.
Lemma deleteEntries_touched sha txs : (forall b, length (sha b) = 32%nat) -> forall db, touched isLookup db (deleteEntries sha txs db).
Proof.
  intros Hlen. induction txs as [|tx txs IH]; intros db; [apply touched_refl|]. refine (touched_trans _ _ _ _ _ (IH _)). apply touched_delete; [apply touched_refl|by apply txHash_wf|done].
Qed.
End touching.

(** * The head moves *)

Section moving.
Context {SC : Type} (sha : bytes -> bytes) (hash_len : forall b, length (sha b) = 32%nat).
Implicit Types (bc : BlockChain SC) (B : BTree) (b : FullBlock).
Abbreviation hashOf := (blockHash sha).
Abbreviation canon bc := (ReadCanonicalHash (bc_db bc)).

(** Only heads, numbers and entries changed. *)
Record moved bc bc' : Prop := {
  mv_db : touched positional (bc_db bc) (bc_db bc');
  mv_headers : headerCache (hc bc') = headerCache (hc bc);
  mv_tds : tdCache (hc bc') = tdCache (hc bc);
  mv_numbers : numberCache (hc bc') = numberCache (hc bc);
  mv_blocks : blockCache bc' = blockCache bc;
  mv_future : futureBlocks bc' = futureBlocks bc;
  mv_genesis : genesisBlock bc' = genesisBlock bc /\ genesisHeader (hc bc') = genesisHeader (hc bc) }.
#[export] Instance moved_refl : Reflexive moved.
Proof. intros bc. split; [apply touched_refl|done..]. Qed.
#[export] Instance moved_trans : Transitive moved.
Proof.
  intros x y z [A1 A2 A3 A4 A5 A6 [A7 A8]] [B1 B2 B3 B4 B5 B6 [B7 B8]]. split; try congruence; [by apply (touched_trans _ _ (bc_db y))|split; congruence].
Qed.

Lemma holds_moved B bc bc' : holds B bc -> moved bc bc' -> holds B bc'.
Proof.
  intros [H1 H2 H3] [M1 M2 M3 M4 M5 _ _]. split.
  - destruct (heads_touched positional _ _ _ ltac:(by intros ? []) ltac:(by intros ? ? []) H1 M1) as [A1 A2 A3 A4 A5]. split; [done..|by rewrite M2|by rewrite M4].
  - intros h b d Hh Hn E. rewrite <- (H2 h b d Hh Hn E). unfold ReadBody. by destruct (touched_reads _ _ _ (BodyKey (h_Number (fb_header b)) h) M1) as [-> _]; [|by intros []|].
  - by rewrite M5.
Qed.
Lemma tds_moved T bc bc' : tds T (hc bc) -> moved bc bc' -> tds T (hc bc').
Proof. intros H [M1 M2 M3 _ _ _ _]. destruct (tds_touched positional _ _ _ ltac:(by intros ? ? []) H M1) as [A1 A2]. split; [done|by rewrite M3]. Qed.

(** [bc_insert] gives the block its number and makes it the head. *)
Lemma bc_insert_ok b bc : is_u64 (h_Number (fb_header b)) ->
  let bc' := bc_insert sha b bc in
  moved bc bc' /\ currentBlock bc' = b /\ (forall n, is_u64 n -> canon bc' n = if decide (n = h_Number (fb_header b)) then hashOf b else canon bc n) /\
  (if decide (canon bc (h_Number (fb_header b)) = hashOf b) then currentHeader (hc bc') = currentHeader (hc bc) /\ currentHeaderHash (hc bc') = currentHeaderHash (hc bc)
   else currentHeader (hc bc') = fb_header b /\ currentHeaderHash (hc bc') = hashOf b).
Proof using hash_len.
  intros Hn bc'. pose proof (block_32 sha hash_len b) as H32. assert (forall m, is_u64 m -> hashOr (hashOf b) = hashOf b) as Hor by (intros; by apply hashOr_id).
  assert (forall n db, is_u64 n -> ReadCanonicalHash (WriteHeadBlockHash (hashOf b) (WriteCanonicalHash (hashOf b) (h_Number (fb_header b)) db)) n = if decide (n = h_Number (fb_header b)) then hashOf b else ReadCanonicalHash db n) as Hc.
  { intros n db Hn'. unfold WriteHeadBlockHash, WriteCanonicalHash. rewrite ReadCanonicalHash_Put, decide_False, ReadCanonicalHash_Put by done. destruct (decide (n = h_Number (fb_header b))) as [->|Hne].
    - rewrite decide_True by done. by apply hashOr_id.
    - by rewrite decide_False by congruence. }
  assert (touched positional (bc_db bc) (WriteHeadBlockHash (hashOf b) (WriteCanonicalHash (hashOf b) (h_Number (fb_header b)) (bc_db bc)))) as Ht by (repeat (apply touched_put; [|done|done]); apply touched_refl).
  unfold bc', bc_insert. rewrite !NumberU64_small by done. destruct (decide (canon bc (h_Number (fb_header b)) = hashOf b)) as [E|E].
  - rewrite bool_decide_eq_true_2 by done. cbn [negb]. split_and!; [by split|done|by intros n Hn'; apply Hc|done..].
  - rewrite bool_decide_eq_false_2 by done. cbn [negb]. split_and!; [|done| |done..].
    + split; try done. do 2 (apply touched_put; [|done|done]). exact Ht.
    + intros n Hn'. rewrite <- Hc by done. do 2 (etrans; [apply ReadCanonicalHash_Put; done|]; rewrite decide_False by done). done.
Qed.

Context (hash_ok : forall s : bytes, bytes_ok (sha s)).

(** Blocks whose transactions can be indexed. *)
Definition indexable b : Prop := is_u64 (h_Number (fb_header b)) /\ zlen (fb_transactions b) < 2 ^ 64 /\ NoDup (map (fun tx => tx_Hash sha (tx_data tx)) (fb_transactions b)).

Lemma WriteTxLookupEntries_ok b db : indexable b -> exists db', WriteTxLookupEntries sha b db = Ok db' /\ touched isLookup db db'.
Proof using hash_len hash_ok.
  intros (Hn & Hl & Hd). unfold WriteTxLookupEntries. rewrite u64_small by done.
  destruct (writeEntries_ok sha hash_len (hashOf b) (h_Number (fb_header b)) (fb_transactions b)) with (i := 0) (db := db) as (db' & E & _); [split; [apply hash_len|apply hash_ok]|done|lia|lia|done|].
  exists db'. split; [exact E|]. by eapply writeEntries_touched.
Qed.

(** Canonical numbers after the blocks of a chain, the highest first, took theirs. *)
Fixpoint renumbered (l : list FullBlock) (c : Z -> bytes) (n : Z) : bytes :=
  match l with [] => c n | b :: l => if decide (n = h_Number (fb_header b)) then hashOf b else renumbered l c n end.

Lemma insertAll_app l l' bc : insertAll sha (l ++ l') bc = let! bc := insertAll sha l bc in insertAll sha l' bc.
Proof. revert bc. induction l as [|b l IH]; intros bc; [done|]. cbn [insertAll app]. destruct (WriteTxLookupEntries _ _ _); [|done..]. cbn [outcome_bind]. apply IH. Qed.

Lemma on_db_moved bc db : touched isLookup (bc_db bc) db -> moved bc (on_db bc db) /\ forall n, is_u64 n -> canon (on_db bc db) n = canon bc n.
Proof.
  intros Ht. split; [split; try done; by apply (touched_impl _ _ _ _ isLookup_positional)|]. intros n Hn. apply (canonical_touched isLookup); [done|done|by intros m []].
Qed.

Lemma insertAll_ok l bc : Forall indexable l -> exists bc', insertAll sha (reverse l) bc = Ok bc' /\ moved bc bc' /\ (forall n, is_u64 n -> canon bc' n = renumbered l (canon bc) n) /\
  match l with
  | [] => bc' = bc
  | b :: l => currentBlock bc' = b /\ (renumbered l (canon bc) (h_Number (fb_header b)) <> hashOf b -> currentHeader (hc bc') = fb_header b /\ currentHeaderHash (hc bc') = hashOf b)
  end.
Proof using hash_len hash_ok.
  induction l as [|b l IH]; intros Hl; [by exists bc|]. apply Forall_cons in Hl as [Hb Hl]. destruct (IH Hl) as (bc1 & E1 & M1 & C1 & _). rewrite reverse_cons, insertAll_app, E1. cbn [outcome_bind insertAll].
  pose proof Hb as (Hn & _). destruct (bc_insert_ok b bc1 Hn) as (M2 & Hcur & C2 & Hhead). set (bc2 := bc_insert sha b bc1) in *.
  destruct (WriteTxLookupEntries_ok b (bc_db bc2) Hb) as (db & -> & Ht). cbn [outcome_bind]. destruct (on_db_moved bc2 db Ht) as [M3 C3]. eexists. split; [done|]. split_and!; [|..|exact Hcur|].
  - etrans; [exact M1|]. etrans; [exact M2|exact M3].
  - intros n Hn'. rewrite C3, C2 by done. cbn [renumbered]. destruct (decide (n = h_Number (fb_header b))); [done|]. by apply C1.
  - intros Hne. rewrite decide_False in Hhead by (rewrite C1 by done; exact Hne). exact Hhead.
Qed.
End moving.

(** * Chains in the tree *)

Section chains.
Context (sha : bytes -> bytes).
Implicit Types (B : BTree) (b c : FullBlock).
Abbreviation hashOf := (blockHash sha).

(** [l] leads from [b] down to [c], which it does not contain. *)
Fixpoint chainDown B b (l : list FullBlock) c : Prop :=
  match l with
  | [] => c = b
  | x :: l => x = b /\ exists p d, B !! parentHash b = Some (p, d) /\ h_Number (fb_header b) = h_Number (fb_header p) + 1 /\ chainDown B p l c
  end.
Lemma chainDown_app B b l c l' c' : chainDown B b l c -> chainDown B c l' c' -> chainDown B b (l ++ l') c'.
Proof. revert b. induction l as [|x l IH]; intros b; [by intros <-|]. cbn. intros (-> & p & d & Hp & En & H) H'. split; [done|]. exists p, d. split_and!; [done..|]. by apply IH. Qed.

(** A block that has its place in the tree: the root, or one whose parent is there. *)
Definition attached B root b : Prop :=
  (h_Number (fb_header b) = 0 /\ hashOf b = root) \/ exists p d, B !! parentHash b = Some (p, d) /\ h_Number (fb_header b) = h_Number (fb_header p) + 1.
Lemma known_attached B root b d : tree_ok sha (headersOf B) root -> headersOf B !! hashOf b = Some (fb_header b, d) -> attached B root b.
Proof.
  intros Hok E. destruct (e_parent _ _ _ _ _ _ (t_entry _ _ _ Hok _ _ _ E)) as [H0|(x & dp & Hp & En & _)]; [left; tauto|].
  destruct (headersOf_inv _ _ _ _ Hp) as (p & Ep & ->). right. by exists p, dp.
Qed.
Lemma entry_attached B root h b d : tree_ok sha (headersOf B) root -> B !! h = Some (b, d) -> attached B root b.
Proof. intros Hok E. apply (known_attached _ _ _ d Hok), headersOf_Some. by rewrite (entry_hash sha B root Hok _ _ _ E). Qed.

(** Along a chain that is in the tree, the renumbered hashes are the ancestors. *)
Lemma renumbered_ok B (T : Tree) b l c canon : headersOf B ⊆ T -> (exists d, T !! hashOf b = Some (fb_header b, d)) ->
  chainDown B b l c -> (forall h x d, B !! h = Some (x, d) -> hashOf x = h) -> 0 <= h_Number (fb_header c) ->
  (forall n, 0 <= n <= h_Number (fb_header c) -> canon n = hashAt T (hashOf c) (h_Number (fb_header c)) n) ->
  forall n, 0 <= n <= h_Number (fb_header b) -> renumbered sha l canon n = hashAt T (hashOf b) (h_Number (fb_header b)) n.
Proof.
  intros HS [d Hb] Hd Hh Hc0 Hc. revert b d Hb Hd. induction l as [|x l IH]; intros b d Hb; cbn [chainDown renumbered]; [intros ->; exact Hc|].
  intros (-> & p & dp & Hp & En & Hd) n Hn. pose proof (lookup_weaken _ _ _ _ (headersOf_Some _ _ _ _ Hp) HS) as HpT. case_decide as E; [subst n; by rewrite (hashAt_top T _ _ _ Hb)|].
  rewrite (hashAt_parent T _ _ _ n Hb) by lia. rewrite <- (Hh _ _ _ Hp) in HpT. rewrite (IH p dp HpT Hd n) by lia. unfold parentHash in Hp. rewrite (Hh _ _ _ Hp). by replace (h_Number (fb_header b) - 1) with (h_Number (fb_header p)) by lia.
Qed.
End chains.

(** * Finding the common ancestor *)

Section walking.
Context {SC : Type} (sha : bytes -> bytes) (hash_len : forall s : bytes, length (sha s) = 32%nat).
Implicit Types (bc : BlockChain SC) (b : FullBlock).
Abbreviation hashOf := (blockHash sha).
Context (B : BTree) (root : bytes) (Hok : tree_ok sha (headersOf B) root).
Abbreviation num b := (h_Number (fb_header b)).

Lemma parent_ok b p d : B !! parentHash b = Some (p, d) -> num b = num p + 1 -> forall bc, holds B bc ->
  exists bc', GetBlock sha (parentHash b) (parentNumber b) bc = (bc', Some p) /\ holds B bc' /\ same_bc bc bc'.
Proof using Hok hash_len.
  intros Hp En bc Hh. pose proof (entry_bound _ _ _ Hok _ _ _ Hp) as Np. assert (parentNumber b = num p) as ->.
  { unfold parentNumber. rewrite NumberU64_small by (unfold is_u64; lia). rewrite u64_small by (unfold is_u64; lia). lia. }
  destruct (GetBlock_ok sha B root Hok bc (parentHash b) (num p) Hh) as (bc' & E & Hh' & Hs).
  { rewrite <- (entry_hash _ _ _ Hok _ _ _ Hp). by apply block_32. } { unfold is_u64; lia. } { intros x dx. rewrite (headersOf_Some _ _ _ _ Hp). by intros [= <- <-]. }
  rewrite Hp in E. by exists bc'.
Qed.

Lemma reduceTo_ok collect n fuel : 0 <= n -> forall b chain logs bc, attached sha B root b -> n <= num b < 2 ^ 64 - 1 -> (Z.to_nat (num b) < fuel)%nat -> holds B bc ->
  exists bc' c l logs', reduceTo sha fuel collect n b chain logs bc = Ok (bc', Some c, chain ++ l, logs') /\ holds B bc' /\ same_bc bc bc' /\ chainDown B b l c /\ num c = n /\ attached sha B root c /\
    (l = [] /\ c = b \/ exists d, B !! hashOf c = Some (c, d)).
Proof using Hok hash_len.
  intros Hn. induction fuel as [|fuel IH]; intros b chain logs bc Ha Hb Hf Hh; [lia|]. cbn [reduceTo]. rewrite NumberU64_small by (unfold is_u64; lia). destruct (Z.eqb_spec (num b) n) as [E|E].
  - exists bc, b, [], logs. rewrite app_nil_r. split_and!; try done. by left.
  - destruct Ha as [[H0 _]|(p & d & Hp & En)]; [lia|]. pose proof (entry_hash _ _ _ Hok _ _ _ Hp) as Ehp.
    assert (exists bc1 ls, (if collect then collectLogs (hashOf b) bc else (bc, [])) = (bc1, ls) /\ holds B bc1 /\ same_bc bc bc1) as (bc1 & ls & -> & Hh1 & Hs1).
    { destruct collect; [apply collectLogs_ok; [done|by apply block_32]|by exists bc, []]. }
    destruct (parent_ok b p d Hp En bc1 Hh1) as (bc2 & -> & Hh2 & Hs2).
    destruct (IH p (chain ++ [b]) (logs ++ ls) bc2) as (bc' & c & l & logs' & E' & Hh' & Hs' & Hd & Hc & Hac & Hin); [by apply (entry_attached _ _ _ _ _ _ Hok Hp)|lia|lia|done|].
    exists bc', c, (b :: l), logs'. rewrite <- app_assoc in E'. split_and!; [exact E'|done| |split; [done|by exists p, d]|done|done|].
    + etrans; [done|]. by etrans.
    + right. destruct Hin as [[_ ->]|Hin]; [exists d; by rewrite Ehp|done].
Qed.

(** Two blocks at one height have a common ancestor. *)
Lemma meet_ok fuel : forall old new oldChain newChain logs bc, attached sha B root old -> attached sha B root new -> num old = num new -> 0 <= num old < 2 ^ 64 - 1 -> (Z.to_nat (num old) < fuel)%nat -> holds B bc ->
  exists bc' l1 l2 c c' logs', bc_meet sha fuel old new oldChain newChain logs bc = Ok (bc', inr (oldChain ++ l1, newChain ++ l2, logs')) /\ holds B bc' /\ same_bc bc bc' /\
    chainDown B old l1 c /\ chainDown B new l2 c' /\ hashOf c = hashOf c' /\ num c = num c' /\ (hashOf old = hashOf new -> l2 = []).
Proof using Hok hash_len.
  induction fuel as [|fuel IH]; intros old new oldChain newChain logs bc Ha Ha' En Hn Hf Hh; [lia|]. cbn [bc_meet]. destruct (decide (hashOf old = hashOf new)) as [E|E].
  - rewrite bool_decide_eq_true_2 by done. exists bc, [], [], old, new, logs. by rewrite !app_nil_r.
  - rewrite bool_decide_eq_false_2 by done. destruct Ha as [[H0 Hr]|(p & d & Hp & Enp)]; destruct Ha' as [[H0' Hr']|(q & dq & Hq & Enq)].
    { by rewrite Hr, Hr' in E. } { pose proof (entry_bound _ _ _ Hok _ _ _ Hq). lia. } { pose proof (entry_bound _ _ _ Hok _ _ _ Hp). lia. }
    destruct (collectLogs_ok B bc (hashOf old) Hh (block_32 sha hash_len old)) as (bc1 & ls & -> & Hh1 & Hs1).
    destruct (parent_ok old p d Hp Enp bc1 Hh1) as (bc2 & -> & Hh2 & Hs2).
    destruct (parent_ok new q dq Hq Enq bc2 Hh2) as (bc3 & -> & Hh3 & Hs3).
    pose proof (entry_bound _ _ _ Hok _ _ _ Hp) as Np.
    destruct (IH p q (oldChain ++ [old]) (newChain ++ [new]) (logs ++ ls) bc3) as (bc' & l1 & l2 & c & c' & logs' & E' & Hh' & Hs' & D1 & D2 & Ec & Enc & _);
      [by apply (entry_attached _ _ _ _ _ _ Hok Hp)|by apply (entry_attached _ _ _ _ _ _ Hok Hq)|lia|lia|lia|done|].
    exists bc', (old :: l1), (new :: l2), c, c', logs'. rewrite <- !app_assoc in E'. split_and!; [exact E'|done| |split; [done|by exists p, d]|split; [done|by exists q, dq]|done..].
    etrans; [done|]. etrans; [done|]. by etrans.
Qed.
End walking.

(** * Reorganisation *)

Section reorganising.
Context {SC : Type} (sha : bytes -> bytes) (hash_len : forall s : bytes, length (sha s) = 32%nat) (hash_ok : forall s : bytes, bytes_ok (sha s)).
Implicit Types (bc : BlockChain SC) (b : FullBlock).
Abbreviation hashOf := (blockHash sha).
Abbreviation canon bc := (ReadCanonicalHash (bc_db bc)).
Abbreviation num b := (h_Number (fb_header b)).

(** What neither reading nor moving the head changes. *)
Record kept bc bc' : Prop := {
  kp_db : touched positional (bc_db bc) (bc_db bc');
  kp_tds : tdCache (hc bc') = tdCache (hc bc);
  kp_genesis : genesisBlock bc' = genesisBlock bc /\ genesisHeader (hc bc') = genesisHeader (hc bc);
  kp_future : futureBlocks bc' = futureBlocks bc }.
#[export] Instance kept_trans : Transitive kept.
Proof. intros x y z [A1 A2 [A3 A4] A5] [B1 B2 [B3 B4] B5]. split; try congruence; [by apply (touched_trans _ _ (bc_db y))|split; congruence]. Qed.
Lemma same_bc_kept bc bc' : same_bc bc bc' -> kept bc bc'.
Proof. intros [(E1 & E2 & E3 & E4) H2 H3 H4 H5 H6 H7]. split; [unfold bc_db; rewrite E1; apply touched_refl|done..]. Qed.
Lemma moved_kept bc bc' : moved bc bc' -> kept bc bc'.
Proof. by intros [M1 M2 M3 M4 M5 M6 M7]. Qed.
Lemma tds_kept T bc bc' : tds T (hc bc) -> kept bc bc' -> tds T (hc bc').
Proof. intros H [K1 K2 K3 K4]. destruct (tds_touched positional _ _ _ ltac:(by intros ? ? []) H K1) as [A1 A2]. split; [done|by rewrite K2]. Qed.
Lemma same_canon bc bc' n : same_bc bc bc' -> canon bc' n = canon bc n.
Proof. intros [(E & _) _ _ _ _ _ _]. unfold bc_db. by rewrite E. Qed.

Context (B : BTree) (root : bytes) (Hok : tree_ok sha (headersOf B) root).

Lemma chainDown_indexable b l c : chainDown B b l c -> (l = [] \/ indexable sha b) -> (forall h x d, B !! h = Some (x, d) -> indexable sha x) -> Forall (indexable sha) l.
Proof.
  revert b. induction l as [|x l IH]; intros b; [done|]. cbn. intros (-> & p & d & Hp & _ & Hd) [|Hb] HB; [done|]. constructor; [done|]. apply (IH p Hd); [|done]. right. by apply (HB _ _ _ Hp).
Qed.
Lemma chainDown_renumbered b l c (f : Z -> bytes) n : chainDown B b l c -> num b < n -> renumbered sha l f n = f n.
Proof.
  revert b. induction l as [|x l IH]; intros b; [done|]. cbn. intros (-> & p & d & Hp & En & Hd) Hn. rewrite decide_False by lia. apply (IH p); [done|lia].
Qed.
Lemma chainDown_number b l c : chainDown B b l c -> num c <= num b.
Proof. revert b. induction l as [|x l IH]; intros b; [by intros ->|]. cbn. intros (_ & p & d & Hp & En & Hd). apply IH in Hd. lia. Qed.
(** The end of a chain is the ancestor at its height. *)
Lemma chainDown_hashAt b l c d : headersOf B !! hashOf b = Some (fb_header b, d) -> chainDown B b l c ->
  hashOf c = hashAt (headersOf B) (hashOf b) (num b) (num c) /\ exists d', headersOf B !! hashOf c = Some (fb_header c, d').
Proof using Hok.
  revert b d. induction l as [|x l IH]; intros b d Hb.
  - cbn. intros ->. split; [by rewrite (hashAt_top (headersOf B) _ _ _ Hb)|by exists d].
  - cbn. intros (_ & p & dp & Hp & En & Hd). pose proof (entry_hash _ _ _ Hok _ _ _ Hp) as Eh. rewrite <- Eh in Hp. destruct (IH p dp (headersOf_Some _ _ _ _ Hp) Hd) as [E Hc]. split; [|done]. rewrite E. pose proof (chainDown_number _ _ _ Hd).
    destruct Hc as [d' Hc]. pose proof (entry_number _ _ _ Hok _ _ _ Hc). rewrite (hashAt_parent (headersOf B) (hashOf b) (fb_header b) d (num c)) by (done || lia). fold (parentHash b). rewrite <- Eh.
    by replace (num b - 1) with (num p) by lia.
Qed.

(** What a reorganisation does to the numbers and the heads. *)
Record reorganised bc old new bc' : Prop := {
  ro_kept : kept bc bc';
  ro_holds : holds B bc';
  ro_below : forall T d, headersOf B ⊆ T -> T !! hashOf new = Some (fb_header new, d) -> forall n, 0 <= n <= num new -> canon bc' n = hashAt T (hashOf new) (num new) n;
  ro_above : forall n, is_u64 n -> num new < n -> canon bc' n = canon bc n;
  ro_heads : (canon bc (num new) <> hashOf new -> currentBlock bc' = new /\ currentHeader (hc bc') = fb_header new /\ currentHeaderHash (hc bc') = hashOf new) /\
    (hashOf new = hashOf old -> currentBlock bc' = currentBlock bc /\ currentHeader (hc bc') = currentHeader (hc bc) /\ currentHeaderHash (hc bc') = currentHeaderHash (hc bc)) }.

Lemma reorg_end bc bc1 old new l2 c' c l1 txs d : holds B bc1 -> same_bc bc bc1 -> headersOf B !! hashOf old = Some (fb_header old, d) -> (forall n, 0 <= n <= num old -> canon bc n = hashAt (headersOf B) (hashOf old) (num old) n) ->
  chainDown B old l1 c -> chainDown B new l2 c' -> hashOf c = hashOf c' -> num c = num c' -> 0 <= num new < 2 ^ 64 - 1 -> indexable sha new -> (forall h x d, B !! h = Some (x, d) -> indexable sha x) ->
  (hashOf new = hashOf old -> l2 = []) ->
  exists bc2, insertAll sha (reverse l2) bc1 = Ok bc2 /\ reorganised bc old new (on_db bc2 (deleteEntries sha txs (bc_db bc2))).
Proof using Hok hash_len hash_ok.
  intros Hh Hs Hold Hcan D1 D2 Ehc Enc Hn Hix HixB Hsame. destruct (insertAll_ok sha hash_len hash_ok l2 bc1) as (bc2 & E & M & C & Hheads); [apply (chainDown_indexable new l2 c' D2); [by right|done]|].
  exists bc2. split; [done|]. destruct (on_db_moved bc2 _ (deleteEntries_touched sha txs hash_len (bc_db bc2))) as [M3 C3]. pose proof (chainDown_number _ _ _ D2) as Hle. pose proof (chainDown_number _ _ _ D1) as Hle1.
  destruct (chainDown_hashAt _ _ _ _ Hold D1) as [Ec [dc Hc]]. pose proof (entry_number _ _ _ Hok _ _ _ Hc) as Nc. pose proof (entry_number _ _ _ Hok _ _ _ Hold) as No.
  split.
  - etrans; [by apply same_bc_kept|]. etrans; [by apply moved_kept|by apply moved_kept].
  - apply (holds_moved B bc2); [by apply (holds_moved B bc1)|done].
  - intros T dT HS HT n Hn'. assert (is_u64 n) as H64 by (unfold is_u64; lia). rewrite C3, C by done. apply (renumbered_ok sha B T new l2 c'); [done|by exists dT|done|by apply (entry_hash sha B root Hok)|lia| |done].
    intros m Hm. rewrite (same_canon bc bc1), Hcan by (done || lia). rewrite <- Ehc, <- Enc.
    rewrite <- (hashAt_member _ _ _ Hok _ _ _ (num c) m Hold), <- Ec by lia. symmetry. apply (hashAt_mono _ _ _ Hok T _ _ _ m HS Hc). lia.
  - intros n H64 Hgt. rewrite C3, C by done. by rewrite (chainDown_renumbered new l2 c'), (same_canon bc bc1).
  - pose proof Hs as [(_ & _ & S3 & S4) _ _ S5 _ _ _]. split; [intros Hne|intros E2; rewrite (Hsame E2) in Hheads; subst bc2; by rewrite <- S3, <- S4, <- S5].
    destruct l2 as [|x l2].
    + exfalso. cbn in D2. subst c'. apply Hne. rewrite Hcan by lia. by rewrite <- Ehc, <- Enc, <- Ec.
    + cbn in D2. destruct D2 as (-> & p & dp & Hp & En & D2). destruct Hheads as [Hcur Hhead]. rewrite (chainDown_renumbered p l2 c') in Hhead by (done || lia). split; [exact Hcur|]. apply Hhead. by rewrite (same_canon bc bc1).
Qed.

Lemma reorg_ok fuel bc old new d : holds B bc -> headersOf B !! hashOf old = Some (fb_header old, d) -> (forall n, 0 <= n <= num old -> canon bc n = hashAt (headersOf B) (hashOf old) (num old) n) ->
  attached sha B root new -> 0 <= num new < 2 ^ 64 - 1 -> indexable sha new -> (forall h x d, B !! h = Some (x, d) -> indexable sha x) -> (hashOf new = hashOf old -> num new = num old) ->
  (Z.to_nat (num old) < fuel)%nat -> (Z.to_nat (num new) < fuel)%nat ->
  exists bc' logs oldChain, reorg sha fuel old new bc = Ok (bc', inr (logs, oldChain)) /\ reorganised bc old new bc'.
Proof using Hok hash_len hash_ok.
  intros Hh Hold Hcan Hnew Hn Hix HixB Heq Hf1 Hf2. pose proof (known_attached _ _ _ _ _ Hok Hold) as Haold. pose proof (entry_number _ _ _ Hok _ _ _ Hold) as No.
  unfold reorg. rewrite !NumberU64_small by (unfold is_u64; lia). destruct (Z.ltb_spec (num new) (num old)) as [Hlt|Hge].
  - destruct (reduceTo_ok sha hash_len B root Hok true (num new) fuel ltac:(lia) old [] [] bc Haold ltac:(lia) Hf1 Hh) as (bc1 & o & l & logs & -> & Hh1 & Hs1 & D & Eo & Hao & _). cbn [outcome_bind].
    destruct (meet_ok sha hash_len B root Hok fuel o new ([] ++ l) [] logs bc1 Hao Hnew ltac:(lia) ltac:(lia) ltac:(lia) Hh1) as (bc2 & l1 & l2 & c & c' & logs' & -> & Hh2 & Hs2 & D1 & D2 & Ec & Enc & _). cbn [outcome_bind app].
    destruct (reorg_end bc bc2 old new l2 c' c (l ++ l1) (TxDifference sha (concat (map fb_transactions (l ++ l1))) (concat (map fb_transactions (reverse l2)))) d) as (bc3 & -> & Hr); [done|by etrans|done|done|by apply (chainDown_app _ _ _ o)|done|done|done|lia|done|done|intros E; apply Heq in E; lia|].
    cbn [outcome_bind]. by eexists _, _, _.
  - destruct (reduceTo_ok sha hash_len B root Hok false (num old) fuel ltac:(lia) new [] [] bc Hnew ltac:(lia) Hf2 Hh) as (bc1 & o & l & logs & -> & Hh1 & Hs1 & D & Eo & Hao & _). cbn [outcome_bind].
    destruct (meet_ok sha hash_len B root Hok fuel old o [] ([] ++ l) [] bc1 Haold Hao ltac:(lia) ltac:(lia) ltac:(lia) Hh1) as (bc2 & l1 & l2 & c & c' & logs' & -> & Hh2 & Hs2 & D1 & D2 & Ec & Enc & Hsame). cbn [outcome_bind app].
    destruct (reorg_end bc bc2 old new (l ++ l2) c' c l1 (TxDifference sha (concat (map fb_transactions l1)) (concat (map fb_transactions (reverse (l ++ l2))))) d) as (bc3 & -> & Hr); [done|by etrans|done|done|done|by apply (chainDown_app _ _ _ o)|done|done|lia|done|done| |].
    + intros E. pose proof (Heq E) as En. destruct l as [|x l]; [cbn in D; subst o; by apply Hsame|]. cbn in D. destruct D as (_ & p & dp & Hp & En' & D). apply chainDown_number in D. lia.
    + cbn [outcome_bind]. by eexists _, _, _.
Qed.
End reorganising.

(** * A new block in the tree *)

Section growing.
Context {SC : Type} (sha : bytes -> bytes) (hash_len : forall s : bytes, length (sha s) = 32%nat).
Implicit Types (bc : BlockChain SC) (b : FullBlock).
Abbreviation hashOf := (blockHash sha).
Abbreviation num b := (h_Number (fb_header b)).

Definition grownB (B : BTree) b (dp : Z) : BTree := <[hashOf b := (strip b, h_Difficulty (fb_header b) + dp)]> B.
Lemma headersOf_grown B b dp : headersOf (grownB B b dp) = grown sha (headersOf B) (fb_header b) dp.
Proof. unfold headersOf, grownB, grown. by rewrite fmap_insert. Qed.

(** First its total difficulty is written. *)
Lemma tds_grown T root x dp hc : tree_ok sha T root -> admissible sha T x -> (exists p, T !! h_ParentHash x = Some (p, dp)) -> tds T hc ->
  exists hc', hc_WriteTd (Header_Hash sha x) (h_Number x) (h_Difficulty x + dp) hc = Ok hc' /\ tds (grown sha T x dp) hc' /\
    touched isTd (chainDb hc) (chainDb hc') /\ headerCache hc' = headerCache hc /\ numberCache hc' = numberCache hc /\
    genesisHeader hc' = genesisHeader hc /\ currentHeader hc' = currentHeader hc /\ currentHeaderHash hc' = currentHeaderHash hc.
Proof using hash_len.
  intros Hok Ha [p Hp] [H1 H2]. destruct (a_parent _ _ _ Ha _ _ Hp) as (_ & H0 & Hb). pose proof (Header_Hash_32 sha hash_len x) as H32. destruct (a_storable _ _ _ Ha) as (_ & H64 & _).
  destruct (WriteTd_ok (Header_Hash sha x) (h_Number x) (h_Difficulty x + dp) (chainDb hc) H0 Hb) as (data & E & R). unfold hc_WriteTd. rewrite E. eexists. split; [done|]. split; [|split_and!; try done; apply touched_put; [apply touched_refl|done..]].
  split; cbn [with_tdCache with_db chainDb tdCache].
  - intros h n Hh Hn. rewrite at_number_grown by done. rewrite ReadTd_Put by done. destruct (decide (Header_Hash sha x = h /\ h_Number x = n)) as [[<- <-]|Hne].
    + by rewrite decide_True.
    + rewrite decide_False by (intros [= <- <-]; by apply Hne). by apply H1.
  - apply Add_coherent; [|unfold grown; by rewrite lookup_insert_eq]. apply (coherent_mono _ _ _ H2), (fmap_grown sha T root x p dp snd Hok Ha Hp).
Qed.

(** Then the block. *)
Lemma heads_grown T root x p dp hc header body : tree_ok sha T root -> admissible sha T x -> T !! h_ParentHash x = Some (p, dp) -> readValue headerType toHeader header = Some x -> heads T hc ->
  heads (grown sha T x dp) (with_db hc (Put (HeaderKey (h_Number x) (Header_Hash sha x)) header (Put (NumberKey (Header_Hash sha x)) (encodeBlockNumber (h_Number x)) (Put (BodyKey (h_Number x) (Header_Hash sha x)) body (chainDb hc))))).
Proof using hash_len.
  intros Hok Ha Hp Rh [H1 H2 H3 H4 H5]. pose proof (Header_Hash_32 sha hash_len x) as H32. destruct (a_storable _ _ _ Ha) as (_ & H64 & _). pose proof (fun A f => @fmap_grown sha A _ _ _ _ _ f Hok Ha Hp) as Hm.
  split; cbn [with_db chainDb headerCache numberCache].
  - intros h Hh32. rewrite ReadHeaderNumber_Put, decide_False, ReadHeaderNumber_Put by done. unfold grown. destruct (decide (Header_Hash sha x = h)) as [<-|Hne].
    + by rewrite decide_True, lookup_insert_eq, number_read by done.
    + by rewrite decide_False, ReadHeaderNumber_Put, decide_False, lookup_insert_ne, H1 by (done || congruence).
  - intros h n Hh32 Hn64. rewrite at_number_grown, ReadHeader_Put by done. destruct (decide (Header_Hash sha x = h /\ h_Number x = n)) as [[<- <-]|Hne].
    + by rewrite decide_True.
    + rewrite decide_False, !ReadHeader_Put, !decide_False by (done || intros [= <- <-]; by apply Hne). auto.
  - intros h n Hh32 Hn64. unfold HasHeader in *. rewrite at_number_grown, Has_Put by done. destruct (decide (Header_Hash sha x = h /\ h_Number x = n)) as [[<- <-]|Hne].
    + by rewrite decide_True.
    + rewrite decide_False, !Has_Put, !decide_False by (done || intros [= <- <-]; by apply Hne). auto.
  - apply (coherent_mono _ _ _ H4), Hm.
  - apply (coherent_mono _ _ _ H5), Hm.
Qed.

Context (hash_ok : forall s : bytes, bytes_ok (sha s)).

(** Receipts and entries. *)
Definition appended (k : Key) : Prop := match k with ReceiptsKey _ _ | LookupKey _ => True | _ => False end.
Lemma isLookup_appended k : isLookup k -> appended k.
Proof. by destruct k. Qed.
Lemma writeBatch_ok block receipts status db : block_ok block -> indexable sha block -> receipts_storable receipts -> let h := hashOf block in let n := num block in
  exists db' header body, writeBatch sha block receipts status db = Ok db' /\
    touched appended (Put (HeaderKey n h) header (Put (NumberKey h) (encodeBlockNumber n) (Put (BodyKey n h) body db))) db' /\
    readValue headerType toHeader header = Some (fb_header block) /\ readValue bodyType toBody body = Some (blockBody (strip block)).
Proof using hash_len hash_ok.
  intros Hb Hix Hr h n. pose proof Hix as (Hn & _). pose proof (block_32 sha hash_len block) as H32. destruct (WriteBlock_ok sha block db Hb Hn) as (header & body & E1 & R1 & R2). unfold writeBatch. rewrite E1. cbn [outcome_bind].
  rewrite NumberU64_small by done. set (db1 := Put (HeaderKey _ _) header _) in *. destruct (WriteReceipts_ok h n receipts db1 Hr) as (rdata & E2 & _). unfold h, n in E2. rewrite E2. cbn [outcome_bind]. fold n h.
  assert (touched appended db1 (Put (ReceiptsKey n h) rdata db1)) as Ht by (apply touched_put; [apply touched_refl|done|done]).
  destruct status; [by exists (Put (ReceiptsKey n h) rdata db1), header, body| |by exists (Put (ReceiptsKey n h) rdata db1), header, body].
  destruct (WriteTxLookupEntries_ok sha hash_len hash_ok block (Put (ReceiptsKey n h) rdata db1) Hix) as (db' & -> & Ht'). exists db', header, body. split_and!; [done| |done|done].
  apply (touched_trans _ _ _ _ Ht). apply (touched_impl isLookup appended _ _ isLookup_appended Ht').
Qed.

(** The block is in the tree once header, number and body are written, whatever is appended. *)
Lemma holds_written B root block p dp bc header body db' : tree_ok sha (headersOf B) root -> admissible sha (headersOf B) (fb_header block) -> headersOf B !! parentHash block = Some (p, dp) ->
  (forall b d, B !! hashOf block = Some (b, d) -> b = strip block) -> is_u64 (num block) -> holds B bc ->
  readValue headerType toHeader header = Some (fb_header block) -> readValue bodyType toBody body = Some (blockBody (strip block)) ->
  touched appended (Put (HeaderKey (num block) (hashOf block)) header (Put (NumberKey (hashOf block)) (encodeBlockNumber (num block)) (Put (BodyKey (num block) (hashOf block)) body (bc_db bc)))) db' ->
  holds (grownB B block dp) (on_db bc db') /\ (forall T, tds T (hc bc) -> tds T (hc (on_db bc db'))) /\ forall n, is_u64 n -> ReadCanonicalHash db' n = ReadCanonicalHash (bc_db bc) n.
Proof using hash_len.
  intros Hok Ha Hp Hsame Hn [H1 H2 H3] R1 R2 Ht. pose proof (block_32 sha hash_len block) as H32. set (db1 := Put (HeaderKey _ _) header _) in *. split_and!.
  - split.
    + rewrite headersOf_grown. pose proof (heads_grown _ _ _ _ _ (hc bc) header body Hok Ha Hp R1 H1) as Hg.
      exact (heads_touched appended _ (with_db (hc bc) db1) db' ltac:(by intros ? []) ltac:(by intros ? ? []) Hg Ht).
    + intros h b d Hh32 Hn64 Eb. unfold ReadBody. cbn [on_db with_hc with_db bc_db hc chainDb]. destruct (touched_reads _ _ _ (BodyKey (num b) h) Ht) as [-> _]; [done|by intros []|]. change (ReadBody db1 h (num b) = Some (blockBody b)).
      unfold grownB in Eb. apply lookup_insert_Some in Eb as [[<- [= <- <-]]|[Hne Eb]].
      * unfold db1. rewrite !ReadBody_Put by done. by rewrite !decide_False, decide_True by done.
      * unfold db1. rewrite !ReadBody_Put by done. rewrite !decide_False by (done || intros [= _ E']; done). by apply H2 with (d := d).
    + apply (coherent_mono _ _ _ H3). intros h v. unfold grownB. destruct (decide (h = hashOf block)) as [->|Hne]; [|by rewrite lookup_insert_ne]. rewrite lookup_insert_eq.
      destruct (B !! hashOf block) as [[b d]|] eqn:Eb; [|done]. cbn. by rewrite (Hsame b d).
  - intros T HT. apply (tds_touched (fun k => appended k \/ match k with HeaderKey _ _ | NumberKey _ | BodyKey _ _ => True | _ => False end) T (hc bc) db'); [by intros ? ? [[]|[]]|done|].
    refine (touched_trans _ _ db1 _ _ (touched_impl _ _ _ _ (fun k Hk => or_introl Hk) Ht)). unfold db1. do 3 (apply touched_put; [|done|by right]). apply touched_refl.
  - intros n Hn'. rewrite (canonical_touched appended db1 db') by (done || by intros ? []). unfold db1. by rewrite !ReadCanonicalHash_Put, !decide_False by done.
Qed.

Lemma holds_grown B root block p dp bc receipts status : tree_ok sha (headersOf B) root -> admissible sha (headersOf B) (fb_header block) -> headersOf B !! parentHash block = Some (p, dp) ->
  (forall b d, B !! hashOf block = Some (b, d) -> b = strip block) -> block_ok block -> indexable sha block -> receipts_storable receipts -> holds B bc ->
  exists db', writeBatch sha block receipts status (bc_db bc) = Ok db' /\ holds (grownB B block dp) (on_db bc db') /\
    (forall T, tds T (hc bc) -> tds T (hc (on_db bc db'))) /\ forall n, is_u64 n -> ReadCanonicalHash db' n = ReadCanonicalHash (bc_db bc) n.
Proof using hash_len hash_ok.
  intros Hok Ha Hp Hsame Hb Hix Hr Hh. destruct (writeBatch_ok block receipts status (bc_db bc) Hb Hix Hr) as (db' & header & body & E & Ht & R1 & R2). exists db'. split; [done|].
  by apply (holds_written B root block p dp bc header body); [..|apply Hix| | | |].
Qed.
End growing.
