(* ===== verification/BlockHead.v ===== *)
(** Writing a block to the chain: the tree of known blocks grows, and the head is the best of
    them ([WriteBlockWithState] of [src/core/blockchain.go]). *)

From stdpp Require Import base numbers list gmap.
From S2P Require Import Prelude.
From S2P Require Import CommonMath.
From S2P Require Import Params.
From S2P Require Import RlpEncode.
From S2P Require Import VmData.
From S2P Require Import VmWorld.
From S2P Require Import State.
From S2P Require Import Types.
From S2P Require Import Transactions.
From S2P Require Import Blocks.
From S2P Require Import TrieHasher.
From S2P Require Import Validator.
From S2P Require Import Lru.
From S2P Require Import ChainDB.
From S2P Require Import HeaderChain.
From S2P Require Import BlockChain.
From S2P Require Import BlockChainLaws.
Local Open Scope Z_scope.
Local Open Scope go_scope.

Section writing.
Context {SC St : Type} (ops : StateOps SC St) (sha : bytes -> bytes) (hash_len : forall s : bytes, length (sha s) = 32%nat) (hash_ok : forall s : bytes, bytes_ok (sha s)).
Context (config : ChainConfig) (archive : bool) (coin : nat -> bool) (P : Header -> Prop) (fuel : nat) (Hw : world sha P fuel).
Implicit Types (bc : BlockChain SC) (b : FullBlock) (B : BTree).
Abbreviation hashOf := (blockHash sha).
Abbreviation canon bc := (ReadCanonicalHash (bc_db bc)).
Abbreviation num b := (h_Number (fb_header b)).

(** The blocks there are: a hash identifies what is stored of a block, and difficulties are
    positive. *)
Context (PB : FullBlock -> Prop).
Record blocks_world : Prop := {
  bw_header : forall b, PB b -> P (fb_header b);
  bw_strip : forall b, PB b -> PB (strip b);
  bw_ok : forall b, PB b -> block_ok b;
  bw_same : forall b b', PB b -> PB b' -> hashOf b = hashOf b' -> strip b = strip b';
  bw_index : forall b, PB b -> indexable sha b;
  bw_positive : forall b, PB b -> 0 < h_Difficulty (fb_header b) }.
Context (HB : blocks_world).

(** All but the total difficulties, which are written first. *)
Record core B bc : Prop := {
  co_tree : tree_ok sha (headersOf B) (hashOf (genesisBlock bc));
  co_holds : holds B bc;
  co_world : forall h b d, B !! h = Some (b, d) -> PB b /\ strip b = b /\ 0 <= d < (num b + 1) * 2 ^ 256;
  co_head : PB (currentBlock bc) /\ headersOf B !! hashOf (currentBlock bc) = Some (fb_header (currentBlock bc), tdOf (headersOf B) (hashOf (currentBlock bc)));
  co_header : currentHeader (hc bc) = fb_header (currentBlock bc) /\ currentHeaderHash (hc bc) = hashOf (currentBlock bc);
  co_canon : forall n, 0 <= n <= num (currentBlock bc) -> canon bc n = hashAt (headersOf B) (hashOf (currentBlock bc)) (num (currentBlock bc)) n;
  co_above : forall n, is_u64 n -> num (currentBlock bc) < n -> canon bc n = zeroHash \/ exists b d, B !! canon bc n = Some (b, d) /\ num b = n;
  co_heaviest : forall h, tdOf (headersOf B) h <= tdOf (headersOf B) (hashOf (currentBlock bc)) }.
Record bc_ok B bc : Prop := { bk_core : core B bc; bk_tds : tds (headersOf B) (hc bc) }.

Lemma core_same B bc bc' : core B bc -> holds B bc' -> bc_db bc' = bc_db bc \/ (forall n, is_u64 n -> canon bc' n = canon bc n) ->
  genesisBlock bc' = genesisBlock bc -> currentBlock bc' = currentBlock bc -> currentHeader (hc bc') = currentHeader (hc bc) -> currentHeaderHash (hc bc') = currentHeaderHash (hc bc) -> core B bc'.
Proof.
  intros [H1 H2 H3 H4 H5 H6 H7 H8] Hh Hdb Eg Ec Ex Eh. assert (forall n, is_u64 n -> canon bc' n = canon bc n) as Hcan by (destruct Hdb as [->|?]; [done|done]).
  split; rewrite ?Eg, ?Ec, ?Ex, ?Eh; try done.
  - intros n Hn. rewrite Hcan; [by apply H6|]. destruct (entry_number _ _ _ H1 _ _ _ (proj2 H4)). unfold is_u64. lia.
  - intros n H64 Hn. rewrite Hcan by done. by apply H7.
Qed.

(** Ancestors are lighter. *)
Lemma ascend_lighter B root k : tree_ok sha (headersOf B) root -> (forall h b d, B !! h = Some (b, d) -> PB b) -> forall h x d h' x' d', headersOf B !! h = Some (x, d) -> Z.of_nat (S k) <= h_Number x ->
  ascend (headersOf B) (S k) h = Some h' -> headersOf B !! h' = Some (x', d') -> d' < d.
Proof using HB.
  intros Hok HP. induction k as [|k IH]; intros h x d h' x' d' E Hn; cbn [ascend]; rewrite E;
    (destruct (e_parent _ _ _ _ _ _ (t_entry _ _ _ Hok _ _ _ E)) as [[_ H0]|(p & dp & Hp & En & ->)]; [lia|]);
    destruct (headersOf_inv _ _ _ _ E) as (b & Eb & ->); pose proof (bw_positive HB b (HP _ _ _ Eb)).
  - intros [= <-]. rewrite Hp. intros [= <- <-]. lia.
  - intros Ha E'. pose proof (IH _ _ _ _ _ _ Hp ltac:(lia) Ha E'). lia.
Qed.

(** A block that would be the better head is not on the chain yet, unless it is the head. *)
Definition wins_over B bc block (externTd : Z) (toss : bool) : bool :=
  let localTd := tdOf (headersOf B) (hashOf (currentBlock bc)) in
  (localTd <? externTd) || ((externTd =? localTd) && ((num block <? num (currentBlock bc)) || ((num block =? num (currentBlock bc)) && toss))).

Lemma strip_strip b : strip (strip b) = strip b.
Proof. unfold strip. cbn. f_equal. rewrite map_map. by apply map_ext. Qed.

(** A block that may come: it follows one that is known. *)
Record joins B block (p : FullBlock) (dp : Z) : Prop := {
  jo_world : PB block;
  jo_parent : B !! parentHash block = Some (p, dp);
  jo_number : num block = num p + 1 }.

Section joining.
Context (B : BTree) (bc : BlockChain SC) (block p : FullBlock) (dp : Z) (Hc : core B bc) (Hj : joins B block p dp).
Abbreviation T := (headersOf B).
Abbreviation B' := (grownB sha B block dp).
Abbreviation T' := (headersOf (grownB sha B block dp)).
Abbreviation extern := (h_Difficulty (fb_header block) + dp).
Abbreviation cur := (currentBlock bc).
Abbreviation local := (tdOf (headersOf B) (hashOf (currentBlock bc))).

Lemma joins_parent : T !! parentHash block = Some (fb_header p, dp).
Proof using Hj. apply headersOf_Some, Hj. Qed.
Lemma joins_number : 0 < num block < 2 ^ 64 - 1 /\ is_u64 (num block).
Proof using Hj Hc Hw HB.
  pose proof (entry_bound _ _ _ (co_tree _ _ Hc) _ _ _ (jo_parent _ _ _ _ Hj)). pose proof (jo_number _ _ _ _ Hj). destruct (w_fuel _ _ _ Hw _ (bw_header HB _ (jo_world _ _ _ _ Hj))). unfold is_u64. lia.
Qed.
Lemma joins_same b d : B !! hashOf block = Some (b, d) -> b = strip block /\ d = extern.
Proof using Hj Hc HB.
  intros E. destruct (co_world _ _ Hc _ _ _ E) as (Hb & Es & _). pose proof (entry_hash _ _ _ (co_tree _ _ Hc) _ _ _ E) as Eh. pose proof (bw_same HB _ _ Hb (jo_world _ _ _ _ Hj) Eh) as Est.
  split; [congruence|]. assert (fb_header b = fb_header block) as Ehd by (rewrite <- Es, Est; done). pose proof (headersOf_Some _ _ _ _ E) as ET.
  destruct (e_parent _ _ _ _ _ _ (t_entry _ _ _ (co_tree _ _ Hc) _ _ _ ET)) as [[_ H0]|(x & dx & Hx & _ & ->)].
  - rewrite Ehd in H0. pose proof (jo_number _ _ _ _ Hj). pose proof (entry_bound _ _ _ (co_tree _ _ Hc) _ _ _ (jo_parent _ _ _ _ Hj)). lia.
  - rewrite Ehd in Hx |- *. pose proof joins_parent as Hp. unfold parentHash in Hp. rewrite Hp in Hx. by injection Hx as _ <-.
Qed.
Lemma joins_admissible : admissible sha T (fb_header block).
Proof using Hj Hc Hw HB.
  pose proof (bw_header HB _ (jo_world _ _ _ _ Hj)) as HP. destruct joins_number as [Hn _]. split; [by apply (w_storable _ _ _ Hw)|by apply (w_zero _ _ _ Hw)|lia| |].
  - intros y d E. destruct (headersOf_inv _ _ _ _ E) as (b & Eb & ->). by destruct (joins_same b d Eb) as [-> _].
  - intros x d E. pose proof joins_parent as Hp. unfold parentHash in Hp. rewrite Hp in E. injection E as <- <-. split; [apply Hj|].
    destruct (co_world _ _ Hc _ _ _ (jo_parent _ _ _ _ Hj)) as (Hpp & _ & Hd). pose proof (bw_positive HB _ (jo_world _ _ _ _ Hj)). pose proof (w_difficulty _ _ _ Hw _ HP). pose proof (jo_number _ _ _ _ Hj). split; [lia|]. apply td_fits. nia.
Qed.
Lemma grown_tree : tree_ok sha T' (hashOf (genesisBlock bc)) /\ T ⊆ T' /\ T' !! hashOf block = Some (fb_header block, extern).
Proof using Hj Hc Hw HB.
  rewrite headersOf_grown. pose proof joins_admissible as Ha. pose proof joins_parent as Hp. split_and!; [by apply (tree_grown _ _ _ _ (fb_header p) _ (co_tree _ _ Hc))|by apply (grown_sub _ _ _ _ (fb_header p) _ (co_tree _ _ Hc))|].
  unfold grown. by rewrite lookup_insert_eq.
Qed.
Lemma grown_td h : tdOf T' h = if decide (h = hashOf block) then extern else tdOf T h.
Proof. rewrite headersOf_grown. unfold tdOf, grown. destruct (decide (h = hashOf block)) as [->|Hne]; [by rewrite lookup_insert_eq|by rewrite lookup_insert_ne]. Qed.
Lemma grown_known : T' !! hashOf cur = Some (fb_header cur, local) /\ tdOf T' (hashOf cur) = local.
Proof using Hj Hc Hw HB.
  destruct grown_tree as (_ & HS & _). pose proof (lookup_weaken _ _ _ _ (proj2 (co_head _ _ Hc)) HS) as E. split; [done|]. unfold tdOf at 1. by rewrite E.
Qed.
Lemma grown_world h b d : B' !! h = Some (b, d) -> PB b /\ strip b = b /\ 0 <= d < (num b + 1) * 2 ^ 256.
Proof using Hj Hc Hw HB.
  unfold grownB. rewrite lookup_insert_Some. intros [[<- [= <- <-]]|[_ E]]; [|by apply (co_world _ _ Hc h)]. pose proof (jo_world _ _ _ _ Hj) as HPB. split_and!; [by apply HB|apply strip_strip| |];
    destruct (co_world _ _ Hc _ _ _ (jo_parent _ _ _ _ Hj)) as (_ & _ & Hd); pose proof (bw_positive HB _ HPB); pose proof (w_difficulty _ _ _ Hw _ (bw_header HB _ HPB)); pose proof (jo_number _ _ _ _ Hj); cbn; nia.
Qed.
(** Every number is free or names a block of its height. *)
Lemma numbered n : is_u64 n -> canon bc n = zeroHash \/ exists b d, B !! canon bc n = Some (b, d) /\ num b = n.
Proof using Hc.
  intros Hn. destruct (decide (n <= num cur)) as [Hle|Hgt]; [|apply (co_above _ _ Hc); [done|lia]]. right. rewrite (co_canon _ _ Hc) by (unfold is_u64 in Hn; lia).
  destruct (hashAt_ok _ _ _ (co_tree _ _ Hc) _ _ _ n (proj2 (co_head _ _ Hc))) as (x & d & E & En & _); [unfold is_u64 in Hn; lia|]. destruct (headersOf_inv _ _ _ _ E) as (b & Eb & ->). by exists b, d.
Qed.
Lemma grown_numbered n : is_u64 n -> canon bc n = zeroHash \/ exists b d, B' !! canon bc n = Some (b, d) /\ num b = n.
Proof using Hj Hc HB.
  intros Hn. destruct (numbered n Hn) as [?|(b & d & E & En)]; [by left|right]. unfold grownB. destruct (decide (hashOf block = canon bc n)) as [Eh|Hne].
  - rewrite <- Eh in *. destruct (joins_same b d E) as [-> ->]. eexists _, _. split; [apply lookup_insert_eq|done].
  - exists b, d. by rewrite lookup_insert_ne.
Qed.

Lemma head_only toss : wins_over B bc block extern toss = true -> canon bc (num block) = hashOf block -> hashOf block = hashOf cur /\ num block = num cur.
Proof using Hj Hc Hw HB.
  intros Hwin Heq. destruct joins_number as [Hn H64]. pose proof (w_zero _ _ _ Hw _ (bw_header HB _ (jo_world _ _ _ _ Hj))) as Hz. pose proof (co_head _ _ Hc) as [_ Hcur]. unfold wins_over in Hwin.
  destruct (numbered (num block) H64) as [E|(b & d & E & En)]; [by rewrite E in Heq|]. rewrite Heq in E. destruct (joins_same b d E) as [-> ->]. pose proof (headersOf_Some _ _ _ _ E) as ET.
  pose proof (co_heaviest _ _ Hc (hashOf block)) as Hle. unfold tdOf at 1 in Hle. rewrite ET in Hle. cbn in Hle.
  assert (num block <= num cur /\ extern = local) as [Hnle Htd].
  { destruct (Z.ltb_spec local extern), (Z.eqb_spec extern local), (Z.ltb_spec (num block) (num cur)), (Z.eqb_spec (num block) (num cur)); cbn in Hwin; try discriminate; lia. }
  rewrite (co_canon _ _ Hc) in Heq by lia. destruct (decide (num block = num cur)) as [Enn|Hnn]; [by rewrite Enn, (hashAt_top T _ _ _ Hcur) in Heq|]. exfalso.
  unfold hashAt in Heq. rewrite (proj2 (Z.leb_le _ _)) in Heq by lia. destruct (ascend_ok _ _ _ (co_tree _ _ Hc) (Z.to_nat (num cur - num block)) _ _ _ Hcur) as (h' & x' & d' & Ea & E' & _); [lia|].
  rewrite Ea in Heq. cbn in Heq. subst h'. replace (Z.to_nat (num cur - num block)) with (S (Z.to_nat (num cur - num block - 1))) in Ea by lia.
  pose proof (ascend_lighter B _ (Z.to_nat (num cur - num block - 1)) (co_tree _ _ Hc) (fun h b d E => proj1 (co_world _ _ Hc h b d E)) _ _ _ _ _ _ Hcur ltac:(lia) Ea ET). lia.
Qed.

(** The block stays aside. *)
Lemma core_side bc' : holds B' bc' -> (forall n, is_u64 n -> canon bc' n = canon bc n) -> genesisBlock bc' = genesisBlock bc -> currentBlock bc' = cur ->
  currentHeader (hc bc') = currentHeader (hc bc) /\ currentHeaderHash (hc bc') = currentHeaderHash (hc bc) -> extern <= local -> core B' bc'.
Proof using Hj Hc Hw HB.
  intros Hh Hcan Eg Ec [Ex Eh] Hle. destruct grown_tree as (Hok' & HS & _). destruct grown_known as [Hk Htd]. pose proof (co_head _ _ Hc) as [HPc Hcur]. pose proof (entry_number _ _ _ (co_tree _ _ Hc) _ _ _ Hcur) as Nc.
  split; rewrite ?Eg, ?Ec, ?Ex, ?Eh; try done.
  - apply grown_world.
  - by rewrite Htd.
  - apply Hc.
  - intros n Hn. rewrite Hcan, (co_canon _ _ Hc) by (done || unfold is_u64; lia). symmetry. apply (hashAt_mono _ _ _ (co_tree _ _ Hc) _ _ _ _ n HS Hcur). lia.
  - intros n H64 Hn. rewrite Hcan by done. by apply grown_numbered.
  - intros h. rewrite Htd, grown_td. case_decide; [done|]. apply (co_heaviest _ _ Hc).
Qed.
(** The block becomes the head. *)
Lemma core_new bc' : holds B' bc' -> genesisBlock bc' = genesisBlock bc -> currentBlock bc' = block -> currentHeader (hc bc') = fb_header block /\ currentHeaderHash (hc bc') = hashOf block ->
  (forall n, 0 <= n <= num block -> canon bc' n = hashAt T' (hashOf block) (num block) n) -> (forall n, is_u64 n -> num block < n -> canon bc' n = canon bc n) -> local <= extern -> core B' bc'.
Proof using Hj Hc Hw HB.
  intros Hh Eg Ec Ex Hbelow Habove Hle. destruct grown_tree as (Hok' & HS & Hnew). assert (tdOf T' (hashOf block) = extern) as Htd by (rewrite grown_td; by case_decide).
  split; rewrite ?Eg, ?Ec; try done.
  - apply grown_world.
  - split; [apply Hj|by rewrite Htd].
  - intros n H64 Hn. rewrite Habove by done. by apply grown_numbered.
  - intros h. rewrite Htd, grown_td. case_decide; [done|]. pose proof (co_heaviest _ _ Hc h). lia.
Qed.

Lemma local_le toss : wins_over B bc block extern toss = true -> local <= extern.
Proof. unfold wins_over. destruct (Z.ltb_spec local extern), (Z.eqb_spec extern local); cbn; intros; try discriminate; lia. Qed.
Lemma extern_le toss : wins_over B bc block extern toss = false -> extern <= local.
Proof. unfold wins_over. destruct (Z.ltb_spec local extern); cbn; intros; try discriminate; lia. Qed.

(** The comparison of the code. *)
Definition tossing : bool := (extern =? local) && (num block =? num cur).
Lemma better_ok : better coin block cur extern local bc = (if tossing then with_tossed bc (S (tossed bc)) else bc, wins_over B bc block extern (coin (tossed bc))).
Proof using Hj Hc Hw HB.
  destruct joins_number as [Hn H64]. pose proof (entry_number _ _ _ (co_tree _ _ Hc) _ _ _ (proj2 (co_head _ _ Hc))) as Nc. unfold better, wins_over, tossing. rewrite !NumberU64_small by (done || unfold is_u64; lia).
  destruct (Z.ltb_spec local extern), (Z.eqb_spec extern local); cbn; try done; try lia; destruct (Z.ltb_spec (num block) (num cur)), (Z.eqb_spec (num block) (num cur)); cbn; try done; lia.
Qed.
End joining.

Lemma holds_future B bc c : holds B bc -> holds B (with_future bc c).
Proof. by intros [H1 H2 H3]. Qed.
Lemma core_future B bc c : core B bc -> core B (with_future bc c).
Proof. intros Hc. apply (core_same B bc); try done; [apply holds_future, Hc|by left]. Qed.

Section finishing.
Context (B : BTree) (bc : BlockChain SC) (block p : FullBlock) (dp : Z) (Hc : core B bc) (Hj : joins B block p dp) (receipts : list Receipt) (Hr : receipts_storable receipts).
Abbreviation B' := (grownB sha B block dp).
Abbreviation T' := (headersOf (grownB sha B block dp)).
Abbreviation extern := (h_Difficulty (fb_header block) + dp).
Abbreviation cur := (currentBlock bc).
Abbreviation local := (tdOf (headersOf B) (hashOf (currentBlock bc))).

Lemma batch_ok bc1 status : holds B bc1 -> exists db, writeBatch sha block receipts status (bc_db bc1) = Ok db /\ holds B' (on_db bc1 db) /\ (forall T, tds T (hc bc1) -> tds T (hc (on_db bc1 db))) /\
  forall n, is_u64 n -> ReadCanonicalHash db n = canon bc1 n.
Proof using Hj Hc Hw HB Hr hash_len hash_ok.
  intros Hh. apply (holds_grown sha hash_len hash_ok B (hashOf (genesisBlock bc)) block (fb_header p) dp bc1); [apply Hc|by apply (joins_admissible B bc block p dp)|by apply (joins_parent B block p dp)| |apply (bw_ok HB), Hj|apply (bw_index HB), Hj|done|done].
  intros b d E. by destruct (joins_same B bc block p dp Hc Hj b d E).
Qed.

(** The way is clear: the numbers below the block lead to it, and the heads will follow. *)
Record clear bc2 : Prop := {
  cl_holds : holds B bc2;
  cl_tds : tds T' (hc bc2);
  cl_genesis : genesisBlock bc2 = genesisBlock bc;
  cl_below : forall n, 0 <= n < num block -> canon bc2 n = hashAt T' (hashOf block) (num block) n;
  cl_above : forall n, is_u64 n -> num block < n -> canon bc2 n = canon bc n;
  cl_heads : canon bc2 (num block) <> hashOf block \/ (currentHeader (hc bc2) = fb_header block /\ currentHeaderHash (hc bc2) = hashOf block) }.

Lemma clear_inserts bc2 status : clear bc2 -> local <= extern -> exists db, writeBatch sha block receipts status (bc_db bc2) = Ok db /\ bc_ok B' (bc_insert sha block (on_db bc2 db)).
Proof using Hj Hc Hw HB Hr hash_len hash_ok.
  intros [H1 H2 H3 H4 H5 H6] Hle. destruct (joins_number B bc block p dp Hc Hj) as [Hn H64]. destruct (batch_ok bc2 status H1) as (db & E & Hh & Ht & Hcan). exists db. split; [done|].
  destruct (grown_tree B bc block p dp Hc Hj) as (_ & _ & Hnew). destruct (bc_insert_ok sha hash_len block (on_db bc2 db) H64) as (M & Ecur & C & Hheads). set (bc3 := on_db bc2 db) in *. set (bc4 := bc_insert sha block bc3) in *. split.
  - apply (core_new B bc block p dp Hc Hj bc4); [by apply (holds_moved _ bc3)|rewrite (proj1 (mv_genesis _ _ M)); exact H3|done| | | |done].
    + case_decide as Ed; [|done]. destruct Hheads as [-> ->]. destruct H6 as [Hne|H6]; [|exact H6]. exfalso. apply Hne. rewrite <- Ed. symmetry. by apply Hcan.
    + intros n Hn'. rewrite C by (unfold is_u64; lia). destruct (decide (n = num block)) as [->|Hne]; [by rewrite (hashAt_top T' _ _ _ Hnew)|]. etrans; [apply Hcan; unfold is_u64; lia|]. apply H4. lia.
    + intros n Hn64 Hn'. rewrite C, decide_False by (done || lia). etrans; [by apply Hcan|]. by apply H5.
  - apply (tds_moved _ bc3); [by apply Ht|done].
Qed.

(** On top of the head there is nothing to reorganise. *)
Lemma clear_on_top toss : tds T' (hc bc) -> wins_over B bc block extern toss = true -> parentHash block = hashOf cur -> clear bc.
Proof using Hj Hc Hw HB.
  intros Ht Hwin Ep. destruct (joins_number B bc block p dp Hc Hj) as [Hn H64]. destruct (grown_tree B bc block p dp Hc Hj) as (Hok' & HS & Hnew). pose proof (proj2 (co_head _ _ Hc)) as Hcur.
  pose proof (joins_parent B block p dp Hj) as Hp. rewrite Ep in Hp. rewrite Hcur in Hp. injection Hp as Eh _. pose proof (jo_number _ _ _ _ Hj) as Enum. rewrite <- Eh in Enum.
  split; [apply Hc|done|done| |done|].
  - intros n Hn'. rewrite (co_canon _ _ Hc) by lia. rewrite (hashAt_parent T' _ _ _ n Hnew) by lia. fold (parentHash block). rewrite Ep. replace (num block - 1) with (num cur) by lia.
    symmetry. apply (hashAt_mono _ _ _ (co_tree _ _ Hc) _ _ _ _ n HS Hcur). lia.
  - left. intros Heq. destruct (head_only B bc block p dp Hc Hj toss Hwin Heq). lia.
Qed.
(** Elsewhere the chain is reorganised. *)
Lemma clear_reorganised toss : tds T' (hc bc) -> wins_over B bc block extern toss = true -> exists bc2 r, reorg sha fuel cur block bc = Ok (bc2, inr r) /\ clear bc2.
Proof using Hj Hc Hw HB hash_len hash_ok.
  intros Ht Hwin. destruct (joins_number B bc block p dp Hc Hj) as [Hn H64]. destruct (grown_tree B bc block p dp Hc Hj) as (Hok' & HS & Hnew). destruct (co_head _ _ Hc) as [HPc Hcur]. pose proof (jo_world _ _ _ _ Hj) as HPB.
  assert (hashOf block = hashOf cur -> fb_header block = fb_header cur) as Heq by (intros E; pose proof (bw_same HB _ _ HPB HPc E) as Es; exact (f_equal (fun b => fb_header b) Es)).
  destruct (reorg_ok sha hash_len hash_ok B _ (co_tree _ _ Hc) fuel bc cur block _ (co_holds _ _ Hc) Hcur (co_canon _ _ Hc)) as (bc2 & logs & oldChain & E & [R1 R2 R3 R4 [R5 R6]]).
  - right. exists p, dp. split; apply Hj.
  - lia.
  - by apply (bw_index HB).
  - intros h x d Ex. apply (bw_index HB), (co_world _ _ Hc _ _ _ Ex).
  - intros E. by rewrite (Heq E).
  - by apply (w_fuel _ _ _ Hw), (bw_header HB).
  - by apply (w_fuel _ _ _ Hw), (bw_header HB).
  - exists bc2, (logs, oldChain). split; [done|]. split; [done|by apply (tds_kept _ bc)|apply R1| |done|].
    + intros n Hn'. apply (R3 T' extern HS Hnew). lia.
    + destruct (decide (canon bc (num block) = hashOf block)) as [Ec|Ec].
      * right. destruct (head_only B bc block p dp Hc Hj toss Hwin Ec) as [Eh _]. destruct (R6 Eh) as (_ & -> & ->). destruct (co_header _ _ Hc) as [-> ->]. by rewrite (Heq Eh).
      * right. apply (R5 Ec).
Qed.
End finishing.

Lemma core_tossed B bc n : core B bc -> core B (with_tossed bc n).
Proof. intros Hc. apply (core_same B bc); try done; [by destruct Hc as [_ [H1 H2 H3]]|by left]. Qed.

Lemma finishWrite_ok B bc block p dp receipts : core B bc -> joins B block p dp -> receipts_storable receipts -> tds (headersOf (grownB sha B block dp)) (hc bc) ->
  let extern := h_Difficulty (fb_header block) + dp in let w := wins_over B bc block extern (coin (tossed bc)) in
  exists bc', finishWrite sha coin fuel block receipts extern (Some (tdOf (headersOf B) (hashOf (currentBlock bc)))) bc = Ok (bc', inr (if w then CanonStatTy else SideStatTy)) /\
    bc_ok (grownB sha B block dp) bc' /\ currentBlock bc' = if w then block else currentBlock bc.
Proof using Hw HB hash_len hash_ok.
  intros Hc Hj Hr Ht extern w. unfold finishWrite, extern. cbn [must outcome_bind]. rewrite (better_ok B bc block p dp Hc Hj). fold extern w.
  set (bc1 := if tossing B bc block dp then _ else _). assert (core B bc1 /\ hc bc1 = hc bc /\ currentBlock bc1 = currentBlock bc) as (Hc1 & Ehc & Ecur) by (unfold bc1; destruct (tossing _ _ _ _); [by split; [apply core_tossed|]|done]).
  assert (wins_over B bc1 block extern (coin (tossed bc)) = w) as Ew by (unfold w, wins_over; by rewrite Ecur). rewrite <- Ehc in Ht. rewrite <- Ecur. destruct w.
  - pose proof (local_le B bc1 block dp _ Ew) as Hle. assert (exists bc2, clear B bc1 block dp bc2 /\
      (if true && negb (bool_decide (parentHash block = hashOf (currentBlock bc1))) then let! (bc, r) := reorg sha fuel (currentBlock bc1) block bc1 in Ok (bc, match r with inl e => Some e | inr _ => None end) else Ok (bc1, None)) = Ok (bc2, @None import_error)) as (bc2 & Hcl & ->).
    { destruct (decide (parentHash block = hashOf (currentBlock bc1))) as [Ep|Ep].
      - rewrite bool_decide_eq_true_2 by done. exists bc1. split; [by apply (clear_on_top B bc1 block p dp Hc1 Hj (coin (tossed bc)))|done].
      - rewrite bool_decide_eq_false_2 by done. cbn [andb negb]. destruct (clear_reorganised B bc1 block p dp Hc1 Hj (coin (tossed bc)) Ht Ew) as (bc2 & r & -> & Hcl). by exists bc2. }
    cbn [outcome_bind]. destruct (clear_inserts B bc1 block p dp Hc1 Hj receipts Hr bc2 CanonStatTy Hcl Hle) as (db & -> & [Hcore Htds]). cbn [outcome_bind]. eexists. split; [done|].
    split; [split; [by apply core_future|exact Htds]|]. destruct (bc_insert_ok sha hash_len block (on_db bc2 db) (proj2 (joins_number B bc1 block p dp Hc1 Hj))) as (_ & E & _). exact E.
  - cbn [andb outcome_bind]. destruct (batch_ok B bc1 block p dp Hc1 Hj receipts Hr bc1 SideStatTy (co_holds _ _ Hc1)) as (db & -> & Hh & Htt & Hcan). cbn [outcome_bind]. eexists. split; [done|]. split; [|done]. split; [|by apply Htt].
    apply core_future. apply (core_side B bc1 block p dp Hc1 Hj (on_db bc1 db)); try done. by apply (extern_le B bc1 block dp (coin (tossed bc))).
Qed.

Lemma holds_with_hc B bc h : holds B bc -> heads (headersOf B) h -> chainDb h = bc_db bc -> holds B (with_hc bc h).
Proof. intros [H1 H2 H3] Hh E. split; [done| |done]. intros k b d. unfold bc_db. cbn [with_hc hc]. rewrite E. apply H2. Qed.
Lemma core_with_hc B bc h : core B bc -> heads (headersOf B) h -> same_chain (hc bc) h -> core B (with_hc bc h).
Proof. intros Hc Hh (E1 & E2 & E3 & E4). apply (core_same B bc); try done; [apply holds_with_hc; [apply Hc|done|exact E1]|left; exact E1]. Qed.
Lemma core_states B bc s : core B bc -> core B (with_states bc s).
Proof. intros Hc. apply (core_same B bc); try done; [by destruct Hc as [_ [H1 H2 H3]]|by left]. Qed.

Lemma bc_GetTd_ok B T bc b d : core B bc -> tds T (hc bc) -> headersOf B ⊆ T -> tree_ok sha T (hashOf (genesisBlock bc)) -> T !! hashOf b = Some (fb_header b, d) ->
  exists bc', bc_GetTd (hashOf b) (num b) bc = (bc', Some d) /\ core B bc' /\ tds T (hc bc') /\ currentBlock bc' = currentBlock bc /\ tossed bc' = tossed bc /\ genesisBlock bc' = genesisBlock bc /\ stateCache bc' = stateCache bc.
Proof using hash_len.
  intros Hc Ht _ Hok Hb. unfold bc_GetTd. destruct (GetTd_tds T (hc bc) (hashOf b) (num b) Ht) as (c & -> & Ht'); [by apply block_32|by apply (entry_u64 _ _ _ Hok _ _ _ Hb)|intros x dx; rewrite Hb; by intros [= <- <-]|].
  rewrite Hb. eexists. split; [done|]. split_and!; try done. apply core_with_hc; [done| |done]. by destruct (ho_heads _ _ (co_holds _ _ Hc)).
Qed.

(** The trie of the state is stored. *)
Definition storable_state bc block root s : Prop := if archive then is_Some (commitTrie ops root s) else num block <= num (currentBlock bc) + triesInMemory.
Lemma storeState_ok B bc block root s : core B bc -> is_u64 (num block) -> storable_state bc block root s ->
  exists bc', storeState ops archive block root s bc = Ok (bc', None) /\ core B bc' /\ (forall T, tds T (hc bc) -> tds T (hc bc')) /\ currentBlock bc' = currentBlock bc /\ tossed bc' = tossed bc.
Proof using hash_len.
  intros Hc H64 Hs. unfold storeState, storable_state in *. destruct archive.
  - destruct Hs as [s' ->]. eexists. split; [done|]. split_and!; try done. by apply core_states.
  - rewrite NumberU64_small by done. set (bc1 := with_states bc _). assert (core B bc1) as Hc1 by by apply core_states. destruct (Z.ltb_spec triesInMemory (num block)) as [Hlt|Hge]; [|by exists bc1].
    unfold triesInMemory in *. pose proof (co_tree _ _ Hc) as Hok. destruct (co_head _ _ Hc) as [_ Hcur]. destruct (hashAt_ok _ _ _ Hok _ _ _ (num block - 128) Hcur) as (x & d & Ex & En & Hne); [lia|].
    unfold GetHeaderByNumber. change (chainDb (hc bc1)) with (bc_db bc). rewrite (co_canon _ _ Hc), bool_decide_eq_false_2 by (done || lia).
    destruct (GetHeader_heads _ (hc bc1) (hashAt (headersOf B) (hashOf (currentBlock bc)) (num (currentBlock bc)) (num block - 128)) (num block - 128) (ho_heads _ _ (co_holds _ _ Hc1))) as (c & -> & Hh).
    { rewrite <- (e_hash _ _ _ _ _ _ (t_entry _ _ _ Hok _ _ _ Ex)). by apply Header_Hash_32. } { unfold is_u64 in *; lia. } { intros y dy. rewrite Ex. by intros [= <- <-]. }
    rewrite Ex. cbn [fmap option_fmap option_map fst must outcome_bind]. eexists. split; [done|]. split_and!; try done.
    + apply core_states. by apply core_with_hc.
    + by intros T [A1 A2].
Qed.

(** The total difficulty is written before anything else. *)
Lemma written_td B bc block p dp : bc_ok B bc -> joins B block p dp ->
  exists h, hc_WriteTd (hashOf block) (num block) (h_Difficulty (fb_header block) + dp) (hc bc) = Ok h /\ core B (with_hc bc h) /\ tds (headersOf (grownB sha B block dp)) h.
Proof using Hw HB hash_len.
  intros [Hc Ht] Hj. destruct (tds_grown sha hash_len (headersOf B) _ (fb_header block) dp (hc bc) (co_tree _ _ Hc) (joins_admissible B bc block p dp Hc Hj)) as (h & E & Ht' & Htouch & F1 & F2 & F3 & F4 & F5);
    [exists (fb_header p); by apply (joins_parent B block p dp Hj)|done|]. exists h. split_and!; [exact E| |by rewrite headersOf_grown].
  destruct (co_holds _ _ Hc) as [G1 G2 G3]. apply (core_same B bc); try done.
  - destruct (heads_touched isTd _ _ _ ltac:(by intros ? []) ltac:(by intros ? ? []) G1 Htouch) as [A1 A2 A3 A4 A5]. split; [by split; try done; cbn; [rewrite F1|rewrite F2]| |done].
    intros k b d Hk32 Hn64 Eb. rewrite <- (G2 k b d Hk32 Hn64 Eb). unfold ReadBody. f_equal. refine (proj1 (touched_reads isTd _ _ (BodyKey (num b) k) Htouch _ _)); [done|by intros []].
  - right. intros n Hn'. apply (canonical_touched _ _ _ _ Htouch Hn'). by intros ? [].
Qed.

Lemma WriteBlockWithState_ok B bc block p dp receipts state root s : bc_ok B bc -> joins B block p dp -> receipts_storable receipts ->
  commitState ops (IsEIP158 config (Some (num block))) state (stateCache bc) = Some (root, s) -> storable_state bc block root s ->
  let extern := h_Difficulty (fb_header block) + dp in let w := wins_over B bc block extern (coin (tossed bc)) in
  exists bc', WriteBlockWithState ops sha config archive coin fuel block receipts state bc = Ok (bc', inr (if w then CanonStatTy else SideStatTy)) /\
    bc_ok (grownB sha B block dp) bc' /\ currentBlock bc' = if w then block else currentBlock bc.
Proof using Hw HB hash_len hash_ok.
  intros [Hc Ht] Hj Hr Hcommit Hstore extern w. pose proof (co_tree _ _ Hc) as Hok. destruct (joins_number B bc block p dp Hc Hj) as [Hn H64]. pose proof (entry_hash _ _ _ Hok _ _ _ (jo_parent _ _ _ _ Hj)) as Ehp.
  pose proof (entry_bound _ _ _ Hok _ _ _ (jo_parent _ _ _ _ Hj)) as Np. pose proof (jo_number _ _ _ _ Hj) as En. unfold WriteBlockWithState. rewrite <- Ehp. replace (parentNumber block) with (num p).
  2:{ unfold parentNumber. rewrite NumberU64_small by done. rewrite u64_small by (unfold is_u64; lia). lia. }
  destruct (bc_GetTd_ok B (headersOf B) bc p dp Hc Ht (reflexivity _) Hok) as (bc1 & -> & Hc1 & Ht1 & Ec1 & Et1 & Eg1 & Es1). { rewrite Ehp. apply (joins_parent B block p dp Hj). }
  destruct (co_head _ _ Hc) as [HPc Hcur]. rewrite Ec1, (NumberU64_small (currentBlock bc)) by by apply (entry_u64 _ _ _ Hok _ _ _ Hcur). rewrite <- Eg1 in Hok.
  destruct (bc_GetTd_ok B (headersOf B) bc1 (currentBlock bc) _ Hc1 Ht1 (reflexivity _) Hok Hcur) as (bc2 & -> & Hc2 & Ht2 & Ec2 & Et2 & Eg2 & Es2). rewrite (NumberU64_small block) by done.
  destruct (written_td B bc2 block p dp) as (hc3 & E3 & Hc3 & Ht3); [by split|done|]. rewrite E3. cbn [outcome_bind]. set (bc3 := with_hc bc2 hc3) in *.
  change (stateCache bc3) with (stateCache bc2). rewrite Es2, Es1, Hcommit. destruct (storeState_ok B bc3 block root s Hc3 H64) as (bc4 & -> & Hc4 & Ht4 & Ec4 & Et4).
  { unfold storable_state in *. destruct archive; [done|]. cbn. by rewrite Ec2, Ec1. }
  cbn [outcome_bind]. assert (currentBlock bc4 = currentBlock bc) as Ecur by (rewrite Ec4; cbn; congruence). assert (tossed bc4 = tossed bc) as Etoss by (rewrite Et4; cbn; congruence).
  destruct (finishWrite_ok B bc4 block p dp receipts Hc4 Hj Hr) as (bc' & E & Hbc & Ecb); [by apply Ht4|].
  rewrite Ecur in E, Ecb. exists bc'. unfold wins_over in *. rewrite Ecur, Etoss in *. by split_and!.
Qed.

(** C11. Writing a block that follows a known one makes it known, with the total difficulty of its
    parent plus its own, and makes it the head exactly when that is more than the head has,
    or as much at a lower height, or as much at the same height and the coin says so.
    Afterwards the head is the heaviest block known, every block is found with its body,
    the numbers up to the head are those of its ancestors, whatever blocks the
    reorganisation had to leave and take, and the head of the header chain is the head.  Nothing
    panics and the walk to the common ancestor ends. *)
Theorem block_write_refines B bc block p dp receipts state root s : bc_ok B bc -> joins B block p dp -> receipts_storable receipts ->
  commitState ops (IsEIP158 config (Some (num block))) state (stateCache bc) = Some (root, s) -> storable_state bc block root s ->
  let extern := h_Difficulty (fb_header block) + dp in let w := wins_over B bc block extern (coin (tossed bc)) in
  exists bc', WriteBlockWithState ops sha config archive coin fuel block receipts state bc = Ok (bc', inr (if w then CanonStatTy else SideStatTy)) /\
    bc_ok (grownB sha B block dp) bc' /\ currentBlock bc' = if w then block else currentBlock bc.
Proof using Hw HB hash_len hash_ok. intros Hbc Hj Hr Hcommit Hstore. by apply (WriteBlockWithState_ok B bc block p dp receipts state root s). Qed.

(** Away from the canonical chain the tries to be collected are looked for where no block is: the
    code does not expect that. *)
Lemma storeState_panics bc block root s : archive = false -> triesInMemory < NumberU64 block -> canon bc (NumberU64 block - triesInMemory) = zeroHash -> storeState ops archive block root s bc = Panic.
Proof.
  intros -> Hn Hz. unfold storeState. rewrite (proj2 (Z.ltb_lt _ _)) by done. unfold GetHeaderByNumber. change (chainDb (hc (with_states bc _))) with (bc_db bc). by rewrite Hz, bool_decide_eq_true_2.
Qed.
End writing.
