(* ===== verification/BlockImport.v ===== *)
(** Importing chains of blocks ([insertChain] of [src/core/blockchain.go]): whatever the verifier,
    the processor, the clock and the coin say, the chain stays well formed. *)

From stdpp Require Import base numbers list gmap.
From S2P Require Import Prelude.
From S2P Require Import CommonMath.
From S2P Require Import Params.
From S2P Require Import RlpEncode.
From S2P Require Import VmData.
From S2P Require Import VmWorld.
From S2P Require Import State.
From S2P Require Import Types.
From S2P Require Import Transactions.
From S2P Require Import Blocks.
From S2P Require Import Consensus.
From S2P Require Import Validator.
From S2P Require Import Lru.
From S2P Require Import ChainDB.
From S2P Require Import HeaderChain.
From S2P Require Import BlockChain.
From S2P Require Import BlockChainLaws.
From S2P Require Import BlockHead.
Local Open Scope Z_scope.
Local Open Scope go_scope.

(** * What becomes of the states *)

(** Only storing the state of a block touches the states. *)
Section states.
Context {SC St : Type} (ops : StateOps SC St) (sha : bytes -> bytes) (config : ChainConfig) (coin : nat -> bool).
Implicit Types (bc : BlockChain SC) (b : FullBlock).

Lemma GetBlock_states h n bc : stateCache (GetBlock sha h n bc).1 = stateCache bc.
Proof. unfold GetBlock. destruct (lru_Get _ _) as [c [b|]]; [done|]. by destruct (ReadBlock _ _ _). Qed.
Lemma collectLogs_states h bc : stateCache (collectLogs h bc).1 = stateCache bc.
Proof. unfold collectLogs. destruct (GetBlockNumber _ _) as [c [n|]]; done. Qed.

Lemma reduceTo_states fuel collect n : forall b chain logs bc bc' o c l, reduceTo sha fuel collect n b chain logs bc = Ok (bc', o, c, l) -> stateCache bc' = stateCache bc.
Proof.
  induction fuel as [|fuel IH]; intros b chain logs bc bc' o c l; cbn [reduceTo]; destruct (_ =? _); try done; try (by intros [= <- _ _ _]).
  destruct (if collect then _ else _) as [bc1 ls] eqn:E1. assert (stateCache bc1 = stateCache bc) as H1 by (destruct collect; [pose proof (collectLogs_states (blockHash sha b) bc) as H; by rewrite E1 in H|by injection E1 as <- _]).
  pose proof (GetBlock_states (parentHash b) (parentNumber b) bc1) as H2. destruct (GetBlock _ _ _ bc1) as [bc2 [q|]]; cbn in H2; [intros H%IH; congruence|intros [= <- _ _ _]; congruence].
Qed.
Lemma bc_meet_states fuel : forall old new oldChain newChain logs bc bc' r, bc_meet sha fuel old new oldChain newChain logs bc = Ok (bc', r) -> stateCache bc' = stateCache bc.
Proof.
  induction fuel as [|fuel IH]; intros old new oldChain newChain logs bc bc' r; cbn [bc_meet]; case_bool_decide; try done; try (by intros [= <- _]).
  pose proof (collectLogs_states (blockHash sha old) bc) as H1. destruct (collectLogs _ _) as [bc1 ls]. pose proof (GetBlock_states (parentHash old) (parentNumber old) bc1) as H2. destruct (GetBlock _ _ _ bc1) as [bc2 old'].
  pose proof (GetBlock_states (parentHash new) (parentNumber new) bc2) as H3. destruct (GetBlock _ _ _ bc2) as [bc3 new']. cbn in H1, H2, H3.
  destruct old' as [old'|]; [destruct new' as [new'|]|]; [intros E%IH|intros [= <- _]..]; congruence.
Qed.
Lemma bc_insert_states b bc : stateCache (bc_insert sha b bc) = stateCache bc.
Proof. unfold bc_insert. by destruct (negb _). Qed.
Lemma insertAll_states chain : forall bc bc', insertAll sha chain bc = Ok bc' -> stateCache bc' = stateCache bc.
Proof. induction chain as [|b chain IH]; intros bc bc'; cbn [insertAll]; [by intros [= <-]|]. intros (db & _ & E)%outcome_bind_ok. apply IH in E. rewrite E. apply bc_insert_states. Qed.

Lemma reorg_states fuel old new bc bc' r : reorg sha fuel old new bc = Ok (bc', r) -> stateCache bc' = stateCache bc.
Proof.
  unfold reorg. intros ([[[[[bc1 old1] new1] oldChain] newChain] logs] & E1 & E)%outcome_bind_ok. assert (stateCache bc1 = stateCache bc) as H1.
  { destruct (_ <? _); apply outcome_bind_ok in E1 as ([[[bc2 o] c] l] & E2 & [= <- _ _ _ _ _]); by eapply reduceTo_states. }
  destruct old1 as [old1|]; [destruct new1 as [new1|]|]; [|by injection E as <- _..]. apply outcome_bind_ok in E as ([bc2 q] & E2 & E). apply bc_meet_states in E2.
  destruct q as [e|[[oc nc] lg]]; [injection E as <- _; congruence|]. apply outcome_bind_ok in E as (bc3 & E3 & [= <- _]). apply insertAll_states in E3. cbn. congruence.
Qed.

Lemma better_states block current extern local bc : stateCache (better coin block current extern local bc).1 = stateCache bc.
Proof. unfold better. by repeat case_match. Qed.

Lemma finishWrite_states fuel block receipts extern local bc bc' r : finishWrite sha coin fuel block receipts extern local bc = Ok (bc', r) -> stateCache bc' = stateCache bc.
Proof.
  unfold finishWrite. intros (ltd & _ & E)%outcome_bind_ok. pose proof (better_states block (currentBlock bc) extern ltd bc) as H1. destruct (better _ _ _ _ _ _) as [bc1 reorganise]. cbn in H1.
  apply outcome_bind_ok in E as ([bc2 e] & E2 & E). assert (stateCache bc2 = stateCache bc1) as H2.
  { destruct (_ && _); [|by injection E2 as <- _]. apply outcome_bind_ok in E2 as ([bc3 q] & E3%reorg_states & [= <- _]). done. }
  destruct e as [e|]; [injection E as <- _; congruence|]. apply outcome_bind_ok in E as (db & _ & [= <- _]). cbn. destruct reorganise; [rewrite bc_insert_states; cbn|cbn]; congruence.
Qed.

(** On a node that keeps every state, a written block leaves its state committed and flushed. *)
Lemma WriteBlockWithState_states fuel block receipts state bc bc' status : WriteBlockWithState ops sha config true coin fuel block receipts state bc = Ok (bc', inr status) ->
  exists root s, commitState ops (IsEIP158 config (Some (h_Number (fb_header block)))) state (stateCache bc) = Some (root, s) /\ commitTrie ops root s = Some (stateCache bc').
Proof.
  unfold WriteBlockWithState. assert (forall h n bc0, stateCache (bc_GetTd h n bc0).1 = stateCache bc0) as Ht by (intros h n bc0; unfold bc_GetTd; by destruct (GetTd _ _ _)).
  pose proof (Ht (parentHash block) (parentNumber block) bc) as H1. destruct (bc_GetTd _ _ bc) as [bc1 [ptd|]]; [|done]. cbn in H1. pose proof (Ht (blockHash sha (currentBlock bc1)) (NumberU64 (currentBlock bc1)) bc1) as H2. destruct (bc_GetTd _ _ bc1) as [bc2 local]. cbn in H2.
  intros (hc' & _ & E)%outcome_bind_ok. cbn [stateCache with_hc] in E. rewrite H2, H1 in E. destruct (commitState _ _ _ _) as [[root s]|]; [|done]. exists root, s. split; [done|].
  apply outcome_bind_ok in E as ([bc3 e] & E3 & E). unfold storeState in E3. destruct (commitTrie ops root s) as [s'|]; [|injection E3 as <- <-; done]. injection E3 as <- <-. apply finishWrite_states in E. by rewrite E.
Qed.
End states.

Section importing.
Context {SC St : Type} (ops : StateOps SC St) (sha : bytes -> bytes) (hash_len : forall s : bytes, length (sha s) = 32%nat) (hash_ok : forall s : bytes, bytes_ok (sha s)).
Context (config : ChainConfig) (archive : bool) (coin : nat -> bool) (P : Header -> Prop) (fuel : nat) (Hw : world sha P fuel) (PB : FullBlock -> Prop) (HB : blocks_world sha P PB).
Implicit Types (bc : BlockChain SC) (b : FullBlock) (B : BTree).
Abbreviation hashOf := (blockHash sha).
Abbreviation num b := (h_Number (fb_header b)).
Abbreviation ok := (bc_ok sha PB).

(** ** Reads under any number *)

Lemma ok_same B bc bc' : ok B bc -> holds B bc' -> same_bc bc bc' -> ok B bc'.
Proof.
  intros [Hc [H1 H2]] Hh [(E1 & E2 & E3 & E4) E5 E6 E7 _ _ _]. split; [apply (core_same sha PB B bc); try done; left; exact E1|]. split; [by rewrite E1|by rewrite E5].
Qed.

(** What is read of a block is the block, if anything. *)
Lemma GetBlock_any B bc h n : ok B bc -> is_hash32 h -> is_u64 n ->
  exists bc' r, GetBlock sha h n bc = (bc', r) /\ ok B bc' /\ same_bc bc bc' /\ (r = None \/ r = fst <$> B !! h).
Proof.
  intros Hbc H32 H64. pose proof (bk_core _ _ _ _ Hbc) as Hc. pose proof (co_holds _ _ _ _ Hc) as Hh. pose proof (co_tree _ _ _ _ Hc) as Hok.
  assert (right_number (headersOf B) h n -> exists bc' r, GetBlock sha h n bc = (bc', r) /\ ok B bc' /\ same_bc bc bc' /\ (r = None \/ r = fst <$> B !! h)) as Hright.
  { intros Hr. destruct (GetBlock_ok sha B _ Hok bc h n Hh H32 H64 Hr) as (bc' & E & Hh' & Hs). exists bc', (fst <$> B !! h). split_and!; [done|by apply (ok_same B bc)|done|by right]. }
  destruct (B !! h) as [[b d]|] eqn:E; [|apply Hright; intros x dx; unfold headersOf; by rewrite lookup_fmap, E]. destruct (decide (num b = n)) as [En|Hn]; [apply Hright; intros x dx; rewrite (headersOf_Some _ _ _ _ E); by intros [= <- <-]|].
  clear Hright. unfold GetBlock. pose proof (Get_coherent _ h _ (ho_blocks _ _ Hh)) as [H1 H2]. destruct (lru_Get h (blockCache bc)) as [c [b'|]]; cbn in H1, H2.
  - exists (with_blocks bc c), (Some b'). split_and!; [done| |done|right; rewrite <- (H2 b' eq_refl); by rewrite E]. apply (ok_same B bc); [done| |done]. by destruct Hh; split.
  - exists (with_blocks bc c), None. unfold ReadBlock. rewrite (hd_header _ _ (ho_heads _ _ Hh)) by done. unfold at_number. rewrite (headersOf_Some _ _ _ _ E). cbn. rewrite (proj2 (Z.eqb_neq _ _)) by done. cbn.
    split_and!; [done| |done|by left]. apply (ok_same B bc); [done| |done]. by destruct Hh; split.
Qed.

Lemma GetTd_any B bc h n : ok B bc -> is_hash32 h -> is_u64 n ->
  exists bc' r, bc_GetTd h n bc = (bc', r) /\ ok B bc' /\ currentBlock bc' = currentBlock bc /\ stateCache bc' = stateCache bc /\ (r = None \/ r = snd <$> headersOf B !! h).
Proof.
  intros [Hc [H1 H2]] H32 H64. unfold bc_GetTd, GetTd, cachedRead. pose proof (Get_coherent _ h _ H2) as [A1 A2]. pose proof (ho_heads _ _ (co_holds _ _ _ _ Hc)) as Hh.
  assert (forall c, coherent (fun h => snd <$> headersOf B !! h) c -> ok B (with_hc bc (with_tdCache (hc bc) c))) as Hok by (intros c Hco; split; [apply core_with_hc; [done|by destruct Hh|done]|by split]).
  destruct (lru_Get h (tdCache (hc bc))) as [c [v|]]; cbn in A1, A2.
  - eexists _, _. split; [done|]. split_and!; [by apply Hok|done|done|right; by rewrite (A2 v eq_refl)].
  - rewrite H1 by done. destruct (at_number _ _ _ _) as [v|] eqn:E.
    + unfold at_number in E. destruct (headersOf B !! h) as [e|] eqn:Eh; [|done]. destruct (_ =? _); [|done]. injection E as <-. eexists _, _. split; [done|]. split_and!; [|done|done|by right]. apply Hok, Add_coherent; [done|by rewrite Eh].
    + eexists _, _. split; [done|]. split_and!; [by apply Hok|done|done|by left].
Qed.

Lemma HasBlockAndState_any B bc h n : ok B bc -> is_hash32 h -> is_u64 n -> exists bc' r, HasBlockAndState ops sha h n bc = (bc', r) /\ ok B bc' /\ same_bc bc bc'.
Proof.
  intros Hbc H32 H64. unfold HasBlockAndState. destruct (GetBlock_any B bc h n Hbc H32 H64) as (bc' & r & -> & Hbc' & Hs & _). by destruct r; eexists _, _.
Qed.

(** ** Writing, when it comes to that *)

(** The number of a block is right for its parent: what the verifier checks. *)
Definition in_order b : Prop := forall p, PB p -> hashOf p = parentHash b -> num b = num p + 1.

Lemma parent_joins B bc block dp : ok B bc -> PB block -> in_order block -> snd <$> headersOf B !! parentHash block = Some dp -> exists p, joins PB B block p dp.
Proof.
  intros Hbc Hb Ho E. pose proof (bk_core _ _ _ _ Hbc) as Hc. unfold headersOf in E. rewrite lookup_fmap in E. destruct (B !! parentHash block) as [[p d]|] eqn:Ep; [|done]. injection E as <-.
  exists p. split; [done|done|]. apply Ho; [by apply (co_world _ _ _ _ Hc _ _ _ Ep)|]. apply (entry_hash _ _ _ (co_tree _ _ _ _ Hc) _ _ _ Ep).
Qed.
Lemma parent_args b : PB b -> is_hash32 (parentHash b) /\ is_u64 (parentNumber b) /\ is_u64 (num b).
Proof using HB Hw.
  intros Hb. pose proof (w_storable _ _ _ Hw _ (bw_header _ _ _ HB _ Hb)) as Hs. split_and!; [by apply parent_32|apply u64_range|apply Hs].
Qed.

(** Tries are always committed. *)
Context (Hcommit : forall e st sc, is_Some (commitState ops e st sc)) (Htrie : forall r sc, is_Some (commitTrie ops r sc)).

Lemma storeState_any B bc block root s bc' e : core sha PB B bc -> is_u64 (num block) -> storeState ops archive block root s bc = Ok (bc', e) ->
  e = None /\ core sha PB B bc' /\ (forall T, tds T (hc bc) -> tds T (hc bc')) /\ currentBlock bc' = currentBlock bc.
Proof using Htrie hash_len.
  intros Hc H64. unfold storeState. destruct archive.
  - destruct (Htrie root s) as [s' ->]. intros [= <- <-]. split_and!; [done|by apply core_states|done|done].
  - set (bc1 := with_states bc _). assert (core sha PB B bc1) as Hc1 by by apply core_states. rewrite NumberU64_small by done. destruct (Z.ltb_spec triesInMemory (num block)) as [Hlt|_]; [|by intros [= <- <-]].
    unfold triesInMemory in *. unfold GetHeaderByNumber. change (chainDb (hc bc1)) with (bc_db bc1). assert (is_u64 (num block - 128)) as Hm by (unfold is_u64 in *; lia).
    destruct (numbered sha PB B bc1 Hc1 (num block - 128) Hm) as [->|(b & d & E & En)]; [by rewrite bool_decide_eq_true_2|]. pose proof (co_tree _ _ _ _ Hc1) as Hok. pose proof (headersOf_Some _ _ _ _ E) as ET.
    pose proof (entry_hash _ _ _ Hok _ _ _ E) as Eh. pose proof (e_zero _ _ _ _ _ _ (t_entry _ _ _ Hok _ _ _ ET)) as Hz. rewrite bool_decide_eq_false_2 by done.
    destruct (GetHeader_heads _ (hc bc1) (ReadCanonicalHash (bc_db bc1) (num block - 128)) (num block - 128) (ho_heads _ _ (co_holds _ _ _ _ Hc1))) as (c & -> & Hh).
    { rewrite <- Eh. by apply block_32. } { done. } { intros y dy. rewrite ET. by intros [= <- <-]. }
    rewrite ET. cbn [fmap option_fmap option_map fst must outcome_bind]. intros [= <- <-]. split_and!; [done|apply core_states; by apply core_with_hc|by intros T [A1 A2]|done].
Qed.

Lemma WriteBlockWithState_any B bc block receipts state bc' r : ok B bc -> PB block -> in_order block -> receipts_storable receipts ->
  WriteBlockWithState ops sha config archive coin fuel block receipts state bc = Ok (bc', r) -> exists B', ok B' bc' /\ headersOf B ⊆ headersOf B'.
Proof using Htrie Hcommit Hw HB hash_len hash_ok.
  intros Hbc Hb Ho Hr. destruct (parent_args block Hb) as (H32 & H64p & H64). unfold WriteBlockWithState.
  destruct (GetTd_any B bc (parentHash block) (parentNumber block) Hbc H32 H64p) as (bc1 & ptd & -> & Hbc1 & Ec1 & Es1 & Hptd). destruct ptd as [dp|]; [|intros [= <- <-]; by exists B]. destruct Hptd as [|Hptd]; [done|].
  destruct (parent_joins B bc1 block dp Hbc1 Hb Ho (eq_sym Hptd)) as [p Hj]. pose proof (bk_core _ _ _ _ Hbc1) as Hc1. destruct (co_head _ _ _ _ Hc1) as [_ Hcur]. pose proof (co_tree _ _ _ _ Hc1) as Hok1.
  rewrite NumberU64_small by by apply (entry_u64 _ _ _ Hok1 _ _ _ Hcur). destruct (bc_GetTd_ok sha hash_len PB B (headersOf B) bc1 (currentBlock bc1) _ Hc1 (bk_tds _ _ _ _ Hbc1) (reflexivity _) Hok1 Hcur) as (bc2 & -> & Hc2 & Ht2 & Ec2 & _ & _ & _).
  rewrite (NumberU64_small block) by done. destruct (written_td sha hash_len P fuel Hw PB HB B bc2 block p dp) as (h & E & Hc3 & Ht3); [by split|done|]. rewrite E. cbn [outcome_bind]. set (bc3 := with_hc bc2 h) in *.
  destruct (Hcommit (IsEIP158 config (Some (num block))) state (stateCache bc3)) as [[root s] ->]. intros ([bc4 e] & E4 & H)%outcome_bind_ok.
  destruct (storeState_any B bc3 block root s bc4 e Hc3 H64 E4) as (-> & Hc4 & Ht4 & Ec4). assert (currentBlock bc4 = currentBlock bc1) as Ecur by (rewrite Ec4; exact Ec2).
  destruct (finishWrite_ok sha hash_len hash_ok coin P fuel Hw PB HB B bc4 block p dp receipts Hc4 Hj Hr) as (bc5 & E5 & Hbc5 & _); [by apply Ht4|]. rewrite Ecur in E5. rewrite E5 in H. injection H as <- _. eexists. split; [done|]. apply (grown_tree sha P fuel Hw PB HB B bc4 block p dp Hc4 Hj).
Qed.

Lemma WriteBlockWithoutState_any B bc block dp bc' : ok B bc -> PB block -> in_order block -> snd <$> headersOf B !! parentHash block = Some dp -> dp + h_Difficulty (fb_header block) < tdOf (headersOf B) (hashOf (currentBlock bc)) ->
  WriteBlockWithoutState sha block (dp + h_Difficulty (fb_header block)) bc = Ok bc' -> exists B', ok B' bc' /\ headersOf B ⊆ headersOf B'.
Proof using Hw HB hash_len.
  intros Hbc Hb Ho Hp Hlt. destruct (parent_joins B bc block dp Hbc Hb Ho Hp) as [p Hj]. destruct (parent_args block Hb) as (_ & _ & H64). unfold WriteBlockWithoutState. rewrite (Z.add_comm dp) in *. rewrite NumberU64_small by done.
  destruct (written_td sha hash_len P fuel Hw PB HB B bc block p dp Hbc Hj) as (h & -> & Hc & Ht). cbn [outcome_bind]. set (bc1 := with_hc bc h) in *.
  destruct (WriteBlock_ok sha block (bc_db bc1) (bw_ok _ _ _ HB _ Hb) H64) as (header & body & -> & R1 & R2). cbn [outcome_bind]. intros [= <-]. set (db := Put (HeaderKey _ _) header _).
  destruct (holds_written sha hash_len B _ block (fb_header p) dp bc1 header body db (co_tree _ _ _ _ Hc) (joins_admissible sha P fuel Hw PB HB B bc1 block p dp Hc Hj) (joins_parent PB B block p dp Hj)) as (Hh & Htt & Hcan); [|done|apply Hc|done|done|apply touched_refl|].
  { intros b d E. by destruct (joins_same sha P PB HB B bc1 block p dp Hc Hj b d E). }
  exists (grownB sha B block dp). split; [|apply (grown_tree sha P fuel Hw PB HB B bc1 block p dp Hc Hj)]. split; [|by apply Htt]. apply (core_side sha P fuel Hw PB HB B bc1 block p dp Hc Hj); try done. change (currentBlock bc1) with (currentBlock bc). lia.
Qed.

(** ** Importing *)

Context (BadHashes : bytes -> bool) (VerifyHeaders : list Header -> nat -> option header_error) (VerifyUncles : Block -> option header_error).
Context (Process : FullBlock -> St -> option (St * list Receipt * list StateLog * Z)) (ValidateState : FullBlock -> St -> list Receipt -> Z -> option St).
Context (now : Z) (interrupted : nat -> bool).
(** The verifier passes no header whose number is not right for its parent, and what the processor
    makes can be stored. *)
Context (Hverify : forall chain i b, Forall PB chain -> chain !! i = Some b -> VerifyHeaders (map (fun b => fb_header b) chain) i = None -> in_order b).
Context (Hprocess : forall b st st' rs ls g, Process b st = Some (st', rs, ls, g) -> receipts_storable rs).

Definition keeps B bc' : Prop := exists B', ok B' bc' /\ headersOf B ⊆ headersOf B'.
Lemma keeps_refl B bc : ok B bc -> keeps B bc.
Proof. intros H. by exists B. Qed.
Lemma keeps_trans B B' bc : headersOf B ⊆ headersOf B' -> keeps B' bc -> keeps B bc.
Proof. intros HS (B'' & Hok & HS'). exists B''. split; [done|]. by etrans. Qed.

Lemma ok_report B b bc : ok B bc -> ok B (report sha b bc).
Proof. intros H. by apply (ok_same B bc); [|destruct (co_holds _ _ _ _ (bk_core _ _ _ _ H)); split|]. Qed.
Lemma ok_queue B b bc : ok B bc -> ok B (queue sha b bc).
Proof. intros [Hc Ht]. split; [by apply core_future|done]. Qed.

Lemma judge_any B result block bc bc' v : ok B bc -> PB block -> judge ops sha VerifyUncles result block bc = Ok (bc', v) ->
  ok B bc' /\ same_bc bc bc' /\ (match v with Fine | KnownBlock | PrunedAncestor => result = None | _ => True end).
Proof using HB Hw hash_len.
  intros Hbc Hb. destruct (parent_args block Hb) as (H32 & H64p & H64). unfold judge. destruct result as [e|]; [intros [= <- <-]; split_and!; [done..|]; by destruct e|]. rewrite NumberU64_small by done.
  destruct (HasBlockAndState_any B bc (hashOf block) (num block) Hbc (block_32 sha hash_len block) H64) as (bc1 & known & -> & Hbc1 & Hs1).
  assert (exists bc2 parent, (if known then (bc1, false) else HasBlockAndState ops sha (parentHash block) (parentNumber block) bc1) = (bc2, parent) /\ ok B bc2 /\ same_bc bc1 bc2) as (bc2 & parent & -> & Hbc2 & Hs2).
  { destruct known; [by exists bc1, false|]. by apply HasBlockAndState_any. }
  assert (same_bc bc bc2) as Hs by by etrans. destruct (ValidateBody _ _ _ _ _); [intros [= <- <-]; done|intros [= <- <-]|done..]. split_and!; [done..|]. by destruct (ofBody _).
Qed.

Lemma withoutState_any B n : forall parent winner bc bc' l, ok B bc -> (forall b, parent = Some b -> PB b) -> Forall PB winner -> withoutState ops sha n parent winner bc = Ok (bc', l) -> ok B bc' /\ Forall PB l.
Proof using HB Hw hash_len.
  induction n as [|n IH]; intros [p|] winner bc bc' l Hbc Hp Hl; cbn [withoutState must outcome_bind]; try done; destruct (HasState _ _ _); try (by intros [= <- <-]); try done.
  pose proof (Hp p eq_refl) as HPp. destruct (parent_args p HPp) as (H32 & H64p & _). destruct (GetBlock_any B bc (parentHash p) (parentNumber p) Hbc H32 H64p) as (bc1 & q & -> & Hbc1 & _ & Hq). apply IH; [done| |by constructor].
  intros b ->. destruct Hq as [|Hq]; [done|]. destruct (B !! parentHash p) as [[b' d]|] eqn:E; [|done]. injection Hq as ->. by apply (co_world _ _ _ _ (bk_core _ _ _ _ Hbc1) _ _ _ E).
Qed.

Lemma processBlock_any B prev block bc bc' r : ok B bc -> PB block -> in_order block -> processBlock ops sha config archive coin Process ValidateState fuel prev block bc = Ok (bc', r) -> keeps B bc'.
Proof using Hprocess Htrie Hcommit Hw HB hash_len hash_ok.
  intros Hbc Hb Ho. destruct (parent_args block Hb) as (H32 & H64p & _). unfold processBlock.
  assert (exists bc1 parent, match prev with None => GetBlock sha (parentHash block) (parentNumber block) bc | Some p => (bc, Some p) end = (bc1, parent) /\ ok B bc1) as (bc1 & parent & -> & Hbc1).
  { destruct prev as [p|]; [by exists bc, (Some p)|]. destruct (GetBlock_any B bc _ _ Hbc H32 H64p) as (bc1 & q & E & Hbc1 & _). by exists bc1, q. }
  destruct parent as [p|]; cbn [must outcome_bind]; [|done]. destruct (openState _ _ _) as [st|]; [|intros [= <- <-]; by apply keeps_refl].
  destruct (Process block st) as [[[[st' rs] ls] g]|] eqn:Ep; [|intros [= <- <-]; by apply keeps_refl, ok_report]. destruct (ValidateState _ _ _ _) as [st''|]; [|intros [= <- <-]; by apply keeps_refl, ok_report].
  intros ([bc2 r2] & E & [= <- <-])%outcome_bind_ok. by apply (WriteBlockWithState_any B bc1 block rs st'' bc2 r2); [..|apply (Hprocess _ _ _ _ _ _ Ep)|].
Qed.

Abbreviation Import := (import ops sha config archive coin BadHashes VerifyUncles Process ValidateState now interrupted).
Abbreviation InsertChain := (insertChain ops sha config archive coin BadHashes VerifyHeaders VerifyUncles Process ValidateState now interrupted).

Section loop.
(** What the imports of forks inside the import do. *)
Context (recur : list FullBlock -> BlockChain SC -> outcome Empty_set (BlockChain SC * imported)).
Context (Hrecur : forall l B bc bc' r, Forall PB l -> ok B bc -> recur l bc = Ok (bc', r) -> keeps B bc').

Lemma importFork_any B block bc bc' r : ok B bc -> PB block -> importFork ops sha recur fuel block bc = Ok (bc', r) -> keeps B bc'.
Proof using Hrecur HB Hw hash_len.
  intros Hbc Hb. destruct (parent_args block Hb) as (H32 & H64p & _). unfold importFork. destruct (GetBlock_any B bc _ _ Hbc H32 H64p) as (bc1 & q & -> & Hbc1 & _ & Hq). intros ([bc2 l] & E & H)%outcome_bind_ok.
  destruct (withoutState_any B fuel q [] bc1 bc2 l Hbc1) as [Hbc2 Hl]; [|constructor|done|by apply (Hrecur l B bc2 bc' r)]. intros b ->. destruct Hq as [|Hq]; [done|].
  destruct (B !! parentHash block) as [[b' d]|] eqn:Eb; [|done]. injection Hq as ->. by apply (co_world _ _ _ _ (bk_core _ _ _ _ Hbc1) _ _ _ Eb).
Qed.

(** What an import does with a block before it is processed, when that block's parent has no state. *)
Definition pruned (block : FullBlock) bc : outcome Empty_set (BlockChain SC * option imported) :=
  let (bc, localTd) := bc_GetTd (hashOf (currentBlock bc)) (NumberU64 (currentBlock bc)) bc in
  let (bc, ptd) := bc_GetTd (parentHash block) (parentNumber block) bc in
  let! ptd := must ptd in
  let! localTd := must localTd in
  if ptd + h_Difficulty (fb_header block) <? localTd then let! bc := WriteBlockWithoutState sha block (ptd + h_Difficulty (fb_header block)) bc in Ok (bc, None)
  else let! (bc, r) := importFork ops sha recur fuel block bc in Ok (bc, Some r).
Lemma pruned_any B block bc bc' r : ok B bc -> PB block -> in_order block -> pruned block bc = Ok (bc', r) -> keeps B bc'.
Proof using Hrecur HB Hw hash_len.
  intros Hbc Hb Ho. destruct (parent_args block Hb) as (H32 & H64p & _). pose proof (bk_core _ _ _ _ Hbc) as Hc. destruct (co_head _ _ _ _ Hc) as [_ Hcur]. pose proof (co_tree _ _ _ _ Hc) as Hok.
  unfold pruned. rewrite NumberU64_small by by apply (entry_u64 _ _ _ Hok _ _ _ Hcur).
  destruct (bc_GetTd_ok sha hash_len PB B (headersOf B) bc (currentBlock bc) _ Hc (bk_tds _ _ _ _ Hbc) (reflexivity _) Hok Hcur) as (bc1 & -> & Hc1 & Ht1 & Ec1 & _).
  destruct (GetTd_any B bc1 _ _ ltac:(by split) H32 H64p) as (bc2 & ptd & -> & Hbc2 & Ec2 & _ & Hptd). destruct ptd as [dp|]; cbn [must outcome_bind]; [|done]. destruct Hptd as [|Hptd]; [done|].
  destruct (_ <? _) eqn:E; intros (x & E2 & H)%outcome_bind_ok.
  - injection H as <- _. apply (WriteBlockWithoutState_any B bc2 block dp x); try done. rewrite Ec2, Ec1. apply Z.ltb_lt, E.
  - destruct x as [bc3 r3]. injection H as <- _. by apply (importFork_any B block bc2 bc3 r3).
Qed.

Lemma import_any results chain : forall B i prev events logs last bc bc' r, Forall PB chain -> (forall j b, chain !! j = Some b -> results (i + j)%nat = None -> in_order b) -> ok B bc ->
  Import recur fuel results i prev chain events logs last bc = Ok (bc', r) -> keeps B bc'.
Proof using Hrecur Hprocess Htrie Hcommit Hw HB hash_len hash_ok.
  induction chain as [|block rest IH]; intros B i prev events logs last bc bc' r HF Ho Hbc; cbn [import]; [intros [= <- <-]; by apply keeps_refl|]. apply Forall_cons in HF as [Hb HF].
  assert (forall j b, rest !! j = Some b -> results (S i + j)%nat = None -> in_order b) as Ho' by (intros j b Hj; rewrite Nat.add_succ_comm; by apply (Ho (S j))).
  set (next := Import _ _ _ _ _ rest).
  assert (forall B0 events logs last bc1, headersOf B ⊆ headersOf B0 -> ok B0 bc1 -> next events logs last bc1 = Ok (bc', r) -> keeps B bc') as Hnext
    by (intros B0 ev lg la bc1 HS Hbc1 E; apply (keeps_trans B B0); [done|by apply (IH B0 (S i) (Some block) ev lg la bc1 bc' r HF Ho')]).
  set (process := fun events logs bc => let! (bc, r) := processBlock ops sha config archive coin Process ValidateState fuel prev block bc in
    match r with inl e => Ok (bc, stopped i events logs e) | inr (CanonStatTy, ls) => next (events ++ [ChainEvent block ls]) (logs ++ ls) (Some block) bc | inr (_, _) => next (events ++ [ChainSideEvent block]) logs last bc end).
  assert (forall B0 events logs bc1, results i = None -> headersOf B ⊆ headersOf B0 -> ok B0 bc1 -> process events logs bc1 = Ok (bc', r) -> keeps B bc') as Hproc.
  { intros B0 ev lg bc1 Hi HS Hbc1 ([bc2 v] & E & H)%outcome_bind_ok. destruct (processBlock_any B0 prev block bc1 bc2 v Hbc1 Hb) as (B2 & Hbc2 & HS2); [apply (Ho 0%nat); [done|by rewrite Nat.add_0_r]|done|].
    assert (headersOf B ⊆ headersOf B2) as HS' by by etrans. destruct v as [e|[[] ls]]; [injection H as <- _; by exists B2|exact (Hnext B2 _ _ _ bc2 HS' Hbc2 H)..]. }
  destruct (interrupted i); [intros [= <- <-]; by apply keeps_refl|]. destruct (BadHashes _); [intros [= <- <-]; by apply keeps_refl, ok_report|].
  intros ([bc1 v] & E & H)%outcome_bind_ok. destruct (judge_any B (results i) block bc bc1 v Hbc Hb E) as (Hbc1 & Hs1 & Hv). destruct v.
  - exact (Hproc B events logs bc1 Hv (reflexivity _) Hbc1 H).
  - destruct (_ <=? _); [exact (Hnext B events logs last bc1 (reflexivity _) Hbc1 H)|exact (Hproc B events logs bc1 Hv (reflexivity _) Hbc1 H)].
  - destruct (_ <? _); [injection H as <- _; by apply keeps_refl|]. exact (Hnext B events logs last _ (reflexivity _) (ok_queue B block bc1 Hbc1) H).
  - destruct (lru_Contains _ _); [exact (Hnext B events logs last _ (reflexivity _) (ok_queue B block bc1 Hbc1) H)|injection H as <- _; by apply keeps_refl, ok_report].
  - pose proof (fun bc2 r2 => pruned_any B block bc1 bc2 r2 Hbc1 Hb (Ho 0%nat block eq_refl ltac:(by rewrite Nat.add_0_r))) as Hpr. unfold pruned in Hpr. destruct (bc_GetTd _ _ bc1) as [bc2 localTd], (bc_GetTd _ _ bc2) as [bc3 ptd].
    destruct ptd as [ptd|], localTd as [local|]; cbn [must outcome_bind] in H, Hpr; try done. destruct (_ <? _).
    + apply outcome_bind_ok in H as (bc4 & E4 & H). destruct (Hpr bc4 None) as (B4 & Hbc4 & HS4); [by rewrite E4|]. exact (Hnext B4 events logs last bc4 HS4 Hbc4 H).
    + apply outcome_bind_ok in H as ([bc4 r4] & E4 & H). destruct (Hpr bc4 (Some r4)) as (B4 & Hbc4 & HS4); [by rewrite E4|]. destruct (i_error r4); [injection H as <- _; by exists B4|exact (Hproc B4 _ _ bc4 Hv HS4 Hbc4 H)].
  - injection H as <- _. by apply keeps_refl, ok_report.
Qed.
End loop.

(** Whatever is imported, the chain stays in order and loses no block. *)
Lemma insertChain_any depth : forall chain B bc bc' r, Forall PB chain -> ok B bc -> InsertChain depth fuel chain bc = Ok (bc', r) -> keeps B bc'.
Proof using Hverify Hprocess Htrie Hcommit Hw HB hash_len hash_ok.
  induction depth as [|depth IH]; intros chain B bc bc' r HF Hbc; [done|]. cbn [insertChain]. destruct (match chain with [] => None | _ => _ end); [intros [= <- <-]; by apply keeps_refl|].
  apply (import_any _ IH); [done| |done]. intros j b Hj Hr. by apply (Hverify chain j b).
Qed.

(** An import that turns to a fork whose states are gone starts its events anew: those of the blocks before
    are not announced. *)
Lemma fork_drops_events recur results i prev block rest events logs last bc bc1 : interrupted i = false -> BadHashes (hashOf block) = false -> judge ops sha VerifyUncles (results i) block bc = Ok (bc1, PrunedAncestor) ->
  (let (bc2, local) := bc_GetTd (hashOf (currentBlock bc1)) (NumberU64 (currentBlock bc1)) bc1 in default 0 local <= default 0 (bc_GetTd (parentHash block) (parentNumber block) bc2).2 + h_Difficulty (fb_header block)) ->
  Import recur fuel results i prev (block :: rest) events logs last bc = Import recur fuel results i prev (block :: rest) [] [] last bc.
Proof.
  intros Hi Hb Hj Htd. cbn [import]. rewrite Hi, Hb, Hj. cbn [outcome_bind]. destruct (bc_GetTd _ _ bc1) as [bc2 [local|]], (bc_GetTd _ _ bc2) as [bc3 [ptd|]]; cbn [must outcome_bind default snd] in *; try done.
  by rewrite (proj2 (Z.ltb_ge _ _)).
Qed.

(** ** Imports that go through *)

(** What is relied on of the states: committing a state and flushing its trie lets it be opened by
    its root, and keeps open what was; and a state that was validated for a block has the root
    the header of the block says. *)
Record states_sound : Prop := {
  ss_commit e st sc root sc' r : commitState ops e st sc = Some (root, sc') -> is_Some (openState ops r sc) -> is_Some (openState ops r sc');
  ss_flush root sc sc' r : commitTrie ops root sc = Some sc' -> is_Some (openState ops r sc) -> is_Some (openState ops r sc');
  ss_opens e st sc root sc' sc'' : commitState ops e st sc = Some (root, sc') -> commitTrie ops root sc' = Some sc'' -> is_Some (openState ops root sc'');
  ss_validated b st st' rs ls g st'' sc root sc' : Process b st = Some (st', rs, ls, g) -> ValidateState b st' rs g = Some st'' ->
    commitState ops (IsEIP158 config (Some (num b))) st'' sc = Some (root, sc') -> root = h_Root (fb_header b) }.

(** A block nothing is wrong with after a parent whose state has the given root: it commits to what
    is in it, its uncles are fine, and executing it on the state of its parent gives what its
    header says. *)
Record fine (root : bytes) b : Prop := {
  fi_world : PB b;
  fi_banned : BadHashes (hashOf b) = false;
  fi_commits : commits sha b;
  fi_uncles : VerifyUncles (fb_block b) = None;
  fi_process : forall sc st, openState ops root sc = Some st -> exists st' rs ls g st'', Process b st = Some (st', rs, ls, g) /\ ValidateState b st' rs g = Some st'' }.

(** A chain of such blocks, each after the one before it, from a given one on. *)
Fixpoint following (p : FullBlock) (chain : list FullBlock) : Prop :=
  match chain with [] => True | b :: chain => fine (h_Root (fb_header p)) b /\ parentHash b = hashOf p /\ num b = num p + 1 /\ following b chain end.

Section completing.
Context (Harchive : archive = true) (Hstates : states_sound) (Hrun : forall i, interrupted i = false).

(** The state of every known block can be opened. *)
Definition states_there B bc : Prop := forall h b d, B !! h = Some (b, d) -> is_Some (openState ops (h_Root (fb_header b)) (stateCache bc)).
Definition full B bc : Prop := ok B bc /\ states_there B bc.

Lemma full_same B bc bc' : full B bc -> ok B bc' -> same_bc bc bc' -> full B bc'.
Proof. intros [_ Ht] Hok Hs. split; [done|]. intros h b d E. rewrite (sb_states _ _ Hs). by eapply Ht. Qed.

Lemma HasBlockAndState_known B bc h b d : full B bc -> is_hash32 h -> B !! h = Some (b, d) -> exists bc', HasBlockAndState ops sha h (num b) bc = (bc', true) /\ full B bc'.
Proof.
  intros Hfull H32 E. pose proof Hfull as [Hbc Hthere]. pose proof (bk_core _ _ _ _ Hbc) as Hc. pose proof (co_tree _ _ _ _ Hc) as Hok. pose proof (headersOf_Some _ _ _ _ E) as ET.
  destruct (GetBlock_ok sha B _ Hok bc h (num b) (co_holds _ _ _ _ Hc) H32) as (bc' & E1 & Hh & Hs); [by apply (entry_u64 _ _ _ Hok _ _ _ ET)|intros x dx; rewrite ET; by intros [= <- <-]|].
  assert (full B bc') as Hf' by (apply (full_same B bc); [done|by apply (ok_same B bc)|done]).
  unfold HasBlockAndState. rewrite E1, E. cbn [fmap option_fmap option_map fst]. exists bc'. split; [|done]. f_equal. unfold HasState. apply bool_decide_eq_true_2. by eapply Hf'.
Qed.

Lemma joins_parentNumber B bc block p dp : ok B bc -> joins PB B block p dp -> parentNumber block = num p.
Proof using HB Hw.
  intros Hbc Hj. pose proof (bk_core _ _ _ _ Hbc) as Hc. destruct (joins_number sha P fuel Hw PB HB B bc block p dp Hc Hj) as [Hn H64]. pose proof (entry_bound _ _ _ (co_tree _ _ _ _ Hc) _ _ _ (jo_parent _ _ _ _ _ Hj)).
  unfold parentNumber. rewrite NumberU64_small, u64_small by (done || (unfold is_u64; rewrite (jo_number _ _ _ _ _ Hj) in *; lia)). rewrite (jo_number _ _ _ _ _ Hj). lia.
Qed.

Lemma judge_fine B bc root block p dp : full B bc -> fine root block -> joins PB B block p dp -> exists bc' v, judge ops sha VerifyUncles None block bc = Ok (bc', v) /\ full B bc' /\ (v = Fine \/ v = KnownBlock /\ is_Some (B !! hashOf block)).
Proof using HB Hw hash_len.
  intros Hfull Hf Hj. pose proof Hfull as [Hbc Hthere]. destruct (parent_args block (fi_world _ _ Hf)) as (H32 & H64p & H64). unfold judge, HasBlockAndState at 1. rewrite NumberU64_small by done.
  destruct (GetBlock_any B bc (hashOf block) (num block) Hbc (block_32 sha hash_len block) H64) as (bc1 & r & -> & Hbc1 & Hs1 & Hr). assert (full B bc1) as Hf1 by (by apply (full_same B bc)). unfold ValidateBody. rewrite bool_decide_eq_true_2 by done.
  destruct r as [b|].
  - assert (HasState ops (h_Root (fb_header b)) bc1 = true) as ->.
    { apply bool_decide_eq_true_2. destruct Hr as [|Hr]; [done|]. destruct (B !! hashOf block) as [[b' d]|] eqn:E; [|done]. injection Hr as ->. by eapply Hf1. }
    eexists _, _. split; [done|]. split; [done|]. right. split; [done|]. destruct Hr as [|Hr]; [done|]. by destruct (B !! hashOf block).
  - destruct (HasBlockAndState_known B bc1 (parentHash block) p dp Hf1 H32 (jo_parent _ _ _ _ _ Hj)) as (bc2 & E2 & Hbc2). rewrite (joins_parentNumber B bc1 block p dp Hbc1 Hj), E2.
    assert (h_ParentHash (fb_header block) <> hashOf block) as Hne.
    { intros E. pose proof (jo_parent _ _ _ _ _ Hj) as Hp. unfold parentHash in Hp. rewrite E in Hp. pose proof (jo_number _ _ _ _ _ Hj) as Hn. destruct (joins_same sha P PB HB B bc1 block p dp (bk_core _ _ _ _ Hbc1) Hj _ _ Hp) as [-> _]. cbn in Hn. lia. }
    rewrite bool_decide_eq_false_2 by done. cbn [negb]. rewrite (fi_uncles _ _ Hf). pose proof (fi_commits _ _ Hf) as [Hu Ht]. rewrite bool_decide_eq_true_2 by done. cbn [negb]. rewrite Ht. unfold infallible, TrieNode.map_err; cbn [outcome_bind]. rewrite bool_decide_eq_true_2 by done.
    eexists _, _. split; [done|]. split; [done|by left].
Qed.

(** After a write the state of the new block can be opened, and those of the others still can. *)
Lemma written_states B bc bc' block dp st st' rs ls g st'' receipts status : states_there B bc -> Process block st = Some (st', rs, ls, g) -> ValidateState block st' rs g = Some st'' ->
  WriteBlockWithState ops sha config archive coin fuel block receipts st'' bc = Ok (bc', inr status) -> states_there (grownB sha B block dp) bc'.
Proof using Hstates Harchive.
  rewrite Harchive. intros Ht Ep Ev (root & s & E1 & E2)%WriteBlockWithState_states h b d. unfold grownB. destruct (decide (h = hashOf block)) as [->|Hne].
  - rewrite lookup_insert_eq. intros [= <- _]. change (h_Root (fb_header (strip block))) with (h_Root (fb_header block)). rewrite <- (ss_validated Hstates _ _ _ _ _ _ _ _ _ _ Ep Ev E1). by apply (ss_opens Hstates _ _ _ _ _ _ E1 E2).
  - rewrite lookup_insert_ne by done. intros E%Ht. by apply (ss_flush Hstates _ _ _ _ E2), (ss_commit Hstates _ _ _ _ _ _ E1).
Qed.

Lemma processBlock_fine B bc prev block p dp : full B bc -> fine (h_Root (fb_header p)) block -> joins PB B block p dp -> (forall q, prev = Some q -> fb_header q = fb_header p) ->
  exists bc' v, processBlock ops sha config archive coin Process ValidateState fuel prev block bc = Ok (bc', inr v) /\ full (grownB sha B block dp) bc'.
Proof using Harchive Hstates Hprocess Htrie Hcommit Hw HB hash_len hash_ok.
  intros Hfull Hf Hj Hprev. pose proof Hfull as [Hbc _]. destruct (parent_args block (fi_world _ _ Hf)) as (H32 & H64p & _). unfold processBlock. pose proof (jo_parent _ _ _ _ _ Hj) as Ep0.
  assert (exists bc1 q, match prev with None => GetBlock sha (parentHash block) (parentNumber block) bc | Some p => (bc, Some p) end = (bc1, Some q) /\ full B bc1 /\ fb_header q = fb_header p) as (bc1 & q & -> & Hf1 & Hq).
  { destruct prev as [q|]; [exists bc, q; split_and!; [done..|by apply Hprev]|]. pose proof (bk_core _ _ _ _ Hbc) as Hc. rewrite (joins_parentNumber B bc block p dp Hbc Hj) in *.
    destruct (GetBlock_ok sha B _ (co_tree _ _ _ _ Hc) bc (parentHash block) (num p) (co_holds _ _ _ _ Hc) H32 H64p) as (bc1 & -> & Hh & Hs); [intros x dx; rewrite (headersOf_Some _ _ _ _ Ep0); by intros [= <- <-]|].
    rewrite Ep0. exists bc1, p. split_and!; [done| |done]. apply (full_same B bc); [done|by apply (ok_same B bc)|done]. }
  cbn [must outcome_bind]. rewrite Hq. destruct Hf1 as [Hbc1 Ht1]. destruct (Ht1 _ _ _ Ep0) as [st Est]. rewrite Est. destruct (fi_process _ _ Hf _ _ Est) as (st' & rs & ls & g & st'' & Ep & Ev). rewrite Ep, Ev.
  destruct (Hcommit (IsEIP158 config (Some (num block))) st'' (stateCache bc1)) as [[root s] Ec].
  destruct (WriteBlockWithState_ok ops sha hash_len hash_ok config archive coin P fuel Hw PB HB B bc1 block p dp rs st'' root s Hbc1 Hj (Hprocess _ _ _ _ _ _ Ep) Ec) as (bc2 & E2 & Hbc2 & _); [unfold storable_state; rewrite Harchive; by apply Htrie|].
  rewrite E2. cbn [outcome_bind]. eexists _, _. split; [done|]. split; [done|]. by eapply written_states.
Qed.

Definition known_blocks (chain : list FullBlock) B : Prop := Forall (fun b => exists d, B !! hashOf b = Some (strip b, d)) chain.

Lemma import_fine recur results chain : forall B i prev p dp events logs last bc, (forall j, (j < length chain)%nat -> results (i + j)%nat = None) -> B !! hashOf p = Some (strip p, dp) -> following p chain -> full B bc ->
  (forall q, prev = Some q -> fb_header q = fb_header p) ->
  exists bc' r B', Import recur fuel results i prev chain events logs last bc = Ok (bc', r) /\ i_error r = None /\ full B' bc' /\ B ⊆ B' /\ known_blocks chain B'.
Proof using Hrun Harchive Hstates Hprocess Htrie Hcommit Hw HB hash_len hash_ok.
  induction chain as [|block rest IH]; intros B i prev p dp events logs last bc Hres Ep Hfol Hfull Hprev; cbn [import]; [unfold finishImport; eexists _, _, B; split; [done|]; split_and!; [done..|by constructor]|].
  destruct Hfol as (Hf & Hpar & Hnum & Hfol). pose proof (fi_world _ _ Hf) as Hb. assert (joins PB B block (strip p) dp) as Hj by (split; [done|by rewrite Hpar|done]).
  assert (forall B0 d ev lg la bc1, full B0 bc1 -> B ⊆ B0 -> B0 !! hashOf block = Some (strip block, d) ->
    exists bc' r B', Import recur fuel results (S i) (Some block) rest ev lg la bc1 = Ok (bc', r) /\ i_error r = None /\ full B' bc' /\ B ⊆ B' /\ known_blocks (block :: rest) B') as Hnext.
  { intros B0 d ev lg la bc1 Hbc1 HS E. destruct (IH B0 (S i) (Some block) block d ev lg la bc1) as (bc' & r & B' & E' & Hr & Hbc' & HS' & Hk); try done.
    - intros j Hlt. rewrite Nat.add_succ_comm. apply Hres. cbn. lia.
    - by intros q [= <-].
    - exists bc', r, B'. split_and!; [done..|by etrans|]. constructor; [exists d; by apply (lookup_weaken B0 B')|done]. }
  assert (forall bc1, full B bc1 -> exists bc2 v, processBlock ops sha config archive coin Process ValidateState fuel prev block bc1 = Ok (bc2, inr v) /\ full (grownB sha B block dp) bc2 /\ B ⊆ grownB sha B block dp /\ grownB sha B block dp !! hashOf block = Some (strip block, h_Difficulty (fb_header block) + dp)) as Hproc.
  { intros bc1 Hf1. destruct (processBlock_fine B bc1 prev block (strip p) dp Hf1 Hf Hj Hprev) as (bc2 & v & E & Hbc2). exists bc2, v. split_and!; [done..| |apply lookup_insert_eq].
    destruct (B !! hashOf block) as [[b d]|] eqn:E'; [|by apply insert_subseteq]. destruct (joins_same sha P PB HB B bc1 block (strip p) dp (bk_core _ _ _ _ (proj1 Hf1)) Hj b d E') as [-> ->]. unfold grownB. by rewrite insert_id. }
  rewrite Hrun, (fi_banned _ _ Hf). assert (results i = None) as -> by (rewrite <- (Nat.add_0_r i); apply Hres; cbn; lia). destruct (judge_fine B bc _ block (strip p) dp Hfull Hf Hj) as (bc1 & v & -> & Hbc1 & Hv). cbn [outcome_bind].
  destruct (Hproc bc1 Hbc1) as (bc2 & [status ls] & E2 & Hbc2 & HS2 & El). destruct Hv as [->|[-> [[b d] Hknown]]].
  - rewrite E2. cbn [outcome_bind]. destruct status; by eapply Hnext.
  - destruct (joins_same sha P PB HB B bc1 block (strip p) dp (bk_core _ _ _ _ (proj1 Hbc1)) Hj b d Hknown) as [-> _]. destruct (_ <=? _); [by eapply Hnext|]. rewrite E2. cbn [outcome_bind]. destruct status; by eapply Hnext.
Qed.

Lemma following_linked chain : forall i p, PB p -> following p chain -> linkedBlocks sha i p chain = None.
Proof using HB Hw.
  induction chain as [|b chain IH]; intros i p Hp; [done|]. intros (Hf & Hpar & Hnum & Hfol). cbn [linkedBlocks]. destruct (parent_args b (fi_world _ _ Hf)) as (_ & _ & H64), (parent_args p Hp) as (_ & _ & H64p).
  rewrite !NumberU64_small, Hnum, (u64_small (_ + 1)), Z.eqb_refl, bool_decide_eq_true_2 by (done || congruence). cbn. apply IH, Hfol. by apply (fi_world _ _ Hf).
Qed.

Lemma insertChain_fine depth chain B bc p dp : full B bc -> B !! hashOf p = Some (strip p, dp) -> following p chain -> (forall j, (j < length chain)%nat -> VerifyHeaders (map (fun b => fb_header b) chain) j = None) ->
  exists bc' r B', InsertChain (S depth) fuel chain bc = Ok (bc', r) /\ i_error r = None /\ full B' bc' /\ B ⊆ B' /\ known_blocks chain B'.
Proof using Hrun Harchive Hstates Hprocess Htrie Hcommit Hw HB hash_len hash_ok.
  intros Hbc Ep Hfol Hres. cbn [insertChain]. assert (match chain with [] => None | b :: chain => linkedBlocks sha 1 b chain end = None) as ->.
  { destruct chain as [|b chain]; [done|]. destruct Hfol as (Hf & _ & _ & Hfol). by apply following_linked; [apply (fi_world _ _ Hf)|]. }
  by apply (import_fine _ _ chain B 0 None p dp).
Qed.
End completing.
End importing.
