(* ===== verification/BlockOpen.v ===== *)
(** The chain of blocks from its genesis on: it opens, grows block by block, and what a client
    sees of it at any time. *)

From stdpp Require Import base numbers list gmap.
From S2P Require Import Prelude.
From S2P Require Import CommonMath.
From S2P Require Import Params.
From S2P Require Import RlpEncode.
From S2P Require Import VmData.
From S2P Require Import VmWorld.
From S2P Require Import State.
From S2P Require Import Types.
From S2P Require Import Transactions.
From S2P Require Import Blocks.
From S2P Require Import Consensus.
From S2P Require Import TrieHasher.
From S2P Require Import Validator.
From S2P Require Import Lru.
From S2P Require Import ChainDB.
From S2P Require Import HeaderChain.
From S2P Require Import Genesis.
From S2P Require Import BlockChain.
From S2P Require Import BlockChainLaws.
From S2P Require Import BlockHead.
From S2P Require Import BlockImport.
Local Open Scope Z_scope.
Local Open Scope go_scope.

Section opening.
Context {SC St : Type} (ops : StateOps SC St) (sha : bytes -> bytes) (hash_len : forall s : bytes, length (sha s) = 32%nat) (hash_ok : forall s : bytes, bytes_ok (sha s)).
Context (config : ChainConfig) (archive : bool) (coin : nat -> bool) (P : Header -> Prop) (fuel : nat) (Hw : world sha P fuel) (PB : FullBlock -> Prop) (HB : blocks_world sha P PB).
Implicit Types (bc : BlockChain SC) (b : FullBlock) (B : BTree).
Abbreviation hashOf := (blockHash sha).
Abbreviation canon bc := (ReadCanonicalHash (bc_db bc)).
Abbreviation num b := (h_Number (fb_header b)).

Section genesis.
Context (block : FullBlock) (d : option Z) (Hblock : PB block) (Hnum : num block = 0) (Hd : 0 <= default 0 d < 2 ^ 256).
Definition B0 : BTree := {[hashOf block := (strip block, default 0 d)]}.

Lemma B0_headers : headersOf B0 = {[Header_Hash sha (fb_header block) := (fb_header block, default 0 d)]}.
Proof. unfold headersOf, B0. by rewrite map_fmap_singleton. Qed.
Lemma B0_tree : tree_ok sha (headersOf B0) (hashOf (strip block)).
Proof using Hblock Hnum HB Hw. rewrite B0_headers. apply (genesis_tree sha P fuel Hw); [by apply HB|done]. Qed.
Lemma B0_block : B0 !! hashOf block = Some (strip block, default 0 d).
Proof. apply lookup_singleton_eq. Qed.

Lemma B0_inv h b dd : B0 !! h = Some (b, dd) -> h = hashOf block /\ b = strip block /\ dd = default 0 d.
Proof. unfold B0. intros [<- [= <- <-]]%lookup_singleton_Some. done. Qed.

(** The core of a chain with nothing but its genesis block. *)
Lemma B0_core bc : holds B0 bc -> genesisBlock bc = strip block -> currentBlock bc = strip block -> currentHeader (hc bc) = fb_header block -> currentHeaderHash (hc bc) = hashOf block ->
  (forall n, is_u64 n -> canon bc n = if decide (n = 0) then hashOf block else zeroHash) -> core sha PB B0 bc.
Proof using Hblock Hnum Hd HB Hw.
  intros Hh Eg Ec Ex Ehash Hcan. pose proof (headersOf_Some _ _ _ _ B0_block) as ET. assert (tdOf (headersOf B0) (hashOf block) = default 0 d) as Etd by (unfold tdOf; by rewrite ET).
  change (hashOf block) with (hashOf (strip block)) in ET, Etd. split; rewrite ?Eg, ?Ec, ?Ex, ?Ehash; try done.
  - apply B0_tree.
  - intros h b dd (-> & -> & ->)%B0_inv. split_and!; [by apply HB|apply strip_strip|lia|]. cbn. rewrite Hnum. lia.
  - split; [by apply HB|]. by rewrite Etd.
  - intros n Hn. cbn in Hn. rewrite Hnum in Hn. assert (n = 0) as -> by lia. rewrite Hcan, decide_True by (done || by unfold is_u64). symmetry. cbn. rewrite Hnum. done.
  - intros n H64 Hn. cbn in Hn. rewrite Hnum in Hn. left. rewrite Hcan, decide_False by (done || lia). done.
  - intros h. rewrite Etd. unfold tdOf. rewrite B0_headers. destruct (decide (h = hashOf block)) as [->|Hne]; [by rewrite lookup_singleton_eq|]. rewrite lookup_singleton_ne by done. cbn. lia.
Qed.

Lemma repair_here n b bc : HasState ops (h_Root (fb_header b)) bc = true -> repair ops sha n (Some b) bc = Ok (bc, b).
Proof. intros H. by destruct n; cbn; rewrite H. Qed.

Lemma NewBlockChain_ok kv states depth : commitBlock sha block d ∅ = Ok kv -> is_Some (openState ops (h_Root (fb_header block)) states) ->
  exists bc, NewBlockChain ops sha (S depth) fuel [] kv states = Ok (inl bc) /\ bc_ok sha PB B0 bc.
Proof using Hblock Hnum Hd HB Hw hash_len.
  intros Ekv Hst. pose proof (bw_ok _ _ _ HB _ Hblock) as Hbo. pose proof (bw_header _ _ _ HB _ Hblock) as HP. pose proof (w_zero _ _ _ Hw _ HP) as Hz. pose proof (block_32 sha hash_len block) as H32. assert (is_u64 0) as H0 by by unfold is_u64.
  destruct (commitBlock_ok sha hash_len P fuel Hw block d Hbo Hnum HP Hd) as (kv' & E' & Hdb & Hhead & Hcan & Hhh & Hfast & Hbody). rewrite Ekv in E'. injection E' as <-.
  destruct (NewHeaderChain_ok sha hash_len P fuel Hw block d kv Hbo Hnum HP Hd Ekv) as (h & Eh & Hs & Edb). rewrite <- B0_headers in Hs. pose proof (c_stored _ _ _ (so_chain _ _ _ _ Hs)) as Hst0. apply stored_split in Hst0 as [Hheads Htds].
  assert (right_number (headersOf B0) (hashOf block) 0) as Hr by (intros x dx; rewrite (headersOf_Some _ _ _ _ B0_block); intros [= <- <-]; exact Hnum).
  unfold NewBlockChain. rewrite Eh. set (bc0 := MkBlockChain _ _ _ _ _ _ _ _ _ _). assert (holds B0 bc0) as Hh0.
  { split; [done| |done]. intros k b dd _ _ (-> & -> & ->)%B0_inv. change (bc_db bc0) with (chainDb h). rewrite Edb. change (num (strip block)) with (num block). rewrite Hnum. exact Hbody. }
  unfold GetBlockByNumber. change (bc_db bc0) with (chainDb h). rewrite Edb, Hcan, decide_True by done. rewrite bool_decide_eq_false_2 by done.
  destruct (GetBlock_ok sha B0 _ B0_tree bc0 (hashOf block) 0 Hh0 H32 H0 Hr) as (bc1 & E1 & Hh1 & S1). change (Header_Hash sha (fb_header block)) with (hashOf block). rewrite E1, B0_block. cbn [fmap option_fmap option_map fst].
  set (bc2 := with_genesis bc1 (strip block)). assert (holds B0 bc2) as Hh2 by (by destruct Hh1). assert (bc_db bc2 = kv) as Edb2 by (unfold bc_db; cbn; by rewrite (proj1 (sb_chain _ _ S1))).
  assert (tds (headersOf B0) (hc bc2)) as Ht2 by (destruct Htds as [A1 A2], S1 as [(C1 & _) C2 _ _ _ _ _]; split; cbn; [by rewrite C1|by rewrite C2]).
  cbn [loadLastState]. rewrite Edb2, Hhead, bool_decide_eq_false_2 by done. unfold GetBlockByHash.
  destruct (GetBlockNumber_heads _ (hc bc2) (hashOf block) (ho_heads _ _ Hh2) H32) as (c & E3 & Hheads3). change (Header_Hash sha (fb_header block)) with (hashOf block). rewrite E3, (headersOf_Some _ _ _ _ B0_block). cbn [fmap option_fmap option_map compose fst].
  change (num (strip block)) with (num block). rewrite Hnum. set (bc3 := with_hc bc2 _). assert (holds B0 bc3) as Hh3 by by apply holds_with_hc.
  destruct (GetBlock_ok sha B0 _ B0_tree bc3 (hashOf block) 0 Hh3 H32 H0 Hr) as (bc4 & E4 & Hh4 & S4). rewrite E4, B0_block. cbn [fmap option_fmap option_map fst].
  assert (stateCache bc4 = states) as Est by (rewrite (sb_states _ _ S4); exact (sb_states _ _ S1)). rewrite repair_here by (unfold HasState; rewrite Est; by apply bool_decide_eq_true_2). cbn [outcome_bind dropBad]. eexists. split; [done|].
  assert (bc_db bc4 = kv) as Edb4 by (unfold bc_db; by rewrite (proj1 (sb_chain _ _ S4))). unfold restoreHeads.
  set (bc5 := with_head bc4 (strip block)). change (bc_db bc5) with (bc_db bc4). rewrite Edb4, Hhh, bool_decide_eq_false_2 by done. unfold GetHeaderByHash.
  destruct (GetBlockNumber_heads _ (hc bc5) (hashOf block) (ho_heads _ _ Hh4) H32) as (c5 & E5 & Hheads5). change (Header_Hash sha (fb_header block)) with (hashOf block). rewrite E5, (headersOf_Some _ _ _ _ B0_block). cbn [fmap option_fmap option_map compose fst].
  change (num (strip block)) with (num block). rewrite Hnum. destruct (GetHeader_heads _ _ (hashOf block) 0 Hheads5 H32 H0 Hr) as (c6 & E6 & Hheads6). rewrite E6, (headersOf_Some _ _ _ _ B0_block). cbn [fmap option_fmap option_map fst].
  set (hc6 := with_headerCache _ c6) in *. assert (chainDb hc6 = kv) as Edb6 by exact Edb4.
  set (hc7 := SetCurrentHeader sha _ hc6). assert (heads (headersOf B0) hc7 /\ tds (headersOf B0) hc7 /\ chainDb hc7 = WriteHeadHeaderHash (hashOf block) kv) as (Hheads7 & Htds7 & Edb7).
  { assert (touched positional (chainDb hc6) (WriteHeadHeaderHash (hashOf block) (chainDb hc6))) as Htouch by (apply touched_put; [apply touched_refl|done|done]).
    pose proof (heads_touched positional _ _ _ ltac:(by intros ? []) ltac:(by intros ? ? []) Hheads6 Htouch) as [A1 A2 A3 A4 A5].
    assert (tds (headersOf B0) hc6) as Ht6. { destruct Ht2 as [C1 C2]. destruct S4 as [(D1 & _) D2 _ _ _ _ _]. split; [change (chainDb hc6) with (chainDb (hc bc4)); by rewrite D1|change (tdCache hc6) with (tdCache (hc bc4)); by rewrite D2]. }
    pose proof (tds_touched positional _ _ _ ltac:(by intros ? ? []) Ht6 Htouch) as [C1 C2]. split_and!; [by split|by split|]. rewrite <- Edb6. done. }
  set (bc7 := with_fast (with_hc bc5 hc7) (strip block)). change (bc_db bc7) with (chainDb hc7). assert (ReadHeadFastBlockHash (chainDb hc7) = zeroHash) as Hf7.
  { rewrite Edb7, <- Hfast. unfold ReadHeadFastBlockHash, WriteHeadHeaderHash. by rewrite Get_Put, decide_False by done. }
  rewrite Hf7, bool_decide_eq_true_2 by done. split; [|exact Htds7]. apply B0_core; try done.
  - destruct Hh4 as [_ A2 A3]. split; [exact Hheads7| |exact A3]. intros k b dd Hk Hn' Eb. change (ReadBody (chainDb hc7) k (num b) = Some (blockBody b)). rewrite Edb7, <- (A2 k b dd Hk Hn' Eb), Edb4. unfold WriteHeadHeaderHash. by rewrite ReadBody_Put, decide_False by done.
  - exact (sb_genesis _ _ S4).
  - intros n Hn'. change (bc_db (with_fast bc7 _)) with (chainDb hc7). rewrite Edb7, <- Hcan by done. unfold WriteHeadHeaderHash. by rewrite ReadCanonicalHash_Put, decide_False by done.
Qed.
End genesis.

(** * Every chain of blocks that can arise *)

Context (BadHashes : bytes -> bool) (VerifyHeaders : list Header -> nat -> option header_error) (VerifyUncles : Block -> option header_error).
Context (Process : FullBlock -> St -> option (St * list Receipt * list StateLog * Z)) (ValidateState : FullBlock -> St -> list Receipt -> Z -> option St).
Context (Hcommit : forall e st sc, is_Some (commitState ops e st sc)) (Htrie : forall r sc, is_Some (commitTrie ops r sc)).
Context (Hverify : forall chain i b, Forall PB chain -> chain !! i = Some b -> VerifyHeaders (map (fun b => fb_header b) chain) i = None -> in_order sha PB b).
Context (Hprocess : forall b st st' rs ls g, Process b st = Some (st', rs, ls, g) -> receipts_storable rs).

(** A chain is opened on a genesis block, blocks are written whose parents it has, and chains of blocks
    are imported, whatever comes of it. *)
Inductive built : BlockChain SC -> Prop :=
| built_opened block d kv states depth bc : PB block -> num block = 0 -> 0 <= default 0 d < 2 ^ 256 -> commitBlock sha block d ∅ = Ok kv -> is_Some (openState ops (h_Root (fb_header block)) states) ->
    NewBlockChain ops sha (S depth) fuel [] kv states = Ok (inl bc) -> built bc
| built_written bc bc' block p receipts state root s r : built bc -> PB block -> (GetBlockByHash sha (parentHash block) bc).2 = Some p -> num block = num p + 1 -> receipts_storable receipts ->
    commitState ops (IsEIP158 config (Some (num block))) state (stateCache bc) = Some (root, s) -> storable_state ops archive bc block root s ->
    WriteBlockWithState ops sha config archive coin fuel block receipts state bc = Ok (bc', r) -> built bc'
| built_imported bc bc' chain now interrupted depth r : built bc -> Forall PB chain ->
    insertChain ops sha config archive coin BadHashes VerifyHeaders VerifyUncles Process ValidateState now interrupted depth fuel chain bc = Ok (bc', r) -> built bc'.

(** What a client sees: the blocks by number up to the head form one chain from the genesis block, no
    known block is heavier than the head, and the header chain has the same head. *)
Record canonical_blocks bc : Prop := {
  kb_head : (GetBlockByNumber sha (num (currentBlock bc)) bc).2 = Some (strip (currentBlock bc));
  kb_below : forall n, 0 <= n <= num (currentBlock bc) -> exists b, (GetBlockByNumber sha n bc).2 = Some b /\ num b = n /\ (GetBlockByHash sha (hashOf b) bc).2 = Some b;
  kb_links : forall n a b, 0 <= n < num (currentBlock bc) -> (GetBlockByNumber sha n bc).2 = Some a -> (GetBlockByNumber sha (n + 1) bc).2 = Some b -> parentHash b = hashOf a;
  kb_heaviest : exists top, (GetTdByHash (hashOf (currentBlock bc)) (hc bc)).2 = Some top /\ forall b d, PB b -> (GetTdByHash (hashOf b) (hc bc)).2 = Some d -> d <= top;
  kb_header : currentHeader (hc bc) = fb_header (currentBlock bc) }.

Section seen.
Context (B : BTree) (bc : BlockChain SC) (Hbc : bc_ok sha PB B bc).
Lemma bc_stored : stored (headersOf B) (hc bc).
Proof using Hbc. apply stored_split. split; apply Hbc. Qed.
Lemma GetBlockByHash_ok h : is_hash32 h -> (GetBlockByHash sha h bc).2 = fst <$> B !! h.
Proof using Hbc.
  intros H32. pose proof (bk_core _ _ _ _ Hbc) as Hc. unfold GetBlockByHash. destruct (GetBlockNumber_heads _ (hc bc) h (ho_heads _ _ (co_holds _ _ _ _ Hc)) H32) as (c & -> & Hh).
  destruct (B !! h) as [[b d]|] eqn:E; [|unfold headersOf; by rewrite lookup_fmap, E]. rewrite (headersOf_Some _ _ _ _ E). cbn [fmap option_fmap option_map compose fst].
  destruct (GetBlock_ok sha B _ (co_tree _ _ _ _ Hc) (with_hc bc (with_numberCache (hc bc) c)) h (num b)) as (bc' & -> & _); [by apply holds_with_hc; [apply Hc|..]|done| | |by rewrite E].
  - pose proof (entry_bound _ _ _ (co_tree _ _ _ _ Hc) _ _ _ E). unfold is_u64. lia.
  - intros x dx. rewrite (headersOf_Some _ _ _ _ E). by intros [= <- <-].
Qed.
Lemma GetBlockByNumber_ok n : 0 <= n <= num (currentBlock bc) -> exists b d, (GetBlockByNumber sha n bc).2 = Some b /\ num b = n /\ B !! hashOf b = Some (b, d) /\
  hashAt (headersOf B) (hashOf (currentBlock bc)) (num (currentBlock bc)) n = hashOf b.
Proof using Hbc hash_len.
  intros Hn. pose proof (bk_core _ _ _ _ Hbc) as Hc. pose proof (co_tree _ _ _ _ Hc) as Hok. pose proof (proj2 (co_head _ _ _ _ Hc)) as Hcur. pose proof (entry_number _ _ _ Hok _ _ _ Hcur).
  destruct (hashAt_ok _ _ _ Hok _ _ _ n Hcur Hn) as (x & d & E & En & Hz). destruct (headersOf_inv _ _ _ _ E) as (b & Eb & ->). pose proof (entry_hash _ _ _ Hok _ _ _ Eb) as Eh.
  unfold GetBlockByNumber. rewrite (co_canon _ _ _ _ Hc), bool_decide_eq_false_2 by done.
  destruct (GetBlock_ok sha B _ Hok bc (hashAt (headersOf B) (hashOf (currentBlock bc)) (num (currentBlock bc)) n) n (co_holds _ _ _ _ Hc)) as (bc' & -> & _).
  { rewrite <- Eh. by apply block_32. } { unfold is_u64; lia. } { intros y dy. rewrite E. by intros [= <- <-]. }
  exists b, d. rewrite Eb, Eh. done.
Qed.
Lemma bc_ok_canonical : canonical_blocks bc.
Proof using Hbc HB hash_len.
  pose proof (bk_core _ _ _ _ Hbc) as Hc. pose proof (co_tree _ _ _ _ Hc) as Hok. destruct (co_head _ _ _ _ Hc) as [HPc Hcur]. pose proof (entry_number _ _ _ Hok _ _ _ Hcur) as HN. split.
  - destruct (GetBlockByNumber_ok (num (currentBlock bc))) as (b & d & -> & _ & Eb & Eh); [lia|]. rewrite (hashAt_top _ _ _ _ Hcur) in Eh. f_equal. destruct (co_world _ _ _ _ Hc _ _ _ Eb) as (Hb & <- & _). by apply (bw_same _ _ _ HB).
  - intros n Hn. destruct (GetBlockByNumber_ok n Hn) as (b & d & E & En & Eb & _). exists b. split_and!; [done..|]. rewrite GetBlockByHash_ok by by apply block_32. by rewrite Eb.
  - intros n a b Hn. destruct (GetBlockByNumber_ok n) as (a' & da & -> & Ena & Ea & Eha); [lia|]. intros [= ->]. destruct (GetBlockByNumber_ok (n + 1)) as (b' & db & -> & Enb & Eb & Ehb); [lia|]. intros [= ->].
    rewrite <- Eha, <- (hashAt_member _ _ _ Hok _ _ _ (n + 1) n Hcur), Ehb by lia. rewrite <- Enb at 1. rewrite (hashAt_parent _ _ _ db n (headersOf_Some _ _ _ _ Eb)) by lia. replace (num b - 1) with n by lia.
    unfold hashAt. by rewrite Z.leb_refl, Z.sub_diag.
  - exists (tdOf (headersOf B) (hashOf (currentBlock bc))). rewrite (GetTdByHash_ok sha _ _ _ _ Hok bc_stored) by by apply block_32. rewrite Hcur. split; [done|].
    intros b d Hb. rewrite (GetTdByHash_ok sha _ _ _ _ Hok bc_stored) by by apply block_32. intros E. pose proof (co_heaviest _ _ _ _ Hc (hashOf b)) as Hle. unfold tdOf at 1 in Hle. by rewrite E in Hle.
  - apply Hc.
Qed.
End seen.

Lemma built_ok bc : built bc -> exists B, bc_ok sha PB B bc.
Proof using Hverify Hprocess Htrie Hcommit HB Hw hash_len hash_ok.
  induction 1 as [block d kv states depth bc Hb Hn Hd Ekv Hst E|bc bc' block p receipts state root s r _ [B Hbc] Hb Hp Hn Hr Ecommit Hstore E|bc bc' chain now interrupted depth r _ [B Hbc] HF E].
  - destruct (NewBlockChain_ok block d Hb Hn Hd kv states depth Ekv Hst) as (bc' & E' & Hbc). rewrite E in E'. injection E' as <-. by eexists.
  - rewrite (GetBlockByHash_ok B bc Hbc) in Hp by (apply parent_32, (w_storable _ _ _ Hw), (bw_header _ _ _ HB _ Hb)). destruct (B !! parentHash block) as [[q dp]|] eqn:Eq; [|done]. injection Hp as ->.
    destruct (WriteBlockWithState_ok ops sha hash_len hash_ok config archive coin P fuel Hw PB HB B bc block p dp receipts state root s Hbc) as (bc1 & E1 & Hbc1 & _); [by split|done..|].
    rewrite E in E1. injection E1 as <- _. by eexists.
  - destruct (insertChain_any ops sha hash_len hash_ok config archive coin P fuel Hw PB HB Hcommit Htrie BadHashes VerifyHeaders VerifyUncles Process ValidateState now interrupted Hverify Hprocess depth chain B bc bc' r HF Hbc E) as (B' & Hbc' & _). by exists B'.
Qed.

(** C3. However a chain of blocks was built, block by block and fork by fork, by writing blocks and by
    importing chains of any blocks, the blocks by number up to its head form one chain from the
    genesis block, each the parent of the next and found by its hash as well; no known block
    has more total difficulty than the head; and the header chain has the same head. *)
Theorem canonical_block_chain bc : built bc -> canonical_blocks bc.
Proof using Hverify Hprocess Htrie Hcommit HB Hw hash_len hash_ok. intros Hb. destruct (built_ok bc Hb) as [B Hbc]. by apply (bc_ok_canonical B). Qed.

(** The node has the state of every block it knows. *)
Definition all_states bc : Prop := forall h b, is_hash32 h -> (GetBlockByHash sha h bc).2 = Some b -> HasState ops (h_Root (fb_header b)) bc = true.

Lemma all_states_there B bc : bc_ok sha PB B bc -> all_states bc <-> states_there ops B bc.
Proof using hash_len.
  intros Hbc. split.
  - intros H h b d E. pose proof (entry_hash _ _ _ (co_tree _ _ _ _ (bk_core _ _ _ _ Hbc)) _ _ _ E) as Eh. assert (is_hash32 h) as H32 by (rewrite <- Eh; by apply block_32).
    specialize (H h b H32). rewrite (GetBlockByHash_ok B bc Hbc h H32), E in H. specialize (H eq_refl). by apply bool_decide_eq_true in H.
  - intros H h b H32. rewrite (GetBlockByHash_ok B bc Hbc h H32). destruct (B !! h) as [[b' d]|] eqn:E; [|done]. intros [= <-]. apply bool_decide_eq_true_2. by eapply H.
Qed.

(** C12. On a node that keeps every state and has those of the blocks it knows, importing blocks nothing
    is wrong with, each after the one before and the first after a known one, returns without
    an error: each is executed on the state of its parent; all of them are known afterwards, with
    their bodies and their states, as is what was known before, and the chain is canonical again,
    its head the heaviest block of all.  Blocks that were known already do no harm. *)
Theorem import_completes now interrupted depth bc p chain : archive = true -> states_sound ops config Process ValidateState -> (forall i, interrupted i = false) ->
  built bc -> all_states bc -> (GetBlockByHash sha (hashOf p) bc).2 = Some (strip p) -> following ops sha PB BadHashes VerifyUncles Process ValidateState p chain ->
  (forall i, (i < length chain)%nat -> VerifyHeaders (map (fun b => fb_header b) chain) i = None) ->
  exists bc' r, insertChain ops sha config archive coin BadHashes VerifyHeaders VerifyUncles Process ValidateState now interrupted (S depth) fuel chain bc = Ok (bc', r) /\ i_error r = None /\
    canonical_blocks bc' /\ all_states bc' /\ Forall (fun b => (GetBlockByHash sha (hashOf b) bc').2 = Some (strip b)) chain /\
    forall h b, is_hash32 h -> (GetBlockByHash sha h bc).2 = Some b -> (GetBlockByHash sha h bc').2 = Some b.
Proof using Hverify Hprocess Htrie Hcommit HB Hw hash_len hash_ok.
  intros Harch Hss Hrun Hbuilt Hall Ep Hfol Hres. destruct (built_ok bc Hbuilt) as [B Hbc]. apply (all_states_there B bc Hbc) in Hall. rewrite (GetBlockByHash_ok B bc Hbc) in Ep by by apply block_32. destruct (B !! hashOf p) as [[q dp]|] eqn:Eq; [|done]. injection Ep as ->.
  destruct (insertChain_fine ops sha hash_len hash_ok config archive coin P fuel Hw PB HB Hcommit Htrie BadHashes VerifyHeaders VerifyUncles Process ValidateState now interrupted Hprocess Harch Hss Hrun depth chain B bc p dp (conj Hbc Hall) Eq Hfol Hres) as (bc' & r & B' & E & Hr & [Hbc' Hall'] & HS & Hk).
  exists bc', r. split_and!; [done..|by apply (bc_ok_canonical B')|by apply (all_states_there B')| |].
  - eapply Forall_impl; [exact Hk|]. intros b [d Eb]. by rewrite (GetBlockByHash_ok B' bc' Hbc'), Eb by by apply block_32.
  - intros h b H32. rewrite (GetBlockByHash_ok B bc Hbc), (GetBlockByHash_ok B' bc' Hbc') by done. destruct (B !! h) as [[b' d]|] eqn:Eb; [|done]. by rewrite (lookup_weaken _ _ _ _ Eb HS).
Qed.
End opening.

Module ChainSample.
Import HeaderSample.

Definition plain (x : Header) : FullBlock := MkFullBlock (MkBlock x []) [].
Definition knownBlock (b : FullBlock) : Prop := exists x, known x /\ b = plain x.
(** States are told by their roots, and can be opened once they have been flushed. *)
Definition ops : StateOps (gset bytes) bytes :=
  MkStateOps _ _ (fun root s => if bool_decide (root ∈ s) then Some root else None) (fun _ st s => Some (st, s)) (fun root s => Some ({[root]} ∪ s)) (fun _ _ s => s) (fun _ s => s).
Definition config : ChainConfig := Sample.sampleConfig.
Abbreviation write := (fun b bc => WriteBlockWithState ops shortHash config true (fun _ => false) 10 (plain b) [] (h_Root b) bc).

Lemma plain_size x : known x -> exists s, BodySample.blockSize (plain x) = Some s /\ s < 2 ^ 60.
Proof.
  intros Hx. unfold known, headers in Hx. rewrite !elem_of_cons, elem_of_nil in Hx. destruct Hx as [->|[->|[->|[->|[->|[]]]]]]; (eexists; split; [vm_compute; reflexivity|done]).
Qed.
Lemma sample_blocks : blocks_world shortHash known knownBlock.
Proof.
  split.
  - by intros b (x & Hx & ->).
  - intros b (x & Hx & ->). by exists x.
  - intros b (x & Hx & ->). destruct (plain_size x Hx) as (s & Es & Hs). constructor; [by apply headers_fine|apply Forall_nil_2..|]. by eapply BodySample.blockSize_ok.
  - intros b b' (x & Hx & ->) (y & Hy & ->) E. by rewrite (w_inj _ _ _ (sample_world 10 ltac:(lia)) x y Hx Hy E).
  - intros b (x & Hx & ->). destruct (headers_fine x Hx) as (_ & _ & _ & _ & Hn). split_and!; [unfold is_u64; cbn; lia|done|apply NoDup_nil_2].
  - intros b (x & Hx & ->). unfold known, headers in Hx. rewrite !elem_of_cons, elem_of_nil in Hx. by destruct Hx as [->|[->|[->|[->|[->|[]]]]]].
Qed.
Lemma no_receipts : receipts_storable [].
Proof. split; [by constructor|]. by intros b [= <-]. Qed.

Lemma gBlock : knownBlock (plain g).
Proof. exists g. split; [by left|done]. Qed.
Lemma aBlock : knownBlock (plain a1).
Proof. exists a1. split; [by right; left|done]. Qed.
Definition genesisState : gset bytes := {[h_Root g]}.
Definition nowhere : BlockChain (gset bytes) := MkBlockChain blank (plain g) (plain g) (plain g) ∅ (NewLRU 0) (NewLRU 0) (NewLRU 0) (NewLRU 0) 0.
Definition startOn (k : KV) : BlockChain (gset bytes) := match NewBlockChain ops shortHash 2 10 [] k genesisState with Ok (inl bc) => bc | _ => nowhere end.
Definition started : BlockChain (gset bytes) := startOn kv.
Definition B1 : BTree := B0 shortHash (plain g) td.

Lemma startOn_ok k : commitBlock shortHash (plain g) td ∅ = Ok k -> NewBlockChain ops shortHash 2 10 [] k genesisState = Ok (inl (startOn k)) /\ bc_ok shortHash knownBlock B1 (startOn k).
Proof.
  intros Hk. destruct (NewBlockChain_ok ops shortHash shortHash_len known 10 (sample_world 10 ltac:(lia)) knownBlock sample_blocks (plain g) td gBlock eq_refl ltac:(cbn; lia) k genesisState 1 Hk ltac:(by eexists)) as (bc & E & Hbc).
  unfold startOn. rewrite E. split; [reflexivity|exact Hbc].
Qed.
Lemma started_ok : NewBlockChain ops shortHash 2 10 [] kv genesisState = Ok (inl started) /\ bc_ok shortHash knownBlock B1 started.
Proof. exact (startOn_ok kv kv_ok). Qed.

Lemma block_write_refines_witness : exists bc', write a1 started = Ok (bc', inr CanonStatTy) /\ bc_ok shortHash knownBlock (grownB shortHash B1 (plain a1) 131072) bc' /\ currentBlock bc' = plain a1.
Proof.
  destruct (block_write_refines ops shortHash shortHash_len shortHash_ok config true (fun _ => false) known 10 (sample_world 10 ltac:(lia)) knownBlock sample_blocks B1 started (plain a1) (plain g) 131072 [] (h_Root a1) (h_Root a1) (stateCache started) (proj2 started_ok)) as (bc' & E & Hbc & Ec).
  - split; [exact aBlock|exact (B0_block shortHash (plain g) td)|reflexivity].
  - exact no_receipts.
  - reflexivity.
  - by eexists.
  - assert (wins_over shortHash B1 started (plain a1) (h_Difficulty (fb_header (plain a1)) + 131072) false = true) as W by (vm_compute; reflexivity).
    rewrite W in E, Ec. exists bc'. split; [exact E|]. split; [exact Hbc|exact Ec].
Defined.

(** An engine nothing is wrong for, and a processor that executes the known blocks on the states of
    their parents, and on no others. *)
Definition accept (hs : list Header) (i : nat) : option header_error := None.
Definition noUncles (b : Block) : option header_error := None.
Definition noBad (h : bytes) : bool := false.
Definition process (b : FullBlock) (st : bytes) : option (bytes * list Receipt * list StateLog * Z) :=
  if bool_decide (Exists (fun p => H p = parentHash b /\ h_Root p = st) headers) then Some (h_Root (fb_header b), [], [], 0) else None.
Definition validate (b : FullBlock) (st : bytes) (rs : list Receipt) (g : Z) : option bytes := if bool_decide (st = h_Root (fb_header b)) then Some st else None.
Definition inOrder (x p : Header) : bool := negb (bool_decide (H p = h_ParentHash x)) || (h_Number x =? h_Number p + 1).
Lemma known_in_order b : knownBlock b -> in_order shortHash knownBlock b.
Proof.
  intros (x & Hx & ->) p (y & Hy & ->) E. assert (forallb (fun x => forallb (inOrder x) headers) headers = true) as Hall by (vm_compute; reflexivity).
  rewrite forallb_forall in Hall. specialize (Hall x (proj1 (list_elem_of_In _ _) Hx)). rewrite forallb_forall in Hall. specialize (Hall y (proj1 (list_elem_of_In _ _) Hy)).
  unfold inOrder in Hall. change (blockHash shortHash (plain y)) with (H y) in E. rewrite E, bool_decide_eq_true_2 in Hall by done. by apply Z.eqb_eq.
Qed.
Lemma accept_in_order chain i b : Forall knownBlock chain -> chain !! i = Some b -> accept (map (fun b => fb_header b) chain) i = None -> in_order shortHash knownBlock b.
Proof. intros HF Hi _. apply known_in_order. by apply (Forall_lookup_1 _ _ _ _ HF Hi). Qed.
Lemma process_storable b st st' rs ls g : process b st = Some (st', rs, ls, g) -> receipts_storable rs.
Proof. unfold process. case_bool_decide; [|done]. intros [= _ <- _ _]. exact no_receipts. Qed.

Abbreviation builtHere := (built ops shortHash config true (fun _ => false) 10 knownBlock noBad accept noUncles process validate).
Abbreviation insertHere := (insertChain ops shortHash config true (fun _ => false) noBad accept noUncles process validate 0 (fun _ => false) 2 10).
Definition nothingDone : imported := MkImported 0 [] [] None.
Definition inserted (chain : list FullBlock) (bc : BlockChain (gset bytes)) : BlockChain (gset bytes) := (fromOk (nowhere, nothingDone) (insertHere chain bc)).1.
Lemma started_built : builtHere started.
Proof. exact (built_opened ops shortHash config true (fun _ => false) 10 knownBlock noBad accept noUncles process validate (plain g) td kv genesisState 1 started gBlock eq_refl ltac:(cbn; lia) kv_ok ltac:(by eexists) (proj1 started_ok)). Qed.
Lemma inserted_built : builtHere (inserted [plain a1; plain a2] started).
Proof.
  apply (built_imported ops shortHash config true (fun _ => false) 10 knownBlock noBad accept noUncles process validate started _ [plain a1; plain a2] 0 (fun _ => false) 2 (fromOk (nowhere, nothingDone) (insertHere [plain a1; plain a2] started)).2).
  - exact started_built.
  - repeat constructor; [exact aBlock|exists a2; split; [by right; right; left|done]].
  - unfold inserted. rewrite <- surjective_pairing. apply fromOk_ok. vm_compute. reflexivity.
Qed.
Lemma canonical_block_chain_witness : canonical_blocks shortHash knownBlock (inserted [plain a1; plain a2] started).
Proof.
  exact (canonical_block_chain ops shortHash shortHash_len shortHash_ok config true (fun _ => false) known 10 (sample_world 10 ltac:(lia)) knownBlock sample_blocks noBad accept noUncles process validate
    ltac:(by eexists) ltac:(by eexists) accept_in_order process_storable _ inserted_built).
Defined.

Lemma ops_sound : states_sound ops config process validate.
Proof.
  split; unfold ops; cbn.
  - by intros e st sc root sc' r [= _ <-].
  - intros root sc sc' r [= <-] [st Ho]. case_bool_decide as Hi; [|done]. rewrite bool_decide_eq_true_2; [by eexists|set_solver].
  - intros e st sc root sc' sc'' [= <- <-] [= <-]. rewrite bool_decide_eq_true_2; [by eexists|set_solver].
  - intros b st st' rs ls g st'' sc root sc' _. unfold validate. case_bool_decide; [|done]. by intros [= <-] [= <- _].
Qed.
Lemma plain_fine p x : known p -> known x -> H p = h_ParentHash x -> commits shortHash (plain x) -> fine ops shortHash knownBlock noBad noUncles process validate (h_Root p) (plain x).
Proof.
  intros Hp Hx Hh Hc. split; [by exists x|done..|]. intros sc st. unfold ops. cbn. case_bool_decide; [|done]. intros [= <-]. exists (h_Root x), [], [], 0, (h_Root x). unfold process, validate. rewrite bool_decide_eq_true_2, bool_decide_eq_true_2; [done..|].
  apply Exists_exists. by exists p.
Qed.
Lemma started_states : all_states ops shortHash started.
Proof.
  apply (all_states_there ops shortHash shortHash_len knownBlock B1 started (proj2 started_ok)). intros h b d. unfold B1, B0. intros [<- [= <- _]]%lookup_singleton_Some.
  assert (stateCache started = genesisState) as -> by (vm_compute; reflexivity). exists (h_Root g). unfold ops. cbn [openState]. by rewrite bool_decide_eq_true_2 by (apply elem_of_singleton; reflexivity).
Qed.
Lemma import_completes_witness : exists bc' r, insertHere [plain a1; plain a2] started = Ok (bc', r) /\ i_error r = None /\ canonical_blocks shortHash knownBlock bc' /\ all_states ops shortHash bc'.
Proof.
  destruct (import_completes ops shortHash shortHash_len shortHash_ok config true (fun _ => false) known 10 (sample_world 10 ltac:(lia)) knownBlock sample_blocks noBad accept noUncles process validate
    ltac:(by eexists) ltac:(by eexists) accept_in_order process_storable 0 (fun _ => false) 1 started (plain g) [plain a1; plain a2] eq_refl ops_sound) as (bc' & r & E & Hr & Hc & Ha & _).
  - done.
  - exact started_built.
  - exact started_states.
  - vm_compute. reflexivity.
  - split; [apply (plain_fine g a1); [by left|by right; left|reflexivity|split; vm_compute; reflexivity]|]. split; [reflexivity|]. split; [reflexivity|].
    split; [apply (plain_fine a1 a2); [by right; left|by right; right; left|reflexivity|split; vm_compute; reflexivity]|]. split; [reflexivity|]. split; [reflexivity|exact I].
  - done.
  - exists bc', r. exact (conj E (conj Hr (conj Hc Ha))).
Defined.

Definition writing (x : Header) (bc : BlockChain (gset bytes)) := write x bc.
Definition wrote (x : Header) (bc : BlockChain (gset bytes)) : BlockChain (gset bytes) := (fromOk (nowhere, inr NonStatTy) (writing x bc)).1.
(** A heavier block at a lower height becomes the head; the number above it still leads to a block
    that was left. *)
Definition heavy : Header :=
  MkHeader (H g) (EmptyUncleHash shortHash) (replicate 20 0) (replicate 32 8) emptyRoot emptyRoot (replicate 256 0) 1000000 1 1000000 0 10 [7; 7; 7] (replicate 32 0) (replicate 8 0).
Lemma stale_number : let bc := wrote heavy (wrote a2 (wrote a1 started)) in currentBlock bc = plain heavy /\ (GetBlockByNumber shortHash 2 bc).2 = Some (plain a2) /\ parentHash (plain a2) <> blockHash shortHash (currentBlock bc).
Proof. vm_compute. split_and!; [reflexivity..|discriminate]. Qed.

(** A database whose head block is not recorded, or is missing, is to be reset; at the start there is no head to
    rewind from. *)
Lemma lost_head_panics : NewBlockChain ops shortHash 2 10 [] (Delete HeadBlockKey kv) genesisState = Panic.
Proof. vm_compute. reflexivity. Qed.
End ChainSample.
