(* ===== verification/Clique.v ===== *)
(** Proof of authority ([src/consensus/clique]): the voting snapshot, its
    retrieval through the caches, and the rules for headers.

    Signature recovery, the clock, the chain, the caches and the checkpoint
    store are parameters.  The cache of recovered signatures only memoises
    [ecrecover]. *)

From stdpp Require Import base numbers list gmap.
From S2P Require Import Prelude.
From S2P Require Import CommonMath.
From S2P Require Import Params.
From S2P Require Import RlpEncode.
From S2P Require Import VmState.
From S2P Require Import Types.
From S2P Require Import Consensus.
Local Open Scope Z_scope.
Local Open Scope go_scope.

Record CliqueConfig := MkCliqueConfig { Period : Z; Epoch : Z }.

Definition epochLength : Z := 30000.
Definition checkpointInterval : Z := 1024.
Definition extraVanity : Z := 32.
Definition extraSeal : Z := 65.
Definition nonceAuthVote : bytes := replicate 8 255.
Definition nonceDropVote : bytes := replicate 8 0.
Definition diffInTurn : Z := 2.
Definition diffNoTurn : Z := 1.
Definition zeroAddress : bytes := replicate AddressLength 0.

Inductive clique_error :=
| errUnknownBlock | errInvalidCheckpointBeneficiary | errInvalidVote | errInvalidCheckpointVote | errMissingVanity | errMissingSignature | errExtraSigners
| errInvalidCheckpointSigners | errNonZeroMixDigest | errInvalidUncleHash | errWrongDifficulty | ErrInvalidTimestamp | errInvalidVotingChain | errUnauthorized
| errWaitTransactions | errSignature | errStore | errUncles | errEngine (e : header_error).

(** [New]: a missing epoch gets its default. *)
Definition New (config : CliqueConfig) : CliqueConfig := if Epoch config =? 0 then MkCliqueConfig (Period config) epochLength else config.

(** * snapshot.go *)

Record Vote := MkVote { v_Signer : bytes; v_Block : Z; v_Address : bytes; v_Authorize : bool }.
Record Tally := MkTally { t_Authorize : bool; t_Votes : Z }.
Record Snapshot := MkSnapshot {
  s_Number : Z; s_Hash : bytes; s_Signers : gset bytes; s_Recents : gmap Z bytes; s_Votes : list Vote; s_Tally : gmap bytes Tally }.

Definition newSnapshot (number : Z) (hash : bytes) (signers : list bytes) : Snapshot :=
  MkSnapshot number hash (list_to_set signers) ∅ [] ∅.

Definition validVote (s : Snapshot) (address : bytes) (authorize : bool) : bool :=
  let signer := bool_decide (address ∈ s_Signers s) in
  (signer && negb authorize) || (negb signer && authorize).

Definition with_signers (f : gset bytes) (s : Snapshot) : Snapshot := MkSnapshot (s_Number s) (s_Hash s) f (s_Recents s) (s_Votes s) (s_Tally s).
Definition with_recents (f : gmap Z bytes) (s : Snapshot) : Snapshot := MkSnapshot (s_Number s) (s_Hash s) (s_Signers s) f (s_Votes s) (s_Tally s).
Definition with_votes (f : list Vote) (s : Snapshot) : Snapshot := MkSnapshot (s_Number s) (s_Hash s) (s_Signers s) (s_Recents s) f (s_Tally s).
Definition with_tally (f : gmap bytes Tally) (s : Snapshot) : Snapshot := MkSnapshot (s_Number s) (s_Hash s) (s_Signers s) (s_Recents s) (s_Votes s) f.

Definition cast (address : bytes) (authorize : bool) (s : Snapshot) : Snapshot * bool :=
  if negb (validVote s address authorize) then (s, false)
  else
    match s_Tally s !! address with
    | Some old => (with_tally (<[address := MkTally (t_Authorize old) (t_Votes old + 1)]> (s_Tally s)) s, true)
    | None => (with_tally (<[address := MkTally authorize 1]> (s_Tally s)) s, true)
    end.

Definition uncast (address : bytes) (authorize : bool) (s : Snapshot) : Snapshot * bool :=
  match s_Tally s !! address with
  | None => (s, false)
  | Some tally =>
      if negb (Bool.eqb (t_Authorize tally) authorize) then (s, false)
      else if 1 <? t_Votes tally then (with_tally (<[address := MkTally (t_Authorize tally) (t_Votes tally - 1)]> (s_Tally s)) s, true)
      else (with_tally (delete address (s_Tally s)) s, true)
  end.

(** [uint64(len(snap.Signers)/2 + 1)]: how many blocks a signer must let pass.
    Half of an [int] and one is in range. *)
Definition signerLimit (s : Snapshot) : Z := Z.of_nat (size (s_Signers s)) / 2 + 1.

(** [delete(snap.Recents, number-limit)] *)
Definition shiftRecents (number : Z) (s : Snapshot) : Snapshot :=
  let limit := signerLimit s in
  if limit <=? number then with_recents (delete (number - limit) (s_Recents s)) s else s.

(** The previous vote of the signer on the account, if there is one: [pre] is the
    part of the list already passed. *)
Fixpoint discardVote (signer address : bytes) (pre votes : list Vote) (s : Snapshot) : Snapshot :=
  match votes with
  | [] => s
  | vote :: votes =>
      if bool_decide (v_Signer vote = signer) && bool_decide (v_Address vote = address)
      then with_votes (pre ++ votes) (uncast (v_Address vote) (v_Authorize vote) s).1
      else discardVote signer address (pre ++ [vote]) votes s
  end.

(** All votes of a signer that is no longer one. *)
Fixpoint discardSigner (signer : bytes) (pre votes : list Vote) (s : Snapshot) : Snapshot :=
  match votes with
  | [] => s
  | vote :: votes =>
      if bool_decide (v_Signer vote = signer)
      then discardSigner signer pre votes (with_votes (pre ++ votes) (uncast (v_Address vote) (v_Authorize vote) s).1)
      else discardSigner signer (pre ++ [vote]) votes s
  end.

(** All votes around an account. *)
Fixpoint discardAddress (address : bytes) (pre votes : list Vote) (s : Snapshot) : Snapshot :=
  match votes with
  | [] => s
  | vote :: votes =>
      if bool_decide (v_Address vote = address)
      then discardAddress address pre votes (with_votes (pre ++ votes) s)
      else discardAddress address (pre ++ [vote]) votes s
  end.

(** The vote passed: change the signers. *)
Definition passVote (number : Z) (address : bytes) (authorize : bool) (s : Snapshot) : Snapshot :=
  let s :=
    if authorize then with_signers (s_Signers s ∪ {[address]}) s
    else
      let s := with_signers (s_Signers s ∖ {[address]}) s in
      let s := shiftRecents number s in
      discardSigner address [] (s_Votes s) s in
  let s := discardAddress address [] (s_Votes s) s in
  with_tally (delete address (s_Tally s)) s.

(** [tally.Votes > len(snap.Signers)/2], of the tally that may be missing *)
Definition tallyUp (number : Z) (address : bytes) (s : Snapshot) : Snapshot :=
  let tally := default (MkTally false 0) (s_Tally s !! address) in
  if Z.of_nat (size (s_Signers s)) / 2 <? t_Votes tally then passVote number address (t_Authorize tally) s else s.

(** * Signatures *)

Section engine.
Context (sha : bytes -> bytes) (config : CliqueConfig) (chainConfig : ChainConfig) (now : Z).
(** [crypto.Ecrecover], of a hash and a signature. *)
Context (Ecrecover : bytes -> bytes -> option bytes).

(** The header without the 65 bytes of the signature. *)
Definition sigHash (h : Header) : outcome clique_error bytes :=
  let! extra := must (zslice (h_Extra h) 0 (zlen (h_Extra h) - 65)) in
  let h' := MkHeader (h_ParentHash h) (h_UncleHash h) (h_Coinbase h) (h_Root h) (h_TxHash h) (h_ReceiptHash h) (h_Bloom h) (h_Difficulty h)
    (h_Number h) (h_GasLimit h) (h_GasUsed h) (h_Time h) extra (h_MixDigest h) (h_Nonce h) in
  Ok (rlpHash sha (RSlice false (map (fun v => RInterface (Some v)) (header_body h' ++ [RByteArray (h_MixDigest h); RByteArray (h_Nonce h)])))).

Definition ecrecover (header : Header) : outcome clique_error bytes :=
  if zlen (h_Extra header) <? extraSeal then Err errMissingSignature
  else
    let! signature := must (zslice (h_Extra header) (zlen (h_Extra header) - extraSeal) (zlen (h_Extra header))) in
    let! hash := sigHash header in
    match Ecrecover hash signature with
    | None => Err errSignature
    | Some pubkey =>
        let! key := must (zslice pubkey 1 (zlen pubkey)) in
        let! tail := must (zslice (sha key) 12 (zlen (sha key))) in
        Ok (take AddressLength (tail ++ replicate AddressLength 0))
    end.

(** [Author] *)
Definition Author (header : Header) : outcome clique_error bytes := ecrecover header.

(** * Applying headers *)

(** One turn of the loop of [apply]. *)
Definition applyHeader (header : Header) (s : Snapshot) : outcome clique_error Snapshot :=
  let number := u64 (h_Number header) in
  if Epoch config =? 0 then Panic
  else
    let s := if number mod Epoch config =? 0 then with_tally ∅ (with_votes [] s) else s in
    let s := shiftRecents number s in
    let! signer := ecrecover header in
    if negb (bool_decide (signer ∈ s_Signers s)) then Err errUnauthorized
    else if bool_decide (map_Exists (fun _ recent => recent = signer) (s_Recents s)) then Err errUnauthorized
    else
      let s := with_recents (<[number := signer]> (s_Recents s)) s in
      let s := discardVote signer (h_Coinbase header) [] (s_Votes s) s in
      let! authorize :=
        if bool_decide (h_Nonce header = nonceAuthVote) then Ok true
        else if bool_decide (h_Nonce header = nonceDropVote) then Ok false
        else Err errInvalidVote in
      let (s, ok) := cast (h_Coinbase header) authorize s in
      let s := if ok then with_votes (s_Votes s ++ [MkVote signer number (h_Coinbase header) authorize]) s else s in
      Ok (tallyUp number (h_Coinbase header) s).

Fixpoint applyHeaders (headers : list Header) (s : Snapshot) : outcome clique_error Snapshot :=
  match headers with
  | [] => Ok s
  | header :: headers => let! s := applyHeader header s in applyHeaders headers s
  end.

(** Each header has the number after the one before. *)
Fixpoint contiguous (headers : list Header) : bool :=
  match headers with
  | h :: ((h' :: _) as headers) => (u64 (h_Number h') =? u64 (u64 (h_Number h) + 1)) && contiguous headers
  | _ => true
  end.

Definition apply (headers : list Header) (s : Snapshot) : outcome clique_error Snapshot :=
  match headers with
  | [] => Ok s
  | h :: _ =>
      if negb (contiguous headers) then Err errInvalidVotingChain
      else if negb (u64 (h_Number h) =? u64 (s_Number s + 1)) then Err errInvalidVotingChain
      else
        let! s' := applyHeaders headers s in
        Ok (MkSnapshot (u64 (s_Number s' + zlen headers)) (default [] (Header_Hash sha <$> last headers)) (s_Signers s') (s_Recents s') (s_Votes s') (s_Tally s'))
  end.
End engine.

(** * Order of the signers *)

(** [bytes.Compare(a, b) > 0] *)
Fixpoint bytesGt (a b : bytes) : bool :=
  match a, b with
  | [], _ => false
  | _ :: _, [] => true
  | x :: a, y :: b => if y <? x then true else if x <? y then false else bytesGt a b
  end.

(** The inner loop: the element at [i] against all those after it. *)
Fixpoint bubble (x : bytes) (l : list bytes) : bytes * list bytes :=
  match l with
  | [] => (x, [])
  | y :: l =>
      let (x, y) := if bytesGt x y then (y, x) else (x, y) in
      let (x, l) := bubble x l in (x, y :: l)
  end.

(** The outer loop. *)
Fixpoint sortSigners (n : nat) (l : list bytes) : list bytes :=
  match n, l with
  | S n, x :: l => let (x, l) := bubble x l in x :: sortSigners n l
  | _, _ => l
  end.

(** From the set in the order Go's map iterates it, here [elements]. *)
Definition signers (s : Snapshot) : list bytes := let l := elements (s_Signers s) in sortSigners (length l) l.

Fixpoint offsetOf (signer : bytes) (l : list bytes) : Z :=
  match l with
  | [] => 0
  | x :: l => if bool_decide (x = signer) then 0 else 1 + offsetOf signer l
  end.

Definition inturn (s : Snapshot) (number : Z) (signer : bytes) : outcome clique_error bool :=
  let l := signers s in
  if zlen l =? 0 then Panic else Ok (number mod zlen l =? offsetOf signer l).

Definition CalcDifficulty (s : Snapshot) (signer : bytes) : outcome clique_error Z :=
  let! b := inturn s (u64 (s_Number s + 1)) signer in
  Ok (if b then diffInTurn else diffNoTurn).

(** * clique.go *)

(** The caches and the store, which may lose what they were given. *)
Class SnapStore (St : Type) := {
  recentsGet : bytes -> St -> option Snapshot;
  recentsAdd : bytes -> Snapshot -> St -> St;
  loadSnapshot : bytes -> St -> option Snapshot;
  store : Snapshot -> St -> option St }.

Section clique.
Context {St : Type} `{SnapStore St}.
Context (sha : bytes -> bytes) (config : CliqueConfig) (chainConfig : ChainConfig) (now : Z) (Ecrecover : bytes -> bytes -> option bytes).
Context (GetHeader : bytes -> Z -> option Header) (genesis : Header).

(** Fallible operations leave the caches as they are then. *)
Notation M A := (outcome (clique_error * St) (St * A)).
Definition lift {A} (st : St) (m : outcome clique_error A) : M A :=
  match m with Ok a => Ok (st, a) | Err e => Err (e, st) | Panic => Panic | NoFuel => NoFuel end.

(** A retrieval of the snapshot at a block, with parents at hand. *)
Definition retrieval := St -> Z -> bytes -> list Header -> M Snapshot.

(** The checks after the snapshot is known: who signed, and when they may. *)
Definition checkSeal (snap : Snapshot) (header : Header) : outcome clique_error unit :=
  let number := u64 (h_Number header) in
  let! signer := ecrecover sha Ecrecover header in
  if negb (bool_decide (signer ∈ s_Signers snap)) then Err errUnauthorized
  else if bool_decide (map_Exists (fun seen recent => recent = signer /\ u64 (number - signerLimit snap) < seen) (s_Recents snap)) then Err errUnauthorized
  else
    let! turn := inturn snap number signer in
    if turn && negb (h_Difficulty header =? diffInTurn) then Err errWrongDifficulty
    else if negb turn && negb (h_Difficulty header =? diffNoTurn) then Err errWrongDifficulty
    else Ok tt.

Definition verifySeal (snapshot : retrieval) (st : St) (header : Header) (parents : list Header) : M unit :=
  let number := u64 (h_Number header) in
  if number =? 0 then Err (errUnknownBlock, st)
  else
    let! (st, snap) := snapshot st (u64 (number - 1)) (h_ParentHash header) parents in
    lift st (checkSeal snap header).

Definition verifyCascadingFields (snapshot : retrieval) (st : St) (header : Header) (parents : list Header) : M unit :=
  let number := u64 (h_Number header) in
  if number =? 0 then Ok (st, tt)
  else
    let parent := match last parents with Some p => Some p | None => GetHeader (h_ParentHash header) (u64 (number - 1)) end in
    match parent with
    | None => Err (errEngine ErrUnknownAncestor, st)
    | Some parent =>
        if negb (u64 (h_Number parent) =? u64 (number - 1)) || negb (bool_decide (Header_Hash sha parent = h_ParentHash header)) then Err (errEngine ErrUnknownAncestor, st)
        else if u64 (h_Time header) <? u64 (u64 (h_Time parent) + Period config) then Err (ErrInvalidTimestamp, st)
        else
          let! (st, snap) := snapshot st (u64 (number - 1)) (h_ParentHash header) parents in
          if (number mod Epoch config =? 0) && negb (bool_decide (zslice (h_Extra header) extraVanity (zlen (h_Extra header) - extraSeal) = Some (concat (signers snap))))
          then Err (errInvalidCheckpointSigners, st)
          else verifySeal snapshot st header parents
    end.

(** The checks that need no other block. *)
Definition verifyFields (header : Header) : option clique_error :=
  let number := u64 (h_Number header) in
  let checkpoint := number mod Epoch config =? 0 in
  let signersBytes := zlen (h_Extra header) - extraVanity - extraSeal in
  if now <? h_Time header then Some (errEngine ErrFutureBlock)
  else if checkpoint && negb (bool_decide (h_Coinbase header = zeroAddress)) then Some errInvalidCheckpointBeneficiary
  else if negb (bool_decide (h_Nonce header = nonceAuthVote)) && negb (bool_decide (h_Nonce header = nonceDropVote)) then Some errInvalidVote
  else if checkpoint && negb (bool_decide (h_Nonce header = nonceDropVote)) then Some errInvalidCheckpointVote
  else if zlen (h_Extra header) <? extraVanity then Some errMissingVanity
  else if zlen (h_Extra header) <? extraVanity + extraSeal then Some errMissingSignature
  else if negb checkpoint && negb (signersBytes =? 0) then Some errExtraSigners
  else if checkpoint && negb (signersBytes mod Z.of_nat AddressLength =? 0) then Some errInvalidCheckpointSigners
  else if negb (bool_decide (h_MixDigest header = replicate HashLength 0)) then Some errNonZeroMixDigest
  else if negb (bool_decide (h_UncleHash header = EmptyUncleHash sha)) then Some errInvalidUncleHash
  else if (0 <? number) && negb (h_Difficulty header =? diffInTurn) && negb (h_Difficulty header =? diffNoTurn) then Some errWrongDifficulty
  else errEngine <$> VerifyForkHashes sha chainConfig header false.

Definition verifyHeader (snapshot : retrieval) (st : St) (header : Header) (parents : list Header) : M unit :=
  if negb (now <? h_Time header) && (Epoch config =? 0) then Panic
  else
    match verifyFields header with
    | Some e => Err (e, st)
    | None => verifyCascadingFields snapshot st header parents
    end.

(** The signers the genesis block names. *)
Definition genesisSigners (extra : bytes) : list bytes :=
  let n := (zlen extra - extraVanity - extraSeal) / Z.of_nat AddressLength in
  map (fun i => take AddressLength (drop (Z.to_nat extraVanity + i * AddressLength) extra)) (seq 0 (Z.to_nat n)).

(** What is done with the snapshot found and the headers since, last first. *)
Definition finish (st : St) (snap : Snapshot) (headers : list Header) : M Snapshot :=
  let! (st, snap) := lift st (apply sha config Ecrecover (rev headers) snap) in
  let st := recentsAdd (s_Hash snap) snap st in
  if (s_Number snap mod checkpointInterval =? 0) && negb (zlen headers =? 0)
  then match store snap st with Some st => Ok (st, snap) | None => Err (errStore, st) end
  else Ok (st, snap).

Fixpoint snapshot (fuel : nat) (st : St) (number : Z) (hash : bytes) (parents headers : list Header) : M Snapshot :=
  match fuel with
  | O => NoFuel
  | S fuel =>
      match recentsGet hash st with
      | Some snap => finish st snap headers
      | None =>
          match (if number mod checkpointInterval =? 0 then loadSnapshot hash st else None) with
          | Some snap => finish st snap headers
          | None =>
              if number =? 0 then
                let! (st, _) := verifyHeader (fun st number hash parents => snapshot fuel st number hash parents []) st genesis [] in
                let snap := newSnapshot 0 (Header_Hash sha genesis) (genesisSigners (h_Extra genesis)) in
                match store snap st with
                | None => Err (errStore, st)
                | Some st => finish st snap headers
                end
              else
                match last parents with
                | Some header =>
                    if negb (bool_decide (Header_Hash sha header = hash)) || negb (u64 (h_Number header) =? number) then Err (errEngine ErrUnknownAncestor, st)
                    else snapshot fuel st (u64 (number - 1)) (h_ParentHash header) (removelast parents) (headers ++ [header])
                | None =>
                    match GetHeader hash number with
                    | None => Err (errEngine ErrUnknownAncestor, st)
                    | Some header => snapshot fuel st (u64 (number - 1)) (h_ParentHash header) [] (headers ++ [header])
                    end
                end
          end
      end
  end.

(** Enough for one turn a block, and the genesis. *)
Definition retrieve : retrieval := fun st number hash parents => snapshot (S (S (Z.to_nat number))) st number hash parents [].

Definition VerifyHeader (st : St) (header : Header) : M unit := verifyHeader retrieve st header [].
Definition VerifySeal (st : St) (header : Header) : M unit := verifySeal retrieve st header [].

(** The verdicts, each header with those before it as parents. *)
Fixpoint VerifyHeaders (st : St) (before headers : list Header) : St * list (outcome clique_error unit) :=
  match headers with
  | [] => (st, [])
  | header :: headers =>
      let (st, r) :=
        match verifyHeader retrieve st header before with
        | Ok (st, _) => (st, Ok tt)
        | Err (e, st) => (st, Err e)
        | Panic => (st, Panic)
        | NoFuel => (st, NoFuel)
        end in
      let (st, rs) := VerifyHeaders st (before ++ [header]) headers in (st, r :: rs)
  end.

Definition VerifyUncles (block : Block) : option clique_error := if 0 <? zlen (b_uncles block) then Some errUncles else None.

(** [Prepare], where [proposals] are what the node pushes and [pick] is the draw. *)
Definition Prepare (signer : bytes) (proposals : gmap bytes bool) (pick : list bytes -> bytes) (st : St) (header : Header) : M Header :=
  let number := u64 (h_Number header) in
  let! (st, snap) := retrieve st (u64 (number - 1)) (h_ParentHash header) [] in
  if Epoch config =? 0 then Panic
  else
    let addresses := if number mod Epoch config =? 0 then [] else map fst (filter (fun '(a, auth) => validVote snap a auth = true) (map_to_list proposals)) in
    let (coinbase, nonce) :=
      match addresses with
      | [] => (zeroAddress, nonceDropVote)
      | _ => let a := pick addresses in (a, if default false (proposals !! a) then nonceAuthVote else nonceDropVote)
      end in
    let! (st, difficulty) := lift st (CalcDifficulty snap signer) in
    let vanity := take (Z.to_nat extraVanity) (h_Extra header ++ replicate (Z.to_nat extraVanity - length (h_Extra header)) 0) in
    let extra := vanity ++ (if number mod Epoch config =? 0 then concat (signers snap) else []) ++ replicate (Z.to_nat extraSeal) 0 in
    match GetHeader (h_ParentHash header) (u64 (number - 1)) with
    | None => Err (errEngine ErrUnknownAncestor, st)
    | Some parent =>
        let time := h_Time parent + Period config in
        let time := if i64 time <? now then now else time in
        Ok (st, MkHeader (h_ParentHash header) (h_UncleHash header) coinbase (h_Root header) (h_TxHash header) (h_ReceiptHash header) (h_Bloom header) difficulty
          (h_Number header) (h_GasLimit header) (h_GasUsed header) time extra (replicate HashLength 0) nonce)
    end.

(** [Seal]: nothing is returned when the signer must wait, or is stopped before its time. *)
Definition Seal (signer : bytes) (signFn : bytes -> option bytes) (txs : nat) (stopped : bool) (st : St) (header : Header) : M (option Header) :=
  let number := u64 (h_Number header) in
  if number =? 0 then Err (errUnknownBlock, st)
  else if (Period config =? 0) && (txs =? 0)%nat then Err (errWaitTransactions, st)
  else
    let! (st, snap) := retrieve st (u64 (number - 1)) (h_ParentHash header) [] in
    if negb (bool_decide (signer ∈ s_Signers snap)) then Err (errUnauthorized, st)
    else if bool_decide (map_Exists (fun seen recent => recent = signer /\ (number < signerLimit snap \/ u64 (number - signerLimit snap) < seen)) (s_Recents snap)) || stopped then Ok (st, None)
    else
      let! (st, hash) := lift st (sigHash sha header) in
      match signFn hash with
      | None => Err (errSignature, st)
      | Some sighash =>
          let keep := (length (h_Extra header) - Z.to_nat extraSeal)%nat in
          let extra := take keep (h_Extra header) ++ take (Z.to_nat extraSeal) (sighash ++ drop (keep + length sighash) (h_Extra header)) in
          Ok (st, Some (MkHeader (h_ParentHash header) (h_UncleHash header) (h_Coinbase header) (h_Root header) (h_TxHash header) (h_ReceiptHash header) (h_Bloom header) (h_Difficulty header)
            (h_Number header) (h_GasLimit header) (h_GasUsed header) (h_Time header) extra (h_MixDigest header) (h_Nonce header)))
      end.
End clique.

(** * api.go *)

Definition Propose (address : bytes) (auth : bool) (proposals : gmap bytes bool) : gmap bytes bool := <[address := auth]> proposals.
Definition Discard (address : bytes) (proposals : gmap bytes bool) : gmap bytes bool := delete address proposals.
