(* ===== verification/CliqueVotes.v ===== *)
(** Voting in a proof-of-authority snapshot ([src/consensus/clique/snapshot.go]):
    the list of votes and the cached tally implement an election over a set of
    ballots, and the list of recent signers never blocks everyone. *)

From stdpp Require Import base numbers list gmap.
From S2P Require Import Prelude.
From S2P Require Import CommonMath.
From S2P Require Import Params.
From S2P Require Import VmState.
From S2P Require Import Types.
From S2P Require Import Clique.
Local Open Scope Z_scope.
Local Open Scope go_scope.

(** * The election *)

(** Who may sign, and which signer has a ballot on which account.  A ballot asks
    for the account to change sides: a signer to leave, another to join. *)
Record Election := MkElection { e_signers : gset bytes; e_ballots : gset (bytes * bytes) }.

Definition support (target : bytes) (ballots : gset (bytes * bytes)) : Z := Z.of_nat (size (filter (fun p => p.2 = target) ballots)).

(** A signer casts a ballot on an account, or withdraws the one there was. *)
Definition elect (reset : bool) (signer target : bytes) (authorize : bool) (E : Election) : Election :=
  let S := e_signers E in
  let B := (if reset then ∅ else e_ballots E) ∖ {[(signer, target)]} in
  let B := if Bool.eqb authorize (negb (bool_decide (target ∈ S))) then B ∪ {[(signer, target)]} else B in
  if Z.of_nat (size S) <? 2 * support target B then
    let S' := if bool_decide (target ∈ S) then S ∖ {[target]} else S ∪ {[target]} in
    MkElection S' (filter (fun p => p.2 <> target /\ p.1 ∈ S') B)
  else MkElection S B.

(** * What the snapshot keeps *)

Definition ballot (v : Vote) : bytes * bytes := (v_Signer v, v_Address v).
Definition election (s : Snapshot) : Election := MkElection (s_Signers s) (list_to_set (ballot <$> s_Votes s)).

Definition votesFor (votes : list Vote) (a : bytes) : nat := length (filter (fun v => v_Address v = a) votes).
Definition side (S : gset bytes) (a : bytes) : bool := negb (bool_decide (a ∈ S)).
Definition tallyOf (S : gset bytes) (votes : list Vote) (a : bytes) : option Tally :=
  match votesFor votes a with O => None | n => Some (MkTally (side S a) (Z.of_nat n)) end.

(** The votes are those of signers, one each on an account, for it to change
    sides, and the tally is their count. *)
Record votes_ok (S : gset bytes) (s : Snapshot) : Prop := {
  vo_single : NoDup (ballot <$> s_Votes s);
  vo_sides : Forall (fun v => v_Authorize v = side S (v_Address v)) (s_Votes s);
  vo_tally a : s_Tally s !! a = tallyOf S (s_Votes s) a }.

Definition votes_signed (s : Snapshot) : Prop := Forall (fun v => v_Signer v ∈ s_Signers s) (s_Votes s).

(** The recent signers are those of the last blocks, and distinct. *)
Record recents_ok (number : Z) (s : Snapshot) : Prop := {
  re_window k a : s_Recents s !! k = Some a -> 0 <= k /\ number - signerLimit s < k <= number;
  re_distinct k k' a : s_Recents s !! k = Some a -> s_Recents s !! k' = Some a -> k = k' }.

Record snap_ok (number : Z) (s : Snapshot) : Prop := {
  sn_votes : votes_ok (s_Signers s) s;
  sn_signed : votes_signed s;
  sn_recents : recents_ok number s }.

(** * Counting *)

Lemma votesFor_app l1 l2 a : votesFor (l1 ++ l2) a = (votesFor l1 a + votesFor l2 a)%nat.
Proof. unfold votesFor. by rewrite filter_app, length_app. Qed.
Lemma votesFor_cons v l a : votesFor (v :: l) a = ((if bool_decide (v_Address v = a) then 1 else 0) + votesFor l a)%nat.
Proof. unfold votesFor. rewrite filter_cons. by repeat case_decide || case_bool_decide. Qed.

Lemma ballots_filter (P : bytes * bytes -> Prop) `{!forall p, Decision (P p)} votes :
  filter P (list_to_set (ballot <$> votes) : gset (bytes * bytes)) = list_to_set (ballot <$> filter (fun v => P (ballot v)) votes).
Proof.
  apply set_eq. intros p. rewrite elem_of_filter, !elem_of_list_to_set, !list_elem_of_fmap. setoid_rewrite list_elem_of_filter. naive_solver.
Qed.

Lemma ballots_nodup (P : Vote -> Prop) `{!forall v, Decision (P v)} votes : NoDup (ballot <$> votes) -> NoDup (ballot <$> filter P votes).
Proof. intros Hn. eapply sublist_NoDup; [exact Hn|]. apply fmap_sublist, sublist_filter. Qed.

Lemma NoDup_app_remove_mid {A} (l1 l2 : list A) x : NoDup (l1 ++ x :: l2) -> NoDup (l1 ++ l2).
Proof. intros Hn. eapply sublist_NoDup; [exact Hn|]. apply sublist_app; [done|]. by apply sublist_cons. Qed.

Lemma filter_all {A} (P : A -> Prop) `{!forall x, Decision (P x)} (l : list A) : Forall P l -> filter P l = l.
Proof. induction 1; [done|]. rewrite filter_cons_True by done. by f_equal. Qed.

(** The support of an account is the number of votes on it. *)
Lemma support_votes votes a : NoDup (ballot <$> votes) -> support a (list_to_set (ballot <$> votes)) = Z.of_nat (votesFor votes a).
Proof.
  intros Hn. unfold support. rewrite ballots_filter, size_list_to_set by by apply ballots_nodup. by rewrite length_fmap.
Qed.

(** * Taking votes back *)

(** Taking back a counted vote, and dropping it from the list. *)
Lemma uncast_ok S s l1 v l2 : votes_ok S s -> s_Votes s = l1 ++ v :: l2 ->
  votes_ok S (with_votes (l1 ++ l2) (uncast (v_Address v) (v_Authorize v) s).1) /\ s_Signers (uncast (v_Address v) (v_Authorize v) s).1 = s_Signers s /\
  s_Recents (uncast (v_Address v) (v_Authorize v) s).1 = s_Recents s.
Proof.
  intros [Hn Hs Ht] Hv. split; [|unfold uncast; repeat case_match; done]. rewrite Hv in *. rewrite fmap_app, fmap_cons in Hn. apply Forall_app in Hs as [Hs1 [Hsv Hs2]%Forall_cons_1].
  constructor; cbn [s_Votes with_votes].
  - rewrite fmap_app. by apply NoDup_app_remove_mid in Hn.
  - by apply Forall_app.
  - intros a. change (s_Tally (with_votes _ ?x)) with (s_Tally x). pose proof (Ht (v_Address v)) as Hc. unfold uncast. unfold tallyOf in Hc. rewrite votesFor_app, votesFor_cons, bool_decide_eq_true_2 in Hc by done.
    replace (votesFor l1 (v_Address v) + (1 + votesFor l2 (v_Address v)))%nat with (Datatypes.S (votesFor (l1 ++ l2) (v_Address v))) in Hc by (rewrite votesFor_app; lia). rewrite Hc. cbn [t_Authorize t_Votes].
    rewrite Hsv, Bool.eqb_reflx. cbn [negb].
    destruct (decide (a = v_Address v)) as [->|Hne].
    + unfold tallyOf. destruct (votesFor (l1 ++ l2) (v_Address v)) as [|k] eqn:Ek.
      * change (1 <? Z.of_nat 1) with false. apply lookup_delete_eq.
      * destruct (Z.ltb_spec 1 (Z.of_nat (Datatypes.S (Datatypes.S k)))); [|lia]. cbn [fst with_tally s_Tally]. rewrite lookup_insert_eq. do 2 f_equal. lia.
    + replace (tallyOf S (l1 ++ l2) a) with (s_Tally s !! a); [|rewrite Ht; unfold tallyOf; rewrite !votesFor_app, votesFor_cons, bool_decide_eq_false_2 by done; done].
      case_match; [by apply lookup_insert_ne|by apply lookup_delete_ne].
Qed.

(** The rest of a snapshot, which discarding votes does not touch. *)
Definition same_rest (s s' : Snapshot) : Prop := s_Signers s' = s_Signers s /\ s_Recents s' = s_Recents s.

Lemma discardVote_ok S signer a pre votes s : votes_ok S s -> s_Votes s = pre ++ votes -> Forall (fun v => ballot v <> (signer, a)) pre ->
  let s' := discardVote signer a pre votes s in
  votes_ok S s' /\ s_Votes s' = filter (fun v => ballot v <> (signer, a)) (pre ++ votes) /\ same_rest s s'.
Proof.
  revert pre. induction votes as [|v votes IH]; intros pre Hok Hv Hpre; cbn [discardVote]; cbv zeta.
  - split; [done|]. split; [|done]. rewrite app_nil_r in *. rewrite Hv. symmetry. by apply filter_all.
  - destruct (bool_decide (v_Signer v = signer) && bool_decide (v_Address v = a)) eqn:E.
    + apply andb_true_iff in E as [E1%bool_decide_eq_true_1 E2%bool_decide_eq_true_1]. destruct (uncast_ok S s pre v votes Hok Hv) as (Hok' & Hr). split; [done|]. split; [|done].
      cbn [s_Votes with_votes]. rewrite filter_app, filter_cons_False by (unfold ballot; rewrite E1, E2; tauto). rewrite (filter_all _ pre) by done. f_equal. symmetry. apply filter_all.
      destruct Hok as [Hn _ _]. rewrite Hv, fmap_app, fmap_cons in Hn. apply Forall_forall. intros w Hw Heq. apply NoDup_app in Hn as (_ & _ & [Hn _]%NoDup_cons). apply Hn, list_elem_of_fmap. exists w. split; [|done].
      rewrite Heq. unfold ballot. by rewrite E1, E2.
    + assert (Hb : ballot v <> (signer, a)). { intros [= <- <-]. by rewrite !bool_decide_eq_true_2 in E. }
      replace (pre ++ v :: votes) with ((pre ++ [v]) ++ votes) in * by by rewrite <- app_assoc. apply IH; [done..|]. by apply Forall_app; split; [|apply Forall_singleton].
Qed.

Lemma discardSigner_ok S signer pre votes s : votes_ok S s -> s_Votes s = pre ++ votes -> Forall (fun v => v_Signer v <> signer) pre ->
  let s' := discardSigner signer pre votes s in
  votes_ok S s' /\ s_Votes s' = filter (fun v => v_Signer v <> signer) (pre ++ votes) /\ same_rest s s'.
Proof.
  revert pre s. induction votes as [|v votes IH]; intros pre s Hok Hv Hpre; cbn [discardSigner]; cbv zeta.
  - split; [done|]. split; [|done]. rewrite app_nil_r in *. rewrite Hv. symmetry. by apply filter_all.
  - case_bool_decide as E.
    + destruct (uncast_ok S s pre v votes Hok Hv) as (Hok' & Hr1 & Hr2). destruct (IH pre (with_votes (pre ++ votes) (uncast (v_Address v) (v_Authorize v) s).1)) as (? & -> & ?); [done..|].
      split; [done|]. split; [by rewrite !filter_app, filter_cons_False by tauto|]. unfold same_rest in *. cbn in *. by rewrite <- Hr1, <- Hr2.
    + replace (pre ++ v :: votes) with ((pre ++ [v]) ++ votes) in * by by rewrite <- app_assoc. apply IH; [done..|]. by apply Forall_app; split; [|apply Forall_singleton].
Qed.

Lemma discardAddress_ok a pre votes s : s_Votes s = pre ++ votes -> Forall (fun v => v_Address v <> a) pre ->
  let s' := discardAddress a pre votes s in
  s_Votes s' = filter (fun v => v_Address v <> a) (pre ++ votes) /\ s_Tally s' = s_Tally s /\ same_rest s s'.
Proof.
  revert pre s. induction votes as [|v votes IH]; intros pre s Hv Hpre; cbn [discardAddress]; cbv zeta.
  - split; [|done]. rewrite app_nil_r in *. rewrite Hv. symmetry. by apply filter_all.
  - case_bool_decide as E.
    + destruct (IH pre (with_votes (pre ++ votes) s)) as (-> & -> & ?); [done..|]. split; [by rewrite !filter_app, filter_cons_False by tauto|done].
    + replace (pre ++ v :: votes) with ((pre ++ [v]) ++ votes) in * by by rewrite <- app_assoc. apply IH; [done..|]. by apply Forall_app; split; [|apply Forall_singleton].
Qed.

(** * Casting and passing votes *)

Lemma votesFor_others a b l : b <> a -> votesFor (filter (fun v => v_Address v <> a) l) b = votesFor l b.
Proof.
  intros Hne. induction l as [|v l IH]; [done|]. destruct (decide (v_Address v = a)) as [E|E].
  - rewrite filter_cons_False by tauto. rewrite votesFor_cons, bool_decide_eq_false_2 by congruence. done.
  - rewrite filter_cons_True, !votesFor_cons by done. by rewrite IH.
Qed.

Lemma votesFor_none a l : votesFor (filter (fun v => v_Address v <> a) l) a = 0%nat.
Proof. induction l as [|v l IH]; [done|]. destruct (decide (v_Address v = a)); [by rewrite filter_cons_False by tauto|]. rewrite filter_cons_True, votesFor_cons, bool_decide_eq_false_2 by done. done. Qed.

(** Settling an account: all votes on it go, and its tally. *)
Lemma settle_votes_ok S S' a s : votes_ok S s -> (forall b, b <> a -> side S b = side S' b) ->
  let d := discardAddress a [] (s_Votes s) s in let s' := with_tally (delete a (s_Tally d)) d in
  votes_ok S' s' /\ s_Votes s' = filter (fun v => v_Address v <> a) (s_Votes s) /\ same_rest s s'.
Proof.
  intros [Hn Hs Ht] Hside. cbv zeta. destruct (discardAddress_ok a [] (s_Votes s) s eq_refl ltac:(by apply Forall_nil_2)) as (Hv & Htl & Hr). cbn [app] in Hv.
  split; [|done]. constructor; cbn [s_Votes s_Tally with_tally]; rewrite ?Hv, ?Htl.
  - by apply ballots_nodup.
  - apply Forall_forall. intros v [Ha Hin]%list_elem_of_filter. rewrite Forall_forall in Hs. rewrite (Hs v Hin). by apply Hside.
  - intros b. destruct (decide (b = a)) as [->|Hne]; [rewrite lookup_delete_eq; unfold tallyOf; by rewrite votesFor_none|].
    rewrite lookup_delete_ne, Ht by done. unfold tallyOf. by rewrite votesFor_others, Hside.
Qed.

Lemma side_true S a : side S a = true <-> a ∉ S.
Proof. unfold side. case_bool_decide; naive_solver. Qed.
Lemma side_false S a : side S a = false <-> a ∈ S.
Proof. unfold side. case_bool_decide; naive_solver. Qed.
Lemma side_ext S S' a : (a ∈ S <-> a ∈ S') -> side S a = side S' a.
Proof. intros H. unfold side. by rewrite (bool_decide_ext _ _ H). Qed.

(** The account changes sides. *)
Definition toggled (S : gset bytes) (a : bytes) : gset bytes := if bool_decide (a ∈ S) then S ∖ {[a]} else S ∪ {[a]}.

Lemma toggled_other S a b : b <> a -> side S b = side (toggled S a) b.
Proof. intros Hne. apply side_ext. unfold toggled. case_bool_decide; set_solver. Qed.

Lemma passVote_ok number a s : votes_ok (s_Signers s) s -> votes_signed s ->
  let s' := passVote number a (side (s_Signers s) a) s in
  s_Signers s' = toggled (s_Signers s) a /\ votes_ok (s_Signers s') s' /\ votes_signed s' /\
  (forall v, v ∈ s_Votes s' <-> v ∈ s_Votes s /\ v_Address v <> a /\ v_Signer v ∈ s_Signers s') /\
  s_Recents s' = if bool_decide (a ∈ s_Signers s) then s_Recents (shiftRecents number (with_signers (s_Signers s ∖ {[a]}) s)) else s_Recents s.
Proof.
  intros Hok Hsg. cbv zeta. unfold passVote. destruct (side (s_Signers s) a) eqn:Es.
  - apply side_true in Es. set (s1 := with_signers (s_Signers s ∪ {[a]}) s). assert (Ht : toggled (s_Signers s) a = s_Signers s ∪ {[a]}) by (unfold toggled; by rewrite bool_decide_eq_false_2).
    assert (Hok1 : votes_ok (s_Signers s) s1) by (destruct Hok; by constructor).
    destruct (settle_votes_ok _ (toggled (s_Signers s) a) a s1 Hok1 (toggled_other _ _)) as (Hok2 & Hv & Hr1 & Hr2). rewrite bool_decide_eq_false_2 by done. change (s_Votes s1) with (s_Votes s) in *.
    rewrite Hr1, Ht in *. unfold votes_signed. rewrite Hr1, Hv. cbn [s_Signers s1 with_signers]. unfold votes_signed in Hsg. rewrite Forall_forall in Hsg.
    split_and!; try done; [apply Forall_forall; intros v [_ Hin]%list_elem_of_filter; set_solver|]. intros v. rewrite list_elem_of_filter. set_solver.
  - apply side_false in Es. set (s1 := shiftRecents number (with_signers (s_Signers s ∖ {[a]}) s)). assert (Ht : toggled (s_Signers s) a = s_Signers s ∖ {[a]}) by (unfold toggled; by rewrite bool_decide_eq_true_2).
    assert (Hs1 : s_Signers s1 = s_Signers s ∖ {[a]} /\ s_Votes s1 = s_Votes s /\ s_Tally s1 = s_Tally s) by (unfold s1, shiftRecents; cbv zeta; case_match; done). destruct Hs1 as (Hs1 & Hv1 & Ht1).
    assert (Hok1 : votes_ok (s_Signers s) s1) by (destruct Hok; constructor; rewrite ?Hv1, ?Ht1; done).
    destruct (discardSigner_ok (s_Signers s) a [] (s_Votes s1) s1 Hok1 eq_refl ltac:(by apply Forall_nil_2)) as (Hok2 & Hv2 & Hr1 & Hr2).
    destruct (settle_votes_ok _ (toggled (s_Signers s) a) a _ Hok2 (toggled_other _ _)) as (Hok3 & Hv & Hr3 & Hr4). rewrite bool_decide_eq_true_2 by done. cbn [app] in Hv2.
    rewrite Hr1, Hs1 in Hr3. rewrite Ht in Hok3. unfold votes_signed in *. rewrite Forall_forall in Hsg. split_and!.
    + by rewrite Hr3, Ht.
    + rewrite Hr3. exact Hok3.
    + rewrite Hr3, Hv, Hv2, Hv1. apply Forall_forall. intros v [? [? Hin]%list_elem_of_filter]%list_elem_of_filter. apply elem_of_difference. split; [by apply Hsg|by apply not_elem_of_singleton].
    + intros v. rewrite Hr3, Hv, Hv2, Hv1, !list_elem_of_filter, elem_of_difference, elem_of_singleton. specialize (Hsg v). clear - Hsg. tauto.
    + congruence.
Qed.

(** A vote is cast when it asks for a change. *)
Lemma cast_ok signer number a auth s : votes_ok (s_Signers s) s -> (signer, a) ∉ ballot <$> s_Votes s ->
  let v := MkVote signer number a auth in
  let (s1, ok) := cast a auth s in let s' := if ok then with_votes (s_Votes s1 ++ [v]) s1 else s1 in
  votes_ok (s_Signers s) s' /\ same_rest s s' /\ s_Votes s' = s_Votes s ++ if Bool.eqb auth (side (s_Signers s) a) then [v] else [].
Proof.
  intros [Hn Hs Ht] Hb. cbv zeta. unfold cast. assert (Hval : validVote s a auth = Bool.eqb auth (side (s_Signers s) a)).
  { unfold validVote, side. by destruct (bool_decide _), auth. }
  rewrite Hval. destruct (Bool.eqb auth (side (s_Signers s) a)) eqn:Ea; cbn [negb]; [|rewrite app_nil_r; split; [done|done]]. apply eqb_prop in Ea. subst auth.
  set (v := MkVote signer number a (side (s_Signers s) a)). set (n := votesFor (s_Votes s) a).
  assert (Hc : (match s_Tally s !! a with Some old => (with_tally (<[a := MkTally (t_Authorize old) (t_Votes old + 1)]> (s_Tally s)) s, true) | None => (with_tally (<[a := MkTally (side (s_Signers s) a) 1]> (s_Tally s)) s, true) end)
    = (with_tally (<[a := MkTally (side (s_Signers s) a) (Z.of_nat (Datatypes.S n))]> (s_Tally s)) s, true)).
  { rewrite Ht. unfold tallyOf. fold n. destruct n as [|n']; [done|]. cbn [t_Authorize t_Votes]. do 4 f_equal. lia. }
  rewrite Hc. split; [|done]. constructor; cbn [s_Votes s_Tally with_votes with_tally].
  - rewrite fmap_app. apply NoDup_app. split; [done|]. split; [|apply NoDup_singleton]. intros p Hp ->%list_elem_of_singleton. done.
  - apply Forall_app. split; [done|]. by apply Forall_singleton.
  - intros b. unfold tallyOf. rewrite votesFor_app, votesFor_cons. cbn [v_Address v]. destruct (decide (b = a)) as [->|Hne].
    + rewrite bool_decide_eq_true_2, lookup_insert_eq by done. fold n. by replace (n + (1 + votesFor [] a))%nat with (Datatypes.S n) by (unfold votesFor; cbn; lia).
    + rewrite bool_decide_eq_false_2, lookup_insert_ne, Ht by done. unfold tallyOf. by replace (votesFor (s_Votes s) b + (0 + votesFor [] b))%nat with (votesFor (s_Votes s) b) by (unfold votesFor; cbn; lia).
Qed.

Lemma half_lt n v : 0 <= n -> (n / 2 <? v) = (n <? 2 * v).
Proof. intros Hn. pose proof (Z.div_mod n 2 ltac:(lia)). pose proof (Z.mod_pos_bound n 2 ltac:(lia)). destruct (Z.ltb_spec (n / 2) v), (Z.ltb_spec n (2 * v)); lia. Qed.

(** The recent signers after a tally: fewer when a signer left. *)
Definition recentsAfter (number : Z) (s s' : Snapshot) : Prop :=
  s_Recents s' = s_Recents s /\ (size (s_Signers s) <= size (s_Signers s'))%nat \/
  (size (s_Signers s) <= Datatypes.S (size (s_Signers s')))%nat /\ s_Recents s' = s_Recents (shiftRecents number (with_signers (s_Signers s') s)).

Lemma tallyUp_ok number a s : votes_ok (s_Signers s) s -> votes_signed s ->
  let s' := tallyUp number a s in let S := s_Signers s in let B := e_ballots (election s) in
  votes_ok (s_Signers s') s' /\ votes_signed s' /\ recentsAfter number s s' /\
  election s' = if Z.of_nat (size S) <? 2 * support a B then MkElection (toggled S a) (filter (fun p => p.2 <> a /\ p.1 ∈ toggled S a) B) else election s.
Proof.
  intros Hok Hsg. cbv zeta. unfold tallyUp. destruct Hok as [Hn Hs Ht]. cbn [e_ballots election]. rewrite support_votes by done.
  assert (Hd : default (MkTally false 0) (s_Tally s !! a) = match votesFor (s_Votes s) a with O => MkTally false 0 | n => MkTally (side (s_Signers s) a) (Z.of_nat n) end) by (rewrite Ht; unfold tallyOf; by destruct (votesFor _ _)).
  rewrite Hd. destruct (votesFor (s_Votes s) a) as [|n]; cbn [t_Votes t_Authorize]; rewrite half_lt by lia;
    [change (Z.of_nat 0) with 0; destruct (Z.ltb_spec (Z.of_nat (size (s_Signers s))) (2 * 0)); [lia|]|destruct (Z.ltb_spec (Z.of_nat (size (s_Signers s))) (2 * Z.of_nat (Datatypes.S n)))].
  - split; [done|]. split; [done|]. split; [by left|done].
  - destruct (passVote_ok number a s) as (HS & Hok' & Hsg' & Hv & Hr); [done..|]. split; [done|]. split; [done|]. split.
    + unfold recentsAfter. rewrite HS. unfold toggled in *. case_bool_decide as Ha.
      * right. split; [|by rewrite Hr]. rewrite size_difference by (by apply singleton_subseteq_l). rewrite size_singleton. lia.
      * left. split; [done|]. apply subseteq_size, union_subseteq_l.
    + unfold election. rewrite HS. f_equal. apply set_eq. intros p. rewrite elem_of_filter, !elem_of_list_to_set, !list_elem_of_fmap. setoid_rewrite Hv. rewrite HS. unfold ballot. naive_solver.
  - split; [done|]. split; [done|]. split; [by left|done].
Qed.

(** * Recent signers *)

(** After the oldest entry is shifted out, only later blocks are left. *)
Lemma shiftRecents_window number s : recents_ok (number - 1) s -> 0 <= number ->
  let s' := shiftRecents number s in
  (forall k a, s_Recents s' !! k = Some a -> 0 <= k /\ number - signerLimit s < k < number) /\
  (forall k a, s_Recents s' !! k = Some a <-> s_Recents s !! k = Some a /\ k <> number - signerLimit s).
Proof.
  intros [Hw Hd] Hn. cbv zeta. unfold shiftRecents.
  assert (Hin : forall k a, s_Recents (if signerLimit s <=? number then with_recents (delete (number - signerLimit s) (s_Recents s)) s else s) !! k = Some a <-> s_Recents s !! k = Some a /\ k <> number - signerLimit s).
  { intros k a. destruct (Z.leb_spec (signerLimit s) number); cbn [s_Recents with_recents]; [rewrite lookup_delete_Some; naive_solver|]. split; [|naive_solver]. intros Hl. split; [done|]. apply Hw in Hl. lia. }
  split; [|done]. intros k a [Hl Hne]%Hin. apply Hw in Hl. lia.
Qed.

Lemma signerLimit_mono s s' : (size (s_Signers s) <= size (s_Signers s'))%nat -> signerLimit s <= signerLimit s'.
Proof. intros H. unfold signerLimit. apply Z.add_le_mono_r, Z.div_le_mono; lia. Qed.
Lemma signerLimit_pred s s' : (size (s_Signers s) <= Datatypes.S (size (s_Signers s')))%nat -> signerLimit s <= signerLimit s' + 1.
Proof. intros H. unfold signerLimit. assert (Z.of_nat (size (s_Signers s)) / 2 <= (Z.of_nat (size (s_Signers s')) + 1 * 2) / 2) as Hle by (apply Z.div_le_mono; lia). rewrite Z.div_add in Hle by lia. lia. Qed.

Lemma recentsAfter_ok number s s' : recents_ok number s -> 0 <= number -> recentsAfter number s s' -> recents_ok number s'.
Proof.
  intros [Hw Hd] Hn [[Hr Hs]|[Hs Hr]].
  - apply signerLimit_mono in Hs. constructor; rewrite Hr; [|done]. intros k a Hl. apply Hw in Hl. lia.
  - apply signerLimit_pred in Hs. assert (Hin : forall k a, s_Recents s' !! k = Some a -> s_Recents s !! k = Some a /\ k <> number - signerLimit s').
    { intros k a. rewrite Hr. unfold shiftRecents. change (signerLimit (with_signers (s_Signers s') s)) with (signerLimit s'). cbn [s_Recents with_signers].
      destruct (Z.leb_spec (signerLimit s') number); cbn [s_Recents with_recents with_signers]; [rewrite lookup_delete_Some; naive_solver|]. intros Hl. split; [done|]. apply Hw in Hl. lia. }
    constructor; [|intros k k' a [? _]%Hin [? _]%Hin; eauto]. intros k a [Hl ?]%Hin. apply Hw in Hl. lia.
Qed.

(** ** Who may sign *)

Definition may_sign (number : Z) (signer : bytes) (s : Snapshot) : Prop :=
  signer ∈ s_Signers s /\ forall k, s_Recents s !! k = Some signer -> k = number - signerLimit s.

Lemma signed_recents number signer s : recents_ok (number - 1) s -> 0 <= number -> may_sign number signer s ->
  recents_ok number (with_recents (<[number := signer]> (s_Recents (shiftRecents number s))) s).
Proof.
  intros Hr Hn [_ Hm]. destruct (shiftRecents_window number s Hr Hn) as [Hw Hin]. destruct Hr as [_ Hd]. unfold signerLimit in *.
  assert (Hnew : forall k, s_Recents (shiftRecents number s) !! k <> Some signer) by (intros k [Hl Hne]%Hin; by apply Hm in Hl).
  constructor; unfold signerLimit; cbn [s_Recents s_Signers with_recents].
  - intros k a. rewrite lookup_insert_Some. assert (0 <= Z.of_nat (size (s_Signers s)) / 2) by (apply Z.div_pos; lia). intros [[<- <-]|[_ Hl]]; [lia|]. apply Hw in Hl. lia.
  - intros k k' a. rewrite !lookup_insert_Some. intros [[<- <-]|[Hne Hl]] [[<- ?]|[Hne' Hl']]; subst; try done; [by apply Hnew in Hl'|by apply Hnew in Hl|]. apply Hin in Hl as [Hl _]. apply Hin in Hl' as [Hl' _]. eauto.
Qed.

(** * A header is applied *)

Definition voteOf (header : Header) : option bool :=
  if bool_decide (h_Nonce header = nonceAuthVote) then Some true else if bool_decide (h_Nonce header = nonceDropVote) then Some false else None.

(** Removing an old ballot and casting the new one, on lists of votes. *)
Lemma cast_ballots signer number a auth S votes :
  let kept := filter (fun v => ballot v <> (signer, a)) votes in
  list_to_set (ballot <$> kept ++ if Bool.eqb auth (side S a) then [MkVote signer number a auth] else []) =@{gset (bytes * bytes)}
  let B := list_to_set (ballot <$> votes) ∖ {[(signer, a)]} in if Bool.eqb auth (side S a) then B ∪ {[(signer, a)]} else B.
Proof.
  cbv zeta. assert (Hk : list_to_set (ballot <$> filter (fun v => ballot v <> (signer, a)) votes) =@{gset (bytes * bytes)} list_to_set (ballot <$> votes) ∖ {[(signer, a)]}).
  { apply set_eq. intros p. rewrite elem_of_difference, elem_of_singleton, !elem_of_list_to_set, !list_elem_of_fmap. setoid_rewrite list_elem_of_filter. naive_solver. }
  rewrite fmap_app, list_to_set_app_L, Hk. destruct (Bool.eqb _ _); cbn [fmap list_fmap list_to_set]; [|by rewrite union_empty_r_L]. by rewrite union_empty_r_L.
Qed.

Section apply_header.
Context (sha : bytes -> bytes) (config : CliqueConfig) (Ecrecover : bytes -> bytes -> option bytes).
Context (epoch_set : Epoch config <> 0).

Definition epochBlock (number : Z) : bool := number mod Epoch config =? 0.

(** The snapshot when the votes are read: reset at an epoch, and the signer noted. *)
Definition opened (number : Z) (signer : bytes) (s : Snapshot) : Snapshot :=
  let s := if epochBlock number then with_tally ∅ (with_votes [] s) else s in
  with_recents (<[number := signer]> (s_Recents (shiftRecents number s))) s.

Lemma shift_with number s : shiftRecents number s = with_recents (s_Recents (shiftRecents number s)) s.
Proof. unfold shiftRecents. case_match; by destruct s. Qed.

Lemma opened_ok number signer s : snap_ok (number - 1) s -> 0 <= number -> may_sign number signer s ->
  let s' := opened number signer s in
  votes_ok (s_Signers s') s' /\ votes_signed s' /\ recents_ok number s' /\ s_Signers s' = s_Signers s /\
  e_ballots (election s') = if epochBlock number then ∅ else e_ballots (election s).
Proof.
  intros [Hv Hsg Hr] Hn Hm. cbv zeta. pose proof (signed_recents number signer s Hr Hn Hm) as Hr'. unfold opened. destruct (epochBlock number).
  - split_and!; try done; [by constructor; [apply NoDup_nil_2|apply Forall_nil_2|]|by apply Forall_nil_2|].
    replace (s_Recents (shiftRecents number (with_tally ∅ (with_votes [] s)))) with (s_Recents (shiftRecents number s)) by (unfold shiftRecents, signerLimit; cbn; by case_match).
    destruct Hr'. by constructor.
  - split_and!; try done. destruct Hv. by constructor.
Qed.

(** What is left of applying a header once its signer is allowed. *)
Definition counted (header : Header) (number : Z) (signer : bytes) (auth : bool) (s : Snapshot) : Snapshot :=
  let s := discardVote signer (h_Coinbase header) [] (s_Votes s) s in
  let (s, ok) := cast (h_Coinbase header) auth s in
  let s := if ok then with_votes (s_Votes s ++ [MkVote signer number (h_Coinbase header) auth]) s else s in
  tallyUp number (h_Coinbase header) s.

Lemma applyHeader_unfold header s : let number := u64 (h_Number header) in
  applyHeader sha config Ecrecover header s =
  let! signer := ecrecover sha Ecrecover header in
  if negb (bool_decide (signer ∈ s_Signers s)) then Err errUnauthorized
  else if bool_decide (map_Exists (fun _ recent => recent = signer) (s_Recents (shiftRecents number s))) then Err errUnauthorized
  else match voteOf header with Some auth => Ok (counted header number signer auth (opened number signer s)) | None => Err errInvalidVote end.
Proof using epoch_set.
  cbv zeta. unfold applyHeader. destruct (Z.eqb_spec (Epoch config) 0); [done|]. unfold opened, epochBlock, counted, voteOf. destruct (ecrecover sha Ecrecover header) as [signer| | |]; try done. cbn [outcome_bind].
  destruct (u64 (h_Number header) mod Epoch config =? 0).
  - rewrite (shift_with (u64 (h_Number header)) (with_tally ∅ (with_votes [] s))). cbn [s_Signers s_Recents with_recents with_votes with_tally].
    replace (s_Recents (shiftRecents (u64 (h_Number header)) (with_tally ∅ (with_votes [] s)))) with (s_Recents (shiftRecents (u64 (h_Number header)) s)) by (unfold shiftRecents, signerLimit; cbn; by case_match).
    repeat case_bool_decide; cbn [negb outcome_bind]; try done; by destruct (cast _ _ _).
  - rewrite (shift_with (u64 (h_Number header)) s). cbn [s_Signers s_Recents with_recents].
    repeat case_bool_decide; cbn [negb outcome_bind]; try done; by destruct (cast _ _ _).
Qed.

Lemma counted_ok header number signer auth s : votes_ok (s_Signers s) s -> votes_signed s -> recents_ok number s -> 0 <= number -> signer ∈ s_Signers s ->
  let s' := counted header number signer auth s in
  snap_ok number s' /\ election s' = elect false signer (h_Coinbase header) auth (election s).
Proof.
  intros Hv Hsg Hr Hn Hin. cbv zeta. unfold counted. set (a := h_Coinbase header).
  destruct (discardVote_ok (s_Signers s) signer a [] (s_Votes s) s Hv eq_refl ltac:(by apply Forall_nil_2)) as (Hv1 & Hl1 & Hs1 & Hr1). cbn [app] in Hl1. set (s1 := discardVote signer a [] (s_Votes s) s) in *.
  rewrite <- Hs1 in Hv1. pose proof (cast_ok signer number a auth s1 Hv1) as Hc. destruct (cast a auth s1) as [s2 ok]. destruct Hc as (Hv3 & [Hs3 Hr3] & Hl3).
  { rewrite Hl1, list_elem_of_fmap. intros (v & Hb & [Hne _]%list_elem_of_filter). congruence. }
  set (s3 := if ok then _ else _) in *. rewrite <- Hs3 in Hv3.
  assert (Hsg3 : votes_signed s3).
  { unfold votes_signed in *. rewrite Hs3, Hs1, Hl3, Hl1. apply Forall_app. split; [rewrite Forall_forall in *; intros v [_ Hvi]%list_elem_of_filter; auto|]. case_match; [by apply Forall_singleton|by apply Forall_nil_2]. }
  assert (Hr4 : recents_ok number s3) by (destruct Hr as [Hw Hd]; constructor; unfold signerLimit; rewrite Hr3, Hr1, ?Hs3, ?Hs1; done).
  destruct (tallyUp_ok number a s3 Hv3 Hsg3) as (Hv5 & Hsg5 & Hr5 & He). split; [constructor; [done..|by apply (recentsAfter_ok number s3)]|].
  rewrite He. unfold elect, election. cbn [e_signers e_ballots]. rewrite Hs3, Hs1, Hl3, Hs1, Hl1, cast_ballots. done.
Qed.

Lemma applyHeader_ok header s signer auth : let number := u64 (h_Number header) in
  snap_ok (number - 1) s -> ecrecover sha Ecrecover header = Ok signer -> may_sign number signer s -> voteOf header = Some auth ->
  exists s', applyHeader sha config Ecrecover header s = Ok s' /\ snap_ok number s' /\ election s' = elect (epochBlock number) signer (h_Coinbase header) auth (election s).
Proof using epoch_set.
  cbv zeta. intros Hok Hs Hm Ha. rewrite applyHeader_unfold, Hs, Ha. cbn [outcome_bind]. set (number := u64 (h_Number header)) in *. assert (Hn : 0 <= number) by apply u64_range.
  destruct (opened_ok number signer s Hok Hn Hm) as (Hv & Hsg & Hr & HS & Hb). destruct Hm as [Hin Hm]. rewrite bool_decide_eq_true_2 by done. cbn [negb].
  destruct (shiftRecents_window number s (sn_recents _ _ Hok) Hn) as [_ Hw]. rewrite bool_decide_eq_false_2 by (intros (k & r & [Hl Hne]%Hw & ->); by apply Hm in Hl).
  destruct (counted_ok header number signer auth (opened number signer s)) as [Hok' He]; [done..|by rewrite HS|]. eexists. split; [done|]. split; [done|].
  rewrite He. unfold elect. rewrite Hb. cbn [e_signers election]. rewrite HS. by destruct (epochBlock number).
Qed.

(** Only an allowed signer's header is applied. *)
Lemma applyHeader_inv header s s' : let number := u64 (h_Number header) in
  snap_ok (number - 1) s -> applyHeader sha config Ecrecover header s = Ok s' ->
  exists signer auth, ecrecover sha Ecrecover header = Ok signer /\ may_sign number signer s /\ voteOf header = Some auth.
Proof using epoch_set.
  cbv zeta. intros Hok. rewrite applyHeader_unfold. set (number := u64 (h_Number header)) in *. assert (Hn : 0 <= number) by apply u64_range.
  destruct (shiftRecents_window number s (sn_recents _ _ Hok) Hn) as [_ Hw]. destruct (ecrecover sha Ecrecover header) as [signer| | |]; try done. cbn [outcome_bind].
  case_bool_decide as Hin; [|done]. cbn [negb]. case_bool_decide as Hm; [done|]. destruct (voteOf header) as [auth|]; [|done]. intros _. exists signer, auth. split; [done|]. split; [|done]. split; [done|].
  intros k Hl. destruct (decide (k = number - signerLimit s)) as [|Hne]; [done|]. exfalso. apply Hm. exists k, signer. split; [by apply Hw|done].
Qed.
End apply_header.

(** ** Nothing else sets the number *)

Lemma uncast_Number a auth s : s_Number (uncast a auth s).1 = s_Number s.
Proof. unfold uncast. repeat case_match; done. Qed.
Lemma cast_Number a auth s : s_Number (cast a auth s).1 = s_Number s.
Proof. unfold cast. repeat case_match; done. Qed.
Lemma shiftRecents_Number n s : s_Number (shiftRecents n s) = s_Number s.
Proof. unfold shiftRecents. case_match; done. Qed.
Lemma discardVote_Number x a pre l s : s_Number (discardVote x a pre l s) = s_Number s.
Proof. revert pre. induction l; intros; cbn [discardVote]; [done|]. case_match; [apply uncast_Number|auto]. Qed.
Lemma discardSigner_Number x pre l s : s_Number (discardSigner x pre l s) = s_Number s.
Proof. revert pre s. induction l as [|v l IH]; intros; cbn [discardSigner]; [done|]. case_match; [rewrite IH; apply uncast_Number|auto]. Qed.
Lemma discardAddress_Number x pre l s : s_Number (discardAddress x pre l s) = s_Number s.
Proof. revert pre s. induction l as [|v l IH]; intros; cbn [discardAddress]; [done|]. case_match; [by rewrite IH|auto]. Qed.

Create HintDb number.
#[local] Hint Rewrite uncast_Number cast_Number shiftRecents_Number discardVote_Number discardSigner_Number discardAddress_Number : number.

Lemma tallyUp_Number n a s : s_Number (tallyUp n a s) = s_Number s.
Proof. unfold tallyUp, passVote. repeat case_match; cbn [s_Number with_tally with_signers]; autorewrite with number; done. Qed.

Lemma counted_Number header n signer auth s : s_Number (counted header n signer auth s) = s_Number s.
Proof.
  unfold counted. pose proof (cast_Number (h_Coinbase header) auth (discardVote signer (h_Coinbase header) [] (s_Votes s) s)) as H. destruct (cast _ _ _) as [s2 ok]. cbn [fst] in H.
  rewrite tallyUp_Number. autorewrite with number in H. by destruct ok.
Qed.

(** * Chains of headers *)

Section apply_chain.
Context (sha : bytes -> bytes) (config : CliqueConfig) (Ecrecover : bytes -> bytes -> option bytes).
Context (epoch_set : Epoch config <> 0).

(** The election held by a chain of headers. *)
Fixpoint recount (headers : list Header) (E : Election) : option Election :=
  match headers with
  | [] => Some E
  | h :: headers =>
      match ecrecover sha Ecrecover h, voteOf h with
      | Ok signer, Some auth => recount headers (elect (epochBlock config (u64 (h_Number h))) signer (h_Coinbase h) auth E)
      | _, _ => None
      end
  end.

Lemma applyHeader_Number header s s' : applyHeader sha config Ecrecover header s = Ok s' -> s_Number s' = s_Number s.
Proof using epoch_set.
  rewrite applyHeader_unfold by done. intros (signer & _ & H)%outcome_bind_ok. repeat case_bool_decide; try done. destruct (voteOf header); [|done]. injection H as <-.
  rewrite counted_Number. unfold opened. by case_match.
Qed.

(** The block number after one below the largest. *)
Lemma next_u64 n : 0 <= n -> n + 1 < 2 ^ 64 -> u64 (n + 1) = n + 1.
Proof. intros. apply u64_small. unfold is_u64. lia. Qed.

Lemma applyHeaders_ok headers s s' n : snap_ok n s -> 0 <= n -> n + zlen headers < 2 ^ 64 -> contiguous headers = true ->
  (forall h, head headers = Some h -> u64 (h_Number h) = n + 1) -> applyHeaders sha config Ecrecover headers s = Ok s' ->
  snap_ok (n + zlen headers) s' /\ recount headers (election s) = Some (election s') /\ s_Number s' = s_Number s.
Proof using epoch_set.
  revert s n. induction headers as [|h headers IH]; intros s n Hok Hn Hlt Hc Hh; cbn [applyHeaders recount].
  - intros [= <-]. by rewrite Z.add_0_r.
  - intros (s1 & H1 & H2)%outcome_bind_ok. specialize (Hh h eq_refl). rewrite zlen_cons in *. replace n with (u64 (h_Number h) - 1) in Hok by lia.
    destruct (applyHeader_inv sha config Ecrecover epoch_set h s s1 Hok H1) as (signer & auth & Hs & Hm & Ha). destruct (applyHeader_ok sha config Ecrecover epoch_set h s signer auth Hok Hs Hm Ha) as (s1' & H1' & Hok1 & He).
    rewrite H1 in H1'. injection H1' as <-. rewrite Hs, Ha, <- He. rewrite <- (applyHeader_Number h s s1) by done. rewrite Hh in Hok1.
    replace (n + (1 + zlen headers)) with (n + 1 + zlen headers) by lia. apply IH; try done; try lia.
    + destruct headers; [done|]. cbn in Hc. by apply andb_true_iff in Hc as [_ Hc].
    + intros h' Hh'. destruct headers as [|h2 headers]; [done|]. injection Hh' as ->. cbn in Hc. apply andb_true_iff in Hc as [Hc _]. apply Z.eqb_eq in Hc. rewrite Hc, Hh. apply next_u64; [lia|]. rewrite zlen_cons in Hlt. unfold zlen in Hlt. lia.
Qed.

Lemma apply_ok headers s s' : snap_ok (s_Number s) s -> 0 <= s_Number s -> s_Number s + zlen headers < 2 ^ 64 -> apply sha config Ecrecover headers s = Ok s' ->
  s_Number s' = s_Number s + zlen headers /\ snap_ok (s_Number s') s' /\ recount headers (election s) = Some (election s').
Proof using epoch_set.
  intros Hok Hn Hlt. unfold apply. destruct headers as [|h tl]; [intros [= <-]; by rewrite Z.add_0_r|]. set (headers := h :: tl) in *.
  destruct (contiguous headers) eqn:Hc; [|done]. cbn [negb]. destruct (Z.eqb_spec (u64 (h_Number h)) (u64 (s_Number s + 1))) as [Hh|]; [|done]. cbn [negb]. intros (s1 & H1 & [= <-])%outcome_bind_ok.
  assert (Hl : 1 <= zlen headers) by (unfold headers; rewrite zlen_cons; unfold zlen; lia). rewrite next_u64 in Hh by lia.
  destruct (applyHeaders_ok headers s s1 (s_Number s) Hok Hn Hlt Hc) as (Hok1 & He & Hnum); [by intros ? [= <-]|done|].
  cbn [s_Number]. rewrite Hnum, u64_small by (unfold is_u64; lia). split; [done|]. split; [|exact He]. destruct Hok1 as [[] ? []]. constructor; [by constructor|done|by constructor].
Qed.

(** C30. Applying headers to a snapshot counts their votes: the list of votes and
    the cached tally stay those of an election in which each signer has at most
    one ballot on an account, ballots are dropped at an epoch and when their
    voter is voted out, and an account changes sides exactly when more than half
    of the signers ask for it.  The snapshot stays well formed. *)
Theorem votes_counted headers s s' :
  snap_ok (s_Number s) s -> 0 <= s_Number s -> s_Number s + zlen headers < 2 ^ 64 -> apply sha config Ecrecover headers s = Ok s' ->
  s_Number s' = s_Number s + zlen headers /\ snap_ok (s_Number s') s' /\ recount headers (election s) = Some (election s').
Proof using epoch_set. apply apply_ok. Qed.

End apply_chain.

(** ** Someone can always go on *)

Lemma size_list_le (l : list bytes) : (size (list_to_set l : gset bytes) <= length l)%nat.
Proof. induction l as [|x l IH]; cbn; [done|]. pose proof (size_union_alt {[x]} (list_to_set l : gset bytes)) as Hu. rewrite Hu, size_singleton. pose proof (subseteq_size (list_to_set l ∖ {[x]}) (list_to_set l : gset bytes) ltac:(set_solver)). lia. Qed.

Lemma recents_size number s : recents_ok (number - 1) s -> 0 <= number -> Z.of_nat (size (map_img (s_Recents (shiftRecents number s)) : gset bytes)) <= Z.of_nat (size (s_Signers s)) / 2.
Proof.
  intros Hr Hn. destruct (shiftRecents_window number s Hr Hn) as [Hw _]. set (m := s_Recents (shiftRecents number s)) in *. unfold signerLimit in Hw. set (h := Z.of_nat (size (s_Signers s)) / 2) in *.
  assert (Hh : 0 <= h) by (apply Z.div_pos; lia).
  assert (Hi : map_img m ⊆@{gset bytes} list_to_set ((fun k => default [] (m !! k)) <$> seqZ (number - h) h)).
  { intros a (k & Hk)%elem_of_map_img. apply elem_of_list_to_set, list_elem_of_fmap. exists k. rewrite Hk. split; [done|]. apply elem_of_seqZ. apply Hw in Hk. lia. }
  apply subseteq_size in Hi. pose proof (size_list_le ((fun k => default [] (m !! k)) <$> seqZ (number - h) h)) as Hs. rewrite length_fmap, length_seqZ in Hs. lia.
Qed.

Lemma half_small (n m : nat) : n <> 0%nat -> (n <= m)%nat -> Z.of_nat m <= Z.of_nat n / 2 -> False.
Proof. intros Hz Hnm Hm. assert (Z.of_nat n / 2 < Z.of_nat n) by (apply Z.div_lt_upper_bound; lia). lia. Qed.

Lemma someone_may_sign number s : recents_ok (number - 1) s -> 0 <= number -> s_Signers s <> ∅ -> exists signer, may_sign number signer s.
Proof.
  intros Hr Hn Hne. pose proof (recents_size number s Hr Hn) as Hs. destruct (shiftRecents_window number s Hr Hn) as [_ Hin]. set (img := map_img (s_Recents (shiftRecents number s)) : gset bytes) in *.
  destruct (decide (s_Signers s ⊆ img)) as [Hsub|Hsub].
  - apply subseteq_size in Hsub. assert (size (s_Signers s) <> 0%nat) by (intros ?%size_empty_inv; set_solver). by destruct (half_small (size (s_Signers s)) (size img)).
  - assert (exists x, x ∈ s_Signers s ∖ img) as [x [Hx Hni]%elem_of_difference] by (apply set_choose_L; by intros ?%empty_difference_subseteq_L).
    exists x. split; [done|]. intros k Hk. destruct (decide (k = number - signerLimit s)); [done|]. exfalso. apply Hni, elem_of_map_img. exists k. by apply Hin.
Qed.
