(* ===== verification/CliqueTurns.v ===== *)
(** Turns of the signers ([signers] and [inturn] of
    [src/consensus/clique/snapshot.go]) and the check of a seal
    ([verifySeal] of [clique.go]) against what applying its header accepts. *)

From stdpp Require Import base numbers list gmap sorting.
From S2P Require Import Prelude.
From S2P Require Import Params.
From S2P Require Import VmState.
From S2P Require Import Sample.
From S2P Require Import Types.
From S2P Require Import Clique.
From S2P Require Import CliqueVotes.
Local Open Scope Z_scope.
Local Open Scope go_scope.

(** * The order of addresses *)

Definition bytesLe (a b : bytes) : Prop := bytesGt a b = false.

Lemma bytesGt_irrefl a : bytesGt a a = false.
Proof. induction a as [|x a IH]; [done|]. cbn. by rewrite Z.ltb_irrefl. Qed.

Lemma bytesLe_total a b : bytesGt a b = true -> bytesLe b a.
Proof.
  unfold bytesLe. revert b. induction a as [|x a IH]; intros [|y b]; cbn; try done. destruct (Z.ltb_spec y x), (Z.ltb_spec x y); try done; try lia. apply IH.
Qed.

#[export] Instance bytesLe_antisymm : AntiSymm (=) bytesLe.
Proof.
  intros a. unfold bytesLe. induction a as [|x a IH]; intros [|y b]; cbn; try done. destruct (Z.ltb_spec y x), (Z.ltb_spec x y); try done. intros H1 H2. rewrite (IH b) by done. f_equal. lia.
Qed.

#[export] Instance bytesLe_trans : Transitive bytesLe.
Proof.
  intros a. unfold bytesLe. induction a as [|x a IH]; intros [|y b] [|z c]; cbn; try done.
  destruct (Z.ltb_spec y x), (Z.ltb_spec x y), (Z.ltb_spec z y), (Z.ltb_spec y z), (Z.ltb_spec z x), (Z.ltb_spec x z); try done; try lia. apply IH.
Qed.

(** ** Sorting *)

Lemma bubble_ok x l : let (m, l') := bubble x l in m :: l' ≡ₚ x :: l /\ Forall (bytesLe m) l' /\ bytesLe m x.
Proof.
  revert x. induction l as [|y l IH]; intros x; cbn [bubble]; [split; [done|]; split; [apply Forall_nil_2|apply bytesGt_irrefl]|].
  destruct (bytesGt x y) eqn:E.
  - specialize (IH y). destruct (bubble y l) as [m l']. destruct IH as (Hp & Hf & Hm). apply bytesLe_total in E. assert (bytesLe m x) by by etrans. split; [|split; [by apply Forall_cons|done]].
    by rewrite Permutation_swap, Hp.
  - specialize (IH x). destruct (bubble x l) as [m l']. destruct IH as (Hp & Hf & Hm). split; [|split; [apply Forall_cons; split; [by etrans|done]|done]].
    rewrite Permutation_swap, Hp. apply Permutation_swap.
Qed.

Lemma sortSigners_ok n l : length l = n -> sortSigners n l ≡ₚ l /\ StronglySorted bytesLe (sortSigners n l).
Proof.
  revert l. induction n as [|n IH]; intros [|x l] Hl; try done; cbn [sortSigners]; [split; [done|constructor]..|]. pose proof (bubble_ok x l) as Hb. destruct (bubble x l) as [m l']. destruct Hb as (Hp & Hf & _).
  destruct (IH l') as [Hp' Hs]; [apply Permutation_length in Hp; cbn in *; lia|]. split; [by rewrite Hp'|]. constructor; [done|]. by rewrite Hp'.
Qed.

Lemma signers_perm s : signers s ≡ₚ elements (s_Signers s).
Proof. apply (sortSigners_ok _ _ eq_refl). Qed.
Lemma signers_nodup s : NoDup (signers s).
Proof. rewrite signers_perm. apply NoDup_elements. Qed.
Lemma signers_elem s a : a ∈ signers s <-> a ∈ s_Signers s.
Proof. rewrite signers_perm. apply elem_of_elements. Qed.
Lemma signers_length s : length (signers s) = size (s_Signers s).
Proof. by rewrite signers_perm. Qed.

(** In whatever order the set of signers is walked, the list made of it is
    the same: all signers in ascending order. *)
Theorem signers_sorted s l : l ≡ₚ elements (s_Signers s) ->
  sortSigners (length l) l = signers s /\ StronglySorted bytesLe (signers s) /\ NoDup (signers s) /\ forall a, a ∈ signers s <-> a ∈ s_Signers s.
Proof.
  intros Hl. destruct (sortSigners_ok _ l eq_refl) as [Hp Hs]. destruct (sortSigners_ok _ (elements (s_Signers s)) eq_refl) as [Hp' Hs'].
  split; [|split; [done|split; [apply signers_nodup|apply signers_elem]]]. apply (StronglySorted_unique bytesLe); [done..|]. rewrite Hp, Hl. symmetry. exact Hp'.
Qed.

(** * Turns *)

Lemma offsetOf_lookup x l i : l !! i = Some x -> NoDup l -> offsetOf x l = Z.of_nat i.
Proof.
  revert i. induction l as [|y l IH]; intros i Hi Hn; [done|]. apply NoDup_cons in Hn as [Hy Hn]. cbn [offsetOf]. destruct i as [|i]; cbn in Hi.
  - injection Hi as ->. by rewrite bool_decide_eq_true_2.
  - rewrite bool_decide_eq_false_2 by (intros ->; apply Hy; by eapply list_elem_of_lookup_2). rewrite (IH i) by done. lia.
Qed.

Lemma offsetOf_inv x l : offsetOf x l < zlen l -> l !! Z.to_nat (offsetOf x l) = Some x.
Proof.
  assert (Hp : forall l, 0 <= offsetOf x l) by (induction l0 as [|y l' IH]; cbn; [lia|case_bool_decide; lia]).
  induction l as [|y l IH]; cbn [offsetOf]; [unfold zlen; cbn; lia|]. rewrite zlen_cons. case_bool_decide as E; [by subst|]. intros Hl. specialize (Hp l).
  replace (Z.to_nat (1 + offsetOf x l)) with (S (Z.to_nat (offsetOf x l))) by lia. cbn. apply IH. lia.
Qed.

Lemma inturn_true s number a : s_Signers s <> ∅ -> inturn s number a = Ok true <-> offsetOf a (signers s) = number mod zlen (signers s).
Proof.
  intros Hs. unfold inturn. destruct (Z.eqb_spec (zlen (signers s)) 0) as [Hz|Hz].
  - exfalso. apply Hs. unfold zlen in Hz. rewrite signers_length in Hz. apply leibniz_equiv, size_empty_inv. lia.
  - split; [intros [= ?%Z.eqb_eq]; done|]. intros ->. by rewrite Z.eqb_refl.
Qed.

Lemma signers_pos s : s_Signers s <> ∅ -> 0 < zlen (signers s).
Proof. intros Hs. unfold zlen. rewrite signers_length. destruct (size (s_Signers s)) eqn:E; [|lia]. exfalso. by apply Hs, leibniz_equiv, size_empty_inv. Qed.

(** At every block exactly one signer is in turn, and every signer is in turn
    at one of any as many consecutive blocks as there are signers. *)
Theorem turns_rotate s number : s_Signers s <> ∅ -> 0 <= number ->
  (exists a, a ∈ s_Signers s /\ forall b, inturn s number b = Ok true <-> b = a) /\
  (forall a, a ∈ s_Signers s -> exists k, 0 <= k < Z.of_nat (size (s_Signers s)) /\ inturn s (number + k) a = Ok true).
Proof.
  intros Hs Hn. pose proof (signers_pos s Hs) as Hp. split.
  - pose proof (Z.mod_pos_bound number _ Hp) as Hb. destruct (lookup_lt_is_Some_2 (signers s) (Z.to_nat (number mod zlen (signers s)))) as [a Ha]; [unfold zlen in *; lia|].
    exists a. split; [apply signers_elem; by eapply list_elem_of_lookup_2|]. intros b. rewrite inturn_true by done. split.
    + intros Ho. pose proof (offsetOf_inv b (signers s) ltac:(lia)) as Hb'. rewrite Ho in Hb'. congruence.
    + intros ->. rewrite (offsetOf_lookup _ _ _ Ha) by apply signers_nodup. lia.
  - intros a [i Hi]%signers_elem%list_elem_of_lookup_1. exists ((Z.of_nat i - number) mod zlen (signers s)). rewrite <- signers_length. split; [by apply Z.mod_pos_bound|].
    rewrite inturn_true, (offsetOf_lookup _ _ _ Hi) by (done || apply signers_nodup). rewrite Zplus_mod_idemp_r. replace (number + (Z.of_nat i - number)) with (Z.of_nat i) by lia.
    symmetry. apply Z.mod_small. apply lookup_lt_Some in Hi. unfold zlen. lia.
Qed.

(** * Seals *)

Section seals.
Context (sha : bytes -> bytes) (config : CliqueConfig) (Ecrecover : bytes -> bytes -> option bytes).
Context (epoch_set : Epoch config <> 0).

(** The difficulty says whether the signer was in turn. *)
Definition difficulty_ok (s : Snapshot) (number : Z) (signer : bytes) (d : Z) : Prop := exists t, inturn s number signer = Ok t /\ d = if t then 2 else 1.

(** What [verifySeal] checks of the recent signers. *)
Definition not_recent (s : Snapshot) (number : Z) (signer : bytes) : Prop :=
  forall seen, s_Recents s !! seen = Some signer -> seen <= u64 (number - signerLimit s).

Lemma checkSeal_ok s header signer : let number := u64 (h_Number header) in ecrecover sha Ecrecover header = Ok signer ->
  checkSeal sha Ecrecover s header = Ok tt <-> signer ∈ s_Signers s /\ not_recent s number signer /\ difficulty_ok s number signer (h_Difficulty header).
Proof using Type.
  clear epoch_set config. cbv zeta. intros Hs. unfold checkSeal. rewrite Hs. cbn [outcome_bind]. set (number := u64 (h_Number header)). case_bool_decide as Hin; cbn [negb]; [|naive_solver].
  assert (Hr : map_Exists (fun seen recent => recent = signer /\ u64 (number - signerLimit s) < seen) (s_Recents s) <-> ~ not_recent s number signer).
  { split; [intros (k & a & Hl & -> & Hlt) Hn; apply Hn in Hl; lia|]. intros Hn. destruct (decide (map_Exists (fun seen recent => recent = signer /\ u64 (number - signerLimit s) < seen) (s_Recents s))) as [|Hne]; [done|].
    exfalso. apply Hn. intros k Hk. destruct (Z.le_gt_cases k (u64 (number - signerLimit s))); [done|]. exfalso. apply Hne. exists k, signer. split; [done|]. split; [done|lia]. }
  case_bool_decide as Hm; [naive_solver|]. assert (Hnr : not_recent s number signer). { intros k Hk. destruct (Z.le_gt_cases k (u64 (number - signerLimit s))); [done|]. exfalso. apply Hm. exists k, signer. split; [done|]. split; [done|lia]. }
  unfold difficulty_ok. unfold inturn at 1. unfold inturn. destruct (_ =? 0); cbn [outcome_bind]; [naive_solver|]. unfold diffInTurn, diffNoTurn.
  destruct (number mod zlen (signers s) =? offsetOf signer (signers s)); cbn [andb negb]; [destruct (Z.eqb_spec (h_Difficulty header) 2)|destruct (Z.eqb_spec (h_Difficulty header) 1)]; cbn [negb]; naive_solver.
Qed.

(** Once the chain is longer than the limit, the two ways to tell a recent signer agree. *)
Lemma not_recent_may_sign s number signer : recents_ok (number - 1) s -> is_u64 number -> signerLimit s <= number ->
  signer ∈ s_Signers s -> not_recent s number signer <-> may_sign number signer s.
Proof using Type.
  clear epoch_set config. intros [Hw _] Hn Hl Hin. assert (1 <= signerLimit s) by (unfold signerLimit; pose proof (Z.div_pos (Z.of_nat (size (s_Signers s))) 2 ltac:(lia) ltac:(lia)); lia).
  unfold not_recent, may_sign. rewrite u64_small by (unfold is_u64 in *; lia). split.
  - intros Hr. split; [done|]. intros k Hk. pose proof (Hr k Hk). apply Hw in Hk. lia.
  - intros [_ Hr] k Hk. apply Hr in Hk. lia.
Qed.

(** From the block on whose number reaches the limit of the signers, a seal is
    accepted exactly when the next snapshot can be made of its header: the rule
    of [verifySeal] about recent signers is that of [apply]. *)
Theorem seal_agrees s header signer auth : let number := u64 (h_Number header) in
  snap_ok (number - 1) s -> signerLimit s <= number -> ecrecover sha Ecrecover header = Ok signer -> voteOf header = Some auth -> difficulty_ok s number signer (h_Difficulty header) ->
  checkSeal sha Ecrecover s header = Ok tt <-> exists s', applyHeader sha config Ecrecover header s = Ok s'.
Proof using epoch_set.
  cbv zeta. intros Hok Hl Hs Ha Hd. rewrite (checkSeal_ok s header signer Hs). pose proof (fun H => not_recent_may_sign s _ signer (sn_recents _ _ Hok) (u64_range _) Hl H) as Hm. split.
  - intros (Hin & Hr & _). destruct (applyHeader_ok sha config Ecrecover epoch_set header s signer auth Hok Hs) as (s' & ? & _); [by apply Hm|done|]. eauto.
  - intros (s' & Hs'). destruct (applyHeader_inv sha config Ecrecover epoch_set header s s' Hok Hs') as (signer' & auth' & Hs2 & Hms & _). rewrite Hs in Hs2. injection Hs2 as <-.
    pose proof (proj1 Hms) as Hin. split; [done|]. split; [by apply Hm|done].
Qed.

(** The chain never gets stuck: as long as there are signers, one of them is
    allowed to sign the next block, and a header of theirs with the difficulty
    of its turn passes the check of its seal and is applied. *)
Theorem someone_can_seal s : snap_ok (s_Number s) s -> 0 <= s_Number s -> s_Number s + 1 < 2 ^ 64 -> s_Signers s <> ∅ ->
  exists signer, signer ∈ s_Signers s /\ forall header auth, h_Number header = s_Number s + 1 -> ecrecover sha Ecrecover header = Ok signer -> voteOf header = Some auth ->
    difficulty_ok s (s_Number s + 1) signer (h_Difficulty header) ->
    checkSeal sha Ecrecover s header = Ok tt /\ exists s', apply sha config Ecrecover [header] s = Ok s'.
Proof using epoch_set.
  intros Hok Hn Hlt Hs. assert (Hr : recents_ok (s_Number s + 1 - 1) s) by (rewrite Z.add_simpl_r; apply Hok). destruct (someone_may_sign (s_Number s + 1) s Hr ltac:(lia) Hs) as [signer Hm].
  exists signer. split; [apply Hm|]. intros header auth Hh Hsig Ha Hd. assert (Hu : u64 (h_Number header) = s_Number s + 1) by (rewrite Hh; apply u64_small; unfold is_u64; lia). split.
  - apply (checkSeal_ok s header signer Hsig). rewrite Hu. split; [apply Hm|]. split; [|done]. intros k Hk. pose proof (proj2 Hm k Hk). apply Hr in Hk. rewrite u64_small by (unfold is_u64; lia). lia.
  - unfold apply. cbn [contiguous negb]. rewrite Hu, u64_small, Z.eqb_refl by (unfold is_u64; lia). cbn [negb applyHeaders].
    destruct (applyHeader_ok sha config Ecrecover epoch_set header s signer auth) as (s' & Hs' & _); [by rewrite Hu, Z.add_simpl_r|done|by rewrite Hu|done|]. rewrite Hs'. eauto.
Qed.
End seals.

(** * Four signers *)

Module CliqueSample.

Definition addr (i : Z) : bytes := replicate 20 i.
(** A hash and a recovery under which the last bytes of a seal name the signer. *)
Definition sampleSha (b : bytes) : bytes := replicate 12 0 ++ take 20 (b ++ replicate 20 0).
Definition sampleEcrecover (hash sig : bytes) : option bytes := Some (4 :: drop 45 sig).
Definition cfg : CliqueConfig := MkCliqueConfig 15 30000.

Definition signed (number difficulty : Z) (signer coinbase nonce : bytes) : Header :=
  MkHeader [] (EmptyUncleHash sampleSha) coinbase [] [] [] [] difficulty number 1000000 0 (number * 15) (replicate 77 0 ++ signer) (replicate 32 0) nonce.

Definition start : Snapshot := newSnapshot 0 [] [addr 3; addr 1; addr 4; addr 2].
Definition header1 : Header := signed 1 1 (addr 1) (addr 9) nonceAuthVote.

Lemma newSnapshot_ok number hash l : snap_ok number (newSnapshot number hash l).
Proof. constructor; [constructor; [apply NoDup_nil_2|apply Forall_nil_2|done]|apply Forall_nil_2|constructor; cbn; intros *; by rewrite lookup_empty]. Qed.

Lemma cfg_epoch : Epoch cfg <> 0.
Proof. done. Qed.

Definition okOr {E A} (d : A) (m : outcome E A) : A := match m with Ok a => a | _ => d end.
Definition after1 : Snapshot := okOr start (apply sampleSha cfg sampleEcrecover [header1] start).
Lemma after1_ok : apply sampleSha cfg sampleEcrecover [header1] start = Ok after1.
Proof. vm_compute. reflexivity. Qed.

Lemma votes_counted_witness : recount sampleSha cfg sampleEcrecover [header1] (election start) = Some (election after1).
Proof. apply (votes_counted sampleSha cfg sampleEcrecover cfg_epoch [header1] start after1 (newSnapshot_ok _ _ _) (Z.le_refl 0) eq_refl after1_ok). Defined.

Lemma signers_sorted_witness : signers start = [addr 1; addr 2; addr 3; addr 4].
Proof. destruct (signers_sorted start (elements (s_Signers start)) (Permutation_refl _)) as [<- _]. vm_compute. reflexivity. Defined.

Lemma start_signers : s_Signers start <> ∅.
Proof. intros H. apply (f_equal elements) in H. vm_compute in H. discriminate H. Qed.

Lemma turns_rotate_witness : exists a, a ∈ s_Signers start /\ forall b, inturn start 7 b = Ok true <-> b = a.
Proof. destruct (turns_rotate start 7 start_signers) as [H _]; [lia|]. exact H. Defined.

Lemma someone_can_seal_witness : exists signer, signer ∈ s_Signers start /\ forall header auth, h_Number header = 1 -> ecrecover sampleSha sampleEcrecover header = Ok signer -> voteOf header = Some auth ->
  difficulty_ok start 1 signer (h_Difficulty header) -> checkSeal sampleSha sampleEcrecover start header = Ok tt /\ exists s', apply sampleSha cfg sampleEcrecover [header] start = Ok s'.
Proof. exact (someone_can_seal sampleSha cfg sampleEcrecover cfg_epoch start (newSnapshot_ok _ _ _) (Z.le_refl 0) eq_refl start_signers). Defined.

(** Two signers: the limit of two is reached at the second block. *)
Definition pair : Snapshot := newSnapshot 1 [] [addr 1; addr 2].
Definition header2 : Header := signed 2 2 (addr 1) (addr 9) nonceAuthVote.
Lemma pair_limit : signerLimit pair <= u64 (h_Number header2).
Proof. vm_compute. congruence. Qed.
Lemma header2_signer : ecrecover sampleSha sampleEcrecover header2 = Ok (addr 1).
Proof. vm_compute. reflexivity. Qed.
Lemma header2_turn : difficulty_ok pair (u64 (h_Number header2)) (addr 1) (h_Difficulty header2).
Proof. exists true. split; vm_compute; reflexivity. Qed.
Lemma header2_vote : voteOf header2 = Some true.
Proof. vm_compute. reflexivity. Qed.
Lemma header2_seal : checkSeal sampleSha sampleEcrecover pair header2 = Ok tt.
Proof. vm_compute. reflexivity. Qed.
Lemma seal_agrees_witness : exists s', applyHeader sampleSha cfg sampleEcrecover header2 pair = Ok s'.
Proof. apply (seal_agrees sampleSha cfg sampleEcrecover cfg_epoch pair header2 (addr 1) true (newSnapshot_ok 1 [] _) pair_limit header2_signer header2_vote header2_turn). exact header2_seal. Defined.

(** ** Two things that go wrong *)

(** Below the limit the difference in [verifySeal] wraps around, and the signer of
    the first block may seal the second; no snapshot can be made of its header. *)
Lemma early_seal_accepted : let header := signed 2 1 (addr 1) (addr 9) nonceAuthVote in
  u64 (h_Number header) < signerLimit after1 /\ checkSeal sampleSha sampleEcrecover after1 header = Ok tt /\ applyHeader sampleSha cfg sampleEcrecover header after1 = Err errUnauthorized.
Proof. split; [|split]; vm_compute; reflexivity. Qed.

(** A last signer can vote itself out; computing a difficulty then divides by zero. *)
Lemma last_signer_leaves : let lonely := newSnapshot 0 [] [addr 1] in
  match apply sampleSha cfg sampleEcrecover [signed 1 2 (addr 1) (addr 1) nonceDropVote] lonely with
  | Ok s => elements (s_Signers s) = [] /\ CalcDifficulty s (addr 1) = Panic
  | _ => False
  end.
Proof. vm_compute. split; reflexivity. Qed.

End CliqueSample.
