(* ===== verification/CliqueSnapshots.v ===== *)
(** Retrieval of snapshots ([snapshot] of [src/consensus/clique/clique.go]):
    whatever the caches and the checkpoint store hold, the snapshot found is the
    one that the headers of the chain give, applied one by one from genesis. *)

From stdpp Require Import base numbers list gmap.
From S2P Require Import Prelude.
From S2P Require Import Params.
From S2P Require Import VmState.
From S2P Require Import Sample.
From S2P Require Import Types.
From S2P Require Import Consensus.
From S2P Require Import Clique.
From S2P Require Import CliqueVotes.
From S2P Require Import CliqueTurns.
Local Open Scope Z_scope.
Local Open Scope go_scope.

(** * Applying one header after another *)

(** The number and hash of a snapshot play no part in applying a header. *)
Definition renumber (n : Z) (h : bytes) (s : Snapshot) : Snapshot := MkSnapshot n h (s_Signers s) (s_Recents s) (s_Votes s) (s_Tally s).

Lemma uncast_renumber n h a auth s : uncast a auth (renumber n h s) = (renumber n h (uncast a auth s).1, (uncast a auth s).2).
Proof. unfold uncast. cbn. repeat case_match; done. Qed.
Lemma cast_renumber n h a auth s : cast a auth (renumber n h s) = (renumber n h (cast a auth s).1, (cast a auth s).2).
Proof. unfold cast, validVote. cbn. repeat case_match; done. Qed.
Lemma shiftRecents_renumber n h k s : shiftRecents k (renumber n h s) = renumber n h (shiftRecents k s).
Proof. unfold shiftRecents, signerLimit. cbn. case_match; done. Qed.
Lemma discardVote_renumber n h x a pre l s : discardVote x a pre l (renumber n h s) = renumber n h (discardVote x a pre l s).
Proof. revert pre. induction l; intros; cbn [discardVote]; [done|]. case_match; [by rewrite uncast_renumber|auto]. Qed.
Lemma discardSigner_renumber n h x pre l s : discardSigner x pre l (renumber n h s) = renumber n h (discardSigner x pre l s).
Proof. revert pre s. induction l as [|v l IH]; intros; cbn [discardSigner]; [done|]. case_match; [|auto]. rewrite uncast_renumber, <- IH. done. Qed.
Lemma discardAddress_renumber n h x pre l s : discardAddress x pre l (renumber n h s) = renumber n h (discardAddress x pre l s).
Proof. revert pre s. induction l as [|v l IH]; intros; cbn [discardAddress]; [done|]. case_match; [|auto]. rewrite <- IH. done. Qed.

Lemma passVote_renumber n h k a auth s : passVote k a auth (renumber n h s) = renumber n h (passVote k a auth s).
Proof.
  unfold passVote. destruct auth; cbn [s_Signers s_Votes renumber].
  - change (with_signers ?S (renumber n h s)) with (renumber n h (with_signers S s)). by rewrite discardAddress_renumber.
  - change (with_signers ?S (renumber n h s)) with (renumber n h (with_signers S s)). rewrite shiftRecents_renumber, discardSigner_renumber, discardAddress_renumber. done.
Qed.
Lemma tallyUp_renumber n h k a s : tallyUp k a (renumber n h s) = renumber n h (tallyUp k a s).
Proof. unfold tallyUp. cbn [s_Tally s_Signers renumber]. case_match; [|done]. apply passVote_renumber. Qed.

Section chain.
Context (sha : bytes -> bytes) (config : CliqueConfig) (Ecrecover : bytes -> bytes -> option bytes).
Context (epoch_set : Epoch config <> 0).

Lemma opened_renumber n h k x s : opened config k x (renumber n h s) = renumber n h (opened config k x s).
Proof. unfold opened. destruct (epochBlock _ _); [change (with_tally ∅ (with_votes [] (renumber n h s))) with (renumber n h (with_tally ∅ (with_votes [] s)))|]; by rewrite shiftRecents_renumber. Qed.

Lemma counted_renumber n h header k x auth s : counted header k x auth (renumber n h s) = renumber n h (counted header k x auth s).
Proof.
  unfold counted. cbn [s_Votes renumber]. rewrite discardVote_renumber, cast_renumber. destruct (cast _ _ _) as [s2 ok]. cbn [fst snd]. rewrite <- tallyUp_renumber. by destruct ok.
Qed.

Lemma applyHeader_renumber n h header s s' : applyHeader sha config Ecrecover header s = Ok s' -> applyHeader sha config Ecrecover header (renumber n h s) = Ok (renumber n h s').
Proof using epoch_set.
  rewrite !applyHeader_unfold by done. intros (x & -> & H)%outcome_bind_ok. cbn [outcome_bind s_Signers renumber]. rewrite shiftRecents_renumber. cbn [s_Recents renumber].
  repeat case_match; try done. injection H as <-. by rewrite opened_renumber, counted_renumber.
Qed.

Lemma applyHeaders_app l1 l2 s : applyHeaders sha config Ecrecover (l1 ++ l2) s = let! s1 := applyHeaders sha config Ecrecover l1 s in applyHeaders sha config Ecrecover l2 s1.
Proof. revert s. induction l1 as [|h l1 IH]; intros s; [done|]. cbn. destruct (applyHeader _ _ _ _ _); cbn; auto. Qed.

Lemma applyHeaders_Number l s s' : applyHeaders sha config Ecrecover l s = Ok s' -> s_Number s' = s_Number s.
Proof using epoch_set.
  revert s. induction l as [|h l IH]; intros s; cbn [applyHeaders]; [by intros [= <-]|]. intros (s1 & H1 & H2)%outcome_bind_ok. apply IH in H2. apply (applyHeader_Number sha config Ecrecover epoch_set) in H1. congruence.
Qed.

Lemma contiguous_snoc l h : contiguous (l ++ [h]) = true -> contiguous l = true /\ forall h', last l = Some h' -> u64 (h_Number h) = u64 (u64 (h_Number h') + 1).
Proof.
  induction l as [|x l IH]; [done|]. destruct l as [|y l]; cbn [app contiguous] in *.
  - intros [H _]%andb_true_iff. split; [done|]. intros h' [= <-]. by apply Z.eqb_eq.
  - intros [H1 [H2 H3]%IH]%andb_true_iff. split; [by rewrite H1, H2|]. intros h' Hl. by apply H3.
Qed.

Lemma contiguous_last l n h' : contiguous l = true -> (forall h, head l = Some h -> u64 (h_Number h) = u64 (n + 1)) -> last l = Some h' -> u64 (h_Number h') = u64 (n + zlen l).
Proof.
  revert n. induction l as [|x l IH]; intros n Hc Hh Hl; [done|]. rewrite zlen_cons. destruct l as [|y l].
  - injection Hl as <-. rewrite (Hh x eq_refl). f_equal.
  - cbn [contiguous] in Hc. apply andb_true_iff in Hc as [H1%Z.eqb_eq H2]. rewrite (IH (n + 1) H2); [f_equal; lia| |done]. intros h [= <-]. rewrite H1, (Hh x eq_refl). unfold u64. by rewrite Zplus_mod_idemp_l.
Qed.

(** [apply] of headers that start with [h]. *)
Lemma apply_from l h s : head l = Some h -> apply sha config Ecrecover l s =
  if negb (contiguous l) then Err errInvalidVotingChain
  else if negb (u64 (h_Number h) =? u64 (s_Number s + 1)) then Err errInvalidVotingChain
  else let! s' := applyHeaders sha config Ecrecover l s in Ok (renumber (u64 (s_Number s' + zlen l)) (default [] (Header_Hash sha <$> last l)) s').
Proof. destruct l; [done|]. by intros [= ->]. Qed.

Lemma apply_snoc l h s s' : apply sha config Ecrecover (l ++ [h]) s = Ok s' -> exists s1, apply sha config Ecrecover l s = Ok s1 /\ apply sha config Ecrecover [h] s1 = Ok s'.
Proof using epoch_set.
  destruct (head l) as [h0|] eqn:Eh; [|destruct l; [intros H; by exists s|done]]. rewrite (apply_from (l ++ [h]) h0) by (by destruct l).
  destruct (contiguous (l ++ [h])) eqn:Hc; [|done]. destruct (Z.eqb_spec (u64 (h_Number h0)) (u64 (s_Number s + 1))) as [Hh|]; [|done]. cbn [negb].
  intros (sx & Hx & [= <-])%outcome_bind_ok. rewrite applyHeaders_app in Hx. apply outcome_bind_ok in Hx as (s1 & H1 & H2). apply contiguous_snoc in Hc as [Hc Hl].
  assert (exists h', last l = Some h') as [h' Hh'] by (destruct (last l) eqn:E; [eauto|apply last_None in E; by subst]).
  pose proof (contiguous_last l (s_Number s) h' Hc ltac:(by intros ? Hx; rewrite Eh in Hx; injection Hx as <-) Hh') as Hn'. pose proof (applyHeaders_Number l s s1 H1) as Hn1.
  exists (renumber (u64 (s_Number s1 + zlen l)) (default [] (Header_Hash sha <$> last l)) s1). split.
  - rewrite (apply_from l h0), Hc, Hh, Z.eqb_refl, H1 by done. done.
  - rewrite (apply_from [h] h) by done. cbn [contiguous negb s_Number renumber]. rewrite (Hl h' Hh'), Hn', Hn1, Z.eqb_refl. cbn [negb applyHeaders]. cbn [applyHeaders] in H2. apply outcome_bind_ok in H2 as (s2 & H2 & [= <-]).
    rewrite (applyHeader_renumber _ _ _ _ _ H2). cbn [outcome_bind]. f_equal. apply (applyHeader_Number sha config Ecrecover epoch_set) in H2. unfold renumber. cbn [s_Number s_Signers s_Recents s_Votes s_Tally]. f_equal.
    + rewrite H2, Hn1. unfold zlen. rewrite length_app. cbn [length]. unfold u64. rewrite Zplus_mod_idemp_l. f_equal. lia.
    + by rewrite last_snoc.
Qed.
End chain.

(** * Snapshots from genesis *)

Section retrieval.
Context (sha : bytes -> bytes) (config : CliqueConfig) (chainConfig : ChainConfig) (now : Z) (Ecrecover : bytes -> bytes -> option bytes).
Context (GetHeader : bytes -> Z -> option Header) (genesis : Header).
Context (epoch_set : Epoch config <> 0).
(** Hashes are long enough to end in an address, and keys are not empty. *)
Context (sha_len : forall b, 32 <= zlen (sha b)) (key_len : forall hash sig key, Ecrecover hash sig = Some key -> key <> []).

(** The snapshots that the headers of a chain give, by hash of the last header:
    that of the genesis block has the signers it lists, and each header after it
    is applied to the snapshot of its parent. *)
Inductive from_genesis : bytes -> Snapshot -> Prop :=
| from_start : from_genesis (Header_Hash sha genesis) (newSnapshot 0 (Header_Hash sha genesis) (genesisSigners (h_Extra genesis)))
| from_next h s s' : from_genesis (h_ParentHash h) s -> u64 (h_Number h) <> 0 -> apply sha config Ecrecover [h] s = Ok s' -> from_genesis (Header_Hash sha h) s'.

Lemma from_genesis_ok hash s : from_genesis hash s -> snap_ok (s_Number s) s /\ is_u64 (s_Number s) /\ s_Hash s = hash.
Proof using epoch_set.
  induction 1 as [|h s s' Hf (Hok & Hu & _) Hn Ha]; [split; [apply CliqueSample.newSnapshot_ok|done]|].
  assert (Hlt : s_Number s + 1 < 2 ^ 64).
  { rewrite (apply_from sha config Ecrecover [h] h) in Ha by done. cbn in Ha. destruct (Z.eqb_spec (u64 (h_Number h)) (u64 (s_Number s + 1))) as [He|]; [|done]. unfold is_u64 in Hu. destruct (decide (s_Number s + 1 = 2 ^ 64)) as [Hz|]; [|lia].
    rewrite He, Hz in Hn. done. }
  destruct (apply_ok sha config Ecrecover epoch_set [h] s s' Hok) as (Hs' & Hok' & _); [unfold is_u64 in Hu; lia|done|done|]. split; [done|]. split; [rewrite Hs'; unfold is_u64, zlen in *; cbn; lia|].
  rewrite (apply_from sha config Ecrecover [h] h) in Ha by done. repeat case_match; try done. by apply outcome_bind_ok in Ha as (s1 & _ & [= <-]).
Qed.

(** Where hashes do not collide, a hash has one snapshot. *)
Lemma from_genesis_unique hash s1 s2 : (forall h1 h2, Header_Hash sha h1 = Header_Hash sha h2 -> h1 = h2) -> h_Number genesis = 0 ->
  from_genesis hash s1 -> from_genesis hash s2 -> s1 = s2.
Proof.
  intros Hinj Hg H1. revert s2. induction H1 as [|h s s' _ IH Hn Ha]; intros s2 H2; inversion H2 as [Hh|h' t t' Hf' Hn' Ha' Hh]; subst; try done.
  - apply Hinj in Hh. subst. by rewrite Hg in Hn'.
  - apply Hinj in Hh. subst. by rewrite Hg in Hn.
  - apply Hinj in Hh. subst. apply IH in Hf'. subst. congruence.
Qed.

(** Headers gathered backwards from a hash: each is the parent of the one before. *)
Fixpoint gathered (hash : bytes) (headers : list Header) (base : bytes) : Prop :=
  match headers with
  | [] => base = hash
  | h :: headers => Header_Hash sha h = hash /\ u64 (h_Number h) <> 0 /\ gathered (h_ParentHash h) headers base
  end.

Lemma gathered_snoc hash headers h base : gathered hash headers base -> Header_Hash sha h = base -> u64 (h_Number h) <> 0 -> gathered hash (headers ++ [h]) (h_ParentHash h).
Proof. revert hash. induction headers as [|x l IH]; intros hash Hg Hh Hn; cbn in *; [by subst|]. destruct Hg as (? & ? & ?). auto. Qed.

Lemma apply_gathered hash headers base s s' : gathered hash headers base -> from_genesis base s -> apply sha config Ecrecover (rev headers) s = Ok s' -> from_genesis hash s'.
Proof using epoch_set.
  revert hash s'. induction headers as [|h headers IH]; intros hash s' Hg Hs; [cbn in *; subst; by intros [= <-]|]. destruct Hg as (<- & Hn & Hg).
  cbn [rev]. intros (s1 & H1 & H2)%(apply_snoc sha config Ecrecover epoch_set). by eapply from_next; [eapply IH|..].
Qed.

(** ** The caches *)

(** A store gives back what was put into it, or nothing. *)
Class SnapStoreLaws (St : Type) `{SnapStore St} := {
  recentsAdd_get hash s st h s' : recentsGet h (recentsAdd hash s st) = Some s' -> recentsGet h st = Some s' \/ h = hash /\ s' = s;
  recentsAdd_load hash s st h s' : loadSnapshot h (recentsAdd hash s st) = Some s' -> loadSnapshot h st = Some s';
  store_get s st st' h s' : store s st = Some st' -> recentsGet h st' = Some s' -> recentsGet h st = Some s';
  store_load s st st' h s' : store s st = Some st' -> loadSnapshot h st' = Some s' -> loadSnapshot h st = Some s' \/ h = s_Hash s /\ s' = s }.

Context {St : Type} `{HSt : SnapStore St} `{!SnapStoreLaws St}.

Definition sound_store (st : St) : Prop := forall h s, recentsGet h st = Some s \/ loadSnapshot h st = Some s -> from_genesis h s.

Lemma add_sound hash s st : sound_store st -> from_genesis hash s -> sound_store (recentsAdd hash s st).
Proof. intros Hs Hf h s' [Hg|Hl]; [apply recentsAdd_get in Hg as [?|[-> ->]]; eauto|apply recentsAdd_load in Hl; eauto]. Qed.
Lemma store_sound s st st' : sound_store st -> from_genesis (s_Hash s) s -> store s st = Some st' -> sound_store st'.
Proof. intros Hs Hf Hst h s' [Hg|Hl]; [eapply store_get in Hg; eauto|eapply store_load in Hl as [?|[-> ->]]; eauto]. Qed.

(** What an operation on the caches leaves and returns. *)
Definition returns {A} (P : A -> Prop) (m : outcome (clique_error * St) (St * A)) : Prop :=
  match m with Ok (st, a) => sound_store st /\ P a | Err (_, st) => sound_store st | _ => False end.

Lemma returns_bind {A B} (P : A -> Prop) (Q : B -> Prop) m (k : St * A -> outcome (clique_error * St) (St * B)) :
  returns P m -> (forall st a, sound_store st -> P a -> returns Q (k (st, a))) -> returns Q (outcome_bind m k).
Proof. intros Hm Hk. destruct m as [[st a]|[e st]| |]; cbn in *; [apply Hk; tauto|done..]. Qed.

(** Nothing panics or gives up. *)
Definition total {E A} (m : outcome E A) : Prop := match m with Ok _ | Err _ => True | _ => False end.

Lemma zslice_total (l : bytes) lo hi : 0 <= lo <= hi -> hi <= zlen l -> exists r, zslice l lo hi = Some r.
Proof. intros H1 H2. unfold zslice. destruct (Z.leb_spec 0 lo), (Z.leb_spec lo hi), (Z.leb_spec hi (zlen l)); try lia. eauto. Qed.

Lemma ecrecover_total header : total (ecrecover sha Ecrecover header).
Proof using sha_len key_len.
  unfold ecrecover. change extraSeal with 65. destruct (Z.ltb_spec (zlen (h_Extra header)) 65); [done|].
  destruct (zslice_total (h_Extra header) (zlen (h_Extra header) - 65) (zlen (h_Extra header)) ltac:(lia) ltac:(lia)) as [sig ->]. cbn [must outcome_bind]. unfold sigHash.
  destruct (zslice_total (h_Extra header) 0 (zlen (h_Extra header) - 65) ltac:(lia) ltac:(lia)) as [extra ->]. cbn [must outcome_bind]. destruct (Ecrecover _ sig) as [key|] eqn:E; [|done].
  assert (1 <= zlen key) by (apply key_len in E; destruct key; [done|]; rewrite zlen_cons; unfold zlen; lia). destruct (zslice_total key 1 (zlen key) ltac:(lia) ltac:(lia)) as [k ->]. cbn [must outcome_bind].
  destruct (zslice_total (sha k) 12 (zlen (sha k))) as [t ->]; [specialize (sha_len k); lia|lia|done].
Qed.

Lemma applyHeaders_total headers s : total (applyHeaders sha config Ecrecover headers s).
Proof using epoch_set sha_len key_len.
  revert s. induction headers as [|h headers IH]; intros s; cbn [applyHeaders]; [done|]. assert (total (applyHeader sha config Ecrecover h s)) as Hh.
  { rewrite applyHeader_unfold by done. pose proof (ecrecover_total h). destruct (ecrecover _ _ _); try done. cbn [outcome_bind]. repeat case_match; done. }
  destruct (applyHeader _ _ _ _ _); try done. apply IH.
Qed.
Lemma apply_total headers s : total (apply sha config Ecrecover headers s).
Proof using epoch_set sha_len key_len.
  destruct (head headers) as [h|] eqn:E; [|by destruct headers]. rewrite (apply_from _ _ _ _ h) by done. repeat case_match; try done. pose proof (applyHeaders_total headers s). by destruct (applyHeaders _ _ _ _ _).
Qed.

Lemma finish_sound st snap headers hash base : sound_store st -> from_genesis base snap -> gathered hash headers base -> returns (from_genesis hash) (finish sha config Ecrecover st snap headers).
Proof using epoch_set SnapStoreLaws0 sha_len key_len.
  intros Hst Hf Hg. unfold finish. pose proof (apply_total (rev headers) snap) as Ht. destruct (apply sha config Ecrecover (rev headers) snap) as [s'|e| |] eqn:Ea; cbn [lift outcome_bind returns]; try done.
  pose proof (apply_gathered _ _ _ _ _ Hg Hf Ea) as Hs'. destruct (from_genesis_ok _ _ Hs') as (_ & _ & Hh). rewrite Hh. assert (sound_store (recentsAdd hash s' st)) as Hst' by (by apply add_sound).
  case_match; [|done]. destruct (store s' _) as [st'|] eqn:Es; [|done]. split; [|done]. eapply store_sound; [done|by rewrite Hh|done].
Qed.

(** ** Retrieval *)

Context (chain_headers : forall h n hd, GetHeader h n = Some hd -> Header_Hash sha hd = h /\ u64 (h_Number hd) = n).
Context (genesis_number : h_Number genesis = 0).
(** The chain has one header at number zero, and its first ones follow it. *)
Context (chain_genesis : forall h hd, GetHeader h 0 = Some hd -> h = Header_Hash sha genesis).
Context (chain_first : forall h hd, GetHeader h 1 = Some hd -> h_ParentHash hd = Header_Hash sha genesis).

(** So do the headers handed over with a request. At number zero [snapshot] does
    not look at the hash, so a request there is for the genesis block. *)
Definition rooted (number : Z) (hash : bytes) (parents : list Header) : Prop :=
  (number = 0 -> hash = Header_Hash sha genesis) /\ Forall (fun h => u64 (h_Number h) = 1 -> h_ParentHash h = Header_Hash sha genesis) parents.

Lemma verify_genesis f st : sound_store st -> returns (fun _ => True) (verifyHeader sha config chainConfig now Ecrecover GetHeader f st genesis []).
Proof using epoch_set genesis_number.
  intros Hst. unfold verifyHeader. destruct (Z.eqb_spec (Epoch config) 0); [done|]. rewrite andb_false_r. destruct (verifyFields _ _ _ _ _); [done|]. unfold verifyCascadingFields. by rewrite genesis_number.
Qed.

Lemma snapshot_ok fuel st number hash parents headers hash0 : sound_store st -> rooted number hash parents -> 0 <= number < 2 ^ 64 -> (Z.to_nat number < fuel)%nat -> gathered hash0 headers hash ->
  returns (from_genesis hash0) (snapshot sha config chainConfig now Ecrecover GetHeader genesis fuel st number hash parents headers).
Proof using epoch_set genesis_number chain_headers chain_first SnapStoreLaws0 sha_len key_len.
  revert st number hash parents headers. induction fuel as [|fuel IH]; intros st number hash parents headers Hst [Hr0 Hrp] Hn Hf Hg; [lia|]. cbn [snapshot].
  destruct (recentsGet hash st) as [snap|] eqn:Er; [eapply finish_sound; [done|apply Hst; by left|done]|].
  destruct (if number mod checkpointInterval =? 0 then loadSnapshot hash st else None) as [snap|] eqn:El; [eapply finish_sound; [done|apply Hst; right; by case_match|done]|].
  destruct (Z.eqb_spec number 0) as [->|Hz].
  - eapply returns_bind; [by apply verify_genesis|]. intros st' _ Hst' _. destruct (store _ st') as [st''|] eqn:Es; [|done]. rewrite (Hr0 eq_refl) in Hg. eapply finish_sound; [|apply from_start|exact Hg]. by eapply store_sound; [exact Hst'| |exact Es]; apply from_start.
  - assert (Hstep : forall h ps, Header_Hash sha h = hash -> u64 (h_Number h) = number -> rooted (number - 1) (h_ParentHash h) ps -> returns (from_genesis hash0) (snapshot sha config chainConfig now Ecrecover GetHeader genesis fuel st (u64 (number - 1)) (h_ParentHash h) ps (headers ++ [h]))).
    { intros h ps Hh Hnum Hro. rewrite u64_small by (unfold is_u64; lia). apply IH; [done|done|lia|lia|]. eapply gathered_snoc; [done|done|lia]. }
    destruct (last parents) as [h|] eqn:El'.
    + case_bool_decide as Hh; [|done]. destruct (Z.eqb_spec (u64 (h_Number h)) number) as [Hnum|]; [|done]. cbn [negb orb]. apply last_Some in El' as [ps ->]. apply Forall_app in Hrp as [Hps Hh1]. rewrite Forall_singleton in Hh1.
      apply Hstep; [done|done|]. rewrite removelast_last. split; [|done]. intros Hz1. apply Hh1. lia.
    + destruct (GetHeader hash number) as [h|] eqn:Eg; [|done]. pose proof (chain_headers _ _ _ Eg) as [? ?]. apply Hstep; [done|done|]. split; [|done]. intros Hz1. replace number with 1 in Eg by lia. eauto.
Qed.

(** C31. Retrieving the snapshot at a block always returns, and when it gives one, it
    is the snapshot of that block: the one that the headers from the genesis block
    up to it give, applied one by one. It is well formed. What the caches and the
    checkpoint store hold, lose or lack makes no difference, and they stay sound. *)
Theorem snapshot_from_genesis st number hash parents : sound_store st -> rooted number hash parents -> 0 <= number < 2 ^ 64 ->
  match retrieve sha config chainConfig now Ecrecover GetHeader genesis st number hash parents with
  | Ok (st', snap) => sound_store st' /\ from_genesis hash snap /\ s_Hash snap = hash /\ snap_ok (s_Number snap) snap
  | Err (_, st') => sound_store st'
  | _ => False
  end.
Proof using epoch_set genesis_number chain_headers chain_first SnapStoreLaws0 sha_len key_len.
  intros Hst Hro Hn. pose proof (snapshot_ok (S (S (Z.to_nat number))) st number hash parents [] hash Hst Hro Hn ltac:(lia) eq_refl) as H. unfold retrieve.
  destruct (snapshot _ _ _ _ _ _ _ _ _ _ _ _ _) as [[st' snap]|[e st']| |]; cbn in H; try done. destruct H as [? Hf]. split; [done|]. split; [done|]. by apply from_genesis_ok in Hf as (? & _ & ?).
Qed.

(** ** Verified headers *)

Lemma retrieve_ok st number hash parents : sound_store st -> rooted number hash parents -> 0 <= number < 2 ^ 64 -> returns (from_genesis hash) (retrieve sha config chainConfig now Ecrecover GetHeader genesis st number hash parents).
Proof using epoch_set genesis_number chain_headers chain_first SnapStoreLaws0 sha_len key_len. intros Hst Hro Hn. apply snapshot_ok; [done|done|done|lia|done]. Qed.

(** The rule about recent signers: one of a set with limit [l] signs at most one
    of any [l] blocks in a row. It holds from the block on whose number reaches the
    limit; before it, the subtraction in [verifySeal] wraps around and the check
    lets every signer through. *)
Definition rested (snap : Snapshot) (number : Z) (signer : bytes) : Prop :=
  signerLimit snap <= number -> forall seen, s_Recents snap !! seen = Some signer -> seen + signerLimit snap <= number.

Lemma not_recent_rested snap number signer : is_u64 number -> not_recent snap number signer -> rested snap number signer.
Proof.
  intros Hn Hr Hl seen Hs. apply Hr in Hs. assert (1 <= signerLimit snap) by (unfold signerLimit; pose proof (Z.div_pos (Z.of_nat (size (s_Signers snap))) 2 ltac:(lia) ltac:(lia)); lia).
  rewrite u64_small in Hs by (unfold is_u64 in *; lia). lia.
Qed.

(** What a verified seal vouches for. *)
Definition sealed_by_signer (header : Header) : Prop := exists snap signer, from_genesis (h_ParentHash header) snap /\ ecrecover sha Ecrecover header = Ok signer /\
  signer ∈ s_Signers snap /\ rested snap (h_Number header) signer /\ difficulty_ok snap (h_Number header) signer (h_Difficulty header).

Lemma checkSeal_total snap header : total (checkSeal sha Ecrecover snap header).
Proof using sha_len key_len.
  unfold checkSeal. pose proof (ecrecover_total header). destruct (ecrecover _ _ _) as [signer| | |]; try done. cbn [outcome_bind]. case_bool_decide as Hin; [|done]. cbn [negb]. case_bool_decide; [done|].
  unfold inturn. destruct (Z.eqb_spec (zlen (signers snap)) 0) as [Hz|]; [|cbn [outcome_bind]; repeat case_match; done].
  apply signers_elem in Hin. unfold zlen in Hz. destruct (signers snap); [by apply not_elem_of_nil in Hin|done].
Qed.

Lemma verifySeal_ok st header parents : sound_store st -> rooted (h_Number header - 1) (h_ParentHash header) parents -> 0 < h_Number header < 2 ^ 64 ->
  returns (fun _ => sealed_by_signer header) (verifySeal sha Ecrecover (retrieve sha config chainConfig now Ecrecover GetHeader genesis) st header parents).
Proof using epoch_set genesis_number chain_headers chain_first SnapStoreLaws0 sha_len key_len.
  intros Hst Hro Hn. unfold verifySeal. rewrite (u64_small (h_Number header)) by (unfold is_u64; lia). destruct (Z.eqb_spec (h_Number header) 0); [lia|].
  rewrite u64_small by (unfold is_u64; lia). eapply returns_bind; [apply retrieve_ok; [done|done|lia]|]. intros st' snap Hst' Hf. pose proof (checkSeal_total snap header) as Ht. unfold lift.
  destruct (checkSeal sha Ecrecover snap header) as [[]|e| |] eqn:Ec; try done. split; [done|]. assert (exists signer, ecrecover sha Ecrecover header = Ok signer) as [signer Hs].
  { unfold checkSeal in Ec. apply outcome_bind_ok in Ec as (x & ? & _). eauto. }
  apply (checkSeal_ok sha Ecrecover snap header signer Hs) in Ec as (? & Hr & ?). rewrite (u64_small (h_Number header)) in * by (unfold is_u64; lia). exists snap, signer. split_and!; try done. apply not_recent_rested; [unfold is_u64; lia|done].
Qed.

(** C32. Verifying a header always returns, and a header after genesis that passes
    follows a header of the chain in time and number, is not from the future,
    and is sealed by a signer of the snapshot at its parent, with the difficulty of
    that signer's turn, who did not sign one of the last blocks, as many as the
    limit of the signers says; only blocks with numbers below the limit escape this
    last rule. At an epoch it lists the signers. *)
Theorem header_authorized st header : sound_store st -> 0 < h_Number header < 2 ^ 64 ->
  match VerifyHeader sha config chainConfig now Ecrecover GetHeader genesis st header with
  | Ok (st', _) => sound_store st' /\ h_Time header <= now /\ sealed_by_signer header /\
      (exists parent, GetHeader (h_ParentHash header) (h_Number header - 1) = Some parent /\ u64 (u64 (h_Time parent) + Period config) <= u64 (h_Time header)) /\
      (h_Number header mod Epoch config = 0 -> exists snap, from_genesis (h_ParentHash header) snap /\ zslice (h_Extra header) 32 (zlen (h_Extra header) - 65) = Some (concat (signers snap)))
  | Err (_, st') => sound_store st'
  | _ => False
  end.
Proof using epoch_set genesis_number chain_headers chain_genesis chain_first SnapStoreLaws0 sha_len key_len.
  intros Hst Hn. unfold VerifyHeader, verifyHeader. destruct (Z.eqb_spec (Epoch config) 0); [done|]. rewrite andb_false_r.
  destruct (verifyFields _ _ _ _ header) eqn:Ef; [done|]. assert (Hnow : h_Time header <= now) by (unfold verifyFields in Ef; destruct (Z.ltb_spec now (h_Time header)); [done|lia]). clear Ef.
  unfold verifyCascadingFields. rewrite (u64_small (h_Number header)) by (unfold is_u64; lia). destruct (Z.eqb_spec (h_Number header) 0); [lia|]. rewrite (u64_small (h_Number header - 1)) by (unfold is_u64; lia). cbn [last].
  destruct (GetHeader (h_ParentHash header) (h_Number header - 1)) as [parent|] eqn:Eg; [|done]. destruct (_ || _); [done|].
  assert (Hro : rooted (h_Number header - 1) (h_ParentHash header) []) by (split; [|done]; intros Hz; rewrite Hz in Eg; by apply chain_genesis in Eg).
  destruct (Z.ltb_spec (u64 (h_Time header)) (u64 (u64 (h_Time parent) + Period config))); [done|].
  pose proof (retrieve_ok st (h_Number header - 1) (h_ParentHash header) [] Hst Hro ltac:(lia)) as Hr. destruct (retrieve _ _ _ _ _ _ _ _ _ _ _) as [[st1 snap]|[e st1]| |]; cbn [outcome_bind returns] in *; try done. destruct Hr as [Hst1 Hf].
  destruct ((h_Number header mod Epoch config =? 0) && _) eqn:Ee; [done|]. pose proof (verifySeal_ok st1 header [] Hst1 Hro Hn) as Hv. destruct (verifySeal _ _ _ _ _ _) as [[st2 []]|[e st2]| |]; cbn [returns] in Hv; try done.
  destruct Hv as [Hst2 Hseal]. split_and!; try done; [by exists parent|]. intros Hep. exists snap. split; [done|]. rewrite Hep in Ee. cbn [Z.eqb andb] in Ee. case_bool_decide as Hz; [exact Hz|done].
Qed.
End retrieval.

(** * A chain of two blocks *)

Module SnapshotSample.
Import CliqueSample.

(** Caches and store as maps that keep everything. *)
Definition maps : Type := gmap bytes Snapshot * gmap bytes Snapshot.
#[export] Instance maps_store : SnapStore maps := {
  recentsGet h st := st.1 !! h;
  recentsAdd h s st := (<[h := s]> st.1, st.2);
  loadSnapshot h st := st.2 !! h;
  store s st := Some (st.1, <[s_Hash s := s]> st.2) }.
#[export] Instance maps_laws : SnapStoreLaws maps.
Proof.
  split; cbn.
  - intros hash s st h s'. rewrite lookup_insert_Some. naive_solver.
  - done.
  - by intros s st st' h s' [= <-].
  - intros s st st' h s' [= <-]. cbn. rewrite lookup_insert_Some. naive_solver.
Qed.

Definition genesisHeader : Header :=
  MkHeader [] (EmptyUncleHash sampleSha) zeroAddress [] [] [] [] 1 0 1000000 0 0 (replicate 32 0 ++ addr 1 ++ addr 2 ++ replicate 65 0) (replicate 32 0) nonceDropVote.
Definition firstHeader : Header :=
  MkHeader (Header_Hash sampleSha genesisHeader) (EmptyUncleHash sampleSha) (addr 9) [] [] [] [] 2 1 1000000 0 15 (replicate 77 0 ++ addr 2) (replicate 32 0) nonceAuthVote.
Definition twoBlocks (h : bytes) (n : Z) : option Header :=
  if bool_decide (h = Header_Hash sampleSha genesisHeader /\ n = 0) then Some genesisHeader
  else if bool_decide (h = Header_Hash sampleSha firstHeader /\ n = 1) then Some firstHeader
  else None.

Lemma twoBlocks_ok h n hd : twoBlocks h n = Some hd -> Header_Hash sampleSha hd = h /\ u64 (h_Number hd) = n.
Proof. unfold twoBlocks. case_bool_decide as H; [destruct H as [-> ->]; by intros [= <-]|]. clear H. case_bool_decide as H; [|done]. destruct H as [-> ->]. by intros [= <-]. Qed.
Lemma twoBlocks_genesis h hd : twoBlocks h 0 = Some hd -> h = Header_Hash sampleSha genesisHeader.
Proof. unfold twoBlocks. case_bool_decide as H; [by destruct H|]. clear H. case_bool_decide as H; [by destruct H|done]. Qed.
Lemma twoBlocks_first h hd : twoBlocks h 1 = Some hd -> h_ParentHash hd = Header_Hash sampleSha genesisHeader.
Proof. unfold twoBlocks. case_bool_decide as H; [by destruct H|]. clear H. case_bool_decide as H; [by intros [= <-]|done]. Qed.

Lemma sampleSha_len b : 32 <= zlen (sampleSha b).
Proof. unfold sampleSha, zlen. rewrite length_app, length_take, length_app, !length_replicate. lia. Qed.
Lemma sampleKey hash sig key : sampleEcrecover hash sig = Some key -> key <> [].
Proof. by intros [= <-]. Qed.

Definition emptyMaps : maps := (∅, ∅).
Lemma emptyMaps_sound : sound_store sampleSha cfg sampleEcrecover genesisHeader emptyMaps.
Proof. intros h s [H|H]; cbn in H; by rewrite lookup_empty in H. Qed.

Definition isOk {E A} (m : outcome E A) : bool := match m with Ok _ => true | _ => false end.

Lemma snapshot_from_genesis_witness : match retrieve sampleSha cfg sampleConfig 100 sampleEcrecover twoBlocks genesisHeader emptyMaps 1 (Header_Hash sampleSha firstHeader) [] with
  | Ok (_, snap) => from_genesis sampleSha cfg sampleEcrecover genesisHeader (Header_Hash sampleSha firstHeader) snap /\ s_Hash snap = Header_Hash sampleSha firstHeader | _ => False end.
Proof.
  pose proof (snapshot_from_genesis sampleSha cfg sampleConfig 100 sampleEcrecover twoBlocks genesisHeader cfg_epoch sampleSha_len sampleKey twoBlocks_ok eq_refl twoBlocks_first emptyMaps 1 (Header_Hash sampleSha firstHeader) [] emptyMaps_sound
    (conj (fun H : 1 = 0 => ltac:(discriminate H)) (@List.Forall_nil _ _)) ltac:(lia)) as H.
  assert (Hok : isOk (retrieve sampleSha cfg sampleConfig 100 sampleEcrecover twoBlocks genesisHeader emptyMaps 1 (Header_Hash sampleSha firstHeader) []) = true) by (vm_compute; reflexivity).
  destruct (retrieve _ _ _ _ _ _ _ _ _ _ _) as [[st snap]| | |]; [split; apply H|discriminate Hok..].
Defined.

Lemma header_authorized_witness : sealed_by_signer sampleSha cfg sampleEcrecover genesisHeader firstHeader.
Proof.
  pose proof (header_authorized sampleSha cfg sampleConfig 100 sampleEcrecover twoBlocks genesisHeader cfg_epoch sampleSha_len sampleKey twoBlocks_ok eq_refl twoBlocks_genesis twoBlocks_first emptyMaps firstHeader emptyMaps_sound ltac:(cbn; lia)) as H.
  assert (Hok : isOk (VerifyHeader sampleSha cfg sampleConfig 100 sampleEcrecover twoBlocks genesisHeader emptyMaps firstHeader) = true) by (vm_compute; reflexivity).
  destruct (VerifyHeader _ _ _ _ _ _ _ _ _) as [[st snap]| | |]; [apply H|discriminate Hok..].
Defined.

End SnapshotSample.
