(* ===== verification/VmArith.v ===== *)
(** The arithmetic instructions of [src/core/vm/instructions.go] compute on 256-bit words:
    each is compared with a definition on integers, signed operands read in two's
    complement. *)

From stdpp Require Import base numbers list gmap.
From S2P Require Import Prelude.
From S2P Require Import CommonMath.
From S2P Require Import VmData.
From S2P Require Import VmState.
From S2P Require Import VmInstr.
From S2P Require Import VmWorld.
From S2P Require Import VmSafe.
From S2P Require Import VmExec.
From S2P Require Import State.
From S2P Require Import Sample.
Local Open Scope Z_scope.
Local Open Scope go_scope.

(** * Specification *)

Definition word (z : Z) : Z := z mod 2 ^ 256.
(** A word as a signed integer. *)
Definition signed (z : Z) : Z := if z <? 2 ^ 255 then z else z - 2 ^ 256.
Definition truth (b : bool) : Z := if b then 1 else 0.

(** The low [8 * (k + 1)] bits of [x] as a signed integer. *)
Definition low_signed (k x : Z) : Z :=
  let m := x mod 2 ^ (8 * k + 8) in if m <? 2 ^ (8 * k + 7) then m else m - 2 ^ (8 * k + 8).

Section table.
Context {DB : Type} `{StateDB DB}.

(** Instructions with the function of their operands, the top of the stack first. *)
Definition unary : list (VM DB bytes * (Z -> Z)) :=
  [(opNot, fun x => 2 ^ 256 - 1 - x); (opIszero, fun x => truth (x =? 0))].

Definition binary : list (VM DB bytes * (Z -> Z -> Z)) :=
  [(opAdd, fun x y => word (x + y));
   (opSub, fun x y => word (x - y));
   (opMul, fun x y => word (x * y));
   (opDiv, fun x y => if y =? 0 then 0 else x / y);
   (opSdiv, fun x y => if y =? 0 then 0 else word (Z.quot (signed x) (signed y)));
   (opMod, fun x y => if y =? 0 then 0 else x mod y);
   (opSmod, fun x y => if y =? 0 then 0 else word (Z.rem (signed x) (signed y)));
   (opExp, fun x y => word (x ^ y));
   (opSignExtend, fun k x => if k <? 31 then word (low_signed k x) else x);
   (opLt, fun x y => truth (x <? y));
   (opGt, fun x y => truth (y <? x));
   (opSlt, fun x y => truth (signed x <? signed y));
   (opSgt, fun x y => truth (signed y <? signed x));
   (opEq, fun x y => truth (x =? y));
   (opAnd, Z.land); (opOr, Z.lor); (opXor, Z.lxor);
   (opByte, fun n x => if n <? 32 then x / 256 ^ (31 - n) mod 256 else 0);
   (opSHL, fun n x => word (x * 2 ^ n));
   (opSHR, fun n x => x / 2 ^ n)].

Definition ternary : list (VM DB bytes * (Z -> Z -> Z -> Z)) :=
  [(opAddmod, fun x y z => if z =? 0 then 0 else (x + y) mod z);
   (opMulmod, fun x y z => if z =? 0 then 0 else (x * y) mod z)].

(** The instruction replaces the operands by the result, and changes nothing else. *)
Definition computes (op : VM DB bytes) (args : list Z) (r : Z) : Prop :=
  is_word r /\ forall f st, f_stack f = args ++ st -> op f = Ok (with_stack f (r :: st), inr []).

(** * Proofs *)

Lemma word_range z : is_word (word z).
Proof. unfold word, is_word. apply Z.mod_pos_bound. lia. Qed.
Lemma word_small z : is_word z -> word z = z.
Proof. apply Z.mod_small. Qed.
Lemma U256_eq z : U256 z = word z.
Proof. apply U256_mod. Qed.
Lemma S256_eq z : S256 z = signed z.
Proof. done. Qed.
Lemma truth_word b : is_word (truth b).
Proof. destruct b; cbn; unfold is_word; lia. Qed.
Lemma signed_range z : is_word z -> - 2 ^ 255 <= signed z < 2 ^ 255.
Proof. unfold is_word, signed. intros. destruct (Z.ltb_spec z (2 ^ 255)); lia. Qed.
Lemma word_signed z : is_word z -> word (signed z) = z.
Proof.
  intros Hz. unfold signed. destruct (z <? 2 ^ 255); [by apply word_small|]. unfold word.
  replace (z - 2 ^ 256) with (z + (-1) * 2 ^ 256) by lia. rewrite Z_mod_plus_full. by apply Z.mod_small.
Qed.
Lemma signed_0 z : is_word z -> (signed z =? 0) = (z =? 0).
Proof. unfold is_word, signed. intros. destruct (Z.ltb_spec z (2 ^ 255)); [done|]. destruct (Z.eqb_spec z 0), (Z.eqb_spec (z - 2 ^ 256) 0); lia. Qed.

(** Run an instruction on a stack of the given shape. *)
Lemma computes_intro op args r : is_word r ->
  (forall e c m st pc, op (MkFrame e c m (args ++ st) pc) = Ok (MkFrame e c m (r :: st) pc, inr [])) -> computes op args r.
Proof. intros Hr Hop. split; [done|]. intros [e c m st pc] st' E. cbn in *. subst. apply Hop. Qed.

Lemma sdiv_value x y : is_word x -> is_word y ->
  (if (signed y =? 0) || (signed x =? 0) then 0
   else if negb (Z.sgn (signed x) =? Z.sgn (signed y)) then U256 (- (Z.abs (signed x) / Z.abs (signed y)))
   else U256 (Z.abs (signed x) / Z.abs (signed y))) = if y =? 0 then 0 else word (Z.quot (signed x) (signed y)).
Proof.
  intros Hx Hy. rewrite (signed_0 y) by done. destruct (Z.eqb_spec y 0) as [|Hne]; [done|]. cbn [orb].
  assert (signed y <> 0) as Hs by (rewrite <- Z.eqb_neq, signed_0 by done; by apply Z.eqb_neq).
  destruct (Z.eqb_spec (signed x) 0) as [E|E]; [by rewrite E|]. rewrite !U256_eq, Z.quot_div by done.
  destruct (Z.eqb_spec (Z.sgn (signed x)) (Z.sgn (signed y))) as [Es|Es]; cbn [negb]; f_equal.
  - rewrite Es. destruct (Z.sgn_spec (signed y)) as [[? ->]|[[? ?]|[? ->]]]; lia.
  - destruct (Z.sgn_spec (signed y)) as [[? Ey]|[[? ?]|[? Ey]]], (Z.sgn_spec (signed x)) as [[? Ex]|[[? ?]|[? Ex]]]; try lia; rewrite Ex, Ey in *; lia.
Qed.

Lemma smod_value x y : is_word x -> is_word y ->
  (if signed y =? 0 then 0 else if signed x <? 0 then U256 (- (Z.abs (signed x) mod Z.abs (signed y))) else U256 (Z.abs (signed x) mod Z.abs (signed y))) =
  if y =? 0 then 0 else word (Z.rem (signed x) (signed y)).
Proof.
  intros Hx Hy. rewrite (signed_0 y) by done. destruct (Z.eqb_spec y 0) as [|Hne]; [done|].
  assert (signed y <> 0) as Hs by (rewrite <- Z.eqb_neq, signed_0 by done; by apply Z.eqb_neq).
  rewrite !U256_eq, Z.rem_mod by done. destruct (Z.ltb_spec (signed x) 0); f_equal.
  - rewrite Z.sgn_neg by done. lia.
  - destruct (Z.eq_dec (signed x) 0) as [->|]; [by rewrite Zmod_0_l|]. rewrite Z.sgn_pos by lia. lia.
Qed.

Lemma slt_value x y : is_word x -> is_word y ->
  (if (x >=? tt255) && (y <? tt255) then 1 else if (x <? tt255) && (y >=? tt255) then 0 else bool_word (x <? y)) = truth (signed x <? signed y).
Proof.
  unfold is_word, signed, tt255. intros Hx Hy. rewrite !Z.geb_leb. repeat case_match; cbn in *; unfold truth, bool_word; repeat case_match; lia.
Qed.
Lemma sgt_value x y : is_word x -> is_word y ->
  (if (x >=? tt255) && (y <? tt255) then 0 else if (x <? tt255) && (y >=? tt255) then 1 else bool_word (x >? y)) = truth (signed y <? signed x).
Proof.
  unfold is_word, signed, tt255. intros Hx Hy. rewrite !Z.geb_leb, !Z.gtb_ltb. repeat case_match; cbn in *; unfold truth, bool_word; repeat case_match; lia.
Qed.

Lemma shl_value n x : is_word n -> is_word x -> (if n >=? 256 then 0 else U256 (Z.shiftl x (u64 n))) = word (x * 2 ^ n).
Proof.
  unfold is_word. intros Hn Hx. rewrite Z.geb_leb. destruct (Z.leb_spec 256 n).
  - unfold word. replace n with (n - 256 + 256) by lia. rewrite Z.pow_add_r, Z.mul_assoc by lia. by rewrite Z_mod_mult.
  - rewrite u64_small by (unfold is_u64; lia). rewrite Z.shiftl_mul_pow2 by lia. apply U256_eq.
Qed.
Lemma shr_value n x : is_word n -> is_word x -> (if n >=? 256 then 0 else U256 (Z.shiftr x (u64 n))) = x / 2 ^ n.
Proof.
  unfold is_word. intros Hn Hx. rewrite Z.geb_leb. destruct (Z.leb_spec 256 n).
  - rewrite Z.div_small; [done|]. pose proof (Z.pow_le_mono_r 2 256 n). lia.
  - rewrite u64_small by (unfold is_u64; lia). rewrite Z.shiftr_div_pow2, U256_eq by lia. apply word_small.
    pose proof (Z.pow_pos_nonneg 2 n). split; [apply Z.div_pos; lia|]. apply Z.div_lt_upper_bound; [lia|]. nia.
Qed.

Lemma div_word x y : is_word x -> 0 < y -> is_word (x / y).
Proof. unfold is_word. intros Hx Hy. split; [apply Z.div_pos; lia|]. apply Z.div_lt_upper_bound; [lia|]. nia. Qed.
Lemma mod_word x y : is_word y -> 0 < y -> is_word (x mod y).
Proof. unfold is_word. intros Hx Hy. pose proof (Z.mod_pos_bound x y). lia. Qed.

Lemma land_word x y : is_word x -> is_word y -> is_word (Z.land x y).
Proof.
  unfold is_word. intros Hx Hy. split; [apply Z.land_nonneg; lia|]. rewrite <- (Z.mod_small x (2 ^ 256)) by done. rewrite <- Z.land_ones by lia.
  rewrite (Z.land_comm x), <- Z.land_assoc, Z.land_comm, Z.land_ones by lia. apply Z.mod_pos_bound. lia.
Qed.
Lemma bits_word z : 0 <= z -> (forall i, 256 <= i -> Z.testbit z i = false) -> is_word z.
Proof.
  intros Hz Hb. split; [done|]. destruct (Z.lt_ge_cases z (2 ^ 256)) as [|Hge]; [done|exfalso].
  assert (256 <= Z.log2 z) by (apply Z.log2_le_pow2; lia). specialize (Hb (Z.log2 z) ltac:(done)). rewrite Z.bit_log2 in Hb by lia. done.
Qed.
Lemma word_bits z i : is_word z -> 256 <= i -> Z.testbit z i = false.
Proof. intros [? ?] Hi. destruct (Z.eq_dec z 0) as [->|]; [apply Z.bits_0|]. apply Z.bits_above_log2; [done|]. assert (Z.log2 z < 256); [apply Z.log2_lt_pow2; lia|lia]. Qed.

Lemma lor_word x y : is_word x -> is_word y -> is_word (Z.lor x y).
Proof. intros Hx Hy. apply bits_word; [apply Z.lor_nonneg; split; [apply Hx|apply Hy]|]. intros i Hi. by rewrite Z.lor_spec, !word_bits. Qed.
Lemma lxor_word x y : is_word x -> is_word y -> is_word (Z.lxor x y).
Proof. intros Hx Hy. apply bits_word; [apply Z.lxor_nonneg; split; intros; [apply Hy|apply Hx]|]. intros i Hi. by rewrite Z.lxor_spec, !word_bits. Qed.

Lemma lor_lnot_ones x b : 0 <= b -> Z.lor x (Z.lnot (Z.ones b)) = x mod 2 ^ b - 2 ^ b.
Proof.
  intros Hb. pose proof (Z.pow_pos_nonneg 2 b ltac:(lia) Hb) as Hp.
  rewrite <- (Z.lnot_involutive x) at 1. rewrite <- Z.lnot_land, Z.land_ones by done. unfold Z.lnot at 1.
  assert (Z.lnot x mod 2 ^ b = 2 ^ b - 1 - x mod 2 ^ b) as ->; [|lia].
  symmetry. apply (Z.mod_unique_pos _ _ (- (x / 2 ^ b) - 1)); [pose proof (Z.mod_pos_bound x (2 ^ b)); lia|].
  unfold Z.lnot. pose proof (Z.div_mod x (2 ^ b)). lia.
Qed.

Lemma extend_value k x : 0 <= k < 31 ->
  U256 (if Z.testbit x (u64 (u64 k * 8 + 7)) then Z.lor x (Z.lnot (Z.shiftl 1 (u64 (u64 k * 8 + 7)) - 1)) else Z.land x (Z.shiftl 1 (u64 (u64 k * 8 + 7)) - 1)) =
  word (low_signed k x).
Proof.
  intros Hk. rewrite (u64_small k) by (unfold is_u64; lia). rewrite (u64_small (k * 8 + 7)) by (unfold is_u64; lia). set (b := k * 8 + 7).
  rewrite U256_eq, Z.shiftl_1_l, Z.sub_1_r, <- Z.ones_equiv, lor_lnot_ones, Z.land_ones by lia. f_equal. unfold low_signed.
  replace (8 * k + 8) with (b + 1) by lia. replace (8 * k + 7) with b by lia. pose proof (Z.pow_pos_nonneg 2 b ltac:(lia) ltac:(lia)).
  rewrite Z.pow_add_r, Z.rem_mul_r, <- Z.testbit_spec' by lia. change (2 ^ 1) with 2. pose proof (Z.mod_pos_bound x (2 ^ b)).
  destruct (Z.testbit x b); cbn [Z.b2z]; match goal with |- context [?u <? ?v] => destruct (Z.ltb_spec u v) end; lia.
Qed.

Lemma byte_value n x : is_word n -> is_word x ->
  (if n <? 32 then u64 (Byte x 32 (i64 n)) else 0) = (if n <? 32 then x / 256 ^ (31 - n) mod 256 else 0) /\ is_word (if n <? 32 then x / 256 ^ (31 - n) mod 256 else 0).
Proof.
  intros [Hn _] [Hx _]. destruct (Z.ltb_spec n 32); [|by split; [|unfold is_word; lia]].
  assert (0 <= x / 256 ^ (31 - n) mod 256 < 256) as Hm by (apply Z.mod_pos_bound; lia). split; [|unfold is_word; lia].
  rewrite i64_small, Byte_spec by lia. rewrite (proj2 (Z.ltb_lt _ _)) by lia. replace (32 - 1 - n) with (31 - n) by lia.
  apply u64_small. unfold is_u64. lia.
Qed.

(** Go through a table. *)
Ltac each_entry := repeat (apply Forall_cons_2; [|]); [..|apply Forall_nil_2]; cbn [fst snd]; intros.
(** Run an instruction; what is left is an equation of results. *)
Ltac run_entry :=
  intros; match goal with |- ?o _ = _ => let h := head_of o in unfold h end; cbn [app]; vm_run; rewrite ?S256_eq; repeat f_equal.

Lemma unary_ok : Forall (fun p : VM DB bytes * (Z -> Z) => forall x, is_word x -> computes (fst p) [x] (snd p x)) unary.
Proof.
  unfold unary. each_entry.
  - apply computes_intro; [unfold is_word in *; lia|]. run_entry. rewrite U256_eq. unfold word, Z.lnot. symmetry. apply (Z.mod_unique_pos _ _ (-1)); unfold is_word in *; lia.
  - apply computes_intro; [apply truth_word|]. run_entry. rewrite Z.gtb_ltb. unfold is_word, truth in *. destruct (Z.ltb_spec 0 x), (Z.eqb_spec x 0); lia.
Qed.

Lemma if_word (b : bool) x y : (b = true -> is_word x) -> (b = false -> is_word y) -> is_word (if b then x else y).
Proof. destruct b; auto. Qed.
Lemma zero_word : is_word 0.
Proof. unfold is_word. lia. Qed.

Lemma binary_ok : Forall (fun p : VM DB bytes * (Z -> Z -> Z) => forall x y, is_word x -> is_word y -> computes (fst p) [x; y] (snd p x y)) binary.
Proof.
  unfold binary. each_entry.
  - apply computes_intro; [apply word_range|]. run_entry. apply U256_eq.
  - apply computes_intro; [apply word_range|]. run_entry. apply U256_eq.
  - apply computes_intro; [apply word_range|]. run_entry. apply U256_eq.
  - apply computes_intro.
    { apply if_word; [intros; apply zero_word|]. intros ?%Z.eqb_neq. apply div_word; unfold is_word in *; lia. }
    run_entry. destruct (Z.eqb_spec y 0); [done|]. cbn [negb]. rewrite U256_eq. apply word_small, div_word; unfold is_word in *; lia.
  - apply computes_intro; [apply if_word; intros; [apply zero_word|apply word_range]|]. run_entry. by apply sdiv_value.
  - apply computes_intro.
    { apply if_word; [intros; apply zero_word|]. intros ?%Z.eqb_neq. apply mod_word; unfold is_word in *; lia. }
    run_entry. destruct (Z.eqb_spec y 0); [done|]. rewrite U256_eq. apply word_small, mod_word; unfold is_word in *; lia.
  - apply computes_intro; [apply if_word; intros; [apply zero_word|apply word_range]|]. run_entry. by apply smod_value.
  - apply computes_intro; [apply word_range|]. run_entry. apply Exp_mod. unfold is_word in *. lia.
  - apply computes_intro; [apply if_word; intros; [apply word_range|done]|]. intros. unfold opSignExtend. cbn [app]. vm_run.
    destruct (Z.ltb_spec x 31); vm_run; repeat f_equal. apply extend_value. unfold is_word in *. lia.
  - apply computes_intro; [apply truth_word|]. by run_entry.
  - apply computes_intro; [apply truth_word|]. run_entry. by rewrite Z.gtb_ltb.
  - apply computes_intro; [apply truth_word|]. run_entry. by apply slt_value.
  - apply computes_intro; [apply truth_word|]. run_entry. by apply sgt_value.
  - apply computes_intro; [apply truth_word|]. by run_entry.
  - apply computes_intro; [by apply land_word|]. by run_entry.
  - apply computes_intro; [by apply lor_word|]. by run_entry.
  - apply computes_intro; [by apply lxor_word|]. by run_entry.
  - destruct (byte_value x y) as [E Hw]; [done..|]. apply computes_intro; [done|]. run_entry. exact E.
  - apply computes_intro; [apply word_range|]. run_entry. rewrite !(U256_small x), !(U256_small y) by done. by apply shl_value.
  - apply computes_intro; [apply div_word; [done|]; unfold is_word in *; apply Z.pow_pos_nonneg; lia|].
    run_entry. rewrite !(U256_small x), !(U256_small y) by done. by apply shr_value.
Qed.

Lemma ternary_ok : Forall (fun p : VM DB bytes * (Z -> Z -> Z -> Z) =>
  forall x y z, is_word x -> is_word y -> is_word z -> computes (fst p) [x; y; z] (snd p x y z)) ternary.
Proof.
  unfold ternary. each_entry; (assert (is_word (if z =? 0 then 0 else (x + y) mod z) /\ is_word (if z =? 0 then 0 else (x * y) mod z)) as [Hw1 Hw2];
    [split; (apply if_word; [intros; apply zero_word|intros ?%Z.eqb_neq; apply mod_word; unfold is_word in *; lia])|]);
    (apply computes_intro; [done|]); run_entry; rewrite Z.gtb_ltb; unfold is_word in *; (destruct (Z.ltb_spec 0 z), (Z.eqb_spec z 0); try lia); by apply U256_small.
Qed.

(** The arithmetic, comparison and bit instructions compute what they are named after
    on 256-bit words: each takes its operands off the stack and leaves the result of the
    table's function (signed division, remainder, comparison and sign extension read words
    in two's complement; division and remainder by zero give zero; shifts of any size), and
    touches nothing else of the frame. *)
Theorem arithmetic_computes :
  Forall (fun p : VM DB bytes * (Z -> Z) => forall x, is_word x -> computes (fst p) [x] (snd p x)) unary /\
  Forall (fun p : VM DB bytes * (Z -> Z -> Z) => forall x y, is_word x -> is_word y -> computes (fst p) [x; y] (snd p x y)) binary /\
  Forall (fun p : VM DB bytes * (Z -> Z -> Z -> Z) =>
    forall x y z, is_word x -> is_word y -> is_word z -> computes (fst p) [x; y; z] (snd p x y z)) ternary.
Proof. split_and!; [apply unary_ok|apply binary_ok|apply ternary_ok]. Qed.

(** Arithmetic shift right divides the signed value by a power of two, rounding down,
    except that zero shifted by 256 or more becomes minus one: the test for a positive value
    sends zero with the negative ones. *)
Theorem sar_computes n x : is_word n -> is_word x ->
  computes opSAR [n; x] (if (256 <=? n) && (x =? 0) then 2 ^ 256 - 1 else word (signed x / 2 ^ n)).
Proof.
  intros Hn Hx. apply computes_intro; [apply if_word; intros; [unfold is_word; lia|apply word_range]|].
  run_entry. rewrite (U256_small n), Z.geb_leb, Z.gtb_ltb by done. destruct (Z.leb_spec 256 n) as [Hge|Hlt]; cbn [andb].
  - rewrite U256_eq. pose proof (signed_range x Hx). assert (2 ^ 256 <= 2 ^ n) by (apply Z.pow_le_mono_r; lia).
    destruct (Z.eqb_spec x 0) as [->|Hne]; [done|].
    assert (signed x <> 0) by (rewrite <- Z.eqb_neq, signed_0 by done; by apply Z.eqb_neq). f_equal.
    destruct (Z.ltb_spec 0 (signed x)); [rewrite Z.div_small; lia|]. apply (Z.div_unique_pos _ _ _ (signed x + 2 ^ n)); lia.
  - rewrite u64_small by (unfold is_u64, is_word in *; lia). rewrite Z.shiftr_div_pow2 by (unfold is_word in *; lia). apply U256_eq.
Qed.
End table.

Lemma sar_computes_witness : computes (DB := SDB (gmap bytes bytes)) opSAR [256; 0] (2 ^ 256 - 1).
Proof. apply (sar_computes 256 0); unfold is_word; lia. Defined.
