(* ===== verification/VmFees.v ===== *)
(** Prices: what memory and calls cost ([src/core/vm/gas_table.go], [gas.go]), and slices of
    input data ([common.go]), at the width of [uint64]. *)

From stdpp Require Import base numbers list gmap.
From S2P Require Import Prelude.
From S2P Require Import CommonMath.
From S2P Require Import Params.
From S2P Require Import VmData.
From S2P Require Import VmState.
From S2P Require Import VmGas.
From S2P Require Import VmWorld.
From S2P Require Import VmSafe.
From S2P Require Import VmExec.
From S2P Require Import State.
From S2P Require Import Sample.
Local Open Scope Z_scope.
Local Open Scope go_scope.

(** * Specification *)

(** The price of a memory of [w] words. *)
Definition memoryFee (w : Z) : Z := 3 * w + w * w / 512.
Definition words (size : Z) : Z := (size + 31) / 32.

(** A memory whose words were paid for. *)
Record paid (m : Memory) (w : Z) : Prop := {
  pd_len : m_Len m = 32 * w;
  pd_cost : m_lastGasCost m = memoryFee w;
  pd_words : 0 <= w < 2 ^ 32 }.

(** * Memory *)

Lemma memoryFee_mono v w : 0 <= v <= w -> memoryFee v <= memoryFee w.
Proof. intros H. unfold memoryFee. assert (v * v / 512 <= w * w / 512) by (apply Z.div_le_mono; nia). lia. Qed.
Lemma memoryFee_range w : 0 <= w < 2 ^ 32 -> 0 <= memoryFee w < 2 ^ 60.
Proof.
  intros H. unfold memoryFee. assert (0 <= w * w / 512 <= 2 ^ 55); [|lia]. split; [apply Z.div_pos; nia|]. apply Z.div_le_upper_bound; nia.
Qed.

Lemma toWordSize_words size : 0 <= size <= 2 ^ 62 -> toWordSize size = words size.
Proof.
  intros H. unfold toWordSize, words, MaxUint64. rewrite Z.gtb_ltb. destruct (Z.ltb_spec (2 ^ 64 - 1 - 31) size); [lia|].
  rewrite u64_small by (unfold is_u64; lia). done.
Qed.

Lemma words_range size : 0 < size <= 0x1FFFFFFFE0 -> 1 <= words size < 2 ^ 32 /\ size <= 32 * words size < size + 32.
Proof. intros H. unfold words. pose proof (Z.div_mod (size + 31) 32). pose proof (Z.mod_pos_bound (size + 31) 32). lia. Qed.

Section memory.
Context {DB : Type} `{StateDB DB}.

(** Growing memory costs the difference of the fees of the new and the old size, three
    per word and a 512th of the square of the words, and the total is remembered; memory
    that is large enough costs nothing.  No step of the computation wraps around below
    2^32 words. *)
Theorem memory_fee (f : Frame DB) size w : paid (f_mem f) w -> 0 <= size <= 0x1FFFFFFFE0 ->
  let w' := Z.max w (words size) in
  memoryGasCost size f = Ok (with_mem f (MkMemory (m_store (f_mem f)) (memoryFee w')), inr (memoryFee w' - memoryFee w)) /\
  0 <= memoryFee w' - memoryFee w.
Proof.
  intros [Hl Hc Hw] Hs w'. assert (memoryFee w <= memoryFee w') by (apply memoryFee_mono; lia). split; [|lia].
  assert (w' = w -> Ok (f, inr 0) = Ok (E := Empty_set) (with_mem f (MkMemory (m_store (f_mem f)) (memoryFee w')), inr (A := vm_error) (memoryFee w' - memoryFee w))) as Hsame.
  { intros ->. destruct f as [e c [ms mc] st pc]. cbn in *. subst. by rewrite Z.sub_diag. }
  unfold memoryGasCost. destruct (Z.eqb_spec size 0) as [->|]; [apply Hsame; unfold w'; change (words 0) with 0; lia|].
  destruct (words_range size) as [Hr1 Hr2]; [lia|]. rewrite !Z.gtb_ltb, (proj2 (Z.ltb_ge _ _)) by lia.
  rewrite toWordSize_words by lia. rewrite (u64_small (words size * 32)) by (unfold is_u64; lia). unfold vbind, vget.
  rewrite Z.gtb_ltb, Hl, (u64_small (32 * w)) by (unfold is_u64; lia). destruct (Z.ltb_spec (32 * w) (words size * 32)) as [Hg|Hg]; [|exact (Hsame ltac:(lia))].
  replace w' with (words size) in * by lia. pose proof (memoryFee_range (words size) ltac:(lia)) as Hf. pose proof (memoryFee_range w Hw).
  rewrite (u64_small (words size * words size)) by (unfold is_u64; nia). unfold MemoryGas, QuadCoeffDiv.
  rewrite (u64_small (words size * 3)) by (unfold is_u64; lia).
  replace (words size * 3 + words size * words size / 512) with (memoryFee (words size)) by (unfold memoryFee; lia).
  rewrite (u64_small (memoryFee _)) by (unfold is_u64; lia). rewrite Hc, u64_small by (unfold is_u64; lia). done.
Qed.

(** The bound of [memoryGasCost] does not keep the square from overflowing: at 2^37
    bytes, well below it, the number of words squares to 2^64, which is zero in [uint64],
    and a fresh memory of that size is sold for its linear fee alone. *)
Theorem memory_fee_overflows (f : Frame DB) : f_mem f = NewMemory ->
  2 ^ 37 < 0xffffffffe0 /\
  memoryGasCost (2 ^ 37) f = Ok (with_mem f (MkMemory [] (3 * 2 ^ 32)), inr (3 * 2 ^ 32)) /\
  memoryFee (words (2 ^ 37)) = 3 * 2 ^ 32 + 2 ^ 55.
Proof. intros E. split_and!; [done| |done]. destruct f as [e c m st pc]. cbn in E. subst. reflexivity. Qed.
End memory.

(** * Calls *)

(** From EIP150 on, a call is granted what it asks for, but at most all but one 64th of
    the gas that is left after the price of the call itself; asking for more, even for more
    than fits in 64 bits, is not an error. *)
Theorem call_gas_granted gt available base callCost :
  0 < gt_CreateBySuicide gt -> 0 <= base <= available -> available < 2 ^ 64 -> 0 <= callCost ->
  callGas gt available base callCost = Ok (Z.min callCost ((available - base) - (available - base) / 64)).
Proof.
  intros Hg Hb Ha Hc. unfold callGas. rewrite !Z.gtb_ltb, (proj2 (Z.ltb_lt _ _)) by done.
  rewrite (u64_small (available - base)) by (unfold is_u64; lia). set (a := available - base). pose proof (Z.div_mod a 64). pose proof (Z.mod_pos_bound a 64).
  rewrite (u64_small (a - a / 64)) by (unfold is_u64; lia). pose proof (bitlen_bound callCost Hc) as Hbl.
  destruct (Z.ltb_spec 64 (bitlen callCost)) as [Hl|Hl]; cbn [orb].
  - assert (2 ^ 64 <= callCost); [|f_equal; lia]. destruct (Z.lt_ge_cases callCost (2 ^ 64)) as [Hlt|]; [|done].
    apply bitlen_le in Hlt; lia.
  - assert (callCost < 2 ^ 64) by (apply bitlen_le; lia). rewrite (u64_small callCost) by (unfold is_u64; lia).
    destruct (Z.ltb_spec (a - a / 64) callCost); f_equal; lia.
Qed.

(** * Input data *)

(** [getData] is not overflow safe: it returns the requested bytes padded with zeros
    when the end of the slice fits in 64 bits, and panics when it does not. *)
Theorem getData_spec data start size : zlen data <= 2 ^ 62 -> is_u64 start -> is_u64 size ->
  let s := Z.min start (zlen data) in
  getData data start size =
    if s + size <? 2 ^ 64 then Ok (RightPadBytes (take (Z.to_nat size) (drop (Z.to_nat s) data)) (i64 size)) else Panic.
Proof.
  intros Hl [Hs1 Hs2] [Hz1 Hz2] s. pose proof (zlen_nonneg data). unfold getData. rewrite (u64_small (zlen data)) by (unfold is_u64; lia). rewrite !Z.gtb_ltb.
  replace (if zlen data <? start then zlen data else start) with s by (destruct (Z.ltb_spec (zlen data) start); lia).
  destruct (Z.ltb_spec (s + size) (2 ^ 64)) as [Hf|Hf].
  - rewrite u64_small by (unfold is_u64; lia). rewrite zslice_some by (destruct (Z.ltb_spec (zlen data) (s + size)); lia). cbn [must outcome_bind].
    do 2 f_equal. destruct (Z.ltb_spec (zlen data) (s + size)).
    + rewrite !take_ge; [done|..]; rewrite length_drop; unfold zlen in *; lia.
    + f_equal. lia.
  - assert (u64 (s + size) = s + size - 2 ^ 64) as -> by (unfold u64; symmetry; apply (Z.mod_unique_pos _ _ 1); lia).
    rewrite (proj2 (Z.ltb_ge _ _)) by lia. unfold zslice. rewrite (proj2 (Z.leb_gt s (s + size - 2 ^ 64))), andb_false_r by lia. done.
Qed.

(** * Witnesses *)

Definition emptyFrame : Frame (SDB (gmap bytes bytes)) :=
  MkFrame sampleEVM (MkContract [] [] [] [] None [] 0 0 false) NewMemory newstack 0.

Lemma memory_fee_witness : memoryGasCost 100 emptyFrame = Ok (with_mem emptyFrame (MkMemory [] 12), inr 12).
Proof. exact (proj1 (memory_fee emptyFrame 100 0 ltac:(constructor; [done|done|lia]) ltac:(lia))). Defined.

Lemma memory_fee_overflows_witness : memoryGasCost (2 ^ 37) emptyFrame = Ok (with_mem emptyFrame (MkMemory [] (3 * 2 ^ 32)), inr (3 * 2 ^ 32)).
Proof. exact (proj1 (proj2 (memory_fee_overflows emptyFrame eq_refl))). Defined.

Lemma call_gas_granted_witness : callGas GasTableEIP158 6500 100 (2 ^ 70) = Ok 6300.
Proof. exact (call_gas_granted GasTableEIP158 6500 100 (2 ^ 70) ltac:(done) ltac:(lia) ltac:(lia) ltac:(lia)). Defined.

Lemma getData_spec_witness : getData [1; 2; 3] 1 (2 ^ 64 - 1) = Panic.
Proof. exact (getData_spec [1; 2; 3] 1 (2 ^ 64 - 1) ltac:(done) ltac:(unfold is_u64; lia) ltac:(unfold is_u64; lia)). Defined.
