(* ===== verification/VmTheorems.v ===== *)
(** What the virtual machine promises its callers ([src/core/vm/evm.go], [interpreter.go]),
    over any state database that meets [StateDBLaws].  The witnesses run it over the state
    database of [State.v]. *)

From stdpp Require Import base numbers list gmap.
From S2P Require Import Prelude.
From S2P Require Import CommonMath.
From S2P Require Import Params.
From S2P Require Import VmData.
From S2P Require Import VmAnalysis.
From S2P Require Import VmState.
From S2P Require Import VmInstr.
From S2P Require Import VmJumpTable.
From S2P Require Import VmInterp.
From S2P Require Import VmWorld.
From S2P Require Import VmSafe.
From S2P Require Import VmExec.
From S2P Require Import VmTable.
From S2P Require Import VmMachine.
From S2P Require Import State.
From S2P Require Import StateLaws.
From S2P Require Import Sample.
Local Open Scope Z_scope.
Local Open Scope go_scope.

(** The four ways to call a contract. *)
Inductive callKind := KCall (value : Z) | KCallCode (value : Z) | KDelegateCall | KStaticCall.

Definition doCall {DB} `{StateDB DB} (env : Env) (fuel : nat) (k : callKind) (caller : ContractRef) (addr input : bytes) (gas : Z) (e : EVM DB) :
    outcome Empty_set (EVM DB * CallResult) :=
  match k with
  | KCall value => Call env (Run env fuel) caller addr input gas value e
  | KCallCode value => CallCode env (Run env fuel) caller addr input gas value e
  | KDelegateCall => DelegateCall env (Run env fuel) caller addr input gas e
  | KStaticCall => StaticCall env (Run env fuel) caller addr input gas e
  end.

(** Amounts are not negative, a call in read-only mode carries none, and only a contract delegates. *)
Definition callKind_ok {DB} (env : Env) (k : callKind) (caller : ContractRef) (e : EVM DB) : Prop :=
  match k with
  | KCall value => 0 <= value /\ (static env e -> value = 0)
  | KCallCode value => 0 <= value
  | KDelegateCall => exists c, caller = RefContract c
  | KStaticCall => True
  end.

Section theorems.
Context {DB : Type} `{HS : StateDB DB} (env : Env) {L : StateDBLaws DB (Keccak256 env)} (Henv : env_ok env).
Implicit Types (e : EVM DB) (f : Frame DB).

Lemma doCall_ok fuel k caller addr input gas e :
  ref_ok caller -> evm_ok env e -> digits_ok addr -> slice_ok input -> is_u64 gas -> callKind_ok env k caller e -> gas < Z.of_nat fuel ->
  call_outcome env gas e (doCall env fuel k caller addr input gas e).
Proof using Henv.
  intros Hc He Ha Hi Hg Hk Hf. pose proof (Run_ok env Henv fuel) as HR. destruct k as [v|v| |]; cbn [doCall callKind_ok] in *.
  - destruct Hk. by apply (Call_ok env Henv (Z.of_nat fuel)).
  - by apply (CallCode_ok env Henv (Z.of_nat fuel)).
  - destruct Hk as [c ->]. by eapply (DelegateCall_ok env Henv (Z.of_nat fuel)).
  - by apply (StaticCall_ok env Henv (Z.of_nat fuel)).
Qed.

(** C1. Every call returns: with more fuel than gas, a call of any kind to any code on a
    well-formed machine gives a result, no panic and no divergence; it leaves a well-formed
    machine at the same depth and in the same mode, returns at most the gas it was given,
    and keeps the snapshots of its caller valid. *)
Theorem call_returns_safely fuel k caller addr input gas e :
  ref_ok caller -> evm_ok env e -> digits_ok addr -> slice_ok input -> is_u64 gas -> callKind_ok env k caller e -> gas < Z.of_nat fuel ->
  exists e' ret left err, doCall env fuel k caller addr input gas e = Ok (e', (ret, left, err)) /\
    evm_ok env e' /\ evm_depth e' = evm_depth e /\ evm_readOnly e' = evm_readOnly e /\ slice_ok ret /\ 0 <= left <= gas /\
    forall i w, saved (evm_StateDB e) i w -> saved (evm_StateDB e') i w.
Proof using Henv.
  intros Hc He Ha Hi Hg Hk Hf. destruct (doCall_ok fuel k caller addr input gas e) as (e' & ret & left & err & E & [] & Hr & Hl & _); try done.
  by exists e', ret, left, err.
Qed.

(** C4. A call that fails, for whatever reason and however deep, leaves the world as it was:
    balances, nonces, code, storage, suicide marks, the refund counter and which accounts
    exist are those before the call. *)
Theorem failed_call_reverts fuel k caller addr input gas e e' ret left err :
  ref_ok caller -> evm_ok env e -> digits_ok addr -> slice_ok input -> is_u64 gas -> callKind_ok env k caller e -> gas < Z.of_nat fuel ->
  doCall env fuel k caller addr input gas e = Ok (e', (ret, left, Some err)) ->
  world_eq (world (evm_StateDB e')) (world (evm_StateDB e)).
Proof using Henv.
  intros Hc He Ha Hi Hg Hk Hf E. destruct (doCall_ok fuel k caller addr input gas e) as (e1 & ret1 & left1 & err1 & E1 & _ & _ & _ & Hw); try done.
  rewrite E in E1. injection E1 as <- <- <- <-. by apply Hw.
Qed.

(** C38. From the Byzantium fork on, a static call changes no account, whatever code it
    reaches: nested calls, creations, suicides, logs and storage writes included. *)
Theorem static_call_is_pure fuel caller addr input gas e :
  ref_ok caller -> evm_ok env e -> digits_ok addr -> slice_ok input -> is_u64 gas -> gas < Z.of_nat fuel -> e_IsByzantium env = true ->
  exists e' r, doCall env fuel KStaticCall caller addr input gas e = Ok (e', r) /\
    same_accounts (world (evm_StateDB e)) (world (evm_StateDB e')).
Proof using Henv. intros. apply (StaticCall_untouched env Henv (Z.of_nat fuel)); try done. by apply Run_ok. Qed.

(** Creating a contract returns; a creation that fails is undone except for the
    creator's nonce, which is advanced once the creator could pay for it. *)
Theorem create_returns fuel caller code gas value e :
  ref_ok caller -> evm_ok env e -> slice_ok code -> is_u64 gas -> gas < Z.of_nat fuel -> 0 <= value -> ~ static env e ->
  exists e' addr ret left err, Create env (Run env fuel) caller code gas value e = Ok (e', (addr, (ret, left, err))) /\
    evm_ok env e' /\ digits_ok addr /\ slice_ok ret /\ 0 <= left <= gas /\ (undone env err -> create_undone (ref_Address caller) value e e').
Proof using Henv.
  intros. destruct (Create_ok env Henv (Z.of_nat fuel) (Run env fuel) (Run_ok env Henv fuel) caller code gas value e)
    as (e' & addr & ret & left & err & E & [] & ? & ? & ? & ?); try done.
  by exists e', addr, ret, left, err.
Qed.

(** The interpreter makes progress: a step of a running frame never panics; it stops,
    or it goes on with a running frame again (operand stack within its limit, memory and
    program counter in range) and strictly less gas.  Gas is never created. *)
Theorem step_uses_gas fuel f :
  running env f -> c_Gas (f_contract f) <= Z.of_nat fuel ->
  exists f' r, step env (callOps env (Run env fuel)) f = Ok (f', r) /\ 0 <= c_Gas (f_contract f') <= c_Gas (f_contract f) /\
    evm_steps env (f_evm f) (f_evm f') /\
    match r with
    | inr None => running env f' /\ c_Gas (f_contract f') < c_Gas (f_contract f)
    | inr (Some (res, _)) => slice_ok res
    | inl _ => True
    end.
Proof using Henv.
  intros Hr Hg. assert (calls_ok env (Z.of_nat fuel) (callOps env (Run env fuel))) as Hops by by apply callOps_ok, Run_ok.
  pose proof (step_ok env Henv (Z.of_nat fuel) _ f Hops Hr Hg) as Hs. unfold wp in Hs.
  destruct (step _ _ f) as [[f' r]| | |]; try done. exists f', r. split; [done|].
  destruct r as [err|[[res err]|]]; cbn in Hs; [destruct Hs|destruct Hs as [[] ?]|destruct Hs as [[] ?]]; split_and!; try done; lia.
Qed.
End theorems.

(** * Witnesses *)

Lemma user_ok : ref_ok (RefAccount user).
Proof. split; [|done]. apply digits_ok_app; [apply digits_ok_zeros|]. by constructor. Qed.
Lemma contract_digits : digits_ok contract.
Proof. apply digits_ok_app; [apply digits_ok_zeros|]. by constructor. Qed.
(** The user sends 5 to the contract. *)
Lemma call_returns_safely_witness : exists e' ret left err,
  doCall sampleEnv 101 (KCall 5) (RefAccount user) contract [] 100 sampleEVM = Ok (e', (ret, left, err)) /\ 0 <= left <= 100.
Proof.
  destruct (call_returns_safely sampleEnv sampleEnv_ok 101 (KCall 5) (RefAccount user) contract [] 100 sampleEVM)
    as (e' & ret & left & err & E & _ & _ & _ & _ & Hl & _).
  - apply user_ok.
  - apply sampleEVM_ok.
  - apply contract_digits.
  - apply slice_ok_nil.
  - unfold is_u64. lia.
  - split; [lia|]. intros [_ H]. discriminate H.
  - lia.
  - exists e', ret, left, err. split; [exact E|exact Hl].
Defined.

(** With gas 10 the write runs out of gas, after the money was sent. *)
Definition fails {DB} (o : outcome Empty_set (EVM DB * CallResult)) : bool :=
  match o with Ok (_, (_, _, Some _)) => true | _ => false end.

Lemma failed_call_reverts_witness : exists e' ret left err,
  doCall sampleEnv 11 (KCall 5) (RefAccount user) contract [] 10 sampleEVM = Ok (e', (ret, left, Some err)) /\
  world_eq (world (evm_StateDB e')) (world (evm_StateDB sampleEVM)).
Proof.
  assert (fails (doCall sampleEnv 11 (KCall 5) (RefAccount user) contract [] 10 sampleEVM) = true) as F by (vm_compute; reflexivity).
  destruct (doCall _ _ _ _ _ _ _ _) as [[e' [[ret left] [err|]]]| | |] eqn:E; try discriminate F.
  exists e', ret, left, err. split; [exact eq_refl|]. apply (failed_call_reverts sampleEnv sampleEnv_ok 11 (KCall 5) (RefAccount user) contract [] 10 sampleEVM e' ret left err).
  - apply user_ok.
  - apply sampleEVM_ok.
  - apply contract_digits.
  - apply slice_ok_nil.
  - unfold is_u64. lia.
  - split; [lia|]. intros [_ H]. discriminate H.
  - lia.
  - exact E.
Defined.

Lemma static_call_is_pure_witness : exists e' r,
  doCall sampleEnv 101 KStaticCall (RefAccount user) contract [] 100 sampleEVM = Ok (e', r) /\
  same_accounts (world (evm_StateDB sampleEVM)) (world (evm_StateDB e')).
Proof.
  apply (static_call_is_pure sampleEnv sampleEnv_ok 101 (RefAccount user) contract [] 100 sampleEVM).
  - apply user_ok.
  - apply sampleEVM_ok.
  - apply contract_digits.
  - apply slice_ok_nil.
  - unfold is_u64. lia.
  - lia.
  - done.
Defined.

Lemma create_returns_witness : exists e' addr ret left err,
  Create sampleEnv (Run sampleEnv 101) (RefAccount user) contractCode 100 3 sampleEVM = Ok (e', (addr, (ret, left, err))) /\
  (undone sampleEnv err -> create_undone user 3 sampleEVM e').
Proof.
  destruct (create_returns sampleEnv sampleEnv_ok 101 (RefAccount user) contractCode 100 3 sampleEVM)
    as (e' & addr & ret & left & err & E & _ & _ & _ & _ & Hu).
  - apply user_ok.
  - apply sampleEVM_ok.
  - apply contractCode_ok.
  - unfold is_u64. lia.
  - lia.
  - lia.
  - intros [_ H]. discriminate H.
  - exists e', addr, ret, left, err. split; [exact E|exact Hu].
Defined.

Definition sampleFrame : Frame (SDB (gmap bytes bytes)) :=
  MkFrame sampleEVM (MkContract user contract contractCode (idealHash contractCode) (Some contract) [] 10 0 false) NewMemory newstack 0.

Lemma step_uses_gas_witness : exists f' r,
  step sampleEnv (callOps sampleEnv (Run sampleEnv 10)) sampleFrame = Ok (f', r) /\ 0 <= c_Gas (f_contract f') <= 10.
Proof.
  destruct (step_uses_gas sampleEnv sampleEnv_ok 10 sampleFrame) as (f' & r & E & Hg & _).
  - split; [|vm_compute; discriminate]. constructor.
    + apply sampleEVM_ok.
    + constructor; cbn; first [done|apply contractCode_ok|apply slice_ok_nil|apply contract_digits|apply user_ok|unfold is_u64; lia].
    + apply NewMemory_ok.
    + constructor.
    + split; vm_compute; discriminate.
  - cbn. lia.
  - exists f', r. split; [exact E|exact Hg].
Defined.
