(* ===== verification/StateTheorems.v ===== *)
(** What the state database promises ([src/core/state/statedb.go], [journal.go]): each
    mutator does to the world what its name says and nothing else, and through any history
    of mutations, snapshots and reverts every snapshot that was not discarded can be
    restored. *)

From stdpp Require Import base numbers list gmap relations.
From S2P Require Import Prelude.
From S2P Require Import CommonMath.
From S2P Require Import RlpEncode.
From S2P Require Import RlpStream.
From S2P Require Import RlpTyped.
From S2P Require Import VmData.
From S2P Require Import VmState.
From S2P Require Import VmWorld.
From S2P Require Import State.
From S2P Require Import StateLaws.
From S2P Require Import Sample.
Local Open Scope Z_scope.
Local Open Scope go_scope.

(** * Histories *)

Inductive mutation :=
| MCreateAccount (a : bytes)
| MSubBalance (a : bytes) (x : Z)
| MAddBalance (a : bytes) (x : Z)
| MSetNonce (a : bytes) (n : Z)
| MSetCode (a c : bytes)
| MAddRefund (x : Z)
| MSetState (a k v : bytes)
| MSuicide (a : bytes)
| MAddLog (l : Log)
| MAddPreimage (h p : bytes).

Section histories.
Context {T : Type} `{HT : Trie T} `{!TrieLaws T} (db : Database T) (hash : bytes -> bytes).
Implicit Types (s : SDB T).
#[local] Instance hist_StateDB : StateDB (SDB T) := SDB_StateDB db hash.

Definition mutate (m : mutation) s : SDB T :=
  match m with
  | MCreateAccount a => sCreateAccount hash a s
  | MSubBalance a x => sSubBalance hash a x s
  | MAddBalance a x => sAddBalance hash a x s
  | MSetNonce a n => sSetNonce hash a n s
  | MSetCode a c => sSetCode db hash a c s
  | MAddRefund x => sAddRefund x s
  | MSetState a k v => sSetState db hash a k v s
  | MSuicide a => fst (sSuicide hash a s)
  | MAddLog l => sAddLog l s
  | MAddPreimage h p => sAddPreimage h p s
  end.

(** Arguments are in the range of their types, and no more is taken than there is. *)
Definition mutation_ok (m : mutation) s : Prop :=
  match m with
  | MSubBalance a x => 0 <= x <= sGetBalance hash s a
  | MAddBalance a x => 0 <= x
  | MSetNonce a n => is_u64 n
  | MSetCode a c => slice_ok c
  | MSetState a k v => is_hash v
  | _ => True
  end.

(** What a mutation does to the world. *)
Definition effect (m : mutation) s : World :=
  let w := world s in
  match m with
  | MCreateAccount a => fresh_account a w
  | MSubBalance a x => set_balance a (w_balance w a - x) w
  | MAddBalance a x => set_balance a (w_balance w a + x) w
  | MSetNonce a n => set_nonce a n w
  | MSetCode a c => set_code a c w
  | MAddRefund x => set_refund (u64 (w_refund w + x)) w
  | MSetState a k v => set_storage a k v w
  | MSuicide a => if sExist hash s a then set_suicided a true (set_balance a 0 w) else w
  | MAddLog _ | MAddPreimage _ _ => w
  end.

(** A database with the snapshots taken and not discarded, newest first, each with the
    world it was taken in. *)
Abbreviation configuration := (SDB T * list (Z * World))%type.

Inductive happens : configuration -> configuration -> Prop :=
| happens_mutate s st m : mutation_ok m s -> happens (s, st) (mutate m s, st)
| happens_snapshot s st s' i : sSnapshot s = (s', i) -> happens (s, st) (s', (i, world s) :: st)
| happens_revert s s' above i w below :
    sRevertToSnapshot hash i s = Some s' -> happens (s, above ++ (i, w) :: below) (s', below).

(** * Proofs *)

Context (Hb : backing_ok db hash).
Abbreviation sdb_ok := (sdb_ok db hash).
Abbreviation sdb_saved := (sdb_saved db hash).

Lemma mutate_evolves m s : sdb_ok s -> mutation_ok m s -> sdb_evolves db hash s (mutate m s) (effect m s).
Proof using Hb.
  intros Hok Hm. destruct m; cbn [mutate effect mutation_ok] in *.
  - by apply sCreateAccount_ok.
  - by apply sSubBalance_ok.
  - by apply sAddBalance_ok.
  - by apply sSetNonce_ok.
  - by apply sSetCode_ok.
  - by apply sAddRefund_ok.
  - by apply sSetState_ok.
  - by apply sSuicide_ok.
  - by apply sAddLog_ok.
  - by apply sAddPreimage_ok.
Qed.

(** Every snapshot held can be restored, and newer ones have larger ids. *)
Record restorable (c : configuration) : Prop := {
  re_ok : sdb_ok (fst c);
  re_saved i w : (i, w) ∈ snd c -> sdb_saved (fst c) i w;
  re_sorted above i w below : snd c = above ++ (i, w) :: below -> Forall (fun p => p.1 < i) below }.

Lemma restorable_happens c c' : happens c c' -> restorable c -> restorable c'.
Proof using Hb.
  intros [s st m Hm|s st s' i Hs|s s' above i w below Hr] [Hok Hsv Hso]; cbn [fst snd] in *.
  - destruct (mutate_evolves m s Hok Hm) as (H1 & _ & H3). split; cbn; auto.
  - destruct (sSnapshot_ok db hash s s' i Hok Hs) as ((H1 & _ & H3) & H4 & H5). split; cbn; [done| |].
    + intros j v [[= -> ->]|Hj]%elem_of_cons; [done|auto].
    + intros [|p above] j v below E; injection E as E1 E2; [|by eapply Hso].
      simplify_eq. apply Forall_forall. intros [k u] Hk. by eapply H5, Hsv.
  - assert (sdb_saved s i w) as Hi by (apply Hsv, elem_of_app; right; left).
    destruct (sRevertToSnapshot_ok db hash s i w Hok Hi) as (s1 & E & H1 & _ & H3). rewrite Hr in E. injection E as <-. split; cbn; [done| |].
    + intros j v Hj. apply H3; [|by apply Hsv, elem_of_app; right; right].
      specialize (Hso above i w below eq_refl). rewrite Forall_forall in Hso. by apply (Hso (j, v)).
    + intros ab j v be ->. apply (Hso (above ++ (i, w) :: ab) j v be). by rewrite <- app_assoc.
Qed.

Lemma restorable_history c c' : rtc happens c c' -> restorable c -> restorable c'.
Proof using Hb. induction 1 as [|c c1 c2 Hs _ IH]; [done|]. intros Hr. by eapply IH, restorable_happens. Qed.

(** C5. Snapshots are never lost: after any history of mutations, nested snapshots and
    reverts, going back to any snapshot that was taken and not discarded succeeds and shows
    exactly the world in which it was taken: balances, nonces, code, storage, suicide marks,
    refund and existing accounts. *)
Theorem snapshot_restores s s' st above i w below :
  sdb_ok s -> rtc happens (s, []) (s', st) -> st = above ++ (i, w) :: below ->
  exists s'', sRevertToSnapshot hash i s' = Some s'' /\ sdb_ok s'' /\ world_eq (world s'') w.
Proof using Hb.
  intros Hok Hh ->. apply restorable_history in Hh as [H1 H2 _]; [|split; [done|by intros ? ? ?%not_elem_of_nil|by intros []]].
  destruct (sRevertToSnapshot_ok db hash s' i w H1) as (s'' & ? & ? & ? & _); [apply H2, elem_of_app; right; left|]. by exists s''.
Qed.

(** Each mutator changes the part of the world it is named after and nothing else, and
    keeps the database well-formed. *)
Theorem mutators_do_their_effect m s :
  sdb_ok s -> mutation_ok m s -> sdb_ok (mutate m s) /\ same_accounts (world (mutate m s)) (effect m s).
Proof using Hb. intros Hok Hm. by destruct (mutate_evolves m s Hok Hm) as (? & ? & _). Qed.
End histories.

(** * Witnesses *)

Abbreviation hist := (rtc (happens sampleDatabase idealHash)).

(** Two snapshots, the newer one discarded. *)
Lemma snapshot_restores_witness : exists s i s',
  hist (sampleState, []) (s, [(i, world sampleState)]) /\ sRevertToSnapshot idealHash i s = Some s' /\ world_eq (world s') (world sampleState).
Proof.
  pose (s1 := fst (sSnapshot sampleState)). pose (s2 := mutate sampleDatabase idealHash (MAddBalance contract 5) s1).
  pose (s3 := fst (sSnapshot s2)). pose (s4 := mutate sampleDatabase idealHash (MSuicide contract) s3).
  destruct (sRevertToSnapshot idealHash 1 s4) as [s5|] eqn:E; [|vm_compute in E; discriminate E].
  assert (hist (sampleState, []) (s5, [(0, world sampleState)])) as Hh.
  { eapply rtc_l; [apply (happens_snapshot _ _ _ _ s1 0); reflexivity|]. eapply rtc_l; [apply (happens_mutate _ _ _ _ (MAddBalance contract 5)); cbn; lia|].
    eapply rtc_l; [apply (happens_snapshot _ _ _ _ s3 1); reflexivity|]. eapply rtc_l; [apply (happens_mutate _ _ _ _ (MSuicide contract)); exact I|].
    eapply rtc_l; [apply (happens_revert _ _ s4 s5 [] 1); exact E|]. apply rtc_refl. }
  destruct (snapshot_restores sampleDatabase idealHash sample_backing sampleState s5 _ [] 0 (world sampleState) [] sampleState_ok Hh eq_refl) as (s' & H1 & _ & H2).
  exists s5, 0, s'. split_and!; [exact Hh|exact H1|exact H2].
Defined.

Lemma mutators_do_their_effect_witness :
  same_accounts (world (mutate sampleDatabase idealHash (MSubBalance user 1) sampleState)) (effect sampleDatabase idealHash (MSubBalance user 1) sampleState).
Proof.
  apply (mutators_do_their_effect sampleDatabase idealHash sample_backing (MSubBalance user 1) sampleState); [apply sampleState_ok|].
  split; vm_compute; discriminate.
Defined.
